(* ===== verification/_CoqProject ===== *)
-Q . S2P
Prelude.v
GoStd.v
Config.v
Xcontext.v
Partition.v
Compute.v
Router.v
Frm.v
RouterProps.v
Sql.v
PlanExpr.v
PlanExprProps.v
PlanDml.v
PlanDmlProps.v
Pool.v
PoolProps.v
Scatter.v
ScatterProps.v
Txn.v
TxnProps.v
TxnLive.v
XaRetry.v
Join.v
JoinProps.v
Operators.v
OperatorsProps.v
Engine.v
EngineProps.v
PlanSelect.v
PlanSelectProps.v
PlanTree.v
PlanTreeProps.v
PlanPush.v
PlanPushProps.v
PlanBuild.v
PlanQuery.v
PlanQueryProps.v
PlanDdl.v
ProxyDdl.v
ProxyDdlProps.v
Session.v
SessionProps.v
Stream.v
StreamProps.v
Shift.v
ShiftProps.v
Autoinc.v
AutoincProps.v
Privilege.v
Auth.v
AuthProps.v
Syncer.v
SyncerProps.v
Admin.v
AdminProps.v
Rebalance.v
RebalanceProps.v
Attach.v
AttachProps.v
Query.v
QueryProps.v
Show.v
ShowProps.v
Commands.v
CommandsProps.v
Rfile.v
RfileProps.v
SelectExact.v
Stats.v
StatsProps.v
Settings.v
SettingsProps.v
Listing.v
ListingProps.v
Ctl.v
Explain.v
ExplainProps.v
SysSelect.v
