(* ===== verification/Prelude.v ===== *)
(** * Radon: a verification library

    Radon is a proxy in front of MySQL servers: it splits tables over several
    backends, plans each statement into queries for the shards it concerns,
    coordinates writes that touch several of them with XA transactions and
    merges the results.  This library models the parts that decide where data
    lives, what is sent where, what a distributed transaction does, how results
    are combined and how the metadata is kept, and proves what they guarantee.
    Paths below are under src/src/ of the repository.

    ** The parts and where they are modelled

    - The router (router/): [Partition.v] has the four partition methods
      (hash.go, list.go, single.go, global.go) behind the class [Partitioner],
      the Go interface [Partition], with its laws [PartitionerLaws];
      [Compute.v] the layouts of compute.go; [Router.v] the schemas in memory
      (router.go, acl.go); [Frm.v] the administration that changes memory and
      the metadata directory together (frm.go, api.go); [RouterProps.v] the
      theorems about both.  The state [Router] holds the schemas, a heap of
      table configurations (the source shares them by pointer), the files and
      the outcomes of the I/O calls to come.
    - The backends (backend/): [Pool.v] connections and pools (connection.go,
      pool.go), [Scatter.v] the set of backends with its file and the
      transaction manager (scatter.go, txnmgr.go, txnz.go), [Txn.v]
      transactions and the XA protocol (txn.go, xa.go, and the log of
      xacheck.go), [XaRetry.v] the thread that finishes failed commits
      (xacheck.go), [Stream.v] the goroutines of a streamed SELECT (txn.go).
      Pools live in a heap that the scatter and every transaction point into.
      What a server answers is a list of outcomes in the pool, so the theorems
      quantify over every behaviour of the servers; every statement sent is
      logged in the pool it went through.  [Xcontext.v] has the requests the
      planner hands to a transaction.
    - The planner (planner/, planner/builder/): [Sql.v] the syntax and the
      meaning of conditions, [PlanExpr.v] the splitting of conditions and the
      routing by WHERE (expr.go, common.go), [PlanDml.v] INSERT, UPDATE and
      DELETE, [PlanSelect.v] a table scan with filters, routes, select
      expressions and GROUP BY (merge_node.go, project.go), [PlanTree.v] the
      tree of joins and the pushing of conditions (from.go, plan_node.go,
      join_node.go), [PlanPush.v] the pushing of select expressions, keys and
      comparisons (join_node.go), [PlanBuild.v] processSelect and the unions
      (builder.go), [PlanQuery.v] the queries and join variables of the leaves,
      [PlanDdl.v] the rewriting of DDL and maintenance statements.
    - The executor (executor/): [Join.v] sort-merge, Cartesian and nested-loop
      joins (merge_join.go, join_engine.go), [Operators.v] ORDER BY, LIMIT and
      aggregates, [Engine.v] the merge and union engines with their hash table,
      the executors and the tree of plans.
    - The proxy (proxy/): [ProxyDdl.v] DDL statements (ddl.go), [Session.v]
      sessions and transactions of several statements (session.go, sessions.go,
      execute.go, multistmt_txn.go, manager.go, kill.go, set.go), [Auth.v] the
      checks of a connection (auth.go, iptable.go, version.go), [Query.v] the
      dispatch of queries with the read-only check and the audit (query.go,
      audit.go), [Rfile.v] the rotating log files and those of the audit
      (xbase/rfile.go, audit/audit.go), [Show.v] SHOW statements that combine answers (show.go),
      [Commands.v] databases, maintenance and RADON statements (usedb.go,
      initdb.go, checksumtable.go, table_maintenance.go, radon.go),
      [SysSelect.v] SELECT from the system databases (selectsystem.go), [Explain.v]
      the dispatch of the optimizer and EXPLAIN (optimizer/, explain.go, the JSON
      of the plans), [Listing.v] the lists of running queries, live transactions
      and sessions (backend/queryz.go, txnz.go, sessions.go, show.go), [Admin.v]
      cleanup, XA and resharding (admin_cleanup.go, admin_xa.go, admin_reshard.go,
      admin_shift.go), [Rebalance.v] the balancing of backends
      (admin_rebalance.go, ctl/v1/shard.go), [Attach.v] attaching a server with
      tables of its own (admin_attach.go).
    - The plugins (plugins/): [Autoinc.v] automatic numbers (autoincrement/ and
      proxy/insert.go), [Privilege.v] privileges (privilege/), [Shift.v] the
      manager of the shifts that move tables (shiftmanager/).
    - The syncer (syncer/): [Syncer.v] several proxies that exchange metadata.
    - Settings and the administration interface (config/, proxy/proxy.go,
      ctl/v1/): [Settings.v] the configuration file with its defaults, the
      settings of a running proxy and the handlers that change them
      (config.go, proxy.go, radon.go), [Ctl.v] the handlers for backends, users,
      peers and metadata (backend.go, user.go, peer.go, meta.go).
    - Statistics (xbase/stats/): [Stats.v] rings, histograms, timings, counters
      and rates, shared by goroutines.
    - [SelectExact.v] composes the router, the planner and the executor: what a
      SELECT over a sharded table returns.
    - [Config.v] has the records of config/config.go, [GoStd.v] the functions
      of Go's standard library the program calls; this file the monads, the
      automation and the lemmas the others share.

    The theorems about [X.v] are in [XProps.v] where there is such a file.

    A Go function becomes a function into [res] (a value, an error or a panic);
    a method that changes state becomes a function in the state monad [M],
    whose state is kept on errors and panics.  Goroutines, clients and proxies
    that share state are step functions over an explicit state, with runs as an
    inductive relation: [Pool.v] (clients of a pool), [Stream.v] (the goroutines
    of a stream), [Session.v] (sessions), [Shift.v] (clients of the manager),
    [Syncer.v] (proxies), [Stats.v] (goroutines that count), [Listing.v]
    (connections that execute).

    ** What the theorems show

    - Two-phase commit ([TxnProps.v], [TxnLive.v]): no commit statement before
      every participant acknowledged its prepare; a commit that returns is
      acknowledged everywhere or recorded; it returns when the servers answer;
      a failed one sends nothing of the second phase; finishing gives every
      connection back, once.
    - Retrying ([XaRetry.v]): a transaction is dropped from the log only when
      every backend that held it acknowledged, or its retries are used up; the
      log empties after enough rounds that return, with failing ones in
      between; the file restores it.
    - Pools ([PoolProps.v]): under every interleaving of clients a connection
      has one owner, the channel keeps its capacity and nothing panics; the
      sequential methods are runs of that semantics.
    - Streams ([StreamProps.v]): every row once and in order, no deadlock,
      bounded memory and time.
    - Backends ([ScatterProps.v]): names and addresses stay unique; flushing
      and loading is a round trip.
    - Routing ([Partition.v], [Compute.v], [RouterProps.v]): built partitions
      cover the slots without overlap, a key is routed to the one segment that
      holds its slot, a created table is balanced and usable at once.
    - Administration ([Frm.v], [RouterProps.v]): memory and directory agree
      after any sequence of calls that return, a reload restores the router,
      renames and shifts change one table only, failures are undone (or not,
      where the theorem says so).
    - Planning ([PlanExprProps.v], [PlanDmlProps.v], [PlanSelectProps.v],
      [PlanTreeProps.v], [PlanPushProps.v], [PlanQueryProps.v]): a condition
      keeps its meaning when it is split, merged and pushed (across a join key
      when the key columns hold identical values); an INSERT is planned exactly
      when its rows can be routed; a statement reaches every row it concerns and
      a row that is written is found again, when literals are written with the
      type of the key; the positions a join notes are positions of its
      children's rows; join variables are bound when their names differ.
    - From statement to rows ([SelectExact.v]): the plan of a SELECT on a sharded
      table, executed, returns the select list of exactly the rows its WHERE
      clause is true of, under the same condition on its literals.
    - EXPLAIN ([ExplainProps.v]): an execution asks no backend, no partition and,
      without nested loops, no query that EXPLAIN does not list.
    - Execution ([JoinProps.v], [OperatorsProps.v], [EngineProps.v]): the
      strategies compute the reference join [joined]; a pushed LIMIT loses no
      row; groups, counts and unions are what SQL says, where a theorem does not
      say otherwise.  What is sorted is assumed to be ordered by the comparison
      ([lawful], stated of the values of a column); of the vendored comparison
      this is proved for columns of one type and refuted for mixed ones.
    - The proxy ([ProxyDdlProps.v], [SessionProps.v], [AuthProps.v],
      [QueryProps.v], [RfileProps.v], [ShowProps.v], [CommandsProps.v], [AdminProps.v],
      [RebalanceProps.v], [AttachProps.v]): DDL keeps router and backends
      together or is undone; transactions belong to live sessions, as long as a
      session sends no statement with a transaction of its own inside one; a
      client gets in with its password, up to collisions of the hash; nothing
      that changes passes a read-only proxy and what passes is audited when the
      audit is on and it is no stream, in files that lose nothing; a status adds
      up its partitions; cleanup and attach leave alone what they must; a
      rebalance evens out.
    - Settings ([SettingsProps.v]): a configuration that was written is read
      back, and after every accepted request the file holds what runs, an empty
      peer address apart.
    - Statistics and listings ([StatsProps.v], [ListingProps.v]): however
      goroutines interleave nothing is lost or counted twice; the list of queries
      is that of the queries not streamed; a user sees its own sessions only.
    - Plugins ([AutoincProps.v], [Privilege.v], [ShiftProps.v]): numbers are
      unique, a statement needs the rights of its kind on every table's database,
      shifts exclude each other.
    - Synchronizing ([SyncerProps.v]): versions do not fall, directories are
      not mixed, and all proxies that list the newest one come to agree.

    A theorem that shows a wrong behaviour of the code says so in its comment.

    ** Bounds and fuel

    Integers that wrap are kept at 64 bits by [wrap] and [swrap].  The loop of
    [mergeJoin] has one unit of fuel per row of both sides and one more; every
    iteration but the last passes a row, and [mergeJoin_correct] excludes that
    it runs out.  [handle_others] recurses on the children that pushing returns
    and has the height of the tree as fuel; pushing keeps the height, so more
    fuel changes nothing ([handle_others_fuel]).  The retry loop of the second
    phase is bounded by [xaMaxRetryNum], 10 in the source.  [drain] of a pool
    has the length of its channel as fuel, [Itoa] the number of bits.

    ** Parameters

    - Go: [SortKey] (sort.Sort by a number), [MapRange] with [MapRangeOk] and [InMapRange] (the order in which maps
      are iterated), [GoSort] (sort.Slice, whose order of ties is open),
      [Schedule] (the order in which goroutines append their rows), [Rand]
      (rand.Intn), [SHA1], [RegExp].
    - Third-party packages: [JumpHash] (the jump consistent hash), [Driver] (the
      connection ids a server gives), [Values] and [Arith] (SQL values, their
      comparison and arithmetic), [SqlSem] (the meaning of SQL operators),
      [SqlPrinter], [ExprPrinter], [StmtPrinter], [DdlPrinter] (the text of
      syntax trees), [MetaJson], [DrvInfo] (what a driver's session says of itself).
    - What other parts do, where a part is modelled against their interface:
      [TxnExec] (a transaction as the engines see it), [Planning] (a plan as a
      session sees it), [Reload] (loading a directory), [Servers] (the answers
      to administrative queries), [Handlers] and [Parser] (what the dispatch of
      queries calls).

    Each class of laws has an instance, and the witnesses run on it.

    ** Not modelled

    The network server, its start and stop, the routes of HTTP and the export of
    statistics to a monitoring system are I/O; the watch on the disk compares
    floating-point numbers.  The SQL parser and the MySQL protocol are a library
    of their own.  Of the planner, comments and locking clauses (pushMisc) and
    the substitution that serves subqueries in FROM, which are refused, are left
    out; of the JSON of plans, that of DDL and maintenance statements, which
    EXPLAIN refuses.  JSON is modelled by values, without its text.  The
    goroutines that send one statement work on different backends and are run
    one after the other in an arbitrary order.  Files named mock.go and fakedb/
    serve the tests. *)
From Stdlib Require Export ZArith Lia.
From stdpp Require Export sorting.
From stdpp Require Export base tactics numbers fin_maps gmap strings list.

Open Scope Z_scope.

(** ** Results of Go functions

    A Go function that returns [(T, error)] returns a value, returns an error
    or panics.  [Panic] stands for every run-time panic the source can reach:
    a nil dereference, an index out of range, a division by zero, and
    [log.Panic]. *)
Inductive res (E A : Type) : Type :=
| Ok (a : A)
| Err (e : E)
| Panic.
Arguments Ok {E A} _.
Arguments Err {E A} _.
Arguments Panic {E A}.

Global Instance res_ret E : MRet (res E) := fun A x => Ok x.
Global Instance res_bind E : MBind (res E) := fun A B f m =>
  match m with
  | Ok a => f a
  | Err e => Err e
  | Panic => Panic
  end.

Global Instance res_fmap E : FMap (res E) := fun A B f m =>
  match m with
  | Ok a => Ok (f a)
  | Err e => Err e
  | Panic => Panic
  end.

Definition is_Ok {E A} (r : res E A) : bool :=
  match r with Ok _ => true | _ => false end.
Definition is_Err {E A} (r : res E A) : bool :=
  match r with Err _ => true | _ => false end.

(** ** Stateful code

    A method of a Go object is a function of the object's state.  The state is
    returned on the error path and on the panicking path too: what a method
    wrote before it failed stays written. *)
Definition M (S E A : Type) : Type := S -> res E A * S.

Global Instance M_ret S E : MRet (M S E) := fun A x s => (Ok x, s).
Global Instance M_bind S E : MBind (M S E) := fun A B f m s =>
  match m s with
  | (Ok a, s') => f a s'
  | (Err e, s') => (Err e, s')
  | (Panic, s') => (Panic, s')
  end.

Section monad.
Context {S E : Type}.

Definition mget : M S E S := fun s => (Ok s, s).
Definition mput (s : S) : M S E unit := fun _ => (Ok tt, s).
Definition mmodify (f : S -> S) : M S E unit := fun s => (Ok tt, f s).
Definition mfail {A} (e : E) : M S E A := fun s => (Err e, s).
Definition mpanic {A} : M S E A := fun s => (Panic, s).

(** [if err := m(); err != nil { h }]: run [m] and hand its error, if any,
    to the caller instead of returning it. *)
Definition mtry {A} (m : M S E A) : M S E (A + E) := fun s =>
  match m s with
  | (Ok a, s') => (Ok (inl a), s')
  | (Err e, s') => (Ok (inr e), s')
  | (Panic, s') => (Panic, s')
  end.

(** Embed a computation that does not touch the state. *)
Definition mlift {A} (r : res E A) : M S E A := fun s => (r, s).

(** [for _, x := range xs { if err := f(x); err != nil { return err } }] *)
Fixpoint miter {A} (f : A -> M S E unit) (xs : list A) : M S E unit :=
  match xs with
  | [] => mret tt
  | x :: xs => _ ← f x; miter f xs
  end.
End monad.

(** A step of a Go [for ... range] loop that threads an accumulator and can
    return early with an error. *)
Fixpoint res_fold {E A B} (f : B -> A -> res E B) (acc : B) (xs : list A) : res E B :=
  match xs with
  | [] => Ok acc
  | x :: xs => acc' ← f acc x; res_fold f acc' xs
  end.

(** A loop that collects one result per element, [r = append(r, y)]. *)
Fixpoint res_map {E A B} (f : A -> res E B) (xs : list A) : res E (list B) :=
  match xs with
  | [] => Ok []
  | x :: xs => y ← f x; ys ← res_map f xs; Ok (y :: ys)
  end.

Section laws.
Context {S E : Type}.

Lemma M_bind_Ok {A B} (m : M S E A) (k : A -> M S E B) s a s' :
  m s = (Ok a, s') -> (x ← m; k x) s = k a s'.
Proof. intros H. unfold mbind, M_bind. by rewrite H. Qed.

Lemma M_bind_Err {A B} (m : M S E A) (k : A -> M S E B) s e s' :
  m s = (Err e, s') -> (x ← m; k x) s = (Err e, s').
Proof. intros H. unfold mbind, M_bind. by rewrite H. Qed.

(** What a successful sequence says of its two halves. *)
Lemma M_bind_inv_Ok {A B} (m : M S E A) (k : A -> M S E B) s b s' :
  (x ← m; k x) s = (Ok b, s') ->
  exists a s1, m s = (Ok a, s1) /\ k a s1 = (Ok b, s').
Proof.
  unfold mbind, M_bind. destruct (m s) as [[a|e|] s1] eqn:Hm; naive_solver.
Qed.

(** An invariant of the state is kept by a sequence when both halves keep
    it, whatever they return. *)
Definition preserves {A} (P : S -> Prop) (m : M S E A) : Prop :=
  forall s, P s -> P (snd (m s)).

Lemma preserves_bind {A B} P (m : M S E A) (k : A -> M S E B) :
  preserves P m -> (forall a, preserves P (k a)) -> preserves P (x ← m; k x).
Proof.
  intros Hm Hk s Hs. unfold mbind, M_bind.
  specialize (Hm s Hs). destruct (m s) as [[a|e|] s1]; simpl in *; auto.
  by apply Hk.
Qed.

Lemma preserves_mtry {A} P (m : M S E A) : preserves P m -> preserves P (mtry m).
Proof.
  intros Hm s Hs. specialize (Hm s Hs). unfold mtry.
  destruct (m s) as [[a|e|] s1]; auto.
Qed.

Lemma preserves_miter {A} P (f : A -> M S E unit) xs :
  (forall x, preserves P (f x)) -> preserves P (miter f xs).
Proof.
  intros Hf. induction xs as [|x xs IH]; simpl.
  - by intros s Hs.
  - by apply preserves_bind.
Qed.
End laws.

Lemma res_fold_app {E A B} (f : B -> A -> res E B) acc xs ys :
  res_fold f acc (xs ++ ys) = (acc' ← res_fold f acc xs; res_fold f acc' ys).
Proof.
  revert acc. induction xs as [|x xs IH]; intros acc; [done|].
  simpl. destruct (f acc x); simpl; auto.
Qed.

Lemma res_map_Ok {E A B} (f : A -> res E B) xs ys :
  res_map f xs = Ok ys <-> Forall2 (fun x y => f x = Ok y) xs ys.
Proof.
  revert ys. induction xs as [|x xs IH]; intros ys; simpl.
  - split; [by intros [= <-]|]. intros H. by apply Forall2_nil_inv_l in H as ->.
  - split.
    + destruct (f x) as [y| |] eqn:Hf; simpl; try done. destruct (res_map f xs) as [zs| |]; simpl; try done.
      intros [= <-]. constructor; [done|]. by apply IH.
    + intros (y & zs & Hf & Hzs & ->)%Forall2_cons_inv_l. rewrite Hf. simpl. by apply IH in Hzs as ->.
Qed.

(** An invariant of the accumulator holds at the end of a loop that returned. *)
Lemma res_fold_inv {E A B} (f : B -> A -> res E B) (I : list A -> B -> Prop) acc xs r :
  I [] acc ->
  (forall ys x b b', I ys b -> f b x = Ok b' -> I (ys ++ [x]) b') ->
  res_fold f acc xs = Ok r -> I xs r.
Proof.
  intros H0 Hstep.
  assert (forall zs acc, I zs acc -> res_fold f acc xs = Ok r -> I (zs ++ xs) r) as Hgen.
  { induction xs as [|x xs IH]; intros zs b Hb Hf; simpl in Hf.
    - simplify_eq. by rewrite app_nil_r.
    - destruct (f b x) as [b'| |] eqn:Hfx; simpl in Hf; try done.
      replace (zs ++ x :: xs) with ((zs ++ [x]) ++ xs) by (by rewrite <- app_assoc).
      eauto. }
  intros Hr. by apply (Hgen [] acc).
Qed.

(** ** Iteration over a Go map

    [for k, v := range m] visits the entries in an order the language leaves
    open.  A client is proved for every order: [map_range] is a parameter and
    [MapRangeOk] says that it visits each entry once. *)
Class MapRange := { map_range : forall A : Type, gmap string A -> list (string * A) }.
Arguments map_range {_ A} _.
Class MapRangeOk (R : MapRange) :=
  map_range_perm : forall A (m : gmap string A), Permutation (map_range m) (map_to_list m).

(** The order of the map's own enumeration, to evaluate examples. *)
#[export] Instance canonical_range : MapRange := {| map_range A m := map_to_list m |}.
#[export] Instance canonical_range_ok : MapRangeOk canonical_range.
Proof. intros A m. reflexivity. Qed.

(** ** Files

    The outcome of an I/O call: success, a failure that changed nothing, or a
    failure after the file was truncated. *)
Inductive io_result := IoOk | IoFail | IoTorn.

(** ** Machine integers *)
Definition wrap (w z : Z) : Z := z mod 2 ^ w.
(** Two's complement value of the [w] low bits. *)
Definition swrap (w z : Z) : Z :=
  let u := z mod 2 ^ w in if u <? 2 ^ (w - 1) then u else u - 2 ^ w.

Definition in_int64 (z : Z) : Prop := - 2 ^ 63 <= z < 2 ^ 63.
Global Instance in_int64_dec z : Decision (in_int64 z) := _.

Lemma swrap_id w z : 0 < w -> - 2 ^ (w - 1) <= z < 2 ^ (w - 1) -> swrap w z = z.
Proof.
  intros Hw Hz. unfold swrap.
  assert (2 ^ w = 2 * 2 ^ (w - 1)) as Hp.
  { replace w with (Z.succ (w - 1)) at 1 by lia. rewrite Z.pow_succ_r; lia. }
  destruct (decide (0 <= z)).
  - rewrite Z.mod_small by lia. destruct (Z.ltb_spec z (2 ^ (w - 1))); lia.
  - rewrite <- (Z.mod_add z 1) by lia. rewrite Z.mod_small by lia.
    destruct (Z.ltb_spec (z + 1 * 2 ^ w) (2 ^ (w - 1))); lia.
Qed.

(** ** Automation *)
Create HintDb radon discriminated.
Create Rewrite HintDb radon_simpl.

(** Case analysis on the boolean comparisons of the source. *)
Ltac bcase :=
  repeat match goal with
  | |- context [Z.ltb ?a ?b] => destruct (Z.ltb_spec a b)
  | |- context [Z.leb ?a ?b] => destruct (Z.leb_spec a b)
  | |- context [Z.eqb ?a ?b] => destruct (Z.eqb_spec a b)
  | H : context [Z.ltb ?a ?b] |- _ => destruct (Z.ltb_spec a b)
  | H : context [Z.leb ?a ?b] |- _ => destruct (Z.leb_spec a b)
  | H : context [Z.eqb ?a ?b] |- _ => destruct (Z.eqb_spec a b)
  end.

(** Open a successful [res] computation one bind at a time. *)
Ltac res_inv :=
  repeat match goal with
  | H : Ok _ = Ok _ |- _ => injection H as H; subst
  | H : Err _ = Ok _ |- _ => discriminate H
  | H : Panic = Ok _ |- _ => discriminate H
  | H : mbind _ ?m = Ok _ |- _ =>
      let E := fresh "E" in
      destruct m eqn:E; simpl in H; [|discriminate H|discriminate H]
  end.

(** ** Ranges of integers *)
Lemma seqZ_snoc m n : 0 <= n -> seqZ m (n + 1) = seqZ m n ++ [m + n].
Proof.
  intros Hn. rewrite seqZ_app by lia. f_equal.
Qed.

(** ** Sums of lists of integers *)
Definition sumZ (l : list Z) : Z := foldr Z.add 0 l.

Lemma sumZ_app l1 l2 : sumZ (l1 ++ l2) = sumZ l1 + sumZ l2.
Proof. induction l1 as [|x l1 IH]; simpl; lia. Qed.

(** ** Nested loops that append, [for ... { for ... { l = append(l, x) } }] *)
Lemma filter_bind {A B} (P : B -> Prop) `{!forall x, Decision (P x)} (f : A -> list B) l :
  filter P (x ← l; f x) = (x ← l; filter P (f x)).
Proof.
  induction l as [|x l IH]; [done|]. rewrite !bind_cons, filter_app. by f_equal.
Qed.

Lemma fmap_bind {A B C} (g : B -> C) (f : A -> list B) (l : list A) :
  g <$> (x ← l; f x) = (x ← l; g <$> f x).
Proof.
  induction l as [|x l IH]; [done|]. rewrite !bind_cons, fmap_app. by f_equal.
Qed.

Lemma bind_nil_all {A B} (f : A -> list B) (l : list A) :
  (forall x, x ∈ l -> f x = []) -> (x ← l; f x) = [].
Proof.
  induction l as [|x l IH]; intros Hf; [done|]. rewrite bind_cons, Hf by set_solver.
  apply IH. set_solver.
Qed.

(** Only one value of the outer loop contributes. *)
Lemma bind_only {A B} (f : A -> list B) (a : A) (l : list A) :
  NoDup l -> a ∈ l -> (forall x, x ∈ l -> x <> a -> f x = []) -> (x ← l; f x) = f a.
Proof.
  induction 1 as [|x l Hx Hl IH]; intros Ha Hf; [set_solver|]. rewrite bind_cons.
  apply elem_of_cons in Ha as [<-|Ha].
  - rewrite bind_nil_all, app_nil_r; [done|]. intros y Hy. apply Hf; set_solver.
  - rewrite Hf by set_solver. apply IH; set_solver.
Qed.

Lemma length_bind_const {A B} (f : A -> list B) (l : list A) n :
  (forall x, x ∈ l -> length (f x) = n) -> length (x ← l; f x) = (length l * n)%nat.
Proof.
  induction l as [|x l IH]; intros Hf; [done|].
  rewrite bind_cons, length_app, IH, Hf by set_solver. done.
Qed.

Lemma bind_singleton {A B} (f : A -> B) (l : list A) : (x ← l; [f x]) = f <$> l.
Proof. induction l as [|x l IH]; [done|]. rewrite bind_cons, IH. done. Qed.

Section list_filter.
Context {A : Type} (P : A -> Prop) `{!forall x, Decision (P x)}.

Lemma list_filter_all (l : list A) : Forall P l -> filter P l = l.
Proof. induction 1; [done|]. rewrite filter_cons_True by done. by f_equal. Qed.

Lemma list_filter_none (l : list A) : Forall (fun x => ~ P x) l -> filter P l = [].
Proof. induction 1; [done|]. by rewrite filter_cons_False. Qed.
End list_filter.

(** ** Loops in the state monad *)
Lemma miter_app {S E A} (f : A -> M S E unit) xs ys s :
  miter f (xs ++ ys) s = (_ ← miter f xs; miter f ys) s.
Proof.
  revert s. induction xs as [|x xs IH]; intros s; [done|]. simpl.
  unfold mbind, M_bind in *. destruct (f x s) as [[[]|e|] s1]; [|done..]. apply IH.
Qed.

(** A nested loop is a loop over the pairs. *)
Lemma miter_nested {S E A B C} (f : C -> M S E unit) (g : A -> list B) (h : A -> B -> C) xs s :
  miter (fun a => miter (fun b => f (h a b)) (g a)) xs s
  = miter f (a ← xs; h a <$> g a) s.
Proof.
  assert (forall a l s, miter (fun b => f (h a b)) l s = miter f (h a <$> l) s) as Hin.
  { intros a l. induction l as [|b l IH]; intros s0; [done|]. simpl.
    unfold mbind, M_bind. destruct (f (h a b) s0) as [[[]|e|] s1]; [|done..]. apply IH. }
  revert s. induction xs as [|a xs IH]; intros s; [done|].
  rewrite bind_cons, miter_app. simpl. unfold mbind at 1 2, M_bind. rewrite Hin.
  destruct (miter f (h a <$> g a) s) as [[[]|e|] s1]; [|done..]. apply IH.
Qed.

(** Keyed lists: distinct keys and distinct values under each key. *)
Lemma NoDup_keyed {A B} (l : list (A * list B)) :
  NoDup (fst <$> l) -> Forall (fun kv => NoDup (snd kv)) l ->
  NoDup (kv ← l; pair (fst kv) <$> snd kv).
Proof.
  induction l as [|[k vs] l IH]; intros Hk Hv; [constructor|].
  rewrite bind_cons. apply NoDup_cons in Hk as [Hn Hk]. apply Forall_cons in Hv as [Hvs Hv].
  apply NoDup_app. simpl. split_and!; [|intros [a b]|by apply IH].
  - apply (NoDup_fmap_2 (pair k)); done.
  - intros (v & [= -> ->] & _)%list_elem_of_fmap Hin. apply Hn.
    apply list_elem_of_bind in Hin as (kv & (v' & [= -> ->] & _)%list_elem_of_fmap & Hin).
    exact (list_elem_of_fmap_2 fst l kv Hin).
Qed.

Lemma existsb_elem {A} (f : A -> bool) (l : list A) :
  existsb f l = true <-> exists x, x ∈ l /\ f x = true.
Proof. rewrite List.existsb_exists. by setoid_rewrite list_elem_of_In. Qed.
