(* ===== verification/GoStd.v ===== *)
(** * The parts of Go's standard library the program calls

    [strconv.Atoi], [strconv.ParseInt(s, 0, 64)], the verbs [%d] and [%04d] of
    [fmt.Sprintf], [strings.Split], [strings.Replace], [strings.ContainsAny],
    [strings.ToUpper] (on ASCII) and [sort.Strings].  Go strings are byte
    strings; [string] is a list of 8-bit characters. *)
From Stdlib Require Export Ascii.
From S2P Require Import Prelude.

Open Scope string_scope.
Open Scope list_scope.
Open Scope Z_scope.

#[local] Arguments String.append : simpl nomatch.

(** ** Decimal digits *)
Definition digit_char (d : Z) : ascii := ascii_of_nat (48 + Z.to_nat d).

Definition digit_val (c : ascii) : option Z :=
  let n := Z.of_nat (nat_of_ascii c) in
  if (48 <=? n) && (n <=? 57) then Some (n - 48) else None.

(** ** strconv.Itoa, the verb %d *)
Fixpoint itoa_loop (fuel : nat) (n : Z) (acc : string) : string :=
  match fuel with
  | O => acc
  | S f =>
      let acc := String (digit_char (n mod 10)) acc in
      if n <? 10 then acc else itoa_loop f (n / 10) acc
  end.

(** A number has at most as many decimal digits as binary ones. *)
Definition itoa_fuel (n : Z) : nat := S (Z.to_nat (Z.log2 n)).

Definition Itoa (n : Z) : string :=
  if n <? 0 then String "-" (itoa_loop (itoa_fuel (- n)) (- n) "")
  else itoa_loop (itoa_fuel n) n "".

(** The verb [%04d]: at least four characters, padded with zeros after the
    sign. *)
Fixpoint zeros (n : nat) : string :=
  match n with O => "" | S n => String "0" (zeros n) end.

Definition fmt_04d (n : Z) : string :=
  if n <? 0 then
    let s := itoa_loop (itoa_fuel (- n)) (- n) "" in
    String "-" (zeros (3 - String.length s) +:+ s)
  else let s := Itoa n in zeros (4 - String.length s) +:+ s.

(** ** strconv.Atoi *)
Fixpoint digits_val (s : string) (acc : Z) : option Z :=
  match s with
  | EmptyString => Some acc
  | String c s =>
      match digit_val c with
      | Some d => digits_val s (acc * 10 + d)
      | None => None
      end
  end.

Definition nonempty_digits (s : string) : option Z :=
  match s with EmptyString => None | _ => digits_val s 0 end.

Definition int64_of (z : Z) : option Z :=
  if decide (in_int64 z) then Some z else None.

(** [None] is the error of the Go function, a syntax or a range error. *)
Definition Atoi (s : string) : option Z :=
  match s with
  | String "-" t => z ← nonempty_digits t; int64_of (- z)
  | String "+" t => z ← nonempty_digits t; int64_of z
  | _ => z ← nonempty_digits s; int64_of z
  end.

(** ** strconv.ParseInt(s, 0, 64)

    Base 0: the prefix [0x] or [0X] selects base 16, another leading [0] base
    8, and everything else is decimal. *)
Definition hex_val (c : ascii) : option Z :=
  let n := Z.of_nat (nat_of_ascii c) in
  if (48 <=? n) && (n <=? 57) then Some (n - 48)
  else if (97 <=? n) && (n <=? 102) then Some (n - 87)
  else if (65 <=? n) && (n <=? 70) then Some (n - 55)
  else None.

Fixpoint base_val (b : Z) (s : string) (acc : Z) : option Z :=
  match s with
  | EmptyString => Some acc
  | String c s =>
      match hex_val c with
      | Some d => if d <? b then base_val b s (acc * b + d) else None
      | None => None
      end
  end.

Definition parse_uint0 (s : string) : option Z :=
  match s with
  | EmptyString => None
  | String "0" (String "x" t) | String "0" (String "X" t) =>
      match t with EmptyString => None | _ => base_val 16 t 0 end
  | String "0" t => base_val 8 t 0
  | _ => digits_val s 0
  end.

Definition ParseInt0 (s : string) : option Z :=
  match s with
  | String "-" t => z ← parse_uint0 t; int64_of (- z)
  | String "+" t => z ← parse_uint0 t; int64_of z
  | _ => z ← parse_uint0 s; int64_of z
  end.

(** ** strings.Split(s, sep) for a one-byte separator *)
Fixpoint Split (sep : ascii) (s : string) : list string :=
  match s with
  | EmptyString => [EmptyString]
  | String c s' =>
      if decide (c = sep) then EmptyString :: Split sep s'
      else match Split sep s' with
           | [] => [String c EmptyString]
           | t :: ts => String c t :: ts
           end
  end.

(** ** strings.Replace(s, old, new, 1): the first occurrence *)
Fixpoint strip_prefix (p s : string) : option string :=
  match p, s with
  | EmptyString, _ => Some s
  | String a p, String b s => if decide (a = b) then strip_prefix p s else None
  | String _ _, EmptyString => None
  end.

Fixpoint Replace1 (s old new : string) : string :=
  match strip_prefix old s with
  | Some rest => new +:+ rest
  | None => match s with
            | EmptyString => EmptyString
            | String c s' => String c (Replace1 s' old new)
            end
  end.

(** [strings.TrimPrefix] *)
Definition TrimPrefix (s p : string) : string := default s (strip_prefix p s).

(** [strings.TrimSuffix] *)
Definition TrimSuffix (s suffix : string) : string :=
  let n := (String.length s - String.length suffix)%nat in
  if decide ((String.length suffix <= String.length s)%nat /\ String.substring n (String.length suffix) s = suffix)
  then String.substring 0 n s else s.

(** [strings.HasPrefix] *)
Definition HasPrefix (s p : string) : bool := bool_decide (is_Some (strip_prefix p s)).

(** [strings.Contains] *)
Fixpoint Contains (s sub : string) : bool :=
  HasPrefix s sub || match s with String _ t => Contains t sub | EmptyString => false end.

(** [strings.TrimSpace] on ASCII text. *)
Definition is_space (c : ascii) : bool := existsb (Ascii.eqb c) ["009"; "010"; "011"; "012"; "013"; " "]%char.
Fixpoint TrimLeft (s : string) : string :=
  match s with String c t => if is_space c then TrimLeft t else s | EmptyString => "" end.
Fixpoint TrimRight (s : string) : string :=
  match s with
  | String c t => match TrimRight t with EmptyString => if is_space c then "" else String c "" | t' => String c t' end
  | EmptyString => ""
  end.
Definition TrimSpace (s : string) : string := TrimRight (TrimLeft s).

(** ** strings.ContainsAny *)
Fixpoint has_char (c : ascii) (s : string) : bool :=
  match s with
  | EmptyString => false
  | String d s => if decide (c = d) then true else has_char c s
  end.

Fixpoint ContainsAny (s chars : string) : bool :=
  match s with
  | EmptyString => false
  | String c s => has_char c chars || ContainsAny s chars
  end.

(** ** strings.ToUpper, strings.ToLower and strings.EqualFold on ASCII *)
Definition upper_char (c : ascii) : ascii :=
  let n := nat_of_ascii c in
  if ((97 <=? n) && (n <=? 122))%nat then ascii_of_nat (n - 32) else c.

Fixpoint ToUpper (s : string) : string :=
  match s with
  | EmptyString => EmptyString
  | String c s => String (upper_char c) (ToUpper s)
  end.

(** [strings.ToLower] *)
Definition lower_char (c : ascii) : ascii :=
  let n := nat_of_ascii c in
  if ((65 <=? n) && (n <=? 90))%nat then ascii_of_nat (n + 32) else c.

Fixpoint ToLower (s : string) : string :=
  match s with
  | EmptyString => EmptyString
  | String c s => String (lower_char c) (ToLower s)
  end.

Definition EqualFold (s t : string) : bool := bool_decide (ToUpper s = ToUpper t).

(** ** sort.Strings *)
Definition str_le (a b : string) : Prop := String.leb a b = true.
Global Instance str_le_dec : RelDecision str_le.
Proof. intros a b. unfold str_le. apply _. Defined.

Definition sort_Strings (l : list string) : list string := merge_sort str_le l.

(** ** Both foldings identify the same strings *)
Lemma lower_upper_char c : lower_char (upper_char c) = lower_char c.
Proof. destruct c as [[] [] [] [] [] [] [] []]; reflexivity. Qed.
Lemma upper_lower_char c : upper_char (lower_char c) = upper_char c.
Proof. destruct c as [[] [] [] [] [] [] [] []]; reflexivity. Qed.

Lemma ToLower_ToUpper s : ToLower (ToUpper s) = ToLower s.
Proof. induction s as [|c s IH]; [done|]. cbn [ToLower ToUpper]. by rewrite lower_upper_char, IH. Qed.
Lemma ToUpper_ToLower s : ToUpper (ToLower s) = ToUpper s.
Proof. induction s as [|c s IH]; [done|]. cbn [ToLower ToUpper]. by rewrite upper_lower_char, IH. Qed.

Lemma EqualFold_lower s t : EqualFold s t = true <-> ToLower s = ToLower t.
Proof.
  unfold EqualFold. rewrite bool_decide_eq_true. split; intros H.
  - by rewrite <- ToLower_ToUpper, H, ToLower_ToUpper.
  - by rewrite <- ToUpper_ToLower, H, ToUpper_ToLower.
Qed.

(** ** Lemmas on decimal conversion *)
Arguments digit_char : simpl never.
Arguments digit_val : simpl never.
Definition is_digit (c : ascii) : Prop := is_Some (digit_val c).

Fixpoint str_Forall (P : ascii -> Prop) (s : string) : Prop :=
  match s with EmptyString => True | String c s => P c /\ str_Forall P s end.

Lemma str_Forall_app P s t : str_Forall P (s +:+ t) <-> str_Forall P s /\ str_Forall P t.
Proof. induction s as [|c s IH]; simpl; tauto. Qed.

Lemma str_app_nil_r s : s +:+ "" = s.
Proof. induction s as [|c s IH]; simpl; congruence. Qed.

Lemma str_app_assoc s t u : (s +:+ t) +:+ u = s +:+ (t +:+ u).
Proof. induction s as [|c s IH]; simpl; congruence. Qed.

Lemma digit_val_char d : 0 <= d < 10 -> digit_val (digit_char d) = Some d.
Proof.
  intros Hd.
  assert (d = 0 \/ d = 1 \/ d = 2 \/ d = 3 \/ d = 4 \/
          d = 5 \/ d = 6 \/ d = 7 \/ d = 8 \/ d = 9) as Hc by lia.
  destruct_or! Hc; subst; reflexivity.
Qed.

Lemma digits_val_app s t z :
  digits_val (s +:+ t) z = (v ← digits_val s z; digits_val t v).
Proof.
  revert z. induction s as [|c s IH]; intros z; simpl; [done|].
  destruct (digit_val c); auto.
Qed.

Lemma itoa_loop_acc fuel n acc : itoa_loop fuel n acc = itoa_loop fuel n "" +:+ acc.
Proof.
  revert n acc. induction fuel as [|f IH]; intros n acc; simpl; [done|].
  destruct (n <? 10); [done|].
  rewrite (IH _ (String _ acc)), (IH _ (String _ "")), str_app_assoc. done.
Qed.

Lemma itoa_loop_val fuel n :
  0 <= n < 2 ^ Z.of_nat fuel -> digits_val (itoa_loop fuel n "") 0 = Some n.
Proof.
  revert n. induction fuel as [|f IH]; intros n Hn; cbn [itoa_loop].
  { simpl. simpl in Hn. f_equal. lia. }
  rewrite Nat2Z.inj_succ, Z.pow_succ_r in Hn by lia.
  destruct (Z.ltb_spec n 10).
  - rewrite Z.mod_small by lia. cbn [digits_val].
    rewrite digit_val_char by lia. f_equal; lia.
  - rewrite itoa_loop_acc, digits_val_app, IH; cbn [digits_val mbind option_bind].
    + rewrite digit_val_char by (apply Z.mod_pos_bound; lia).
      f_equal. pose proof (Z.div_mod n 10). lia.
    + split; [apply Z.div_pos; lia|]. apply Z.div_lt_upper_bound; lia.
Qed.

Lemma itoa_loop_digits fuel n : 0 <= n -> str_Forall is_digit (itoa_loop fuel n "").
Proof.
  revert n. induction fuel as [|f IH]; intros n Hn; cbn [itoa_loop]; [done|].
  assert (is_digit (digit_char (n mod 10))).
  { exists (n mod 10). apply digit_val_char, Z.mod_pos_bound. lia. }
  destruct (n <? 10); [done|].
  rewrite itoa_loop_acc. apply str_Forall_app. split; [|done].
  apply IH, Z.div_pos; lia.
Qed.

Lemma itoa_fuel_enough n : 0 <= n -> n < 2 ^ Z.of_nat (itoa_fuel n).
Proof.
  intros Hn. unfold itoa_fuel.
  rewrite Nat2Z.inj_succ, Z2Nat.id by apply Z.log2_nonneg.
  destruct (decide (n = 0)) as [->|]; [done|]. apply Z.log2_spec; lia.
Qed.

Lemma Itoa_nonneg n : 0 <= n -> Itoa n = itoa_loop (itoa_fuel n) n "".
Proof. intros Hn. unfold Itoa. destruct (Z.ltb_spec n 0); [lia|done]. Qed.

Lemma Itoa_digits n : 0 <= n -> str_Forall is_digit (Itoa n).
Proof. intros Hn. rewrite Itoa_nonneg by done. by apply itoa_loop_digits. Qed.

Lemma Itoa_val n : 0 <= n -> digits_val (Itoa n) 0 = Some n.
Proof.
  intros Hn. rewrite Itoa_nonneg by done. apply itoa_loop_val.
  pose proof (itoa_fuel_enough n Hn). lia.
Qed.

Lemma itoa_loop_nonempty f n : itoa_loop (S f) n "" <> "".
Proof.
  cbn [itoa_loop]. destruct (n <? 10); [done|]. rewrite itoa_loop_acc.
  by destruct (itoa_loop f (n / 10) "").
Qed.

Lemma digit_not_sep c d : digit_val c = Some d -> c <> "-"%char /\ c <> "+"%char.
Proof. intros H; split; intros ->; discriminate H. Qed.

(** On a string that starts with a digit the sign cases of [Atoi] are dead. *)
Lemma Atoi_digits s :
  s <> "" -> str_Forall is_digit s -> Atoi s = (z ← digits_val s 0; int64_of z).
Proof.
  destruct s as [|c s]; [done|]. intros _ [[d Hd] _].
  destruct (digit_not_sep c d Hd) as [Hm Hp].
  unfold Atoi. destruct c as [[] [] [] [] [] [] [] []]; try done.
Qed.

(** [Atoi] inverts [%d] on the non-negative 64-bit integers. *)
Lemma Atoi_Itoa n : 0 <= n < 2 ^ 63 -> Atoi (Itoa n) = Some n.
Proof.
  intros Hn. rewrite Atoi_digits.
  - rewrite Itoa_val by lia. unfold int64_of; simpl.
    rewrite decide_True; [done|]. unfold in_int64. lia.
  - rewrite Itoa_nonneg by lia. apply itoa_loop_nonempty.
  - apply Itoa_digits. lia.
Qed.

Lemma Atoi_range s z : Atoi s = Some z -> in_int64 z.
Proof.
  assert (forall o, (x ← o; int64_of x) = Some z -> in_int64 z) as H1.
  { intros [x|]; simpl; [|done]. unfold int64_of. case_decide; naive_solver. }
  assert (forall o, (x ← o; int64_of (- x)) = Some z -> in_int64 z) as H2.
  { intros [x|]; simpl; [|done]. unfold int64_of. case_decide; naive_solver. }
  unfold Atoi. repeat case_match; eauto.
Qed.

(** A string of digits without the separator is one field of [Split]. *)
Lemma Split_digits s : str_Forall is_digit s -> Split "-" s = [s].
Proof.
  induction s as [|c s IH]; intros Hs; [done|]. destruct Hs as [[d Hd] Hs]. simpl.
  rewrite decide_False by (by eapply digit_not_sep). by rewrite IH.
Qed.

Lemma Split_join s t :
  str_Forall is_digit s -> Split "-" (s +:+ String "-" t) = s :: Split "-" t.
Proof.
  induction s as [|c s IH]; intros Hs; simpl; [done|]. destruct Hs as [[d Hd] Hs].
  rewrite decide_False by (by eapply digit_not_sep). by rewrite IH.
Qed.

(** ** The numbered table names *)
Lemma digits_val_zeros k s : digits_val (zeros k +:+ s) 0 = digits_val s 0.
Proof. induction k as [|k IH]; simpl; done. Qed.

Lemma fmt_04d_val n : 0 <= n -> digits_val (fmt_04d n) 0 = Some n.
Proof.
  intros Hn. unfold fmt_04d. destruct (Z.ltb_spec n 0); [lia|].
  cbn zeta. rewrite digits_val_zeros. by apply Itoa_val.
Qed.

Lemma fmt_04d_inj a b : 0 <= a -> 0 <= b -> fmt_04d a = fmt_04d b -> a = b.
Proof.
  intros Ha Hb Heq. pose proof (fmt_04d_val a Ha) as H1.
  rewrite Heq, fmt_04d_val in H1 by done. by simplify_eq.
Qed.

Lemma str_app_inj_l s t u : s +:+ t = s +:+ u -> t = u.
Proof. induction s as [|c s IH]; simpl; [done|]. intros H. injection H. auto. Qed.

(** ** Sorting strings *)
Lemma str_le_total a b : str_le a b \/ str_le b a.
Proof. unfold str_le. apply String.leb_total. Qed.

Lemma sort_Strings_perm l : Permutation (sort_Strings l) l.
Proof. apply merge_sort_Permutation. Qed.

Lemma sort_Strings_length l : length (sort_Strings l) = length l.
Proof. by rewrite sort_Strings_perm. Qed.

Lemma str_le_cons a s b t :
  str_le (String a s) (String b t) <->
  (N_of_ascii a < N_of_ascii b)%N \/ a = b /\ str_le s t.
Proof.
  unfold str_le, String.leb. simpl. unfold Ascii.compare.
  destruct (N.compare_spec (N_of_ascii a) (N_of_ascii b)) as [He|He|He].
  - assert (a = b) as <- by (rewrite <- (ascii_N_embedding a), <- (ascii_N_embedding b); congruence).
    split; [by right|]. intros [?|[_ ?]]; [lia|done].
  - split; [by left|done].
  - split; [done|]. intros [?|[-> _]]; lia.
Qed.

Global Instance str_le_trans : Transitive str_le.
Proof.
  intros s. induction s as [|a s IH]; intros [|b t] [|c u]; try done.
  rewrite !str_le_cons. intros [H1|[-> H1]] [H2|[-> H2]]; [left; lia|by left|by left|right].
  split; [done|]. by apply (IH t).
Qed.
Global Instance str_le_antisym : AntiSymm (=) str_le.
Proof. intros s t Hs Ht. apply String.leb_antisym; done. Qed.
Global Instance str_le_Total : Total str_le.
Proof. exact str_le_total. Qed.

Lemma sort_Strings_sorted l : StronglySorted str_le (sort_Strings l).
Proof. apply (StronglySorted_merge_sort str_le). Qed.

(** ** Lengths *)
Lemma string_length_app a b : String.length (a +:+ b) = (String.length a + String.length b)%nat.
Proof. induction a as [|c a IH]; [done|]. simpl. by rewrite IH. Qed.
