(* ===== verification/Config.v ===== *)
(** * Configuration records (src/config/config.go)

    The records that the router and the backends read and write as JSON
    files.  A file is modelled by the value it encodes. *)
From S2P Require Import Prelude.
Open Scope string_scope.
Open Scope list_scope.
Open Scope Z_scope.

(** [PartitionConfig] *)
Record PartitionConfig := mkPartitionConfig {
  pcTable : string;
  pcSegment : string;
  pcBackend : string;
  pcListValue : string
}.
Global Instance PartitionConfig_eq_dec : EqDecision PartitionConfig.
Proof. solve_decision. Defined.

(** [AutoIncrement] *)
Record AutoIncrement := mkAutoIncrement { aiColumn : string }.
Global Instance AutoIncrement_eq_dec : EqDecision AutoIncrement.
Proof. solve_decision. Defined.

(** [TableConfig]; the pointer [AutoIncrement] may be nil. *)
Record TableConfig := mkTableConfig {
  tcName : string;
  tcSlots : Z;
  tcBlocks : Z;
  tcShardType : string;
  tcShardKey : string;
  tcPartitions : list PartitionConfig;
  tcAutoIncrement : option AutoIncrement
}.
Global Instance TableConfig_eq_dec : EqDecision TableConfig.
Proof. solve_decision. Defined.

Definition set_partitions (ps : list PartitionConfig) (c : TableConfig) : TableConfig :=
  mkTableConfig (tcName c) (tcSlots c) (tcBlocks c) (tcShardType c) (tcShardKey c)
    ps (tcAutoIncrement c).
Definition set_autoinc (a : option AutoIncrement) (c : TableConfig) : TableConfig :=
  mkTableConfig (tcName c) (tcSlots c) (tcBlocks c) (tcShardType c) (tcShardKey c)
    (tcPartitions c) a.
Definition set_name (n : string) (c : TableConfig) : TableConfig :=
  mkTableConfig n (tcSlots c) (tcBlocks c) (tcShardType c) (tcShardKey c)
    (tcPartitions c) (tcAutoIncrement c).
Definition set_pcTable (t : string) (p : PartitionConfig) : PartitionConfig :=
  mkPartitionConfig t (pcSegment p) (pcBackend p) (pcListValue p).
Definition set_pcBackend (b : string) (p : PartitionConfig) : PartitionConfig :=
  mkPartitionConfig (pcTable p) (pcSegment p) b (pcListValue p).

(** [RouterConfig] and its default *)
Record RouterConfig := mkRouterConfig { rcSlots : Z; rcBlocks : Z }.
Definition DefaultRouterConfig : RouterConfig := mkRouterConfig 4096 64.

(** [BackendConfig]; [NormalBackend] and [AttachBackend] are the roles. *)
Record BackendConfig := mkBackendConfig {
  bcName : string;
  bcAddress : string;
  bcReplica : string;
  bcUser : string;
  bcPassword : string;
  bcDBName : string;
  bcCharset : string;
  bcMaxConnections : Z;
  bcRole : Z
}.
Global Instance BackendConfig_eq_dec : EqDecision BackendConfig.
Proof. solve_decision. Defined.

(** [ScatterConfig] and its default *)
Record ScatterConfig := mkScatterConfig {
  scXaCheckInterval : Z;
  scXaCheckDir : string;
  scXaCheckRetrys : Z
}.
Definition DefaultScatterConfig : ScatterConfig := mkScatterConfig 10 "./xacheck" 10.

(** The roles of a backend. *)
Definition NormalBackend : Z := 0.
Definition AttachBackend : Z := 1.
