(* ===== verification/Xcontext.v ===== *)
(** * The request of an executor to a transaction (src/xcontext)

    The queries of a plan with the backends they are for, and how they are to
    be sent. *)
From S2P Require Import Prelude.
Open Scope string_scope.

(** ** Modes *)
Inductive RequestMode := ReqNormal | ReqScatter | ReqSingle.
Inductive TxnMode := TxnNone | TxnRead | TxnWrite.

(** [QueryTuple]; [Range] explains the plan to the user. *)
Record QueryTuple := mkQueryTuple { qtQuery : string; qtBackend : string; qtRange : string }.

Record RequestContext := mkRequestContext {
  rqRawQuery : string;
  rqMode : RequestMode;
  rqTxnMode : TxnMode;
  rqQuerys : list QueryTuple
}.

(** [NewRequestContext] *)
Definition NewRequestContext : RequestContext := mkRequestContext "" ReqNormal TxnNone [].
