(* ===== verification/Partition.v ===== *)
(** * Partition methods (src/router: types.go, partition.go, hash.go, list.go,
    single.go, global.go)

    The four ways a table is spread over the backends, behind the interface
    [Partition] of the source.  The jump consistent hash and the decimal to
    floating point conversion are parameters ([JumpHash]). *)
From S2P Require Import Prelude GoStd Config.
Open Scope string_scope.
Open Scope list_scope.
Open Scope Z_scope.

(** ** Constants and values *)
Definition MethodTypeHash : string := "HASH".
Definition MethodTypeGlobal : string := "GLOBAL".
Definition MethodTypeSingle : string := "SINGLE".
Definition MethodTypeList : string := "LIST".

(** [sqlparser.ValType] *)
Inductive ValType :=
| StrVal | IntVal | FloatVal | HexNum | HexVal | ValArg | StrValWithoutQuote.
Global Instance ValType_eq_dec : EqDecision ValType.
Proof. solve_decision. Defined.

(** [sqlparser.SQLVal] *)
Record SQLVal := mkSQLVal { svType : ValType; svVal : string }.
Global Instance SQLVal_eq_dec : EqDecision SQLVal.
Proof. solve_decision. Defined.

(** The errors of the router package, one constructor per place that makes
    one. *)
Inductive rerr :=
| ErrTableNull | ErrShardKeyNull | ErrPartNumParse | ErrPartNumNotAllowed
| ErrBackendsNull | ErrBackendsTooMany (nums slots : Z)
| ErrPartitionListConflict | ErrPartitionListNull
| ErrSegMalformed (seg : string) | ErrSegStart (seg : string) | ErrSegEnd (seg : string)
| ErrSegOrder (seg : string) (s e : Z) | ErrSegOverlap (seg : string) (i : Z)
| ErrSegUpper (n slots : Z)
| ErrLookupType (a b : ValType) | ErrKeyParse | ErrKeyType (t : ValType)
| ErrIndexRange (i : Z) | ErrNoPartition (v : string)
| ErrConfNil | ErrShardType (t : string)
| ErrTableExists (db t : string) | ErrDBNotFound (db : string)
| ErrTableNotFound (t : string) | ErrRenameExists (t : string)
| ErrDBEmpty | ErrDBExists
| ErNoDB | ErNoSuchTable (t : string) | ErBadDB (db : string)
| ErAccessDenied (db : string) | ErTooLongIdent (n : string)
| ErrInvalidName (n : string) | ErrTableNameEmpty | ErrTableType (t : string)
| ErrShiftSame (b : string) | ErrShiftDB (db : string)
| ErrShiftNotFound (b t : string) | ErrShiftExists (t b : string)
| ErrIO.

(** ** Key ranges and segments *)

(** The implementations of the interface [KeyRange]. *)
Inductive KeyRange :=
| HashRange (Start End : Z)
| GlobalRange (str : string)
| SingleRange (str : string)
| ListRange (str : string).

Global Instance KeyRange_eq_dec : EqDecision KeyRange.
Proof. solve_decision. Defined.

(** The interface value [Segment.Range] holds a pointer: [rgId] is its
    identity, the position of the allocation in the [Build] that made it. *)
Record RangePtr := mkRange { rgId : nat; rgVal : KeyRange }.

Global Instance RangePtr_eq_dec : EqDecision RangePtr.
Proof. solve_decision. Defined.

(** [Segment]; [Range = None] is the nil interface of a zero [Segment]. *)
Record Segment := mkSegment {
  sgTable : string;
  sgBackend : string;
  sgRange : option RangePtr;
  sgListValue : string
}.
Global Instance Segment_eq_dec : EqDecision Segment.
Proof. solve_decision. Defined.
Definition zeroSegment : Segment := mkSegment "" "" None "".

(** [KeyRange.String] *)
Definition KeyRange_String (r : KeyRange) : string :=
  match r with
  | HashRange s e => "[" +:+ Itoa s +:+ "-" +:+ Itoa e +:+ ")"
  | GlobalRange s | SingleRange s | ListRange s => s
  end.

(** [KeyRange.Less]: only the hash ranges are ordered; the type assertion of
    [HashRange.Less] panics on another range. *)
Definition KeyRange_Less (a b : KeyRange) : res rerr bool :=
  match a with
  | HashRange s _ => match b with HashRange s' _ => Ok (s <? s') | _ => Panic end
  | _ => Ok false
  end.

(** The bounds of a hash segment. *)
Definition seg_start (s : Segment) : Z :=
  match sgRange s with Some (mkRange _ (HashRange a _)) => a | _ => 0 end.
Definition seg_end (s : Segment) : Z :=
  match sgRange s with Some (mkRange _ (HashRange _ b)) => b | _ => 0 end.
Definition seg_id (s : Segment) : option nat := rgId <$> sgRange s.

(** [sort.Sort(Segments(h.Segments))] *)
Definition seg_le (a b : Segment) : Prop := seg_start a <= seg_start b.
Global Instance seg_le_dec : RelDecision seg_le.
Proof. intros a b. unfold seg_le. apply _. Defined.
Definition sort_Segments (l : list Segment) : list Segment := merge_sort seg_le l.

(** ** Parameters: packages outside the repository's own code

    [jump_Hash key buckets] is [jump.Hash], [jump_HashString] is
    [jump.HashString] with the CRC64 hasher, and [parseFloat_u64] is
    [uint64(strconv.ParseFloat(s, 64))] with the parse error as [None]. *)
Class JumpHash := {
  jump_Hash : Z -> Z -> Z;
  jump_HashString : string -> Z -> Z;
  parseFloat_u64 : string -> option Z
}.

(** "It outputs a bucket number in the range [0, buckets)." *)
Class JumpHashOk (J : JumpHash) := {
  jump_Hash_range : forall k n, 0 < n -> 0 <= jump_Hash k n < n;
  jump_HashString_range : forall k n, 0 < n -> 0 <= jump_HashString k n < n
}.

(** ** The interface [Partition] *)
Class Partitioner (P : Type) := {
  p_Build : option TableConfig -> P -> res rerr P;
  p_Type : P -> string;
  p_Lookup : P -> option SQLVal -> option SQLVal -> res rerr (list Segment);
  p_GetIndex : P -> SQLVal -> res rerr Z;
  p_GetSegments : P -> list Segment;
  p_GetSegment : P -> Z -> res rerr Segment
}.

(** What a partition method promises to the router, for a partition that
    satisfies [wf]. *)
Class PartitionerLaws (P : Type) `{Partitioner P} (wf : P -> Prop) := {
  p_lookup_open : forall p s e, s = None \/ e = None ->
    p_Lookup p s e = Ok (p_GetSegments p);
  p_lookup_sub : forall p s e segs, wf p ->
    p_Lookup p s e = Ok segs -> segs ⊆ p_GetSegments p;
  p_segment_mem : forall p i sg, wf p ->
    p_GetSegment p i = Ok sg -> sg ∈ p_GetSegments p;
  p_ids_unique : forall p, wf p -> NoDup (seg_id <$> p_GetSegments p)
}.

(** ** The hash method *)
Module Hash.
Record t := mk {
  slots : Z;
  partitions : gmap Z Segment;
  Segments : list Segment
}.

(** [NewHash] *)
Definition New (slots : Z) : t := mk slots ∅ [].

(** The bitmap loop [for i := start; i < end; i++]. *)
Fixpoint mark (seg : string) (sg : Segment) (n : nat) (i : Z) (m : gmap Z Segment)
    : res rerr (gmap Z Segment) :=
  match n with
  | O => Ok m
  | S n => match m !! i with
           | Some _ => Err (ErrSegOverlap seg i)
           | None => mark seg sg n (i + 1) (<[i := sg]> m)
           end
  end.

(** One iteration of [Build] over [conf.Partitions]. *)
Definition build_part (st : gmap Z Segment * list Segment) (part : PartitionConfig)
    : res rerr (gmap Z Segment * list Segment) :=
  let seg := pcSegment part in
  match Split "-"%char seg with
  | [s0; s1] =>
      match Atoi s0 with
      | None => Err (ErrSegStart seg)
      | Some start =>
          match Atoi s1 with
          | None => Err (ErrSegEnd seg)
          | Some end_ =>
              if end_ <=? start then Err (ErrSegOrder seg start end_)
              else
                let sg := mkSegment (pcTable part) (pcBackend part)
                            (Some (mkRange (length st.2) (HashRange start end_))) "" in
                m ← mark seg sg (Z.to_nat (end_ - start)) start st.1;
                Ok (m, st.2 ++ [sg])
          end
      end
  | _ => Err (ErrSegMalformed seg)
  end.

(** [Build]; [conf] is the pointer [h.conf], dereferenced without a check. *)
Definition Build (conf : option TableConfig) (h : t) : res rerr t :=
  conf ← match conf with Some c => Ok c | None => Panic end;
  st ← res_fold build_part (partitions h, Segments h) (tcPartitions conf);
  if negb (Z.of_nat (size st.1) =? slots h)
  then Err (ErrSegUpper (Z.of_nat (size st.1)) (slots h))
  else Ok (mk (slots h) st.1 (sort_Segments st.2)).

(** [Clear] *)
Definition Clear (h : t) : t := mk (slots h) ∅ (Segments h).

Definition Type_ (h : t) : string := MethodTypeHash.

Section jump.
Context `{J : JumpHash}.

(** [GetIndex] *)
Definition GetIndex (h : t) (v : SQLVal) : res rerr Z :=
  let buckets := swrap 32 (slots h) in
  match svType v with
  | IntVal =>
      match ParseInt0 (svVal v) with
      | None => Err ErrKeyParse
      | Some k => Ok (jump_Hash (wrap 64 k) buckets)
      end
  | FloatVal =>
      match parseFloat_u64 (svVal v) with
      | None => Err ErrKeyParse
      | Some k => Ok (jump_Hash k buckets)
      end
  | StrVal => Ok (jump_HashString (svVal v) buckets)
  | ty => Err (ErrKeyType ty)
  end.

(** [h.partitions[idx]]: a missing key reads as the zero [Segment]. *)
Definition slot (h : t) (i : Z) : Segment := default zeroSegment (partitions h !! i).

(** [Lookup] *)
Definition Lookup (h : t) (s e : option SQLVal) : res rerr (list Segment) :=
  match s, e with
  | Some s, Some e =>
      if decide (svType s = svType e) then
        if decide (svVal s = svVal e) then
          idx ← GetIndex h s; Ok [slot h idx]
        else Ok (Segments h)
      else Err (ErrLookupType (svType s) (svType e))
  | _, _ => Ok (Segments h)
  end.

(** [GetSegments] *)
Definition GetSegments (h : t) : list Segment := Segments h.

(** [GetSegment] *)
Definition GetSegment (h : t) (i : Z) : res rerr Segment :=
  if (i <? 0) || (slots h <=? i) then Err (ErrIndexRange i) else Ok (slot h i).

Global Instance ops : Partitioner t := {
  p_Build := Build; p_Type := Type_; p_Lookup := Lookup; p_GetIndex := GetIndex;
  p_GetSegments := GetSegments; p_GetSegment := GetSegment
}.
End jump.
End Hash.

(** The segments that [Build] of the global, single and list methods append,
    with the range value the method gives them. *)
Definition plain_segments (rg : KeyRange) (lv : PartitionConfig -> string) (base : nat)
    (ps : list PartitionConfig) : list Segment :=
  imap (fun i p => mkSegment (pcTable p) (pcBackend p)
                     (Some (mkRange (base + i)%nat rg)) (lv p)) ps.

(** [segs[index]] for a Go slice. *)
Definition slice_index (segs : list Segment) (i : Z) : res rerr Segment :=
  if i <? 0 then Panic
  else match segs !! Z.to_nat i with Some s => Ok s | None => Panic end.

(** ** The global method *)
Module Global_.
Record t := mk { Segments : list Segment }.
Definition New : t := mk [].
(** [Build] *)
Definition Build (conf : option TableConfig) (g : t) : res rerr t :=
  conf ← match conf with Some c => Ok c | None => Err ErrConfNil end;
  Ok (mk (Segments g ++ plain_segments (GlobalRange "") (fun _ => "")
            (length (Segments g)) (tcPartitions conf))).
Definition Type_ (g : t) : string := MethodTypeGlobal.
Definition Lookup (g : t) (s e : option SQLVal) : res rerr (list Segment) :=
  Ok (Segments g).
Definition GetIndex (g : t) (v : SQLVal) : res rerr Z := Ok (-1).
Definition GetSegments (g : t) : list Segment := Segments g.
Definition GetSegment (g : t) (i : Z) : res rerr Segment :=
  if (i <? 0) || (Z.of_nat (length (Segments g)) <=? i) then Err (ErrIndexRange i)
  else slice_index (Segments g) i.
Global Instance ops : Partitioner t := {
  p_Build := Build; p_Type := Type_; p_Lookup := Lookup; p_GetIndex := GetIndex;
  p_GetSegments := GetSegments; p_GetSegment := GetSegment
}.
End Global_.

(** ** The single method *)
Module Single.
Record t := mk { Segments : list Segment }.
Definition New : t := mk [].
(** [Build] *)
Definition Build (conf : option TableConfig) (g : t) : res rerr t :=
  conf ← match conf with Some c => Ok c | None => Err ErrConfNil end;
  Ok (mk (Segments g ++ plain_segments (SingleRange "") (fun _ => "")
            (length (Segments g)) (tcPartitions conf))).
Definition Type_ (g : t) : string := MethodTypeSingle.
Definition Lookup (g : t) (s e : option SQLVal) : res rerr (list Segment) :=
  Ok (Segments g).
Definition GetIndex (g : t) (v : SQLVal) : res rerr Z := Ok 0.
Definition GetSegments (g : t) : list Segment := Segments g.
(** No lower bound check: a negative index panics. *)
Definition GetSegment (g : t) (i : Z) : res rerr Segment :=
  if Z.of_nat (length (Segments g)) <=? i then Err (ErrIndexRange i)
  else slice_index (Segments g) i.
Global Instance ops : Partitioner t := {
  p_Build := Build; p_Type := Type_; p_Lookup := Lookup; p_GetIndex := GetIndex;
  p_GetSegments := GetSegments; p_GetSegment := GetSegment
}.
End Single.

(** ** The list method *)
Module List_.
Record t := mk { Segments : list Segment }.
Definition New : t := mk [].
(** [Build] *)
Definition Build (conf : option TableConfig) (g : t) : res rerr t :=
  conf ← match conf with Some c => Ok c | None => Panic end;
  Ok (mk (Segments g ++ plain_segments (ListRange "") pcListValue
            (length (Segments g)) (tcPartitions conf))).
Definition Type_ (g : t) : string := MethodTypeList.

(** The scan of [GetIndex]. *)
Fixpoint find_value (v : string) (i : Z) (segs : list Segment) : option Z :=
  match segs with
  | [] => None
  | s :: segs => if decide (sgListValue s = v) then Some i else find_value v (i + 1) segs
  end.

(** [GetIndex] *)
Definition GetIndex (g : t) (v : SQLVal) : res rerr Z :=
  match find_value (svVal v) 0 (Segments g) with
  | Some i => Ok i
  | None => Err (ErrNoPartition (svVal v))
  end.

(** [Lookup] *)
Definition Lookup (g : t) (s e : option SQLVal) : res rerr (list Segment) :=
  match s, e with
  | Some s, Some e =>
      if decide (svType s = svType e) then
        if decide (svVal s = svVal e) then
          idx ← GetIndex g s; sg ← slice_index (Segments g) idx; Ok [sg]
        else Ok (Segments g)
      else Err (ErrLookupType (svType s) (svType e))
  | _, _ => Ok (Segments g)
  end.
Definition GetSegments (g : t) : list Segment := Segments g.
Definition GetSegment (g : t) (i : Z) : res rerr Segment :=
  if Z.of_nat (length (Segments g)) <=? i then Err (ErrIndexRange i)
  else slice_index (Segments g) i.
Global Instance ops : Partitioner t := {
  p_Build := Build; p_Type := Type_; p_Lookup := Lookup; p_GetIndex := GetIndex;
  p_GetSegments := GetSegments; p_GetSegment := GetSegment
}.
End List_.

(** ** The interface value held by a table *)
Inductive Partition :=
| PHash (h : Hash.t)
| PGlobal (g : Global_.t)
| PSingle (s : Single.t)
| PList (l : List_.t).

(** Dynamic dispatch. *)
Section dispatch.
Context `{J : JumpHash}.

Definition pt_Build (c : option TableConfig) (p : Partition) : res rerr Partition :=
  match p with
  | PHash h => PHash <$> p_Build c h
  | PGlobal g => PGlobal <$> p_Build c g
  | PSingle s => PSingle <$> p_Build c s
  | PList l => PList <$> p_Build c l
  end.
Definition pt_Type (p : Partition) : string :=
  match p with
  | PHash h => p_Type h | PGlobal g => p_Type g
  | PSingle s => p_Type s | PList l => p_Type l
  end.
Definition pt_Lookup (p : Partition) (s e : option SQLVal) : res rerr (list Segment) :=
  match p with
  | PHash h => p_Lookup h s e | PGlobal g => p_Lookup g s e
  | PSingle g => p_Lookup g s e | PList l => p_Lookup l s e
  end.
Definition pt_GetIndex (p : Partition) (v : SQLVal) : res rerr Z :=
  match p with
  | PHash h => p_GetIndex h v | PGlobal g => p_GetIndex g v
  | PSingle s => p_GetIndex s v | PList l => p_GetIndex l v
  end.
Definition pt_GetSegments (p : Partition) : list Segment :=
  match p with
  | PHash h => p_GetSegments h | PGlobal g => p_GetSegments g
  | PSingle s => p_GetSegments s | PList l => p_GetSegments l
  end.
Definition pt_GetSegment (p : Partition) (i : Z) : res rerr Segment :=
  match p with
  | PHash h => p_GetSegment h i | PGlobal g => p_GetSegment g i
  | PSingle s => p_GetSegment s i | PList l => p_GetSegment l i
  end.
Global Instance Partition_ops : Partitioner Partition := {
  p_Build := pt_Build; p_Type := pt_Type; p_Lookup := pt_Lookup;
  p_GetIndex := pt_GetIndex; p_GetSegments := pt_GetSegments;
  p_GetSegment := pt_GetSegment
}.
End dispatch.

(** ** Correctness of the hash method *)
Definition in_seg (i : Z) (sg : Segment) : Prop := seg_start sg <= i < seg_end sg.

Section hash_build.
Implicit Types (m : gmap Z Segment) (sg : Segment) (segs : list Segment).

(** The bitmap loop returns exactly when no slot of the range is taken, and
    then sets those slots and no other. *)
Lemma mark_spec seg sg n i m m' :
  Hash.mark seg sg n i m = Ok m' ->
  (forall j, m' !! j = if decide (i <= j < i + Z.of_nat n) then Some sg else m !! j) /\
  (forall j, i <= j < i + Z.of_nat n -> m !! j = None) /\
  size m' = (size m + n)%nat.
Proof.
  revert i m. induction n as [|n IH]; intros i m; simpl.
  { intros [= ->]. repeat split.
    - intros j. rewrite decide_False by lia. done.
    - lia.
    - lia. }
  destruct (m !! i) eqn:Hi; [done|]. intros H. apply IH in H as (H1 & H2 & H3).
  repeat split.
  - intros j. rewrite H1. destruct (decide (i = j)) as [->|].
    + rewrite lookup_insert_eq. do 2 case_decide; auto; lia.
    + rewrite lookup_insert_ne by done. do 2 case_decide; auto; lia.
  - intros j Hj. destruct (decide (i = j)) as [->|]; [done|].
    rewrite <- (H2 j) by lia. by rewrite lookup_insert_ne.
  - rewrite H3, map_size_insert_None by done. lia.
Qed.

Lemma mark_ok seg sg n i m :
  (forall j, i <= j < i + Z.of_nat n -> m !! j = None) ->
  exists m', Hash.mark seg sg n i m = Ok m'.
Proof.
  revert i m. induction n as [|n IH]; intros i m Hm; simpl; [by eauto|].
  rewrite Hm by lia. apply IH. intros j Hj.
  rewrite lookup_insert_ne by lia. apply Hm. lia.
Qed.

(** The segment one configuration entry stands for. *)
Definition part_segment (id : nat) (part : PartitionConfig) (s e : Z) : Segment :=
  mkSegment (pcTable part) (pcBackend part) (Some (mkRange id (HashRange s e))) "".

Lemma in_seg_part i id part s e : in_seg i (part_segment id part s e) <-> s <= i < e.
Proof. reflexivity. Qed.

Lemma build_part_inv st part st' :
  Hash.build_part st part = Ok st' ->
  exists s e s0 s1 m', Split "-"%char (pcSegment part) = [s0; s1] /\
    Atoi s0 = Some s /\ Atoi s1 = Some e /\ s < e /\
    Hash.mark (pcSegment part) (part_segment (length st.2) part s e)
      (Z.to_nat (e - s)) s st.1 = Ok m' /\
    st' = (m', st.2 ++ [part_segment (length st.2) part s e]).
Proof.
  unfold Hash.build_part. intros H.
  destruct (Split _ _) as [|s0 [|s1 [|]]]; try done.
  destruct (Atoi s0) as [s|] eqn:Hs; [|done].
  destruct (Atoi s1) as [e|] eqn:He; [|done].
  destruct (Z.leb_spec e s); [done|].
  unfold part_segment.
  destruct (Hash.mark _ _ _ _ _) as [m'| |] eqn:Hm; simpl in H; simplify_eq.
  naive_solver.
Qed.

(** The invariant of the loop of [Build]: the map is the graph of "slot [i]
    lies in segment [sg]", every segment is non-empty and carries its own
    range pointer, and the entries were read in the order of the config. *)
Record build_inv (ps : list PartitionConfig) (st : gmap Z Segment * list Segment) : Prop := {
  bi_map : forall i sg, st.1 !! i = Some sg <-> sg ∈ st.2 /\ in_seg i sg;
  bi_pos : forall sg, sg ∈ st.2 -> seg_start sg < seg_end sg;
  bi_id : forall k sg, st.2 !! k = Some sg -> seg_id sg = Some k;
  bi_conf : (fun sg => (sgTable sg, sgBackend sg)) <$> st.2
            = (fun p => (pcTable p, pcBackend p)) <$> ps;
  bi_lv : forall sg, sg ∈ st.2 -> sgListValue sg = ""
}.

Lemma build_inv_nil : build_inv [] (∅, []).
Proof.
  split; simpl; try done; set_solver.
Qed.

Lemma build_part_step ps st part st' :
  build_inv ps st -> Hash.build_part st part = Ok st' ->
  build_inv (ps ++ [part]) st'.
Proof.
  intros [Hm Hp Hi Hc Hl] H.
  apply build_part_inv in H as (s & e & s0 & s1 & m' & _ & _ & _ & Hlt & Hmark & ->).
  apply mark_spec in Hmark as (H1 & H2 & _). rewrite Z2Nat.id in H1, H2 by lia.
  split; simpl.
  - intros i sg. rewrite H1. rewrite elem_of_app, list_elem_of_singleton.
    case_decide as Hd.
    + split.
      * intros [= <-]. split; [by right|]. by apply in_seg_part; lia.
      * intros [[Hin | ->] Hr]; [|done].
        assert (st.1 !! i = Some sg) by (by apply Hm). rewrite H2 in H by lia. done.
    + rewrite Hm. split; [naive_solver|].
      intros [[?| ->] Hr]; [done|]. apply in_seg_part in Hr. lia.
  - intros sg. rewrite elem_of_app, list_elem_of_singleton.
    intros [?| ->]; [by apply Hp|]. unfold seg_start, seg_end; simpl. lia.
  - intros k sg. rewrite lookup_app_Some. intros [?|[Hk Hs]]; [by apply Hi|].
    apply list_lookup_singleton_Some in Hs as [Hz <-].
    unfold seg_id; simpl. f_equal. lia.
  - by rewrite !fmap_app, Hc.
  - intros sg. rewrite elem_of_app, list_elem_of_singleton.
    intros [?| ->]; [by apply Hl|done].
Qed.

Lemma build_loop_inv ps st :
  res_fold Hash.build_part (∅, []) ps = Ok st -> build_inv ps st.
Proof.
  apply (res_fold_inv Hash.build_part build_inv).
  - apply build_inv_nil.
  - intros ys x b b'. apply build_part_step.
Qed.
End hash_build.

(** What [Build] establishes: the map and the segment list describe the same
    assignment of slots, the segments are in order and do not overlap. *)
Record hash_built (h : Hash.t) : Prop := {
  hb_map : forall i sg, Hash.partitions h !! i = Some sg <-> sg ∈ Hash.Segments h /\ in_seg i sg;
  hb_size : Z.of_nat (size (Hash.partitions h)) = Hash.slots h;
  hb_sorted : StronglySorted (fun a b => seg_end a <= seg_start b) (Hash.Segments h);
  hb_pos : forall sg, sg ∈ Hash.Segments h -> seg_start sg < seg_end sg;
  hb_ids : NoDup (seg_id <$> Hash.Segments h)
}.

Section hash_wf.
(** Two segments of the map that start in order do not overlap. *)
Lemma build_inv_disjoint ps st a b :
  build_inv ps st -> a ∈ st.2 -> b ∈ st.2 -> a <> b ->
  seg_start a <= seg_start b -> seg_end a <= seg_start b.
Proof.
  intros [Hm Hp _ _ _] Ha Hb Hne Hle.
  destruct (decide (seg_end a <= seg_start b)) as [|Hgt]; [done|].
  assert (st.1 !! seg_start b = Some a).
  { apply Hm. split; [done|]. unfold in_seg. lia. }
  assert (st.1 !! seg_start b = Some b).
  { apply Hm. split; [done|]. unfold in_seg. specialize (Hp b Hb). lia. }
  naive_solver.
Qed.

Lemma build_inv_ids ps st : build_inv ps st -> NoDup (seg_id <$> st.2).
Proof.
  intros [_ _ Hi _ _]. apply NoDup_alt. intros i j x.
  rewrite !list_lookup_fmap, !fmap_Some.
  intros (a & Ha & ->) (b & Hb & Hab).
  apply Hi in Ha, Hb. congruence.
Qed.

Lemma sort_Segments_perm l : Permutation (sort_Segments l) l.
Proof. apply merge_sort_Permutation. Qed.

Lemma sort_Segments_sorted l : StronglySorted seg_le (sort_Segments l).
Proof.
  apply StronglySorted_merge_sort.
  - intros a b c. unfold seg_le. lia.
  - intros a b. unfold seg_le. lia.
Qed.

(** Sorting by start and pairwise disjointness give the chain of the
    segments. *)
Lemma sorted_chain (l : list Segment) :
  NoDup l -> StronglySorted seg_le l ->
  (forall a b, a ∈ l -> b ∈ l -> a <> b -> seg_le a b -> seg_end a <= seg_start b) ->
  StronglySorted (fun a b => seg_end a <= seg_start b) l.
Proof.
  induction 2 as [|a l Hs IH Ha]; intros Hd; constructor.
  - apply NoDup_cons in H as [_ H]. apply IH; [done|]. set_solver.
  - apply NoDup_cons in H as [Hna H].
    apply Forall_forall. intros b Hb. rewrite Forall_forall in Ha.
    apply Hd; [set_solver..| |by apply Ha]. intros ->. done.
Qed.

Lemma Build_inv conf n h :
  Hash.Build (Some conf) (Hash.New n) = Ok h ->
  exists st, res_fold Hash.build_part (∅, []) (tcPartitions conf) = Ok st /\
    Z.of_nat (size st.1) = n /\ h = Hash.mk n st.1 (sort_Segments st.2).
Proof.
  unfold Hash.Build, Hash.New; simpl.
  destruct (res_fold _ _ _) as [st| |]; simpl; try done.
  destruct (Z.eqb_spec (Z.of_nat (size st.1)) n); simpl; [|done].
  intros [= <-]. eauto.
Qed.

Lemma Build_built conf n h :
  Hash.Build (Some conf) (Hash.New n) = Ok h -> hash_built h /\ Hash.slots h = n.
Proof.
  intros (st & Hst & Hsz & ->)%Build_inv. apply build_loop_inv in Hst as Hi.
  pose proof (sort_Segments_perm st.2) as Hp. split; [|done]. split; simpl.
  - intros i sg. rewrite Hp. apply Hi.
  - done.
  - apply sorted_chain.
    + rewrite Hp. apply (NoDup_fmap_1 seg_id). by eapply build_inv_ids.
    + apply sort_Segments_sorted.
    + intros a b. rewrite !Hp. by eapply build_inv_disjoint.
  - intros sg. rewrite Hp. apply Hi.
  - rewrite Hp. by eapply build_inv_ids.
Qed.

(** The segments are the entries of the config, in another order. *)
Lemma Build_conf conf n h :
  Hash.Build (Some conf) (Hash.New n) = Ok h ->
  Permutation ((fun sg => (sgTable sg, sgBackend sg)) <$> Hash.Segments h)
              ((fun p => (pcTable p, pcBackend p)) <$> tcPartitions conf).
Proof.
  intros (st & Hst & Hsz & ->)%Build_inv. apply build_loop_inv in Hst as Hi. simpl.
  rewrite sort_Segments_perm. by rewrite (bi_conf _ _ Hi).
Qed.
End hash_wf.

(** ** Slots inside the table's range are covered

    [Build] compares the number of slots with [slots] but not the bounds: the
    slots [0 .. slots-1] are covered when every segment lies in that range. *)
Definition hash_covers (h : Hash.t) : Prop :=
  forall i, 0 <= i < Hash.slots h -> is_Some (Hash.partitions h !! i).

Definition hash_bounded (h : Hash.t) : Prop :=
  Forall (fun sg => 0 <= seg_start sg /\ seg_end sg <= Hash.slots h) (Hash.Segments h).

(** A map with as many keys as an interval has, all of them in the interval,
    has every key of the interval. *)
Lemma dom_interval {A} (m : gmap Z A) n :
  Z.of_nat (size m) = n -> (forall i, is_Some (m !! i) -> 0 <= i < n) ->
  forall i, 0 <= i < n -> is_Some (m !! i).
Proof.
  intros Hsz Hb i Hi.
  set (full := (list_to_set (seqZ 0 n) : gset Z)).
  assert (dom m ⊆ full) as Hsub.
  { intros j Hj%elem_of_dom%Hb. unfold full.
    rewrite elem_of_list_to_set, elem_of_seqZ. lia. }
  assert (size full = size m) as Hfull.
  { unfold full. rewrite size_list_to_set by apply NoDup_seqZ.
    rewrite length_seqZ. lia. }
  apply elem_of_dom. apply set_subseteq_size_eq in Hsub.
  - rewrite Hsub. unfold full. rewrite elem_of_list_to_set, elem_of_seqZ. lia.
  - rewrite Hfull, size_dom. done.
Qed.

Lemma built_covers h : hash_built h -> hash_bounded h -> hash_covers h.
Proof.
  intros Hb Hr. unfold hash_covers. apply dom_interval; [by apply Hb|].
  intros i [sg Hsg]. apply (hb_map _ Hb) in Hsg as [Hin Hi].
  unfold hash_bounded in Hr. rewrite Forall_forall in Hr.
  destruct (Hr sg Hin). unfold in_seg in Hi. lia.
Qed.

Definition wf_hash (h : Hash.t) : Prop := hash_built h /\ hash_covers h.

Section hash_lookup.
Context `{J : JumpHash}.

Lemma slot_in h i : wf_hash h -> 0 <= i < Hash.slots h ->
  Hash.slot h i ∈ Hash.Segments h /\ in_seg i (Hash.slot h i).
Proof.
  intros [Hb Hc] Hi. destruct (Hc i Hi) as [sg Hsg]. unfold Hash.slot.
  rewrite Hsg. simpl. by apply Hb.
Qed.

(** [GetIndex] stays in the table's slots. *)
Lemma GetIndex_range `{!JumpHashOk J} h v i :
  0 < Hash.slots h < 2 ^ 31 -> Hash.GetIndex h v = Ok i -> 0 <= i < Hash.slots h.
Proof.
  intros Hs. unfold Hash.GetIndex. rewrite swrap_id by lia.
  destruct (svType v); try done.
  - intros [= <-]. apply jump_HashString_range. lia.
  - destruct (ParseInt0 _); [|done]. intros [= <-]. apply jump_Hash_range. lia.
  - destruct (parseFloat_u64 _); [|done]. intros [= <-]. apply jump_Hash_range. lia.
Qed.

Lemma GetSegment_slot h i sg :
  Hash.GetSegment h i = Ok sg <-> 0 <= i < Hash.slots h /\ sg = Hash.slot h i.
Proof. unfold Hash.GetSegment. bcase; simpl; naive_solver lia. Qed.

(** The segment that holds a slot is the only one. *)
Lemma slot_unique h i sg : wf_hash h -> 0 <= i < Hash.slots h ->
  sg ∈ Hash.Segments h -> in_seg i sg -> sg = Hash.slot h i.
Proof.
  intros [Hb _] Hi Hin Hr. unfold Hash.slot.
  assert (Hash.partitions h !! i = Some sg) as -> by (by apply Hb). done.
Qed.

End hash_lookup.

(** The laws need the hash to return a slot, so the class is declared where
    [JumpHashOk] is in force and the number of slots fits the 32-bit bucket
    count. *)
Definition wf_hash32 (h : Hash.t) : Prop := wf_hash h /\ 0 < Hash.slots h < 2 ^ 31.

Section hash_laws.
Context `{J : JumpHash, !JumpHashOk J}.

Lemma hash_lookup_sub h s e segs :
  wf_hash32 h -> Hash.Lookup h s e = Ok segs -> segs ⊆ Hash.Segments h.
Proof.
  intros [Hw Hs] H. unfold Hash.Lookup in H.
  destruct s as [s|], e as [e|]; try (injection H as <-; reflexivity).
  case_decide; [|done]. case_decide; [|injection H as <-; reflexivity].
  destruct (Hash.GetIndex h s) as [i| |] eqn:Hi; simpl in H; try done.
  injection H as <-. apply GetIndex_range in Hi; [|done].
  intros x ->%list_elem_of_singleton. by apply slot_in.
Qed.

#[export] Instance hash_laws : PartitionerLaws Hash.t wf_hash32.
Proof.
  split.
  - intros p s e [-> | ->]; [done|]. by destruct s.
  - intros p s e segs. exact (hash_lookup_sub p s e segs).
  - intros p i sg [Hw _] [Hi ->]%GetSegment_slot. by apply slot_in.
  - intros p [[Hb _] _]. apply Hb.
Qed.
End hash_laws.

(** ** Correctness of the other methods *)
Definition ids_unique (segs : list Segment) : Prop := NoDup (seg_id <$> segs).

Lemma plain_segments_ids rg lv b ps : ids_unique (plain_segments rg lv b ps).
Proof.
  unfold ids_unique, plain_segments. apply NoDup_alt. intros i j x.
  rewrite !list_lookup_fmap, !list_lookup_imap.
  destruct (ps !! i), (ps !! j); simpl; try done.
  intros [= <-] [= ?]. lia.
Qed.

Lemma plain_segments_conf rg lv b ps :
  (fun sg => (sgTable sg, sgBackend sg, sgListValue sg)) <$> plain_segments rg lv b ps
  = (fun p => (pcTable p, pcBackend p, lv p)) <$> ps.
Proof.
  apply list_eq. intros i. unfold plain_segments.
  rewrite !list_lookup_fmap, list_lookup_imap. by destruct (ps !! i).
Qed.

Lemma slice_index_Ok segs i sg :
  slice_index segs i = Ok sg <-> 0 <= i /\ segs !! Z.to_nat i = Some sg.
Proof.
  unfold slice_index. bcase; [naive_solver lia|].
  destruct (segs !! Z.to_nat i); naive_solver.
Qed.

Lemma slice_index_mem segs i sg : slice_index segs i = Ok sg -> sg ∈ segs.
Proof. intros [_ H]%slice_index_Ok. by eapply list_elem_of_lookup_2. Qed.

#[export] Instance global_laws :
  PartitionerLaws Global_.t (fun g => ids_unique (Global_.Segments g)).
Proof.
  split; simpl; auto.
  - by intros p s e segs _ [= <-].
  - intros p i sg _. unfold Global_.GetSegment. case_match; [done|]. apply slice_index_mem.
Qed.

#[export] Instance single_laws :
  PartitionerLaws Single.t (fun g => ids_unique (Single.Segments g)).
Proof.
  split; simpl; auto.
  - by intros p s e segs _ [= <-].
  - intros p i sg _. unfold Single.GetSegment. case_match; [done|]. apply slice_index_mem.
Qed.

(** The scan of the list method finds the first entry of the value. *)
Lemma find_value_spec v segs i k :
  List_.find_value v i segs = Some k ->
  exists sg, i <= k /\ segs !! Z.to_nat (k - i) = Some sg /\ sgListValue sg = v /\
    forall j sg', segs !! j = Some sg' -> (j < Z.to_nat (k - i))%nat -> sgListValue sg' <> v.
Proof.
  revert i. induction segs as [|s segs IH]; intros i; simpl; [done|].
  case_decide as Hd.
  - intros [= ->]. exists s. rewrite Z.sub_diag. split; [lia|].
    repeat split; [done|]. lia.
  - intros (sg & Hk & Hl & Hv & Hmin)%IH. exists sg.
    replace (Z.to_nat (k - i)) with (S (Z.to_nat (k - (i + 1)))) by lia.
    split; [lia|]. repeat split; [done|done|].
    intros [|j] sg' Hj Hlt; simpl in Hj; [congruence|]. eapply Hmin; [done|]. lia.
Qed.

Lemma find_value_None v segs i :
  List_.find_value v i segs = None <-> Forall (fun sg => sgListValue sg <> v) segs.
Proof.
  revert i. induction segs as [|s segs IH]; intros i; simpl; [done|].
  rewrite Forall_cons. case_decide; [naive_solver|]. rewrite IH. naive_solver.
Qed.

Lemma list_lookup_value g v segs :
  List_.Lookup g (Some v) (Some v) = Ok segs ->
  exists sg, segs = [sg] /\ sg ∈ List_.Segments g /\ sgListValue sg = svVal v.
Proof.
  unfold List_.Lookup. rewrite !decide_True by done. unfold List_.GetIndex.
  destruct (List_.find_value _ _ _) as [k|] eqn:Hf; simpl; [|done].
  apply find_value_spec in Hf as (sg & Hk & Hl & Hv & _).
  rewrite Z.sub_0_r in Hl.
  assert (slice_index (List_.Segments g) k = Ok sg) as -> by (by apply slice_index_Ok).
  simpl. intros [= <-]. exists sg. repeat split; [|done].
  by eapply list_elem_of_lookup_2.
Qed.

Lemma list_lookup_unlisted segs v :
  Forall (fun sg => sgListValue sg <> svVal v) segs ->
  List_.Lookup (List_.mk segs) (Some v) (Some v) = Err (ErrNoPartition (svVal v)).
Proof.
  intros H%(find_value_None _ _ 0). unfold List_.Lookup. rewrite !decide_True by done.
  unfold List_.GetIndex; simpl. by rewrite H.
Qed.

(** A listed value is found: [Lookup] neither fails nor panics. *)
Lemma list_lookup_listed segs v sg :
  sg ∈ segs -> sgListValue sg = svVal v ->
  exists out, List_.Lookup (List_.mk segs) (Some v) (Some v) = Ok out.
Proof.
  intros Hin Hv. unfold List_.Lookup. rewrite !decide_True by done.
  unfold List_.GetIndex; simpl.
  destruct (List_.find_value (svVal v) 0 segs) as [k|] eqn:Hf; simpl.
  - apply find_value_spec in Hf as (sg' & Hk & Hl & _). rewrite Z.sub_0_r in Hl.
    assert (slice_index segs k = Ok sg') as -> by (by apply slice_index_Ok).
    by eexists.
  - apply find_value_None in Hf. rewrite Forall_forall in Hf. by destruct (Hf sg Hin).
Qed.

#[export] Instance list_laws :
  PartitionerLaws List_.t (fun g => ids_unique (List_.Segments g)).
Proof.
  split; simpl; auto.
  - intros p s e [-> | ->]; [done|]. by destruct s.
  - intros p s e segs _ H. unfold List_.Lookup in H.
    destruct s as [s|], e as [e|]; try (injection H as <-; reflexivity).
    case_decide; [|done]. case_decide; [|injection H as <-; reflexivity].
    destruct (List_.GetIndex p s) as [i| |]; simpl in H; try done.
    destruct (slice_index _ i) as [sg| |] eqn:Hs; simpl in H; try done.
    injection H as <-. intros x ->%list_elem_of_singleton. by eapply slice_index_mem.
  - intros p i sg _. unfold List_.GetSegment. case_match; [done|]. apply slice_index_mem.
Qed.

(** ** The laws of the interface value *)
Definition wf_partition (p : Partition) : Prop :=
  match p with
  | PHash h => wf_hash32 h
  | PGlobal g => ids_unique (Global_.Segments g)
  | PSingle s => ids_unique (Single.Segments s)
  | PList l => ids_unique (List_.Segments l)
  end.

#[export] Instance partition_laws `{J : JumpHash, !JumpHashOk J} :
  PartitionerLaws Partition wf_partition.
Proof.
  split.
  - intros [h|g|s|l] ? ? H; [exact (p_lookup_open (PartitionerLaws := hash_laws) h _ _ H)
      |exact (p_lookup_open g _ _ H)|exact (p_lookup_open s _ _ H)|exact (p_lookup_open l _ _ H)].
  - intros [h|g|s|l] ? ? segs Hw H; [exact (p_lookup_sub h _ _ _ Hw H)
      |exact (p_lookup_sub g _ _ _ Hw H)|exact (p_lookup_sub s _ _ _ Hw H)
      |exact (p_lookup_sub l _ _ _ Hw H)].
  - intros [h|g|s|l] i sg Hw H; [exact (p_segment_mem h _ _ Hw H)|exact (p_segment_mem g _ _ Hw H)
      |exact (p_segment_mem s _ _ Hw H)|exact (p_segment_mem l _ _ Hw H)].
  - intros [h|g|s|l] Hw; [exact (p_ids_unique h Hw)|exact (p_ids_unique g Hw)
      |exact (p_ids_unique s Hw)|exact (p_ids_unique l Hw)].
Qed.

(** ** What the hash method promises *)

(** A successful [Hash.Build] gives a partition map and a segment list that
    describe one assignment of slots to segments: a slot maps to a segment iff
    the segment is listed and its range holds the slot, exactly [slots] slots
    are assigned, the listed segments are in order, non-empty and disjoint, and
    they are the entries of the configuration. *)
Theorem Hash_Build_sound conf n h :
  Hash.Build (Some conf) (Hash.New n) = Ok h ->
  Hash.slots h = n /\ Z.of_nat (size (Hash.partitions h)) = n /\
  (forall i sg, Hash.partitions h !! i = Some sg <-> sg ∈ Hash.Segments h /\ in_seg i sg) /\
  StronglySorted (fun a b => seg_end a <= seg_start b) (Hash.Segments h) /\
  (forall sg, sg ∈ Hash.Segments h -> seg_start sg < seg_end sg) /\
  Permutation ((fun sg => (sgTable sg, sgBackend sg)) <$> Hash.Segments h)
              ((fun p => (pcTable p, pcBackend p)) <$> tcPartitions conf).
Proof.
  intros H. apply Build_conf in H as Hc. apply Build_built in H as [[] <-]. done.
Qed.

(** On a hash partition that covers its slots, a key either has no slot
    (its type is not a key type or it does not parse) and the lookup returns
    that error, or its slot is in range and the lookup returns the one segment
    whose range holds the slot, the same that [GetSegment] returns for it. *)
Theorem Hash_Lookup_point `{J : JumpHash, !JumpHashOk J} h v :
  wf_hash32 h ->
  match Hash.GetIndex h v with
  | Ok i => exists sg, 0 <= i < Hash.slots h /\ Hash.Lookup h (Some v) (Some v) = Ok [sg] /\
      Hash.GetSegment h i = Ok sg /\ sg ∈ Hash.Segments h /\ in_seg i sg /\
      forall sg', sg' ∈ Hash.Segments h -> in_seg i sg' -> sg' = sg
  | Err e => Hash.Lookup h (Some v) (Some v) = Err e
  | Panic => False
  end.
Proof.
  intros [Hw Hs]. unfold Hash.Lookup. rewrite !decide_True by done.
  destruct (Hash.GetIndex h v) as [i|e|] eqn:Hi; simpl; [|done|].
  - pose proof (GetIndex_range h v i Hs Hi) as Hr. exists (Hash.slot h i).
    destruct (slot_in h i Hw Hr) as [Hin Hseg]. split_and!; try done; [lia..| |].
    + by apply GetSegment_slot.
    + intros sg' ? ?. by apply slot_unique.
  - unfold Hash.GetIndex in Hi. by repeat case_match.
Qed.

(** Four slots numbered from four. *)
Definition gap_config : TableConfig :=
  mkTableConfig "t" 4 4 MethodTypeHash "id" [mkPartitionConfig "t_0000" "4-8" "b1" ""] None.

(** [Hash.Build] compares the number of assigned slots with the number of
    slots, not their bounds: the segment 4-8 builds as a table of four slots,
    and every slot that [GetSegment] accepts reads the zero segment, which has
    no backend. *)
Theorem Hash_Build_accepts_gap :
  exists h, Hash.Build (Some gap_config) (Hash.New 4) = Ok h /\ Hash.slots h = 4 /\
    forall i, 0 <= i < 4 -> Hash.GetSegment h i = Ok zeroSegment.
Proof.
  eexists. split; [vm_compute; reflexivity|]. split; [reflexivity|]. intros i Hi.
  assert (i = 0 \/ i = 1 \/ i = 2 \/ i = 3) as [->|[->|[->| ->]]] by lia; vm_compute; reflexivity.
Qed.

Lemma Hash_Build_sound_witness :
  exists h, Hash.Build (Some gap_config) (Hash.New 4) = Ok h /\ Hash.slots h = 4.
Proof.
  eexists. split; [vm_compute; reflexivity|].
  eapply (Hash_Build_sound gap_config 4). vm_compute. reflexivity.
Defined.

(** The unsharded case of one segment for all slots, and a hash that meets
    its documented range. *)
Definition whole_hash : Hash.t :=
  match Hash.Build (Some (mkTableConfig "t" 4 4 MethodTypeHash "id"
    [mkPartitionConfig "t_0000" "0-4" "b1" ""] None)) (Hash.New 4) with
  | Ok h => h | _ => Hash.New 4 end.
Definition mod_jump : JumpHash :=
  {| jump_Hash k n := k mod n; jump_HashString s n := Z.of_nat (String.length s) mod n;
     parseFloat_u64 _ := None |}.
Lemma mod_jump_ok : JumpHashOk mod_jump.
Proof. split; intros; apply Z.mod_pos_bound; lia. Qed.

Lemma whole_hash_wf : wf_hash32 whole_hash.
Proof.
  assert (Hash.Build (Some (mkTableConfig "t" 4 4 MethodTypeHash "id"
    [mkPartitionConfig "t_0000" "0-4" "b1" ""] None)) (Hash.New 4) = Ok whole_hash) as H
    by (vm_compute; reflexivity).
  apply Build_built in H as [H Hs].
  split; [split; [done|]|rewrite Hs; lia]. apply built_covers; [done|].
  apply (bool_decide_unpack _). vm_compute. exact I.
Qed.

Lemma Hash_Lookup_point_witness :
  exists sg, Hash.Lookup (J := mod_jump) whole_hash (Some (mkSQLVal IntVal "7")) (Some (mkSQLVal IntVal "7"))
    = Ok [sg] /\ sg ∈ Hash.Segments whole_hash.
Proof.
  destruct (Hash_Lookup_point (J := mod_jump) (JumpHashOk0 := mod_jump_ok) whole_hash
    (mkSQLVal IntVal "7") whole_hash_wf) as (sg & _ & H1 & _ & H2 & _).
  exists sg. split; [exact H1|exact H2].
Defined.
