(* ===== verification/Compute.v ===== *)
(** * Spreading a table over the backends (src/router/compute.go)

    [HashUniform], [GlobalUniform], [SingleUniform] and [ListUniform] make the
    table configuration that [Build] reads back.  [Z.quot] is Go's integer
    division, which truncates; a division by zero panics. *)
From S2P Require Import Prelude GoStd Config Partition.
Open Scope string_scope.
Open Scope list_scope.
Open Scope Z_scope.

Definition partitionNums : list Z := [8; 16; 32; 64].

(** The name of the [n]-th partition table: [fmt.Sprintf("%s_%04d", table, n)]. *)
Definition part_name (table : string) (n : Z) : string := table +:+ "_" +:+ fmt_04d n.

(** [fmt.Sprintf("%d-%d", min, max)] *)
Definition seg_text (lo hi : Z) : string := Itoa lo +:+ "-" +:+ Itoa hi.

(** The body of the two nested loops of [HashUniform]. *)
Definition hash_part (table : string) (backends : list string)
    (slots blocks nums slotsPerShard tablesPerShard s i : Z) : PartitionConfig :=
  let step := s * slotsPerShard in
  let min := i * blocks + step in
  let max :=
    if i =? tablesPerShard - 1 then
      if s =? nums - 1 then slots else step + slotsPerShard
    else (i + 1) * blocks + step in
  let name := s * tablesPerShard + i in
  mkPartitionConfig (part_name table name) (seg_text min max)
    (default "" (backends !! Z.to_nat s)) "".

Definition hash_parts (table : string) (backends : list string)
    (slots blocks nums slotsPerShard tablesPerShard : Z) : list PartitionConfig :=
  s ← seqZ 0 nums;
  i ← seqZ 0 tablesPerShard;
  [hash_part table backends slots blocks nums slotsPerShard tablesPerShard s i].

(** The number of slots per block: the config's, or the one that gives the
    requested number of partitions. *)
Definition hash_blocks (conf : RouterConfig) (partitionNum : option SQLVal) : res rerr Z :=
  match partitionNum with
  | None => Ok (rcBlocks conf)
  | Some v =>
      match Atoi (svVal v) with
      | None => Err ErrPartNumParse
      | Some num =>
          if decide (num ∈ partitionNums) then Ok (Z.quot (rcSlots conf) num)
          else Err ErrPartNumNotAllowed
      end
  end.

(** [HashUniform] *)
Definition HashUniform (conf : RouterConfig) (table shardkey : string)
    (backends : list string) (partitionNum : option SQLVal) : res rerr TableConfig :=
  if decide (table = "") then Err ErrTableNull
  else if decide (shardkey = "") then Err ErrShardKeyNull
  else
    let slots := rcSlots conf in
    blocks ← hash_blocks conf partitionNum;
    let nums := Z.of_nat (length backends) in
    if nums =? 0 then Err ErrBackendsNull
    else if slots <=? nums then Err (ErrBackendsTooMany nums slots)
    else
      let backends := sort_Strings backends in
      let slotsPerShard := Z.quot slots nums in
      if blocks =? 0 then Panic
      else
        let tablesPerShard := Z.quot slotsPerShard blocks in
        Ok (mkTableConfig table slots blocks MethodTypeHash shardkey
              (hash_parts table backends slots blocks nums slotsPerShard tablesPerShard)
              None).

(** [GlobalUniform] *)
Definition GlobalUniform (table : string) (backends : list string) : res rerr TableConfig :=
  if decide (table = "") then Err ErrTableNull
  else match backends with
       | [] => Err ErrBackendsNull
       | _ => Ok (mkTableConfig table 0 0 MethodTypeGlobal ""
                    ((fun b => mkPartitionConfig table "" b "") <$> backends) None)
       end.

(** [SingleUniform] *)
Definition SingleUniform (table : string) (backends : list string) : res rerr TableConfig :=
  if decide (table = "") then Err ErrTableNull
  else match backends with
       | [] => Err ErrBackendsNull
       | b :: _ => Ok (mkTableConfig table 0 0 MethodTypeSingle ""
                         [mkPartitionConfig table "" b ""] None)
       end.

(** [sqlparser.PartitionDefinition]; an entry of [Row] that is not a [SQLVal]
    is [None] and makes the type assertion panic. *)
Record PartitionDefinition := mkPartDef { pdBackend : string; pdRow : list (option SQLVal) }.

(** One value of a definition. *)
Definition merge_value (backend : string) (m : gmap string string) (v : option SQLVal)
    : res rerr (gmap string string) :=
  match v with
  | None => Panic
  | Some v =>
      match m !! svVal v with
      | None => Ok (<[svVal v := backend]> m)
      | Some b => if decide (b = backend) then Ok m else Err ErrPartitionListConflict
      end
  end.

(** [listMergePartition] *)
Definition listMergePartition (defs : list PartitionDefinition) : res rerr (gmap string string) :=
  res_fold (fun m d => res_fold (merge_value (pdBackend d)) m (pdRow d)) ∅ defs.

Section list_uniform.
Context `{R : MapRange}.

(** [ListUniform]: the partitions are numbered in the order of the range. *)
Definition ListUniform (table shardkey : string) (defs : list PartitionDefinition)
    : res rerr TableConfig :=
  if decide (table = "") then Err ErrTableNull
  else if decide (shardkey = "") then Err ErrShardKeyNull
  else
    m ← listMergePartition defs;
    if decide (size m = 0%nat) then Err ErrPartitionListNull
    else Ok (mkTableConfig table 0 0 MethodTypeList shardkey
               (imap (fun i kv => mkPartitionConfig (part_name table (Z.of_nat i)) ""
                                    (snd kv) (fst kv)) (map_range m)) None).
End list_uniform.

(** ** Consecutive segments build

    [chain lo ps hi]: the entries of [ps] cover [lo .. hi-1] one after the
    other, each with a non-empty range. *)
Inductive chain : Z -> list PartitionConfig -> Z -> Prop :=
| chain_nil lo : chain lo [] lo
| chain_cons lo mid hi p ps :
    pcSegment p = seg_text lo mid -> lo < mid -> chain mid ps hi -> chain lo (p :: ps) hi.

Section chains.
Lemma chain_le lo ps hi : chain lo ps hi -> lo <= hi.
Proof. induction 1; lia. Qed.

Lemma chain_app lo ps mid qs hi : chain lo ps mid -> chain mid qs hi -> chain lo (ps ++ qs) hi.
Proof. induction 1; simpl; [done|]. intros. econstructor; eauto. Qed.

Lemma Split_seg_text lo hi :
  0 <= lo -> 0 <= hi -> Split "-"%char (seg_text lo hi) = [Itoa lo; Itoa hi].
Proof.
  intros Hl Hh. unfold seg_text.
  change ("-" +:+ Itoa hi) with (String "-" (Itoa hi)).
  rewrite Split_join, Split_digits by (by apply Itoa_digits). done.
Qed.

Lemma build_part_text st p lo hi m :
  pcSegment p = seg_text lo hi -> 0 <= lo < hi -> hi < 2 ^ 63 ->
  Hash.mark (seg_text lo hi) (part_segment (length st.2) p lo hi)
    (Z.to_nat (hi - lo)) lo st.1 = Ok m ->
  Hash.build_part st p = Ok (m, st.2 ++ [part_segment (length st.2) p lo hi]).
Proof.
  intros Hp Hlo Hhi Hm. unfold Hash.build_part. rewrite Hp.
  rewrite Split_seg_text, !Atoi_Itoa by lia.
  destruct (Z.leb_spec hi lo); [lia|]. unfold part_segment in Hm. rewrite Hm. done.
Qed.

(** A chain that starts above every taken slot is accepted; it takes
    [hi - lo] more slots and its segments lie in [lo .. hi]. *)
Lemma chain_builds lo ps hi st :
  chain lo ps hi -> 0 <= lo -> hi < 2 ^ 63 ->
  (forall i, lo <= i -> st.1 !! i = None) ->
  exists st' new, res_fold Hash.build_part st ps = Ok st' /\
    Z.of_nat (size st'.1) = Z.of_nat (size st.1) + (hi - lo) /\
    st'.2 = st.2 ++ new /\
    Forall (fun sg => lo <= seg_start sg /\ seg_end sg <= hi) new.
Proof.
  intros Hc. revert st. induction Hc as [lo|lo mid hi p ps Hp Hlt Hc IH]; intros st Hlo Hhi Hfree.
  { exists st, []. simpl. rewrite app_nil_r. repeat split; [lia|done]. }
  pose proof (chain_le _ _ _ Hc).
  destruct (mark_ok (seg_text lo mid) (part_segment (length st.2) p lo mid)
              (Z.to_nat (mid - lo)) lo st.1) as [m Hm].
  { intros j Hj. apply Hfree. lia. }
  pose proof (build_part_text st p lo mid m Hp ltac:(lia) ltac:(lia) Hm) as Hb.
  apply mark_spec in Hm as (H1 & _ & H3). rewrite Z2Nat.id in H1 by lia.
  destruct (IH (m, st.2 ++ [part_segment (length st.2) p lo mid])) as (st' & new & Hf & Hs & Hn & Hall).
  { lia. } { lia. }
  { intros i Hi; simpl. rewrite H1, decide_False by lia. apply Hfree. lia. }
  simpl in *. exists st', (part_segment (length st.2) p lo mid :: new).
  rewrite Hb. simpl. repeat split; [done|lia| |].
  - rewrite Hn. by rewrite <- app_assoc.
  - constructor; [unfold seg_start, seg_end; simpl; lia|].
    eapply Forall_impl; [done|]. simpl. intros sg. lia.
Qed.

Lemma chain_Build tc n :
  chain 0 (tcPartitions tc) n -> n < 2 ^ 63 ->
  exists h, Hash.Build (Some tc) (Hash.New n) = Ok h /\ wf_hash h /\ Hash.slots h = n.
Proof.
  intros Hc Hn.
  destruct (chain_builds _ _ _ (∅, []) Hc) as (st & new & Hf & Hs & Hnew & Hall); [lia|lia|done|].
  simpl in *. rewrite map_size_empty in Hs.
  exists (Hash.mk n st.1 (sort_Segments st.2)).
  assert (Hash.Build (Some tc) (Hash.New n) = Ok (Hash.mk n st.1 (sort_Segments st.2))) as HB.
  { unfold Hash.Build, Hash.New; simpl. rewrite Hf. simpl.
    destruct (Z.eqb_spec (Z.of_nat (size st.1)) n); [done|lia]. }
  split; [done|]. split; [|done].
  apply Build_built in HB as [Hb _]. split; [done|].
  apply built_covers; [done|]. unfold hash_bounded; simpl.
  rewrite sort_Segments_perm. by rewrite Hnew.
Qed.
End chains.

(** ** The layout of [HashUniform] *)
Section layout.
Context (table : string) (backends : list string).
Context (slots blocks nums sps tps : Z).
Context (Hblocks : 0 < blocks) (Hnums : 0 < nums).
Context (Hsps : sps = slots / nums) (Htps : tps = sps / blocks) (Hpos : 0 < tps).

Local Abbreviation part := (hash_part table backends slots blocks nums sps tps).

(** The upper bound of a shard's slots. *)
Definition shard_end (s : Z) : Z := if s =? nums - 1 then slots else (s + 1) * sps.

Lemma sps_bounds : nums * sps <= slots < nums * sps + nums.
Proof.
  rewrite Hsps. pose proof (Z.div_mod slots nums). pose proof (Z.mod_pos_bound slots nums). lia.
Qed.

Lemma tps_bounds : tps * blocks <= sps < tps * blocks + blocks.
Proof.
  rewrite Htps. pose proof (Z.div_mod sps blocks). pose proof (Z.mod_pos_bound sps blocks). lia.
Qed.

Lemma shard_end_ge s : 0 <= s < nums -> s * sps + sps <= shard_end s.
Proof.
  intros Hs. pose proof sps_bounds. unfold shard_end.
  destruct (Z.eqb_spec s (nums - 1)); nia.
Qed.

(** The first [k] tables of shard [s]. *)
Lemma shard_prefix s k : 0 <= s < nums -> 0 <= k < tps ->
  chain (s * sps) (i ← seqZ 0 k; [part s i]) (k * blocks + s * sps).
Proof.
  intros Hs [Hk Ht]. revert Ht. pattern k. apply natlike_ind; [|clear k Hk|done].
  { intros _. simpl. constructor. }
  intros k Hk IH Hlt. rewrite <- Z.add_1_r, seqZ_snoc, bind_app by lia.
  eapply chain_app; [apply IH; lia|]. simpl.
  econstructor; [| |constructor].
  - rewrite Z.add_0_l. unfold hash_part; simpl.
    destruct (Z.eqb_spec k (tps - 1)); [lia|]. f_equal; lia.
  - nia.
Qed.

Lemma shard_chain s : 0 <= s < nums ->
  chain (s * sps) (i ← seqZ 0 tps; [part s i]) (shard_end s).
Proof.
  intros Hs. pose proof tps_bounds. pose proof (shard_end_ge s Hs).
  replace tps with (tps - 1 + 1) at 1 by lia.
  rewrite seqZ_snoc, bind_app by lia. eapply chain_app.
  { apply shard_prefix; lia. }
  simpl. econstructor; [| |constructor].
  - rewrite Z.add_0_l. unfold hash_part, shard_end; simpl. rewrite Z.eqb_refl.
    destruct (s =? nums - 1); f_equal; lia.
  - nia.
Qed.

Lemma shards_prefix k : 0 <= k < nums ->
  chain 0 (s ← seqZ 0 k; i ← seqZ 0 tps; [part s i]) (k * sps).
Proof.
  intros [Hk Ht]. revert Ht. pattern k. apply natlike_ind; [|clear k Hk|done].
  { intros _. simpl. constructor. }
  intros k Hk IH Hlt. rewrite <- Z.add_1_r, seqZ_snoc, bind_app by lia.
  eapply chain_app; [apply IH; lia|]. cbn [mbind list_bind]. rewrite app_nil_r.
  pose proof (shard_chain k ltac:(lia)) as Hc. unfold shard_end in Hc.
  destruct (Z.eqb_spec k (nums - 1)); [lia|]. exact Hc.
Qed.

Lemma layout_chain : chain 0 (hash_parts table backends slots blocks nums sps tps) slots.
Proof.
  unfold hash_parts. replace nums with (nums - 1 + 1) at 1 by lia.
  rewrite seqZ_snoc, bind_app by lia. eapply chain_app; [apply shards_prefix; lia|].
  cbn [mbind list_bind]. rewrite app_nil_r.
  pose proof (shard_chain (nums - 1) ltac:(lia)) as Hc. unfold shard_end in Hc.
  rewrite Z.eqb_refl in Hc. exact Hc.
Qed.
End layout.

(** The partition of shard [s] and position [i] is number [s * tps + i]. *)
Lemma shard_names table backends slots blocks nums sps tps s :
  pcTable <$> (i ← seqZ 0 tps; [hash_part table backends slots blocks nums sps tps s i])
  = part_name table <$> seqZ (s * tps) tps.
Proof.
  rewrite bind_singleton. apply list_eq. intros j. rewrite !list_lookup_fmap.
  destruct (decide (Z.of_nat j < tps)).
  - rewrite !lookup_seqZ_lt by lia. simpl. by rewrite Z.add_0_l.
  - by rewrite !lookup_seqZ_ge by lia.
Qed.

Lemma hash_parts_names table backends slots blocks nums sps tps :
  0 <= tps ->
  pcTable <$> hash_parts table backends slots blocks nums sps tps
  = part_name table <$> seqZ 0 (nums * tps).
Proof.
  intros Ht. unfold hash_parts. rewrite fmap_bind.
  erewrite list_bind_ext; [|intros s; apply shard_names|done].
  destruct (decide (0 <= nums)) as [Hn|Hn].
  2: { by rewrite (seqZ_nil 0 nums), (seqZ_nil 0 (nums * tps)) by nia. }
  pattern nums. apply natlike_ind; [| |done].
  - by rewrite Z.mul_0_l.
  - clear nums Hn. intros n Hn IH.
    rewrite <- Z.add_1_r, seqZ_snoc, bind_app, IH by lia.
    rewrite Z.mul_add_distr_r, Z.mul_1_l, seqZ_app, fmap_app by nia. f_equal.
    cbn [mbind list_bind]. by rewrite app_nil_r, Z.add_0_l.
Qed.

Lemma part_name_inj table a b :
  0 <= a -> 0 <= b -> part_name table a = part_name table b -> a = b.
Proof.
  intros Ha Hb H. unfold part_name in H. apply str_app_inj_l in H.
  apply (str_app_inj_l "_") in H. by apply fmt_04d_inj.
Qed.

Lemma hash_parts_names_NoDup table backends slots blocks nums sps tps :
  0 <= tps -> NoDup (pcTable <$> hash_parts table backends slots blocks nums sps tps).
Proof.
  intros Ht. rewrite hash_parts_names by done.
  apply NoDup_alt. intros i j x. rewrite !list_lookup_fmap, !fmap_Some.
  intros (a & Ha & ->) (b & Hb & Hab).
  apply lookup_seqZ in Ha as [-> _], Hb as [-> _].
  apply part_name_inj in Hab; lia.
Qed.

(** Every shard has [tps] tables, all of them on its backend. *)
Lemma hash_parts_backend table B slots blocks sps tps b :
  0 <= tps -> NoDup B -> b ∈ B ->
  length (filter (fun p => pcBackend p = b)
    (hash_parts table B slots blocks (Z.of_nat (length B)) sps tps)) = Z.to_nat tps.
Proof.
  intros Ht Hnd Hb. apply list_elem_of_lookup in Hb as [k Hk].
  pose proof (lookup_lt_Some _ _ _ Hk) as Hlt.
  unfold hash_parts. rewrite filter_bind, (bind_only _ (Z.of_nat k)).
  - rewrite bind_singleton, list_filter_all, length_fmap, length_seqZ; [done|].
    apply Forall_fmap, Forall_forall. intros i _. simpl.
    by rewrite Nat2Z.id, Hk.
  - apply NoDup_seqZ.
  - apply elem_of_seqZ. lia.
  - intros s Hs%elem_of_seqZ Hne. apply list_filter_none.
    rewrite bind_singleton. apply Forall_fmap, Forall_forall. intros i _. simpl.
    intros Heq. destruct (B !! Z.to_nat s) eqn:HB; simpl in Heq.
    + subst. pose proof (NoDup_lookup _ _ _ _ Hnd HB Hk). lia.
    + apply lookup_ge_None in HB. lia.
Qed.

(** ** Properties of [HashUniform] *)

(** What a returned configuration is made of. *)
Lemma HashUniform_inv conf table key backends pn tc :
  HashUniform conf table key backends pn = Ok tc ->
  let n := Z.of_nat (length backends) in
  let sps := Z.quot (rcSlots conf) n in
  exists blocks, hash_blocks conf pn = Ok blocks /\ 0 < n < rcSlots conf /\ blocks <> 0 /\
    tc = mkTableConfig table (rcSlots conf) blocks MethodTypeHash key
           (hash_parts table (sort_Strings backends) (rcSlots conf) blocks n sps
              (Z.quot sps blocks)) None.
Proof.
  unfold HashUniform. do 2 (case_decide; [done|]).
  destruct (hash_blocks conf pn) as [blocks| |]; simpl; try done.
  bcase; try done. intros [= <-]. exists blocks. repeat split; lia || done.
Qed.

Lemma HashUniform_ok conf table key backends pn blocks :
  table <> "" -> key <> "" -> hash_blocks conf pn = Ok blocks -> 0 < blocks ->
  0 < Z.of_nat (length backends) < rcSlots conf ->
  exists tc, HashUniform conf table key backends pn = Ok tc /\ tcBlocks tc = blocks.
Proof.
  intros Ht Hk Hb Hpos Hn. unfold HashUniform. rewrite !decide_False, Hb by done. simpl.
  bcase; try lia. eauto.
Qed.

(** The shard sizes of a positive configuration, as floor divisions. *)
Lemma layout_quots slots n blocks :
  0 < n -> 0 < blocks -> n * blocks <= slots ->
  Z.quot slots n = slots / n /\ Z.quot (Z.quot slots n) blocks = slots / n / blocks /\
  0 < slots / n / blocks.
Proof.
  intros Hn Hb Hle.
  assert (blocks <= slots / n) as Hq by (apply Z.div_le_lower_bound; lia).
  rewrite Z.quot_div_nonneg by nia. rewrite Z.quot_div_nonneg by nia.
  repeat split. apply Z.div_str_pos. lia.
Qed.

(** The configuration is a chain from [0] to [slots], so it builds. *)
Lemma HashUniform_layout conf table key backends pn blocks tc :
  HashUniform conf table key backends pn = Ok tc -> hash_blocks conf pn = Ok blocks -> 0 < blocks ->
  Z.of_nat (length backends) * blocks <= rcSlots conf -> rcSlots conf < 2 ^ 63 ->
  exists h, Hash.Build (Some tc) (Hash.New (tcSlots tc)) = Ok h /\
    wf_hash h /\ Hash.slots h = rcSlots conf.
Proof.
  intros (b & Hb' & [H0 _] & _ & ->)%HashUniform_inv Hb Hpos Hfit Hn.
  rewrite Hb in Hb'. injection Hb' as <-.
  destruct (layout_quots (rcSlots conf) (Z.of_nat (length backends)) blocks)
    as (Hq1 & Hq2 & Hq3); try done.
  rewrite Hq2, Hq1. apply chain_Build; [|done]. simpl. by apply layout_chain.
Qed.

(** [HashUniform] succeeds whenever every backend can receive at least one
    block of slots, and the configuration it makes is accepted by [Hash.Build]:
    every slot [0 .. slots-1] then belongs to exactly one segment (the segments
    do not overlap, are sorted, and the slot map agrees with them). *)
Theorem HashUniform_builds conf table key backends pn blocks :
  table <> "" -> key <> "" -> hash_blocks conf pn = Ok blocks -> 0 < blocks ->
  backends <> [] -> Z.of_nat (length backends) * blocks <= rcSlots conf ->
  Z.of_nat (length backends) < rcSlots conf < 2 ^ 63 ->
  exists tc h, HashUniform conf table key backends pn = Ok tc /\
    Hash.Build (Some tc) (Hash.New (tcSlots tc)) = Ok h /\
    wf_hash h /\ Hash.slots h = rcSlots conf.
Proof.
  intros Ht Hk Hb Hpos Hne Hfit Hn.
  assert (0 < Z.of_nat (length backends)) as H0 by (destruct backends; [done|simpl; lia]).
  destruct (HashUniform_ok conf table key backends pn blocks) as (tc & Htc & _); try done; [lia|].
  destruct (HashUniform_layout _ _ _ _ _ _ _ Htc Hb Hpos Hfit ltac:(lia)) as (h & HB & Hw & Hs).
  eauto 10.
Qed.

(** The tables of a hash table are spread evenly: the partition names are
    pairwise distinct, there are [tps] of them per backend, [tps] being the
    number of whole blocks in a backend's share of the slots, and each backend
    of a duplicate-free list gets exactly [tps] of them. *)
Theorem HashUniform_balanced conf table key backends pn tc :
  HashUniform conf table key backends pn = Ok tc -> 0 < tcBlocks tc -> NoDup backends ->
  let tps := rcSlots conf / Z.of_nat (length backends) / tcBlocks tc in
  NoDup (pcTable <$> tcPartitions tc) /\
  Z.of_nat (length (tcPartitions tc)) = Z.of_nat (length backends) * tps /\
  forall b, b ∈ backends ->
    Z.of_nat (length (filter (fun p => pcBackend p = b) (tcPartitions tc))) = tps.
Proof.
  intros (blocks & Hb & Hn & Hnz & ->)%HashUniform_inv. simpl. intros Hpos Hnd.
  assert (Z.quot (Z.quot (rcSlots conf) (Z.of_nat (length backends))) blocks
          = rcSlots conf / Z.of_nat (length backends) / blocks) as ->.
  { rewrite (Z.quot_div_nonneg (rcSlots conf)) by lia.
    apply Z.quot_div_nonneg; [apply Z.div_pos|]; lia. }
  rewrite (Z.quot_div_nonneg (rcSlots conf)) by lia.
  set (tps := _ / blocks).
  assert (0 <= tps) by (apply Z.div_pos; [apply Z.div_pos; lia|lia]).
  repeat split.
  - by apply hash_parts_names_NoDup.
  - rewrite <- (length_fmap pcTable), hash_parts_names, length_fmap, length_seqZ by done. nia.
  - intros b Hin. rewrite <- (sort_Strings_length backends).
    rewrite hash_parts_backend; [lia|done| |]; by rewrite sort_Strings_perm.
Qed.

(** A share of the slots smaller than one block gives no partition. *)
Lemma HashUniform_empty conf table key backends pn tc :
  HashUniform conf table key backends pn = Ok tc ->
  rcSlots conf / Z.of_nat (length backends) < tcBlocks tc ->
  tcPartitions tc = [] /\ tcSlots tc = rcSlots conf /\ tcShardType tc = MethodTypeHash /\
  0 < rcSlots conf.
Proof.
  intros (blocks & Hb & Hn & Hnz & ->)%HashUniform_inv. simpl. intros Hlt.
  rewrite (Z.quot_div_nonneg (rcSlots conf)) by lia.
  rewrite Z.quot_small by (split; [apply Z.div_pos; lia|done]).
  split_and!; [|done..|lia]. by apply bind_nil_all.
Qed.

Lemma Build_no_partitions tc n :
  tcPartitions tc = [] -> 0 < n -> Hash.Build (Some tc) (Hash.New n) = Err (ErrSegUpper 0 n).
Proof.
  intros Hp Hn. unfold Hash.Build, Hash.New; simpl. rewrite Hp. simpl. rewrite map_size_empty.
  destruct (Z.eqb_spec (Z.of_nat 0) n); [lia|done].
Qed.

(** when a backend's share of the slots is smaller than one block
    ([slots / nums < blocks], for example 9 backends and 8 partitions),
    [HashUniform] still returns a configuration: it has no partition at all,
    and [Hash.Build] rejects it. *)
Theorem HashUniform_no_tables conf table key backends pn tc :
  HashUniform conf table key backends pn = Ok tc ->
  rcSlots conf / Z.of_nat (length backends) < tcBlocks tc ->
  tcPartitions tc = [] /\
  Hash.Build (Some tc) (Hash.New (tcSlots tc)) = Err (ErrSegUpper 0 (rcSlots conf)).
Proof.
  intros H Hlt. destruct (HashUniform_empty _ _ _ _ _ _ H Hlt) as (Hp & Hs & _ & Hpos).
  split; [done|]. rewrite Hs. by apply Build_no_partitions.
Qed.

(** ** Properties of [ListUniform] *)

(** The value [v] is listed for backend [b]. *)
Definition listed (defs : list PartitionDefinition) (v b : string) : Prop :=
  exists d sv, d ∈ defs /\ pdBackend d = b /\ Some sv ∈ pdRow d /\ svVal sv = v.

Lemma merge_row_spec b m row m' :
  res_fold (merge_value b) m row = Ok m' ->
  forall v c, m' !! v = Some c <->
    m !! v = Some c \/ (c = b /\ exists sv, Some sv ∈ row /\ svVal sv = v).
Proof.
  revert m. induction row as [|x row IH]; intros m; simpl.
  { intros [= ->] v c. set_solver. }
  destruct (merge_value b m x) as [m1| |] eqn:H1; simpl; try done.
  intros Hf v c. rewrite (IH _ Hf). clear IH Hf.
  destruct x as [sv|]; [|done]. unfold merge_value in H1.
  assert (forall o, Some o ∈ Some sv :: row <-> o = sv \/ Some o ∈ row) as He.
  { intros o. rewrite elem_of_cons. naive_solver. }
  setoid_rewrite He. clear He.
  destruct (m !! svVal sv) as [b0|] eqn:Hm.
  - case_decide; [|done]. simplify_eq. naive_solver.
  - injection H1 as <-. destruct (decide (svVal sv = v)) as [<-|Hne].
    + rewrite lookup_insert_eq. naive_solver.
    + rewrite lookup_insert_ne by done. naive_solver.
Qed.

Lemma listMerge_spec defs m :
  listMergePartition defs = Ok m -> forall v b, m !! v = Some b <-> listed defs v b.
Proof.
  unfold listMergePartition.
  apply (res_fold_inv _ (fun ds m => forall v b, m !! v = Some b <-> listed ds v b)).
  - intros v b. rewrite lookup_empty. unfold listed. set_solver.
  - intros ds d m1 m2 IH Hrow v b. rewrite (merge_row_spec _ _ _ _ Hrow), IH.
    unfold listed. split.
    + intros [(d' & sv & Hd & Hb & Hin & Hv)|[-> (sv & Hin & Hv)]];
        [exists d', sv|exists d, sv]; set_solver.
    + intros (d' & sv & Hd & Hb & Hin & Hv).
      apply elem_of_app in Hd as [Hd| ->%list_elem_of_singleton]; [left|right]; [by exists d', sv|].
      split; [done|]. by exists sv.
Qed.

(** After a successful merge no value is listed for two backends. *)
Lemma listMerge_functional defs m v b1 b2 :
  listMergePartition defs = Ok m -> listed defs v b1 -> listed defs v b2 -> b1 = b2.
Proof.
  intros Hm H1 H2. apply (listMerge_spec _ _ Hm) in H1, H2. congruence.
Qed.

Section list_uniform_props.
Context `{R : MapRange, !MapRangeOk R}.

Lemma map_range_elem A (m : gmap string A) k v :
  (k, v) ∈ map_range m <-> m !! k = Some v.
Proof. rewrite map_range_perm. apply elem_of_map_to_list. Qed.

(** A list table routes every listed value to the backend its definition
    names and rejects every value that is not listed, whatever the order in
    which the merged map is iterated. *)
Theorem ListUniform_routes table key defs tc l v :
  ListUniform table key defs = Ok tc -> List_.Build (Some tc) List_.New = Ok l ->
  (forall b, listed defs (svVal v) b ->
     exists sg, List_.Lookup l (Some v) (Some v) = Ok [sg] /\ sgBackend sg = b) /\
  ((forall b, ~ listed defs (svVal v) b) ->
     List_.Lookup l (Some v) (Some v) = Err (ErrNoPartition (svVal v))).
Proof.
  unfold ListUniform. do 2 (case_decide; [done|]).
  destruct (listMergePartition defs) as [m| |] eqn:Hm; simpl; try done.
  case_decide as Hz; [done|]. intros [= <-]. unfold List_.Build; simpl. intros [= <-].
  set (segs := plain_segments _ _ _ _).
  assert (forall sg, sg ∈ segs -> m !! sgListValue sg = Some (sgBackend sg)) as Hsound.
  { intros sg Hsg. apply map_range_elem.
    pose proof (plain_segments_conf (ListRange "") pcListValue 0
      (imap (fun i kv => mkPartitionConfig (part_name table (Z.of_nat i)) "" kv.2 kv.1)
         (map_range m))) as Hc. fold segs in Hc.
    apply (list_elem_of_fmap_2 (fun sg => (sgTable sg, sgBackend sg, sgListValue sg))) in Hsg.
    rewrite Hc in Hsg. apply list_elem_of_fmap in Hsg as (p & Hp & Hin).
    apply elem_of_lookup_imap in Hin as (i & [k b] & -> & Hi). simpl in Hp.
    injection Hp as ? -> ->. by eapply list_elem_of_lookup_2. }
  assert (forall k b, m !! k = Some b -> exists sg, sg ∈ segs /\ sgListValue sg = k /\ sgBackend sg = b)
    as Hcomplete.
  { intros k b Hk. apply map_range_elem, list_elem_of_lookup in Hk as [i Hi].
    eexists. split; [|split].
    - apply list_elem_of_lookup. exists i. unfold segs, plain_segments.
      rewrite !list_lookup_imap, Hi. simpl. reflexivity.
    - done.
    - done. }
  split.
  - intros b Hb. apply (listMerge_spec _ _ Hm) in Hb.
    destruct (Hcomplete _ _ Hb) as (sg0 & Hin0 & Hv0 & _).
    destruct (list_lookup_listed segs v sg0 Hin0 Hv0) as [out Hl].
    apply list_lookup_value in Hl as Hl'. destruct Hl' as (sg & -> & Hin & Hv).
    exists sg. split; [done|]. apply Hsound in Hin. rewrite Hv in Hin. congruence.
  - intros Hn. apply list_lookup_unlisted. apply Forall_forall. intros sg Hin Hv.
    apply Hsound in Hin. rewrite Hv in Hin. apply (listMerge_spec _ _ Hm) in Hin.
    by apply (Hn (sgBackend sg)).
Qed.
End list_uniform_props.

(** ** Concrete instances *)
Lemma HashUniform_builds_witness :
  exists tc h, HashUniform DefaultRouterConfig "t" "id" ["b2"; "b1"] None = Ok tc /\
    Hash.Build (Some tc) (Hash.New (tcSlots tc)) = Ok h /\
    wf_hash h /\ Hash.slots h = rcSlots DefaultRouterConfig.
Proof.
  apply (HashUniform_builds DefaultRouterConfig "t" "id" ["b2"; "b1"] None 64);
    (done || reflexivity || simpl; lia).
Defined.

Definition uniform_example : TableConfig :=
  mkTableConfig "t" 16 4 MethodTypeHash "id"
    [mkPartitionConfig "t_0000" "0-4" "b1" ""; mkPartitionConfig "t_0001" "4-8" "b1" "";
     mkPartitionConfig "t_0002" "8-12" "b2" ""; mkPartitionConfig "t_0003" "12-16" "b2" ""] None.

Lemma HashUniform_balanced_witness :
  HashUniform (mkRouterConfig 16 4) "t" "id" ["b2"; "b1"] None = Ok uniform_example /\
  NoDup (pcTable <$> tcPartitions uniform_example).
Proof.
  split; [vm_compute; reflexivity|].
  apply (HashUniform_balanced (mkRouterConfig 16 4) "t" "id" ["b2"; "b1"] None uniform_example).
  - vm_compute; reflexivity.
  - reflexivity.
  - apply (bool_decide_unpack _). vm_compute. exact I.
Defined.

(** Nine backends, eight partitions: the configuration is empty. *)
Definition nine_backends : list string := ["a"; "b"; "c"; "d"; "e"; "f"; "g"; "h"; "i"].
Definition eight_partitions : option SQLVal := Some (mkSQLVal IntVal "8").

Lemma HashUniform_no_tables_witness :
  exists tc, HashUniform DefaultRouterConfig "t" "id" nine_backends eight_partitions = Ok tc /\
  tcPartitions tc = [] /\
  Hash.Build (Some tc) (Hash.New (tcSlots tc)) = Err (ErrSegUpper 0 4096).
Proof.
  eexists. split; [vm_compute; reflexivity|].
  apply (HashUniform_no_tables DefaultRouterConfig "t" "id" nine_backends eight_partitions);
    [vm_compute; reflexivity|reflexivity].
Defined.

Definition list_defs : list PartitionDefinition :=
  [mkPartDef "b1" [Some (mkSQLVal IntVal "1"); Some (mkSQLVal IntVal "2")];
   mkPartDef "b2" [Some (mkSQLVal IntVal "3")]].

Lemma ListUniform_routes_witness :
  exists tc l, ListUniform "t" "id" list_defs = Ok tc /\
    List_.Build (Some tc) List_.New = Ok l /\
    exists sg, List_.Lookup l (Some (mkSQLVal IntVal "3")) (Some (mkSQLVal IntVal "3")) = Ok [sg] /\
      sgBackend sg = "b2".
Proof.
  eexists _, _. split; [vm_compute; reflexivity|]. split; [vm_compute; reflexivity|].
  eapply (ListUniform_routes (R := canonical_range) "t" "id" list_defs);
    [vm_compute; reflexivity|vm_compute; reflexivity|].
  exists (mkPartDef "b2" [Some (mkSQLVal IntVal "3")]), (mkSQLVal IntVal "3").
  split; [right; left|]. split; [done|]. split; [left|done].
Defined.
