(* ===== verification/Router.v ===== *)
(** * The router (src/router: router.go, acl.go)

    The in-memory schemas, the access list of the system databases and the
    lookups the planner makes.  The state also holds what the methods of
    Frm.v change: the metadata directory and the outcome of each I/O call.

    Shared objects: a [*TableConfig] is reachable from more than one place
    (the [Table], the caller of [addTable], the config a rename edits), so the
    configurations live in a heap [rHeap] and a pointer is an index into it. *)
From S2P Require Import Prelude GoStd Config Partition.
Open Scope string_scope.
Open Scope list_scope.
Open Scope Z_scope.

(** ** State *)

(** [Table]; [tPartition = None] is the nil interface a table has until its
    partition is built, [tConf] the pointer [TableConfig]. *)
Record Table := mkTable {
  tName : string;
  tShardKey : string;
  tPartition : option Partition;
  tConf : nat
}.

(** [Schema] *)
Record Schema := mkSchema { sDB : string; sTables : gmap string Table }.

(** [Router] with the metadata directory: [rMeta] tells whether the directory
    exists, [rDisk] holds its sub-directories with their table files (a file
    that is not valid JSON is [None]), [rVersion] counts the updates of the
    version file, and [rIo] fixes the outcomes of the I/O calls to come (all
    succeed once it is exhausted). *)
Record Router := mkRouter {
  rConf : RouterConfig;
  rSchemas : gmap string Schema;
  rHeap : list TableConfig;
  rMeta : bool;
  rDisk : gmap string (gmap string (option TableConfig));
  rVersion : nat;
  rIo : list io_result
}.

Definition set_schemas (m : gmap string Schema) (r : Router) : Router :=
  mkRouter (rConf r) m (rHeap r) (rMeta r) (rDisk r) (rVersion r) (rIo r).
Definition set_heap (h : list TableConfig) (r : Router) : Router :=
  mkRouter (rConf r) (rSchemas r) h (rMeta r) (rDisk r) (rVersion r) (rIo r).
Definition set_disk (b : bool) (d : gmap string (gmap string (option TableConfig)))
    (r : Router) : Router :=
  mkRouter (rConf r) (rSchemas r) (rHeap r) b d (rVersion r) (rIo r).
Definition set_version (v : nat) (r : Router) : Router :=
  mkRouter (rConf r) (rSchemas r) (rHeap r) (rMeta r) (rDisk r) v (rIo r).
Definition set_conf (c : RouterConfig) (r : Router) : Router :=
  mkRouter c (rSchemas r) (rHeap r) (rMeta r) (rDisk r) (rVersion r) (rIo r).
Definition set_io (l : list io_result) (r : Router) : Router :=
  mkRouter (rConf r) (rSchemas r) (rHeap r) (rMeta r) (rDisk r) (rVersion r) l.

Abbreviation RM := (M Router rerr).

(** [NewRouter] on a directory. *)
Definition NewRouter (conf : RouterConfig) (meta : bool)
    (disk : gmap string (gmap string (option TableConfig))) (io : list io_result) : Router :=
  mkRouter conf ∅ [] meta disk 0 io.

(** ** The heap of configurations *)
Definition alloc (c : TableConfig) : RM nat := fun r =>
  (Ok (length (rHeap r)), set_heap (rHeap r ++ [c]) r).
Definition deref (l : nat) : RM TableConfig := fun r =>
  match rHeap r !! l with Some c => (Ok c, r) | None => (Panic, r) end.
Definition store (l : nat) (c : TableConfig) : RM unit :=
  mmodify (fun r => set_heap (<[l := c]> (rHeap r)) r).

(** ** acl.go *)
Definition systemDatabases : list string :=
  ["SYS"; "MYSQL"; "INFORMATION_SCHEMA"; "PERFORMANCE_SCHEMA"].

(** [DatabaseACL.Allow] *)
Definition acl_Allow (db : string) : bool := negb (bool_decide (ToUpper db ∈ systemDatabases)).
(** [DatabaseACL.IsSystemDB] *)
Definition acl_IsSystemDB (db : string) : bool := bool_decide (ToUpper db ∈ systemDatabases).

(** [Router.DatabaseACL] *)
Definition DatabaseACL (db : string) : res rerr unit :=
  if acl_Allow db then Ok tt else Err (ErAccessDenied db).

(** [Router.IsPartitionHash] *)
Definition IsPartitionHash (m : string) : bool := bool_decide (m = MethodTypeHash).

(** ** router.go *)

(** [checkDatabase] (frm.go) *)
Definition checkDatabase (db : string) : RM unit := fun r =>
  if decide (db = "") then (Err ErNoDB, r)
  else match rSchemas r !! db with
       | None => (Err (ErBadDB db), r)
       | Some _ => (Ok tt, r)
       end.

(** [schema.Tables[t.Name] = t] for the schema of [db]. *)
Definition put_table (db : string) (t : Table) : RM unit :=
  mmodify (fun r => set_schemas
    (alter (fun s => mkSchema (sDB s) (<[tName t := t]> (sTables s))) db (rSchemas r)) r).

(** The switch on the shard type that ends [addTable]. *)
Definition build_partition (conf : RouterConfig) (tbl : TableConfig) : res rerr Partition :=
  if decide (tcShardType tbl = MethodTypeHash) then
    let slots := if tcSlots tbl =? 0 then rcSlots conf else tcSlots tbl in
    PHash <$> Hash.Build (Some tbl) (Hash.New slots)
  else if decide (tcShardType tbl = MethodTypeGlobal) then
    PGlobal <$> Global_.Build (Some tbl) Global_.New
  else if decide (tcShardType tbl = MethodTypeSingle) then
    PSingle <$> Single.Build (Some tbl) Single.New
  else if decide (tcShardType tbl = MethodTypeList) then
    PList <$> List_.Build (Some tbl) List_.New
  else Err (ErrShardType (tcShardType tbl)).

(** [addTable]: the table enters the schema before its partition is built. *)
Definition addTable (db : string) (tbl : option nat) : RM unit :=
  _ ← checkDatabase db;
  match tbl with
  | None => mfail ErrConfNil
  | Some loc =>
      conf ← deref loc;
      r ← mget;
      match rSchemas r !! db with
      | None => mpanic
      | Some schema =>
          match sTables schema !! tcName conf with
          | Some _ => mfail (ErrTableExists db (tcName conf))
          | None =>
              _ ← put_table db (mkTable (tcName conf) (tcShardKey conf) None loc);
              p ← mlift (build_partition (rConf r) conf);
              put_table db (mkTable (tcName conf) (tcShardKey conf) (Some p) loc)
          end
      end
  end.

(** [removeTable] *)
Definition removeTable (db table : string) : RM unit := fun r =>
  match rSchemas r !! db with
  | None => (Err (ErrDBNotFound db), r)
  | Some schema =>
      match sTables schema !! table with
      | None => (Err (ErrTableNotFound table), r)
      | Some _ =>
          (Ok tt, set_schemas (<[db := mkSchema (sDB schema) (delete table (sTables schema))]>
                                 (rSchemas r)) r)
      end
  end.

(** The edit a rename makes to the shared configuration. *)
Definition rename_config (fromTable toTable : string) (c : TableConfig) : TableConfig :=
  set_partitions
    ((fun p => set_pcTable (Replace1 (pcTable p) fromTable toTable) p) <$> tcPartitions c)
    (set_name toTable c).

(** [getRenameTableConfig]: edits the configuration in place and returns the
    pointer. *)
Definition getRenameTableConfig (db fromTable toTable : string) : RM nat := fun r =>
  match rSchemas r !! db with
  | None => (Err (ErrDBNotFound db), r)
  | Some schema =>
      match sTables schema !! fromTable with
      | None => (Err (ErrTableNotFound fromTable), r)
      | Some t =>
          match sTables schema !! toTable with
          | Some _ => (Err (ErrRenameExists toTable), r)
          | None =>
              (c ← deref (tConf t);
               _ ← store (tConf t) (rename_config fromTable toTable c);
               mret (tConf t)) r
          end
      end
  end.

(** [addDatabase] *)
Definition addDatabase (db : string) : RM unit := fun r =>
  if decide (db = "") then (Err ErrDBEmpty, r)
  else match rSchemas r !! db with
       | None => (Ok tt, set_schemas (<[db := mkSchema db ∅]> (rSchemas r)) r)
       | Some _ => (Err ErrDBExists, r)
       end.

(** [dropDatabase] *)
Definition dropDatabase (db : string) : RM unit := fun r =>
  match rSchemas r !! db with
  | None => (Err (ErrDBNotFound db), r)
  | Some _ => (Ok tt, set_schemas (delete db (rSchemas r)) r)
  end.

(** [clear] *)
Definition clear : RM unit := mmodify (set_schemas ∅).

(** [getTable] *)
Definition getTable (r : Router) (database tableName : string) : res rerr Table :=
  if decide (database = "") then Err ErNoDB
  else if decide (tableName = "") then Err (ErNoSuchTable tableName)
  else match rSchemas r !! database with
       | None => Err (ErNoSuchTable (database +:+ "." +:+ tableName))
       | Some schema =>
           match sTables schema !! tableName with
           | None => Err (ErNoSuchTable tableName)
           | Some t => Ok t
           end
       end.

(** A method call on the interface value [t.Partition]. *)
Definition partition_of (t : Table) : res rerr Partition :=
  match tPartition t with Some p => Ok p | None => Panic end.

(** [Router.ShardKey] *)
Definition ShardKey (r : Router) (database tableName : string) : res rerr string :=
  t ← getTable r database tableName; Ok (tShardKey t).

(** [Router.TableConfig] *)
Definition TableConfigOf (r : Router) (database tableName : string) : res rerr TableConfig :=
  t ← getTable r database tableName; fst (deref (tConf t) r).

Section lookups.
Context `{J : JumpHash}.

(** [Router.PartitionType] *)
Definition PartitionType (r : Router) (database tableName : string) : res rerr string :=
  t ← getTable r database tableName; p ← partition_of t; Ok (p_Type p).

(** [Router.Lookup] *)
Definition Lookup (r : Router) (database tableName : string) (s e : option SQLVal)
    : res rerr (list Segment) :=
  if decide (database = "") then Err ErNoDB
  else if decide (tableName = "") then Err (ErNoSuchTable tableName)
  else match rSchemas r !! database with
       | None => Err (ErBadDB database)
       | Some schema =>
           match sTables schema !! tableName with
           | None => Err (ErNoSuchTable tableName)
           | Some t => p ← partition_of t; p_Lookup p s e
           end
       end.

(** [Router.GetIndex] *)
Definition GetIndex (r : Router) (database tableName : string) (v : SQLVal) : res rerr Z :=
  t ← getTable r database tableName; p ← partition_of t; p_GetIndex p v.

(** The loop of [GetSegments]: a segment whose range pointer is already in
    the result is skipped. *)
Fixpoint collect_segments (p : Partition) (idx : list Z) (segs : list Segment)
    : res rerr (list Segment) :=
  match idx with
  | [] => Ok segs
  | i :: idx =>
      sg ← p_GetSegment p i;
      let isRepeat := existsb (fun s => bool_decide (seg_id s = seg_id sg)) segs in
      collect_segments p idx (if isRepeat then segs else segs ++ [sg])
  end.

(** [Router.GetSegments] *)
Definition GetSegments (r : Router) (database tableName : string) (indexes : list Z)
    : res rerr (list Segment) :=
  t ← getTable r database tableName;
  p ← partition_of t;
  match indexes with
  | [] => Ok (p_GetSegments p)
  | _ => collect_segments p indexes []
  end.
End lookups.

Section ranges.
Context `{R : MapRange}.

(** [Router.Tables] *)
Definition Tables (r : Router) : gmap string (list string) :=
  list_to_map ((fun kv => (sDB (snd kv), (fun tv => tName (snd tv)) <$> map_range (sTables (snd kv))))
    <$> reverse (map_range (rSchemas r))).

(** [Router.Rules] (api.go) *)
Definition Rules (r : Router) : list (string * list Table) :=
  (fun kv => (fst kv, snd <$> map_range (sTables (snd kv)))) <$> map_range (rSchemas r).
End ranges.

(** ** Behaviour of the table operations *)

(** The schemas after a table was put under its name in schema [sch] of [db]. *)
Definition with_table (db : string) (sch : Schema) (t : Table) (m : gmap string Schema)
    : gmap string Schema :=
  <[db := mkSchema (sDB sch) (<[tName t := t]> (sTables sch))]> m.

Definition table_of (c : TableConfig) (p : option Partition) (loc : nat) : Table :=
  mkTable (tcName c) (tcShardKey c) p loc.

Lemma put_table_run db t r sch :
  rSchemas r !! db = Some sch ->
  put_table db t r = (Ok tt, set_schemas (with_table db sch t (rSchemas r)) r).
Proof.
  intros H. unfold put_table, mmodify, with_table. do 2 f_equal.
  apply map_eq. intros k. destruct (decide (k = db)) as [->|Hne].
  - by rewrite lookup_alter_eq, H, lookup_insert_eq.
  - by rewrite lookup_alter_ne, lookup_insert_ne by done.
Qed.

Lemma with_table_with_table db sch t1 t2 m :
  tName t1 = tName t2 ->
  with_table db (mkSchema (sDB sch) (<[tName t1 := t1]> (sTables sch))) t2 (with_table db sch t1 m)
  = with_table db sch t2 m.
Proof.
  intros Hn. unfold with_table; simpl. rewrite insert_insert_eq. by rewrite Hn, insert_insert_eq.
Qed.

(** What [addTable] does when the database exists, the configuration is
    allocated and its name is free: the result is the result of the build, and
    the table is in the schema in every case, without a partition when the
    build did not return. *)
Lemma addTable_run db loc c sch r :
  db <> "" -> rSchemas r !! db = Some sch -> rHeap r !! loc = Some c ->
  sTables sch !! tcName c = None ->
  addTable db (Some loc) r =
    match build_partition (rConf r) c with
    | Ok p => (Ok tt, set_schemas (with_table db sch (table_of c (Some p) loc) (rSchemas r)) r)
    | Err e => (Err e, set_schemas (with_table db sch (table_of c None loc) (rSchemas r)) r)
    | Panic => (Panic, set_schemas (with_table db sch (table_of c None loc) (rSchemas r)) r)
    end.
Proof.
  intros Hdb Hs Hc Hn. unfold addTable.
  erewrite M_bind_Ok by (unfold checkDatabase; rewrite decide_False, Hs by done; reflexivity).
  erewrite M_bind_Ok by (unfold deref; rewrite Hc; reflexivity).
  erewrite M_bind_Ok by reflexivity. rewrite Hs, Hn.
  erewrite M_bind_Ok by (by apply put_table_run).
  unfold mbind, M_bind, mlift. destruct (build_partition (rConf r) c) as [p|e|]; try done.
  erewrite put_table_run by (simpl; unfold with_table; by rewrite lookup_insert_eq).
  simpl. by rewrite (with_table_with_table db sch (table_of c None loc)).
Qed.

(** Close a branch that returned without touching the state. *)
Ltac unchanged := intros [= <- <-]; left; split; [reflexivity|done].

(** The other outcomes of [addTable] leave the state alone. *)
Lemma addTable_inv db tbl r x r' :
  addTable db tbl r = (x, r') ->
  (r' = r /\ x <> Ok tt) \/
  exists loc c sch, tbl = Some loc /\ db <> "" /\ rSchemas r !! db = Some sch /\
    rHeap r !! loc = Some c /\ sTables sch !! tcName c = None.
Proof.
  unfold addTable, mbind, M_bind, checkDatabase. case_decide; [unchanged|].
  destruct (rSchemas r !! db) as [sch|] eqn:Hs; [|unchanged].
  destruct tbl as [loc|]; [|unchanged]. unfold deref.
  destruct (rHeap r !! loc) as [c|] eqn:Hc; [|unchanged]. simpl. rewrite Hs.
  destruct (sTables sch !! tcName c) eqn:Ht; [unchanged|].
  intros _. right. by exists loc, c, sch.
Qed.

Lemma removeTable_run db table r sch t :
  rSchemas r !! db = Some sch -> sTables sch !! table = Some t ->
  removeTable db table r =
    (Ok tt, set_schemas (<[db := mkSchema (sDB sch) (delete table (sTables sch))]> (rSchemas r)) r).
Proof. intros Hs Ht. unfold removeTable. by rewrite Hs, Ht. Qed.

Lemma removeTable_inv db table r x r' :
  removeTable db table r = (x, r') ->
  (r' = r /\ x <> Ok tt) \/
  exists sch t, rSchemas r !! db = Some sch /\ sTables sch !! table = Some t /\ x = Ok tt /\
    r' = set_schemas (<[db := mkSchema (sDB sch) (delete table (sTables sch))]> (rSchemas r)) r.
Proof.
  unfold removeTable. destruct (rSchemas r !! db) as [sch|] eqn:Hs; [|unchanged].
  destruct (sTables sch !! table) as [t|] eqn:Ht; [|unchanged].
  intros [= <- <-]. right. by exists sch, t.
Qed.

Lemma getRename_inv db f t r x r' :
  getRenameTableConfig db f t r = (x, r') ->
  (r' = r /\ forall l, x <> Ok l) \/
  exists sch tb c, rSchemas r !! db = Some sch /\ sTables sch !! f = Some tb /\
    sTables sch !! t = None /\ rHeap r !! tConf tb = Some c /\ x = Ok (tConf tb) /\
    r' = set_heap (<[tConf tb := rename_config f t c]> (rHeap r)) r.
Proof.
  unfold getRenameTableConfig. destruct (rSchemas r !! db) as [sch|] eqn:Hs; [|unchanged].
  destruct (sTables sch !! f) as [tb|] eqn:Hf; [|unchanged].
  destruct (sTables sch !! t) eqn:Ht; [unchanged|].
  unfold mbind, M_bind, deref. destruct (rHeap r !! tConf tb) as [c|] eqn:Hc; [|unchanged].
  simpl. intros [= <- <-]. right. by exists sch, tb, c.
Qed.

(** ** The well-formedness invariant

    Every schema is filed under its own non-empty name and every table under
    its own name; its configuration pointer is allocated, and a partition that
    is not nil was built from some configuration. *)
Record wf_table (conf : RouterConfig) (heap : list TableConfig) (k : string) (t : Table) : Prop := {
  wt_name : tName t = k;
  wt_conf : (tConf t < length heap)%nat;
  wt_part : forall p, tPartition t = Some p -> exists c, build_partition conf c = Ok p
}.

Definition wf_router (r : Router) : Prop :=
  forall db sch, rSchemas r !! db = Some sch ->
    sDB sch = db /\ db <> "" /\ map_Forall (wf_table (rConf r) (rHeap r)) (sTables sch).

Lemma wf_table_mono conf h h' k t :
  (length h <= length h')%nat -> wf_table conf h k t -> wf_table conf h' k t.
Proof. intros Hle [H1 H2 H3]. split; [done|lia|done]. Qed.

(** Only the schemas, the length of the heap and the config matter. *)
Lemma wf_router_mono r r' :
  rSchemas r' = rSchemas r -> rConf r' = rConf r -> (length (rHeap r) <= length (rHeap r'))%nat ->
  wf_router r -> wf_router r'.
Proof.
  intros Hs Hc Hh Hw db sch. rewrite Hs, Hc. intros (H1 & H2 & H3)%Hw.
  split_and!; [done..|]. eapply map_Forall_impl; [done|].
  intros k t. by apply wf_table_mono.
Qed.

Lemma wf_router_insert r db sch ts :
  wf_router r -> rSchemas r !! db = Some sch ->
  map_Forall (wf_table (rConf r) (rHeap r)) ts ->
  wf_router (set_schemas (<[db := mkSchema (sDB sch) ts]> (rSchemas r)) r).
Proof.
  intros Hw Hs Hts db' sch'. simpl. rewrite lookup_insert. case_decide; [|by apply Hw].
  subst. intros [= <-]. simpl. by destruct (Hw _ _ Hs) as (? & ? & _).
Qed.

Lemma preserves_addTable db tbl : preserves wf_router (addTable db tbl).
Proof.
  intros r Hw. destruct (addTable db tbl r) as [x r'] eqn:Ha.
  destruct (addTable_inv _ _ _ _ _ Ha) as [[-> _]|(loc & c & sch & -> & Hdb & Hs & Hc & Hn)]; [done|].
  assert (forall o, (forall p, o = Some p -> build_partition (rConf r) c = Ok p) ->
    wf_router (set_schemas (with_table db sch (table_of c o loc) (rSchemas r)) r)) as Hput.
  { intros o Ho. unfold with_table. apply wf_router_insert; [done..|].
    apply map_Forall_insert_2; [|by destruct (Hw _ _ Hs) as (_ & _ & ?)].
    split; simpl; [done|by apply lookup_lt_Some in Hc|]. intros p Hp. exists c. by apply Ho. }
  rewrite (addTable_run db loc c sch r) in Ha by done.
  destruct (build_partition (rConf r) c); injection Ha as <- <-; apply Hput; naive_solver.
Qed.

Lemma preserves_removeTable db table : preserves wf_router (removeTable db table).
Proof.
  intros r Hw. destruct (removeTable db table r) as [x r'] eqn:Ha.
  destruct (removeTable_inv _ _ _ _ _ Ha) as [[-> _]|(sch & t & Hs & Ht & _ & ->)]; [done|]. simpl.
  apply wf_router_insert; [done..|]. apply map_Forall_delete. by destruct (Hw _ _ Hs) as (_ & _ & ?).
Qed.

Lemma preserves_getRename db f t : preserves wf_router (getRenameTableConfig db f t).
Proof.
  intros r Hw. destruct (getRenameTableConfig db f t r) as [x r'] eqn:Ha.
  destruct (getRename_inv _ _ _ _ _ _ Ha) as [[-> _]|(sch & tb & c & _ & _ & _ & _ & _ & ->)]; [done|].
  simpl. eapply wf_router_mono; [..|done]; try done. simpl. by rewrite length_insert.
Qed.

Lemma preserves_addDatabase db : preserves wf_router (addDatabase db).
Proof.
  intros r Hw. unfold addDatabase. case_decide; [done|].
  destruct (rSchemas r !! db) eqn:Hs; [done|]. simpl.
  intros db' sch'. simpl. rewrite lookup_insert. case_decide; [|by apply Hw].
  intros [= <-]. subst. simpl. split_and!; done.
Qed.

Lemma preserves_dropDatabase db : preserves wf_router (dropDatabase db).
Proof.
  intros r Hw. unfold dropDatabase. destruct (rSchemas r !! db) eqn:Hs; [|done].
  intros db' sch'. simpl. rewrite lookup_delete_Some. intros [_ ?]. by apply Hw.
Qed.

Lemma preserves_clear : preserves wf_router clear.
Proof. intros r Hw db sch. simpl. by rewrite lookup_empty. Qed.

Lemma preserves_alloc c : preserves wf_router (alloc c).
Proof.
  intros r Hw. simpl. eapply wf_router_mono; [..|done]; try done.
  simpl. rewrite length_app. lia.
Qed.

Lemma preserves_store l c : preserves wf_router (store l c).
Proof.
  intros r Hw. simpl. eapply wf_router_mono; [..|done]; try done. simpl. by rewrite length_insert.
Qed.

(** A computation that reads or changes neither the schemas, nor the heap, nor
    the config. *)
Definition mem_frame {A} (m : RM A) : Prop :=
  forall r, rSchemas (snd (m r)) = rSchemas r /\ rHeap (snd (m r)) = rHeap r /\
    rConf (snd (m r)) = rConf r.

Lemma preserves_frame {A} (m : RM A) : mem_frame m -> preserves wf_router m.
Proof.
  intros Hf r Hw. destruct (Hf r) as (H1 & H2 & H3).
  eapply wf_router_mono; [done|done| |done]. by rewrite H2.
Qed.

Lemma frame_bind {A B} (m : RM A) (k : A -> RM B) :
  mem_frame m -> (forall a, mem_frame (k a)) -> mem_frame (x ← m; k x).
Proof.
  intros Hm Hk r. unfold mbind, M_bind. specialize (Hm r).
  destruct (m r) as [[a|e|] r1]; simpl in *; [|done..].
  destruct (Hk a r1) as (-> & -> & ->). done.
Qed.

Lemma frame_mtry {A} (m : RM A) : mem_frame m -> mem_frame (mtry m).
Proof. intros Hm r. specialize (Hm r). unfold mtry. by destruct (m r) as [[a|e|] r1]. Qed.

Lemma frame_ret {A} (a : A) : mem_frame (mret a).
Proof. by intros r. Qed.
Lemma frame_get : mem_frame mget.
Proof. by intros r. Qed.
Lemma frame_fail {A} e : mem_frame (mfail (A := A) e).
Proof. by intros r. Qed.
Lemma frame_panic {A} : mem_frame (mpanic (A := A)).
Proof. by intros r. Qed.
Lemma frame_lift {A} (x : res rerr A) : mem_frame (mlift x).
Proof. by intros r. Qed.
Lemma frame_deref l : mem_frame (deref l).
Proof. intros r. unfold deref. by destruct (rHeap r !! l). Qed.
Lemma frame_checkDatabase db : mem_frame (checkDatabase db).
Proof. intros r. unfold checkDatabase. case_decide; [done|]. by case_match. Qed.

#[export] Hint Resolve frame_mtry frame_ret frame_get frame_fail frame_panic
  frame_lift frame_deref frame_checkDatabase preserves_addTable preserves_removeTable
  preserves_getRename preserves_addDatabase preserves_dropDatabase preserves_clear
  preserves_alloc preserves_store preserves_mtry preserves_frame : radon.
