(* ===== verification/Frm.v ===== *)
(** * Table files and administration of the router (src/router: frm.go, api.go)

    Creating, dropping, renaming and refreshing databases and tables, each
    change made in memory and in the metadata directory, and the shift of a
    partition to another backend.  The exclusive lock makes each exported
    method one atomic step on the state. *)
From S2P Require Import Prelude GoStd Config Partition Compute Router.
Open Scope string_scope.
Open Scope list_scope.
Open Scope Z_scope.

Definition TableTypeSingle : string := "single".
Definition TableTypeGlobal : string := "global".
Definition TableTypePartitionHash : string := "hash".
Definition TableTypePartitionList : string := "list".
Definition NAME_CHAR_LEN : Z := 64.
Definition TABLE_NAME_SUFFIX : Z := 5.

(** ** I/O *)

(** The outcome of the next I/O call. *)
Definition next_io : RM io_result := fun r =>
  match rIo r with
  | [] => (Ok IoOk, r)
  | x :: l => (Ok x, set_io l r)
  end.

(** Run an I/O call that changes nothing when it fails. *)
Definition io_step (f : Router -> Router) : RM unit :=
  x ← next_io;
  match x with IoOk => mmodify f | _ => mfail ErrIO end.

(** [writeTableFrmData]: the file is truncated before it is written, and the
    directory of the database must exist. *)
Definition writeTableFrmData (db table : string) (tconf : option TableConfig) : RM unit :=
  match tconf with
  | None => mfail ErrConfNil
  | Some c =>
      x ← next_io;
      r ← mget;
      match rDisk r !! db with
      | None => mfail ErrIO
      | Some dir =>
          match x with
          | IoOk => mmodify (fun r => set_disk (rMeta r) (<[db := <[table := Some c]> dir]> (rDisk r)) r)
          | IoFail => mfail ErrIO
          | IoTorn =>
              _ ← mmodify (fun r => set_disk (rMeta r) (<[db := <[table := None]> dir]> (rDisk r)) r);
              mfail ErrIO
          end
      end
  end.

(** [removeTableFrmData] *)
Definition removeTableFrmData (db table : string) : RM unit :=
  r ← mget;
  match rDisk r !! db with
  | None => _ ← next_io; mfail ErrIO
  | Some dir =>
      match dir !! table with
      | None => _ ← next_io; mfail ErrIO
      | Some _ => io_step (fun r => set_disk (rMeta r) (<[db := delete table dir]> (rDisk r)) r)
      end
  end.

(** [readTableFrmData] of the file [table].json of [db], followed by the
    allocation of the parsed configuration. *)
Definition readTableFrmData (db table : string) : RM nat :=
  x ← next_io;
  r ← mget;
  match x with
  | IoOk =>
      match rDisk r !! db with
      | None => mfail ErrIO
      | Some dir =>
          match dir !! table with
          | Some (Some c) => alloc c
          | _ => mfail ErrIO
          end
      end
  | _ => mfail ErrIO
  end.

(** [loadTableFromFile], [loadTable] *)
Definition loadTable (db table : string) : RM unit :=
  loc ← readTableFrmData db table;
  addTable db (Some loc).

(** [config.UpdateVersion] *)
Definition UpdateVersion : RM unit :=
  r ← mget;
  if rMeta r then io_step (fun r => set_version (S (rVersion r)) r)
  else _ ← next_io; mfail ErrIO.

(** [if err := config.UpdateVersion(..); err != nil { log.Panicf(..) }] *)
Definition UpdateVersion_or_panic : RM unit :=
  x ← mtry UpdateVersion;
  match x with inl _ => mret tt | inr _ => mpanic end.

(** [writeDatabaseFrmData] *)
Definition writeDatabaseFrmData (db : string) : RM unit :=
  r ← mget;
  match rDisk r !! db with
  | Some _ => mret tt
  | None => io_step (fun r => set_disk true (<[db := ∅]> (rDisk r)) r)
  end.

(** ** Databases *)

(** [checkNameInvalid] *)
Definition checkNameInvalid (name : string) : bool := ContainsAny name " /".

(** [CreateDatabase] *)
Definition CreateDatabase (db : string) : RM unit :=
  if NAME_CHAR_LEN <? Z.of_nat (String.length db) then mfail (ErTooLongIdent db)
  else if checkNameInvalid db then mfail (ErrInvalidName db)
  else
    _ ← addDatabase db;
    x ← mtry (writeDatabaseFrmData db);
    match x with
    | inr e => _ ← mtry (dropDatabase db); mfail e
    | inl _ => UpdateVersion_or_panic
    end.

(** [DropDatabase] *)
Definition DropDatabase (db : string) : RM unit :=
  _ ← dropDatabase db;
  _ ← io_step (fun r => set_disk (rMeta r) (delete db (rDisk r)) r);
  UpdateVersion_or_panic.

(** [CheckTable] *)
Definition CheckTable (database tableName : string) : RM bool :=
  _ ← checkDatabase database;
  if decide (tableName = "") then mfail ErrTableNameEmpty
  else
    r ← mget;
    match rSchemas r !! database with
    | None => mpanic
    | Some schema => mret (bool_decide (is_Some (sTables schema !! tableName)))
    end.

(** ** Tables *)

(** [createTable] *)
Definition createTable (db table : string) (tableConf : nat) : RM unit :=
  if NAME_CHAR_LEN <? Z.of_nat (String.length table) + TABLE_NAME_SUFFIX
  then mfail (ErTooLongIdent table)
  else if checkNameInvalid table then mfail (ErrInvalidName table)
  else
    _ ← addTable db (Some tableConf);
    c ← deref tableConf;
    x ← mtry (writeTableFrmData db table (Some c));
    match x with
    | inr e => _ ← mtry (removeTable db table); mfail e
    | inl _ => UpdateVersion_or_panic
    end.

(** [Extra] *)
Record Extra := mkExtra { exAutoIncrement : option AutoIncrement }.

(** [if extra != nil { tableConf.AutoIncrement = extra.AutoIncrement }] *)
Definition with_extra (extra : option Extra) (c : TableConfig) : TableConfig :=
  match extra with None => c | Some e => set_autoinc (exAutoIncrement e) c end.

(** The common end of the three [Create...Table] methods. *)
Definition create_from (db table : string) (rc : res rerr TableConfig) (extra : option Extra)
    : RM unit :=
  c ← mlift rc;
  loc ← alloc (with_extra extra c);
  createTable db table loc.

(** [CreateNonPartTable] *)
Definition CreateNonPartTable (db table tableType : string) (backends : list string)
    (extra : option Extra) : RM unit :=
  if decide (tableType = TableTypeGlobal) then
    create_from db table (GlobalUniform table backends) extra
  else if decide (tableType = TableTypeSingle) then
    create_from db table (SingleUniform table backends) extra
  else mfail (ErrTableType tableType).

(** [CreateHashTable] *)
Definition CreateHashTable (db table shardKey tableType : string) (backends : list string)
    (partitionNum : option SQLVal) (extra : option Extra) : RM unit :=
  if decide (tableType = TableTypePartitionHash) then
    r ← mget;
    create_from db table (HashUniform (rConf r) table shardKey backends partitionNum) extra
  else mfail (ErrTableType tableType).

(** [dropTable] and [DropTable] *)
Definition dropTable (db table : string) : RM unit :=
  _ ← removeTable db table;
  _ ← removeTableFrmData db table;
  UpdateVersion_or_panic.

Definition DropTable (db table : string) : RM unit := dropTable db table.

(** [RenameTable] *)
Definition RenameTable (db fromTable toTable : string) : RM unit :=
  loc ← getRenameTableConfig db fromTable toTable;
  _ ← createTable db toTable loc;
  dropTable db fromTable.

(** [RefreshTable] *)
Definition RefreshTable (db table : string) : RM unit :=
  _ ← removeTable db table;
  loadTable db table.

(** [ioutil.ReadDir]: the entries sorted by name. *)
Definition key_le {A} (a b : string * A) : Prop := str_le (fst a) (fst b).
Global Instance key_le_dec A : RelDecision (@key_le A).
Proof. intros a b. unfold key_le. apply _. Defined.
Definition ReadDir {A} (m : gmap string A) : list (string * A) := merge_sort key_le (map_to_list m).

Section ranges.
Context `{R : MapRange}.

(** [CreateListTable] *)
Definition CreateListTable (db table shardKey tableType : string)
    (defs : list PartitionDefinition) (extra : option Extra) : RM unit :=
  if decide (tableType = TableTypePartitionList) then
    create_from db table (ListUniform table shardKey defs) extra
  else mfail (ErrTableType tableType).

(** The first loop of [LoadConfig]: read each sub-directory and add its
    database. *)
Fixpoint load_dirs (dirs : list (string * gmap string (option TableConfig)))
    (frms : gmap string (list string)) : RM (gmap string (list string)) :=
  match dirs with
  | [] => mret frms
  | (dbName, dir) :: dirs =>
      x ← next_io;
      match x with
      | IoOk =>
          _ ← addDatabase dbName;
          load_dirs dirs (<[dbName := fst <$> ReadDir dir]> frms)
      | _ => mfail ErrIO
      end
  end.

(** The second loop: read each table file. *)
Definition load_files (frms : gmap string (list string)) : RM unit :=
  miter (fun kv => miter (loadTable (fst kv)) (snd kv)) (map_range frms).

(** [LoadConfig] *)
Definition LoadConfig : RM unit :=
  _ ← clear;
  r ← mget;
  if rMeta r then
    x ← next_io;
    match x with
    | IoOk => frms ← load_dirs (ReadDir (rDisk r)) ∅; load_files frms
    | _ => mfail ErrIO
    end
  else io_step (fun r => set_disk true (rDisk r) r).

(** [ReLoad] (api.go) *)
Definition ReLoad : RM unit := _ ← clear; LoadConfig.

(** ** Shifting a partition (api.go) *)

(** The position of the partition that moves, in one table. *)
Definition find_part (fromBackend partitionTable : string) (ps : list PartitionConfig)
    : option nat :=
  fst <$> list_find (fun p => pcBackend p = fromBackend /\ pcTable p = partitionTable) ps.

(** The search of [changeTheRuleBackend] over the tables of the schema. *)
Fixpoint find_rule (heap : list TableConfig) (fromBackend partitionTable : string)
    (ts : list (string * Table)) : res rerr (option (Table * nat)) :=
  match ts with
  | [] => Ok None
  | (_, t) :: ts =>
      match heap !! tConf t with
      | None => Panic
      | Some c =>
          match find_part fromBackend partitionTable (tcPartitions c) with
          | Some i => Ok (Some (t, i))
          | None => find_rule heap fromBackend partitionTable ts
          end
      end
  end.

(** The edit of the configuration: a global table gains a partition on the
    target, another table moves the partition. *)
Definition shift_config (toBackend partitionTable table : string) (i : nat) (c : TableConfig)
    : res rerr TableConfig :=
  if decide (tcShardType c = MethodTypeGlobal) then
    if decide (Exists (fun p => pcBackend p = toBackend) (tcPartitions c))
    then Err (ErrShiftExists partitionTable toBackend)
    else Ok (set_partitions (tcPartitions c ++ [mkPartitionConfig table "" toBackend ""]) c)
  else Ok (set_partitions (alter (set_pcBackend toBackend) i (tcPartitions c)) c).

(** [changeTheRuleBackend] *)
Definition changeTheRuleBackend (fromBackend toBackend database partitionTable : string)
    : RM string :=
  if decide (fromBackend = toBackend) then mfail (ErrShiftSame fromBackend)
  else
    r ← mget;
    match rSchemas r !! database with
    | None => mfail (ErrShiftDB database)
    | Some schema =>
        found ← mlift (find_rule (rHeap r) fromBackend partitionTable (map_range (sTables schema)));
        match found with
        | None => mfail (ErrShiftNotFound fromBackend partitionTable)
        | Some (t, i) =>
            c ← deref (tConf t);
            c' ← mlift (shift_config toBackend partitionTable (tName t) i c);
            _ ← store (tConf t) c';
            x ← mtry (writeTableFrmData database (tName t) (Some c'));
            match x with
            | inr e => _ ← store (tConf t) c; mfail e
            | inl _ => _ ← UpdateVersion_or_panic; mret (tName t)
            end
        end
    end.

(** [PartitionRuleShift]: a failing reload panics. *)
Definition PartitionRuleShift (fromBackend toBackend database partitionTable : string) : RM unit :=
  table ← changeTheRuleBackend fromBackend toBackend database partitionTable;
  x ← mtry (RefreshTable database table);
  match x with inl _ => mret tt | inr _ => mpanic end.
End ranges.

(** ** Every method keeps the router well formed *)
Lemma frame_next_io : mem_frame next_io.
Proof. intros r. unfold next_io. by destruct (rIo r). Qed.

Lemma frame_modify f :
  (forall r, rSchemas (f r) = rSchemas r /\ rHeap (f r) = rHeap r /\ rConf (f r) = rConf r) ->
  mem_frame (mmodify f).
Proof. intros Hf r. apply Hf. Qed.

Lemma frame_io_step f :
  (forall r, rSchemas (f r) = rSchemas r /\ rHeap (f r) = rHeap r /\ rConf (f r) = rConf r) ->
  mem_frame (io_step f).
Proof.
  intros Hf. apply frame_bind; [apply frame_next_io|]. intros [].
  - by apply frame_modify.
  - apply frame_fail.
  - apply frame_fail.
Qed.

#[export] Hint Resolve frame_next_io frame_modify frame_io_step : radon.

(** Walk through a method, splitting on its branches. *)
Ltac frame_step :=
  repeat first
    [ progress intros
    | solve [eauto with radon]
    | simple apply frame_bind
    | simple apply frame_io_step; intros; done
    | simple apply frame_modify; intros; done
    | case_match ].

Lemma frame_write db t c : mem_frame (writeTableFrmData db t c).
Proof. unfold writeTableFrmData. frame_step. Qed.
Lemma frame_remove db t : mem_frame (removeTableFrmData db t).
Proof. unfold removeTableFrmData. frame_step. Qed.
Lemma frame_UpdateVersion : mem_frame UpdateVersion.
Proof. unfold UpdateVersion. frame_step. Qed.
#[export] Hint Resolve frame_write frame_remove frame_UpdateVersion : radon.
Lemma frame_UpdateVersion_or_panic : mem_frame UpdateVersion_or_panic.
Proof. unfold UpdateVersion_or_panic. frame_step. Qed.
Lemma frame_writeDatabase db : mem_frame (writeDatabaseFrmData db).
Proof. unfold writeDatabaseFrmData. frame_step. Qed.
Lemma frame_CheckTable db t : mem_frame (CheckTable db t).
Proof. unfold CheckTable. frame_step. Qed.
#[export] Hint Resolve frame_UpdateVersion_or_panic frame_writeDatabase : radon.

Ltac wf_step :=
  repeat first
    [ progress intros
    | solve [eauto with radon]
    | simple apply preserves_bind
    | simple apply preserves_mtry
    | solve [apply preserves_frame; frame_step]
    | case_match ].

Lemma preserves_readTable db t : preserves wf_router (readTableFrmData db t).
Proof. unfold readTableFrmData. wf_step. Qed.
#[export] Hint Resolve preserves_readTable : radon.
Lemma preserves_loadTable db t : preserves wf_router (loadTable db t).
Proof. unfold loadTable. wf_step. Qed.
#[export] Hint Resolve preserves_loadTable : radon.
Lemma preserves_createTable db t l : preserves wf_router (createTable db t l).
Proof. unfold createTable. wf_step. Qed.
#[export] Hint Resolve preserves_createTable : radon.
Lemma preserves_create_from db t rc ex : preserves wf_router (create_from db t rc ex).
Proof. unfold create_from. wf_step. Qed.
#[export] Hint Resolve preserves_create_from : radon.
Lemma preserves_dropTable db t : preserves wf_router (dropTable db t).
Proof. unfold dropTable. wf_step. Qed.
#[export] Hint Resolve preserves_dropTable : radon.
Lemma preserves_RefreshTable db t : preserves wf_router (RefreshTable db t).
Proof. unfold RefreshTable. wf_step. Qed.
#[export] Hint Resolve preserves_RefreshTable : radon.

(** The administrative calls a client can make. *)
Inductive admin_op :=
| OpCreateDatabase (db : string)
| OpDropDatabase (db : string)
| OpCreateNonPart (db t ty : string) (bs : list string) (ex : option Extra)
| OpCreateHash (db t key ty : string) (bs : list string) (pn : option SQLVal) (ex : option Extra)
| OpCreateList (db t key ty : string) (defs : list PartitionDefinition) (ex : option Extra)
| OpDropTable (db t : string)
| OpRename (db f t : string)
| OpRefresh (db t : string)
| OpLoadConfig
| OpReLoad
| OpShift (from to db part : string).

Section admin.
Context `{R : MapRange}.

Definition admin_run (op : admin_op) : RM unit :=
  match op with
  | OpCreateDatabase db => CreateDatabase db
  | OpDropDatabase db => DropDatabase db
  | OpCreateNonPart db t ty bs ex => CreateNonPartTable db t ty bs ex
  | OpCreateHash db t key ty bs pn ex => CreateHashTable db t key ty bs pn ex
  | OpCreateList db t key ty defs ex => CreateListTable db t key ty defs ex
  | OpDropTable db t => DropTable db t
  | OpRename db f t => RenameTable db f t
  | OpRefresh db t => RefreshTable db t
  | OpLoadConfig => LoadConfig
  | OpReLoad => ReLoad
  | OpShift from to db part => PartitionRuleShift from to db part
  end.

Lemma preserves_load_dirs dirs frms : preserves wf_router (load_dirs dirs frms).
Proof.
  revert frms. induction dirs as [|[db dir] dirs IH]; intros frms; simpl; wf_step.
Qed.

Lemma preserves_LoadConfig : preserves wf_router LoadConfig.
Proof.
  unfold LoadConfig, load_files. pose proof preserves_load_dirs.
  wf_step; apply preserves_miter; intros; apply preserves_miter; wf_step.
Qed.

Lemma preserves_change f t db p : preserves wf_router (changeTheRuleBackend f t db p).
Proof. unfold changeTheRuleBackend. wf_step. Qed.

(** Every administrative call keeps the router well formed, on success, on
    every error path and on a panic, whatever its I/O calls do: schemas and
    tables are filed under their names, configuration pointers are valid and
    partitions come from a successful build. *)
Theorem admin_preserves_wf (op : admin_op) (r : Router) :
  wf_router r -> wf_router (snd (admin_run op r)).
Proof.
  pose proof preserves_LoadConfig. pose proof preserves_change.
  revert r. change (preserves wf_router (admin_run op)).
  destruct op; simpl;
    unfold CreateDatabase, DropDatabase, CreateNonPartTable, CreateHashTable, CreateListTable,
      DropTable, RenameTable, ReLoad, PartitionRuleShift; wf_step.
Qed.
End admin.

(** ** What a call that returned did *)

(** The state with new schemas, disk, version and pending I/O outcomes. *)
Definition after (r : Router) (m : gmap string Schema) (h : list TableConfig)
    (d : gmap string (gmap string (option TableConfig))) (v : nat) (io : list io_result) : Router :=
  mkRouter (rConf r) m h (rMeta r) d v io.

Lemma io_step_Ok f r r' :
  io_step f r = (Ok tt, r') -> exists io, r' = f (set_io io r).
Proof.
  unfold io_step, mbind, M_bind, next_io. destruct (rIo r) as [|[] l] eqn:Hio; simpl.
  - intros [= <-]. exists []. destruct r; simpl in *. by subst.
  - intros [= <-]. by exists l.
  - done.
  - done.
Qed.

Lemma write_Ok db t c r r' :
  writeTableFrmData db t (Some c) r = (Ok tt, r') ->
  exists dir io, rDisk r !! db = Some dir /\
    r' = after r (rSchemas r) (rHeap r) (<[db := <[t := Some c]> dir]> (rDisk r)) (rVersion r) io.
Proof.
  unfold writeTableFrmData, mbind, M_bind, next_io, mget, mmodify, mfail.
  destruct (rIo r) as [|x l]; simpl; destruct (rDisk r !! db) as [dir|] eqn:Hd; simpl;
    rewrite ?Hd; try done.
  - intros [= <-]. by exists dir, (rIo r).
  - destruct x; simpl; try done. intros [= <-]. by exists dir, l.
Qed.

Lemma remove_Ok db t r r' :
  removeTableFrmData db t r = (Ok tt, r') ->
  exists dir o io, rDisk r !! db = Some dir /\ dir !! t = Some o /\
    r' = after r (rSchemas r) (rHeap r) (<[db := delete t dir]> (rDisk r)) (rVersion r) io.
Proof.
  unfold removeTableFrmData. intros (r1 & s1 & H1 & H)%M_bind_inv_Ok.
  injection H1 as <- <-. destruct (rDisk r !! db) as [dir|] eqn:Hd.
  - destruct (dir !! t) as [o|] eqn:Ht.
    + apply io_step_Ok in H as [io ->]. by exists dir, o, io.
    + apply M_bind_inv_Ok in H as (? & ? & _ & [=]).
  - apply M_bind_inv_Ok in H as (? & ? & _ & [=]).
Qed.

Lemma UpdateVersion_or_panic_Ok r r' :
  UpdateVersion_or_panic r = (Ok tt, r') ->
  rMeta r = true /\
  exists io, r' = after r (rSchemas r) (rHeap r) (rDisk r) (S (rVersion r)) io.
Proof.
  unfold UpdateVersion_or_panic. intros ([u|e] & s1 & H1 & H)%M_bind_inv_Ok; [|done].
  injection H as <-. unfold mtry in H1.
  destruct (UpdateVersion r) as [[[]| |] s2] eqn:HU; simplify_eq.
  unfold UpdateVersion in HU. apply M_bind_inv_Ok in HU as (r1 & s2 & Hg & HU).
  injection Hg as <- <-. destruct (rMeta r) eqn:Hm.
  - apply io_step_Ok in HU as [io ->]. split; [done|]. by exists io.
  - apply M_bind_inv_Ok in HU as (? & ? & _ & [=]).
Qed.

Lemma addTable_Ok db loc c r r' :
  rHeap r !! loc = Some c -> addTable db (Some loc) r = (Ok tt, r') ->
  exists sch p, db <> "" /\ rSchemas r !! db = Some sch /\ sTables sch !! tcName c = None /\
    build_partition (rConf r) c = Ok p /\
    r' = set_schemas (with_table db sch (table_of c (Some p) loc) (rSchemas r)) r.
Proof.
  intros Hc Ha. destruct (addTable_inv _ _ _ _ _ Ha) as [[_ ?]|(l & c' & sch & [= <-] & Hdb & Hs & Hc' & Hn)];
    [done|]. rewrite Hc in Hc'. injection Hc' as <-.
  rewrite (addTable_run db loc c sch) in Ha by done.
  destruct (build_partition (rConf r) c) as [p| |]; try done. injection Ha as <-.
  by exists sch, p.
Qed.

Lemma createTable_Ok db table loc c r r' :
  rHeap r !! loc = Some c -> createTable db table loc r = (Ok tt, r') ->
  exists sch p dir io, db <> "" /\ rSchemas r !! db = Some sch /\ sTables sch !! tcName c = None /\
    build_partition (rConf r) c = Ok p /\ rDisk r !! db = Some dir /\ rMeta r = true /\
    r' = after r (with_table db sch (table_of c (Some p) loc) (rSchemas r)) (rHeap r)
           (<[db := <[table := Some c]> dir]> (rDisk r)) (S (rVersion r)) io.
Proof.
  intros Hc. unfold createTable. case_match; [done|]. case_match; [done|].
  intros ([] & r1 & H1 & H2)%M_bind_inv_Ok.
  apply (addTable_Ok _ _ c) in H1 as (sch & p & Hdb & Hs & Hn & Hp & ->); [|done].
  apply M_bind_inv_Ok in H2 as (c' & r2 & H2 & H3). unfold deref in H2; simpl in H2.
  rewrite Hc in H2. injection H2 as <- <-.
  apply M_bind_inv_Ok in H3 as ([u|e] & r3 & H3 & H4).
  2: { apply M_bind_inv_Ok in H4 as (? & ? & _ & [=]). }
  unfold mtry in H3. destruct (writeTableFrmData _ _ _ _) as [[[]| |] r4] eqn:Hw; simplify_eq.
  apply write_Ok in Hw as (dir & io & Hd & ->). simpl in *.
  apply UpdateVersion_or_panic_Ok in H4 as (Hm & io' & ->). simpl in *.
  by exists sch, p, dir, io'.
Qed.

Lemma dropTable_Ok db table r r' :
  dropTable db table r = (Ok tt, r') ->
  exists sch t dir o io, rSchemas r !! db = Some sch /\ sTables sch !! table = Some t /\
    rDisk r !! db = Some dir /\ dir !! table = Some o /\
    r' = after r (<[db := mkSchema (sDB sch) (delete table (sTables sch))]> (rSchemas r)) (rHeap r)
           (<[db := delete table dir]> (rDisk r)) (S (rVersion r)) io.
Proof.
  unfold dropTable. intros ([] & r1 & H1 & H2)%M_bind_inv_Ok.
  destruct (removeTable_inv _ _ _ _ _ H1) as [[_ ?]|(sch & t & Hs & Ht & _ & ->)]; [done|].
  apply M_bind_inv_Ok in H2 as ([] & r2 & H2 & H3).
  apply remove_Ok in H2 as (dir & o & io & Hd & Ho & ->). simpl in *.
  apply UpdateVersion_or_panic_Ok in H3 as (Hm & io' & ->). simpl in *.
  by exists sch, t, dir, o, io'.
Qed.

(** The table and the file of a name. *)
Definition table_at (r : Router) (db t : string) : option Table :=
  rSchemas r !! db ≫= fun s => sTables s !! t.
Definition file_at (r : Router) (db t : string) : option (option TableConfig) :=
  rDisk r !! db ≫= fun d => d !! t.

Lemma table_at_with r db sch t m h d v io db' t' :
  m = rSchemas r -> m !! db = Some sch ->
  table_at (after r (with_table db sch t m) h d v io) db' t'
  = if decide (db' = db /\ t' = tName t) then Some t else table_at r db' t'.
Proof.
  intros -> Hs. unfold table_at, with_table; simpl.
  destruct (decide (db' = db)) as [->|Hd].
  - rewrite lookup_insert_eq, Hs. simpl. rewrite lookup_insert.
    destruct (decide (tName t = t')); destruct (decide _); naive_solver.
  - rewrite lookup_insert_ne by done. rewrite decide_False by tauto. done.
Qed.

Lemma table_at_without r db sch t m h d v io db' t' :
  m = rSchemas r -> m !! db = Some sch ->
  table_at (after r (<[db := mkSchema (sDB sch) (delete t (sTables sch))]> m) h d v io) db' t'
  = if decide (db' = db /\ t' = t) then None else table_at r db' t'.
Proof.
  intros -> Hs. unfold table_at; simpl.
  destruct (decide (db' = db)) as [->|Hd].
  - rewrite lookup_insert_eq, Hs. simpl. rewrite lookup_delete.
    destruct (decide (t = t')); destruct (decide _); naive_solver.
  - rewrite lookup_insert_ne by done. rewrite decide_False by tauto. done.
Qed.

Lemma file_at_write r db dir t o m h v io db' t' :
  rDisk r !! db = Some dir ->
  file_at (after r m h (<[db := <[t := o]> dir]> (rDisk r)) v io) db' t'
  = if decide (db' = db /\ t' = t) then Some o else file_at r db' t'.
Proof.
  intros Hs. unfold file_at; simpl. destruct (decide (db' = db)) as [->|Hd].
  - rewrite lookup_insert_eq, Hs. simpl. rewrite lookup_insert.
    destruct (decide (t = t')); destruct (decide _); naive_solver.
  - rewrite lookup_insert_ne by done. rewrite decide_False by tauto. done.
Qed.

Lemma file_at_remove r db dir t m h v io db' t' :
  rDisk r !! db = Some dir ->
  file_at (after r m h (<[db := delete t dir]> (rDisk r)) v io) db' t'
  = if decide (db' = db /\ t' = t) then None else file_at r db' t'.
Proof.
  intros Hs. unfold file_at; simpl. destruct (decide (db' = db)) as [->|Hd].
  - rewrite lookup_insert_eq, Hs. simpl. rewrite lookup_delete.
    destruct (decide (t = t')); destruct (decide _); naive_solver.
  - rewrite lookup_insert_ne by done. rewrite decide_False by tauto. done.
Qed.

(** A [createTable] that returns made exactly its table: the table is in
    memory with the partition its configuration builds and in its file, and no
    other table or file changed. *)
Theorem createTable_success db table loc c r r' :
  rHeap r !! loc = Some c -> tcName c = table ->
  createTable db table loc r = (Ok tt, r') ->
  (exists p, build_partition (rConf r) c = Ok p /\
     forall db' t', table_at r' db' t' =
       if decide (db' = db /\ t' = table) then Some (table_of c (Some p) loc)
       else table_at r db' t') /\
  (forall db' t', file_at r' db' t' =
     if decide (db' = db /\ t' = table) then Some (Some c) else file_at r db' t') /\
  table_at r db table = None /\ rVersion r' = S (rVersion r).
Proof.
  intros Hc <- H.
  apply (createTable_Ok _ _ _ c) in H as (sch & p & dir & io & Hdb & Hs & Hn & Hp & Hd & _ & ->);
    [|done]. split_and!.
  - exists p. split; [done|]. intros db' t'. by apply table_at_with.
  - intros db' t'. by apply file_at_write.
  - unfold table_at. by rewrite Hs.
  - done.
Qed.

(** A [createTable] whose file cannot be written is undone in memory: the
    schemas are the ones before the call and the error is returned. *)
Theorem createTable_write_failure db table loc c r r1 r2 e :
  rHeap r !! loc = Some c -> tcName c = table ->
  Z.of_nat (String.length table) + TABLE_NAME_SUFFIX <= NAME_CHAR_LEN ->
  checkNameInvalid table = false ->
  addTable db (Some loc) r = (Ok tt, r1) ->
  writeTableFrmData db table (Some c) r1 = (Err e, r2) ->
  exists r', createTable db table loc r = (Err e, r') /\ rSchemas r' = rSchemas r.
Proof.
  intros Hc <- Hlen Hinv Ha Hw. unfold createTable.
  destruct (Z.ltb_spec NAME_CHAR_LEN (Z.of_nat (String.length (tcName c)) + TABLE_NAME_SUFFIX)); [lia|].
  rewrite Hinv. erewrite M_bind_Ok by done.
  apply (addTable_Ok _ _ c) in Ha as (sch & p & Hdb & Hs & Hn & Hp & ->); [|done].
  erewrite M_bind_Ok by (unfold deref; simpl; rewrite Hc; reflexivity).
  erewrite M_bind_Ok by (unfold mtry; rewrite Hw; reflexivity).
  destruct (frame_write db (tcName c) (Some c)
    (set_schemas (with_table db sch (table_of c (Some p) loc) (rSchemas r)) r)) as (Hf & _ & _).
  rewrite Hw in Hf; simpl in Hf.
  erewrite M_bind_Ok.
  2: { unfold mtry. erewrite removeTable_run; [reflexivity| |].
       - rewrite Hf. unfold with_table. by rewrite lookup_insert_eq.
       - simpl. by rewrite lookup_insert_eq. }
  eexists. split; [reflexivity|]. simpl. rewrite Hf. unfold with_table; simpl.
  rewrite insert_insert_eq, delete_insert_id by done. destruct sch as [n ts]; simpl in *.
  by apply insert_id.
Qed.

(** The names [createTable] accepts. *)
Definition name_ok (table : string) : Prop :=
  Z.of_nat (String.length table) + TABLE_NAME_SUFFIX <= NAME_CHAR_LEN /\
  checkNameInvalid table = false.

Lemma createTable_name_ok db table loc r :
  name_ok table ->
  createTable db table loc r =
  (_ ← addTable db (Some loc);
   c ← deref loc;
   x ← mtry (writeTableFrmData db table (Some c));
   match x with
   | inr e => _ ← mtry (removeTable db table); mfail e
   | inl _ => UpdateVersion_or_panic
   end) r.
Proof.
  intros [Hl Hi]. unfold createTable.
  destruct (Z.ltb_spec NAME_CHAR_LEN (Z.of_nat (String.length table) + TABLE_NAME_SUFFIX)); [lia|].
  by rewrite Hi.
Qed.

Lemma createTable_build_failure db table loc c sch e r :
  name_ok table -> db <> "" -> rSchemas r !! db = Some sch -> rHeap r !! loc = Some c ->
  sTables sch !! tcName c = None -> build_partition (rConf r) c = Err e ->
  createTable db table loc r =
    (Err e, set_schemas (with_table db sch (table_of c None loc) (rSchemas r)) r).
Proof.
  intros Hok Hdb Hs Hc Hn Hb. rewrite createTable_name_ok by done.
  apply M_bind_Err. rewrite (addTable_run db loc c sch r) by done. by rewrite Hb.
Qed.

Lemma Lookup_nil_partition `{J : JumpHash} r db table t s e :
  db <> "" -> table <> "" -> table_at r db table = Some t -> tPartition t = None ->
  Lookup r db table s e = Panic.
Proof.
  intros Hdb Ht Hat Hp. unfold Lookup. rewrite !decide_False by done.
  unfold table_at in Hat. destruct (rSchemas r !! db) as [sch|]; [|done]. simpl in Hat.
  rewrite Hat. simpl. unfold partition_of. by rewrite Hp.
Qed.

(** Creating a hash table over more backends than it has room for (a
    backend's share is smaller than a block) returns an error and leaves the
    table registered without a partition; every later lookup of it panics. *)
Theorem CreateHashTable_leaks `{J : JumpHash} db table key backends pn blocks r sch :
  db <> "" -> table <> "" -> key <> "" -> name_ok table ->
  rSchemas r !! db = Some sch -> sTables sch !! table = None ->
  hash_blocks (rConf r) pn = Ok blocks -> 0 < blocks ->
  0 < Z.of_nat (length backends) < rcSlots (rConf r) ->
  rcSlots (rConf r) / Z.of_nat (length backends) < blocks ->
  exists r' t,
    CreateHashTable db table key TableTypePartitionHash backends pn None r
      = (Err (ErrSegUpper 0 (rcSlots (rConf r))), r') /\
    table_at r' db table = Some t /\ tPartition t = None /\
    forall s e, Lookup r' db table s e = Panic.
Proof.
  intros Hdb Ht Hk Hok Hs Hn Hb Hpos Hlen Hlt.
  destruct (HashUniform_ok (rConf r) table key backends pn blocks) as (tc & Htc & Hbl); try done.
  rewrite <- Hbl in Hlt. apply (HashUniform_empty _ _ _ _ _ _ Htc) in Hlt as (Hp & Hsl & Hty & Hsp).
  apply HashUniform_inv in Htc as Htc'. destruct Htc' as (b & _ & _ & _ & Heq).
  assert (tcName tc = table) as Hname by (by rewrite Heq). clear Heq.
  assert (build_partition (rConf r) tc = Err (ErrSegUpper 0 (rcSlots (rConf r)))) as Hbuild.
  { unfold build_partition. rewrite Hty, decide_True, Hsl by done.
    destruct (Z.eqb_spec (rcSlots (rConf r)) 0); [lia|]. by rewrite Build_no_partitions. }
  set (r1 := set_heap (rHeap r ++ [tc]) r).
  set (t0 := table_of tc None (length (rHeap r))).
  exists (set_schemas (with_table db sch t0 (rSchemas r1)) r1), t0.
  assert (table_at (set_schemas (with_table db sch t0 (rSchemas r1)) r1) db table = Some t0) as Hat.
  { unfold table_at, with_table; simpl. rewrite lookup_insert_eq. simpl.
    by rewrite Hname, lookup_insert_eq. }
  split_and!; [|done|done|intros; by eapply Lookup_nil_partition].
  unfold CreateHashTable. rewrite decide_True by done. erewrite M_bind_Ok by reflexivity.
  unfold create_from. rewrite Htc. erewrite M_bind_Ok by reflexivity.
  erewrite M_bind_Ok by reflexivity. simpl.
  apply (createTable_build_failure db table (length (rHeap r)) tc sch _ r1); try done.
  - simpl. by rewrite lookup_app_r, Nat.sub_diag by done.
  - by rewrite Hname.
Qed.

(** ** Memory and disk agree

    [loaded r db t loc c]: the table [t] of [db] is in memory with the
    configuration [c] at [loc] and the partition built from it, and its file
    holds the same configuration. *)
Definition loaded (r : Router) (db t : string) (loc : nat) (c : TableConfig) : Prop :=
  tcName c = t /\ rHeap r !! loc = Some c /\ file_at r db t = Some (Some c) /\
  exists p, build_partition (rConf r) c = Ok p /\ table_at r db t = Some (table_of c (Some p) loc).

(** The tables selected by [P] are loaded, there is no other, and no two of
    them share a configuration. *)
Record coherent_on (P : string -> string -> Prop) (r : Router) : Prop := {
  co_meta : rMeta r = true;
  co_dom : forall db, is_Some (rSchemas r !! db) <-> is_Some (rDisk r !! db);
  co_sdb : forall db sch, rSchemas r !! db = Some sch -> sDB sch = db /\ db <> "";
  co_in : forall db t, P db t -> exists loc c, loaded r db t loc c;
  co_out : forall db t, ~ P db t -> table_at r db t = None;
  co_inj : forall db t db' t' tb tb', table_at r db t = Some tb -> table_at r db' t' = Some tb' ->
    tConf tb = tConf tb' -> db = db' /\ t = t'
}.

(** A router is coherent when it holds exactly the tables of its directory. *)
Definition coherent (r : Router) : Prop :=
  coherent_on (fun db t => is_Some (file_at r db t)) r.

Section coherence.
Implicit Types (P Q : string -> string -> Prop).

Lemma coherent_on_iff P Q r :
  (forall db t, P db t <-> Q db t) -> coherent_on P r -> coherent_on Q r.
Proof.
  intros HPQ [H1 H2 H3 H4 H5 H6]. split; try done.
  - intros db t HQ. by apply H4, HPQ.
  - intros db t HQ. apply H5. by rewrite HPQ.
Qed.

Lemma loaded_table r db t loc c tb :
  loaded r db t loc c -> table_at r db t = Some tb -> tConf tb = loc.
Proof. intros (_ & _ & _ & p & _ & H) Ht. rewrite Ht in H. by injection H as ->. Qed.

(** A change at one name: every other selected table keeps its table, its
    file and its configuration, which is not at [loc0]; the table at the
    name, when selected, is loaded from [loc0]. *)
Lemma coherent_update P Q r r' db0 t0 loc0 :
  coherent_on P r -> rConf r' = rConf r -> rMeta r' = true ->
  (forall db, is_Some (rDisk r' !! db) <-> is_Some (rDisk r !! db)) ->
  (forall db, sDB <$> rSchemas r' !! db = sDB <$> rSchemas r !! db) ->
  (forall db t, (db, t) <> (db0, t0) -> Q db t ->
     P db t /\ table_at r' db t = table_at r db t /\ file_at r' db t = file_at r db t /\
     forall loc c, loaded r db t loc c -> loc <> loc0 /\ rHeap r' !! loc = rHeap r !! loc) ->
  (Q db0 t0 -> exists c, loaded r' db0 t0 loc0 c) ->
  (forall db t, ~ Q db t -> table_at r' db t = None) ->
  coherent_on Q r'.
Proof.
  intros Hco Hconf Hmeta Hdisk Hsch Hold Hnew Hout.
  assert (forall db t, (db, t) <> (db0, t0) -> Q db t ->
    exists loc c, loaded r db t loc c /\ loaded r' db t loc c /\ loc <> loc0) as Hkeep.
  { intros db t Hne HQ. destruct (Hold db t Hne HQ) as (HP & Ht & Hf & Hh).
    destruct (co_in _ _ Hco db t HP) as (loc & c & Hl). exists loc, c.
    destruct (Hh loc c Hl) as [Hloc Hheap]. split; [done|]. split; [|done].
    destruct Hl as (? & ? & ? & p & ? & ?). split_and!; [done|congruence|congruence|].
    exists p. rewrite Hconf, Ht. done. }
  assert (forall db t, Q db t -> exists loc c, loaded r' db t loc c) as Hin.
  { intros db t HQ. destruct (decide ((db, t) = (db0, t0))) as [[= -> ->]|Hne].
    - destruct (Hnew HQ) as [c ?]. eauto.
    - destruct (Hkeep db t Hne HQ) as (loc & c & _ & ? & _). eauto. }
  assert (forall db t tb, table_at r' db t = Some tb -> ~ ~ Q db t) as Hsel.
  { intros db t tb Ht HQ. rewrite Hout in Ht by done. done. }
  split; [done| | |done|done|].
  - intros db. rewrite Hdisk, <- (co_dom _ _ Hco), <- !(fmap_is_Some sDB), Hsch. done.
  - intros db sch Hs. specialize (Hsch db). rewrite Hs in Hsch. simpl in Hsch.
    symmetry in Hsch. apply fmap_Some in Hsch as (sch' & Hs' & ->). by apply (co_sdb _ _ Hco).
  - intros db t db' t' tb tb' Ht Ht' Heq.
    apply dec_stable. intros Hne.
    apply (Hsel _ _ _ Ht). intros HQ. apply (Hsel _ _ _ Ht'). intros HQ'.
    destruct (decide ((db, t) = (db0, t0))) as [[= -> ->]|Hn];
      destruct (decide ((db', t') = (db0, t0))) as [[= -> ->]|Hn'].
    + by apply Hne.
    + destruct (Hnew HQ) as [c Hl]. destruct (Hkeep db' t' Hn' HQ') as (loc & c' & _ & Hl' & Hloc).
      rewrite (loaded_table _ _ _ _ _ _ Hl Ht), (loaded_table _ _ _ _ _ _ Hl' Ht') in Heq. done.
    + destruct (Hnew HQ') as [c Hl]. destruct (Hkeep db t Hn HQ) as (loc & c' & _ & Hl' & Hloc).
      rewrite (loaded_table _ _ _ _ _ _ Hl' Ht), (loaded_table _ _ _ _ _ _ Hl Ht') in Heq. done.
    + destruct (Hold db t Hn HQ) as (_ & E1 & _). destruct (Hold db' t' Hn' HQ') as (_ & E2 & _).
      rewrite E1 in Ht. rewrite E2 in Ht'. apply Hne. by eapply (co_inj _ _ Hco).
Qed.
End coherence.

Section coherent_ops.
Context `{R : MapRange}.

Lemma is_Some_insert_same {A} (m : gmap string A) k v x db :
  m !! k = Some x -> is_Some (<[k := v]> m !! db) <-> is_Some (m !! db).
Proof.
  intros Hk. rewrite lookup_insert. case_decide; [|done]. subst. rewrite Hk. by split; eauto.
Qed.

Lemma sDB_insert_same (m : gmap string Schema) k sch ts db :
  m !! k = Some sch -> sDB <$> <[k := mkSchema (sDB sch) ts]> m !! db = sDB <$> m !! db.
Proof.
  intros Hk. rewrite lookup_insert. case_decide; [|done]. subst. by rewrite Hk.
Qed.

Lemma with_extra_name ex c : tcName (with_extra ex c) = tcName c.
Proof. by destruct ex. Qed.

Lemma after_set_heap h r m h' d v io : after (set_heap h r) m h' d v io = after r m h' d v io.
Proof. done. Qed.

Lemma coherent_create db table rc ex r r' :
  (forall c, rc = Ok c -> tcName c = table) ->
  coherent r -> create_from db table rc ex r = (Ok tt, r') -> coherent r'.
Proof.
  intros Hname Hco. unfold create_from. intros (c0 & r0 & Hc0 & H)%M_bind_inv_Ok.
  injection Hc0 as -> <-. specialize (Hname c0 eq_refl).
  apply M_bind_inv_Ok in H as (loc & r1 & Hl & H). injection Hl as <- <-.
  set (c := with_extra ex c0) in *. assert (tcName c = table) as Hn by (by unfold c; rewrite with_extra_name).
  apply (createTable_Ok _ _ _ c) in H as (sch & p & dir & io & Hdb & Hs & Hf & Hp & Hd & Hm & ->).
  2: { simpl. by rewrite lookup_app_r, Nat.sub_diag by done. }
  simpl in *. clear Hname. subst table. rewrite after_set_heap.
  eapply (coherent_update _ _ r _ db (tcName c) (length (rHeap r)));
    [exact Hco|done|done|intros; by eapply is_Some_insert_same
    |intros; by apply sDB_insert_same| | |].
  - intros db' t' Hne HQ. rewrite file_at_write in HQ by done.
    rewrite file_at_write, table_at_with by done.
    rewrite decide_False in HQ by (simpl; intros [-> ->]; done).
    rewrite !decide_False by (simpl; intros [-> ->]; done).
    split_and!; [done..|]. intros loc c' (_ & Hh & _).
    pose proof (lookup_lt_Some _ _ _ Hh). split; [lia|]. simpl. by rewrite lookup_app_l.
  - intros _. exists c. split_and!; [done| | |].
    + simpl. by rewrite lookup_app_r, Nat.sub_diag by done.
    + rewrite file_at_write by done. by rewrite decide_True.
    + exists p. split; [done|]. rewrite table_at_with by done. by rewrite decide_True.
  - intros db' t' HQ. rewrite file_at_write in HQ by done.
    rewrite table_at_with by done. simpl. case_decide; [by destruct HQ|].
    by apply (co_out _ _ Hco).
Qed.
Lemma coherent_drop db table r r' :
  coherent r -> dropTable db table r = (Ok tt, r') -> coherent r'.
Proof.
  intros Hco (sch & t & dir & o & io & Hs & Ht & Hd & Ho & ->)%dropTable_Ok.
  eapply (coherent_update _ _ r _ db table (length (rHeap r)));
    [exact Hco|done|apply Hco|intros; by eapply is_Some_insert_same
    |intros; by apply sDB_insert_same| | |].
  - intros db' t' Hne HQ. rewrite file_at_remove in HQ by done.
    rewrite file_at_remove, table_at_without by done.
    rewrite decide_False in HQ by (intros [-> ->]; done).
    rewrite !decide_False by (intros [-> ->]; done).
    split_and!; [done..|]. intros loc c' (_ & Hh & _).
    pose proof (lookup_lt_Some _ _ _ Hh). split; [lia|done].
  - rewrite file_at_remove by done. rewrite decide_True by done. intros [? [=]].
  - intros db' t' HQ. rewrite file_at_remove in HQ by done.
    rewrite table_at_without by done. case_decide; [done|]. by apply (co_out _ _ Hco).
Qed.

(** The three steps of a rename that returned. *)
Lemma RenameTable_Ok db f t r r' :
  coherent r -> RenameTable db f t r = (Ok tt, r') ->
  exists loc c p, f <> t /\ loaded r db f loc c /\ table_at r db t = None /\
    build_partition (rConf r) (rename_config f t c) = Ok p /\
    rHeap r' = <[loc := rename_config f t c]> (rHeap r) /\ rConf r' = rConf r /\ rMeta r' = true /\
    (forall db', is_Some (rDisk r' !! db') <-> is_Some (rDisk r !! db')) /\
    (forall db', sDB <$> rSchemas r' !! db' = sDB <$> rSchemas r !! db') /\
    (forall db' t', table_at r' db' t' =
       if decide (db' = db /\ t' = f) then None
       else if decide (db' = db /\ t' = t) then Some (table_of (rename_config f t c) (Some p) loc)
       else table_at r db' t') /\
    (forall db' t', file_at r' db' t' =
       if decide (db' = db /\ t' = f) then None
       else if decide (db' = db /\ t' = t) then Some (Some (rename_config f t c))
       else file_at r db' t').
Proof.
  intros Hco (loc & r1 & H1 & H2)%M_bind_inv_Ok.
  destruct (getRename_inv _ _ _ _ _ _ H1) as [[_ ?]|(sch & tb & c & Hs & Hf & Ht & Hc & [= ->] & ->)];
    [by naive_solver|].
  assert (table_at r db f = Some tb) as Hat by (unfold table_at; by rewrite Hs).
  assert (exists c', loaded r db f (tConf tb) c') as [c' Hl].
  { destruct (file_at r db f) eqn:Hfile.
    - destruct (co_in _ _ Hco db f) as (l & c' & Hl); [by rewrite Hfile; eauto|].
      pose proof (loaded_table _ _ _ _ _ _ Hl Hat) as <-. eauto.
    - rewrite (co_out _ _ Hco) in Hat; [done|]. rewrite Hfile. by intros []. }
  assert (c' = c) as -> by (destruct Hl as (_ & Hh & _); congruence).
  apply M_bind_inv_Ok in H2 as ([] & r2 & H2 & H3).
  pose proof (lookup_lt_Some _ _ _ Hc) as Hlt.
  apply (createTable_Ok _ _ _ (rename_config f t c)) in H2
    as (sch' & p & dir & io & Hdb & Hs' & Hn & Hp & Hd & Hm & ->).
  2: { simpl. by apply list_lookup_insert_eq. }
  rewrite after_set_heap in H3. simpl in Hs', Hn, Hp, Hd, Hm, H3.
  rewrite Hs in Hs'. injection Hs' as <-.
  apply dropTable_Ok in H3 as (sch2 & t2 & dir2 & o & io2 & Hs2 & Ht2 & Hd2 & Ho & ->).
  exists (tConf tb), c, p. split_and!; try done.
  - intros ->. by rewrite Hf in Ht.
  - unfold table_at. by rewrite Hs.
  - intros db'. simpl in *. rewrite (is_Some_insert_same _ _ _ _ _ Hd2).
    by rewrite (is_Some_insert_same _ _ _ _ _ Hd).
  - intros db'. simpl in *. rewrite (sDB_insert_same _ _ _ _ _ Hs2).
    unfold with_table. by rewrite (sDB_insert_same _ _ _ _ _ Hs).
  - intros db' t'. rewrite table_at_without by done. case_decide; [done|].
    by rewrite table_at_with.
  - intros db' t'. rewrite file_at_remove by done. case_decide; [done|].
    by rewrite file_at_write.
Qed.

Lemma coherent_rename db f t r r' :
  coherent r -> RenameTable db f t r = (Ok tt, r') -> coherent r'.
Proof.
  intros Hco H. destruct (RenameTable_Ok _ _ _ _ _ Hco H)
    as (loc & c & p & Hne & Hl & Hnone & Hp & Hh & Hcf & Hm & Hd & Hs & Hta & Hfa).
  assert (rHeap r !! loc = Some c) as Hloc by apply Hl.
  eapply (coherent_update _ _ r r' db t loc); [exact Hco|done..| | |].
  - intros db' t' Hk HQ. rewrite Hfa in HQ. rewrite Hfa, Hta.
    case_decide as Hd1; [by destruct HQ|].
    rewrite decide_False in HQ by (intros [-> ->]; done).
    rewrite !decide_False by (intros [-> ->]; done).
    split_and!; [done..|]. intros l c' Hl'.
    assert (l <> loc) as Hll.
    { intros ->. apply Hd1. destruct Hl as (_ & _ & _ & p1 & _ & E1).
      destruct Hl' as (_ & _ & _ & p2 & _ & E2). eapply (co_inj _ _ Hco); [exact E2|exact E1|done]. }
    split; [done|]. rewrite Hh. by apply list_lookup_insert_ne.
  - intros _. exists (rename_config f t c). split_and!; [done| | |].
    + rewrite Hh. apply list_lookup_insert_eq. by eapply lookup_lt_Some.
    + rewrite Hfa. rewrite decide_False by naive_solver. by rewrite decide_True.
    + exists p. rewrite Hcf, Hta. split; [done|].
      rewrite decide_False by naive_solver. by rewrite decide_True.
  - intros db' t' HQ. rewrite Hfa in HQ. rewrite Hta.
    case_decide; [done|]. case_decide; [by destruct HQ|]. by apply (co_out _ _ Hco).
Qed.
End coherent_ops.

Section coherent_databases.
(** Databases come and go with all their tables. *)
Lemma coherent_restrict r r' (keep : string -> Prop) :
  coherent r -> rConf r' = rConf r -> rMeta r' = true -> rHeap r' = rHeap r ->
  (forall db, is_Some (rSchemas r' !! db) <-> is_Some (rDisk r' !! db)) ->
  (forall db sch, rSchemas r' !! db = Some sch -> sDB sch = db /\ db <> "") ->
  (forall db t, (keep db /\ table_at r' db t = table_at r db t /\ file_at r' db t = file_at r db t)
                \/ (table_at r' db t = None /\ file_at r' db t = None)) ->
  coherent r'.
Proof.
  intros Hco Hc Hm Hh Hdom Hsdb Hk. split; [done..| | |].
  - intros db t HQ. destruct (Hk db t) as [(_ & Ht & Hf)|[_ Hf]].
    + rewrite Hf in HQ. destruct (co_in _ _ Hco db t HQ) as (l & c & ? & ? & ? & p & ? & ?).
      exists l, c. unfold loaded. rewrite Hh, Hf, Hc, Ht. split_and!; [done..|]. by exists p.
    + rewrite Hf in HQ. by destruct HQ.
  - intros db t HQ. destruct (Hk db t) as [(_ & Ht & Hf)|[Ht _]]; [|done].
    rewrite Ht. apply (co_out _ _ Hco). by rewrite <- Hf.
  - intros db t db' t' tb tb' Ht Ht' Heq.
    destruct (Hk db t) as [(_ & E & _)|[E _]]; [|by rewrite E in Ht].
    destruct (Hk db' t') as [(_ & E' & _)|[E' _]]; [|by rewrite E' in Ht'].
    rewrite E in Ht. rewrite E' in Ht'. by eapply (co_inj _ _ Hco).
Qed.

Lemma coherent_CreateDatabase db r r' :
  coherent r -> CreateDatabase db r = (Ok tt, r') -> coherent r'.
Proof.
  intros Hco. unfold CreateDatabase. case_match; [done|]. case_match; [done|].
  intros ([] & r1 & H1 & H2)%M_bind_inv_Ok. unfold addDatabase in H1.
  case_decide as Hdb; [done|]. destruct (rSchemas r !! db) eqn:Hs; [done|]. injection H1 as <-.
  assert (rDisk r !! db = None) as Hd.
  { apply eq_None_not_Some. rewrite <- (co_dom _ _ Hco), Hs. by intros []. }
  apply M_bind_inv_Ok in H2 as ([u|e] & r2 & H2 & H3).
  2: { apply M_bind_inv_Ok in H3 as (? & ? & _ & [=]). }
  unfold mtry in H2. destruct (writeDatabaseFrmData _ _) as [[[]| |] r3] eqn:Hw; simplify_eq.
  unfold writeDatabaseFrmData in Hw. apply M_bind_inv_Ok in Hw as (r4 & r5 & Hg & Hw).
  injection Hg as <- <-. simpl in Hw. rewrite Hd in Hw. apply io_step_Ok in Hw as [io ->].
  apply UpdateVersion_or_panic_Ok in H3 as (_ & io' & ->). simpl.
  eapply (coherent_restrict r _ (fun _ => True)); [done..| | |].
  - intros db'. simpl. rewrite !lookup_insert. case_decide; [by split; eauto|]. apply Hco.
  - intros db' sch. simpl. rewrite lookup_insert. case_decide; [|apply Hco].
    intros [= <-]. by subst.
  - intros db' t. left. split; [done|]. unfold table_at, file_at; simpl.
    rewrite !lookup_insert. case_decide; [|done]. subst. by rewrite Hs, Hd.
Qed.

Lemma coherent_DropDatabase db r r' :
  coherent r -> DropDatabase db r = (Ok tt, r') -> coherent r'.
Proof.
  intros Hco. unfold DropDatabase. intros ([] & r1 & H1 & H2)%M_bind_inv_Ok.
  unfold dropDatabase in H1. destruct (rSchemas r !! db) eqn:Hs; [|done]. injection H1 as <-.
  apply M_bind_inv_Ok in H2 as ([] & r2 & H2 & H3). apply io_step_Ok in H2 as [io ->].
  apply UpdateVersion_or_panic_Ok in H3 as (Hm & io' & ->). simpl in *.
  eapply (coherent_restrict r _ (fun k => k <> db)); [done..| | |].
  - intros db'. simpl. rewrite !lookup_delete. case_decide; [by split; intros []|]. apply Hco.
  - intros db' sch. simpl. rewrite lookup_delete. case_decide; [done|]. apply Hco.
  - intros db' t. unfold table_at, file_at; simpl. rewrite !lookup_delete.
    case_decide; [by right|]. left. split; [congruence|done].
Qed.
End coherent_databases.

(** ** Loading the directory *)
Section loading.
Context `{R : MapRange}.

Lemma next_io_inv r x r' : next_io r = (Ok x, r') -> exists io, r' = set_io io r.
Proof.
  unfold next_io. destruct (rIo r) eqn:H; intros [= <- <-]; [|by eexists].
  exists []. destruct r; simpl in *. by subst.
Qed.

Lemma loadTable_Ok db t r r' :
  loadTable db t r = (Ok tt, r') ->
  exists c sch p io, file_at r db t = Some (Some c) /\ db <> "" /\ rSchemas r !! db = Some sch /\
    sTables sch !! tcName c = None /\ build_partition (rConf r) c = Ok p /\
    r' = after r (with_table db sch (table_of c (Some p) (length (rHeap r))) (rSchemas r))
           (rHeap r ++ [c]) (rDisk r) (rVersion r) io.
Proof.
  unfold loadTable. intros (loc & r1 & H1 & H2)%M_bind_inv_Ok. unfold readTableFrmData in H1.
  apply M_bind_inv_Ok in H1 as (x & r2 & Hx & H1). apply next_io_inv in Hx as [io ->].
  apply M_bind_inv_Ok in H1 as (r3 & r4 & Hg & H1). injection Hg as <- <-. simpl in H1.
  destruct x; try done. destruct (rDisk r !! db) as [dir|] eqn:Hd; [|done].
  destruct (dir !! t) as [[c|]|] eqn:Ht; try done. injection H1 as <- <-.
  apply (addTable_Ok _ _ c) in H2 as (sch & p & Hdb & Hs & Hn & Hp & ->).
  2: { simpl. by rewrite lookup_app_r, Nat.sub_diag by done. }
  exists c, sch, p, io. unfold file_at. rewrite Hd. done.
Qed.

(** One table file adds its table to the loaded ones. *)
Lemma coherent_loadTable (P : string -> string -> Prop) db t r r' :
  (forall c, file_at r db t = Some (Some c) -> tcName c = t) -> ~ P db t ->
  coherent_on P r -> loadTable db t r = (Ok tt, r') ->
  coherent_on (fun db' t' => P db' t' \/ (db' = db /\ t' = t)) r'.
Proof.
  intros Hname HP Hco (c & sch & p & io & Hf & Hdb & Hs & Hn & Hp & ->)%loadTable_Ok.
  specialize (Hname c Hf). subst t.
  eapply (coherent_update P _ r _ db (tcName c) (length (rHeap r)));
    [exact Hco|done|apply Hco|done|intros; by apply sDB_insert_same| | |].
  - intros db' t' Hne [HQ|[-> ->]]; [|done]. split; [done|]. split.
    { rewrite table_at_with by done. rewrite decide_False; [done|]. simpl. naive_solver. }
    split; [done|]. intros loc c' (_ & Hh & _).
    pose proof (lookup_lt_Some _ _ _ Hh). split; [lia|]. simpl. by rewrite lookup_app_l.
  - intros _. exists c. split_and!; [done| |done|].
    + simpl. by rewrite lookup_app_r, Nat.sub_diag by done.
    + exists p. split; [done|]. rewrite table_at_with by done. by rewrite decide_True.
  - intros db' t' HQ. rewrite table_at_with by done. simpl. case_decide; [tauto|].
    apply (co_out _ _ Hco). tauto.
Qed.
(** Every file holds the configuration of the table it is named after. *)
Definition files_named (r : Router) : Prop :=
  forall db t o, file_at r db t = Some o -> exists c, o = Some c /\ tcName c = t.

Lemma coherent_files_named r : coherent r -> files_named r.
Proof.
  intros Hco db t o Ho. destruct (co_in _ _ Hco db t) as (l & c & Hn & _ & Hf & _); [by rewrite Ho; eauto|].
  exists c. split; [congruence|done].
Qed.

Definition load_pair (k : string * string) : RM unit := loadTable (fst k) (snd k).

Lemma coherent_load_pairs ks (P : string -> string -> Prop) r r' :
  NoDup ks -> (forall k, k ∈ ks -> ~ P (fst k) (snd k)) -> files_named r ->
  coherent_on P r -> miter load_pair ks r = (Ok tt, r') ->
  coherent_on (fun db t => P db t \/ (db, t) ∈ ks) r' /\ rDisk r' = rDisk r /\ rConf r' = rConf r.
Proof.
  intros Hnd. revert P r. induction Hnd as [|[db t] ks Hk Hnd IH]; intros P r HP Hfn Hco Hr; simpl in Hr.
  { injection Hr as <-. split; [|done]. eapply coherent_on_iff; [|exact Hco]. set_solver. }
  apply M_bind_inv_Ok in Hr as ([] & r1 & H1 & H2). unfold load_pair in H1; simpl in H1.
  assert (rDisk r1 = rDisk r /\ rConf r1 = rConf r) as [Hd Hcf].
  { apply loadTable_Ok in H1 as (? & ? & ? & ? & _ & _ & _ & _ & _ & ->). done. }
  apply (coherent_loadTable P) in H1; [| |by apply (HP (db, t)); left|done].
  2: { intros c Hc. by destruct (Hfn _ _ _ Hc) as (c' & [= <-] & ?). }
  apply (IH (fun db' t' => P db' t' \/ (db' = db /\ t' = t))) in H2 as (H2 & Hd2 & Hc2); [| | |done].
  - split; [|split; congruence]. eapply coherent_on_iff; [|exact H2].
    intros db' t'. rewrite elem_of_cons. naive_solver.
  - intros [db' t'] Hin. simpl. intros [HPk|[-> ->]]; [|done].
    eapply (HP (db', t')); [by right|done].
  - unfold files_named, file_at in *. by rewrite Hd.
Qed.

Lemma ReadDir_perm {A} (m : gmap string A) : Permutation (ReadDir m) (map_to_list m).
Proof. apply merge_sort_Permutation. Qed.

(** The databases and the file names the first loop collects. *)
Lemma load_dirs_Ok dirs frms r frms' r' :
  NoDup (fst <$> dirs) -> load_dirs dirs frms r = (Ok frms', r') ->
  rConf r' = rConf r /\ rHeap r' = rHeap r /\ rMeta r' = rMeta r /\ rDisk r' = rDisk r /\
  (forall db, rSchemas r' !! db =
     if decide (db ∈ fst <$> dirs) then Some (mkSchema db ∅) else rSchemas r !! db) /\
  (forall db, frms' !! db = match (list_to_map dirs : gmap _ _) !! db with
                            | Some dir => Some (fst <$> ReadDir dir) | None => frms !! db end) /\
  "" ∉ fst <$> dirs.
Proof.
  revert frms r. induction dirs as [|[db dir] dirs IH]; intros frms r Hnd H; simpl in H.
  { injection H as <- <-. split_and!; try done. set_solver. }
  apply NoDup_cons in Hnd as [Hdb Hnd].
  apply M_bind_inv_Ok in H as (x & r1 & Hx & H). apply next_io_inv in Hx as [io ->].
  destruct x; try done. apply M_bind_inv_Ok in H as ([] & r2 & Ha & H).
  unfold addDatabase in Ha. simpl in Ha. case_decide as He; [done|].
  destruct (rSchemas r !! db) eqn:Hs; [done|]. injection Ha as <-.
  apply IH in H as (H1 & H2 & H3 & H4 & H5 & H6 & H7); [|done]. simpl in *.
  split_and!; try done.
  - intros k. rewrite H5, lookup_insert. repeat case_decide; try done; subst; set_solver.
  - intros k. rewrite H6, !lookup_insert. case_decide as Hk; [|done]. subst.
    rewrite (not_elem_of_list_to_map_1 dirs k) by done. done.
  - set_solver.
Qed.
Context `{!MapRangeOk R}.

(** The (database, table) pairs the second loop goes through. *)
Definition load_keys (frms : gmap string (list string)) : list (string * string) :=
  kv ← map_range frms; pair (fst kv) <$> snd kv.

Lemma load_files_pairs frms r : load_files frms r = miter load_pair (load_keys frms) r.
Proof.
  unfold load_files, load_keys.
  apply (miter_nested load_pair snd (fun kv t => (fst kv, t))).
Qed.

Definition dir_names (r : Router) : gmap string (list string) :=
  (fun dir => fst <$> ReadDir dir) <$> rDisk r.

Lemma load_keys_spec r db t : (db, t) ∈ load_keys (dir_names r) <-> is_Some (file_at r db t).
Proof.
  unfold load_keys, file_at. rewrite list_elem_of_bind. split.
  - intros ([k names] & (t' & [= <- <-] & Ht)%list_elem_of_fmap & Hin).
    rewrite map_range_perm, elem_of_map_to_list in Hin. unfold dir_names in Hin.
    rewrite lookup_fmap, fmap_Some in Hin. destruct Hin as (dir & Hd & Hnames). simpl in *.
    rewrite Hd. simpl. subst names. rewrite ReadDir_perm in Ht.
    apply list_elem_of_fmap in Ht as ([t' o] & -> & Hin). apply elem_of_map_to_list in Hin.
    simpl. rewrite Hin. eauto.
  - intros [o Ho]. destruct (rDisk r !! db) as [dir|] eqn:Hd; [|done]. simpl in Ho.
    exists (db, fst <$> ReadDir dir). split.
    + apply list_elem_of_fmap. exists t. split; [done|]. simpl. rewrite ReadDir_perm.
      apply list_elem_of_fmap. exists (t, o). split; [done|]. by apply elem_of_map_to_list.
    + rewrite map_range_perm, elem_of_map_to_list. unfold dir_names. by rewrite lookup_fmap, Hd.
Qed.

Lemma load_keys_NoDup r : NoDup (load_keys (dir_names r)).
Proof.
  apply NoDup_keyed.
  - rewrite map_range_perm. apply NoDup_fst_map_to_list.
  - apply Forall_forall. intros [k names] Hin. rewrite map_range_perm, elem_of_map_to_list in Hin.
    unfold dir_names in Hin. rewrite lookup_fmap, fmap_Some in Hin.
    destruct Hin as (dir & _ & ->). simpl. rewrite ReadDir_perm. apply NoDup_fst_map_to_list.
Qed.

Lemma ReadDir_map {A} (m : gmap string A) : (list_to_map (ReadDir m) : gmap string A) = m.
Proof.
  rewrite (list_to_map_proper _ (map_to_list m)); [apply list_to_map_to_list| |apply ReadDir_perm].
  rewrite ReadDir_perm. apply NoDup_fst_map_to_list.
Qed.

Lemma ReadDir_keys {A} (m : gmap string A) k : k ∈ fst <$> ReadDir m <-> is_Some (m !! k).
Proof.
  rewrite ReadDir_perm, list_elem_of_fmap. split.
  - intros ([k' v] & -> & Hin%elem_of_map_to_list). simpl. rewrite Hin. eauto.
  - intros [v Hv]. exists (k, v). split; [done|]. by apply elem_of_map_to_list.
Qed.

Lemma ReadDir_NoDup {A} (m : gmap string A) : NoDup (fst <$> ReadDir m).
Proof. rewrite ReadDir_perm. apply NoDup_fst_map_to_list. Qed.

(** After the first loop the schemas mirror the directory, without tables. *)
Lemma load_dirs_coherent r frms r' :
  rSchemas r = ∅ -> rMeta r = true -> load_dirs (ReadDir (rDisk r)) ∅ r = (Ok frms, r') ->
  coherent_on (fun _ _ => False) r' /\ frms = dir_names r /\ rDisk r' = rDisk r.
Proof.
  intros H0 Hm H. apply load_dirs_Ok in H as (Hc & Hh & Hmt & Hd & Hs & Hf & He); [|apply ReadDir_NoDup].
  assert (forall db t, table_at r' db t = None) as Hnone.
  { intros db t. unfold table_at. rewrite Hs. case_decide; [done|]. by rewrite H0. }
  split_and!; [split|..]; try done.
  - congruence.
  - intros db. rewrite Hs, Hd, H0, <- ReadDir_keys, lookup_empty.
    case_decide as Hin; [by split; eauto|]. split; [intros [? [=]]|done].
  - intros db sch. rewrite Hs. case_decide as Hin; [|by rewrite H0]. intros [= <-]. simpl.
    split; [done|]. intros ->. done.
  - intros db t db' t' tb tb' Ht. by rewrite Hnone in Ht.
  - apply map_eq. intros db. rewrite Hf, ReadDir_map. unfold dir_names. rewrite lookup_fmap.
    by destruct (rDisk r !! db).
Qed.

Lemma coherent_LoadConfig r r' :
  files_named r -> rMeta r = true -> LoadConfig r = (Ok tt, r') ->
  coherent r' /\ rDisk r' = rDisk r /\ rConf r' = rConf r.
Proof.
  intros Hfn Hm. unfold LoadConfig. intros ([] & r1 & H1 & H)%M_bind_inv_Ok. injection H1 as <-.
  apply M_bind_inv_Ok in H as (r2 & r3 & Hg & H). injection Hg as <- <-. simpl in H. rewrite Hm in H.
  apply M_bind_inv_Ok in H as (x & r2 & Hx & H). apply next_io_inv in Hx as [io ->].
  destruct x; try done. apply M_bind_inv_Ok in H as (frms & r3 & Hl & H).
  destruct (load_dirs_Ok _ _ _ _ _ (ReadDir_NoDup (rDisk r)) Hl) as (Hcf & _).
  apply (load_dirs_coherent (set_io io (set_schemas ∅ r))) in Hl as (Hco & -> & Hd); [|done..].
  rewrite load_files_pairs in H.
  simpl in *. apply (coherent_load_pairs _ (fun _ _ => False)) in H as (Hco' & Hd' & Hc');
    [|apply load_keys_NoDup|tauto| |done].
  - rewrite Hd', Hd, Hc', Hcf. split; [|done]. eapply coherent_on_iff; [|exact Hco'].
    intros db t. unfold file_at. rewrite Hd', Hd.
    pose proof (load_keys_spec r db t) as Hk. unfold file_at in Hk.
    change (dir_names (set_io io (set_schemas ∅ r))) with (dir_names r). tauto.
  - unfold files_named, file_at in *. by rewrite Hd.
Qed.

(** With every I/O call succeeding the loops run to their end. *)
Lemma load_dirs_total dirs frms r :
  rIo r = [] -> NoDup (fst <$> dirs) -> "" ∉ fst <$> dirs ->
  (forall db, db ∈ fst <$> dirs -> rSchemas r !! db = None) ->
  exists frms' r', load_dirs dirs frms r = (Ok frms', r') /\ rIo r' = [].
Proof.
  revert frms r. induction dirs as [|[db dir] dirs IH]; intros frms r Hio Hnd He Hfree; cbn [load_dirs].
  { by eexists _, _. }
  apply NoDup_cons in Hnd as [Hdb Hnd].
  erewrite M_bind_Ok by (unfold next_io; rewrite Hio; reflexivity).
  cbv match. erewrite M_bind_Ok.
  2: { unfold addDatabase. rewrite decide_False by set_solver. rewrite Hfree by set_solver. reflexivity. }
  apply IH; [done|done|set_solver|]. intros k Hk. simpl.
  rewrite lookup_insert_ne by (intros ->; done). apply Hfree. by right.
Qed.

Lemma loadTable_total db t c sch p r :
  rIo r = [] -> file_at r db t = Some (Some c) -> db <> "" -> rSchemas r !! db = Some sch ->
  sTables sch !! tcName c = None -> build_partition (rConf r) c = Ok p ->
  exists r', loadTable db t r = (Ok tt, r') /\ rIo r' = [].
Proof.
  intros Hio Hf Hdb Hs Hn Hp. unfold loadTable. unfold file_at in Hf.
  destruct (rDisk r !! db) as [dir|] eqn:Hd; [|done]. simpl in Hf.
  erewrite M_bind_Ok.
  2: { unfold readTableFrmData. erewrite M_bind_Ok by (unfold next_io; rewrite Hio; reflexivity).
       erewrite M_bind_Ok by reflexivity. rewrite Hd, Hf. reflexivity. }
  rewrite (addTable_run db _ c sch); [|done|done| |done].
  2: { simpl. by rewrite lookup_app_r, Nat.sub_diag by done. }
  simpl. rewrite Hp. eauto.
Qed.

Lemma load_pairs_total ks (P : string -> string -> Prop) r :
  NoDup ks -> rIo r = [] -> coherent_on P r -> files_named r ->
  (forall db t, (db, t) ∈ ks -> ~ P db t /\ is_Some (file_at r db t) /\
     forall c, file_at r db t = Some (Some c) -> is_Ok (build_partition (rConf r) c) = true) ->
  exists r', miter load_pair ks r = (Ok tt, r').
Proof.
  intros Hnd. revert P r. induction Hnd as [|[db t] ks Hk Hnd IH]; intros P r Hio Hco Hfn Hks; [by eexists|].
  destruct (Hks db t) as (HP & [o Ho] & Hb); [by left|].
  destruct (Hfn db t o Ho) as (c & -> & Hname). specialize (Hb c Ho).
  destruct (build_partition (rConf r) c) as [p| |] eqn:Hp; try done.
  assert (is_Some (rSchemas r !! db)) as [sch Hs].
  { apply (co_dom _ _ Hco). unfold file_at in Ho. destruct (rDisk r !! db); [by eauto|done]. }
  pose proof (co_out _ _ Hco _ _ HP) as Hnone. unfold table_at in Hnone. rewrite Hs in Hnone.
  destruct (loadTable_total db t c sch p r) as (r1 & H1 & Hio1); try done.
  { by apply (co_sdb _ _ Hco) in Hs as [_ ?]. } { by rewrite Hname. }
  simpl. erewrite M_bind_Ok by exact H1.
  pose proof (loadTable_Ok _ _ _ _ H1) as (c1 & sch1 & p1 & io1 & _ & _ & _ & _ & _ & Hr1).
  apply (coherent_loadTable P) in H1 as Hco1; [| |done|done].
  2: { intros c' Hc'. by destruct (Hfn _ _ _ Hc') as (c2 & [= <-] & ?). }
  apply (IH _ r1 Hio1 Hco1); [by subst r1|].
  intros db' t' Hin. destruct (Hks db' t') as (HP' & Hf' & Hb'); [by right|].
  subst r1. split; [|done]. intros [?|[-> ->]]; done.
Qed.

Lemma LoadConfig_total r :
  coherent r -> rIo r = [] -> exists r', LoadConfig r = (Ok tt, r').
Proof.
  intros Hco Hio. unfold LoadConfig. erewrite M_bind_Ok by reflexivity.
  erewrite M_bind_Ok by reflexivity. simpl. rewrite (co_meta _ _ Hco).
  erewrite M_bind_Ok by (unfold next_io; simpl; rewrite Hio; reflexivity).
  cbv match. set (r0 := set_schemas ∅ r).
  destruct (load_dirs_total (ReadDir (rDisk r)) ∅ r0) as (frms & r1 & Hl & Hio1); [done|apply ReadDir_NoDup| |done|].
  { rewrite ReadDir_keys, <- (co_dom _ _ Hco). intros [sch Hs].
    by apply (co_sdb _ _ Hco) in Hs as [_ ?]. }
  erewrite M_bind_Ok by exact Hl.
  destruct (load_dirs_Ok _ _ _ _ _ (ReadDir_NoDup (rDisk r)) Hl) as (Hcf & _).
  apply (load_dirs_coherent r0) in Hl as (Hco1 & -> & Hd); [|done|apply Hco].
  rewrite load_files_pairs. simpl in Hd.
  apply (load_pairs_total _ (fun _ _ => False)); [apply load_keys_NoDup|done|done| |].
  - unfold files_named, file_at. rewrite Hd. by apply coherent_files_named.
  - intros db t Hin. apply (load_keys_spec r0) in Hin. unfold file_at. rewrite Hd, Hcf.
    split_and!; [tauto|done|]. intros c Hc.
    destruct (co_in _ _ Hco db t) as (l & c' & _ & _ & Hf & p & Hp & _); [done|].
    unfold file_at in Hf. rewrite Hc in Hf. injection Hf as <-. simpl. by rewrite Hp.
Qed.
End loading.

(** ** Refreshing and shifting *)
Section shifting.
Context `{R : MapRange, !MapRangeOk R}.
Implicit Types (P : string -> string -> Prop).

(** Forget a table in memory and load it again from its file. *)
Lemma coherent_reload_one P db t loc r r1 r' :
  coherent_on P r -> P db t ->
  rConf r1 = rConf r -> rMeta r1 = true ->
  (forall k, is_Some (rDisk r1 !! k) <-> is_Some (rDisk r !! k)) -> rSchemas r1 = rSchemas r ->
  (forall k u, (k, u) <> (db, t) -> file_at r1 k u = file_at r k u) ->
  (forall c, file_at r1 db t = Some (Some c) -> tcName c = t) ->
  (forall k u l c, (k, u) <> (db, t) -> loaded r k u l c -> l <> loc /\ rHeap r1 !! l = rHeap r !! l) ->
  RefreshTable db t r1 = (Ok tt, r') -> coherent_on P r'.
Proof.
  intros Hco HP Hcf Hm Hd Hs Hf Hn Hh. unfold RefreshTable.
  intros ([] & r2 & H1 & H2)%M_bind_inv_Ok.
  destruct (removeTable_inv _ _ _ _ _ H1) as [[_ ?]|(sch & tb & Hsc & Ht & _ & ->)]; [done|].
  set (r2 := set_schemas _ r1) in *.
  assert (forall k u, table_at r2 k u = if decide (k = db /\ u = t) then None else table_at r k u) as Hta.
  { intros k u. unfold table_at, r2; simpl. rewrite Hs in *.
    destruct (decide (k = db)) as [->|Hk].
    - rewrite lookup_insert_eq, Hsc. simpl. rewrite lookup_delete.
      destruct (decide (t = u)); destruct (decide _); naive_solver.
    - rewrite lookup_insert_ne by done. rewrite decide_False by tauto. done. }
  assert (coherent_on (fun k u => P k u /\ (k, u) <> (db, t)) r2) as Hco2.
  { eapply (coherent_update P _ r r2 db t loc); [done|done|done|done| | | |].
    - intros k. unfold r2; simpl. rewrite Hs in *. by apply sDB_insert_same.
    - intros k u Hne [HPk _]. split; [done|]. rewrite Hta, decide_False by naive_solver.
      split_and!; [done|by apply Hf|]. intros l c. by apply Hh.
    - intros [_ ?]. done.
    - intros k u HQ. rewrite Hta. case_decide as Hk; [done|].
      apply (co_out _ _ Hco). intros HPk. apply HQ. split; [done|]. intros [= -> ->]. by apply Hk. }
  apply (coherent_loadTable (fun k u => P k u /\ (k, u) <> (db, t)) db t) in H2;
    [|exact Hn|tauto|exact Hco2].
  eapply coherent_on_iff; [|exact H2]. intros k u. simpl.
  destruct (decide ((k, u) = (db, t))) as [[= -> ->]|Hne]; [tauto|]. naive_solver.
Qed.

Lemma coherent_has_file r db t tb : coherent r -> table_at r db t = Some tb ->
  is_Some (file_at r db t).
Proof.
  intros Hco Ht. apply not_eq_None_Some. intros Hf.
  rewrite (co_out _ _ Hco) in Ht; [done|]. rewrite Hf. by intros [].
Qed.

Lemma coherent_Refresh db t r r' :
  coherent r -> RefreshTable db t r = (Ok tt, r') -> coherent_on (fun k u => is_Some (file_at r k u)) r'.
Proof.
  intros Hco H. pose proof H as H0. unfold RefreshTable in H0.
  apply M_bind_inv_Ok in H0 as ([] & r2 & H1 & _).
  destruct (removeTable_inv _ _ _ _ _ H1) as [[_ ?]|(sch & tb & Hsc & Ht & _ & _)]; [done|].
  eapply (coherent_reload_one _ db t (length (rHeap r)) r r);
    [exact Hco| |done|apply Hco|done|done|done| | |exact H].
  - apply (coherent_has_file _ _ _ tb); [done|]. unfold table_at. by rewrite Hsc.
  - intros c Hc. by destruct (coherent_files_named _ Hco _ _ _ Hc) as (c' & [= <-] & ?).
  - intros k u l c _ (_ & Hl & _). pose proof (lookup_lt_Some _ _ _ Hl). split; [lia|done].
Qed.

Lemma RefreshTable_disk db t r r' : RefreshTable db t r = (Ok tt, r') -> rDisk r' = rDisk r.
Proof.
  unfold RefreshTable. intros ([] & r1 & H1 & H2)%M_bind_inv_Ok.
  apply loadTable_Ok in H2 as (? & ? & ? & ? & _ & _ & _ & _ & _ & ->).
  destruct (removeTable_inv _ _ _ _ _ H1) as [[-> _]|(? & ? & _ & _ & _ & ->)]; done.
Qed.

Lemma find_rule_Ok heap from pt ts t i :
  find_rule heap from pt ts = Ok (Some (t, i)) ->
  exists k c, (k, t) ∈ ts /\ heap !! tConf t = Some c /\ find_part from pt (tcPartitions c) = Some i.
Proof.
  induction ts as [|[k t'] ts IH]; simpl; [done|].
  destruct (heap !! tConf t') as [c|] eqn:Hc; [|done].
  destruct (find_part from pt (tcPartitions c)) as [j|] eqn:Hf.
  - intros [= -> ->]. exists k, c. split_and!; [by left|done|done].
  - intros (k' & c' & Hin & ? & ?)%IH. exists k', c'. split_and!; [by right|done|done].
Qed.

(** What [changeTheRuleBackend] did when it returned the table [n]. *)
Lemma change_Ok from to db pt n r r' :
  coherent r -> changeTheRuleBackend from to db pt r = (Ok n, r') ->
  exists loc c c' i dir io, from <> to /\ loaded r db n loc c /\
    find_part from pt (tcPartitions c) = Some i /\ shift_config to pt n i c = Ok c' /\
    rDisk r !! db = Some dir /\
    r' = after r (rSchemas r) (<[loc := c']> (rHeap r)) (<[db := <[n := Some c']> dir]> (rDisk r))
           (S (rVersion r)) io.
Proof.
  intros Hco. unfold changeTheRuleBackend. case_decide as Hne; [done|].
  intros (r0 & r1 & Hg & H)%M_bind_inv_Ok. injection Hg as <- <-.
  destruct (rSchemas r !! db) as [sch|] eqn:Hs; [|done].
  apply M_bind_inv_Ok in H as ([[t i]|] & r1 & Hf & H); [|done]. injection Hf as Hf <-.
  apply find_rule_Ok in Hf as (k & c & Hin & Hc & Hfp).
  rewrite map_range_perm, elem_of_map_to_list in Hin.
  assert (table_at r db k = Some t) as Hat by (unfold table_at; by rewrite Hs).
  destruct (co_in _ _ Hco db k) as (l & c0 & Hl); [by eapply coherent_has_file|].
  pose proof (loaded_table _ _ _ _ _ _ Hl Hat) as <-.
  assert (c0 = c) as -> by (destruct Hl as (_ & ? & _); congruence).
  assert (tName t = k) as Hk.
  { destruct Hl as (Hn & _ & _ & p & _ & E). rewrite Hat in E. injection E as ->. done. }
  apply M_bind_inv_Ok in H as (c1 & r1 & Hd & H). unfold deref in Hd. rewrite Hc in Hd.
  injection Hd as <- <-. apply M_bind_inv_Ok in H as (c' & r1 & Hsh & H).
  injection Hsh as Hsh <-. apply M_bind_inv_Ok in H as ([] & r1 & Hst & H). injection Hst as <-.
  apply M_bind_inv_Ok in H as ([u|e] & r2 & Hw & H).
  2: { apply M_bind_inv_Ok in H as (? & ? & _ & [=]). }
  unfold mtry in Hw. destruct (writeTableFrmData _ _ _ _) as [[[]| |] r3] eqn:Hwr; simplify_eq.
  apply write_Ok in Hwr as (dir & io & Hdir & ->).
  apply M_bind_inv_Ok in H as ([] & r3 & Hv & H). injection H as <- <-.
  apply UpdateVersion_or_panic_Ok in Hv as (_ & io' & ->). simpl in *.
  by exists (tConf t), c, c', i, dir, io'.
Qed.

Lemma shift_config_name to pt n i c c' : shift_config to pt n i c = Ok c' -> tcName c' = tcName c.
Proof.
  unfold shift_config. case_decide; [case_decide; [done|]|]; by intros [= <-].
Qed.

Lemma PartitionRuleShift_Ok from to db pt r r' :
  PartitionRuleShift from to db pt r = (Ok tt, r') ->
  exists n r1, changeTheRuleBackend from to db pt r = (Ok n, r1) /\ RefreshTable db n r1 = (Ok tt, r').
Proof.
  unfold PartitionRuleShift. intros (n & r1 & H1 & H2)%M_bind_inv_Ok. exists n, r1. split; [done|].
  apply M_bind_inv_Ok in H2 as ([u|e] & r2 & H2 & H3); [|done]. injection H3 as <-.
  unfold mtry in H2. destruct (RefreshTable db n r1) as [[[]| |] r3]; by simplify_eq.
Qed.

Lemma shift_coherent from to db pt r r' :
  coherent r -> PartitionRuleShift from to db pt r = (Ok tt, r') ->
  coherent_on (fun k u => is_Some (file_at r k u)) r'.
Proof.
  intros Hco (n & r1 & H1 & H2)%PartitionRuleShift_Ok.
  destruct (change_Ok _ _ _ _ _ _ _ Hco H1) as (loc & c & c' & i & dir & io & Hne & Hl & Hf & Hsh & Hd & ->).
  eapply (coherent_reload_one _ db n loc r (after r (rSchemas r) (<[loc := c']> (rHeap r))
    (<[db := <[n := Some c']> dir]> (rDisk r)) (S (rVersion r)) io) r' Hco); [by destruct Hl as (_ & _ & -> & _); eauto
    |done|by apply Hco|intros; by eapply is_Some_insert_same|done| | | |exact H2].
  - intros k u Hk. rewrite file_at_write by done. by rewrite decide_False by naive_solver.
  - intros c2. rewrite file_at_write, decide_True by done. intros [= <-].
    rewrite (shift_config_name _ _ _ _ _ _ Hsh). apply Hl.
  - intros k u l c2 Hk Hl2.
    assert (l <> loc).
    { intros ->. destruct Hl as (_ & _ & _ & p1 & _ & E1). destruct Hl2 as (_ & _ & _ & p2 & _ & E2).
      destruct (co_inj _ _ Hco _ _ _ _ _ _ E2 E1 eq_refl). naive_solver. }
    split; [done|]. simpl. by apply list_lookup_insert_ne.
Qed.
End shifting.
