(* ===== verification/RouterProps.v ===== *)
(** * Properties of the router and its administration

    What the methods of Router.v and Frm.v guarantee together: agreement of
    memory and directory, reloading, renaming, shifting a partition, creating
    a hash table and routing through it. *)
From S2P Require Import Prelude GoStd Config Partition Compute Router Frm.
Open Scope string_scope.
Open Scope list_scope.
Open Scope Z_scope.

(** What the rest of the program sees of a table: everything but the address
    of its configuration. *)
Definition view (r : Router) (db t : string)
    : option (string * string * option Partition * option TableConfig) :=
  tb ← table_at r db t;
  Some (tName tb, tShardKey tb, tPartition tb, rHeap r !! tConf tb).

Lemma loaded_view r db t loc c :
  loaded r db t loc c -> exists p, build_partition (rConf r) c = Ok p /\
    view r db t = Some (tcName c, tcShardKey c, Some p, Some c).
Proof.
  intros (_ & Hh & _ & p & Hp & Ht). exists p. split; [done|]. unfold view. rewrite Ht. simpl.
  by rewrite Hh.
Qed.

(** A table looks the same in two coherent routers when its file does. *)
Lemma view_by_file r r' db t :
  coherent r -> coherent r' -> rConf r' = rConf r -> file_at r' db t = file_at r db t ->
  view r' db t = view r db t.
Proof.
  intros Hco Hco' Hc Hf'. destruct (file_at r db t) as [o|] eqn:Hf.
  - destruct (co_in _ _ Hco db t) as (l & c & Hl); [rewrite Hf; eauto|].
    destruct (co_in _ _ Hco' db t) as (l' & c' & Hl'); [rewrite Hf'; eauto|].
    assert (c' = c) as ->.
    { destruct Hl as (_ & _ & E & _), Hl' as (_ & _ & E' & _). congruence. }
    apply loaded_view in Hl as (p & Hp & ->), Hl' as (p' & Hp' & ->). rewrite Hc in Hp'. congruence.
  - unfold view. rewrite (co_out _ _ Hco), (co_out _ _ Hco'); [done|..].
    + rewrite Hf'. by intros [].
    + rewrite Hf. by intros [].
Qed.

Section router_props.
Context `{R : MapRange, !MapRangeOk R}.

Lemma uniform_name_hash conf table key bs pn c :
  HashUniform conf table key bs pn = Ok c -> tcName c = table.
Proof. by intros (? & _ & _ & _ & ->)%HashUniform_inv. Qed.
Lemma uniform_name_global table bs c : GlobalUniform table bs = Ok c -> tcName c = table.
Proof. unfold GlobalUniform. case_decide; [done|]. destruct bs; [done|]. by intros [= <-]. Qed.
Lemma uniform_name_single table bs c : SingleUniform table bs = Ok c -> tcName c = table.
Proof. unfold SingleUniform. case_decide; [done|]. destruct bs; [done|]. by intros [= <-]. Qed.
Lemma uniform_name_list table key defs c : ListUniform table key defs = Ok c -> tcName c = table.
Proof.
  unfold ListUniform. do 2 (case_decide; [done|]).
  destruct (listMergePartition defs); simpl; [|done..]. case_decide; [done|]. by intros [= <-].
Qed.

(** A shift that returned: the table, its configuration before and after, and
    the files. *)
Lemma shift_result from to db pt r r' :
  coherent r -> PartitionRuleShift from to db pt r = (Ok tt, r') ->
  exists n loc c c' i, from <> to /\ loaded r db n loc c /\
    find_part from pt (tcPartitions c) = Some i /\ shift_config to pt n i c = Ok c' /\
    coherent r' /\ rConf r' = rConf r /\
    forall k u, file_at r' k u =
      if decide (k = db /\ u = n) then Some (Some c') else file_at r k u.
Proof.
  intros Hco H. pose proof (PartitionRuleShift_Ok _ _ _ _ _ _ H) as (n & r1 & H1 & H2).
  destruct (change_Ok _ _ _ _ _ _ _ Hco H1)
    as (loc & c & c' & i & dir & io & Hne & Hl & Hfp & Hsh & Hd & ->).
  exists n, loc, c, c', i.
  assert (forall k u, file_at r' k u =
    if decide (k = db /\ u = n) then Some (Some c') else file_at r k u) as Hfile.
  { intros k u. unfold file_at at 1. rewrite (RefreshTable_disk _ _ _ _ H2).
    change (file_at (after r (rSchemas r) (<[loc := c']> (rHeap r))
      (<[db := <[n := Some c']> dir]> (rDisk r)) (S (rVersion r)) io) k u =
      if decide (k = db /\ u = n) then Some (Some c') else file_at r k u).
    by apply file_at_write. }
  split_and!; try done.
  - apply shift_coherent in H; [|done]. eapply coherent_on_iff; [|exact H].
    intros k u. rewrite Hfile. case_decide as Hk; [|done]. destruct Hk as [-> ->].
    destruct Hl as (_ & _ & -> & _). split; eauto.
  - unfold RefreshTable in H2. apply M_bind_inv_Ok in H2 as ([] & r2 & H3 & H4).
    apply loadTable_Ok in H4 as (? & ? & ? & ? & _ & _ & _ & _ & _ & ->).
    destruct (removeTable_inv _ _ _ _ _ H3) as [[-> _]|(? & ? & _ & _ & _ & ->)]; done.
Qed.

(** One administrative call that returns. *)
Lemma coherent_run (op : admin_op) (r r' : Router) :
  coherent r -> admin_run op r = (Ok tt, r') -> coherent r'.
Proof.
  intros Hco. destruct op; simpl.
  - by apply coherent_CreateDatabase.
  - by apply coherent_DropDatabase.
  - unfold CreateNonPartTable. case_decide; [|case_decide; [|done]].
    + revert Hco. apply coherent_create, uniform_name_global.
    + revert Hco. apply coherent_create, uniform_name_single.
  - unfold CreateHashTable. case_decide as Hty; [|done]. intros (r0 & r1 & Hg & H)%M_bind_inv_Ok.
    injection Hg as <- <-. revert Hco H. apply coherent_create, uniform_name_hash.
  - unfold CreateListTable. case_decide as Hty; [|done]. revert Hco.
    apply coherent_create, uniform_name_list.
  - by apply coherent_drop.
  - by apply coherent_rename.
  - intros H. pose proof (RefreshTable_disk _ _ _ _ H) as Hd.
    apply coherent_Refresh in H; [|done]. unfold coherent, file_at in *. by rewrite Hd.
  - intros H. apply coherent_LoadConfig in H; [tauto|by apply coherent_files_named|apply Hco].
  - unfold ReLoad. intros ([] & r1 & H1 & H)%M_bind_inv_Ok. injection H1 as <-.
    apply coherent_LoadConfig in H; [tauto| |apply Hco]. by apply coherent_files_named in Hco.
  - intros (n & loc & c & c' & i & _ & _ & _ & _ & H)%shift_result; [|done]. apply H.
Qed.

Lemma coherent_empty conf io : coherent (NewRouter conf true ∅ io).
Proof.
  split; try done.
  - intros db. simpl. by rewrite !lookup_empty.
  - intros db t [x Hx]. unfold file_at in Hx. simpl in Hx. by rewrite lookup_empty in Hx.
Qed.

Lemma coherent_runs ops r r' :
  coherent r -> miter admin_run ops r = (Ok tt, r') -> coherent r'.
Proof.
  revert r. induction ops as [|op ops IH]; intros r Hco; simpl; [by intros [= <-]|].
  intros ([] & r1 & H1 & H)%M_bind_inv_Ok. eapply IH; [|exact H]. by eapply coherent_run.
Qed.

(** C7: a sequence of administrative calls that return keeps memory and
    directory in agreement: every table in memory has a file with its
    configuration and the partition built from it, there is no other file,
    and no two tables share a configuration object. *)
Theorem admin_coherent (ops : list admin_op) (r r' : Router) :
  coherent r -> miter admin_run ops r = (Ok tt, r') -> coherent r'.
Proof. apply coherent_runs. Qed.

(** Reloading a coherent router from its directory succeeds when the I/O
    calls do and restores what the program saw: the same tables, with the
    same configurations and the same partitions. *)
Theorem reload_roundtrip (r : Router) :
  coherent r -> rIo r = [] ->
  exists r', LoadConfig r = (Ok tt, r') /\ coherent r' /\ forall db t, view r' db t = view r db t.
Proof.
  intros Hco Hio. destruct (LoadConfig_total r Hco Hio) as [r' H]. exists r'. split; [done|].
  apply coherent_LoadConfig in H as (Hco' & Hd & Hc); [|by apply coherent_files_named|apply Hco].
  split; [done|]. intros db t. apply view_by_file; [done..|]. unfold file_at. by rewrite Hd.
Qed.

(** A rename that returns moves the table: the new name holds the old
    configuration with the name changed and the first occurrence of the old
    name replaced in every partition table, in memory and on disk; the old
    name is gone and no other table or file changed. *)
Theorem RenameTable_success db f t r r' :
  coherent r -> RenameTable db f t r = (Ok tt, r') ->
  exists c p0, view r db f = Some (f, tcShardKey c, Some p0, Some c) /\ view r' db f = None /\ file_at r' db f = None /\
    file_at r' db t = Some (Some (rename_config f t c)) /\
    (exists p, build_partition (rConf r) (rename_config f t c) = Ok p /\
       view r' db t = Some (t, tcShardKey c, Some p, Some (rename_config f t c))) /\
    forall db' t', (db', t') <> (db, f) -> (db', t') <> (db, t) ->
      view r' db' t' = view r db' t' /\ file_at r' db' t' = file_at r db' t'.
Proof.
  intros Hco H. pose proof (coherent_rename _ _ _ _ _ Hco H) as Hco'.
  destruct (RenameTable_Ok _ _ _ _ _ Hco H)
    as (loc & c & p & Hne & Hl & Hnone & Hp & Hh & Hcf & Hm & Hd & Hs & Hta & Hfa).
  assert (rHeap r !! loc = Some c) as Hloc by apply Hl.
  pose proof (loaded_view _ _ _ _ _ Hl) as (p0 & _ & Hv). rewrite (proj1 Hl) in Hv.
  exists c, p0. split_and!; [done|..].
  - unfold view. by rewrite Hta, decide_True.
  - by rewrite Hfa, decide_True.
  - rewrite Hfa, decide_False by naive_solver. by rewrite decide_True.
  - exists p. split; [done|]. unfold view. rewrite Hta, decide_False by naive_solver.
    rewrite decide_True by done. simpl. rewrite Hh, list_lookup_insert_eq; [done|].
    by eapply lookup_lt_Some.
  - intros db' t' H1 H2. rewrite Hfa, !decide_False by naive_solver. split; [|done].
    unfold view. rewrite Hta, !decide_False by naive_solver.
    destruct (table_at r db' t') as [tb|] eqn:Hat; [|done]. simpl. rewrite Hh.
    rewrite list_lookup_insert_ne; [done|]. intros Heq.
    destruct Hl as (_ & _ & _ & p1 & _ & E1).
    destruct (co_inj _ _ Hco _ _ _ _ _ _ Hat E1 (eq_sym Heq)). naive_solver.
Qed.

(** A rename to a name that [createTable] refuses returns the error after
    the configuration of the table was edited: the table keeps its old name
    in memory, but its configuration carries the new one, and the file is not
    touched. *)
Theorem RenameTable_failure_edits db f t r :
  coherent r -> is_Some (table_at r db f) -> table_at r db t = None -> f <> t -> ~ name_ok t ->
  exists c p e r', view r db f = Some (f, tcShardKey c, Some p, Some c) /\
    RenameTable db f t r = (Err e, r') /\
    view r' db f = Some (f, tcShardKey c, Some p, Some (rename_config f t c)) /\
    file_at r' db f = Some (Some c) /\ tcName (rename_config f t c) <> f.
Proof.
  intros Hco [tb Hat] Hnone Hne Hbad.
  destruct (co_in _ _ Hco db f) as (loc & c & Hl); [by eapply coherent_has_file|].
  pose proof (loaded_table _ _ _ _ _ _ Hl Hat) as <-.
  pose proof (loaded_view _ _ _ _ _ Hl) as (p & _ & Hv). rewrite (proj1 Hl) in Hv.
  assert (rHeap r !! tConf tb = Some c) as Hc by apply Hl.
  set (r1 := set_heap (<[tConf tb := rename_config f t c]> (rHeap r)) r).
  assert (getRenameTableConfig db f t r = (Ok (tConf tb), r1)) as Hg.
  { unfold getRenameTableConfig, table_at in *.
    destruct (rSchemas r !! db) as [sch|]; [|done]. simpl in Hat, Hnone. rewrite Hat, Hnone.
    unfold mbind, M_bind, deref. by rewrite Hc. }
  assert (exists e, createTable db t (tConf tb) r1 = (Err e, r1)) as [e He].
  { unfold createTable. destruct (Z.ltb_spec NAME_CHAR_LEN
      (Z.of_nat (String.length t) + TABLE_NAME_SUFFIX)); [by eexists|].
    destruct (checkNameInvalid t) eqn:Hi; [by eexists|]. destruct Hbad. by split. }
  exists c, p, e, r1. split_and!; [done| | |apply Hl|done].
  - unfold RenameTable. erewrite M_bind_Ok by exact Hg. by erewrite M_bind_Err.
  - unfold view in *. change (table_at r1 db f) with (table_at r db f). rewrite Hat in Hv |- *.
    simpl in *. injection Hv as -> -> -> _. rewrite list_lookup_insert_eq; [done|].
    by eapply lookup_lt_Some.
Qed.

(** When [changeTheRuleBackend] returns an error the configurations and
    schemas in memory are the ones before the call, also when the file could
    not be written after the change was made. *)
Theorem changeTheRuleBackend_error from to db pt r e r' :
  changeTheRuleBackend from to db pt r = (Err e, r') ->
  rSchemas r' = rSchemas r /\ rHeap r' = rHeap r.
Proof.
  unfold changeTheRuleBackend. case_decide; [by intros [= _ <-]|].
  unfold mbind, M_bind, mget, mlift. destruct (rSchemas r !! db) as [sch|]; [|by intros [= _ <-]].
  destruct (find_rule _ _ _ _) as [[[t i]|]|e0|]; [| |by intros [= _ <-]|done].
  2: { by intros [= _ <-]. }
  unfold deref. destruct (rHeap r !! tConf t) as [c|] eqn:Hc; [|done].
  destruct (shift_config _ _ _ _ _) as [c'|e1|]; [|by intros [= _ <-]|done].
  unfold store at 1, mmodify. unfold mtry. set (r1 := set_heap _ r).
  destruct (writeTableFrmData _ _ _ r1) as [[u|e2|] r2] eqn:Hw.
  - destruct (UpdateVersion_or_panic r2) as [[[]|e3|] r3] eqn:Hv; [done| |done].
    exfalso. unfold UpdateVersion_or_panic, mbind, M_bind, mtry in Hv.
    by destruct (UpdateVersion r2) as [[[]|e4|] r4].
  - destruct (frame_write db (tName t) (Some c') r1) as (Hf1 & Hf2 & _). rewrite Hw in Hf1, Hf2.
    simpl in *. intros [= _ <-]. simpl. rewrite Hf1, Hf2. split; [done|].
    unfold r1; simpl. rewrite list_insert_insert_eq. by apply list_insert_id.
  - done.
Qed.

(** A shift that returns changes one table: a partition of it was on the
    source backend under the given name; in the new configuration that
    partition, and no other, is on the target backend (a global table instead
    gains a partition there); memory, file and routing all use the new
    configuration, and every other table is unchanged. *)
Theorem PartitionRuleShift_moves from to db pt r r' :
  coherent r -> PartitionRuleShift from to db pt r = (Ok tt, r') ->
  exists n c c' i part p', from <> to /\ file_at r db n = Some (Some c) /\
    tcPartitions c !! i = Some part /\ pcBackend part = from /\ pcTable part = pt /\
    (if decide (tcShardType c = MethodTypeGlobal)
     then tcPartitions c' = tcPartitions c ++ [mkPartitionConfig n "" to ""]
     else forall j, tcPartitions c' !! j =
            (if decide (j = i) then set_pcBackend to <$> tcPartitions c !! j else tcPartitions c !! j)) /\
    file_at r' db n = Some (Some c') /\ build_partition (rConf r) c' = Ok p' /\
    view r' db n = Some (n, tcShardKey c', Some p', Some c') /\
    forall k u, (k, u) <> (db, n) -> view r' k u = view r k u /\ file_at r' k u = file_at r k u.
Proof.
  intros Hco (n & loc & c & c' & i & Hne & Hl & Hfp & Hsh & Hco' & Hcf & Hfile)%shift_result; [|done].
  unfold find_part in Hfp. apply fmap_Some in Hfp as ([i' part] & Hfind & ->).
  apply list_find_Some in Hfind as (Hi & [Hb Ht] & _).
  assert (file_at r' db n = Some (Some c')) as Hf' by (by rewrite Hfile, decide_True).
  destruct (co_in _ _ Hco' db n) as (loc' & c2 & Hl'); [rewrite Hf'; eauto|].
  assert (c2 = c') as -> by (destruct Hl' as (_ & _ & E & _); congruence).
  pose proof (loaded_view _ _ _ _ _ Hl') as (p' & Hp' & Hv'). rewrite (proj1 Hl') in Hv'.
  exists n, c, c', i', part, p'. split_and!; try done.
  - apply Hl.
  - unfold shift_config in Hsh. case_decide.
    + case_decide; [done|]. by injection Hsh as <-.
    + injection Hsh as <-. intros j. simpl. case_decide as Hj.
      * subst. by rewrite list_lookup_alter_eq.
      * by rewrite list_lookup_alter_ne.
  - by rewrite <- Hcf.
  - intros k u Hk. assert (file_at r' k u = file_at r k u) as Hsame.
    { rewrite Hfile, decide_False by naive_solver. done. }
    split; [|done]. by apply view_by_file.
Qed.
End router_props.

(** ** Routing *)
Section routing.
Context `{J : JumpHash, !JumpHashOk J}.

(** In a partition with unique range pointers the pointer identifies the
    segment. *)
Lemma seg_id_inj (segs : list Segment) a b :
  NoDup (seg_id <$> segs) -> a ∈ segs -> b ∈ segs -> seg_id a = seg_id b -> a = b.
Proof.
  intros Hnd Ha Hb Heq. apply list_elem_of_lookup in Ha as [i Hi], Hb as [j Hj].
  assert (i = j) as ->; [|congruence].
  eapply (NoDup_lookup _ i j (seg_id a) Hnd); rewrite list_lookup_fmap; [by rewrite Hi|].
  rewrite Hj. simpl. by rewrite Heq.
Qed.

Lemma collect_spec p idx segs out :
  wf_partition p -> segs ⊆ p_GetSegments p -> NoDup (seg_id <$> segs) ->
  collect_segments p idx segs = Ok out ->
  NoDup (seg_id <$> out) /\ out ⊆ p_GetSegments p /\
  forall sg, sg ∈ out <-> sg ∈ segs \/ exists i, i ∈ idx /\ p_GetSegment p i = Ok sg.
Proof.
  intros Hw. revert segs. induction idx as [|i idx IH]; intros segs Hsub Hnd H; cbn [collect_segments] in H.
  { injection H as <-. split_and!; [done..|]. set_solver. }
  destruct (p_GetSegment p i) as [sg| |] eqn:Hg; simpl in H; try done.
  pose proof (p_segment_mem p i sg Hw Hg) as Hmem.
  destruct (existsb _ segs) eqn:He.
  - apply existsb_elem in He as (s & Hs & Heq%bool_decide_eq_true_1).
    assert (s = sg) as ->.
    { eapply (seg_id_inj (p_GetSegments p)); [by apply p_ids_unique|by apply Hsub|done|done]. }
    apply IH in H as (H1 & H2 & H3); [|done..]. split_and!; [done..|].
    intros x. rewrite H3. setoid_rewrite elem_of_cons. split; [naive_solver|].
    intros [?|(k & [->|?] & Hk)]; [by left| |by right; eauto].
    left. by rewrite Hg in Hk; injection Hk as <-.
  - apply IH in H as (H1 & H2 & H3).
    + split_and!; [done..|]. intros x. rewrite H3, elem_of_app, list_elem_of_singleton.
      setoid_rewrite elem_of_cons. split; [naive_solver|].
      intros [?|(k & [->|?] & Hk)]; [naive_solver| |naive_solver].
      rewrite Hg in Hk. injection Hk as <-. naive_solver.
    + intros x. rewrite elem_of_app, list_elem_of_singleton. intros [?| ->]; [by apply Hsub|done].
    + rewrite fmap_app. apply NoDup_app. split_and!; [done| |simpl; apply NoDup_singleton].
      simpl. intros x Hx ->%list_elem_of_singleton.
      apply list_elem_of_fmap in Hx as (s & Heq & Hs).
      apply not_true_iff_false in He. apply He. apply existsb_elem.
      exists s. split; [done|]. by apply bool_decide_eq_true_2.
Qed.

(** [Router.GetSegments] for a non-empty list of indexes returns exactly
    the segments of those indexes, each once, whatever partition method the
    table uses; an index out of range is an error of the method. *)
Theorem GetSegments_distinct r db t tb p idx segs :
  getTable r db t = Ok tb -> tPartition tb = Some p -> wf_partition p -> idx <> [] ->
  GetSegments r db t idx = Ok segs ->
  NoDup (seg_id <$> segs) /\ segs ⊆ p_GetSegments p /\
  forall sg, sg ∈ segs <-> exists i, i ∈ idx /\ p_GetSegment p i = Ok sg.
Proof.
  intros Ht Hp Hw Hi H. unfold GetSegments, partition_of in H. rewrite Ht in H. simpl in H.
  rewrite Hp in H. simpl in H. destruct idx as [|i idx]; [done|].
  apply collect_spec in H as (H1 & H2 & H3); [|done|set_solver|constructor].
  split_and!; [done..|]. intros sg. rewrite H3. set_solver.
Qed.

(** The backends of the generated partitions. *)
Lemma hash_parts_on table B slots blocks sps tps p :
  p ∈ hash_parts table B slots blocks (Z.of_nat (length B)) sps tps -> pcBackend p ∈ B.
Proof.
  unfold hash_parts. intros (s & Hp & Hs)%list_elem_of_bind.
  rewrite bind_singleton in Hp. apply list_elem_of_fmap in Hp as (i & -> & _). simpl.
  apply elem_of_seqZ in Hs. destruct (B !! Z.to_nat s) eqn:HB; simpl.
  - by eapply list_elem_of_lookup_2.
  - apply lookup_ge_None in HB. lia.
Qed.

Lemma create_hash_total db table key backends pn blocks r sch dir :
  db <> "" -> table <> "" -> key <> "" -> name_ok table ->
  rSchemas r !! db = Some sch -> sTables sch !! table = None ->
  rDisk r !! db = Some dir -> rMeta r = true -> rIo r = [] ->
  hash_blocks (rConf r) pn = Ok blocks -> 0 < blocks -> backends <> [] ->
  Z.of_nat (length backends) * blocks <= rcSlots (rConf r) ->
  Z.of_nat (length backends) < rcSlots (rConf r) < 2 ^ 31 ->
  exists tc h r', CreateHashTable db table key TableTypePartitionHash backends pn None r = (Ok tt, r') /\
    table_at r' db table = Some (table_of tc (Some (PHash h)) (length (rHeap r))) /\
    wf_hash32 h /\ Forall (fun sg => sgBackend sg ∈ backends) (Hash.Segments h).
Proof.
  intros Hdb Ht Hk Hok Hs Hn Hd Hm Hio Hb Hpos Hne Hfit Hlen.
  assert (0 < Z.of_nat (length backends)) as H0 by (destruct backends; [done|simpl; lia]).
  destruct (HashUniform_ok (rConf r) table key backends pn blocks) as (tc & Htc & _); try done; [lia|].
  destruct (HashUniform_layout _ _ _ _ _ _ _ Htc Hb Hpos Hfit ltac:(lia)) as (h & HB & Hw & Hsl).
  apply HashUniform_inv in Htc as Htc'. destruct Htc' as (b & Hb' & _ & _ & Heq).
  rewrite Hb in Hb'. injection Hb' as <-.
  assert (build_partition (rConf r) tc = Ok (PHash h)) as Hbuild.
  { assert (tcShardType tc = MethodTypeHash) as Hty by (by rewrite Heq).
    unfold build_partition. rewrite Hty, decide_True by done.
    assert (tcSlots tc = rcSlots (rConf r)) as Hts by (by rewrite Heq). rewrite Hts in *.
    destruct (Z.eqb_spec (rcSlots (rConf r)) 0); [lia|]. by rewrite HB. }
  assert (tcName tc = table) as Hname by (by rewrite Heq).
  exists tc, h. eexists. split_and!; [| |split; [done|lia]|].
  - unfold CreateHashTable. rewrite decide_True by done. erewrite M_bind_Ok by reflexivity.
    unfold create_from. rewrite Htc. erewrite M_bind_Ok by reflexivity.
    erewrite M_bind_Ok by reflexivity. simpl.
    rewrite createTable_name_ok by done. erewrite M_bind_Ok.
    2: { rewrite (addTable_run db _ tc sch); [|done|done| |by rewrite Hname].
         2: { simpl. by rewrite lookup_app_r, Nat.sub_diag by done. }
         simpl. rewrite Hbuild. reflexivity. }
    erewrite M_bind_Ok.
    2: { unfold deref. simpl. rewrite lookup_app_r, Nat.sub_diag by done. reflexivity. }
    erewrite M_bind_Ok.
    2: { unfold mtry, writeTableFrmData, mbind, M_bind, next_io, mget. simpl. rewrite Hio. simpl.
         rewrite Hd. reflexivity. }
    unfold UpdateVersion_or_panic, UpdateVersion, mtry, mbind, M_bind, mget, io_step, next_io.
    simpl. rewrite Hm. unfold mbind, M_bind. simpl. rewrite Hio. reflexivity.
  - unfold table_at, with_table; simpl. rewrite lookup_insert_eq. simpl.
    by rewrite Hname, lookup_insert_eq.
  - apply Build_conf in HB. apply Forall_forall. intros sg Hsg.
    apply (list_elem_of_fmap_2 (fun sg => (sgTable sg, sgBackend sg))) in Hsg. rewrite HB in Hsg.
    apply list_elem_of_fmap in Hsg as (p & [= _ Hbk] & Hp). rewrite Hbk.
    rewrite Heq in Hp. simpl in Hp. rewrite <- (sort_Strings_length backends) in Hp.
    apply hash_parts_on in Hp. by rewrite sort_Strings_perm in Hp.
Qed.

(** C6: creating a hash table succeeds when the database exists in memory and
    on disk, the name is free and every backend can hold a block; afterwards
    a lookup by an integer key returns exactly one segment, the one that
    contains the slot of the key, on one of the given backends, and a lookup
    without a key returns every segment. *)
Theorem CreateHashTable_routes db table key backends pn blocks r sch dir :
  db <> "" -> table <> "" -> key <> "" -> name_ok table ->
  rSchemas r !! db = Some sch -> sTables sch !! table = None ->
  rDisk r !! db = Some dir -> rMeta r = true -> rIo r = [] ->
  hash_blocks (rConf r) pn = Ok blocks -> 0 < blocks -> backends <> [] ->
  Z.of_nat (length backends) * blocks <= rcSlots (rConf r) ->
  Z.of_nat (length backends) < rcSlots (rConf r) < 2 ^ 31 ->
  exists r' all, CreateHashTable db table key TableTypePartitionHash backends pn None r = (Ok tt, r') /\
    Lookup r' db table None None = Ok all /\
    forall v k, svType v = IntVal -> ParseInt0 (svVal v) = Some k ->
      exists i sg, GetIndex r' db table v = Ok i /\ Lookup r' db table (Some v) (Some v) = Ok [sg] /\
        sg ∈ all /\ in_seg i sg /\ sgBackend sg ∈ backends /\
        forall sg', sg' ∈ all -> in_seg i sg' -> sg' = sg.
Proof.
  intros Hdb Ht Hk Hok Hs Hn Hd Hm Hio Hb Hpos Hne Hfit Hlen.
  destruct (create_hash_total db table key backends pn blocks r sch dir)
    as (tc & h & r' & Hr & Hat & [Hw Hsl] & Hback); try done.
  exists r', (Hash.Segments h). split; [done|].
  unfold table_at in Hat. destruct (rSchemas r' !! db) as [sch'|] eqn:Hs'; [|done]. simpl in Hat.
  assert (forall s e, Lookup r' db table s e = Hash.Lookup h s e) as HL.
  { intros s e. unfold Lookup. rewrite !decide_False, Hs', Hat by done. done. }
  split; [by rewrite HL|]. intros v k Hv Hp.
  assert (exists i, Hash.GetIndex h v = Ok i) as [i Hi].
  { unfold Hash.GetIndex. rewrite Hv, Hp. eauto. }
  pose proof (GetIndex_range h v i Hsl Hi) as Hir. exists i, (Hash.slot h i).
  destruct (slot_in h i Hw Hir) as [Hin Hseg]. split_and!; try done.
  - unfold GetIndex, getTable. rewrite !decide_False, Hs', Hat by done. done.
  - rewrite HL. unfold Hash.Lookup. rewrite !decide_True by done. by rewrite Hi.
  - rewrite Forall_forall in Hback. by apply Hback.
  - intros sg' Hin' Hseg'. by apply slot_unique.
Qed.
End routing.

(** ** Concrete instances

    A router with one database, holding a hash table on two backends and a
    global table, made by running the administrative calls. *)
Definition ex_conf : RouterConfig := mkRouterConfig 16 4.
Definition ex_empty : Router := NewRouter ex_conf true ∅ [].
Definition ex_ops : list admin_op :=
  [OpCreateDatabase "db"; OpCreateHash "db" "t" "id" "hash" ["b1"; "b2"] None None;
   OpCreateNonPart "db" "g" "global" ["b1"; "b2"] None].
Definition ex_router : Router := snd (miter admin_run ex_ops ex_empty).
Definition ex_db_only : Router := snd (CreateDatabase "db" ex_empty).

Lemma ex_run : miter admin_run ex_ops ex_empty = (Ok tt, ex_router).
Proof. vm_compute. reflexivity. Qed.

Lemma ex_coherent : coherent ex_router.
Proof. eapply coherent_runs; [apply (coherent_empty ex_conf [])|apply ex_run]. Qed.

Lemma admin_preserves_wf_witness :
  wf_router ex_empty /\ wf_router (snd (admin_run (OpCreateDatabase "db") ex_empty)).
Proof.
  assert (wf_router ex_empty) as H.
  { intros db sch Hs. unfold ex_empty in Hs; simpl in Hs. by rewrite lookup_empty in Hs. }
  split; [exact H|]. apply (admin_preserves_wf (OpCreateDatabase "db") ex_empty H).
Defined.

Lemma admin_coherent_witness : coherent ex_empty /\ coherent ex_router.
Proof.
  split; [apply coherent_empty|].
  apply (admin_coherent ex_ops ex_empty ex_router); [apply coherent_empty|apply ex_run].
Defined.

Lemma reload_roundtrip_witness :
  exists r', LoadConfig ex_router = (Ok tt, r') /\ coherent r' /\
    forall db t, view r' db t = view ex_router db t.
Proof. apply (reload_roundtrip ex_router); [apply ex_coherent|vm_compute; reflexivity]. Defined.

Lemma createTable_success_witness :
  exists r', createTable "db" "t" 0 (set_heap [uniform_example] ex_db_only) = (Ok tt, r') /\
    rVersion r' = 2%nat.
Proof.
  eexists. split; [vm_compute; reflexivity|].
  apply (createTable_success "db" "t" 0 uniform_example (set_heap [uniform_example] ex_db_only));
    vm_compute; reflexivity.
Defined.

Lemma createTable_write_failure_witness :
  exists r', createTable "db" "t" 0 (set_io [IoTorn] (set_heap [uniform_example] ex_db_only))
    = (Err ErrIO, r') /\ rSchemas r' = rSchemas ex_db_only.
Proof.
  eapply (createTable_write_failure "db" "t" 0 uniform_example
    (set_io [IoTorn] (set_heap [uniform_example] ex_db_only)));
    [reflexivity|reflexivity|vm_compute; congruence|reflexivity|vm_compute; reflexivity..].
Defined.

Lemma CreateHashTable_leaks_witness :
  exists r' t, CreateHashTable "db" "t" "id" "hash" nine_backends eight_partitions None
      (set_conf (mkRouterConfig 4096 64) ex_db_only) = (Err (ErrSegUpper 0 4096), r') /\
    table_at r' "db" "t" = Some t /\ tPartition t = None /\
    forall s e, Lookup (J := mod_jump) r' "db" "t" s e = Panic.
Proof.
  eapply (CreateHashTable_leaks (J := mod_jump) "db" "t" "id" nine_backends eight_partitions 512
    (set_conf (mkRouterConfig 4096 64) ex_db_only));
    [done|done|done|split; [vm_compute; congruence|reflexivity]|vm_compute; reflexivity|
     vm_compute; reflexivity|vm_compute; reflexivity|lia|vm_compute; split; reflexivity|
     vm_compute; reflexivity].
Defined.

Lemma RenameTable_success_witness :
  exists r' c, RenameTable "db" "t" "u" ex_router = (Ok tt, r') /\
    file_at r' "db" "u" = Some (Some (rename_config "t" "u" c)) /\ file_at r' "db" "t" = None.
Proof.
  eexists. destruct (RenameTable_success "db" "t" "u" ex_router
    (snd (RenameTable "db" "t" "u" ex_router))) as (c & p0 & _ & _ & H1 & H2 & _);
    [apply ex_coherent|vm_compute; reflexivity|].
  exists c. split; [vm_compute; reflexivity|]. split; [exact H2|exact H1].
Defined.

Lemma RenameTable_failure_edits_witness :
  exists c p e r', view ex_router "db" "t" = Some ("t", tcShardKey c, Some p, Some c) /\
    RenameTable "db" "t" "a b" ex_router = (Err e, r') /\
    view r' "db" "t" = Some ("t", tcShardKey c, Some p, Some (rename_config "t" "a b" c)) /\
    file_at r' "db" "t" = Some (Some c) /\ tcName (rename_config "t" "a b" c) <> "t".
Proof.
  apply (RenameTable_failure_edits "db" "t" "a b" ex_router);
    [apply ex_coherent|vm_compute; eexists; reflexivity|vm_compute; reflexivity|done|].
  intros [_ H]. vm_compute in H. discriminate H.
Defined.

Lemma changeTheRuleBackend_error_witness :
  exists e r', changeTheRuleBackend "b1" "b1" "db" "t_0000" ex_router = (Err e, r') /\
    rSchemas r' = rSchemas ex_router /\ rHeap r' = rHeap ex_router.
Proof.
  eexists _, _. split; [vm_compute; reflexivity|].
  eapply (changeTheRuleBackend_error "b1" "b1" "db" "t_0000" ex_router). vm_compute. reflexivity.
Defined.

Lemma PartitionRuleShift_moves_witness :
  exists r' n c', PartitionRuleShift "b1" "b3" "db" "t_0000" ex_router = (Ok tt, r') /\
    file_at r' "db" n = Some (Some c').
Proof.
  eexists. destruct (PartitionRuleShift_moves "b1" "b3" "db" "t_0000" ex_router
    (snd (PartitionRuleShift "b1" "b3" "db" "t_0000" ex_router)))
    as (n & c & c' & i & part & p' & _ & _ & _ & _ & _ & _ & H & _);
    [apply ex_coherent|vm_compute; reflexivity|].
  exists n, c'. split; [vm_compute; reflexivity|exact H].
Defined.

Lemma CreateHashTable_routes_witness :
  exists r' all, CreateHashTable "db" "t" "id" "hash" ["b1"; "b2"] None None ex_db_only = (Ok tt, r') /\
    Lookup (J := mod_jump) r' "db" "t" None None = Ok all /\
    exists i sg, GetIndex (J := mod_jump) r' "db" "t" (mkSQLVal IntVal "7") = Ok i /\ sg ∈ all /\ in_seg i sg.
Proof.
  destruct (CreateHashTable_routes (J := mod_jump) (JumpHashOk0 := mod_jump_ok) "db" "t" "id" ["b1"; "b2"]
    None 4 ex_db_only (mkSchema "db" ∅) ∅) as (r' & all & H1 & H2 & H3);
    [done|done|done|split; [vm_compute; congruence|reflexivity]|vm_compute; reflexivity|
     vm_compute; reflexivity|vm_compute; reflexivity|vm_compute; reflexivity|vm_compute; reflexivity|
     vm_compute; reflexivity|lia|done|vm_compute; congruence|vm_compute; split; reflexivity|].
  exists r', all. split; [exact H1|]. split; [exact H2|].
  destruct (H3 (mkSQLVal IntVal "7") 7 eq_refl eq_refl) as (i & sg & Hi & _ & Hs & Hin & _).
  exists i, sg. split; [exact Hi|]. split; [exact Hs|exact Hin].
Defined.

Definition ex_hash : Hash.t :=
  match Hash.Build (Some uniform_example) (Hash.New 16) with Ok h => h | _ => Hash.New 16 end.

Lemma ex_hash_wf : wf_hash32 ex_hash.
Proof.
  assert (Hash.Build (Some uniform_example) (Hash.New 16) = Ok ex_hash) as H
    by (vm_compute; reflexivity).
  apply Build_built in H as [H Hs].
  split; [split; [done|]|rewrite Hs; lia]. apply built_covers; [done|].
  apply (bool_decide_unpack _). vm_compute. exact I.
Qed.

Lemma GetSegments_distinct_witness :
  exists segs, GetSegments (J := mod_jump) ex_router "db" "t" [1; 2; 9] = Ok segs /\
    NoDup (seg_id <$> segs) /\ length segs = 2%nat.
Proof.
  eexists. split; [vm_compute; reflexivity|]. split; [|reflexivity].
  eapply (GetSegments_distinct (J := mod_jump) (JumpHashOk0 := mod_jump_ok) ex_router "db" "t" _
    (PHash ex_hash) [1; 2; 9]);
    [vm_compute; reflexivity|vm_compute; reflexivity|exact ex_hash_wf|done|vm_compute; reflexivity].
Defined.
