(* ===== verification/Sql.v ===== *)
(** * Syntax trees of statements (the parts of package sqlparser the planner reads)

    The parser library hands the planner a tree; this file has the node types
    the planner distinguishes, the order in which [sqlparser.Walk] visits a
    tree, and a three-valued semantics of conditions over an abstract domain of
    SQL values ([SqlSem]), against which the planner's rewritings are stated. *)
From S2P Require Import Prelude GoStd Partition.
Open Scope string_scope.
Open Scope list_scope.

(** ** Names *)

(** [sqlparser.TableName]: [Qualifier] is the database. *)
Record TableName := mkTableName { tnName : string; tnQualifier : string }.
Global Instance TableName_eq_dec : EqDecision TableName.
Proof. solve_decision. Defined.

(** [sqlparser.ColName] *)
Record ColName := mkColName { cnName : string; cnQualifier : TableName }.
Global Instance ColName_eq_dec : EqDecision ColName.
Proof. solve_decision. Defined.

(** [ColIdent.EqualString]: case-insensitive. *)
Definition EqualString (name str : string) : bool := bool_decide (ToLower name = ToLower str).

(** [ColName.Equal] *)
Definition ColName_Equal (a b : ColName) : bool :=
  EqualString (cnName a) (cnName b) && bool_decide (cnQualifier a = cnQualifier b).

(** ** Expressions *)

(** [sqlparser.SelectExpr] over expressions [E]. *)
Inductive SelectExprOf (E : Type) :=
| StarExpr (TableName : TableName)
| AliasedExpr (Expr : E) (As : string)
| Nextval.
Arguments StarExpr {E} _.
Arguments AliasedExpr {E} _ _.
Arguments Nextval {E}.

(** The expressions the planner does not look into, with their fields that are
    not expressions. *)
Inductive NodeKind :=
| NotExpr | RangeCond (Operator : string) | IsExpr (Operator : string) | ExistsExpr
| BoolVal (b : bool) | ListArg (arg : string) | BinaryExpr (Operator : string)
| UnaryExpr (Operator : string) | IntervalExpr (Unit : string) | CollateExpr (Charset : string)
| GroupConcatExpr (Distinct Separator : string) | CaseExpr | ValuesFuncExpr (Name : string)
| ConvertExpr (Type_ : string) | ConvertUsingExpr (Type_ : string) | MatchExpr (Option_ : string)
| Default_ (ColName : string).

(** [sqlparser.Expr]; the children of a [Node] and of a [Subquery] are in the
    order in which [Walk] visits them. *)
#[warnings="-register-all"]
Inductive Expr :=
| AndExpr (Left Right : Expr)
| OrExpr (Left Right : Expr)
| ParenExpr (e : Expr)
| ComparisonExpr (Operator : string) (Left Right : Expr) (Escape : option Expr)
| SQLValE (v : SQLVal)
| NullVal
| ColNameE (c : ColName)
| ValTuple (es : list Expr)
| Subquery (kids : list Expr)
| FuncExpr (Name : string) (Distinct : bool) (Exprs : list (SelectExprOf Expr))
| Node (kind : NodeKind) (kids : list Expr).

Abbreviation SelectExpr := (SelectExprOf Expr).

Definition EqualStr : string := "=".
Definition InStr : string := "in".
Definition NullSafeEqualStr : string := "<=>".
Definition IsNullStr : string := "is null".

(** The expressions of a list of select expressions. *)
Fixpoint select_args {E} (l : list (SelectExprOf E)) : list E :=
  match l with
  | [] => []
  | AliasedExpr e _ :: l => e :: select_args l
  | _ :: l => select_args l
  end.

Definition opt_list {A} (o : option A) : list A := match o with Some x => [x] | None => [] end.

(** An induction principle that reaches the lists of children. *)
Section Expr_induction.
Variable P : Expr -> Prop.
Hypothesis HAnd : forall l r, P l -> P r -> P (AndExpr l r).
Hypothesis HOr : forall l r, P l -> P r -> P (OrExpr l r).
Hypothesis HParen : forall e, P e -> P (ParenExpr e).
Hypothesis HCmp : forall op l r esc, P l -> P r -> Forall P (opt_list esc) -> P (ComparisonExpr op l r esc).
Hypothesis HVal : forall v, P (SQLValE v).
Hypothesis HNull : P NullVal.
Hypothesis HCol : forall c, P (ColNameE c).
Hypothesis HTuple : forall es, Forall P es -> P (ValTuple es).
Hypothesis HSub : forall es, Forall P es -> P (Subquery es).
Hypothesis HFunc : forall n d args, Forall P (select_args args) -> P (FuncExpr n d args).
Hypothesis HNode : forall k es, Forall P es -> P (Node k es).

Fixpoint Expr_ind' (e : Expr) : P e :=
  let list_ind := fix list_ind es : Forall P es :=
    match es with [] => List.Forall_nil P | e :: es => List.Forall_cons P e _ (Expr_ind' e) (list_ind es) end in
  match e with
  | AndExpr l r => HAnd l r (Expr_ind' l) (Expr_ind' r)
  | OrExpr l r => HOr l r (Expr_ind' l) (Expr_ind' r)
  | ParenExpr e => HParen e (Expr_ind' e)
  | ComparisonExpr op l r esc =>
      HCmp op l r esc (Expr_ind' l) (Expr_ind' r)
        match esc with
        | Some x => List.Forall_cons P x _ (Expr_ind' x) (List.Forall_nil P)
        | None => List.Forall_nil P
        end
  | SQLValE v => HVal v
  | NullVal => HNull
  | ColNameE c => HCol c
  | ValTuple es => HTuple es (list_ind es)
  | Subquery es => HSub es (list_ind es)
  | FuncExpr n d args =>
      HFunc n d args ((fix args_ind (args : list SelectExpr) : Forall P (select_args args) :=
        match args return Forall P (select_args args) with
        | [] => List.Forall_nil P
        | StarExpr _ :: args => args_ind args
        | AliasedExpr e _ :: args => List.Forall_cons P e _ (Expr_ind' e) (args_ind args)
        | Nextval :: args => args_ind args
        end) args)
  | Node k es => HNode k es (list_ind es)
  end.
End Expr_induction.

(** ** Walking a tree

    [nodes e] is the order in which [sqlparser.Walk] visits the expressions of
    [e] (a node before its children, the fields of a node in the order of the
    generated visitor). *)
Fixpoint nodes (e : Expr) : list Expr :=
  e :: match e with
       | AndExpr l r | OrExpr l r => nodes l ++ nodes r
       | ParenExpr e => nodes e
       | ComparisonExpr _ l r esc =>
           match esc with Some x => nodes x | None => [] end ++ nodes l ++ nodes r
       | SQLValE _ | NullVal | ColNameE _ => []
       | ValTuple es | Subquery es | Node _ es => List.flat_map nodes es
       | FuncExpr _ _ args =>
           List.flat_map (fun a => match a with AliasedExpr e _ => nodes e | _ => [] end) args
       end.

(** [sqlparser.Walk] for the visitors of the planner, which ask to go on or
    return an error. *)
Definition Walk {E A} (visit : A -> Expr -> res E A) (acc : A) (e : Expr) : res E A :=
  res_fold visit acc (nodes e).

(** The column names of an expression, in the order of the walk. *)
Definition col_of (e : Expr) : option ColName := match e with ColNameE c => Some c | _ => None end.
Definition cols_of (e : Expr) : list ColName := omap col_of (nodes e).

Definition is_subquery (e : Expr) : bool := match e with Subquery _ => true | _ => false end.

(** An assignment to every [ColName] node of a tree. *)
Fixpoint map_cols (f : ColName -> ColName) (e : Expr) : Expr :=
  match e with
  | AndExpr l r => AndExpr (map_cols f l) (map_cols f r)
  | OrExpr l r => OrExpr (map_cols f l) (map_cols f r)
  | ParenExpr e => ParenExpr (map_cols f e)
  | ComparisonExpr op l r esc =>
      ComparisonExpr op (map_cols f l) (map_cols f r)
        (match esc with Some x => Some (map_cols f x) | None => None end)
  | SQLValE v => SQLValE v
  | NullVal => NullVal
  | ColNameE c => ColNameE (f c)
  | ValTuple es => ValTuple (List.map (map_cols f) es)
  | Subquery es => Subquery (List.map (map_cols f) es)
  | FuncExpr n d args =>
      FuncExpr n d (List.map (fun a => match a with
                                       | AliasedExpr e as_ => AliasedExpr (map_cols f e) as_
                                       | StarExpr t => StarExpr t
                                       | Nextval => Nextval
                                       end) args)
  | Node k es => Node k (List.map (map_cols f) es)
  end.

(** ** Semantics of conditions *)

(** Conjunction and disjunction with an unknown value, [None]. *)
Definition and3 (a b : option bool) : option bool :=
  match a, b with
  | Some false, _ | _, Some false => Some false
  | Some true, Some true => Some true
  | _, _ => None
  end.
Definition or3 (a b : option bool) : option bool :=
  match a, b with
  | Some true, _ | _, Some true => Some true
  | Some false, Some false => Some false
  | _, _ => None
  end.
Definition and3s (l : list (option bool)) : option bool := foldr and3 (Some true) l.
Definition or3s (l : list (option bool)) : option bool := foldr or3 (Some false) l.

(** The domain of values of the servers, with the comparison [=] and the
    operators the planner leaves alone. *)
Class SqlSem (V : Type) := {
  sem_lit : SQLVal -> V;
  sem_null : V;
  truth : V -> option bool;
  of3 : option bool -> V;
  sem_eq : V -> V -> option bool;
  sem_cmp : string -> V -> V -> option V -> V;
  sem_tuple : list V -> V;
  sem_func : string -> bool -> list (option V) -> V;
  sem_subquery : list V -> V;
  sem_node : NodeKind -> list V -> V
}.

(** A truth value survives its conversion, and [=] is symmetric. *)
Class SqlSemOk (V : Type) `{SqlSem V} := {
  truth_of3 : forall b, truth (of3 b) = b;
  sem_eq_sym : forall a b, sem_eq a b = sem_eq b a
}.

Section eval.
Context {V : Type} `{SS : SqlSem V}.
Variable env : ColName -> V.

Fixpoint eval (e : Expr) : V :=
  match e with
  | AndExpr l r => of3 (and3 (truth (eval l)) (truth (eval r)))
  | OrExpr l r => of3 (or3 (truth (eval l)) (truth (eval r)))
  | ParenExpr e => eval e
  | ComparisonExpr op l r esc =>
      let general := sem_cmp op (eval l) (eval r)
                       (match esc with Some x => Some (eval x) | None => None end) in
      if decide (op = EqualStr) then of3 (sem_eq (eval l) (eval r))
      else if decide (op = InStr) then
        match r with
        | ValTuple es => of3 (or3s (List.map (fun e => sem_eq (eval l) (eval e)) es))
        | _ => general
        end
      else general
  | SQLValE v => sem_lit v
  | NullVal => sem_null
  | ColNameE c => env c
  | ValTuple es => sem_tuple (List.map eval es)
  | Subquery es => sem_subquery (List.map eval es)
  | FuncExpr n d args =>
      sem_func n d (List.map (fun a => match a with AliasedExpr e _ => Some (eval e) | _ => None end) args)
  | Node k es => sem_node k (List.map eval es)
  end.

(** The truth value of a condition. *)
Definition cond (e : Expr) : option bool := truth (eval e).
End eval.

(** Columns that [ColName.Equal] identifies hold the same value. *)
Definition env_ok {V} (env : ColName -> V) : Prop :=
  forall a b, ColName_Equal a b = true -> env a = env b.

(** ** Algebra of the truth values *)
Lemma or3_assoc a b c : or3 (or3 a b) c = or3 a (or3 b c).
Proof. by destruct a as [[]|], b as [[]|], c as [[]|]. Qed.
Lemma or3_comm a b : or3 a b = or3 b a.
Proof. by destruct a as [[]|], b as [[]|]. Qed.
Lemma or3_false_r a : or3 a (Some false) = a.
Proof. by destruct a as [[]|]. Qed.
Lemma or3_false_l a : or3 (Some false) a = a.
Proof. by destruct a as [[]|]. Qed.
Lemma and3_assoc a b c : and3 (and3 a b) c = and3 a (and3 b c).
Proof. by destruct a as [[]|], b as [[]|], c as [[]|]. Qed.
Lemma and3_comm a b : and3 a b = and3 b a.
Proof. by destruct a as [[]|], b as [[]|]. Qed.
Lemma and3_true_r a : and3 a (Some true) = a.
Proof. by destruct a as [[]|]. Qed.

Lemma or3s_app l1 l2 : or3s (l1 ++ l2) = or3 (or3s l1) (or3s l2).
Proof. induction l1 as [|a l1 IH]; simpl; [by destruct (or3s l2) as [[]|]|]. by rewrite IH, or3_assoc. Qed.
Lemma and3s_app l1 l2 : and3s (l1 ++ l2) = and3 (and3s l1) (and3s l2).
Proof. induction l1 as [|a l1 IH]; simpl; [by destruct (and3s l2) as [[]|]|]. by rewrite IH, and3_assoc. Qed.

(** The truth values of a list of conditions do not depend on its order. *)
Global Instance or3s_Proper : Proper (Permutation ==> eq) or3s.
Proof.
  induction 1 as [|a l1 l2 _ IH|a b l|l1 l2 l3 _ IH1 _ IH2]; simpl; [done|by rewrite IH| |congruence].
  by rewrite <- !or3_assoc, (or3_comm b a).
Qed.
Global Instance and3s_Proper : Proper (Permutation ==> eq) and3s.
Proof.
  induction 1 as [|a l1 l2 _ IH|a b l|l1 l2 l3 _ IH1 _ IH2]; simpl; [done|by rewrite IH| |congruence].
  by rewrite <- !and3_assoc, (and3_comm b a).
Qed.

Lemma and3s_true l : and3s l = Some true <-> Forall (eq (Some true)) l.
Proof.
  induction l as [|a l IH]; simpl; [done|]. rewrite Forall_cons, <- IH.
  destruct a as [[]|], (and3s l) as [[]|]; naive_solver.
Qed.

Lemma or3s_true l : or3s l = Some true <-> Some true ∈ l.
Proof.
  induction l as [|a l IH]; simpl; [set_solver|]. rewrite elem_of_cons, <- IH.
  destruct a as [[]|], (or3s l) as [[]|]; naive_solver.
Qed.

(** ** Names are compared by an equivalence *)
Lemma ColName_Equal_spec a b :
  ColName_Equal a b = true <-> ToLower (cnName a) = ToLower (cnName b) /\ cnQualifier a = cnQualifier b.
Proof. unfold ColName_Equal, EqualString. by rewrite andb_true_iff, !bool_decide_eq_true. Qed.

Lemma ColName_Equal_refl a : ColName_Equal a a = true.
Proof. by apply ColName_Equal_spec. Qed.
Lemma ColName_Equal_sym a b : ColName_Equal a b = ColName_Equal b a.
Proof. apply eq_bool_prop_intro. rewrite !Is_true_true, !ColName_Equal_spec. naive_solver. Qed.
Lemma ColName_Equal_trans a b c :
  ColName_Equal a b = true -> ColName_Equal b c = true -> ColName_Equal a c = true.
Proof. rewrite !ColName_Equal_spec. naive_solver congruence. Qed.

(** ** Columns of a rewritten tree *)
Lemma flat_map_Forall {A B C} (g : A -> list B) (h : B -> option C) (P : C -> Prop) (es : list A) :
  Forall (fun e => Forall P (omap h (g e))) es -> Forall P (omap h (List.flat_map g es)).
Proof. induction 1; simpl; [done|]. rewrite omap_app. by apply Forall_app. Qed.

Lemma map_cols_all f (P : ColName -> Prop) e :
  (forall c, P (f c)) -> Forall P (cols_of (map_cols f e)).
Proof.
  intros Hf. unfold cols_of.
  assert (forall es, Forall (fun e => Forall P (omap col_of (nodes (map_cols f e)))) es ->
    Forall P (omap col_of (List.flat_map nodes (List.map (map_cols f) es)))) as Hes.
  { intros es H. apply flat_map_Forall. induction H; constructor; auto. }
  induction e as [l r IHl IHr|l r IHl IHr|e IH|op l r esc IHl IHr IHe|v| |c|es IH|es IH|n d args IH|k es IH]
    using Expr_ind'; simpl; rewrite ?omap_app, ?Forall_app; auto.
  - destruct esc as [x|]; [|by split]. apply Forall_cons in IHe as [IHe _]. by split.
  - apply flat_map_Forall. induction args as [|[t|e a|] args IHa]; simpl in *; constructor; auto.
    + by apply Forall_cons in IH as [? _].
    + apply IHa. by apply Forall_cons in IH as [_ ?].
Qed.
