(* ===== verification/PlanExpr.v ===== *)
(** * Conditions in the planner (src/planner/builder: expr.go, common.go; src/planner: common.go)

    A WHERE clause is split at its ANDs, disjunctions of equalities become IN
    lists, and the equalities and IN lists on the shard key decide which
    segments a statement is sent to. *)
From S2P Require Import Prelude GoStd Config Partition Router Sql.
Open Scope string_scope.
Open Scope list_scope.
Open Scope Z_scope.

(** ** Errors of the planner, one constructor per message *)
Inductive perr :=
| ERouter (e : rerr)
| EUnknownColumn (clause table col : string)
| ESubquery (where_ : string)
| EUpdateShardKey | EMissingWhere | ERowsSubquery | EInsertPartition
| EShardKeyMissing (key : string) | EShardKeyIndex (key : string) (idx : Z) | EShardKeyType (key : string)
| EMethodType (m : string)
| EDeleteMulti | EDeletePartitions | EBadField (db table col clause : string)
| ELimitType | ELimitParse
| EAggregateNested (field : string) | EGroupFunction (f : string) | ESyntaxAt (field : string)
| EGroupConcat | ENextval | EStarCrossShard | EStarWithAggregate | EFunction (f : string)
| EGroupNotCol | EUnknownTable (clause table field : string) | EGroupNotSelected (field : string)
| EGroupNotPlain (field : string) | EDistinct
| EHavingColumn (table col : string) | EHavingAggregate | EHavingFunc (f : string)
| EUnknownField (f : string) | EAggrInSubquery
| EOrderTableInUnion (table : string) | EOrderColumn (col : string) | EOrderAmbiguous (col : string)
| EOrderType | EJoinOn
| ENotUnique (table : string) | EJoinType (join : string) | ELeftJoinFunc (field : string) | EHavingJoin (expr : Expr)
| EUnionColumns | EStatement.

(** An error of the router becomes the planner's. *)
Definition of_router {A} (r : res rerr A) : res perr A :=
  match r with Ok a => Ok a | Err e => Err (ERouter e) | Panic => Panic end.

(** ** Splitting (expr.go) *)

(** [splitAndExpression] *)
Fixpoint splitAndExpression (filters : list Expr) (node : Expr) : list Expr :=
  match node with
  | AndExpr l r => splitAndExpression (splitAndExpression filters l) r
  | ParenExpr ((AndExpr _ _) as inner) => splitAndExpression filters inner
  | _ => filters ++ [node]
  end.

(** [skipParenthesis] *)
Fixpoint skipParenthesis (node : Expr) : Expr :=
  match node with ParenExpr e => skipParenthesis e | _ => node end.

(** [inMap]: the map from the column names of equalities to the values they
    are compared with.  Its keys are pointers; no two of them are names that
    [ColName.Equal] identifies, so [checkColInMap] finds at most one. *)
Definition InMap : Type := list (ColName * list SQLVal).

(** [col := checkColInMap(inMap, lc); inMap[col] = append(inMap[col], val)] *)
Fixpoint add_to_map (col : ColName) (val : SQLVal) (inMap : InMap) : InMap :=
  match inMap with
  | [] => [(col, [val])]
  | (k, vs) :: m =>
      if ColName_Equal col k then (k, vs ++ [val]) :: m else (k, vs) :: add_to_map col val m
  end.

(** The column and the value of an equality between them, in either order. *)
Definition equality_of (e : Expr) : option (ColName * SQLVal) :=
  match e with
  | ComparisonExpr op l r _ =>
      if decide (op = EqualStr) then
        match l with
        | ColNameE lc => match r with SQLValE val => Some (lc, val) | _ => None end
        | _ => match r with
               | ColNameE rc => match l with SQLValE val => Some (rc, val) | _ => None end
               | _ => None
               end
        end
      else None
  | _ => None
  end.

(** [splitOrExpression], with the map passed along. *)
Fixpoint splitOrExpression (node : Expr) (inMap : InMap) : list Expr * InMap :=
  match node with
  | OrExpr l r =>
      let (ls, m1) := splitOrExpression l inMap in
      let (rs, m2) := splitOrExpression r m1 in
      (ls ++ rs, m2)
  | ComparisonExpr _ _ _ _ =>
      match equality_of node with
      | Some (col, val) => ([], add_to_map col val inMap)
      | None => ([node], inMap)
      end
  | ParenExpr e => splitOrExpression (skipParenthesis e) inMap
  | _ => ([node], inMap)
  end.

(** [rebuildOr] *)
Definition rebuildOr (node : option Expr) (expr : Expr) : Expr :=
  match node with None => expr | Some n => OrExpr n expr end.

(** The order in which [range inMap] visits the entries. *)
Class InMapRange := in_range : InMap -> InMap.
Class InMapRangeOk (R : InMapRange) := in_range_perm : forall m, Permutation (in_range m) m.

Section expr.
Context `{IR : InMapRange}.

(** [convertOrToIn]; the loops leave [result] nil only when both lists are
    empty. *)
Definition convertOrToIn (node : Expr) : Expr :=
  match node with
  | OrExpr _ _ =>
      let (subExprs, inMap) := splitOrExpression node [] in
      let ins := (fun kv => ComparisonExpr InStr (ColNameE (fst kv)) (ValTuple (SQLValE <$> snd kv)) None)
                   <$> in_range inMap in
      default node (foldl (fun result e => Some (rebuildOr result e)) None (subExprs ++ ins))
  | _ => node
  end.

(** [nameMatch] *)
Definition nameMatch (node : Expr) (table shardkey : string) : bool :=
  match node with
  | ColNameE c =>
      let t := tnName (cnQualifier c) in
      (bool_decide (t = "") || bool_decide (t = table)) && EqualString (cnName c) shardkey
  | _ => false
  end.

(** ** Referred tables (expr.go, common.go) *)

(** [exprInfo] *)
Record exprInfo := mkExprInfo {
  eiExpr : Expr;
  eiReferTables : list string;
  eiCols : list ColName;
  eiVals : list SQLVal
}.

(** [tableInfo], without its place in the plan tree and in the tree of the
    statement. *)
Record tableInfo := mkTableInfo {
  tiDatabase : string;
  tiTableName : string;
  tiAlias : string;
  tiShardKey : string;
  tiShardType : string;
  tiConfig : TableConfig;
  tiSegments : list Segment
}.

(** [isContainKey] *)
Definition isContainKey (a : list string) (b : string) : bool := bool_decide (b ∈ a).

(** [checkTbInNode] *)
Definition checkTbInNode {A} (referTables : list string) (tbInfos : gmap string A) : bool :=
  forallb (fun tb => bool_decide (is_Some (tbInfos !! tb))) referTables.

Section refer.
Context `{R : MapRange}.

(** [getOneTableInfo] *)
Definition getOneTableInfo (tbInfos : gmap string tableInfo) : string :=
  match map_range tbInfos with (tb, _) :: _ => tb | [] => "" end.

(** The table a column belongs to, with the errors of an unqualified column
    where there is not one table and of an unknown qualifier. *)
Definition refer_table (tbInfos : gmap string tableInfo) (unqualified unknown : perr) (c : ColName) : res perr string :=
  let t := tnName (cnQualifier c) in
  if decide (t = "") then
    if decide (size tbInfos = 1%nat) then Ok (getOneTableInfo tbInfos) else Err unqualified
  else match tbInfos !! t with None => Err unknown | Some _ => Ok t end.

(** [if isContainKey(referTables, t) {...} referTables = append(referTables, t)] *)
Definition add_table (ts : list string) (t : string) : list string :=
  if isContainKey ts t then ts else ts ++ [t].

(** The visitor of [parseWhereOrJoinExprs]. *)
Definition where_visit (tbInfos : gmap string tableInfo) (st : list ColName * list string) (node : Expr)
    : res perr (list ColName * list string) :=
  match node with
  | ColNameE c =>
      t ← refer_table tbInfos (EUnknownColumn "clause" "" (cnName c))
            (EUnknownColumn "clause" (tnName (cnQualifier c)) (cnName c)) c;
      Ok (st.1 ++ [c], add_table st.2 t)
  | Subquery _ => Err (ESubquery "select")
  | _ => Ok st
  end.

(** The values of an IN list when all of its members are literals. *)
Fixpoint tuple_vals (es : list Expr) : option (list SQLVal) :=
  match es with
  | [] => Some []
  | SQLValE v :: es => vs ← tuple_vals es; Some (v :: vs)
  | _ :: _ => None
  end.

(** The body of the loop of [parseWhereOrJoinExprs] after the walk: an
    equality between columns of two tables is a join condition ([inl]), any
    other condition a filter ([inr]), with the values it compares with. *)
Definition classify (filter : Expr) (referTables : list string) (cols : list ColName) : exprInfo + exprInfo :=
  match filter with
  | ComparisonExpr op l r esc =>
      if decide (op = EqualStr) then
        match l, r with
        | ColNameE lc, ColNameE rc =>
            if decide (cnQualifier lc = cnQualifier rc) then inr (mkExprInfo filter referTables cols [])
            else inl (mkExprInfo filter referTables [lc; rc] [])
        | ColNameE _, SQLValE v => inr (mkExprInfo filter referTables cols [v])
        | SQLValE v, ColNameE _ => inr (mkExprInfo (ComparisonExpr op r l esc) referTables cols [v])
        | _, _ => inr (mkExprInfo filter referTables cols [])
        end
      else if decide (op = InStr) then
        match l, r with
        | ColNameE _, ValTuple es => inr (mkExprInfo filter referTables cols (default [] (tuple_vals es)))
        | _, _ => inr (mkExprInfo filter referTables cols [])
        end
      else inr (mkExprInfo filter referTables cols [])
  | _ => inr (mkExprInfo filter referTables cols [])
  end.

(** One iteration of [parseWhereOrJoinExprs]. *)
Definition parse_filter (tbInfos : gmap string tableInfo) (acc : list exprInfo * list exprInfo) (filter : Expr)
    : res perr (list exprInfo * list exprInfo) :=
  let filter := convertOrToIn (skipParenthesis filter) in
  st ← Walk (where_visit tbInfos) ([], []) filter;
  match classify filter st.2 st.1 with
  | inl j => Ok (acc.1 ++ [j], acc.2)
  | inr w => Ok (acc.1, acc.2 ++ [w])
  end.

(** [parseWhereOrJoinExprs]: the join conditions and the filters. *)
Definition parseWhereOrJoinExprs (exprs : Expr) (tbInfos : gmap string tableInfo)
    : res perr (list exprInfo * list exprInfo) :=
  res_fold (parse_filter tbInfos) ([], []) (splitAndExpression [] exprs).

(** [getTbsInExpr] *)
Definition getTbsInExpr (expr : Expr) : list string :=
  foldl add_table [] ((fun c => tnName (cnQualifier c)) <$> cols_of expr).

(** [checkTbName] *)
Definition checkTbName (tbInfos : gmap string tableInfo) (node : Expr) : res perr unit :=
  Walk (fun _ n => match n with
                   | ColNameE c =>
                       let t := tnName (cnQualifier c) in
                       if decide (t = "") then Ok tt
                       else match tbInfos !! t with
                            | None => Err (EUnknownColumn "exprs" t (cnName c))
                            | Some _ => Ok tt
                            end
                   | _ => Ok tt
                   end) tt node.
End refer.

(** ** Routing by the WHERE clause *)
Section lookup.
Context `{J : JumpHash}.

(** The loop over an IN list: the indexes of its values, or [None] when a
    member is not a literal. *)
Fixpoint tuple_indexes (r : Router) (database table : string) (es : list Expr)
    : res rerr (option (list Z)) :=
  match es with
  | [] => Ok (Some [])
  | SQLValE v :: es =>
      idx ← GetIndex r database table v;
      rest ← tuple_indexes r database table es;
      Ok (match rest with Some idxs => Some (idx :: idxs) | None => None end)
  | _ :: _ => Ok None
  end.

(** One iteration of [LookupFromWhere]: the segments it returns, [None] when
    the loop goes on. *)
Definition lookup_filter (r : Router) (database table shardkey : string) (filter : Expr)
    : res rerr (option (list Segment)) :=
  match convertOrToIn (skipParenthesis filter) with
  | ComparisonExpr op l rhs _ =>
      if decide (op = EqualStr) then
        if nameMatch l table shardkey then
          match rhs with
          | SQLValE v => segs ← Lookup r database table (Some v) (Some v); Ok (Some segs)
          | _ => Ok None
          end
        else Ok None
      else if decide (op = InStr) then
        if nameMatch l table shardkey then
          match rhs with
          | ValTuple es =>
              idxs ← tuple_indexes r database table es;
              segs ← match idxs with
                     | Some idxs => GetSegments r database table idxs
                     | None => Lookup r database table None None
                     end;
              Ok (Some segs)
          | _ => Ok None
          end
        else Ok None
      else Ok None
  | _ => Ok None
  end.

(** The loop of [LookupFromWhere]. *)
Fixpoint lookup_filters (r : Router) (database table shardkey : string) (filters : list Expr)
    : res rerr (list Segment) :=
  match filters with
  | [] => Lookup r database table None None
  | f :: fs =>
      found ← lookup_filter r database table shardkey f;
      match found with
      | Some segs => Ok segs
      | None => lookup_filters r database table shardkey fs
      end
  end.

(** [LookupFromWhere] *)
Definition LookupFromWhere (database table shardkey : string) (where_ : option Expr) (r : Router)
    : res rerr (list Segment) :=
  match where_ with
  | Some e =>
      if decide (shardkey = "") then Lookup r database table None None
      else lookup_filters r database table shardkey (splitAndExpression [] e)
  | None => Lookup r database table None None
  end.
End lookup.
End expr.

(** ** Assignments (planner/common.go) *)

(** [hasSubquery] over the expressions of a statement. *)
Definition hasSubquery (es : list Expr) : bool := existsb is_subquery (List.flat_map nodes es).

(** [sqlparser.UpdateExpr] *)
Record UpdateExpr := mkUpdateExpr { ueName : ColName; ueExpr : Expr }.

(** [isUpdateShardKey] *)
Definition isUpdateShardKey (exprs : list UpdateExpr) (shardkey : string) : bool :=
  negb (bool_decide (shardkey = "")) &&
  existsb (fun a => EqualString (cnName (ueName a)) shardkey) exprs.
