(* ===== verification/PlanExprProps.v ===== *)
(** * What the rewriting of conditions and the routing by them guarantee

    The rewritings keep the truth value of every condition, and the segments a
    WHERE clause is routed to contain every row that satisfies it. *)
From S2P Require Import Prelude GoStd Config Partition Compute Router Frm RouterProps Sql PlanExpr.
Open Scope string_scope.
Open Scope list_scope.
Open Scope Z_scope.

Section sem.
Context {V : Type} `{SS : SqlSem V, !SqlSemOk V}.
Variable env : ColName -> V.
Hypothesis Henv : env_ok env.

Lemma skipParenthesis_eval e : eval env (skipParenthesis e) = eval env e.
Proof. by induction e. Qed.

(** ** ANDs *)
Lemma splitAnd_sem e : forall fs,
  and3s (cond env <$> splitAndExpression fs e) = and3 (and3s (cond env <$> fs)) (cond env e).
Proof.
  assert (forall fs e, and3s (cond env <$> (fs ++ [e])) = and3 (and3s (cond env <$> fs)) (cond env e)) as Hsnoc.
  { intros fs e0. rewrite fmap_app, and3s_app. cbn. by rewrite and3_true_r. }
  induction e as [l IHl r IHr| | e IH| | | | | | | |]; intros fs; simpl; try apply Hsnoc.
  - rewrite IHr, IHl, and3_assoc. unfold cond. simpl. by rewrite truth_of3.
  - destruct e; try apply Hsnoc. apply IH.
Qed.

(** ** ORs *)
Definition in_terms (m : InMap) : list (option bool) :=
  kv ← m; (fun v => sem_eq (env (fst kv)) (sem_lit v)) <$> snd kv.

Lemma add_to_map_sem col v m :
  or3s (in_terms (add_to_map col v m)) = or3 (or3s (in_terms m)) (sem_eq (env col) (sem_lit v)).
Proof.
  unfold in_terms. induction m as [|[k vs] m IH]; [by cbn; rewrite or3_false_r; destruct (sem_eq _ _) as [[]|]|].
  simpl add_to_map. destruct (ColName_Equal col k) eqn:Hk; rewrite !bind_cons; cbn [fst snd].
  - rewrite fmap_app, !or3s_app. cbn. rewrite or3_false_r, (Henv _ _ Hk).
    by rewrite !or3_assoc, (or3_comm (sem_eq _ _)).
  - rewrite !or3s_app, IH. by rewrite or3_assoc.
Qed.

Lemma equality_of_sem e c v : equality_of e = Some (c, v) -> cond env e = sem_eq (env c) (sem_lit v).
Proof.
  unfold equality_of, cond. intros H. repeat case_match; simplify_eq; simpl; rewrite truth_of3;
    first [done | apply sem_eq_sym].
Qed.

Lemma splitOr_skip e m : splitOrExpression (skipParenthesis e) m = splitOrExpression e m.
Proof. by destruct e. Qed.

Lemma splitOr_sem e : forall m subs m', splitOrExpression e m = (subs, m') ->
  or3 (or3s (cond env <$> subs)) (or3s (in_terms m')) = or3 (or3s (in_terms m)) (cond env e).
Proof.
  assert (forall e m, or3 (or3s (cond env <$> [e])) (or3s (in_terms m)) = or3 (or3s (in_terms m)) (cond env e)) as H1.
  { intros e0 m. cbn. by rewrite or3_false_r, or3_comm. }
  induction e as [| l IHl r IHr | e IH | op l _ r _ esc | | | | | | |]; intros m subs m' H; simpl in H;
    try (injection H as <- <-; apply H1).
  - destruct (splitOrExpression l m) as [ls m1] eqn:Hl. destruct (splitOrExpression r m1) as [rs m2] eqn:Hr.
    injection H as <- <-. rewrite fmap_app, or3s_app, or3_assoc, (IHr _ _ _ Hr), <- or3_assoc, (IHl _ _ _ Hl).
    rewrite or3_assoc. unfold cond. simpl. by rewrite truth_of3.
  - rewrite splitOr_skip in H. by apply IH.
  - destruct (if decide (op = EqualStr) then _ else None) as [[c v]|] eqn:He; [|injection H as <- <-; apply H1].
    injection H as <- <-. rewrite add_to_map_sem. cbn [fmap list_fmap or3s foldr].
    rewrite (equality_of_sem (ComparisonExpr op l r esc) c v He). apply or3_false_l.
Qed.

Lemma rebuild_sem l : forall a,
  exists b, foldl (fun o e => Some (rebuildOr o e)) (Some a) l = Some b /\
    cond env b = or3 (cond env a) (or3s (cond env <$> l)).
Proof.
  induction l as [|e l IH]; intros a; simpl.
  - exists a. by rewrite or3_false_r.
  - destruct (IH (OrExpr a e)) as (b & -> & Hb). exists b. split; [done|]. rewrite Hb.
    unfold cond at 1. simpl. rewrite truth_of3. apply or3_assoc.
Qed.

Lemma in_list_sem (kv : ColName * list SQLVal) :
  cond env (ComparisonExpr InStr (ColNameE kv.1) (ValTuple (SQLValE <$> kv.2)) None)
  = or3s ((fun v => sem_eq (env kv.1) (sem_lit v)) <$> kv.2).
Proof.
  destruct kv as [k vs]. unfold cond. simpl. rewrite truth_of3. f_equal.
  induction vs as [|v vs IH]; [done|]. simpl. f_equal. apply IH.
Qed.

Lemma in_lists_sem m :
  or3s (cond env <$> ((fun kv => ComparisonExpr InStr (ColNameE (fst kv)) (ValTuple (SQLValE <$> snd kv)) None) <$> m))
  = or3s (in_terms m).
Proof.
  unfold in_terms. induction m as [|kv m IH]; [done|].
  rewrite !fmap_cons, bind_cons, or3s_app, <- IH. simpl. by rewrite in_list_sem.
Qed.

Section range.
Context `{IR : InMapRange, !InMapRangeOk IR}.

Lemma in_terms_range m : or3s (in_terms (in_range m)) = or3s (in_terms m).
Proof. unfold in_terms. by rewrite in_range_perm. Qed.

Lemma convertOrToIn_sem e : cond env (convertOrToIn e) = cond env e.
Proof.
  destruct e as [|l r| | | | | | | | |]; try done. unfold convertOrToIn.
  destruct (splitOrExpression (OrExpr l r) []) as [subs m] eqn:Hs.
  pose proof (splitOr_sem _ _ _ _ Hs) as Hsem. rewrite <- in_terms_range in Hsem.
  rewrite <- in_lists_sem in Hsem. rewrite <- or3s_app, <- fmap_app in Hsem.
  set (all := subs ++ _) in *. destruct all as [|a all]; [done|].
  cbn [foldl rebuildOr]. destruct (rebuild_sem all a) as (b & -> & Hb). cbn [default].
  unfold default, id. rewrite Hb. etrans; [exact Hsem|]. apply or3_false_l.
Qed.

Lemma filter_sem f : cond env (convertOrToIn (skipParenthesis f)) = cond env f.
Proof. rewrite convertOrToIn_sem. unfold cond. by rewrite skipParenthesis_eval. Qed.
End range.
End sem.

(** ** Parsed conditions *)
Section parse.
Context {V : Type} `{SS : SqlSem V, !SqlSemOk V}.
Context `{IR : InMapRange, !InMapRangeOk IR} `{R : MapRange}.
Variable env : ColName -> V.
Hypothesis Henv : env_ok env.

Definition info_of (x : exprInfo + exprInfo) : exprInfo := match x with inl j => j | inr w => w end.

Lemma classify_sem f rt cols : cond env (eiExpr (info_of (classify f rt cols))) = cond env f.
Proof.
  unfold classify. destruct f as [| | |op l r esc| | | | | | |]; try done.
  case_decide; [subst|by repeat case_match].
  destruct l, r; try done; simpl; [|by case_decide].
  unfold cond. simpl. rewrite !truth_of3. apply sem_eq_sym.
Qed.

Lemma parse_sem e tbInfos joins wheres :
  parseWhereOrJoinExprs e tbInfos = Ok (joins, wheres) ->
  and3s (cond env <$> (eiExpr <$> joins ++ wheres)) = cond env e.
Proof.
  intros H. trans (and3s (cond env <$> splitAndExpression [] e)).
  2: { rewrite splitAnd_sem by done. simpl. by destruct (cond env e) as [[]|]. }
  revert H. unfold parseWhereOrJoinExprs.
  apply (res_fold_inv (parse_filter tbInfos)
    (fun fs acc => and3s (cond env <$> (eiExpr <$> acc.1 ++ acc.2)) = and3s (cond env <$> fs))); [done|].
  intros fs f [js ws] acc' IH Hf. unfold parse_filter in Hf.
  destruct (Walk _ _ _) as [[cols rt]| |]; simpl in Hf; try done.
  pose proof (classify_sem (convertOrToIn (skipParenthesis f)) rt cols) as Hc.
  rewrite (filter_sem env Henv) in Hc.
  rewrite (fmap_app _ fs), and3s_app, <- IH. cbn [fmap list_fmap and3s foldr]. rewrite and3_true_r, <- Hc.
  destruct (classify _ rt cols) as [j|w]; injection Hf as <-; cbn [fst snd info_of].
  - rewrite <- (app_assoc js), (Permutation_app_comm [j] ws), app_assoc.
    rewrite (fmap_app eiExpr), fmap_app, and3s_app. cbn. by rewrite and3_true_r.
  - rewrite app_assoc, (fmap_app eiExpr), fmap_app, and3s_app. cbn. by rewrite and3_true_r.
Qed.
End parse.

(** C10: [parseWhereOrJoinExprs] keeps the meaning of a clause: whatever the
    values of the columns, the conjunction of the join conditions and filters it
    returns (disjunctions of equalities turned into IN lists, constants moved to
    the right, parentheses dropped, in any iteration order of the map) has the
    truth value, true, false or unknown, of the clause. *)
Theorem parseWhere_equiv {V} `{SS : SqlSem V, !SqlSemOk V} `{IR : InMapRange, !InMapRangeOk IR} `{R : MapRange}
    (env : ColName -> V) e tbInfos joins wheres :
  env_ok env -> parseWhereOrJoinExprs e tbInfos = Ok (joins, wheres) ->
  and3s (cond env <$> (eiExpr <$> joins ++ wheres)) = cond env e.
Proof. intros Henv. by apply parse_sem. Qed.

(** ** Routing by the WHERE clause *)
Section route.
Context `{J : JumpHash, !JumpHashOk J}.

(** A partition that sends a value to one segment files that segment under the
    index of the value. *)
Lemma point_segment (p : Partition) v sg i sg' :
  p_Lookup p (Some v) (Some v) = Ok [sg] -> p_GetIndex p v = Ok i -> p_GetSegment p i = Ok sg' -> sg' = sg.
Proof.
  destruct p as [h|g|s|l]; cbn; intros Hl Hi Hg.
  - unfold Hash.Lookup in Hl. rewrite !decide_True in Hl by done. unfold Hash.GetSegment in Hg.
    destruct (Hash.GetIndex h v); simplify_eq/=. case_match; naive_solver.
  - injection Hi as <-. done.
  - injection Hi as <-. injection Hl as Hl. unfold Single.GetSegment in Hg. rewrite Hl in Hg. by injection Hg as <-.
  - unfold List_.Lookup in Hl. rewrite !decide_True in Hl by done. unfold List_.GetSegment in Hg.
    destruct (List_.GetIndex l v) as [k| |]; simplify_eq/=. case_match; [done|]. rewrite Hg in Hl. by injection Hl as <-.
Qed.

Lemma getTable_Lookup r db t tb p s e :
  getTable r db t = Ok tb -> tPartition tb = Some p -> Lookup r db t s e = p_Lookup p s e.
Proof.
  unfold getTable, Lookup. intros H Hp. repeat case_match; try done. injection H as ->.
  unfold partition_of. by rewrite Hp.
Qed.

Lemma getTable_GetIndex r db t tb p v :
  getTable r db t = Ok tb -> tPartition tb = Some p -> GetIndex r db t v = p_GetIndex p v.
Proof. unfold GetIndex, partition_of. intros -> Hp. simpl. by rewrite Hp. Qed.

Lemma getTable_GetSegments r db t tb p idxs :
  getTable r db t = Ok tb -> tPartition tb = Some p ->
  GetSegments r db t idxs = match idxs with [] => Ok (p_GetSegments p) | _ => collect_segments p idxs [] end.
Proof. unfold GetSegments, partition_of. intros -> Hp. simpl. by rewrite Hp. Qed.

Lemma collect_total p idxs segs out i :
  collect_segments p idxs segs = Ok out -> i ∈ idxs -> exists sg, p_GetSegment p i = Ok sg.
Proof.
  revert segs. induction idxs as [|k idxs IH]; intros segs H Hi; [set_solver|]. cbn [collect_segments] in H.
  destruct (p_GetSegment p k) as [sg| |] eqn:Hk; simpl in H; try done.
  apply elem_of_cons in Hi as [->|Hi]; eauto.
Qed.

(** The literals of an expression. *)
Definition lit_of (e : Expr) : option SQLVal := match e with SQLValE v => Some v | _ => None end.
Definition literals (e : Expr) : list SQLVal := omap lit_of (nodes e).

Lemma tuple_indexes_spec r db t es idxs v :
  tuple_indexes r db t es = Ok (Some idxs) -> SQLValE v ∈ es ->
  exists i, i ∈ idxs /\ GetIndex r db t v = Ok i.
Proof.
  revert idxs. induction es as [|e es IH]; intros idxs H Hv; [set_solver|].
  destruct e; simpl in H; try done.
  destruct (GetIndex r db t v0) as [i| |] eqn:Hi; simpl in H; try done.
  destruct (tuple_indexes r db t es) as [[is'|]| |] eqn:Hes; simpl in H; try done. injection H as <-.
  apply elem_of_cons in Hv as [[= ->]|Hv]; [exists i; set_solver|].
  destruct (IH _ eq_refl Hv) as (k & Hk & Hgk). exists k. set_solver.
Qed.

Lemma tuple_indexes_lits r db t es idxs :
  tuple_indexes r db t es = Ok (Some idxs) -> Forall (fun e => exists v, e = SQLValE v) es.
Proof.
  revert idxs. induction es as [|e es IH]; intros idxs H; [done|]. destruct e; simpl in H; try done.
  destruct (GetIndex _ _ _ _); simpl in H; try done.
  destruct (tuple_indexes r db t es) as [[is'|]| |]; simpl in H; try done. constructor; eauto.
Qed.

End route.

(** ** The rewritings invent no literals *)
Lemma literals_skip e : literals (skipParenthesis e) = literals e.
Proof. by induction e. Qed.

Lemma literals_and l r : literals (AndExpr l r) = literals l ++ literals r.
Proof. unfold literals. simpl. by rewrite omap_app. Qed.
Lemma literals_or l r : literals (OrExpr l r) = literals l ++ literals r.
Proof. unfold literals. simpl. by rewrite omap_app. Qed.

Lemma splitAnd_literals e : forall fs f, f ∈ splitAndExpression fs e -> f ∈ fs \/ literals f ⊆ literals e.
Proof.
  assert (forall fs e f, f ∈ fs ++ [e] -> f ∈ fs \/ literals f ⊆ literals e) as H1
    by (intros fs e0 f; set_solver).
  induction e as [l IHl r IHr| | e IH| | | | | | | |]; intros fs f Hf; simpl in Hf; try by apply H1.
  - rewrite literals_and. destruct (IHr _ _ Hf) as [[Hl|Hl]%IHl|Hr]; [by left|right; set_solver..].
  - destruct e; try by apply H1. by apply IH.
Qed.

Definition map_vals (m : InMap) : list SQLVal := kv ← m; snd kv.

Lemma add_to_map_vals c v m w : w ∈ map_vals (add_to_map c v m) -> w ∈ map_vals m \/ w = v.
Proof.
  unfold map_vals. induction m as [|[k vs] m IH]; simpl; [set_solver|].
  destruct (ColName_Equal c k); rewrite !bind_cons; simpl; rewrite !elem_of_app; set_solver.
Qed.

Lemma equality_of_literals e c v : equality_of e = Some (c, v) -> v ∈ literals e.
Proof.
  unfold equality_of, literals. intros H. repeat case_match; simplify_eq; simpl; rewrite !omap_app; set_solver.
Qed.

Lemma splitOr_literals e : forall m subs m', splitOrExpression e m = (subs, m') ->
  (forall s, s ∈ subs -> literals s ⊆ literals e) /\
  (forall w, w ∈ map_vals m' -> w ∈ map_vals m \/ w ∈ literals e).
Proof.
  assert (forall e m, (forall s, s ∈ [e] -> literals s ⊆ literals e) /\
    (forall w, w ∈ map_vals m -> w ∈ map_vals m \/ w ∈ literals e)) as H1.
  { intros e0 m. split; [|tauto]. by intros s ->%list_elem_of_singleton. }
  induction e as [| l IHl r IHr | e IH | op l _ r _ esc | | | | | | |]; intros m subs m' H; simpl in H;
    try (injection H as <- <-; apply H1).
  - destruct (splitOrExpression l m) as [ls m1] eqn:Hl. destruct (splitOrExpression r m1) as [rs m2] eqn:Hr.
    injection H as <- <-. rewrite literals_or.
    destruct (IHl _ _ _ Hl) as [A1 A2], (IHr _ _ _ Hr) as [B1 B2]. split.
    + intros s [Hs%A1|Hs%B1]%elem_of_app; set_solver.
    + intros w [[Hw|Hw]%A2|Hw]%B2; rewrite ?elem_of_app; tauto.
  - rewrite splitOr_skip in H. exact (IH _ _ _ H).
  - destruct (if decide (op = EqualStr) then _ else None) as [[c v]|] eqn:He;
      injection H as <- <-; (split; [set_solver|]); [|tauto].
    intros w [Hw| ->]%add_to_map_vals; [by left|right].
    exact (equality_of_literals (ComparisonExpr op l r esc) c v He).
Qed.

Lemma literals_in c vs : literals (ComparisonExpr InStr (ColNameE c) (ValTuple (SQLValE <$> vs)) None) = vs.
Proof. unfold literals. simpl. induction vs as [|v vs IH]; [done|]. simpl. f_equal. exact IH. Qed.

Lemma rebuild_literals (P : SQLVal -> Prop) l : forall o e,
  foldl (fun o e => Some (rebuildOr o e)) o l = Some e ->
  (forall x, o = Some x -> Forall P (literals x)) -> (forall x, x ∈ l -> Forall P (literals x)) ->
  Forall P (literals e).
Proof.
  induction l as [|x l IH]; intros o e; simpl; [naive_solver|]. intros H Ho Hl.
  eapply IH; [exact H| |intros; apply Hl; by right]. intros y [= <-].
  destruct o as [o|]; simpl; [|apply Hl; by left]. rewrite literals_or. apply Forall_app.
  split; [by apply Ho|apply Hl; by left].
Qed.

Lemma convertOrToIn_literals `{IR : InMapRange, !InMapRangeOk IR} e :
  literals (convertOrToIn e) ⊆ literals e.
Proof.
  destruct e as [|l r| | | | | | | | |]; try done. unfold convertOrToIn.
  destruct (splitOrExpression (OrExpr l r) []) as [subs m] eqn:Hs.
  destruct (splitOr_literals _ _ _ _ Hs) as [H1 H2].
  destruct (foldl _ None _) as [e|] eqn:Hf; simpl; [|done].
  intros w Hw. eapply rebuild_literals with (P := fun w => w ∈ literals (OrExpr l r)) in Hf;
    [by eapply Forall_forall in Hf| done|].
  intros x [Hx|Hx]%elem_of_app; apply Forall_forall.
  - intros y. by apply H1.
  - apply list_elem_of_fmap in Hx as ([k vs] & -> & Hk). simpl. rewrite literals_in. intros y Hy.
    rewrite in_range_perm in Hk. destruct (H2 y) as [Hn|]; [|by apply not_elem_of_nil in Hn|done].
    apply list_elem_of_bind. by exists (k, vs).
Qed.

(** ** The routing is complete

    A row whose shard key was written as the literal [v] is stored in the
    segment [sg]. *)
Section stored.
Context `{J : JumpHash, !JumpHashOk J}.
Variables (r : Router) (db t : string) (tb : Table) (p : Partition) (v : SQLVal) (sg : Segment).
Hypothesis Htb : getTable r db t = Ok tb.
Hypothesis Hp : tPartition tb = Some p.
Hypothesis Hwf : wf_partition p.
Hypothesis Hrow : p_Lookup p (Some v) (Some v) = Ok [sg].

Lemma all_segments : sg ∈ p_GetSegments p.
Proof. eapply (p_lookup_sub p); [done..|set_solver]. Qed.

(** A value that compares equal is sent to the same segment. *)
Lemma point_lookup w segs :
  GetIndex r db t w = GetIndex r db t v -> Lookup r db t (Some w) (Some w) = Ok segs -> sg ∈ segs.
Proof.
  rewrite !(getTable_GetIndex _ _ _ _ _ _ Htb Hp), (getTable_Lookup _ _ _ _ _ _ _ Htb Hp). intros Hi Hl.
  pose proof Hrow as Hr. destruct p as [h|g|s|l]; cbn in *.
  - unfold Hash.Lookup in *. rewrite !decide_True in * by done. rewrite Hi in Hl. rewrite Hl in Hr. set_solver.
  - unfold Global_.Lookup in *. injection Hr as Hr. injection Hl as <-. rewrite Hr. set_solver.
  - unfold Single.Lookup in *. injection Hr as Hr. injection Hl as <-. rewrite Hr. set_solver.
  - unfold List_.Lookup in *. rewrite !decide_True in * by done. rewrite Hi in Hl. rewrite Hl in Hr. set_solver.
Qed.

Lemma index_segments w i idxs segs :
  GetIndex r db t w = GetIndex r db t v -> GetIndex r db t w = Ok i -> i ∈ idxs ->
  GetSegments r db t idxs = Ok segs -> sg ∈ segs.
Proof.
  rewrite !(getTable_GetIndex _ _ _ _ _ _ Htb Hp), (getTable_GetSegments _ _ _ _ _ _ Htb Hp).
  intros Hwv Hi Hin Hs. destruct idxs as [|k idxs]; [by apply not_elem_of_nil in Hin|].
  destruct (collect_total _ _ _ _ _ Hs Hin) as [sg' Hsg'].
  apply collect_spec in Hs as (_ & _ & Hs); [|done|set_solver|constructor].
  apply Hs. right. exists i. split; [done|]. rewrite Hsg'. f_equal.
  eapply point_segment; [done| |done]. congruence.
Qed.
End stored.

Section complete.
Context {V : Type} `{SS : SqlSem V, !SqlSemOk V}.
Context `{IR : InMapRange, !InMapRangeOk IR} `{J : JumpHash, !JumpHashOk J}.
Variables (env : ColName -> V) (r : Router) (db t shardkey : string) (tb : Table) (p : Partition).
Variables (v : SQLVal) (sg : Segment) (e : Expr).
Hypothesis Henv : env_ok env.
Hypothesis Htb : getTable r db t = Ok tb.
Hypothesis Hp : tPartition tb = Some p.
Hypothesis Hwf : wf_partition p.
Hypothesis Hrow : p_Lookup p (Some v) (Some v) = Ok [sg].
Hypothesis Hkey : forall c, nameMatch (ColNameE c) t shardkey = true -> env c = sem_lit v.
Hypothesis Hcoh : forall w, w ∈ literals e -> sem_eq (sem_lit v) (sem_lit w) = Some true ->
  GetIndex r db t w = GetIndex r db t v.

Lemma tuple_true es idxs :
  or3s (List.map (fun x => sem_eq (sem_lit v) (eval env x)) es) = Some true ->
  tuple_indexes r db t es = Ok (Some idxs) ->
  exists w, SQLValE w ∈ es /\ sem_eq (sem_lit v) (sem_lit w) = Some true.
Proof.
  intros Ho Ht. apply tuple_indexes_lits in Ht. apply or3s_true in Ho.
  apply list_elem_of_In, List.in_map_iff in Ho as (x & Hx & Hin%list_elem_of_In).
  pose proof Ht as Hlit. rewrite Forall_forall in Hlit. destruct (Hlit _ Hin) as [w ->]. by exists w.
Qed.

Lemma literals_tuple op l es esc w :
  SQLValE w ∈ es -> w ∈ literals (ComparisonExpr op l (ValTuple es) esc).
Proof.
  intros Hw. unfold literals. simpl. rewrite !omap_app, !elem_of_app. right. right. simpl.
  apply list_elem_of_omap. exists (SQLValE w). split; [|done]. apply list_elem_of_In, List.in_flat_map.
  exists (SQLValE w). split; [by apply list_elem_of_In|by left].
Qed.

Lemma lookup_filter_complete f segs :
  literals f ⊆ literals e -> cond env f = Some true ->
  lookup_filter r db t shardkey f = Ok (Some segs) -> sg ∈ segs.
Proof.
  intros Hlit Hc H. rewrite <- (filter_sem env Henv f) in Hc. unfold lookup_filter in H.
  pose proof (convertOrToIn_literals (skipParenthesis f)) as Hsub. rewrite literals_skip in Hsub.
  destruct (convertOrToIn (skipParenthesis f)) as [| | |op l rhs esc| | | | | | |]; try done.
  assert (forall w, w ∈ literals (ComparisonExpr op l rhs esc) -> sem_eq (sem_lit v) (sem_lit w) = Some true ->
    GetIndex r db t w = GetIndex r db t v) as Hc' by (intros w Hw; apply Hcoh; auto).
  destruct (decide (op = EqualStr)) as [->|].
  - destruct (nameMatch l t shardkey) eqn:Hn; [|done]. destruct l; try done. rename c into col.
    destruct rhs; try done. unfold cond in Hc. simpl in Hc. rewrite truth_of3, (Hkey _ Hn) in Hc.
    destruct (Lookup _ _ _ _ _) as [s'| |] eqn:Hl; simplify_eq/=.
    eapply (point_lookup r db t tb p v sg Htb Hp Hwf Hrow); [|exact Hl]. apply Hc'; [|done].
    unfold literals. simpl. rewrite omap_app. set_solver.
  - destruct (decide (op = InStr)) as [->|]; [|done].
    destruct (nameMatch l t shardkey) eqn:Hn; [|done]. destruct l; try done. rename c into col.
    destruct rhs; try done. unfold cond in Hc. simpl in Hc. rewrite truth_of3, (Hkey _ Hn) in Hc.
    destruct (tuple_indexes r db t es) as [[idxs|]| |] eqn:Ht; simpl in H; try done.
    + destruct (GetSegments _ _ _ _) as [s'| |] eqn:Hg; simplify_eq/=.
      destruct (tuple_true _ _ Hc Ht) as (w & Hw & Heq).
      destruct (tuple_indexes_spec _ _ _ _ _ _ Ht Hw) as (i & Hi & Hgi).
      eapply (index_segments r db t tb p v sg Htb Hp Hwf Hrow w i); [|done|exact Hi|exact Hg]. apply Hc'; [by apply literals_tuple|done].
    + destruct (Lookup _ _ _ _ _) as [s'| |] eqn:Hl; simplify_eq/=.
      rewrite (getTable_Lookup _ _ _ _ _ _ _ Htb Hp), (p_lookup_open p) in Hl by auto.
      injection Hl as <-. by eapply all_segments.
Qed.

Lemma lookup_filters_complete fs segs :
  Forall (fun f => literals f ⊆ literals e) fs -> and3s (cond env <$> fs) = Some true ->
  lookup_filters r db t shardkey fs = Ok segs -> sg ∈ segs.
Proof.
  intros Hl Hc. apply and3s_true in Hc. rewrite Forall_fmap in Hc.
  induction Hl as [|f fs Hf _ IH]; intros H; cbn [lookup_filters] in H.
  - rewrite (getTable_Lookup _ _ _ _ _ _ _ Htb Hp), (p_lookup_open p) in H by auto.
    injection H as <-. by eapply all_segments.
  - apply Forall_cons in Hc as [Hcf Hc].
    destruct (lookup_filter r db t shardkey f) as [[s'|]| |] eqn:Hlf; simplify_eq/=; [|by apply IH].
    eapply lookup_filter_complete; [exact Hf|by symmetry|done].
Qed.

Lemma where_complete segs :
  cond env e = Some true -> LookupFromWhere db t shardkey (Some e) r = Ok segs -> sg ∈ segs.
Proof.
  intros Hc H. unfold LookupFromWhere in H. case_decide.
  - rewrite (getTable_Lookup _ _ _ _ _ _ _ Htb Hp), (p_lookup_open p) in H by auto.
    injection H as <-. by eapply all_segments.
  - eapply lookup_filters_complete; [..|exact H].
    + apply Forall_forall. intros f Hf. by destruct (splitAnd_literals _ _ _ Hf) as [?%not_elem_of_nil|].
    + rewrite splitAnd_sem by done. simpl. by rewrite Hc.
Qed.
End complete.

(** [LookupFromWhere] misses no row: when the row's shard key was written
    as the literal [v], stored in segment [sg], and the WHERE clause is true of
    the row, a successful lookup returns [sg] among its segments, whatever the
    clause is.  The values of the clause that compare equal to the key must
    have its index (values of one type do; see [quoted_key_missed]). *)
Theorem LookupFromWhere_complete {V} `{SS : SqlSem V, !SqlSemOk V} `{IR : InMapRange, !InMapRangeOk IR}
    `{J : JumpHash, !JumpHashOk J} (env : ColName -> V) r db t shardkey tb p v sg e segs :
  env_ok env -> getTable r db t = Ok tb -> tPartition tb = Some p -> wf_partition p ->
  p_Lookup p (Some v) (Some v) = Ok [sg] ->
  (forall c, nameMatch (ColNameE c) t shardkey = true -> env c = sem_lit v) ->
  (forall w, w ∈ literals e -> sem_eq (sem_lit v) (sem_lit w) = Some true ->
    GetIndex r db t w = GetIndex r db t v) ->
  cond env e = Some true ->
  LookupFromWhere db t shardkey (Some e) r = Ok segs -> sg ∈ segs.
Proof. intros. by eapply where_complete. Qed.

(** ** A concrete semantics: integers and strings compared as MySQL does *)
Inductive dval := DNull | DInt (z : Z) | DStr (s : string).
Global Instance dval_eq_dec : EqDecision dval.
Proof. solve_decision. Defined.

Definition dval_eq (a b : dval) : option bool :=
  match a, b with
  | DNull, _ | _, DNull => None
  | DInt x, DInt y => Some (x =? y)
  | DStr x, DStr y => Some (bool_decide (x = y))
  | DInt x, DStr s | DStr s, DInt x => Some (default 0 (Atoi s) =? x)
  end.

#[export] Instance dval_sem : SqlSem dval := {
  sem_lit v := match svType v with IntVal => DInt (default 0 (Atoi (svVal v))) | _ => DStr (svVal v) end;
  sem_null := DNull;
  truth v := match v with
             | DNull => None | DInt z => Some (negb (z =? 0))
             | DStr s => Some (negb (default 0 (Atoi s) =? 0)) end;
  of3 b := match b with None => DNull | Some true => DInt 1 | Some false => DInt 0 end;
  sem_eq := dval_eq;
  sem_cmp _ _ _ _ := DNull;
  sem_tuple _ := DNull;
  sem_func _ _ _ := DNull;
  sem_subquery _ := DNull;
  sem_node _ _ := DNull
}.
#[export] Instance dval_sem_ok : SqlSemOk dval.
Proof.
  split; [by intros [[]|]|]. intros [|x|x] [|y|y]; simpl; try done.
  - by rewrite Z.eqb_sym.
  - f_equal. apply bool_decide_ext. split; by intros ->.
Qed.

#[export] Instance in_order_range : InMapRange := fun m => m.
#[export] Instance in_order_range_ok : InMapRangeOk in_order_range.
Proof. intros m. reflexivity. Qed.

(** A row of one table: the column [id] holds [v], every other column NULL. *)
Definition row_env (v : SQLVal) (c : ColName) : dval :=
  if EqualString (cnName c) "id" then sem_lit v else DNull.

Lemma row_env_ok v : env_ok (row_env v).
Proof. intros a b [H _]%ColName_Equal_spec. unfold row_env, EqualString. by rewrite H. Qed.

Lemma row_env_key v t c : nameMatch (ColNameE c) t "id" = true -> row_env v c = sem_lit v.
Proof. unfold row_env. simpl. intros [_ ->]%andb_true_iff. done. Qed.

Definition col (n : string) : Expr := ColNameE (mkColName n (mkTableName "" "")).
Definition int_ (n : string) : Expr := SQLValE (mkSQLVal IntVal n).
Definition str_ (s : string) : Expr := SQLValE (mkSQLVal StrVal s).
Definition eq_ (a b : Expr) : Expr := ComparisonExpr EqualStr a b None.

(** [1 = 1 and (5 = id or id = 7)] *)
Definition ex_where : Expr :=
  AndExpr (eq_ (int_ "1") (int_ "1")) (ParenExpr (OrExpr (eq_ (int_ "5") (col "id")) (eq_ (col "ID") (int_ "7")))).

Definition ex_key : SQLVal := mkSQLVal IntVal "7".
Definition ex_info : tableInfo := mkTableInfo "db" "t" "t" "id" MethodTypeHash uniform_example [].

Lemma parseWhere_equiv_witness :
  exists joins wheres, parseWhereOrJoinExprs ex_where {["t" := ex_info]} = Ok (joins, wheres) /\
    (eiVals <$> wheres) = [[]; [mkSQLVal IntVal "5"; mkSQLVal IntVal "7"]] /\
    and3s (cond (row_env ex_key) <$> (eiExpr <$> joins ++ wheres)) = cond (row_env ex_key) ex_where.
Proof.
  eexists _, _. split; [vm_compute; reflexivity|]. split; [vm_compute; reflexivity|].
  apply (parseWhere_equiv (row_env ex_key) ex_where {["t" := ex_info]}); [apply row_env_ok|].
  vm_compute. reflexivity.
Defined.

#[local] Existing Instance mod_jump.

Lemma LookupFromWhere_complete_witness :
  exists sg segs, p_Lookup (PHash ex_hash) (Some ex_key) (Some ex_key) = Ok [sg] /\
    LookupFromWhere "db" "t" "id" (Some ex_where) ex_router = Ok segs /\ sg ∈ segs.
Proof.
  eexists _, _. split; [vm_compute; reflexivity|]. split; [vm_compute; reflexivity|].
  eapply (LookupFromWhere_complete (JumpHashOk0 := mod_jump_ok) (row_env ex_key)
    ex_router "db" "t" "id" _ (PHash ex_hash) ex_key _ ex_where);
    [apply row_env_ok|vm_compute; reflexivity|vm_compute; reflexivity|exact ex_hash_wf|
     vm_compute; reflexivity|intros c; apply row_env_key| |vm_compute; reflexivity|vm_compute; reflexivity].
  intros w Hw. vm_compute in Hw. repeat (apply elem_of_cons in Hw as [->|Hw]; [vm_compute; first [done|reflexivity]|]).
  by apply not_elem_of_nil in Hw.
Defined.

(** The shard key is hashed by the type of the literal: a row written with
    [id = 7] is not found by [id = '7'], which is true of it. *)
Theorem quoted_key_missed :
  exists sg segs, p_Lookup (PHash ex_hash) (Some ex_key) (Some ex_key) = Ok [sg] /\
    cond (row_env ex_key) (eq_ (col "id") (str_ "7")) = Some true /\
    LookupFromWhere "db" "t" "id" (Some (eq_ (col "id") (str_ "7"))) ex_router = Ok segs /\
    sg ∉ segs.
Proof.
  eexists _, _. split; [vm_compute; reflexivity|]. split; [vm_compute; reflexivity|].
  split; [vm_compute; reflexivity|]. by intros ?%list_elem_of_singleton.
Qed.
