(* ===== verification/PlanDml.v ===== *)
(** * Plans of INSERT, UPDATE and DELETE (src/planner: insert_plan.go, update_plan.go, delete_plan.go, common.go)

    A plan rewrites its statement once per segment it concerns.  The text of a
    statement belongs to the parser library ([SqlPrinter]). *)
From S2P Require Import Prelude GoStd Config Xcontext Partition Router Sql PlanExpr.
Open Scope string_scope.
Open Scope list_scope.
Open Scope Z_scope.

(** ** Statements *)

(** [sqlparser.InsertRows]: rows of values, or a query. *)
Inductive InsertRows := Values_ (rows : list (list Expr)) | SelectRows.

(** [sqlparser.Insert] *)
Record Insert := mkInsert {
  inAction : string; inComments : list string; inIgnore : string;
  inTable : TableName; inPartitions : list string; inColumns : list string;
  inRows : InsertRows; inOnDup : list UpdateExpr
}.

(** [sqlparser.Order], [sqlparser.Limit] *)
Record Order := mkOrder { orExpr : Expr; orDirection : string }.
Record Limit := mkLimit { liOffset : option Expr; liRowcount : option Expr }.

(** [sqlparser.Update] *)
Record Update := mkUpdate {
  upComments : list string; upTable : TableName; upExprs : list UpdateExpr;
  upWhere : option Expr; upOrderBy : list Order; upLimit : option Limit
}.

(** [sqlparser.TableExpr]: a name with its alias, or another reference. *)
Inductive TableExpr := AliasedTableExpr (t : TableName) (As : string) | OtherTableExpr.

(** [sqlparser.Delete] *)
Record Delete := mkDelete {
  deComments : list string; deIsSingleTable : bool; deTableRefs : list TableExpr;
  dePartitions : list string; deWhere : option Expr; deOrderBy : list Order; deLimit : option Limit
}.

(** [sqlparser.String] of a statement and the verb [%v] on its clauses. *)
Class SqlPrinter := {
  String_Insert : Insert -> string;
  String_Delete : Delete -> string;
  fmt_comments : list string -> string;
  fmt_updates : list UpdateExpr -> string;
  fmt_where : option Expr -> string;
  fmt_orderby : list Order -> string;
  fmt_limit : option Limit -> string
}.

Definition limit_exprs (l : option Limit) : list Expr :=
  match l with Some l => opt_list (liOffset l) ++ opt_list (liRowcount l) | None => [] end.

Section plans.
Context `{IR : InMapRange, R : MapRange, J : JumpHash, PR : SqlPrinter}.

(** A query for a segment; a nil range panics. *)
Definition segment_tuple (query : string) (sg : Segment) : res perr QueryTuple :=
  match sgRange sg with
  | Some rg => Ok (mkQueryTuple query (sgBackend sg) (KeyRange_String (rgVal rg)))
  | None => Panic
  end.

(** ** InsertPlan *)

(** [rowsTuple] *)
Record rowsTuple := mkRowsTuple { rtBackend : string; rtTable : string; rtRange : string; rtRows : list (list Expr) }.

Definition set_insert (t : TableName) (rows : InsertRows) (n : Insert) : Insert :=
  mkInsert (inAction n) (inComments n) (inIgnore n) t (inPartitions n) (inColumns n) rows (inOnDup n).

(** The index of the shard key among the columns. *)
Fixpoint shard_index (columns : list string) (shardKey : string) : option nat :=
  match columns with
  | [] => None
  | c :: cs => if EqualString c shardKey then Some 0%nat else S <$> shard_index cs shardKey
  end.

(** One iteration of the loop over the rows. *)
Definition add_row (r : Router) (database table shardKey : string) (idx : nat)
    (rTuples : gmap string rowsTuple) (row : list Expr) : res perr (gmap string rowsTuple) :=
  match row !! idx with
  | None => Err (EShardKeyIndex shardKey (Z.of_nat idx))
  | Some (SQLValE shardVal) =>
      segments ← of_router (Lookup r database table (Some shardVal) (Some shardVal));
      match segments with
      | [] => Panic
      | sg :: _ =>
          match sgRange sg with
          | None => Panic
          | Some rg =>
              let rTuple := default (mkRowsTuple (sgBackend sg) (sgTable sg) (KeyRange_String (rgVal rg)) [])
                              (rTuples !! sgTable sg) in
              Ok (<[sgTable sg := mkRowsTuple (rtBackend rTuple) (rtTable rTuple) (rtRange rTuple)
                                    (rtRows rTuple ++ [row])]> rTuples)
          end
      end
  | Some _ => Err (EShardKeyType shardKey)
  end.

(** The queries of the collected rows, by increasing name of their table. *)
Definition insert_querys (database : string) (node : Insert) (rTuples : gmap string rowsTuple) : list QueryTuple :=
  (fun partTable =>
     let v := default (mkRowsTuple "" "" "" []) (rTuples !! partTable) in
     mkQueryTuple (String_Insert (set_insert (mkTableName partTable database) (Values_ (rtRows v)) node))
       (rtBackend v) (rtRange v))
  <$> sort_Strings (fst <$> map_range rTuples).

(** [InsertPlan.Build] *)
Definition InsertPlan_Build (database : string) (node : Insert) (r : Router) : res perr (list QueryTuple) :=
  match inRows node with
  | SelectRows => Err ERowsSubquery
  | Values_ rows =>
      if decide (inPartitions node = []) then
        let database := if decide (tnQualifier (inTable node) = "") then database else tnQualifier (inTable node) in
        let table := tnName (inTable node) in
        methodType ← of_router (PartitionType r database table);
        if decide (methodType = MethodTypeGlobal \/ methodType = MethodTypeSingle) then
          segments ← of_router (Lookup r database table None None);
          let newNode := set_insert (mkTableName table database) (inRows node) node in
          res_map (segment_tuple (String_Insert newNode)) segments
        else if decide (methodType = MethodTypeHash \/ methodType = MethodTypeList) then
          shardKey ← of_router (ShardKey r database table);
          if isUpdateShardKey (inOnDup node) shardKey then Err EUpdateShardKey
          else match shard_index (inColumns node) shardKey with
               | None => Err (EShardKeyMissing shardKey)
               | Some idx =>
                   rTuples ← res_fold (add_row r database table shardKey idx) ∅ rows;
                   Ok (insert_querys database node rTuples)
               end
        else Err (EMethodType methodType)
      else Err EInsertPartition
  end.

(** ** UpdatePlan *)

(** [UpdatePlan.analyze] *)
Definition UpdatePlan_analyze (node : Update) : res perr unit :=
  let exprs := (u ← upExprs node; [ueExpr u; ColNameE (ueName u)]) ++ limit_exprs (upLimit node)
               ++ (orExpr <$> upOrderBy node) ++ opt_list (upWhere node) in
  if hasSubquery exprs then Err (ESubquery "update")
  else match upWhere node with None => Err EMissingWhere | Some _ => Ok tt end.

(** The rewritten statement, [buf.Myprintf("update %v%s.%s set %v%v%v%v", ...)]. *)
Definition update_query (database : string) (node : Update) (table : string) : string :=
  "update " +:+ fmt_comments (upComments node) +:+ database +:+ "." +:+ table +:+ " set "
  +:+ fmt_updates (upExprs node) +:+ fmt_where (upWhere node) +:+ fmt_orderby (upOrderBy node)
  +:+ fmt_limit (upLimit node).

(** [UpdatePlan.Build] *)
Definition UpdatePlan_Build (database : string) (node : Update) (r : Router) : res perr (list QueryTuple) :=
  _ ← UpdatePlan_analyze node;
  let database := if decide (tnQualifier (upTable node) = "") then database else tnQualifier (upTable node) in
  let table := tnName (upTable node) in
  shardkey ← of_router (ShardKey r database table);
  if isUpdateShardKey (upExprs node) shardkey then Err EUpdateShardKey
  else
    segments ← of_router (LookupFromWhere database table shardkey (upWhere node) r);
    res_map (fun sg => segment_tuple (update_query database node (sgTable sg)) sg) segments.

(** ** DeletePlan *)

(** [checkFieldImpl] *)
Definition checkFieldImpl (database table : string) (node : Expr) (suffix : string) : res perr unit :=
  Walk (fun _ n => match n with
    | ColNameE c =>
        let colDB := tnQualifier (cnQualifier c) in
        let colTbl := tnName (cnQualifier c) in
        if bool_decide (colDB <> "") && bool_decide (colTbl <> "") then
          if bool_decide (colDB <> database) || bool_decide (colTbl <> table)
          then Err (EBadField colDB colTbl (cnName c) suffix) else Ok tt
        else if bool_decide (colDB = "") && bool_decide (colTbl <> "") then
          if bool_decide (colTbl <> table) then Err (EBadField "" colTbl (cnName c) suffix) else Ok tt
        else Ok tt
    | _ => Ok tt
    end) tt node.

(** [checkField] on a DELETE. *)
Definition checkField (database table : string) (node : Delete) : res perr unit :=
  _ ← res_map (fun e => checkFieldImpl database table e "where clause") (opt_list (deWhere node));
  _ ← res_map (fun o => checkFieldImpl database table (orExpr o) "order clause") (deOrderBy node);
  Ok tt.

(** The assignment of [rewriteFieldImpl] to a column. *)
Definition requalify (database partTable : string) (c : ColName) : ColName :=
  mkColName (cnName c) (mkTableName partTable database).

Definition map_order (f : ColName -> ColName) (o : Order) : Order := mkOrder (map_cols f (orExpr o)) (orDirection o).

(** [rewriteField] on a DELETE: the nodes of the tree are changed in place. *)
Definition rewriteField (database partTable : string) (n : Delete) : Delete :=
  let f := requalify database partTable in
  mkDelete (deComments n) (deIsSingleTable n) (deTableRefs n) (dePartitions n)
    (map_cols f <$> deWhere n) (map_order f <$> deOrderBy n) (deLimit n).

Definition set_table (t : TableName) (as_ : string) (n : Delete) : Delete :=
  mkDelete (deComments n) (deIsSingleTable n) [AliasedTableExpr t as_] (dePartitions n)
    (deWhere n) (deOrderBy n) (deLimit n).

(** [DeletePlan.analyze] *)
Definition DeletePlan_analyze (node : Delete) : res perr unit :=
  if negb (deIsSingleTable node) then Err EDeleteMulti
  else if decide (dePartitions node = []) then
    if hasSubquery (limit_exprs (deLimit node) ++ (orExpr <$> deOrderBy node) ++ opt_list (deWhere node))
    then Err (ESubquery "delete") else Ok tt
  else Err EDeletePartitions.

(** The loop over the segments: the one tree is rewritten again for each. *)
Fixpoint delete_querys (database as_ : string) (node : Delete) (segments : list Segment)
    : res perr (list QueryTuple * Delete) :=
  match segments with
  | [] => Ok ([], node)
  | sg :: segments =>
      let node := set_table (mkTableName (sgTable sg) database) as_ (rewriteField database (sgTable sg) node) in
      q ← segment_tuple (String_Delete node) sg;
      qs ← delete_querys database as_ node segments;
      Ok (q :: fst qs, snd qs)
  end.

(** [DeletePlan.Build], with the tree it leaves behind. *)
Definition DeletePlan_Build (database : string) (node : Delete) (r : Router)
    : res perr (list QueryTuple * Delete) :=
  _ ← DeletePlan_analyze node;
  match deTableRefs node with
  | AliasedTableExpr t as_ :: _ =>
      let table := tnName t in
      let database := if decide (tnQualifier t = "") then database else tnQualifier t in
      let newNode := set_table (mkTableName table database) as_ node in
      _ ← checkField database table newNode;
      segments ← match deWhere newNode with
                 | None => of_router (Lookup r database table None None)
                 | Some _ =>
                     shardkey ← of_router (ShardKey r database table);
                     of_router (LookupFromWhere database table shardkey (deWhere newNode) r)
                 end;
      delete_querys database as_ newNode segments
  | _ => Panic
  end.
End plans.
