(* ===== verification/PlanDmlProps.v ===== *)
(** * What the plans of INSERT, UPDATE and DELETE guarantee *)
From S2P Require Import Prelude GoStd Config Xcontext Partition Compute Router Frm RouterProps Sql PlanExpr PlanExprProps PlanDml.
Open Scope string_scope.
Open Scope list_scope.
Open Scope Z_scope.

Lemma of_router_Ok {A} (x : res rerr A) a : of_router x = Ok a <-> x = Ok a.
Proof. destruct x; naive_solver. Qed.

Section insert.
Context `{J : JumpHash, !JumpHashOk J} `{R : MapRange, !MapRangeOk R} `{PR : SqlPrinter}.

(** The segment a row belongs to by the value of its shard key. *)
Definition row_segment (p : Partition) (idx : nat) (row : list Expr) : option Segment :=
  match row !! idx with
  | Some (SQLValE v) => match p_Lookup p (Some v) (Some v) with Ok (sg :: _) => Some sg | _ => None end
  | _ => None
  end.

Definition group (p : Partition) (idx : nat) (rows : list (list Expr)) (sg : Segment) : list (list Expr) :=
  filter (fun row => row_segment p idx row = Some sg) rows.

(** Segments in the order of their tables' names. *)
Definition table_le (a b : Segment) : Prop := str_le (sgTable a) (sgTable b).
#[export] Instance table_le_dec : RelDecision table_le.
Proof. intros a b. unfold table_le. apply _. Defined.

Definition used_segments (p : Partition) (idx : nat) (rows : list (list Expr)) : list Segment :=
  merge_sort table_le (filter (fun sg => group p idx rows sg <> []) (p_GetSegments p)).

Definition range_string (sg : Segment) : string :=
  match sgRange sg with Some rg => KeyRange_String (rgVal rg) | None => "" end.

(** The query that inserts the rows of one segment. *)
Definition insert_query (db : string) (node : Insert) (p : Partition) (idx : nat) (rows : list (list Expr))
    (sg : Segment) : QueryTuple :=
  mkQueryTuple (String_Insert (set_insert (mkTableName (sgTable sg) db) (Values_ (group p idx rows sg)) node))
    (sgBackend sg) (range_string sg).

(** Partitions whose tables have different names and whose segments have a
    range. *)
Definition named_parts (p : Partition) : Prop :=
  NoDup (sgTable <$> p_GetSegments p) /\ Forall (fun sg => is_Some (sgRange sg)) (p_GetSegments p).

Variables (r : Router) (db t : string) (tb : Table) (p : Partition) (idx : nat).
Hypothesis Htb : getTable r db t = Ok tb.
Hypothesis Hp : tPartition tb = Some p.
Hypothesis Hwf : wf_partition p.
Hypothesis Hn : named_parts p.

Lemma row_segment_mem row sg : row_segment p idx row = Some sg -> sg ∈ p_GetSegments p.
Proof.
  unfold row_segment. intros H. repeat case_match; simplify_eq. eapply (p_lookup_sub p); [done..|]. by left.
Qed.

Lemma table_inj a b : a ∈ p_GetSegments p -> b ∈ p_GetSegments p -> sgTable a = sgTable b -> a = b.
Proof.
  destruct Hn as [Hnd _]. intros Ha Hb Heq. apply list_elem_of_lookup in Ha as [i Hi], Hb as [j Hj].
  assert (i = j) as ->; [|congruence].
  eapply (NoDup_lookup _ i j (sgTable a) Hnd); rewrite list_lookup_fmap; [by rewrite Hi|].
  rewrite Hj. simpl. by rewrite Heq.
Qed.

Definition tuple_of (rows : list (list Expr)) (sg : Segment) : rowsTuple :=
  mkRowsTuple (sgBackend sg) (sgTable sg) (range_string sg) (group p idx rows sg).

(** What the map of rows holds after the rows [ys]. *)
Definition rows_inv (ys : list (list Expr)) (m : gmap string rowsTuple) : Prop :=
  forall k rt, m !! k = Some rt <->
    exists sg, sg ∈ p_GetSegments p /\ sgTable sg = k /\ group p idx ys sg <> [] /\ rt = tuple_of ys sg.

(** The row is appended to the tuple of its segment. *)
Definition put_row (m : gmap string rowsTuple) (sg : Segment) (row : list Expr) : gmap string rowsTuple :=
  let rt := default (mkRowsTuple (sgBackend sg) (sgTable sg) (range_string sg) []) (m !! sgTable sg) in
  <[sgTable sg := mkRowsTuple (rtBackend rt) (rtTable rt) (rtRange rt) (rtRows rt ++ [row])]> m.

Lemma add_row_run key m row :
  match row_segment p idx row with
  | Some sg => add_row r db t key idx m row = Ok (put_row m sg row)
  | None => forall m', add_row r db t key idx m row <> Ok m'
  end.
Proof.
  pose proof (row_segment_mem row) as Hmem. destruct Hn as [_ Hr]. unfold add_row, row_segment in *.
  destruct (row !! idx) as [e|]; [|done]. destruct e; try done.
  rewrite (getTable_Lookup _ _ _ _ _ _ _ Htb Hp).
  destruct (p_Lookup p (Some v) (Some v)) as [[|sg segs]| |]; simpl; try done.
  rewrite Forall_forall in Hr. destruct (Hr _ (Hmem _ eq_refl)) as [rg Hrg]. rewrite Hrg.
  unfold put_row, range_string. by rewrite Hrg.
Qed.

Lemma group_snoc ys row sg sg' :
  row_segment p idx row = Some sg' ->
  group p idx (ys ++ [row]) sg = group p idx ys sg ++ (if decide (sg = sg') then [row] else []).
Proof.
  intros H. unfold group. rewrite filter_app. f_equal. case_decide as Hd.
  - subst. by rewrite filter_cons_True.
  - rewrite filter_cons_False; [done|]. rewrite H. congruence.
Qed.

Lemma rows_inv_step ys m row sg :
  row_segment p idx row = Some sg -> rows_inv ys m -> rows_inv (ys ++ [row]) (put_row m sg row).
Proof.
  intros Hrow Hinv k rt. pose proof (row_segment_mem _ _ Hrow) as Hmem. unfold put_row.
  assert (default (mkRowsTuple (sgBackend sg) (sgTable sg) (range_string sg) []) (m !! sgTable sg)
          = tuple_of ys sg) as ->.
  { destruct (m !! sgTable sg) as [rt'|] eqn:Hm; simpl.
    - apply Hinv in Hm as (sg' & Hm' & Ht & _ & ->). by rewrite (table_inj sg' sg).
    - unfold tuple_of. f_equal. destruct (group p idx ys sg) eqn:Hg; [done|].
      exfalso. assert (m !! sgTable sg = Some (tuple_of ys sg)) as Hc; [|congruence].
      apply Hinv. exists sg. by rewrite Hg. }
  destruct (decide (k = sgTable sg)) as [->|Hk].
  - rewrite lookup_insert_eq. split.
    + intros [= <-]. exists sg. rewrite (group_snoc _ _ _ sg) by done. rewrite decide_True by done.
      split_and!; [done..|by intros [_ ?]%app_eq_nil|]. unfold tuple_of. simpl. f_equal.
      rewrite (group_snoc _ _ _ sg) by done. by rewrite decide_True.
    + intros (sg' & Hm' & Ht & _ & ->). rewrite (table_inj sg' sg) by done. unfold tuple_of. simpl.
      do 2 f_equal. rewrite (group_snoc _ _ _ sg) by done. by rewrite decide_True.
  - rewrite lookup_insert_ne by done. rewrite (Hinv k rt). f_equiv; intros sg'. unfold tuple_of.
    destruct (decide (sg' = sg)) as [->|Hne]; [naive_solver|].
    rewrite (group_snoc _ _ _ sg) by done. rewrite decide_False, app_nil_r by done. done.
Qed.

Lemma rows_inv_nil : rows_inv [] ∅.
Proof. intros k rt. rewrite lookup_empty. split; [done|]. by intros (? & _ & _ & ? & _). Qed.

(** The loop returns iff every row has a segment. *)
Lemma add_rows_total key rows :
  Forall (fun row => is_Some (row_segment p idx row)) rows -> forall ys m, rows_inv ys m ->
  exists m', res_fold (add_row r db t key idx) m rows = Ok m' /\ rows_inv (ys ++ rows) m'.
Proof.
  induction 1 as [|row rows [sg Hsg] _ IH]; intros ys m Hm.
  - exists m. by rewrite app_nil_r.
  - pose proof (add_row_run key m row) as Hrun. rewrite Hsg in Hrun. simpl. rewrite Hrun. simpl.
    destruct (IH (ys ++ [row]) (put_row m sg row)) as (m' & H1 & H2); [by apply rows_inv_step|].
    exists m'. split; [done|]. by rewrite <- app_assoc in H2.
Qed.

Lemma add_rows_inv key rows m m' :
  res_fold (add_row r db t key idx) m rows = Ok m' -> Forall (fun row => is_Some (row_segment p idx row)) rows.
Proof.
  revert m. induction rows as [|row rows IH]; intros m H; [done|]. simpl in H.
  pose proof (add_row_run key m row) as Hrun. destruct (row_segment p idx row) as [sg|] eqn:Hs.
  - rewrite Hrun in H. constructor; [by rewrite Hs|]. by eapply IH.
  - destruct (add_row r db t key idx m row) as [m1| |] eqn:Ha; try done. by destruct (Hrun m1).
Qed.

(** ** The queries *)
Lemma used_perm rows :
  used_segments p idx rows ≡ₚ filter (fun sg => group p idx rows sg <> []) (p_GetSegments p).
Proof. apply merge_sort_Permutation. Qed.

Lemma used_mem rows sg :
  sg ∈ used_segments p idx rows <-> sg ∈ p_GetSegments p /\ group p idx rows sg <> [].
Proof. rewrite used_perm, list_elem_of_filter. tauto. Qed.

Lemma used_sorted rows : StronglySorted str_le (sgTable <$> used_segments p idx rows).
Proof.
  apply (StronglySorted_fmap sgTable table_le); [done|]. apply StronglySorted_merge_sort.
  - intros a b c. unfold table_le. apply transitivity.
  - intros a b. unfold table_le. apply total. apply _.
Qed.

Lemma used_NoDup rows : NoDup (used_segments p idx rows).
Proof.
  rewrite used_perm. apply NoDup_filter. destruct Hn as [Hnd _]. by eapply NoDup_fmap_1.
Qed.

Lemma insert_keys rows m :
  rows_inv rows m -> sort_Strings (fst <$> map_range m) = sgTable <$> used_segments p idx rows.
Proof.
  intros Hm. apply (StronglySorted_unique str_le); [apply sort_Strings_sorted|apply used_sorted|].
  rewrite sort_Strings_perm, map_range_perm. apply NoDup_Permutation.
  - apply NoDup_fst_map_to_list.
  - eapply (NoDup_fmap_2_strong sgTable); [|apply used_NoDup].
    intros a b [Ha _]%used_mem [Hb _]%used_mem. by apply table_inj.
  - intros k. rewrite !list_elem_of_fmap. split.
    + intros ([k' rt] & -> & Hk%elem_of_map_to_list). apply Hm in Hk as (sg & Hsg & Ht & Hg & _).
      exists sg. split; [done|]. by apply used_mem.
    + intros (sg & -> & [Hsg Hg]%used_mem). exists (sgTable sg, tuple_of rows sg). split; [done|].
      apply elem_of_map_to_list, Hm. by exists sg.
Qed.

Lemma insert_querys_spec node rows m :
  rows_inv rows m ->
  insert_querys db node m = insert_query db node p idx rows <$> used_segments p idx rows.
Proof.
  intros Hm. unfold insert_querys. rewrite (insert_keys rows m Hm), <- list_fmap_compose.
  apply list_fmap_ext. intros i sg Hsg%list_elem_of_lookup_2. apply used_mem in Hsg as [Hsg Hg].
  cbn. assert (m !! sgTable sg = Some (tuple_of rows sg)) as -> by (apply Hm; by exists sg). done.
Qed.

(** Every row is in the group of its segment, and in no other. *)
Lemma groups_perm rows :
  Forall (fun row => is_Some (row_segment p idx row)) rows ->
  (sg ← used_segments p idx rows; group p idx rows sg) ≡ₚ rows.
Proof.
  intros Hrows.
  assert (forall segs, NoDup segs -> (forall row sg, row ∈ rows -> row_segment p idx row = Some sg -> sg ∈ segs) ->
    (sg ← segs; group p idx rows sg) ≡ₚ rows) as Hgen.
  { induction Hrows as [|row rows [sg Hsg] _ IH]; intros segs Hnd Hin.
    - rewrite bind_nil_all; [done|]. intros. by unfold group.
    - assert (sg ∈ segs) as Hs by (apply (Hin row); [by left|done]).
      apply list_elem_of_split in Hs as (l1 & l2 & ->).
      assert (forall l, sg ∉ l -> (x ← l; group p idx (row :: rows) x) = (x ← l; group p idx rows x)) as Hskip.
      { intros l Hl. induction l as [|x l IHl]; [done|]. rewrite !bind_cons, IHl by set_solver. f_equal.
        unfold group. rewrite filter_cons_False; [done|]. rewrite Hsg. set_solver. }
      apply NoDup_app in Hnd as (Hnd1 & Hd & [Hn2 Hnd2]%NoDup_cons).
      rewrite bind_app, bind_cons, (Hskip l1), (Hskip l2) by set_solver.
      unfold group at 2. rewrite filter_cons_True by done. cbn [app].
      rewrite <- Permutation_middle. f_equiv. fold (group p idx rows sg). rewrite <- bind_cons, <- bind_app.
      apply IH; [|intros; eapply Hin; [by right|done]].
      apply NoDup_app. split_and!; [done|done|]. by constructor. }
  assert (forall row sg, row ∈ rows -> row_segment p idx row = Some sg -> sg ∈ used_segments p idx rows) as Hin.
  { intros row sg Hrow Hsg. apply used_mem. split; [by eapply row_segment_mem|].
    intros Hg. assert (row ∈ group p idx rows sg) as Hin by (by apply list_elem_of_filter).
    rewrite Hg in Hin. by apply not_elem_of_nil in Hin. }
  apply Hgen; [apply used_NoDup|done].
Qed.

Definition insert_db (database : string) (node : Insert) : string :=
  if decide (tnQualifier (inTable node) = "") then database else tnQualifier (inTable node).

(** A statement on the sharded table [t] that the planner can route: a list of
    values without a PARTITION clause, which names the shard key among its
    columns and does not update it ON DUPLICATE KEY. *)
Record insertable (database : string) (node : Insert) (rows : list (list Expr)) : Prop := {
  ib_rows : inRows node = Values_ rows;
  ib_partitions : inPartitions node = [];
  ib_db : insert_db database node = db;
  ib_table : tnName (inTable node) = t;
  ib_sharded : p_Type p = MethodTypeHash \/ p_Type p = MethodTypeList;
  ib_ondup : isUpdateShardKey (inOnDup node) (tShardKey tb) = false;
  ib_index : shard_index (inColumns node) (tShardKey tb) = Some idx
}.

Lemma Build_run database node rows :
  insertable database node rows ->
  InsertPlan_Build database node r =
    (m ← res_fold (add_row r db t (tShardKey tb) idx) ∅ rows; Ok (insert_querys db node m)).
Proof.
  intros [H1 H2 H3 H4 H5 H6 H7]. unfold InsertPlan_Build. rewrite H1, decide_True by done.
  fold (insert_db database node). rewrite H3, H4.
  unfold PartitionType, partition_of, ShardKey. rewrite Htb. cbn [mbind res_bind].
  rewrite Hp. cbn [mbind res_bind of_router].
  rewrite decide_False by (destruct H5 as [->| ->]; intros [?|?]; done).
  rewrite decide_True by done. by rewrite H6, H7.
Qed.

Lemma insert_spec database node rows :
  insertable database node rows -> Forall (fun row => is_Some (row_segment p idx row)) rows ->
  InsertPlan_Build database node r = Ok (insert_query db node p idx rows <$> used_segments p idx rows).
Proof.
  intros Hi Hrows. rewrite (Build_run database node rows Hi).
  destruct (add_rows_total (tShardKey tb) rows Hrows [] ∅ rows_inv_nil) as (m & -> & Hm). simpl.
  f_equal. by apply insert_querys_spec.
Qed.

Lemma insert_routable database node rows qs :
  insertable database node rows -> InsertPlan_Build database node r = Ok qs ->
  Forall (fun row => is_Some (row_segment p idx row)) rows.
Proof.
  intros Hi. rewrite (Build_run database node rows Hi).
  destruct (res_fold _ _ _) as [m| |] eqn:Hf; [|done..]. intros _. by eapply add_rows_inv.
Qed.
End insert.

(** A plan that is built is of such a statement. *)
Lemma built_insertable `{J : JumpHash, R : MapRange, PR : SqlPrinter} r db t tb p database node qs :
  getTable r db t = Ok tb -> tPartition tb = Some p -> p_Type p = MethodTypeHash \/ p_Type p = MethodTypeList ->
  insert_db database node = db -> tnName (inTable node) = t -> InsertPlan_Build database node r = Ok qs ->
  exists idx rows, insertable db t tb p idx database node rows.
Proof.
  intros Htb Hp Hty Hdb Ht H. unfold InsertPlan_Build in H. destruct (inRows node) as [rows|] eqn:Hrows; [|done].
  case_decide as Hparts; [|done]. fold (insert_db database node) in H. rewrite Hdb, Ht in H.
  unfold PartitionType, partition_of, ShardKey in H. rewrite Htb in H. cbn [mbind res_bind] in H.
  rewrite Hp in H. cbn [mbind res_bind of_router] in H.
  rewrite decide_False in H by (destruct Hty as [->| ->]; intros [?|?]; done). rewrite decide_True in H by done.
  destruct (isUpdateShardKey _ _) eqn:Hod; [done|]. destruct (shard_index _ _) as [idx|] eqn:Hidx; [|done].
  by exists idx, rows.
Qed.

(** C13: [InsertPlan.Build] on a table sharded by hash or list, whose
    partitions have different names and ranges (as those of every created table
    have), succeeds exactly when the statement is a list of values without a
    PARTITION clause, names the shard key among its columns, does not update it
    ON DUPLICATE KEY, and every row has a literal shard key that the router
    accepts.  It then sends each row once, unchanged, to the table and backend
    its key is routed to: one query per segment that gets rows, holding them in
    their order, the queries by increasing name of their table. *)
Theorem InsertPlan_partitions `{J : JumpHash, !JumpHashOk J} `{R : MapRange, !MapRangeOk R} `{PR : SqlPrinter}
    r db t tb p database node :
  getTable r db t = Ok tb -> tPartition tb = Some p -> wf_partition p -> named_parts p ->
  p_Type p = MethodTypeHash \/ p_Type p = MethodTypeList -> insert_db database node = db -> tnName (inTable node) = t ->
  let routable := fun idx => Forall (fun row => is_Some (row_segment p idx row)) in
  (forall qs, InsertPlan_Build database node r = Ok qs <->
     exists idx rows, insertable db t tb p idx database node rows /\ routable idx rows /\
       qs = insert_query db node p idx rows <$> used_segments p idx rows) /\
  (forall idx rows, StronglySorted str_le (sgTable <$> used_segments p idx rows) /\
     (routable idx rows -> (sg ← used_segments p idx rows; group p idx rows sg) ≡ₚ rows)).
Proof.
  intros Htb Hp Hwf Hn Hty Hdb Ht. cbn zeta. split.
  - intros qs. split.
    + intros Hb. destruct (built_insertable _ _ _ _ _ _ _ _ Htb Hp Hty Hdb Ht Hb) as (idx & rows & Hi). exists idx, rows.
      pose proof (insert_routable _ _ _ _ _ _ Htb Hp Hwf Hn _ _ _ _ Hi Hb) as Hr. split_and!; [done..|].
      erewrite insert_spec in Hb by done. by injection Hb as <-.
    + intros (idx & rows & Hi & Hr & ->). by apply insert_spec with (t := t) (tb := tb).
  - intros idx rows. split; [apply used_sorted|]. by eapply groups_perm.
Qed.

(** A partition built from a configuration with different table names has
    them, and its segments have ranges. *)
Lemma build_named `{J : JumpHash} conf c p :
  build_partition conf c = Ok p -> NoDup (pcTable <$> tcPartitions c) -> named_parts p.
Proof.
  intros Hb Hnd. unfold named_parts.
  assert (forall segs, (fun sg => (sgTable sg, sgBackend sg)) <$> segs
      ≡ₚ (fun q => (pcTable q, pcBackend q)) <$> tcPartitions c -> NoDup (sgTable <$> segs)) as Htab.
  { intros segs HP. apply (fmap_Permutation fst) in HP. rewrite <- !list_fmap_compose in HP.
    change (sgTable <$> segs ≡ₚ pcTable <$> tcPartitions c) in HP. by rewrite HP. }
  assert (forall rg lv, NoDup (sgTable <$> plain_segments rg lv 0 (tcPartitions c)) /\
      Forall (fun sg => is_Some (sgRange sg)) (plain_segments rg lv 0 (tcPartitions c))) as Hplain.
  { intros rg lv. split.
    - apply Htab. pose proof (plain_segments_conf rg lv 0 (tcPartitions c)) as HE.
      apply (f_equal (fmap fst)) in HE. rewrite <- !list_fmap_compose in HE. by apply Permutation_refl'.
    - apply Forall_lookup. intros i sg. unfold plain_segments. rewrite list_lookup_imap.
      destruct (tcPartitions c !! i); simpl; [|done]. intros [= <-]. by eexists. }
  unfold build_partition in Hb. repeat case_decide; try done.
  - destruct (Hash.Build _ _) as [h| |] eqn:Hh; simplify_eq/=. split.
    + apply Htab. by eapply Build_conf.
    + apply Forall_forall. intros sg Hsg. destruct (Build_built _ _ _ Hh) as [[_ _ _ Hpos _] _].
      specialize (Hpos sg Hsg). unfold seg_start, seg_end in Hpos. destruct (sgRange sg); [done|lia].
  - injection Hb as <-. apply Hplain.
  - injection Hb as <-. apply Hplain.
  - injection Hb as <-. apply Hplain.
Qed.

(** ** UPDATE and DELETE *)
Section update.
Context `{J : JumpHash} `{IR : InMapRange} `{PR : SqlPrinter}.

(** A statement per segment. *)
Definition segment_query (query : string -> string) (sg : Segment) : QueryTuple :=
  mkQueryTuple (query (sgTable sg)) (sgBackend sg) (range_string sg).

Lemma segment_tuple_Ok q sg x :
  segment_tuple q sg = Ok x -> x = mkQueryTuple q (sgBackend sg) (range_string sg).
Proof. unfold segment_tuple, range_string. case_match; naive_solver. Qed.

Lemma segment_tuples_Ok (query : string -> string) segs qs :
  res_map (fun sg => segment_tuple (query (sgTable sg)) sg) segs = Ok qs ->
  qs = segment_query query <$> segs.
Proof.
  rewrite res_map_Ok. induction 1 as [|sg q segs qs Hq _ IH]; [done|].
  rewrite fmap_cons, <- IH. f_equal. by apply segment_tuple_Ok.
Qed.

Definition stmt_db (database : string) (t : TableName) : string :=
  if decide (tnQualifier t = "") then database else tnQualifier t.

(** What a successful UPDATE plan did. *)
Lemma update_inv database node r qs :
  UpdatePlan_Build database node r = Ok qs ->
  let db := stmt_db database (upTable node) in
  exists w shardkey segs, upWhere node = Some w /\ ShardKey r db (tnName (upTable node)) = Ok shardkey /\
    isUpdateShardKey (upExprs node) shardkey = false /\
    LookupFromWhere db (tnName (upTable node)) shardkey (Some w) r = Ok segs /\
    qs = segment_query (update_query db node) <$> segs.
Proof.
  unfold UpdatePlan_Build, UpdatePlan_analyze. intros H. cbn zeta.
  destruct (hasSubquery _); [done|]. destruct (upWhere node) as [w|] eqn:Hw; [|done]. cbn [mbind res_bind] in H.
  fold (stmt_db database (upTable node)) in H.
  destruct (of_router (ShardKey _ _ _)) as [key| |] eqn:Hk; try done. apply of_router_Ok in Hk. cbn [mbind res_bind] in H.
  destruct (isUpdateShardKey _ key) eqn:Hu; [done|].
  destruct (of_router (LookupFromWhere _ _ _ _ _)) as [segs| |] eqn:Hl; try done. apply of_router_Ok in Hl.
  cbn [mbind res_bind] in H. apply segment_tuples_Ok in H. by exists w, key, segs.
Qed.

(** ** The DELETE plan rewrites one tree again and again *)
Lemma map_cols_fuse f g e : map_cols f (map_cols g e) = map_cols (fun c => f (g c)) e.
Proof.
  assert (forall es, Forall (fun e => map_cols f (map_cols g e) = map_cols (fun c => f (g c)) e) es ->
    List.map (map_cols f) (List.map (map_cols g) es) = List.map (map_cols (fun c => f (g c))) es) as Hes.
  { induction 1; simpl; f_equal; auto. }
  induction e as [l r IHl IHr|l r IHl IHr|e IH|op l r esc IHl IHr IHe|v| |c|es IH|es IH|n d args IH|k es IH]
    using Expr_ind'; simpl; f_equal; auto.
  - destruct esc as [x|]; [|done]. by apply Forall_cons in IHe as [-> _].
  - induction args as [|[t|e a|] args IHa]; simpl in *; try (f_equal; by auto).
    apply Forall_cons in IH as [-> IH]. f_equal. by apply IHa.
Qed.

Lemma rewriteField_again db t db' t' n : rewriteField db t (rewriteField db' t' n) = rewriteField db t n.
Proof.
  unfold rewriteField. simpl. f_equal.
  - destruct (deWhere n); simpl; [|done]. by rewrite map_cols_fuse.
  - rewrite <- list_fmap_compose. apply list_fmap_ext. intros i o _. unfold map_order. simpl. by rewrite map_cols_fuse.
Qed.

(** The statement for one segment, from the original tree. *)
Definition delete_node (db as_ : string) (node : Delete) (table : string) : Delete :=
  set_table (mkTableName table db) as_ (rewriteField db table node).

Lemma delete_node_again db as_ n t t' : delete_node db as_ (delete_node db as_ n t') t = delete_node db as_ n t.
Proof.
  change (set_table (mkTableName t db) as_ (rewriteField db t (rewriteField db t' n)) = delete_node db as_ n t).
  by rewrite rewriteField_again.
Qed.

Lemma delete_querys_inv db as_ node0 segs : forall node qs n',
  (forall t, delete_node db as_ node t = delete_node db as_ node0 t) ->
  delete_querys db as_ node segs = Ok (qs, n') ->
  qs = segment_query (fun t => String_Delete (delete_node db as_ node0 t)) <$> segs.
Proof.
  induction segs as [|sg segs IH]; intros node qs n' Hnode H; simpl in H; [by simplify_eq|].
  fold (delete_node db as_ node (sgTable sg)) in H. rewrite Hnode in H.
  destruct (segment_tuple _ sg) as [q| |] eqn:Hq; simpl in H; try done.
  destruct (delete_querys _ _ _ segs) as [[qs' n1]| |] eqn:Hd; simplify_eq/=. f_equal.
  - by apply segment_tuple_Ok in Hq.
  - eapply IH; [|exact Hd]. intros t. apply delete_node_again.
Qed.
End update.

Section delete.
Context `{J : JumpHash} `{IR : InMapRange} `{PR : SqlPrinter}.

(** The segments a DELETE goes to. *)
Definition delete_segments (r : Router) (db table : string) (where_ : option Expr) : res rerr (list Segment) :=
  match where_ with
  | None => Lookup r db table None None
  | Some _ => shardkey ← ShardKey r db table; LookupFromWhere db table shardkey where_ r
  end.

(** The columns of the clauses that are rewritten. *)
Definition delete_cols (n : Delete) : list ColName :=
  (e ← opt_list (deWhere n) ++ (orExpr <$> deOrderBy n); cols_of e).

Lemma delete_node_cols db as_ n t :
  Forall (fun c => cnQualifier c = mkTableName t db) (delete_cols (delete_node db as_ n t)).
Proof.
  apply Forall_forall. intros c (e & Hc & He)%list_elem_of_bind.
  assert (exists e', e = map_cols (requalify db t) e') as [e' ->].
  { apply elem_of_app in He as [He|He].
    - simpl in He. destruct (deWhere n) as [w|]; simpl in He; [|by apply not_elem_of_nil in He].
      apply list_elem_of_singleton in He as ->. eauto.
    - simpl in He. apply list_elem_of_fmap in He as (o & -> & Ho).
      apply list_elem_of_fmap in Ho as (o' & -> & _). simpl. eauto. }
  revert c Hc. apply Forall_forall. by apply map_cols_all.
Qed.

Lemma delete_inv database node r qs n' :
  DeletePlan_Build database node r = Ok (qs, n') ->
  exists t as_ rest segs, deTableRefs node = AliasedTableExpr t as_ :: rest /\
    let db := stmt_db database t in
    delete_segments r db (tnName t) (deWhere node) = Ok segs /\
    qs = segment_query (fun x => String_Delete (delete_node db as_ node x)) <$> segs.
Proof.
  unfold DeletePlan_Build. intros H. destruct (DeletePlan_analyze node); cbn [mbind res_bind] in H; try done.
  destruct (deTableRefs node) as [|[t as_|] rest] eqn:Ht; try done.
  fold (stmt_db database t) in H. set (db := stmt_db database t) in *.
  destruct (checkField _ _ _); cbn [mbind res_bind] in H; try done.
  assert (forall x, (match deWhere (set_table (mkTableName (tnName t) db) as_ node) with
    | Some _ => shardkey ← of_router (ShardKey r db (tnName t));
                of_router (LookupFromWhere db (tnName t) shardkey
                             (deWhere (set_table (mkTableName (tnName t) db) as_ node)) r)
    | None => of_router (Lookup r db (tnName t) None None) end) = Ok x ->
    delete_segments r db (tnName t) (deWhere node) = Ok x) as Hseg.
  { intros x Hx. unfold delete_segments. simpl in Hx.
    destruct (deWhere node); [|by apply of_router_Ok].
    destruct (ShardKey r db (tnName t)); simpl in *; try done. by apply of_router_Ok. }
  destruct (match deWhere _ with Some _ => _ | None => _ end) as [segs| |]; cbn [mbind res_bind] in H; try done.
  exists t, as_, rest, segs. split; [done|]. cbn zeta. split; [by apply Hseg|].
  eapply (delete_querys_inv db as_ node) in H; [done|]. reflexivity.
Qed.
End delete.

(** [DeletePlan.Build] sends one query per segment of its WHERE clause (or
    of the table), in that order; although one shared tree is rewritten for each
    segment in turn, the query of a segment is the original statement with the
    segment's table and with every column of WHERE and ORDER BY qualified by it. *)
Theorem DeletePlan_rewrites `{J : JumpHash} `{IR : InMapRange} `{PR : SqlPrinter} database node r qs n' :
  DeletePlan_Build database node r = Ok (qs, n') ->
  exists t as_ rest segs, deTableRefs node = AliasedTableExpr t as_ :: rest /\
    let db := stmt_db database t in
    delete_segments r db (tnName t) (deWhere node) = Ok segs /\
    qs = segment_query (fun x => String_Delete (delete_node db as_ node x)) <$> segs /\
    Forall (fun sg => Forall (fun c => cnQualifier c = mkTableName (sgTable sg) db)
      (delete_cols (delete_node db as_ node (sgTable sg)))) segs.
Proof.
  intros (t & as_ & rest & segs & H1 & H2 & H3)%delete_inv. exists t, as_, rest, segs.
  split; [done|]. cbn zeta. split_and!; [done..|]. apply Forall_forall. intros sg _. apply delete_node_cols.
Qed.

(** ** What is written is found *)
Section found.
Context {V : Type} `{SS : SqlSem V, !SqlSemOk V} `{IR : InMapRange, !InMapRangeOk IR}.
Context `{J : JumpHash, !JumpHashOk J} `{R : MapRange, !MapRangeOk R} `{PR : SqlPrinter}.

(** The shard key of a row, as a literal. *)
Definition row_key (idx : nat) (row : list Expr) : option SQLVal :=
  match row !! idx with Some (SQLValE v) => Some v | _ => None end.

Lemma sharded_point (p : Partition) v segs :
  p_Type p = MethodTypeHash \/ p_Type p = MethodTypeList ->
  p_Lookup p (Some v) (Some v) = Ok segs -> exists sg, segs = [sg].
Proof.
  destruct p as [h|g|s|l]; intros Ht; try (by destruct Ht); cbn.
  - unfold Hash.Lookup. rewrite !decide_True by done. destruct (Hash.GetIndex h v); naive_solver.
  - unfold List_.Lookup. rewrite !decide_True by done. destruct (List_.GetIndex l v); simpl; try done.
    destruct (slice_index _ _); naive_solver.
Qed.

Variables (env : ColName -> V) (r : Router) (db t : string) (tb : Table) (p : Partition) (idx : nat).
Hypothesis Henv : env_ok env.
Hypothesis Htb : getTable r db t = Ok tb.
Hypothesis Hp : tPartition tb = Some p.
Hypothesis Hwf : wf_partition p.
Hypothesis Hsharded : p_Type p = MethodTypeHash \/ p_Type p = MethodTypeList.

(** A row the clause [w] is true of, with literals that are routed like the
    key they equal. *)
Record matches (row : list Expr) (v : SQLVal) (w : Expr) : Prop := {
  ma_key : row_key idx row = Some v;
  ma_env : forall c, nameMatch (ColNameE c) t (tShardKey tb) = true -> env c = sem_lit v;
  ma_coh : forall x, x ∈ literals w -> sem_eq (sem_lit v) (sem_lit x) = Some true ->
    GetIndex r db t x = GetIndex r db t v;
  ma_true : cond env w = Some true
}.

Lemma found_segment row v w sg segs :
  matches row v w -> row_segment p idx row = Some sg ->
  LookupFromWhere db t (tShardKey tb) (Some w) r = Ok segs -> sg ∈ segs.
Proof.
  intros [Hk He Hc Ht] Hs Hl. unfold row_segment, row_key in *.
  destruct (row !! idx) as [e|]; [|done]. destruct e; try done. injection Hk as ->.
  destruct (p_Lookup p (Some v) (Some v)) as [[|sg' segs']| |] eqn:Hpl; try done. injection Hs as ->.
  destruct (sharded_point p v _ Hsharded Hpl) as [? [= -> ->]].
  by eapply (where_complete env r db t (tShardKey tb) tb p v).
Qed.

Lemma ShardKey_of : ShardKey r db t = Ok (tShardKey tb).
Proof. unfold ShardKey. by rewrite Htb. Qed.
End found.

(** C4: what one statement writes, the others reach.  When the plan of an
    INSERT into a table sharded by hash or list succeeds, each of its rows is in
    the query for one segment, and every UPDATE or DELETE plan on that table
    whose WHERE clause is true of the row, and in which the literals that equal
    the row's key are routed like it ([ma_coh]: they are written with the type
    of the key, 7 and not '7', see [quoted_key_missed]), has a query for the
    same segment, that is the same table on the same backend. *)
Theorem written_rows_reached {V} `{SS : SqlSem V, !SqlSemOk V} `{IR : InMapRange, !InMapRangeOk IR}
    `{J : JumpHash, !JumpHashOk J} `{R : MapRange, !MapRangeOk R} `{PR : SqlPrinter}
    (env : ColName -> V) r db t tb p database node rows qs row v :
  env_ok env -> getTable r db t = Ok tb -> tPartition tb = Some p -> wf_partition p -> named_parts p ->
  p_Type p = MethodTypeHash \/ p_Type p = MethodTypeList -> insert_db database node = db -> tnName (inTable node) = t ->
  InsertPlan_Build database node r = Ok qs -> inRows node = Values_ rows -> row ∈ rows ->
  exists idx sg, shard_index (inColumns node) (tShardKey tb) = Some idx /\
    insert_query db node p idx rows sg ∈ qs /\ row ∈ group p idx rows sg /\
    (forall upd w us, upWhere upd = Some w -> stmt_db database (upTable upd) = db -> tnName (upTable upd) = t ->
       matches env r db t tb idx row v w ->
       UpdatePlan_Build database upd r = Ok us -> segment_query (update_query db upd) sg ∈ us) /\
    (forall del w tn as_ rest ds n', deWhere del = Some w -> deTableRefs del = AliasedTableExpr tn as_ :: rest ->
       stmt_db database tn = db -> tnName tn = t -> matches env r db t tb idx row v w ->
       DeletePlan_Build database del r = Ok (ds, n') ->
       segment_query (fun x => String_Delete (delete_node db as_ del x)) sg ∈ ds).
Proof.
  intros Henv Htb Hp Hwf Hn Hty Hdb0 Ht0 Hb Hvals Hrow.
  destruct (built_insertable _ _ _ _ _ _ _ _ Htb Hp Hty Hdb0 Ht0 Hb) as (idx & rows' & Hi).
  pose proof (ib_rows _ _ _ _ _ _ _ _ Hi) as Hrows'. rewrite Hvals in Hrows'. injection Hrows' as <-.
  pose proof (insert_routable _ _ _ _ _ _ Htb Hp Hwf Hn _ _ _ _ Hi Hb) as Hr.
  erewrite insert_spec in Hb by done. injection Hb as <-.
  pose proof Hr as Hr'. rewrite Forall_forall in Hr'. destruct (Hr' _ Hrow) as [sg Hsg].
  assert (row ∈ group p idx rows sg) as Hg by (by apply list_elem_of_filter).
  exists idx, sg. split_and!; [apply Hi| |done|..].
  - apply list_elem_of_fmap_2, used_mem. split; [by eapply row_segment_mem|].
    intros Hnil. rewrite Hnil in Hg. by apply not_elem_of_nil in Hg.
  - intros upd w us Hw Hdb Ht Hm Hu. apply update_inv in Hu. cbn zeta in Hu. rewrite Hdb, Ht in Hu.
    destruct Hu as (w' & key & segs & Hw' & Hk & _ & Hl & ->). rewrite Hw in Hw'. injection Hw' as <-.
    rewrite (ShardKey_of _ _ _ _ Htb) in Hk. injection Hk as <-. apply list_elem_of_fmap_2.
    eapply found_segment; [exact Henv|exact Htb|exact Hp|exact Hwf|exact (ib_sharded _ _ _ _ _ _ _ _ Hi)|
      exact Hm|exact Hsg|exact Hl].
  - intros del w tn as_ rest ds n' Hw Hrefs Hdb Ht Hm Hd. apply delete_inv in Hd.
    destruct Hd as (tn' & as' & rest' & segs & Hrefs' & Hd). rewrite Hrefs in Hrefs'. injection Hrefs' as <- <- <-.
    cbn zeta in Hd. rewrite Hdb, Ht, Hw in Hd. destruct Hd as [Hl ->]. cbn [delete_segments] in Hl.
    rewrite (ShardKey_of _ _ _ _ Htb) in Hl. cbn [mbind res_bind] in Hl. apply list_elem_of_fmap_2.
    eapply found_segment; [exact Henv|exact Htb|exact Hp|exact Hwf|exact (ib_sharded _ _ _ _ _ _ _ _ Hi)|
      exact Hm|exact Hsg|exact Hl].
Qed.

(** ** Concrete statements *)
#[local] Existing Instance mod_jump.
#[local] Existing Instance mod_jump_ok.

(** A printer that shows the tables and the number of rows. *)
#[export] Instance ex_printer : SqlPrinter := {
  String_Insert n := "insert into " +:+ tnName (inTable n) +:+ " rows " +:+
    match inRows n with Values_ rs => Itoa (Z.of_nat (length rs)) | SelectRows => "" end;
  String_Delete n := "delete from " +:+
    match deTableRefs n with AliasedTableExpr t _ :: _ => tnName t | _ => "" end;
  fmt_comments _ := "";
  fmt_updates _ := "a = 1";
  fmt_where _ := "";
  fmt_orderby _ := "";
  fmt_limit _ := ""
}.

Definition ex_rows : list (list Expr) :=
  [[int_ "1"; int_ "7"]; [int_ "2"; int_ "0"]; [int_ "3"; int_ "6"]].
Definition ex_insert : Insert := mkInsert "insert" [] "" (mkTableName "t" "") [] ["a"; "ID"] (Values_ ex_rows) [].
Definition ex_table : Table := match getTable ex_router "db" "t" with Ok tb => tb | _ => mkTable "" "" None 0 end.

Lemma ex_named : named_parts (PHash ex_hash).
Proof.
  apply (build_named ex_conf uniform_example); [vm_compute; reflexivity|].
  apply (bool_decide_unpack _). vm_compute. exact I.
Qed.

Lemma ex_insertable : insertable "db" "t" ex_table (PHash ex_hash) 1 "db" ex_insert ex_rows.
Proof. split; try (vm_compute; reflexivity). left. reflexivity. Qed.

Lemma InsertPlan_partitions_witness :
  InsertPlan_Build "db" ex_insert ex_router
    = Ok [mkQueryTuple "insert into t_0000 rows 1" "b1" "[0-4)"; mkQueryTuple "insert into t_0001 rows 2" "b1" "[4-8)"] /\
  StronglySorted str_le (sgTable <$> used_segments (PHash ex_hash) 1 ex_rows).
Proof.
  destruct (InsertPlan_partitions ex_router "db" "t" ex_table (PHash ex_hash) "db" ex_insert)
    as (H1 & H2); [vm_compute; reflexivity|vm_compute; reflexivity|exact ex_hash_wf|exact ex_named|by left|reflexivity|reflexivity|].
  split; [|exact (proj1 (H2 1%nat ex_rows))]. apply H1. exists 1%nat, ex_rows.
  split; [exact ex_insertable|]. split; [|vm_compute; reflexivity].
  repeat constructor; vm_compute; eexists; reflexivity.
Defined.

Definition ex_delete : Delete :=
  mkDelete [] true [AliasedTableExpr (mkTableName "t" "") ""] [] (Some ex_where) [mkOrder (col "a") "asc"] None.

Lemma DeletePlan_rewrites_witness :
  exists qs n' segs, DeletePlan_Build "db" ex_delete ex_router = Ok (qs, n') /\
    delete_segments ex_router "db" "t" (Some ex_where) = Ok segs /\ length qs = length segs.
Proof.
  destruct (DeletePlan_Build "db" ex_delete ex_router) as [[qs n']| |] eqn:H;
    [|vm_compute in H; discriminate H|vm_compute in H; discriminate H].
  destruct (DeletePlan_rewrites "db" ex_delete ex_router qs n' H) as (t & as_ & rest & segs & [= <- <- <-] & H1 & -> & _).
  exists (segment_query (fun x => String_Delete (delete_node (stmt_db "db" (mkTableName "t" "")) "" ex_delete x)) <$> segs), n', segs.
  split; [reflexivity|]. split; [exact H1|]. apply length_fmap.
Defined.

Definition ex_update : Update :=
  mkUpdate [] (mkTableName "t" "db") [mkUpdateExpr (mkColName "a" (mkTableName "" "")) (int_ "1")] (Some ex_where) [] None.

Lemma written_rows_reached_witness :
  exists sg us, group (PHash ex_hash) 1 ex_rows sg = [[int_ "1"; int_ "7"]; [int_ "3"; int_ "6"]] /\
    UpdatePlan_Build "db" ex_update ex_router = Ok us /\
    segment_query (update_query "db" ex_update) sg ∈ us.
Proof.
  destruct (written_rows_reached (row_env ex_key) ex_router "db" "t" ex_table (PHash ex_hash) "db" ex_insert
    ex_rows [mkQueryTuple "insert into t_0000 rows 1" "b1" "[0-4)"; mkQueryTuple "insert into t_0001 rows 2" "b1" "[4-8)"]
    [int_ "1"; int_ "7"] ex_key) as (idx & sg & Hidx & Hq & Hg & Hu & _);
    [apply row_env_ok|vm_compute; reflexivity|vm_compute; reflexivity|exact ex_hash_wf|exact ex_named|
     by left|reflexivity|reflexivity|vm_compute; reflexivity|reflexivity|by left|].
  vm_compute in Hidx. injection Hidx as <-.
  destruct (UpdatePlan_Build "db" ex_update ex_router) as [us| |] eqn:Hb;
    [|vm_compute in Hb; discriminate Hb|vm_compute in Hb; discriminate Hb].
  exists sg, us. assert (row_segment (PHash ex_hash) 1 [int_ "1"; int_ "7"] = Some sg) as Hsg
    by (by apply list_elem_of_filter in Hg as [? _]).
  vm_compute in Hsg. injection Hsg as <-. split; [vm_compute; reflexivity|]. split; [reflexivity|].
  eapply Hu; [reflexivity|reflexivity|reflexivity| |exact Hb].
  split; [reflexivity|intros c; apply row_env_key| |vm_compute; reflexivity].
  intros w Hw. vm_compute in Hw. repeat (apply elem_of_cons in Hw as [->|Hw]; [vm_compute; first [done|reflexivity]|]).
  destruct (not_elem_of_nil _ Hw).
Defined.
