(* ===== verification/Pool.v ===== *)
(** * Connections and connection pools (src/backend: connection.go, pool.go)

    A [Pool] keeps the idle connections of one backend address in a buffered
    channel.  The state of a pool holds every connection it ever dialled
    (a connection is an index into [pHeap]), the channel, the counters, and
    what the outside decides: the outcomes of the driver calls to come
    ([pScript], every call succeeds once it is exhausted) and the clock
    ([pNow]).  [pLog] records every statement sent to the server.

    The methods are given twice over: as sequential functions, and, for the
    places where the source runs without the lock, as the atomic steps of an
    interleaving semantics (PoolProps.v). *)
From S2P Require Import Prelude GoStd Config.
Open Scope string_scope.
Open Scope list_scope.
Open Scope Z_scope.

(** ** Data *)

(** [sqltypes.Result]: field names, rows of raw values. *)
Record Result := mkResult {
  qFields : list string;
  qRowsAffected : Z;
  qInsertID : Z;
  qRows : list (list string)
}.
Definition emptyResult : Result := mkResult [] 0 0 [].

(** [Result.AppendResult] *)
Definition AppendResult (result src : Result) : Result :=
  if (qRowsAffected src =? 0) && (Nat.eqb (length (qFields src)) 0) then result
  else mkResult
    (match qFields result with [] => qFields src | fs => fs end)
    (wrap 64 (qRowsAffected result + qRowsAffected src))
    (if qInsertID src =? 0 then qInsertID result else qInsertID src)
    (qRows result ++ qRows src).

(** The outcome of a driver call: a result with the bytes its rows take, a SQL
    error packet, a transport error (the driver closes the socket), the end of
    the stream (likewise), and a query killed by its deadline. *)
Inductive drv_out :=
| DrvOk (qr : Result) (bytes : Z)
| DrvSQLErr (num : Z)
| DrvBroken
| DrvEOF
| DrvDeadline.

(** The errors of the backend package. *)
Inductive berr :=
| ErrClosed
| ErrServerLost
| ErrSQL (num : Z)
| ErrBroken
| ErrMaxMem (limit : Z)
| ErrTimeout (ms : Z)
| ErrNoPoolFor (kind backend : string)
| ErrBackendDup (name : string)
| ErrAddressDup (address : string)
| ErrBackendMissing (name : string)
| ErrBackendsNull
| ErrXaidDup (xaid : string)
| ErrBackendEmpty
| ErrIOb
| ErrJSON
| ErrNotImplemented.

(** [connection]; [cDialed] is [c.driver != nil] and [cDrvClosed] is
    [c.driver.Closed()]. *)
Record Conn := mkConn {
  cID : Z;
  cDialed : bool;
  cDrvClosed : bool;
  cLastErr : bool;
  cKilled : bool;
  cTimestamp : Z
}.

(** [Pool]: the channel [connections] is [pChan] with its closed flag; [pNil]
    is [p.connections == nil]. *)
Record Pool := mkPool {
  pAddress : string;
  pConf : BackendConfig;
  pChan : list nat;
  pChanClosed : bool;
  pNil : bool;
  pCounters : gmap string Z;
  pMaxIdle : Z;
  pHeap : list Conn;
  pScript : list drv_out;
  pNow : Z;
  pLog : list (nat * string * bool)
}.

Definition set_chan (l : list nat) (p : Pool) : Pool :=
  mkPool (pAddress p) (pConf p) l (pChanClosed p) (pNil p) (pCounters p) (pMaxIdle p) (pHeap p)
    (pScript p) (pNow p) (pLog p).
Definition set_closed (b : bool) (p : Pool) : Pool :=
  mkPool (pAddress p) (pConf p) (pChan p) b (pNil p) (pCounters p) (pMaxIdle p) (pHeap p)
    (pScript p) (pNow p) (pLog p).
Definition set_nil (b : bool) (p : Pool) : Pool :=
  mkPool (pAddress p) (pConf p) (pChan p) (pChanClosed p) b (pCounters p) (pMaxIdle p) (pHeap p)
    (pScript p) (pNow p) (pLog p).
Definition set_counters (c : gmap string Z) (p : Pool) : Pool :=
  mkPool (pAddress p) (pConf p) (pChan p) (pChanClosed p) (pNil p) c (pMaxIdle p) (pHeap p)
    (pScript p) (pNow p) (pLog p).
Definition set_conns (h : list Conn) (p : Pool) : Pool :=
  mkPool (pAddress p) (pConf p) (pChan p) (pChanClosed p) (pNil p) (pCounters p) (pMaxIdle p) h
    (pScript p) (pNow p) (pLog p).
Definition set_script (s : list drv_out) (p : Pool) : Pool :=
  mkPool (pAddress p) (pConf p) (pChan p) (pChanClosed p) (pNil p) (pCounters p) (pMaxIdle p) (pHeap p)
    s (pNow p) (pLog p).
Definition set_now (t : Z) (p : Pool) : Pool :=
  mkPool (pAddress p) (pConf p) (pChan p) (pChanClosed p) (pNil p) (pCounters p) (pMaxIdle p) (pHeap p)
    (pScript p) t (pLog p).
Definition set_log (l : list (nat * string * bool)) (p : Pool) : Pool :=
  mkPool (pAddress p) (pConf p) (pChan p) (pChanClosed p) (pNil p) (pCounters p) (pMaxIdle p) (pHeap p)
    (pScript p) (pNow p) l.

Abbreviation PM := (M Pool berr).

(** [stats.Counters.Add] *)
Definition counters_Add (name : string) (n : Z) (m : gmap string Z) : gmap string Z :=
  <[name := default 0 (m !! name) + n]> m.
Definition count (name : string) : PM unit :=
  mmodify (fun p => set_counters (counters_Add name 1 (pCounters p)) p).

(** The connection id the server gives to the n-th connection of an address. *)
Class Driver := { ConnectionID : string -> nat -> Z }.

(** ** Connections *)

(** Update a connection; a handle is always the index of a connection. *)
Definition conn_modify (c : nat) (f : Conn -> Conn) : PM unit :=
  mmodify (fun p => set_conns (alter f c (pHeap p)) p).
Definition conn_get (c : nat) : PM Conn := fun p =>
  match pHeap p !! c with Some x => (Ok x, p) | None => (Panic, p) end.

(** The outcome of the next driver call. *)
Definition drv_next : PM drv_out := fun p =>
  match pScript p with
  | [] => (Ok (DrvOk emptyResult 0), p)
  | o :: s => (Ok o, set_script s p)
  end.

Definition is_drv_ok (o : drv_out) : bool := match o with DrvOk _ _ => true | _ => false end.

(** The driver closes its socket on a transport error, on the end of the
    stream and when the server killed the connection. *)
Definition drv_closes (o : drv_out) : bool :=
  match o with DrvBroken | DrvEOF | DrvDeadline => true | _ => false end.

Definition close_conn (x : Conn) : Conn :=
  mkConn (cID x) (cDialed x) (cDialed x || cDrvClosed x) true (cKilled x) (cTimestamp x).

(** [connection.Close] *)
Definition conn_Close (c : nat) : PM unit := conn_modify c close_conn.

(** [connection.SetTimestamp] *)
Definition SetTimestamp (c : nat) (ts : Z) : PM unit :=
  conn_modify c (fun x => mkConn (cID x) (cDialed x) (cDrvClosed x) (cLastErr x) (cKilled x) ts).

(** [connection.Closed] *)
Definition conn_Closed (x : Conn) : bool := if cDialed x then cDrvClosed x else true.

(** [NewConnection] *)
Definition NewConnection : PM nat := fun p =>
  (Ok (length (pHeap p)), set_conns (pHeap p ++ [mkConn 0 false false false false 0]) p).

Section driver.
Context `{D : Driver}.

(** [connection.Dial] *)
Definition Dial (c : nat) : PM unit :=
  o ← drv_next;
  if is_drv_ok o then
    p ← mget;
    conn_modify c (fun x => mkConn (ConnectionID (pAddress p) c) true false (cLastErr x)
                              (cKilled x) (cTimestamp x))
  else
    _ ← count "#backend.dial.error";
    _ ← conn_Close c;
    mfail ErrServerLost.

(** The socket is closed by the driver after a call with outcome [o]. *)
Definition drv_after (c : nat) (o : drv_out) : PM unit :=
  if drv_closes o
  then conn_modify c (fun x => mkConn (cID x) (cDialed x) true (cLastErr x) (cKilled x) (cTimestamp x))
  else mret tt.

(** [connection.Ping]; a nil driver panics. *)
Definition Ping (c : nat) : PM bool :=
  x ← conn_get c;
  if cDialed x then o ← drv_next; _ ← drv_after c o; mret (is_drv_ok o) else mpanic.

(** ** The pool *)

(** [Pool.reconnect] *)
Definition reconnect : PM nat :=
  c ← NewConnection;
  _ ← Dial c;
  p ← mget;
  _ ← SetTimestamp c (pNow p);
  mret c.

(** [Pool.getConns]: whether the channel is there. *)
Definition getConns : PM bool := fun p => (Ok (negb (pNil p)), p).

(** The receive of [Get] and the checks of the connection it yields. *)
Definition recv : PM nat := fun p =>
  match pChan p with
  | c :: l =>
      (x ← conn_get c;
       p ← mget;
       let elapsed := pNow p - cTimestamp x in
       if 1 <? elapsed then
         if pMaxIdle p <? elapsed then _ ← conn_Close c; reconnect
         else
           ok ← Ping c;
           if (ok : bool) then _ ← count "#pool.ping"; _ ← count "#pool.hit"; mret c
           else _ ← count "#pool.ping.broken"; reconnect
       else _ ← count "#pool.hit"; mret c) (set_chan l p)
  | [] =>
      if pChanClosed p then (Err ErrClosed, p)
      else (_ ← count "#pool.miss"; reconnect) p
  end.

(** [Pool.Get] *)
Definition Pool_Get : PM nat :=
  _ ← count "#pool.get";
  b ← getConns;
  if (b : bool) then recv else mfail ErrClosed.

(** [Pool.put]; a send on a closed channel panics. *)
Definition put (c : nat) (updateTs : bool) : PM unit :=
  _ ← count "#pool.put";
  p ← mget;
  if pNil p then mret tt
  else
    _ ← (if updateTs then SetTimestamp c (pNow p) else mret tt);
    if pChanClosed p then mpanic
    else if Z.of_nat (length (pChan p)) <? bcMaxConnections (pConf p)
    then mmodify (fun p => set_chan (pChan p ++ [c]) p)
    else conn_Close c.

(** [Pool.Put] *)
Definition Put (c : nat) : PM unit := put c true.

(** [Pool.Close] in three parts: closing the channel, draining it, and
    dropping it. *)
Definition close_begin : PM unit := mmodify (set_closed true).
Definition close_drain : PM bool := fun p =>
  match pChan p with
  | [] => (Ok false, p)
  | c :: l => (_ ← conn_Close c; mret true) (set_chan l p)
  end.
Definition close_end : PM unit := mmodify (set_nil true).
Fixpoint drain (n : nat) : PM unit :=
  match n with O => mret tt | S n => b ← close_drain; if (b : bool) then drain n else mret tt end.
Definition Pool_Close : PM unit :=
  _ ← count "#pool.close";
  p ← mget;
  if pNil p then mret tt
  else _ ← close_begin; _ ← drain (length (pChan p)); close_end.

(** [connection.Recycle]; a nil driver panics. *)
Definition Recycle (c : nat) : PM unit :=
  x ← conn_get c;
  if cDialed x then if cDrvClosed x then mret tt else Put c else mpanic.

(** ** Executing a statement *)

(** The error of [driver.FetchAllWithFunc], the memory check included. *)
Definition fetch_error (o : drv_out) (memlimits : Z) : option berr :=
  match o with
  | DrvOk qr bytes => if (0 <? memlimits) && (memlimits <? bytes) then Some (ErrMaxMem memlimits) else None
  | DrvSQLErr n => Some (ErrSQL n)
  | DrvBroken => Some ErrBroken
  | DrvEOF => Some ErrServerLost
  | DrvDeadline => Some ErrBroken
  end.

Definition note_error (c : nat) : PM unit :=
  conn_modify c (fun x => mkConn (cID x) (cDialed x) (cDrvClosed x) true (cKilled x) (cTimestamp x)).

(** The call of [driver.FetchAllWithFunc] and what follows it. *)
Definition fetch_all (c : nat) (query : string) (timeout memlimits : Z) (o : drv_out) : PM Result :=
  _ ← mmodify (fun p => set_log (pLog p ++ [(c, query, bool_decide (fetch_error o memlimits = None))]) p);
  _ ← drv_after c o;
  match fetch_error o memlimits with
  | None => mret (match o with DrvOk qr _ => qr | _ => emptyResult end)
  | Some e =>
      _ ← (match e with ErrMaxMem _ => count "#backend.execute.maxresult" | _ => mret tt end);
      _ ← count "#backend.execute.all.error";
      _ ← note_error c;
      x ← conn_get c;
      if cKilled x then mfail (ErrTimeout timeout) else mfail e
  end.

(** [connection.Execute]: [ExecuteWithLimits] without limits. *)
Definition Execute (c : nat) (query : string) : PM Result :=
  x ← conn_get c;
  if cDialed x then o ← drv_next; fetch_all c query 0 0 o else mpanic.

(** [connection.Kill]: the deferred [Recycle] runs on both returns. *)
Definition Kill (c : nat) : PM unit :=
  _ ← count "#backend.killed";
  kill ← Pool_Get;
  x ← conn_get c;
  r ← mtry (Execute kill ("KILL " +:+ Itoa (cID x)));
  _ ← Recycle kill;
  match r with inl _ => mret tt | inr e => mfail e end.

(** [connection.ExecuteWithLimits]; with a timeout, the deadline goroutine
    marks the connection, kills it through another connection of the pool and
    the query returns the driver's error. *)
Definition ExecuteWithLimits (c : nat) (query : string) (timeout memlimits : Z) : PM Result :=
  x ← conn_get c;
  if cDialed x then
    o ← drv_next;
    _ ← (match o with
         | DrvDeadline =>
             if 0 <? timeout then
               _ ← count "#backend.execute.timeout";
               _ ← conn_modify c (fun x => mkConn (cID x) (cDialed x) (cDrvClosed x) (cLastErr x) true
                                             (cTimestamp x));
               _ ← mtry (Kill c); mret tt
             else mret tt
         | _ => mret tt
         end);
    fetch_all c query timeout memlimits o
  else mpanic.

(** [connection.UseDB] *)
Definition UseDB (c : nat) (db : string) : PM unit :=
  if decide (db = "") then mret tt else _ ← Execute c ("use " +:+ db); mret tt.
End driver.

(** [NewPool]; the capacity of the channel is [conf.MaxConnections] (with a
    negative one, which [make] refuses, nothing fits the channel here). *)
Definition maxIdleTime : Z := 20.
Definition NewPool (conf : BackendConfig) (address : string) (script : list drv_out) (now : Z) : option Pool :=
  if decide (address = "") then None
  else Some (mkPool address conf [] false false ∅ maxIdleTime [] script now []).

(** [Poolz] *)
Record Poolz := mkPoolz { zConf : BackendConfig; zNormal : option Pool; zReplica : option Pool }.

(** [NewPoolz] *)
Definition NewPoolz (conf : BackendConfig) (s1 s2 : list drv_out) (now : Z) : Poolz :=
  mkPoolz conf (NewPool conf (bcAddress conf) s1 now) (NewPool conf (bcReplica conf) s2 now).

(** [Poolz.Close] *)
Definition Poolz_Close (z : Poolz) : Poolz :=
  mkPoolz (zConf z) ((fun p => snd (Pool_Close p)) <$> zNormal z)
    ((fun p => snd (Pool_Close p)) <$> zReplica z).
