(* ===== verification/PoolProps.v ===== *)
(** * Ownership and capacity of the connection pool

    An interleaving semantics for the clients of a [Pool] and the invariant
    that makes sharing a pool safe: a connection has one owner, the channel
    stays within its capacity and no operation panics. *)
From S2P Require Import Prelude GoStd Config Pool.
Open Scope string_scope.
Open Scope list_scope.
Open Scope Z_scope.

(** ** What an operation may change

    [pool_rel X p p']: the channel is the same, connections are only added,
    the connections outside [X] are untouched and none loses its driver. *)
Record pool_rel (X : nat -> Prop) (p p' : Pool) : Prop := {
  pr_chan : pChan p' = pChan p;
  pr_closed : pChanClosed p' = pChanClosed p;
  pr_nil : pNil p' = pNil p;
  pr_conf : pConf p' = pConf p;
  pr_frame : forall i x, ~ X i -> pHeap p !! i = Some x -> pHeap p' !! i = Some x;
  pr_dialed : forall i x, pHeap p !! i = Some x ->
    exists x', pHeap p' !! i = Some x' /\ (cDialed x = true -> cDialed x' = true)
}.

Lemma pool_rel_refl X p : pool_rel X p p.
Proof. split; eauto. Qed.

Lemma pool_rel_trans X p1 p2 p3 : pool_rel X p1 p2 -> pool_rel X p2 p3 -> pool_rel X p1 p3.
Proof.
  intros [] []. split; [congruence..|eauto|].
  intros i x Hx. destruct (pr_dialed0 i x Hx) as (x1 & H1 & Hd1).
  destruct (pr_dialed1 i x1 H1) as (x2 & H2 & Hd2). eauto.
Qed.

Lemma pool_rel_weaken (X Y : nat -> Prop) p p' :
  (forall i, X i -> Y i) -> pool_rel X p p' -> pool_rel Y p p'.
Proof. intros H []. split; eauto. Qed.

Lemma pool_rel_len X p p' : pool_rel X p p' -> (length (pHeap p) <= length (pHeap p'))%nat.
Proof.
  intros H. destruct (decide (length (pHeap p) = 0)%nat) as [?|Hne]; [lia|].
  destruct (lookup_lt_is_Some_2 (pHeap p) (length (pHeap p) - 1)) as [x Hx]; [lia|].
  destruct (pr_dialed _ _ _ H _ _ Hx) as (x' & Hx' & _). apply lookup_lt_Some in Hx'. lia.
Qed.

(** [keeps X m]: every run of [m] is in [pool_rel X]. *)
Definition keeps {A} (X : nat -> Prop) (m : PM A) : Prop := forall p, pool_rel X p (snd (m p)).

Lemma keeps_bind {A B} X (m : PM A) (k : A -> PM B) :
  keeps X m -> (forall a, keeps X (k a)) -> keeps X (x ← m; k x).
Proof.
  intros Hm Hk p. unfold mbind, M_bind. specialize (Hm p).
  destruct (m p) as [[a|e|] p1]; simpl in *; [|done..]. eapply pool_rel_trans; [exact Hm|apply Hk].
Qed.

Lemma keeps_ret {A} X (a : A) : keeps X (mret a : PM A).
Proof. intros p. apply pool_rel_refl. Qed.
Lemma keeps_get X : keeps X (mget : PM Pool).
Proof. intros p. apply pool_rel_refl. Qed.
Lemma keeps_fail {A} X e : keeps X (mfail e : PM A).
Proof. intros p. apply pool_rel_refl. Qed.
Lemma keeps_panic {A} X : keeps X (mpanic : PM A).
Proof. intros p. apply pool_rel_refl. Qed.
Lemma keeps_count X n : keeps X (count n).
Proof. intros p. split; eauto. Qed.
Lemma keeps_conn_get X c : keeps X (conn_get c).
Proof. intros p. unfold conn_get. destruct (pHeap p !! c); apply pool_rel_refl. Qed.
Lemma keeps_drv_next X : keeps X drv_next.
Proof. intros p. unfold drv_next. destruct (pScript p); [apply pool_rel_refl|split; eauto]. Qed.
Lemma keeps_log X l : keeps X (mmodify (fun p => set_log (l p) p)).
Proof. intros p. split; eauto. Qed.

Lemma keeps_conn_modify (X : nat -> Prop) c f :
  X c -> (forall x, cDialed x = true -> cDialed (f x) = true) -> keeps X (conn_modify c f).
Proof.
  intros Hc Hf p. split; try done; simpl.
  - intros i x Hi Hx. rewrite list_lookup_alter_ne; [done|]. intros ->. done.
  - intros i x Hx. destruct (decide (i = c)) as [->|Hne].
    + rewrite list_lookup_alter_eq, Hx. simpl. eauto.
    + rewrite list_lookup_alter_ne by done. eauto.
Qed.

Lemma keeps_match {A} X (b : bool) (m1 m2 : PM A) :
  keeps X m1 -> keeps X m2 -> keeps X (if b then m1 else m2).
Proof. by destruct b. Qed.

Create HintDb pool.
#[export] Hint Resolve keeps_ret keeps_get keeps_fail keeps_panic keeps_count keeps_conn_get
  keeps_drv_next keeps_log : pool.

Lemma keeps_Close (X : nat -> Prop) c : X c -> keeps X (conn_Close c).
Proof. intros Hc. by apply keeps_conn_modify. Qed.
Lemma keeps_SetTimestamp (X : nat -> Prop) c ts : X c -> keeps X (SetTimestamp c ts).
Proof. intros Hc. by apply keeps_conn_modify. Qed.
Lemma keeps_note (X : nat -> Prop) c : X c -> keeps X (note_error c).
Proof. intros Hc. by apply keeps_conn_modify. Qed.
Lemma keeps_drv_after (X : nat -> Prop) c o : X c -> keeps X (drv_after c o).
Proof. intros Hc. unfold drv_after. apply keeps_match; [by apply keeps_conn_modify|apply keeps_ret]. Qed.
#[export] Hint Resolve keeps_Close keeps_SetTimestamp keeps_note keeps_drv_after : pool.

Ltac keeps_step :=
  repeat first
    [ solve [eauto with pool]
    | apply keeps_bind; [|intros ?]
    | apply keeps_match
    | case_match
    | solve [intros ?; split; eauto] ].

(** A statement sent through a connection touches that connection only. *)
Lemma keeps_fetch_all (X : nat -> Prop) c q t m o : X c -> keeps X (fetch_all c q t m o).
Proof. intros Hc. unfold fetch_all. keeps_step. Qed.

#[export] Hint Resolve keeps_fetch_all : pool.

Lemma keeps_Execute (X : nat -> Prop) c q : X c -> keeps X (Execute c q).
Proof. intros Hc. unfold Execute. keeps_step. Qed.

Lemma keeps_Ping (X : nat -> Prop) c : X c -> keeps X (Ping c).
Proof. intros Hc. unfold Ping. keeps_step. Qed.

(** ** A new connection *)
Section driver.
Context `{D : Driver}.

(** [reconnect] adds one connection, the one it returns when the dial
    succeeded, and never panics. *)
Lemma reconnect_spec p :
  exists p', pool_rel (fun i => i = length (pHeap p)) p p' /\
    ((reconnect p = (Ok (length (pHeap p)), p') /\
      exists x, pHeap p' !! length (pHeap p) = Some x /\ cDialed x = true /\ cDrvClosed x = false) \/
     reconnect p = (Err ErrServerLost, p')).
Proof.
  set (X := fun i => i = length (pHeap p)).
  assert (pool_rel X p (snd (NewConnection p))) as Hnew.
  { split; try done; simpl.
    - intros i x _ Hx. by apply lookup_app_l_Some.
    - intros i x Hx. exists x. split; [by apply lookup_app_l_Some|done]. }
  assert (pHeap (snd (NewConnection p)) !! length (pHeap p) = Some (mkConn 0 false false false false 0)) as Hl.
  { simpl. by rewrite lookup_app_r, Nat.sub_diag. }
  unfold reconnect. destruct (NewConnection p) as [r0 p0] eqn:HN.
  assert (r0 = Ok (length (pHeap p))) as -> by (by injection HN as <-). simpl in Hnew, Hl.
  erewrite M_bind_Ok by exact HN. unfold Dial.
  pose proof (keeps_drv_next X p0) as Hk.
  destruct (drv_next p0) as [[o| |] p1] eqn:Hd; [|unfold drv_next in Hd; by destruct (pScript p0)..].
  simpl in Hk. assert (pHeap p1 = pHeap p0) as Hh.
  { unfold drv_next in Hd. destruct (pScript p0); injection Hd as <- <-; done. }
  destruct (is_drv_ok o) eqn:Ho.
  - eexists. split; [|left; split].
    2: { unfold mbind, M_bind. rewrite Hd, Ho. reflexivity. }
    + eapply pool_rel_trans; [exact Hnew|]. eapply pool_rel_trans; [exact Hk|].
      eapply pool_rel_trans; apply keeps_conn_modify; done.
    + simpl. rewrite !list_lookup_alter_eq, Hh, Hl. simpl. by eexists.
  - eexists. split; [|right].
    2: { unfold mbind, M_bind. rewrite Hd, Ho. reflexivity. }
    eapply pool_rel_trans; [exact Hnew|]. eapply pool_rel_trans; [exact Hk|].
    eapply pool_rel_trans; [apply keeps_count|]. by apply keeps_Close.
Qed.

(** ** The receive of [Get] *)

(** A connection that can be used. *)
Definition usable (p : Pool) (c : nat) : Prop :=
  exists x, pHeap p !! c = Some x /\ cDialed x = true /\ cDrvClosed x = false.

(** The connections a receive may touch: the one it takes and a new one. *)
Definition touched (p : Pool) (i : nat) : Prop := i = length (pHeap p) \/ head (pChan p) = Some i.

(** What a receive does: it takes the first idle connection, if any, leaves
    the others alone, and returns a usable connection that was idle or is new,
    or an error. *)
Definition recv_ok (p : Pool) (out : res berr nat * Pool) : Prop :=
  pool_rel (touched p) (set_chan (tail (pChan p)) p) (snd out) /\
  match fst out with
  | Ok c => touched p c /\ usable (snd out) c
  | Err e => e = ErrServerLost \/ (e = ErrClosed /\ pChanClosed p = true /\ snd out = p)
  | Panic => False
  end.

Lemma recv_ok_reconnect p p1 :
  pool_rel (touched p) (set_chan (tail (pChan p)) p) p1 -> length (pHeap p1) = length (pHeap p) ->
  recv_ok p (reconnect p1).
Proof.
  intros Hp1 Hlen. destruct (reconnect_spec p1) as (p' & Hr & Hor). rewrite Hlen in *.
  assert (pool_rel (touched p) (set_chan (tail (pChan p)) p) p') as Hrel.
  { eapply pool_rel_trans; [exact Hp1|]. eapply pool_rel_weaken; [|exact Hr]. unfold touched. auto. }
  unfold recv_ok, usable, touched in *. destruct Hor as [[He Hy]|He]; rewrite He; simpl; auto.
Qed.

Lemma recv_ok_ping p c :
  head (pChan p) = Some c -> usable p c ->
  recv_ok p ((ok ← Ping c;
              if (ok : bool) then _ ← count "#pool.ping"; _ ← count "#pool.hit"; mret c
              else _ ← count "#pool.ping.broken"; reconnect) (set_chan (tail (pChan p)) p)).
Proof.
  intros Hc (x & Hx & Hd & Hn). set (p0 := set_chan (tail (pChan p)) p).
  assert (exists o p1, Ping c p0 = (Ok (is_drv_ok o), snd (drv_after c o p1)) /\
    pool_rel (touched p) p0 p1 /\ pHeap p1 = pHeap p) as (o & p1 & Hping & Hp1 & Hh1).
  { pose proof (keeps_drv_next (touched p) p0) as Hk.
    destruct (drv_next p0) as [ro p1] eqn:Ho. simpl in Hk.
    assert (exists o, ro = Ok o /\ pHeap p1 = pHeap p) as (o & -> & Hh).
    { unfold drv_next in Ho. destruct (pScript p0); injection Ho as <- <-; eauto. }
    exists o, p1. split; [|done]. unfold Ping.
    erewrite M_bind_Ok by (unfold conn_get; simpl; rewrite Hx; reflexivity). rewrite Hd.
    erewrite M_bind_Ok by exact Ho. unfold drv_after. by destruct (drv_closes o). }
  erewrite M_bind_Ok by exact Hping.
  assert (pool_rel (touched p) p0 (snd (drv_after c o p1)) /\
          length (pHeap (snd (drv_after c o p1))) = length (pHeap p)) as [Hp2 Hl2].
  { split; [eapply pool_rel_trans; [exact Hp1|]; apply keeps_drv_after; unfold touched; auto|].
    unfold drv_after. destruct (drv_closes o); simpl; by rewrite ?length_alter, Hh1. }
  destruct (is_drv_ok o) eqn:Hok.
  - split.
    + eapply pool_rel_trans; [exact Hp2|]. eapply pool_rel_trans; apply keeps_count.
    + split; [by right|]. exists x. destruct o; try done. simpl. by rewrite Hh1.
  - erewrite M_bind_Ok by reflexivity. apply recv_ok_reconnect; [|done].
    eapply pool_rel_trans; [exact Hp2|apply keeps_count].
Qed.

Lemma recv_spec p : (forall c, c ∈ pChan p -> usable p c) -> recv_ok p (recv p).
Proof.
  intros Hidle. unfold recv. destruct (pChan p) as [|c l] eqn:Hc.
  - assert (forall q, pChan q = pChan p -> pool_rel (touched p) p q ->
      pool_rel (touched p) (set_chan (tail (pChan p)) p) q) as Hchan.
    { intros q Hq []. rewrite Hc in *. split; simpl; done. }
    destruct (pChanClosed p) eqn:Hcl.
    + split; [|simpl; auto]. apply Hchan; [done|apply pool_rel_refl].
    + erewrite M_bind_Ok by reflexivity. apply recv_ok_reconnect; [|done].
      apply Hchan; [done|apply keeps_count].
  - assert (usable p c) as Hu by (apply Hidle; set_solver). destruct Hu as (x & Hx & Hd & Hn).
    assert (l = tail (pChan p)) as -> by (by rewrite Hc).
    assert (head (pChan p) = Some c) as Hh by (by rewrite Hc).
    erewrite M_bind_Ok by (unfold conn_get; simpl; rewrite Hx; reflexivity).
    erewrite M_bind_Ok by reflexivity. simpl pNow. destruct (1 <? _).
    + destruct (_ <? _).
      * erewrite M_bind_Ok by reflexivity. apply recv_ok_reconnect; [|simpl; by rewrite length_alter].
        apply keeps_Close. by right.
      * apply recv_ok_ping; [done|]. by exists x.
    + split; [apply keeps_count|]. split; [by right|]. by exists x.
Qed.
End driver.

(** ** Interleaving

    The clients of a pool run concurrently.  A client of [Get] reads the
    channel under the lock and receives from it without the lock; [put] and
    [Close] hold the lock, and [Close] drains the channel while late receivers
    may still take from it.  [hHeld] lists the connections in the hands of
    clients, [hPend] counts the clients between the two halves of [Get] and
    [hLock] tells that a [Close] holds the lock. *)
Record Shared := mkShared { hPool : Pool; hHeld : list nat; hPend : nat; hLock : bool }.

Section interleaving.
Context `{D : Driver}.

Inductive pstep : Shared -> Shared -> Prop :=
| st_get_nil p held n p' :
    pNil p = true -> (_ ← count "#pool.get"; getConns) p = (Ok false, p') ->
    pstep (mkShared p held n false) (mkShared p' held n false)
| st_get_chan p held n p' :
    (_ ← count "#pool.get"; getConns) p = (Ok true, p') ->
    pstep (mkShared p held n false) (mkShared p' held (S n) false)
| st_recv_ok p held n lk c p' :
    recv p = (Ok c, p') -> pstep (mkShared p held (S n) lk) (mkShared p' (c :: held) n lk)
| st_recv_err p held n lk e p' :
    recv p = (Err e, p') -> pstep (mkShared p held (S n) lk) (mkShared p' held n lk)
| st_recycle p l c l' n p' :
    Recycle c p = (Ok tt, p') ->
    pstep (mkShared p (l ++ c :: l') n false) (mkShared p' (l ++ l') n false)
| st_close_conn p l c l' n lk p' :
    conn_Close c p = (Ok tt, p') ->
    pstep (mkShared p (l ++ c :: l') n lk) (mkShared p' (l ++ l') n lk)
| st_use p held n lk c q t m o r p' :
    c ∈ held -> fetch_all c q t m o p = (r, p') ->
    pstep (mkShared p held n lk) (mkShared p' held n lk)
| st_close_nil p held n p' :
    pNil p = true -> count "#pool.close" p = (Ok tt, p') ->
    pstep (mkShared p held n false) (mkShared p' held n false)
| st_close_begin p held n p' :
    pNil p = false -> (_ ← count "#pool.close"; close_begin) p = (Ok tt, p') ->
    pstep (mkShared p held n false) (mkShared p' held n true)
| st_close_drain p held n p' :
    close_drain p = (Ok true, p') -> pstep (mkShared p held n true) (mkShared p' held n true)
| st_close_end p held n p1 p' :
    close_drain p = (Ok false, p1) -> close_end p1 = (Ok tt, p') ->
    pstep (mkShared p held n true) (mkShared p' held n false)
| st_env p held n lk now script :
    pstep (mkShared p held n lk) (mkShared (set_script script (set_now now p)) held n lk).

(** The pool before any client came. *)
Definition fresh_pool (p : Pool) : Prop :=
  pChan p = [] /\ pChanClosed p = false /\ pNil p = false /\ pHeap p = [].
Definition preach (p0 : Pool) (s : Shared) : Prop := rtc pstep (mkShared p0 [] 0 false) s.

(** The invariant. *)
Record shared_ok (s : Shared) : Prop := {
  so_owner : NoDup (pChan (hPool s) ++ hHeld s);
  so_cap : Z.of_nat (length (pChan (hPool s))) <= Z.max 0 (bcMaxConnections (pConf (hPool s)));
  so_idle : forall c, c ∈ pChan (hPool s) -> usable (hPool s) c;
  so_held : forall c, c ∈ hHeld s -> exists x, pHeap (hPool s) !! c = Some x /\ cDialed x = true;
  so_lock : hLock s = true -> pChanClosed (hPool s) = true /\ pNil (hPool s) = false;
  so_nil : pNil (hPool s) = true -> pChanClosed (hPool s) = true /\ pChan (hPool s) = [];
  so_open : pChanClosed (hPool s) = true -> hLock s = true \/ pNil (hPool s) = true
}.

Lemma shared_ok_fresh p : fresh_pool p -> shared_ok (mkShared p [] 0 false).
Proof.
  intros (Hc & Hcl & Hn & Hh). split; simpl; rewrite ?Hc, ?Hcl, ?Hn; try done.
  - constructor.
  - simpl. lia.
  - set_solver.
  - set_solver.
Qed.

(** An operation on connections outside the channel keeps the invariant when
    the clients' hands stay the same or one connection leaves them. *)
Lemma shared_ok_rel X p p' held held' n n' lk :
  shared_ok (mkShared p held n lk) -> pool_rel X p p' -> (forall c, c ∈ pChan p -> ~ X c) ->
  sublist held' held -> shared_ok (mkShared p' held' n' lk).
Proof.
  intros [] [] HX Hsub. split; simpl in *; rewrite ?pr_chan0, ?pr_closed0, ?pr_nil0, ?pr_conf0; try done.
  - eapply sublist_NoDup; [exact so_owner0|]. by apply sublist_app.
  - intros c Hc. destruct (so_idle0 c Hc) as (x & Hx & ?). exists x. split; [|done]. eauto.
  - intros c Hc. assert (c ∈ held) as Hc'.
    { eapply elem_of_submseteq; [exact Hc|]. by apply sublist_submseteq. }
    destruct (so_held0 c Hc') as (x & Hx & Hd). destruct (pr_dialed0 c x Hx) as (x' & ? & ?). eauto.
Qed.

Lemma held_not_idle p held n lk c :
  shared_ok (mkShared p held n lk) -> c ∈ held -> forall i, i ∈ pChan p -> ~ i = c.
Proof.
  intros [Ho _ _ _ _ _ _] Hc i Hi ->. simpl in Ho. apply NoDup_app in Ho as (_ & Ho & _).
  by apply (Ho c).
Qed.

Lemma shared_ok_recv p held n lk :
  shared_ok (mkShared p held (S n) lk) ->
  recv_ok p (recv p) /\
  forall r p', recv p = (r, p') ->
    shared_ok (mkShared p' (match r with Ok c => c :: held | _ => held end) n lk).
Proof.
  intros Hok. pose proof Hok as []. simpl in *. pose proof (recv_spec p so_idle0) as Hr.
  split; [done|]. intros r p' He. rewrite He in Hr. destruct Hr as [[] Hm]. simpl in *.
  assert (pChan p = [] \/ exists c, pChan p = c :: tail (pChan p)) as Hcase
    by (destruct (pChan p); eauto).
  assert (forall c, c ∈ pChan p -> (c < length (pHeap p))%nat) as Hlt.
  { intros c Hc. destruct (so_idle0 c Hc) as (x & Hx & _). by eapply lookup_lt_Some. }
  assert (forall c, c ∈ held -> (c < length (pHeap p))%nat) as Hlt'.
  { intros c Hc. destruct (so_held0 c Hc) as (x & Hx & _). by eapply lookup_lt_Some. }
  assert (forall c, c ∈ tail (pChan p) -> c ∈ pChan p) as Htail.
  { intros c Hc. destruct (pChan p); [done|]. set_solver. }
  assert (NoDup (tail (pChan p) ++ held)) as Hnd.
  { eapply sublist_NoDup; [exact so_owner0|]. apply sublist_app; [|done].
    destruct (pChan p); [done|]. by apply sublist_cons. }
  assert (forall c, c ∈ tail (pChan p) -> ~ touched p c) as Hnt.
  { intros c Hc [->|Hh]; [specialize (Hlt _ (Htail _ Hc)); lia|].
    destruct (pChan p) as [|c' l]; [done|]. simpl in *. injection Hh as ->.
    inversion so_owner0 as [|? ? Hn']; subst. set_solver. }
  assert (forall c, c ∈ held -> exists x, pHeap p' !! c = Some x /\ cDialed x = true) as Hh'.
  { intros c Hc. destruct (so_held0 c Hc) as (x & Hx & Hd).
    destruct (pr_dialed0 c x Hx) as (x' & ? & ?). eauto. }
  split; simpl; rewrite ?pr_chan0, ?pr_closed0, ?pr_nil0, ?pr_conf0; try done.
  - destruct r as [c| |]; [|done..]. destruct Hm as [Ht _].
    apply NoDup_app in Hnd as (H1 & H2 & H3). apply NoDup_app. split_and!; [done| |].
    + intros i Hi [->|?]%elem_of_cons; [by apply (Hnt c)|by apply (H2 i)].
    + apply NoDup_cons. split; [|done]. intros Hc. destruct Ht as [->|Hh]; [specialize (Hlt' _ Hc); lia|].
      destruct (pChan p) as [|c' l] eqn:Hp; [done|]. simpl in Hh. injection Hh as ->.
      inversion so_owner0 as [|? ? Hn']; subst. set_solver.
  - destruct (pChan p); simpl in *; lia.
  - intros c Hc. destruct (so_idle0 c (Htail _ Hc)) as (x & Hx & ?). exists x. split; [|done].
    apply pr_frame0; [by apply Hnt|done].
  - intros c Hc. destruct r as [c'| |]; [|by apply Hh'..].
    apply elem_of_cons in Hc as [->|Hc]; [|by apply Hh']. destruct Hm as (_ & x & ? & ? & _). eauto.
  - intros Hn. destruct (so_nil0 Hn) as [? He']. by rewrite He'.
Qed.

(** [Recycle] of a held connection by a client, with the lock free. *)
Lemma shared_ok_recycle p l c l' n :
  shared_ok (mkShared p (l ++ c :: l') n false) ->
  exists p', Recycle c p = (Ok tt, p') /\ shared_ok (mkShared p' (l ++ l') n false).
Proof.
  intros Hok. pose proof (held_not_idle p _ n false c Hok ltac:(set_solver)) as Hni.
  pose proof Hok as []. simpl in *.
  destruct (so_held0 c ltac:(set_solver)) as (x & Hx & Hd).
  assert (sublist (l ++ l') (l ++ c :: l')) as Hsub by (apply sublist_app; [done|by apply sublist_cons]).
  unfold Recycle. erewrite M_bind_Ok by (unfold conn_get; rewrite Hx; reflexivity). rewrite Hd.
  destruct (cDrvClosed x) eqn:Hcl.
  { eexists. split; [reflexivity|]. eapply shared_ok_rel; [exact Hok|apply (pool_rel_refl (fun _ => False))|auto|done]. }
  unfold Put, put. erewrite M_bind_Ok by reflexivity. erewrite M_bind_Ok by reflexivity.
  set (p1 := set_counters _ p). destruct (pNil p1) eqn:Hnil.
  { eexists. split; [reflexivity|].
    eapply shared_ok_rel; [exact Hok|apply (keeps_count (fun _ => False))|auto|done]. }
  erewrite M_bind_Ok by reflexivity. set (p2 := snd (SetTimestamp c (pNow p1) p1)).
  change (set_conns _ p1) with p2.
  assert (pool_rel (fun i => i = c) p p2) as H2.
  { eapply pool_rel_trans; [apply keeps_count|]. by apply keeps_SetTimestamp. }
  assert (pChanClosed p1 = false) as Hopen.
  { destruct (pChanClosed p1) eqn:Hc; [|done]. destruct (so_open0 Hc) as [?|Hc']; [done|].
    simpl in Hnil. congruence. }
  rewrite Hopen. destruct (_ <? _) eqn:Hroom.
  - eexists. split; [reflexivity|].
    assert (usable p2 c) as Hu.
    { eexists. simpl. rewrite list_lookup_alter_eq, Hx. simpl. done. }
    assert (shared_ok (mkShared p2 (l ++ l') n false)) as [] by (eapply shared_ok_rel; eauto).
    simpl in *. split; simpl; try done.
    + eapply (NoDup_Permutation_proper _ (pChan p ++ l ++ c :: l')); [|done]. rewrite <- app_assoc.
      simpl. by rewrite Permutation_middle.
    + rewrite length_app. simpl. apply Z.ltb_lt in Hroom. simpl in Hroom. lia.
    + intros i [Hi|Hi%list_elem_of_singleton]%elem_of_app; [by apply so_idle1|by subst].
    + intros Hn. congruence.
  - eexists. split; [reflexivity|]. eapply shared_ok_rel; [exact Hok| |exact Hni|done].
    eapply pool_rel_trans; [exact H2|]. by apply keeps_Close.
Qed.

Lemma shared_ok_step s s' : pstep s s' -> shared_ok s -> shared_ok s'.
Proof.
  intros Hs Hok. destruct Hs as [p held n p' Hn He|p held n p' He|p held n lk c p' He|p held n lk e p' He
    |p l c l' n p' He|p l c l' n lk p' He|p held n lk c q t m o r p' Hc He|p held n p' Hn He
    |p held n p' Hn He|p held n p' He|p held n p1 p' He1 He|p held n lk now script].
  - injection He as _ <-. eapply shared_ok_rel; [exact Hok|apply (keeps_count (fun _ => False))|auto|done].
  - injection He as _ <-. eapply shared_ok_rel; [exact Hok|apply (keeps_count (fun _ => False))|auto|done].
  - apply shared_ok_recv in Hok as [_ H]. exact (H _ _ He).
  - apply shared_ok_recv in Hok as [_ H]. exact (H _ _ He).
  - apply shared_ok_recycle in Hok as (p2 & H & Hok). congruence.
  - eapply shared_ok_rel; [exact Hok| | |].
    + injection He as <-. by apply (keeps_Close (fun i => i = c)).
    + eapply held_not_idle; [exact Hok|set_solver].
    + apply sublist_app; [done|by apply sublist_cons].
  - eapply shared_ok_rel; [exact Hok| | |done].
    + replace p' with (snd (fetch_all c q t m o p)) by (by rewrite He).
      by apply (keeps_fetch_all (fun i => i = c)).
    + by eapply held_not_idle.
  - injection He as <-. eapply shared_ok_rel; [exact Hok|apply (keeps_count (fun _ => False))|auto|done].
  - injection He as <-. destruct Hok. split; simpl in *; auto. congruence.
  - destruct Hok. simpl in *. unfold close_drain in He. destruct (pChan p) as [|c l] eqn:Hc; [done|].
    injection He as <-. apply NoDup_cons in so_owner0 as [Hnc Hnd]. split; simpl; try done.
    + simpl in so_cap0. lia.
    + intros i Hi. destruct (so_idle0 i) as (x & Hx & ?); [set_solver|]. exists x. split; [|done].
      simpl. rewrite list_lookup_alter_ne; [done|]. intros ->. set_solver.
    + intros i Hi. destruct (so_held0 i Hi) as (x & Hx & ?). exists x. split; [|done].
      rewrite list_lookup_alter_ne; [done|]. intros ->. set_solver.
    + intros Hn. destruct (so_nil0 Hn). done.
  - unfold close_drain in He1. destruct (pChan p) eqn:Hc; [|by injection He1].
    injection He1 as <-. injection He as <-. destruct Hok. simpl in *.
    rewrite ?Hc in *. split; simpl; rewrite ?Hc; try done; [|by right]. intros _. split; [by apply so_lock0|done].
  - destruct Hok. split; simpl in *; auto.
Qed.

Lemma preach_ok p0 s : fresh_pool p0 -> preach p0 s -> shared_ok s.
Proof.
  intros Hf Hr. apply shared_ok_fresh in Hf. unfold preach in Hr.
  remember (mkShared p0 [] 0 false) as s0 eqn:H0. clear H0. revert Hf.
  induction Hr as [|x y z Hxy _ IH]; [done|]. intros Hx. apply IH. by eapply shared_ok_step.
Qed.

(** C8: however the clients of a pool interleave (gets split at the channel
    read, recycles, closes of connections and of the pool, queries with any
    driver outcome), a connection is never idle and held at once, nor idle or
    held twice; the channel never exceeds its capacity; idle connections are
    open; and no client can make the pool panic (no send on the closed channel,
    no receive of a broken handle). *)
Theorem pool_safe p0 s :
  fresh_pool p0 -> preach p0 s ->
  NoDup (pChan (hPool s) ++ hHeld s) /\
  Z.of_nat (length (pChan (hPool s))) <= Z.max 0 (bcMaxConnections (pConf (hPool s))) /\
  (forall c, c ∈ pChan (hPool s) -> usable (hPool s) c) /\
  fst (recv (hPool s)) <> Panic /\
  (hLock s = false -> forall c, c ∈ hHeld s -> fst (Recycle c (hPool s)) = Ok tt).
Proof.
  intros Hf Hr. apply preach_ok in Hr; [|done]. pose proof Hr as [].
  split_and!; [done..| |].
  - pose proof (recv_spec _ so_idle0) as [_ Hm]. by destruct (fst (recv (hPool s))).
  - intros Hl c (l & l' & Hc)%list_elem_of_split. destruct s as [p held n lk]. simpl in *. subst.
    apply shared_ok_recycle in Hr as (p' & -> & _). done.
Qed.

(** Once a [Close] has finished, no connection is left in the channel and
    every later [Get], also one that read the channel before the close, returns
    the error of a closed pool. *)
Theorem pool_closed_stays p0 s :
  fresh_pool p0 -> preach p0 s -> pNil (hPool s) = true ->
  pChan (hPool s) = [] /\ fst (Pool_Get (hPool s)) = Err ErrClosed /\
  fst (recv (hPool s)) = Err ErrClosed.
Proof.
  intros Hf Hr Hn. apply preach_ok in Hr as []; [|done]. destruct (so_nil0 Hn) as [Hc He].
  split; [done|]. split.
  - unfold Pool_Get, mbind, M_bind, count, mmodify, getConns. simpl. by rewrite Hn.
  - unfold recv. by rewrite He, Hc.
Qed.

Lemma drain_runs m p held n :
  length (pChan p) = m ->
  exists p', drain m p = (Ok tt, p') /\ pChan p' = [] /\
    rtc pstep (mkShared p held n true) (mkShared p' held n true).
Proof.
  revert p. induction m as [|m IH]; intros p Hm.
  - exists p. split; [done|]. split; [by destruct (pChan p)|apply rtc_refl].
  - simpl. destruct (pChan p) as [|c l] eqn:Hc; [done|].
    assert (close_drain p = (Ok true, snd (conn_Close c (set_chan l p)))) as Hd.
    { unfold close_drain. rewrite Hc. reflexivity. }
    erewrite M_bind_Ok by exact Hd.
    destruct (IH (snd (conn_Close c (set_chan l p)))) as (p' & H1 & H2 & H3); [simpl in *; congruence|].
    exists p'. split; [done|]. split; [done|]. eapply rtc_l; [|exact H3]. by apply st_close_drain.
Qed.

(** The sequential [Get] and [Close] are runs of the interleaving
    semantics: its steps are the atomic sections of the methods. *)
Theorem pool_methods_are_runs p held n :
  (forall c p', Pool_Get p = (Ok c, p') ->
     rtc pstep (mkShared p held n false) (mkShared p' (c :: held) n false)) /\
  (forall e p', Pool_Get p = (Err e, p') ->
     rtc pstep (mkShared p held n false) (mkShared p' held n false)) /\
  (exists p', Pool_Close p = (Ok tt, p') /\
     rtc pstep (mkShared p held n false) (mkShared p' held n false)).
Proof.
  set (p1 := set_counters (counters_Add "#pool.get" 1 (pCounters p)) p).
  assert (Pool_Get p = if negb (pNil p) then recv p1 else (Err ErrClosed, p1)) as HG.
  { unfold Pool_Get. erewrite M_bind_Ok by reflexivity. erewrite M_bind_Ok by reflexivity.
    simpl. by destruct (pNil p). }
  split_and!.
  - intros c p'. rewrite HG. destruct (pNil p) eqn:Hn; [done|]. simpl. intros Hr.
    eapply rtc_l; [apply st_get_chan; unfold mbind, M_bind, count, mmodify, getConns; simpl; by rewrite Hn|].
    apply rtc_once. by apply st_recv_ok.
  - intros e p'. rewrite HG. destruct (pNil p) eqn:Hn; simpl.
    + intros [= <- <-]. apply rtc_once. apply st_get_nil; [done|].
      unfold mbind, M_bind, count, mmodify, getConns. simpl. by rewrite Hn.
    + intros Hr.
      eapply rtc_l; [apply st_get_chan; unfold mbind, M_bind, count, mmodify, getConns; simpl; by rewrite Hn|].
      apply rtc_once. by eapply st_recv_err.
  - unfold Pool_Close. erewrite M_bind_Ok by reflexivity. erewrite M_bind_Ok by reflexivity.
    change (pNil (set_counters _ p)) with (pNil p).
    destruct (pNil p) eqn:Hn.
    + eexists. split; [reflexivity|]. apply rtc_once. by apply st_close_nil.
    + erewrite M_bind_Ok by reflexivity.
      set (p2 := set_closed true (set_counters (counters_Add "#pool.close" 1 (pCounters p)) p)).
      destruct (drain_runs (length (pChan p2)) p2 held n eq_refl) as (p3 & H1 & H2 & H3).
      erewrite M_bind_Ok by exact H1. eexists. split; [reflexivity|].
      eapply rtc_l; [by apply st_close_begin|]. etrans; [exact H3|].
      apply rtc_once. eapply (st_close_end p3 held n p3); [|done]. unfold close_drain. by rewrite H2.
Qed.

(** [Execute] is [ExecuteWithLimits] without limits. *)
Lemma Execute_no_limits c q p : ExecuteWithLimits c q 0 0 p = Execute c q p.
Proof.
  unfold ExecuteWithLimits, Execute, mbind, M_bind. destruct (conn_get c p) as [[x| |] p1]; [|done..].
  destruct (cDialed x); [|done]. destruct (drv_next p1) as [[o| |] p2]; [|done..]. by destruct o.
Qed.

(** [Get] drops an idle connection whose ping is answered with a SQL
    error: the connection is open, but neither returned nor back in the pool. *)
Theorem Get_drops_unclosed p c x :
  pChan p = [c] -> pNil p = false -> pHeap p !! c = Some x -> cDialed x = true -> cDrvClosed x = false ->
  1 < pNow p - cTimestamp x <= pMaxIdle p -> pScript p = [DrvSQLErr 1040] ->
  exists c' p', Pool_Get p = (Ok c', p') /\ c' <> c /\ pChan p' = [] /\ usable p' c.
Proof.
  intros Hc Hn Hx Hd Hcl Ht Hs. apply lookup_lt_Some in Hx as Hlt.
  exists (length (pHeap p)). eexists. split_and!.
  - unfold Pool_Get. erewrite M_bind_Ok by reflexivity. unfold getConns.
    erewrite M_bind_Ok by reflexivity. simpl. rewrite Hn. simpl. unfold recv. simpl. rewrite Hc.
    erewrite M_bind_Ok by (unfold conn_get; simpl; rewrite Hx; reflexivity).
    erewrite M_bind_Ok by reflexivity. simpl.
    destruct (Z.ltb_spec 1 (pNow p - cTimestamp x)); [|lia].
    destruct (Z.ltb_spec (pMaxIdle p) (pNow p - cTimestamp x)); [lia|].
    erewrite M_bind_Ok.
    2: { unfold Ping. erewrite M_bind_Ok by (unfold conn_get; simpl; rewrite Hx; reflexivity).
         rewrite Hd. erewrite M_bind_Ok by (unfold drv_next; simpl; rewrite Hs; reflexivity).
         reflexivity. }
    unfold mbind, M_bind. reflexivity.
  - lia.
  - reflexivity.
  - exists x. simpl. rewrite !list_lookup_alter_ne by lia. by rewrite lookup_app_l.
Qed.
End interleaving.

(** ** Concrete instances *)
Definition ex_driver : Driver := {| ConnectionID _ n := Z.of_nat n + 1 |}.
Definition ex_backend : BackendConfig := mkBackendConfig "b1" "a:1" "" "u" "p" "db" "utf8" 2 NormalBackend.
Definition ex_pool : Pool := mkPool "a:1" ex_backend [] false false ∅ maxIdleTime [] [] 100 [].

Lemma ex_pool_run : preach (D := ex_driver) ex_pool (mkShared (snd (Pool_Get (D := ex_driver) ex_pool)) [0%nat] 0 false).
Proof.
  eapply rtc_l; [eapply (st_get_chan (D := ex_driver)); reflexivity|].
  apply rtc_once. apply (st_recv_ok (D := ex_driver)). reflexivity.
Qed.

Lemma pool_safe_witness :
  NoDup (pChan (snd (Pool_Get (D := ex_driver) ex_pool)) ++ [0%nat]).
Proof.
  apply (pool_safe (D := ex_driver) ex_pool (mkShared (snd (Pool_Get (D := ex_driver) ex_pool)) [0%nat] 0 false)).
  - split_and!; reflexivity.
  - exact ex_pool_run.
Defined.

Lemma pool_closed_stays_witness :
  fst (Pool_Get (D := ex_driver) (snd (Pool_Close ex_pool))) = Err ErrClosed.
Proof.
  apply (pool_closed_stays (D := ex_driver) ex_pool (mkShared (snd (Pool_Close ex_pool)) [] 0 false)).
  - split_and!; reflexivity.
  - eapply rtc_l; [eapply (st_close_begin (D := ex_driver)); reflexivity|].
    apply rtc_once. eapply (st_close_end (D := ex_driver)); reflexivity.
  - reflexivity.
Defined.

Definition ex_idle_pool : Pool :=
  mkPool "a:1" ex_backend [0%nat] false false ∅ maxIdleTime [mkConn 1 true false false false 90]
    [DrvSQLErr 1040] 100 [].
Lemma Get_drops_unclosed_witness :
  exists c' p', Pool_Get (D := ex_driver) ex_idle_pool = (Ok c', p') /\ c' <> 0%nat /\ pChan p' = [] /\
    usable p' 0.
Proof.
  apply (Get_drops_unclosed (D := ex_driver) ex_idle_pool 0 (mkConn 1 true false false false 90));
    try reflexivity. vm_compute. split; congruence.
Defined.
