(* ===== verification/Scatter.v ===== *)
(** * The backends of the proxy (src/backend: scatter.go, txnmgr.go, txnz.go)

    [Scatter] keeps a pool pair for every backend and writes their
    configurations to the metadata directory; [TxnManager] hands out
    transaction ids and counts the live transactions.

    A [*Poolz] is shared: the scatter keeps it under its name and every
    transaction has a copy of the map, so the pool pairs live in a heap
    [wPoolz] and a pointer is an index into it. *)
From S2P Require Import Prelude GoStd Config Pool.
Open Scope string_scope.
Open Scope list_scope.
Open Scope Z_scope.

(** [XaCommitErr] (xacheck.go) *)
Record XaCommitErr := mkXaCommitErr { xTime : string; xXaid : string; xState : string; xTimes : Z }.

(** [XaCheck]: the retry budget of a new entry and the pending entries. *)
Record XaCheck := mkXaCheck { xcTimes : Z; xcRetrys : gmap string XaCommitErr }.

(** The state of the backend package.  A file is absent ([None]), not valid
    JSON ([Some None]) or holds a value.  [wIo] fixes the outcomes of the I/O
    calls to come, [wScript] the driver outcomes of pools to be created by
    address, [wNow] and [wClock] the time. *)
Record World := mkWorld {
  wPoolz : list Poolz;
  wBackends : gmap string nat;
  wFile : option (option (list BackendConfig));
  wVersion : nat;
  wIo : list io_result;
  wXa : option XaCheck;
  wXaFile : option (option (list XaCommitErr));
  wXaTimesOut : list XaCommitErr;
  wTxnid : Z;
  wTxnNums : Z;
  wTxnz : gset Z;
  wCounters : gmap string Z;
  wScript : gmap string (list drv_out);
  wNow : Z;
  wClock : string
}.

Definition set_poolz (l : list Poolz) (w : World) : World :=
  mkWorld l (wBackends w) (wFile w) (wVersion w) (wIo w) (wXa w) (wXaFile w) (wXaTimesOut w)
    (wTxnid w) (wTxnNums w) (wTxnz w) (wCounters w) (wScript w) (wNow w) (wClock w).
Definition set_backends (m : gmap string nat) (w : World) : World :=
  mkWorld (wPoolz w) m (wFile w) (wVersion w) (wIo w) (wXa w) (wXaFile w) (wXaTimesOut w)
    (wTxnid w) (wTxnNums w) (wTxnz w) (wCounters w) (wScript w) (wNow w) (wClock w).
Definition set_file (f : option (option (list BackendConfig))) (w : World) : World :=
  mkWorld (wPoolz w) (wBackends w) f (wVersion w) (wIo w) (wXa w) (wXaFile w) (wXaTimesOut w)
    (wTxnid w) (wTxnNums w) (wTxnz w) (wCounters w) (wScript w) (wNow w) (wClock w).
Definition set_wversion (n : nat) (w : World) : World :=
  mkWorld (wPoolz w) (wBackends w) (wFile w) n (wIo w) (wXa w) (wXaFile w) (wXaTimesOut w)
    (wTxnid w) (wTxnNums w) (wTxnz w) (wCounters w) (wScript w) (wNow w) (wClock w).
Definition set_wio (l : list io_result) (w : World) : World :=
  mkWorld (wPoolz w) (wBackends w) (wFile w) (wVersion w) l (wXa w) (wXaFile w) (wXaTimesOut w)
    (wTxnid w) (wTxnNums w) (wTxnz w) (wCounters w) (wScript w) (wNow w) (wClock w).
Definition set_xa (x : option XaCheck) (w : World) : World :=
  mkWorld (wPoolz w) (wBackends w) (wFile w) (wVersion w) (wIo w) x (wXaFile w) (wXaTimesOut w)
    (wTxnid w) (wTxnNums w) (wTxnz w) (wCounters w) (wScript w) (wNow w) (wClock w).
Definition set_xafile (f : option (option (list XaCommitErr))) (w : World) : World :=
  mkWorld (wPoolz w) (wBackends w) (wFile w) (wVersion w) (wIo w) (wXa w) f (wXaTimesOut w)
    (wTxnid w) (wTxnNums w) (wTxnz w) (wCounters w) (wScript w) (wNow w) (wClock w).
Definition set_timesout (l : list XaCommitErr) (w : World) : World :=
  mkWorld (wPoolz w) (wBackends w) (wFile w) (wVersion w) (wIo w) (wXa w) (wXaFile w) l
    (wTxnid w) (wTxnNums w) (wTxnz w) (wCounters w) (wScript w) (wNow w) (wClock w).
Definition set_txns (id nums : Z) (tz : gset Z) (w : World) : World :=
  mkWorld (wPoolz w) (wBackends w) (wFile w) (wVersion w) (wIo w) (wXa w) (wXaFile w) (wXaTimesOut w)
    id nums tz (wCounters w) (wScript w) (wNow w) (wClock w).
Definition set_wcounters (c : gmap string Z) (w : World) : World :=
  mkWorld (wPoolz w) (wBackends w) (wFile w) (wVersion w) (wIo w) (wXa w) (wXaFile w) (wXaTimesOut w)
    (wTxnid w) (wTxnNums w) (wTxnz w) c (wScript w) (wNow w) (wClock w).

Abbreviation WM := (M World berr).

(** ** I/O *)
Definition wnext_io : WM io_result := fun w =>
  match wIo w with [] => (Ok IoOk, w) | x :: l => (Ok x, set_wio l w) end.

(** [config.WriteConfig] on a file: [upd None] stores what a torn write
    leaves. *)
Definition write_file {A} (v : A) (upd : option A -> World -> World) : WM unit :=
  x ← wnext_io;
  match x with
  | IoOk => mmodify (upd (Some v))
  | IoFail => mfail ErrIOb
  | IoTorn => _ ← mmodify (upd None); mfail ErrIOb
  end.

(** [if err := m(); err != nil { log.Panicf(...) }] *)
Definition or_panic {A} (m : WM A) : WM A :=
  x ← mtry m; match x with inl a => mret a | inr _ => mpanic end.

(** ** Scatter *)
Section scatter.
Context `{R : MapRange}.

(** The pool pair a pointer refers to. *)
Definition poolz_at (w : World) (loc : nat) : option Poolz := wPoolz w !! loc.
(** [v.conf] of the entries of [scatter.backends], in iteration order. *)
Definition backend_confs (w : World) : list BackendConfig :=
  omap (fun kv => zConf <$> poolz_at w (snd kv)) (map_range (wBackends w)).

(** [Scatter.add] *)
Definition scatter_add (config : BackendConfig) : WM unit := fun w =>
  match wBackends w !! bcName config with
  | Some _ => (Err (ErrBackendDup (bcName config)), w)
  | None =>
      if existsb (fun c => bool_decide (bcAddress c = bcAddress config)) (backend_confs w)
      then (Err (ErrAddressDup (bcAddress config)), w)
      else
        let script a := default [] (wScript w !! a) in
        let z := NewPoolz config (script (bcAddress config)) (script (bcReplica config)) (wNow w) in
        (Ok tt, set_backends (<[bcName config := length (wPoolz w)]> (wBackends w))
                  (set_poolz (wPoolz w ++ [z]) w))
  end.

(** [Scatter.Add] *)
Definition scatter_Add (config : BackendConfig) : WM unit := scatter_add config.

(** [poolz.Close()] through a pointer. *)
Definition close_poolz (loc : nat) (w : World) : World := set_poolz (alter Poolz_Close loc (wPoolz w)) w.

(** [Scatter.remove] *)
Definition scatter_remove (config : BackendConfig) : WM unit := fun w =>
  match wBackends w !! bcName config with
  | None => (Err (ErrBackendMissing (bcName config)), w)
  | Some loc => (Ok tt, close_poolz loc (set_backends (delete (bcName config) (wBackends w)) w))
  end.

(** [Scatter.Remove] *)
Definition scatter_Remove (config : BackendConfig) : WM unit := scatter_remove config.

(** [Scatter.clear] *)
Definition scatter_clear : WM unit := mmodify (fun w =>
  set_backends ∅ (foldr (fun kv w => close_poolz (snd kv) w) w (map_range (wBackends w)))).

(** [TxnManager.Close] *)
Definition mgr_Close : WM unit := mmodify (set_xa None).

(** [Scatter.Close] *)
Definition scatter_Close : WM unit := _ ← scatter_clear; mgr_Close.

(** [Scatter.FlushConfig] *)
Definition scatter_FlushConfig : WM unit :=
  w ← mget;
  _ ← or_panic (write_file (backend_confs w) (fun f => set_file (Some f)));
  or_panic (x ← wnext_io;
            match x with IoOk => mmodify (fun w => set_wversion (S (wVersion w)) w) | _ => mfail ErrIOb end).

(** [Scatter.LoadConfig] *)
Definition scatter_LoadConfig : WM unit :=
  _ ← scatter_clear;
  w ← mget;
  _ ← (match wFile w with
       | None => write_file ([] : list BackendConfig) (fun f => set_file (Some f))
       | Some _ => mret tt
       end);
  x ← wnext_io;
  match x with
  | IoOk =>
      w ← mget;
      match wFile w with
      | Some (Some confs) => miter scatter_add confs
      | Some None => mfail ErrJSON
      | None => mfail ErrIOb
      end
  | _ => mfail ErrIOb
  end.

(** [Scatter.AllBackends] *)
Definition AllBackends (w : World) : list string := sort_Strings (fst <$> map_range (wBackends w)).

(** The role of a backend, read through its pointer. *)
Definition is_normal (w : World) (loc : nat) : bool :=
  match poolz_at w loc with Some z => bcRole (zConf z) =? NormalBackend | None => false end.

(** [Scatter.Backends] *)
Definition Backends (w : World) : list string :=
  sort_Strings (fst <$> filter (fun kv => is_normal w (snd kv) = true) (map_range (wBackends w))).

(** [Scatter.CheckBackend] *)
Definition CheckBackend (w : World) (name : string) : bool :=
  existsb (fun kv => is_normal w (snd kv) && bool_decide (fst kv = name)) (map_range (wBackends w)).

(** [Scatter.PoolzClone] *)
Definition PoolzClone (w : World) : gmap string nat := list_to_map (reverse (map_range (wBackends w))).

(** [Scatter.BackendConfigsClone] *)
Definition BackendConfigsClone (w : World) : list BackendConfig := backend_confs w.
End scatter.

(** ** TxnManager *)

(** [TxnManager.GetID]: the counter is 64 bits wide. *)
Definition mgr_GetID : WM Z := fun w =>
  let id := wrap 64 (wTxnid w + 1) in (Ok id, set_txns id (wTxnNums w) (wTxnz w) w).

(** [TxnManager.Add] and [TxnManager.Remove]: the count of live transactions is a signed
    64-bit integer. *)
Definition mgr_Add : WM unit := mmodify (fun w =>
  set_txns (wTxnid w) (swrap 64 (wTxnNums w + 1)) (wTxnz w) w).
Definition mgr_Remove : WM unit := mmodify (fun w =>
  set_txns (wTxnid w) (swrap 64 (wTxnNums w - 1)) (wTxnz w) w).

(** [Txnz.Add] and [Txnz.Remove] (txnz.go), by transaction id *)
Definition txnz_Add (id : Z) : WM unit := mmodify (fun w =>
  set_txns (wTxnid w) (wTxnNums w) ({[ id ]} ∪ wTxnz w) w).
Definition txnz_Remove (id : Z) : WM unit := mmodify (fun w =>
  set_txns (wTxnid w) (wTxnNums w) (wTxnz w ∖ {[ id ]}) w).

(** [txnCounters.Add] *)
Definition txn_count (name : string) : WM unit := mmodify (fun w =>
  set_wcounters (counters_Add name 1 (wCounters w)) w).
