(* ===== verification/ScatterProps.v ===== *)
(** * Properties of the scatter

    Names and addresses stay unique, the configuration file restores the
    backends, and the listings agree with the map. *)
From S2P Require Import Prelude GoStd Config Pool PoolProps Scatter.
Open Scope string_scope.
Open Scope list_scope.
Open Scope Z_scope.

(** The configuration of a backend. *)
Definition conf_of (w : World) (n : string) : option BackendConfig :=
  loc ← wBackends w !! n; zConf <$> wPoolz w !! loc.

(** The invariant: pointers are valid, a backend is filed under its name, and
    no two backends have the same address. *)
Record scatter_ok (w : World) : Prop := {
  sc_ptr : forall n loc, wBackends w !! n = Some loc ->
    exists z, wPoolz w !! loc = Some z /\ bcName (zConf z) = n;
  sc_addr : forall n n' c c', conf_of w n = Some c -> conf_of w n' = Some c' ->
    bcAddress c = bcAddress c' -> n = n'
}.

Lemma scatter_ok_conf w n loc :
  scatter_ok w -> wBackends w !! n = Some loc -> exists c, conf_of w n = Some c /\ bcName c = n.
Proof.
  intros Hok Hn. destruct (sc_ptr w Hok _ _ Hn) as (z & Hz & Hname).
  exists (zConf z). unfold conf_of. rewrite Hn. simpl. by rewrite Hz.
Qed.

Lemma scatter_ok_inj w n n' loc :
  scatter_ok w -> wBackends w !! n = Some loc -> wBackends w !! n' = Some loc -> n = n'.
Proof.
  intros Hok Hn Hn'. destruct (sc_ptr w Hok _ _ Hn) as (z & Hz & <-).
  destruct (sc_ptr w Hok _ _ Hn') as (z' & Hz' & <-). congruence.
Qed.

(** Closing pools changes no configuration. *)
Lemma close_conf loc w i : zConf <$> wPoolz (close_poolz loc w) !! i = zConf <$> wPoolz w !! i.
Proof.
  simpl. destruct (decide (i = loc)) as [->|Hne].
  - rewrite list_lookup_alter_eq. by destruct (wPoolz w !! loc).
  - by rewrite list_lookup_alter_ne.
Qed.

(** The invariant depends on the map and the configurations only. *)
Lemma scatter_ok_same w w' :
  scatter_ok w -> (forall n loc, wBackends w' !! n = Some loc -> wBackends w !! n = Some loc) ->
  (forall i c, zConf <$> wPoolz w !! i = Some c -> zConf <$> wPoolz w' !! i = Some c) ->
  scatter_ok w'.
Proof.
  intros Hok Hb Hc.
  assert (forall n c, conf_of w' n = Some c -> conf_of w n = Some c) as Hconf.
  { intros n c. unfold conf_of. destruct (wBackends w' !! n) as [loc|] eqn:Hn; [|done].
    apply Hb in Hn as Hn'. rewrite Hn'. simpl. destruct (sc_ptr w Hok _ _ Hn') as (z & Hz & _).
    intros H. rewrite Hz. simpl. specialize (Hc loc (zConf z)). rewrite Hz, H in Hc.
    specialize (Hc eq_refl). congruence. }
  split.
  - intros n loc Hn. apply Hb in Hn. destruct (sc_ptr w Hok _ _ Hn) as (z & Hz & <-).
    specialize (Hc loc (zConf z)). rewrite Hz in Hc. specialize (Hc eq_refl).
    destruct (wPoolz w' !! loc) as [z'|]; [|done]. injection Hc as Hc. exists z'. by rewrite Hc.
  - intros n n' c c' ?%Hconf ?%Hconf. by eapply sc_addr.
Qed.

Lemma scatter_ok_wnext_io : preserves scatter_ok wnext_io.
Proof. intros w Hw. unfold wnext_io. destruct (wIo w); [done|]. by eapply scatter_ok_same. Qed.

Lemma scatter_ok_write {A} (v : A) upd :
  (forall f w, scatter_ok w -> scatter_ok (upd f w)) -> preserves scatter_ok (write_file v upd).
Proof.
  intros Hu. unfold write_file. apply preserves_bind; [apply scatter_ok_wnext_io|].
  intros []; [intros w Hw; by apply Hu|by intros w Hw|].
  apply preserves_bind; [intros w Hw; by apply Hu|by intros _ w Hw].
Qed.

Lemma scatter_ok_or_panic {A} (m : WM A) : preserves scatter_ok m -> preserves scatter_ok (or_panic m).
Proof.
  intros Hm. apply preserves_bind; [by apply preserves_mtry|]. by intros [] w Hw.
Qed.

Section props.
Context `{R : MapRange, !MapRangeOk R}.

Lemma map_range_lookup (m : gmap string nat) k v : (k, v) ∈ map_range m <-> m !! k = Some v.
Proof. rewrite map_range_perm. apply elem_of_map_to_list. Qed.

Lemma backend_confs_elem w c : c ∈ backend_confs w <-> exists n, conf_of w n = Some c.
Proof.
  unfold backend_confs, conf_of, poolz_at. rewrite list_elem_of_omap. split.
  - intros ([n loc] & Hin%map_range_lookup & Hc). exists n. by rewrite Hin.
  - intros [n Hn]. destruct (wBackends w !! n) as [loc|] eqn:Hb; [|done]. simpl in Hn.
    exists (n, loc). split; [by apply map_range_lookup|done].
Qed.

(** ** Adding a backend *)
Lemma scatter_add_Ok config w w' :
  scatter_add config w = (Ok tt, w') <->
  wBackends w !! bcName config = None /\
  (forall n c, conf_of w n = Some c -> bcAddress c <> bcAddress config) /\
  w' = set_backends (<[bcName config := length (wPoolz w)]> (wBackends w))
         (set_poolz (wPoolz w ++ [NewPoolz config (default [] (wScript w !! bcAddress config))
                                    (default [] (wScript w !! bcReplica config)) (wNow w)]) w).
Proof.
  unfold scatter_add. destruct (wBackends w !! bcName config) eqn:Hn; [naive_solver|].
  destruct (existsb _ _) eqn:He.
  - apply existsb_elem in He as (c & Hc & Ha%bool_decide_eq_true). apply backend_confs_elem in Hc as [n Hc].
    split; [done|]. intros (_ & H & _). by apply H in Hc.
  - split.
    + intros [= <-]. split_and!; [done| |done]. intros n c Hc Ha. apply not_true_iff_false in He.
      apply He, existsb_elem. exists c. split; [|by apply bool_decide_eq_true].
      apply backend_confs_elem. by exists n.
    + intros (_ & _ & ->). done.
Qed.

Lemma scatter_add_fail config w e w' : scatter_add config w = (Err e, w') -> w' = w.
Proof. unfold scatter_add. repeat case_match; congruence. Qed.

(** What [add] adds. *)
Lemma conf_of_add config w w' n :
  scatter_ok w -> scatter_add config w = (Ok tt, w') ->
  conf_of w' n = if decide (n = bcName config) then Some config else conf_of w n.
Proof.
  intros Hok (Hn & Ha & ->)%scatter_add_Ok. unfold conf_of. simpl.
  destruct (decide (n = bcName config)) as [->|Hne].
  - rewrite lookup_insert_eq. simpl. by rewrite lookup_app_r, Nat.sub_diag.
  - rewrite lookup_insert_ne by done. destruct (wBackends w !! n) as [loc|] eqn:Hb; [|done]. simpl.
    destruct (sc_ptr w Hok _ _ Hb) as (z & Hz & _). by rewrite (lookup_app_l_Some _ _ _ _ Hz), Hz.
Qed.

Lemma scatter_ok_add config : preserves scatter_ok (scatter_add config).
Proof.
  intros w Hok. destruct (scatter_add config w) as [r w'] eqn:H. simpl.
  destruct r as [[]|e|]; [|by apply scatter_add_fail in H as ->|].
  2: { unfold scatter_add in H. by repeat case_match. }
  pose proof (fun n => conf_of_add _ _ _ n Hok H) as Hc.
  apply scatter_add_Ok in H as (Hn & Ha & Hw'). split.
  - intros n loc. rewrite Hw'. simpl. destruct (decide (n = bcName config)) as [->|Hne].
    + rewrite lookup_insert_eq. intros [= <-]. rewrite lookup_app_r, Nat.sub_diag by done.
      eexists. split; [reflexivity|done].
    + rewrite lookup_insert_ne by done. intros (z & Hz & ?)%(sc_ptr w Hok).
      exists z. split; [by apply lookup_app_l_Some|done].
  - intros n n' c c'. rewrite !Hc. repeat case_decide; subst; try done.
    + intros [= <-] Hc' Heq. by apply Ha in Hc'.
    + intros Hc' [= <-] Heq. by apply Ha in Hc'.
    + by apply sc_addr.
Qed.

Lemma scatter_ok_remove config : preserves scatter_ok (scatter_remove config).
Proof.
  intros w Hok. unfold scatter_remove. destruct (wBackends w !! bcName config) as [loc|] eqn:Hn; [|done].
  eapply scatter_ok_same; [exact Hok| |].
  - intros n l. simpl. by intros [_ ?]%lookup_delete_Some.
  - intros i c Hc. cbn [snd]. by rewrite close_conf.
Qed.

Lemma scatter_ok_clear : preserves scatter_ok scatter_clear.
Proof. intros w Hok. split; unfold conf_of; simpl; intros *; by rewrite lookup_empty. Qed.

Lemma scatter_ok_LoadConfig : preserves scatter_ok scatter_LoadConfig.
Proof.
  unfold scatter_LoadConfig. apply preserves_bind; [apply scatter_ok_clear|intros _].
  apply preserves_bind; [by intros w Hw|intros w0]. apply preserves_bind.
  { destruct (wFile w0); [by intros w Hw|]. apply scatter_ok_write. intros f w Hw. by eapply scatter_ok_same. }
  intros _. apply preserves_bind; [apply scatter_ok_wnext_io|]. intros []; [|by intros w Hw..].
  apply preserves_bind; [by intros w Hw|intros w]. destruct (wFile w) as [[confs|]|]; [|by intros ? ?..].
  apply preserves_miter, scatter_ok_add.
Qed.

Lemma scatter_ok_FlushConfig : preserves scatter_ok scatter_FlushConfig.
Proof.
  unfold scatter_FlushConfig. apply preserves_bind; [by intros w Hw|intros w0]. apply preserves_bind.
  - apply scatter_ok_or_panic, scatter_ok_write. intros f w Hw. by eapply scatter_ok_same.
  - intros _. apply scatter_ok_or_panic, preserves_bind; [apply scatter_ok_wnext_io|].
    intros []; [|by intros w Hw..]. intros w Hw. by eapply scatter_ok_same.
Qed.

(** The calls on a scatter. *)
Inductive scatter_op :=
| OpAdd (c : BackendConfig)
| OpRemove (c : BackendConfig)
| OpFlush
| OpLoad
| OpClose.
Definition scatter_run (op : scatter_op) : WM unit :=
  match op with
  | OpAdd c => scatter_Add c
  | OpRemove c => scatter_Remove c
  | OpFlush => scatter_FlushConfig
  | OpLoad => scatter_LoadConfig
  | OpClose => scatter_Close
  end.

(** Every call on the scatter keeps names and addresses unique and every
    backend filed under its name, on success, on error and on panic. *)
Theorem scatter_preserves_ok op w : scatter_ok w -> scatter_ok (snd (scatter_run op w)).
Proof.
  revert w. change (preserves scatter_ok (scatter_run op)). destruct op; simpl.
  - apply scatter_ok_add.
  - apply scatter_ok_remove.
  - apply scatter_ok_FlushConfig.
  - apply scatter_ok_LoadConfig.
  - apply preserves_bind; [apply scatter_ok_clear|]. intros _ w Hw. by eapply scatter_ok_same.
Qed.

(** ** The configuration file *)

(** Adding distinct backends one after the other adds them all. *)
Lemma add_all confs w :
  scatter_ok w -> NoDup (bcName <$> confs) -> NoDup (bcAddress <$> confs) ->
  (forall c n c', c ∈ confs -> conf_of w n = Some c' -> n <> bcName c /\ bcAddress c' <> bcAddress c) ->
  exists w', miter scatter_add confs w = (Ok tt, w') /\ scatter_ok w' /\
    forall n, conf_of w' n = match list_find (fun c => bcName c = n) confs with
                             | Some (_, c) => Some c | None => conf_of w n end.
Proof.
  revert w. induction confs as [|c confs IH]; intros w Hok Hn Ha Hfree.
  { exists w. done. }
  apply NoDup_cons in Hn as [Hn Hns], Ha as [Ha Has].
  assert (exists w1, scatter_add c w = (Ok tt, w1)) as [w1 H1].
  { eexists. apply scatter_add_Ok. split_and!; [| |reflexivity].
    - destruct (wBackends w !! bcName c) as [loc|] eqn:Hb; [|done].
      destruct (scatter_ok_conf _ _ _ Hok Hb) as (c' & Hc' & _).
      destruct (Hfree c _ c' ltac:(left) Hc') as [? _]. done.
    - intros n c' Hc'. by destruct (Hfree c n c' ltac:(left) Hc'). }
  assert (scatter_ok w1) as Hok1.
  { pose proof (scatter_ok_add c w Hok) as H. by rewrite H1 in H. }
  pose proof (fun n => conf_of_add _ _ _ n Hok H1) as Hc1.
  destruct (IH w1 Hok1 Hns Has) as (w' & Hrun & Hok' & Hconf).
  - intros c0 n c' Hc0 Hc'. rewrite Hc1 in Hc'. case_decide as Hd.
    + subst n. injection Hc' as <-. split; intros Heq.
      * apply Hn. rewrite Heq. by apply list_elem_of_fmap_2.
      * apply Ha. rewrite Heq. by apply list_elem_of_fmap_2.
    + apply Hfree; [by right|done].
  - exists w'. split; [|split; [done|]].
    + cbn [miter]. by erewrite M_bind_Ok.
    + intros n. rewrite Hconf. simpl. unfold compose. destruct (decide (bcName c = n)) as [<-|Hne].
      * destruct (list_find _ confs) as [[i c']|] eqn:Hf; simpl.
        -- apply list_find_Some in Hf as (Hl & Heq & _). exfalso. apply Hn. rewrite <- Heq.
           apply list_elem_of_fmap_2. by eapply list_elem_of_lookup_2.
        -- rewrite Hc1. by rewrite decide_True.
      * destruct (list_find _ confs) as [[i c']|]; simpl; [done|]. rewrite Hc1. by rewrite decide_False by done.
Qed.

Lemma backend_confs_names w :
  scatter_ok w -> bcName <$> backend_confs w = fst <$> map_range (wBackends w).
Proof.
  intros Hok. unfold backend_confs.
  assert (forall l : list (string * nat), (forall kv, kv ∈ l -> wBackends w !! kv.1 = Some kv.2) ->
    bcName <$> omap (fun kv => zConf <$> poolz_at w kv.2) l = fst <$> l) as Hl.
  { induction l as [|[n loc] l IH]; intros Hin; [done|]. simpl.
    destruct (sc_ptr w Hok n loc) as (z & Hz & Hname); [apply (Hin (n, loc)); left|].
    unfold poolz_at. rewrite Hz. simpl. rewrite Hname. f_equal. apply IH. intros kv Hkv.
    apply Hin. by right. }
  apply Hl. intros [n loc] Hin. by apply map_range_lookup.
Qed.

Lemma backend_confs_NoDup w : scatter_ok w ->
  NoDup (bcName <$> backend_confs w) /\ NoDup (bcAddress <$> backend_confs w).
Proof.
  intros Hok. assert (NoDup (bcName <$> backend_confs w)) as Hn.
  { rewrite backend_confs_names, map_range_perm by done. apply NoDup_fst_map_to_list. }
  split; [done|]. apply NoDup_fmap_2_strong; [|by eapply NoDup_fmap_1].
  intros c c' [n Hc]%backend_confs_elem [n' Hc']%backend_confs_elem Heq.
  assert (n = n') as -> by (by eapply sc_addr). congruence.
Qed.

(** A load of an existing file: the backends are dropped, then the file is
    read. *)
Lemma load_after_clear w :
  is_Some (wFile (snd (scatter_clear w))) ->
  scatter_LoadConfig w =
    let w0 := snd (scatter_clear w) in
    match wIo w0 with
    | [] => match wFile w0 with
            | Some (Some confs) => miter scatter_add confs w0
            | Some None => (Err ErrJSON, w0)
            | None => (Err ErrIOb, w0)
            end
    | _ => scatter_LoadConfig w
    end.
Proof.
  intros [f Hf]. set (w0 := snd (scatter_clear w)) in *. cbv zeta.
  destruct (wIo w0) eqn:Hio; [|done]. unfold scatter_LoadConfig.
  rewrite (M_bind_Ok scatter_clear _ w tt w0) by reflexivity.
  rewrite (M_bind_Ok mget _ w0 w0 w0) by reflexivity. rewrite Hf.
  rewrite (M_bind_Ok _ _ w0 tt w0) by reflexivity.
  rewrite (M_bind_Ok wnext_io _ w0 IoOk w0) by (unfold wnext_io; by rewrite Hio).
  rewrite (M_bind_Ok mget _ w0 w0 w0) by reflexivity. rewrite Hf. by destruct f.
Qed.

(** Writing the configuration and loading it again succeeds when the I/O
    calls do, and restores every backend with its configuration and no other. *)
Theorem flush_load_roundtrip w :
  scatter_ok w -> wIo w = [] ->
  exists w1 w2, scatter_FlushConfig w = (Ok tt, w1) /\ scatter_LoadConfig w1 = (Ok tt, w2) /\
    scatter_ok w2 /\ forall n, conf_of w2 n = conf_of w n.
Proof.
  intros Hok Hio. destruct (backend_confs_NoDup w Hok) as [Hn Ha].
  set (w1 := set_wversion (S (wVersion w)) (set_file (Some (Some (backend_confs w))) w)).
  set (w0 := snd (scatter_clear w1)).
  destruct (add_all (backend_confs w) w0) as (w2 & Hrun & Hok2 & Hc); [|done|done| |].
  { split; unfold conf_of; simpl; intros *; by rewrite lookup_empty. }
  { intros c n c' _. unfold conf_of. simpl. by rewrite lookup_empty. }
  exists w1, w2. split_and!; [| |done|].
  - unfold scatter_FlushConfig, or_panic, write_file, wnext_io, mbind, M_bind, mtry, mget. simpl.
    rewrite Hio. simpl. by rewrite Hio.
  - assert (wIo w0 = [] /\ wFile w0 = Some (Some (backend_confs w))) as [Hio0 Hf0].
    { unfold w0. simpl. induction (map_range (wBackends w)); [by rewrite <- Hio|done]. }
    rewrite (load_after_clear w1) by (fold w0; rewrite Hf0; done). cbv zeta. fold w0. by rewrite Hio0, Hf0.
  - intros n. rewrite Hc. destruct (list_find _ _) as [[i c]|] eqn:Hf.
    + apply list_find_Some in Hf as (Hl & <- & _). apply list_elem_of_lookup_2 in Hl.
      apply backend_confs_elem in Hl as [n Hn']. unfold conf_of in Hn' |- *.
      destruct (wBackends w !! n) as [loc|] eqn:Hb; [|done]. simpl in Hn'.
      destruct (sc_ptr w Hok _ _ Hb) as (z & Hz & Hname). rewrite Hz in Hn'. injection Hn' as <-.
      rewrite Hname, Hb. simpl. by rewrite Hz.
    + apply list_find_None in Hf. rewrite Forall_forall in Hf. unfold conf_of at 1. simpl.
      rewrite lookup_empty. simpl. destruct (conf_of w n) as [c|] eqn:Hcn; [|done].
      exfalso. apply (Hf c); [apply backend_confs_elem; by exists n|].
      unfold conf_of in Hcn. destruct (wBackends w !! n) as [loc|] eqn:Hb; [|done]. simpl in Hcn.
      destruct (sc_ptr w Hok _ _ Hb) as (z & Hz & <-). rewrite Hz in Hcn. by injection Hcn as <-.
Qed.

(** a load whose file cannot be parsed returns the error with the scatter
    emptied: the pools were closed and the backends dropped before the file was
    read. *)
Theorem LoadConfig_bad_file w :
  wFile w = Some None -> wIo w = [] ->
  exists w', scatter_LoadConfig w = (Err ErrJSON, w') /\ wBackends w' = ∅.
Proof.
  intros Hf Hio. set (w0 := snd (scatter_clear w)).
  assert (wIo w0 = [] /\ wFile w0 = Some None /\ wBackends w0 = ∅) as (Hio0 & Hf0 & Hb0).
  { unfold w0. simpl. induction (map_range (wBackends w)) as [|kv l IH]; simpl in *; done. }
  exists w0. split; [|done]. rewrite load_after_clear by (fold w0; rewrite Hf0; done).
  cbv zeta. fold w0. by rewrite Hio0, Hf0.
Qed.

(** ** The listings *)

(** [AllBackends] lists every backend once in order, [Backends] exactly
    those with the normal role, and [CheckBackend] is membership in [Backends]. *)
Theorem backend_listings w :
  Sorted str_le (AllBackends w) /\ NoDup (AllBackends w) /\
  (forall n, n ∈ AllBackends w <-> is_Some (wBackends w !! n)) /\
  Sorted str_le (Backends w) /\
  (forall n, n ∈ Backends w <-> exists loc z, wBackends w !! n = Some loc /\ wPoolz w !! loc = Some z /\
     bcRole (zConf z) = NormalBackend) /\
  forall n, CheckBackend w n = true <-> n ∈ Backends w.
Proof.
  assert (forall l, Sorted str_le (sort_Strings l)) as Hsort.
  { intros l. apply Sorted_merge_sort. intros a b. apply str_le_total. }
  assert (forall n, n ∈ Backends w <-> exists loc z, wBackends w !! n = Some loc /\ wPoolz w !! loc = Some z /\
     bcRole (zConf z) = NormalBackend) as HB.
  { intros n. unfold Backends. rewrite sort_Strings_perm, list_elem_of_fmap. unfold is_normal, poolz_at. split.
    - intros ([k loc] & -> & [Hr Hin]%list_elem_of_filter). apply map_range_lookup in Hin. simpl in *.
      destruct (wPoolz w !! loc) as [z|] eqn:Hz; [|done]. exists loc, z. by apply Z.eqb_eq in Hr.
    - intros (loc & z & Hn & Hz & Hr). exists (n, loc). split; [done|]. apply list_elem_of_filter. simpl.
      rewrite Hz, Hr. split; [done|]. by apply map_range_lookup. }
  split_and!; [apply Hsort| | |apply Hsort|done|].
  - unfold AllBackends. rewrite sort_Strings_perm, map_range_perm. apply NoDup_fst_map_to_list.
  - intros n. unfold AllBackends. rewrite sort_Strings_perm, list_elem_of_fmap. split.
    + intros ([k loc] & -> & Hin). apply map_range_lookup in Hin. simpl. by rewrite Hin.
    + intros [loc Hn]. exists (n, loc). split; [done|]. by apply map_range_lookup.
  - intros n. rewrite HB. unfold CheckBackend. rewrite existsb_elem. unfold is_normal, poolz_at. split.
    + intros ([k loc] & Hin & [Hr Hk%bool_decide_eq_true]%andb_true_iff). apply map_range_lookup in Hin.
      simpl in *. subst k. destruct (wPoolz w !! loc) as [z|] eqn:Hz; [|done]. exists loc, z.
      by apply Z.eqb_eq in Hr.
    + intros (loc & z & Hn & Hz & Hr). exists (n, loc). simpl. rewrite Hz, Hr. split; [by apply map_range_lookup|].
      by rewrite bool_decide_eq_true_2.
Qed.

(** A copy of the map is the map. *)
Lemma PoolzClone_eq w : PoolzClone w = wBackends w.
Proof.
  unfold PoolzClone. apply map_eq. intros n.
  destruct (wBackends w !! n) as [loc|] eqn:Hn.
  - apply elem_of_list_to_map_1.
    + rewrite fmap_reverse, reverse_Permutation, map_range_perm. apply NoDup_fst_map_to_list.
    + rewrite elem_of_reverse. by apply map_range_lookup.
  - apply not_elem_of_list_to_map_1. rewrite fmap_reverse, elem_of_reverse.
    intros ([k loc] & -> & Hin%map_range_lookup)%list_elem_of_fmap. simpl in Hn. congruence.
Qed.
End props.

(** ** Concrete instances *)
Definition ex_b1 : BackendConfig := mkBackendConfig "b1" "a:1" "" "u" "p" "db" "utf8" 2 NormalBackend.
Definition ex_b2 : BackendConfig := mkBackendConfig "b2" "a:2" "" "u" "p" "db" "utf8" 2 NormalBackend.
Definition ex_world (script : gmap string (list drv_out)) : World :=
  mkWorld [] ∅ None 0 [] (Some (mkXaCheck 10 ∅)) None [] 0 0 ∅ ∅ script 100 "20200101000000".
Definition ex_scatter (script : gmap string (list drv_out)) : World :=
  snd (miter scatter_run [OpAdd ex_b1; OpAdd ex_b2] (ex_world script)).

Lemma ex_world_ok script : scatter_ok (ex_world script).
Proof. split; unfold conf_of; simpl; intros *; by rewrite lookup_empty. Qed.

Lemma ex_scatter_ok script : scatter_ok (ex_scatter script).
Proof.
  apply (preserves_miter scatter_ok scatter_run); [|apply ex_world_ok].
  intros op w Hw. destruct op; simpl.
  - by apply scatter_ok_add.
  - by apply scatter_ok_remove.
  - by apply scatter_ok_FlushConfig.
  - by apply scatter_ok_LoadConfig.
  - by eapply scatter_ok_same; [apply scatter_ok_clear, Hw|..].
Qed.

Lemma scatter_preserves_ok_witness : scatter_ok (snd (scatter_run (OpAdd ex_b1) (ex_world ∅))).
Proof. apply (scatter_preserves_ok (OpAdd ex_b1) (ex_world ∅)). apply ex_world_ok. Defined.

Lemma flush_load_roundtrip_witness :
  exists w1 w2, scatter_FlushConfig (ex_scatter ∅) = (Ok tt, w1) /\ scatter_LoadConfig w1 = (Ok tt, w2) /\
    conf_of w2 "b2" = Some ex_b2.
Proof.
  destruct (flush_load_roundtrip (ex_scatter ∅)) as (w1 & w2 & H1 & H2 & _ & H3);
    [apply ex_scatter_ok|vm_compute; reflexivity|].
  exists w1, w2. split; [exact H1|]. split; [exact H2|]. rewrite H3. vm_compute. reflexivity.
Defined.

Lemma LoadConfig_bad_file_witness :
  exists w', scatter_LoadConfig (set_file (Some None) (ex_scatter ∅)) = (Err ErrJSON, w') /\ wBackends w' = ∅.
Proof. apply (LoadConfig_bad_file (set_file (Some None) (ex_scatter ∅))); vm_compute; reflexivity. Defined.
