(* ===== verification/Txn.v ===== *)
(** * Distributed transactions (src/backend: txn.go, xa.go, xacheck.go; src/xcontext)

    A transaction takes connections from the pools of its backends, runs
    statements on them and, in two-phase mode, drives the XA protocol on every
    participant.

    Goroutines: [errgroup.Go] starts one goroutine per backend.  The goroutines
    of one call work on different backends, each on its own pool, connection
    and map key, and the call waits for all of them; they are run one after the
    other here, in the iteration order of the map, which is arbitrary.  The
    commit lock and the statistics histograms are left out. *)
From S2P Require Import Prelude GoStd Config Xcontext Pool Scatter.
Open Scope string_scope.
Open Scope list_scope.
Open Scope Z_scope.

(** ** States *)
Inductive txnState :=
| txnStateLive | txnStateBeginning | txnStateExecutingTwoPC | txnStateExecutingNormal
| txnStateRollbacking | txnStateCommitting | txnStateFinshing | txnStateAborting | txnStateRecovering.
Global Instance txnState_eq_dec : EqDecision txnState.
Proof. solve_decision. Defined.

Inductive txnXAState :=
| txnXAStateNone | txnXAStateStart | txnXAStateStartFinished | txnXAStateEnd | txnXAStateEndFinished
| txnXAStatePrepare | txnXAStatePrepareFinished | txnXAStateCommit | txnXAStateCommitFinished
| txnXAStateRollback | txnXAStateRollbackFinished | txnXAStateRecover | txnXAStateRecoverFinished.
Global Instance txnXAState_eq_dec : EqDecision txnXAState.
Proof. solve_decision. Defined.

(** A connection in the hands of a transaction: the pool pair it came from, the
    side (replica or normal) and its index there. *)
Record Handle := mkHandle { hdLoc : nat; hdReplica : bool; hdConn : nat }.

(** [Txn] *)
Record Txn := mkTxn {
  tId : Z;
  tXid : string;
  tSessionID : Z;
  tReq : option RequestContext;
  tTwopc : bool;
  tIsExecOnRep : bool;
  tIsMulti : bool;
  tState : txnState;
  tXaState : txnXAState;
  tBackends : gmap string nat;
  tTimeout : Z;
  tMaxResult : Z;
  tMaxJoinRows : Z;
  tErrors : Z;
  tTwopcConns : gmap string Handle;
  tNormalConns : list Handle;
  tReplicaConns : list Handle
}.

Definition set_Xid (v : string) (t : Txn) : Txn :=
  mkTxn (tId t) v (tSessionID t) (tReq t) (tTwopc t) (tIsExecOnRep t) (tIsMulti t) (tState t)
    (tXaState t) (tBackends t) (tTimeout t) (tMaxResult t) (tMaxJoinRows t) (tErrors t)
    (tTwopcConns t) (tNormalConns t) (tReplicaConns t).
Definition set_SessionID (v : Z) (t : Txn) : Txn :=
  mkTxn (tId t) (tXid t) v (tReq t) (tTwopc t) (tIsExecOnRep t) (tIsMulti t) (tState t)
    (tXaState t) (tBackends t) (tTimeout t) (tMaxResult t) (tMaxJoinRows t) (tErrors t)
    (tTwopcConns t) (tNormalConns t) (tReplicaConns t).
Definition set_Req (v : option RequestContext) (t : Txn) : Txn :=
  mkTxn (tId t) (tXid t) (tSessionID t) v (tTwopc t) (tIsExecOnRep t) (tIsMulti t) (tState t)
    (tXaState t) (tBackends t) (tTimeout t) (tMaxResult t) (tMaxJoinRows t) (tErrors t)
    (tTwopcConns t) (tNormalConns t) (tReplicaConns t).
Definition set_Twopc (v : bool) (t : Txn) : Txn :=
  mkTxn (tId t) (tXid t) (tSessionID t) (tReq t) v (tIsExecOnRep t) (tIsMulti t) (tState t)
    (tXaState t) (tBackends t) (tTimeout t) (tMaxResult t) (tMaxJoinRows t) (tErrors t)
    (tTwopcConns t) (tNormalConns t) (tReplicaConns t).
Definition set_IsExecOnRep (v : bool) (t : Txn) : Txn :=
  mkTxn (tId t) (tXid t) (tSessionID t) (tReq t) (tTwopc t) v (tIsMulti t) (tState t)
    (tXaState t) (tBackends t) (tTimeout t) (tMaxResult t) (tMaxJoinRows t) (tErrors t)
    (tTwopcConns t) (tNormalConns t) (tReplicaConns t).
Definition set_IsMulti (v : bool) (t : Txn) : Txn :=
  mkTxn (tId t) (tXid t) (tSessionID t) (tReq t) (tTwopc t) (tIsExecOnRep t) v (tState t)
    (tXaState t) (tBackends t) (tTimeout t) (tMaxResult t) (tMaxJoinRows t) (tErrors t)
    (tTwopcConns t) (tNormalConns t) (tReplicaConns t).
Definition set_State (v : txnState) (t : Txn) : Txn :=
  mkTxn (tId t) (tXid t) (tSessionID t) (tReq t) (tTwopc t) (tIsExecOnRep t) (tIsMulti t) v
    (tXaState t) (tBackends t) (tTimeout t) (tMaxResult t) (tMaxJoinRows t) (tErrors t)
    (tTwopcConns t) (tNormalConns t) (tReplicaConns t).
Definition set_XaState (v : txnXAState) (t : Txn) : Txn :=
  mkTxn (tId t) (tXid t) (tSessionID t) (tReq t) (tTwopc t) (tIsExecOnRep t) (tIsMulti t)
    (tState t) v (tBackends t) (tTimeout t) (tMaxResult t) (tMaxJoinRows t) (tErrors t)
    (tTwopcConns t) (tNormalConns t) (tReplicaConns t).
Definition set_Timeout (v : Z) (t : Txn) : Txn :=
  mkTxn (tId t) (tXid t) (tSessionID t) (tReq t) (tTwopc t) (tIsExecOnRep t) (tIsMulti t)
    (tState t) (tXaState t) (tBackends t) v (tMaxResult t) (tMaxJoinRows t) (tErrors t)
    (tTwopcConns t) (tNormalConns t) (tReplicaConns t).
Definition set_MaxResult (v : Z) (t : Txn) : Txn :=
  mkTxn (tId t) (tXid t) (tSessionID t) (tReq t) (tTwopc t) (tIsExecOnRep t) (tIsMulti t)
    (tState t) (tXaState t) (tBackends t) (tTimeout t) v (tMaxJoinRows t) (tErrors t)
    (tTwopcConns t) (tNormalConns t) (tReplicaConns t).
Definition set_MaxJoinRows (v : Z) (t : Txn) : Txn :=
  mkTxn (tId t) (tXid t) (tSessionID t) (tReq t) (tTwopc t) (tIsExecOnRep t) (tIsMulti t)
    (tState t) (tXaState t) (tBackends t) (tTimeout t) (tMaxResult t) v (tErrors t) (tTwopcConns
    t) (tNormalConns t) (tReplicaConns t).
Definition set_Errors (v : Z) (t : Txn) : Txn :=
  mkTxn (tId t) (tXid t) (tSessionID t) (tReq t) (tTwopc t) (tIsExecOnRep t) (tIsMulti t)
    (tState t) (tXaState t) (tBackends t) (tTimeout t) (tMaxResult t) (tMaxJoinRows t) v
    (tTwopcConns t) (tNormalConns t) (tReplicaConns t).
Definition set_TwopcConns (v : gmap string Handle) (t : Txn) : Txn :=
  mkTxn (tId t) (tXid t) (tSessionID t) (tReq t) (tTwopc t) (tIsExecOnRep t) (tIsMulti t)
    (tState t) (tXaState t) (tBackends t) (tTimeout t) (tMaxResult t) (tMaxJoinRows t) (tErrors
    t) v (tNormalConns t) (tReplicaConns t).
Definition set_NormalConns (v : list Handle) (t : Txn) : Txn :=
  mkTxn (tId t) (tXid t) (tSessionID t) (tReq t) (tTwopc t) (tIsExecOnRep t) (tIsMulti t)
    (tState t) (tXaState t) (tBackends t) (tTimeout t) (tMaxResult t) (tMaxJoinRows t) (tErrors
    t) (tTwopcConns t) v (tReplicaConns t).
Definition set_ReplicaConns (v : list Handle) (t : Txn) : Txn :=
  mkTxn (tId t) (tXid t) (tSessionID t) (tReq t) (tTwopc t) (tIsExecOnRep t) (tIsMulti t)
    (tState t) (tXaState t) (tBackends t) (tTimeout t) (tMaxResult t) (tMaxJoinRows t) (tErrors
    t) (tTwopcConns t) (tNormalConns t) v.

(** A transaction with the state of the package it runs in. *)
Record TW := mkTW { twW : World; twT : Txn }.
Abbreviation TM := (M TW berr).

Definition modify_txn (f : Txn -> Txn) : TM unit := mmodify (fun s => mkTW (twW s) (f (twT s))).

(** Run a method of the package. *)
Definition in_world {A} (m : WM A) : TM A := fun s =>
  let '(r, w) := m (twW s) in (r, mkTW w (twT s)).

(** [NewTxn] *)
Definition NewTxn (id : Z) (backends : gmap string nat) : WM Txn :=
  _ ← txnz_Add id;
  _ ← txn_count "#txn.create";
  mret (mkTxn id "" 0 None false false false txnStateLive txnXAStateNone backends 0 0 0 0 ∅ [] []).

(** [TxnManager.CreateTxn] *)
Definition CreateTxn (backends : gmap string nat) : WM Txn :=
  if decide (backends = ∅) then mfail ErrBackendsNull
  else
    txid ← mgr_GetID;
    txn ← NewTxn txid backends;
    _ ← mgr_Add;
    mret txn.

(** [Scatter.CreateTransaction] *)
Definition CreateTransaction `{MapRange} : WM Txn :=
  w ← mget; CreateTxn (PoolzClone w).

(** [incErrors] *)
Definition incErrors : TM unit := modify_txn (fun t => set_Errors (tErrors t + 1) t).

(** ** Pools through a transaction *)
Definition side_of (z : Poolz) (replica : bool) : option Pool := if replica then zReplica z else zNormal z.
Definition with_side (z : Poolz) (replica : bool) (p : Pool) : Poolz :=
  if replica then mkPoolz (zConf z) (zNormal z) (Some p) else mkPoolz (zConf z) (Some p) (zReplica z).

(** The pool behind a pointer. *)
Definition pool_at (w : World) (loc : nat) (replica : bool) : option Pool :=
  z ← wPoolz w !! loc; side_of z replica.
Definition put_pool (loc : nat) (replica : bool) (p : Pool) (w : World) : World :=
  set_poolz (alter (fun z => with_side z replica p) loc (wPoolz w)) w.

(** A method call on a pool or on a connection of it; a nil pool panics. *)
Definition on_pool {A} (loc : nat) (replica : bool) (m : PM A) : TM A := fun s =>
  match pool_at (twW s) loc replica with
  | None => (Panic, s)
  | Some p => let '(r, p') := m p in (r, mkTW (put_pool loc replica p' (twW s)) (twT s))
  end.

Definition on_conn {A} (h : Handle) (m : nat -> PM A) : TM A := on_pool (hdLoc h) (hdReplica h) (m (hdConn h)).

(** [errgroup.Group]: every function runs, [Wait] returns the first error. *)
Fixpoint eg_run {A} (ts : list (TM A)) : TM (list A) :=
  match ts with
  | [] => mret []
  | t :: ts =>
      x ← mtry t;
      ys ← mtry (eg_run ts);
      match x, ys with
      | inl a, inl l => mret (a :: l)
      | inr e, _ => mfail e
      | _, inr e => mfail e
      end
  end.

Definition xaMaxRetryNum : nat := 10.
Definition ER_XAER_NOTA : Z := 1397.

(** ** xacheck.go: the log of failed commits *)

(** [addXaCommitErrLog] *)
Definition addXaCommitErrLog (new : XaCommitErr) : WM unit := fun w =>
  match wXa w with
  | None => (Panic, w)
  | Some xc =>
      match xcRetrys xc !! xXaid new with
      | Some _ => (Err (ErrXaidDup (xXaid new)), w)
      | None => (Ok tt, set_xa (Some (mkXaCheck (xcTimes xc) (<[xXaid new := new]> (xcRetrys xc)))) w)
      end
  end.

Section txn.
Context `{D : Driver, R : MapRange}.

(** [flushXaCommitErrLog] *)
Definition flushXaCommitErrLog : WM unit :=
  w ← mget;
  match wXa w with
  | None => mpanic
  | Some xc => or_panic (write_file (snd <$> map_range (xcRetrys xc)) (fun f => set_xafile (Some f)))
  end.

(** [XaCheck.WriteXaCommitErrLog]; a nil [xaCheck] panics. *)
Definition WriteXaCommitErrLog (xid state : string) : WM unit :=
  w ← mget;
  match wXa w with
  | None => mpanic
  | Some xc =>
      _ ← addXaCommitErrLog (mkXaCommitErr (wClock w) xid state (xcTimes xc));
      flushXaCommitErrLog
  end.

(** ** Connections of a transaction *)

(** [twopcConnection] *)
Definition twopcConnection (backend : string) : TM Handle :=
  s ← mget;
  match tTwopcConns (twT s) !! backend with
  | Some h => mret h
  | None =>
      match tBackends (twT s) !! backend with
      | None =>
          _ ← in_world (txn_count "#get.twopc.connection.error");
          mfail (ErrNoPoolFor "twopc" backend)
      | Some loc =>
          c ← on_pool loc false Pool_Get;
          _ ← modify_txn (fun t => set_TwopcConns (<[backend := mkHandle loc false c]> (tTwopcConns t)) t);
          mret (mkHandle loc false c)
      end
  end.

(** [reFetchTwopcConnection] *)
Definition reFetchTwopcConnection (backend : string) : TM Handle :=
  s ← mget;
  _ ← (match tTwopcConns (twT s) !! backend with
       | Some h =>
           _ ← modify_txn (fun t => set_TwopcConns (delete backend (tTwopcConns t)) t);
           on_conn h conn_Close
       | None => mret tt
       end);
  twopcConnection backend.

(** [normalConnection] *)
Definition normalConnection (backend : string) : TM Handle :=
  s ← mget;
  match tBackends (twT s) !! backend with
  | None =>
      _ ← in_world (txn_count "#get.normal.connection.error");
      mfail (ErrNoPoolFor "normal" backend)
  | Some loc =>
      c ← on_pool loc false Pool_Get;
      _ ← modify_txn (fun t => set_NormalConns (tNormalConns t ++ [mkHandle loc false c]) t);
      mret (mkHandle loc false c)
  end.

(** [replicaConnection] *)
Definition replicaConnection (backend : string) : TM Handle :=
  s ← mget;
  match tBackends (twT s) !! backend with
  | Some loc =>
      match pool_at (twW s) loc true with
      | None =>
          _ ← in_world (txn_count "#get.replica.connection.error");
          mfail (ErrNoPoolFor "replica" backend)
      | Some _ =>
          c ← on_pool loc true Pool_Get;
          _ ← modify_txn (fun t => set_ReplicaConns (tReplicaConns t ++ [mkHandle loc true c]) t);
          mret (mkHandle loc true c)
      end
  | None =>
      _ ← in_world (txn_count "#get.replica.connection.error");
      mfail (ErrNoPoolFor "replica" backend)
  end.

(** [fetchOneConnection] *)
Definition fetchOneConnection (back : string) : TM Handle :=
  s ← mget;
  r ← (if tIsExecOnRep (twT s) then mtry (replicaConnection back) else mret (inr ErrNotImplemented));
  match r with
  | inl h => mret h
  | inr _ => if tTwopc (twT s) then twopcConnection back else normalConnection back
  end.

(** ** xa.go *)

(** The retry loop of [executeXA] for a commit or a rollback: [rest] attempts
    remain, [first] tells the attempt on the connection of the prepare, [x] is
    the last error. *)
Fixpoint xa_retry (rest : nat) (first : bool) (back query : string) (x : option berr) : TM unit :=
  match rest with
  | O => match x with None => mret tt | Some e => mfail e end
  | S rest =>
      c ← mtry (if first then twopcConnection back else reFetchTwopcConnection back);
      match c with
      | inr e => xa_retry rest false back query (Some e)
      | inl h =>
          r ← mtry (on_conn h (fun c => Execute c query));
          match r with
          | inl _ => mret tt
          | inr (ErrSQL n) =>
              if n =? ER_XAER_NOTA then mfail (ErrSQL n)
              else xa_retry rest false back query (Some (ErrSQL n))
          | inr e => xa_retry rest false back query (Some e)
          end
      end
  end.

(** [oneShard] of [executeXA] *)
Definition xa_oneShard (state : txnXAState) (query back : string) : TM unit :=
  match state with
  | txnXAStateStart | txnXAStateEnd | txnXAStatePrepare =>
      h ← twopcConnection back;
      _ ← on_conn h (fun c => Execute c query);
      mret tt
  | txnXAStateCommit | txnXAStateRollback => xa_retry xaMaxRetryNum true back query None
  | _ => mret tt
  end.

(** The keys of [backends := make(map[string]bool)]. *)
Definition query_backends (qs : list QueryTuple) : gmap string unit :=
  list_to_map ((fun q => (qtBackend q, tt)) <$> qs).

(** The participants of an XA statement, in iteration order: with one backend
    in the statement there is nothing to coordinate. *)
Definition participants (t : Txn) (req : RequestContext) : list string :=
  match rqMode req with
  | ReqNormal =>
      let backends := query_backends (rqQuerys req) in
      if (1 <? Z.of_nat (size backends)) then fst <$> map_range backends else []
  | ReqScatter => fst <$> map_range (tBackends t)
  | ReqSingle => []
  end.

(** [executeXA] *)
Definition executeXA (req : RequestContext) (state : txnXAState) : TM unit :=
  _ ← modify_txn (set_State txnStateExecutingTwoPC);
  s ← mget;
  _ ← eg_run ((fun back => xa_oneShard state (rqRawQuery req) back) <$> participants (twT s) req);
  mret tt.

(** [executeXACommand]; a nil [txn.req] panics. *)
Definition executeXACommand (query : string) (state : txnXAState) : TM unit :=
  s ← mget;
  match tReq (twT s) with
  | None => mpanic
  | Some req => executeXA (mkRequestContext query (rqMode req) TxnNone (rqQuerys req)) state
  end.

Definition XA_START (xid : string) : string := "XA START '" +:+ xid +:+ "'".
Definition XA_END (xid : string) : string := "XA END '" +:+ xid +:+ "'".
Definition XA_PREPARE (xid : string) : string := "XA PREPARE '" +:+ xid +:+ "'".
Definition XA_COMMIT (xid : string) : string := "XA COMMIT '" +:+ xid +:+ "'".
Definition XA_ROLLBACK (xid : string) : string := "XA ROLLBACK '" +:+ xid +:+ "'".

(** The common shape of [xaStart], [xaEnd] and [xaPrepare]: the deferred
    assignment of the final state runs on both returns. *)
Definition xa_phase (counter : string) (state finished : txnXAState) (query : string) : TM unit :=
  r ← mtry (executeXACommand query state);
  match r with
  | inl _ => modify_txn (set_XaState finished)
  | inr e =>
      _ ← in_world (txn_count (counter +:+ ".error"));
      _ ← incErrors;
      _ ← modify_txn (set_XaState finished);
      mfail e
  end.

(** [xaStart] *)
Definition xaStart : TM unit :=
  _ ← in_world (txn_count "#xa.start");
  _ ← modify_txn (set_XaState txnXAStateStart);
  s ← mget;
  let xid := (if tIsMulti (twT s) then "MULTRXID-" else "RXID-") +:+ wClock (twW s) +:+ "-" +:+ Itoa (tId (twT s)) in
  _ ← modify_txn (set_Xid xid);
  xa_phase "#xa.start" txnXAStateStart txnXAStateStartFinished (XA_START xid).

(** [xaEnd] *)
Definition xaEnd : TM unit :=
  _ ← in_world (txn_count "#xa.end");
  _ ← modify_txn (set_XaState txnXAStateEnd);
  s ← mget;
  xa_phase "#xa.end" txnXAStateEnd txnXAStateEndFinished (XA_END (tXid (twT s))).

(** [xaPrepare] *)
Definition xaPrepare : TM unit :=
  _ ← in_world (txn_count "#xa.prepare");
  _ ← modify_txn (set_XaState txnXAStatePrepare);
  s ← mget;
  xa_phase "#xa.prepare" txnXAStatePrepare txnXAStatePrepareFinished (XA_PREPARE (tXid (twT s))).

(** The second phase, [xaCommit] and [xaRollback]: a failure is logged for the
    check thread, and the error of the log itself is only printed. *)
Definition xa_second (counter logged : string) (state finished : txnXAState) (query : string) : TM unit :=
  r ← mtry (executeXACommand query state);
  _ ← (match r with
       | inl _ => mret tt
       | inr _ =>
           _ ← incErrors;
           _ ← in_world (txn_count (counter +:+ ".error"));
           s ← mget;
           _ ← mtry (in_world (WriteXaCommitErrLog (tXid (twT s)) logged)); mret tt
       end);
  modify_txn (set_XaState finished).

(** [xaCommit] *)
Definition xaCommit : TM unit :=
  _ ← in_world (txn_count "#xa.commit");
  _ ← modify_txn (set_XaState txnXAStateCommit);
  s ← mget;
  xa_second "#xa.commit" "commit" txnXAStateCommit txnXAStateCommitFinished (XA_COMMIT (tXid (twT s))).

(** [xaRollback] *)
Definition xaRollback : TM unit :=
  _ ← in_world (txn_count "#xa.rollback");
  _ ← modify_txn (set_XaState txnXAStateRollback);
  s ← mget;
  xa_second "#xa.rollback" "rollback" txnXAStateRollback txnXAStateRollbackFinished
    (XA_ROLLBACK (tXid (twT s))).

(** ** txn.go *)

(** [Begin] *)
Definition Begin : TM unit :=
  _ ← in_world (txn_count "#txn.begin");
  modify_txn (set_Twopc true).

(** Run [m] when the last request is a write; a nil [txn.req] panics. *)
Definition if_write (m : TM unit) : TM unit :=
  s ← mget;
  match tReq (twT s) with
  | None => mpanic
  | Some req => match rqTxnMode req with TxnWrite => m | _ => mret tt end
  end.

(** [Commit] *)
Definition Commit : TM unit :=
  _ ← modify_txn (set_State txnStateCommitting);
  if_write (_ ← xaEnd; _ ← xaPrepare; xaCommit).

(** [Rollback] *)
Definition Rollback : TM unit :=
  _ ← modify_txn (set_State txnStateRollbacking);
  if_write (_ ← xaEnd; _ ← xaPrepare; xaRollback).

(** [RollbackPhaseOne] *)
Definition RollbackPhaseOne : TM unit :=
  _ ← modify_txn (set_State txnStateRollbacking);
  if_write (_ ← xaEnd; xaRollback).

Definition scatterRequest : RequestContext := mkRequestContext "" ReqScatter TxnNone [].

(** [BeginScatter] *)
Definition BeginScatter : TM unit :=
  _ ← in_world (txn_count "#txn.begin");
  _ ← modify_txn (fun t => set_Req (Some scatterRequest) (set_Twopc true t));
  xaStart.

(** [CommitScatter] *)
Definition CommitScatter : TM unit :=
  _ ← modify_txn (fun t => set_Req (Some scatterRequest) (set_Twopc true (set_State txnStateCommitting t)));
  _ ← xaEnd; _ ← xaPrepare; xaCommit.

(** [RollbackScatter] *)
Definition RollbackScatter : TM unit :=
  _ ← modify_txn (fun t => set_Req (Some scatterRequest) (set_Twopc true (set_State txnStateRollbacking t)));
  _ ← xaEnd; _ ← xaPrepare; xaRollback.

(** [SetMultiStmtTxn] *)
Definition SetMultiStmtTxn : TM unit := modify_txn (set_IsMulti true).

(** ** Executing queries *)

(** The loop over the queries of one shard. *)
Fixpoint exec_querys (h : Handle) (timeout maxResult : Z) (querys : list string) : TM (list Result) :=
  match querys with
  | [] => mret []
  | q :: qs =>
      r ← on_conn h (fun c => ExecuteWithLimits c q timeout maxResult);
      rs ← exec_querys h timeout maxResult qs;
      mret (r :: rs)
  end.

(** [oneShard] of [execute] *)
Definition oneShard (back : string) (querys : list string) : TM (list Result) :=
  h ← fetchOneConnection back;
  s ← mget;
  exec_querys h (tTimeout (twT s)) (tMaxResult (twT s)) querys.

(** [queryMap] *)
Definition queryMap (qs : list QueryTuple) : gmap string (list string) :=
  foldl (fun m q => <[qtBackend q := default [] (m !! qtBackend q) ++ [qtQuery q]]> m) ∅ qs.

(** The backends of [txn.backends] with the normal role, in iteration order. *)
Definition normal_backends (s : TW) : list string :=
  fst <$> filter (fun kv => is_normal (twW s) (snd kv) = true) (map_range (tBackends (twT s))).

(** The shards a request runs on, with their queries. *)
Definition shards (s : TW) (req : RequestContext) : list (string * list string) :=
  match rqMode req with
  | ReqSingle => (fun b => (b, [rqRawQuery req])) <$> take 1 (normal_backends s)
  | ReqScatter => (fun b => (b, [rqRawQuery req])) <$> normal_backends s
  | ReqNormal => map_range (queryMap (rqQuerys req))
  end.

(** [execute] *)
Definition txn_execute (req : RequestContext) : TM Result :=
  _ ← modify_txn (fun t => set_State (if tTwopc t then txnStateExecutingTwoPC else txnStateExecutingNormal) t);
  s ← mget;
  rs ← eg_run ((fun kv => oneShard (fst kv) (snd kv)) <$> shards s req);
  mret (foldl AppendResult emptyResult (mjoin rs)).

(** [Execute] *)
Definition txn_Execute (req : RequestContext) : TM Result :=
  s ← mget;
  _ ← (if tTwopc (twT s) then
         _ ← modify_txn (set_Req (Some req));
         match rqTxnMode req with
         | TxnWrite => if tIsMulti (twT s) then mret tt else xaStart
         | _ => mret tt
         end
       else mret tt);
  r ← mtry (txn_execute req);
  match r with
  | inl qr => mret qr
  | inr e => _ ← incErrors; mfail e
  end.

(** [ExecuteScatter], [ExecuteSingle] and [ExecuteOnThisBackend] *)
Definition ExecuteScatter (query : string) : TM Result :=
  txn_Execute (mkRequestContext query ReqScatter TxnNone []).
Definition ExecuteSingle (query : string) : TM Result :=
  txn_Execute (mkRequestContext query ReqSingle TxnNone []).
Definition ExecuteOnThisBackend (backend query : string) : TM Result :=
  txn_Execute (mkRequestContext "" ReqNormal TxnNone [mkQueryTuple query backend ""]).

(** ** The end of a transaction *)

(** The deferred functions of [Finish] and [Abort]. *)
Definition txn_deferred : TM unit :=
  _ ← modify_txn (fun t => set_IsMulti false (set_Twopc false t));
  s ← mget;
  in_world (txnz_Remove (tId (twT s))).

(** [if txn.errors > 0 { conn.Close() } else { conn.Recycle() }] *)
Definition give_back (errors : Z) (h : Handle) : TM unit :=
  if 0 <? errors then on_conn h conn_Close else on_conn h Recycle.

(** [Finish] *)
Definition Finish : TM unit :=
  _ ← in_world (txn_count "#txn.finish");
  s ← mget;
  _ ← (if decide (tState (twT s) = txnStateAborting) then mret tt
       else
         _ ← modify_txn (fun t => set_State txnStateFinshing (set_XaState txnXAStateNone t));
         _ ← miter (give_back (tErrors (twT s))) (snd <$> map_range (tTwopcConns (twT s)));
         _ ← modify_txn (set_TwopcConns ∅);
         _ ← miter (give_back (tErrors (twT s))) (tNormalConns (twT s));
         _ ← miter (give_back (tErrors (twT s))) (tReplicaConns (twT s));
         in_world mgr_Remove);
  txn_deferred.

(** [conn.Kill("txn.abort")], its error ignored *)
Definition abort_conn (h : Handle) : TM unit := _ ← mtry (on_conn h Kill); mret tt.

(** [Abort] *)
Definition Abort_ : TM unit :=
  _ ← in_world (txn_count "#txn.abort");
  s ← mget;
  _ ← (if decide (tState (twT s) = txnStateFinshing) then mret tt
       else
         _ ← modify_txn (set_State txnStateAborting);
         _ ← miter abort_conn (snd <$> map_range (tTwopcConns (twT s)));
         _ ← modify_txn (set_TwopcConns ∅);
         _ ← miter abort_conn (tNormalConns (twT s));
         _ ← miter abort_conn (tReplicaConns (twT s));
         in_world mgr_Remove);
  txn_deferred.
End txn.
