(* ===== verification/TxnProps.v ===== *)
(** * Two-phase commit

    What a transaction sends to its backends, phase by phase, and what holds
    when it commits, fails or finishes. *)
From S2P Require Import Prelude GoStd Config Xcontext Pool PoolProps Scatter ScatterProps Txn.
Open Scope string_scope.
Open Scope list_scope.
Open Scope Z_scope.

(** ** Statements sent through a pool

    [sends Q n m]: a run of [m] sends at most [n] statements, all in [Q]. *)
Definition sends {A} (Q : string -> Prop) (n : nat) (m : PM A) : Prop := forall p,
  exists new, pLog (snd (m p)) = pLog p ++ new /\ Forall (fun e => Q e.1.2) new /\ (length new <= n)%nat.

Lemma sends_none {A} Q (m : PM A) : (forall p, pLog (snd (m p)) = pLog p) -> sends Q 0 m.
Proof. intros H p. exists []. rewrite app_nil_r. split; [apply H|]. split; [constructor|simpl; lia]. Qed.

Lemma sends_bind {A B} Q n1 n2 (m : PM A) (k : A -> PM B) :
  sends Q n1 m -> (forall a, sends Q n2 (k a)) -> sends Q (n1 + n2) (x ← m; k x).
Proof.
  intros Hm Hk p. destruct (Hm p) as (l1 & H1 & Q1 & L1). unfold mbind, M_bind.
  destruct (m p) as [[a|e|] p1]; simpl in *; [|exists l1; split_and!; [done..|lia]|exists l1; split_and!; [done..|lia]].
  destruct (Hk a p1) as (l2 & H2 & Q2 & L2). exists (l1 ++ l2).
  rewrite H2, H1, app_assoc, length_app. split; [done|]. split; [by apply Forall_app|lia].
Qed.

Lemma sends_weaken {A} Q n n' (m : PM A) : (n <= n')%nat -> sends Q n m -> sends Q n' m.
Proof. intros Hn H p. destruct (H p) as (l & ? & ? & ?). exists l. split_and!; [done..|lia]. Qed.

(** A sequence that sends nothing. *)
Lemma sends0_bind {A B} Q (m : PM A) (k : A -> PM B) :
  sends Q 0 m -> (forall a, sends Q 0 (k a)) -> sends Q 0 (x ← m; k x).
Proof. apply (sends_bind Q 0 0). Qed.

Ltac sends0 :=
  repeat first
    [ apply sends0_bind; [|intros ?]
    | case_match
    | solve [apply sends_none; intros ?; simpl; repeat case_match; reflexivity] ].

Section sends.
Context `{D : Driver}.

Lemma sends_reconnect Q : sends Q 0 reconnect.
Proof.
  unfold reconnect, Dial, NewConnection, drv_next, conn_Close, SetTimestamp, conn_modify, count, mget, mfail.
  sends0.
Qed.

Lemma sends_Get Q : sends Q 0 Pool_Get.
Proof.
  unfold Pool_Get. apply sends0_bind; [by apply sends_none|intros _].
  apply sends0_bind; [by apply sends_none|]. intros []; [|by apply sends_none].
  intros p. unfold recv. destruct (pChan p) as [|c l].
  - destruct (pChanClosed p); [by apply (sends_none Q (mfail ErrClosed))|].
    apply (sends0_bind Q (count "#pool.miss")); [by apply sends_none|]. intros _. apply sends_reconnect.
  - change (pLog p) with (pLog (set_chan l p)). generalize (set_chan l p).
    match goal with |- context [snd (?m _)] => change (sends Q 0 m) end.
    apply sends0_bind; [apply sends_none; intros q; unfold conn_get; by case_match|intros x].
    apply sends0_bind; [by apply sends_none|intros q]. repeat case_match.
    + apply sends0_bind; [by apply sends_none|]. intros _. apply sends_reconnect.
    + apply sends0_bind.
      * unfold Ping, conn_get, drv_next, drv_after, conn_modify. sends0.
      * intros []; [sends0|]. apply sends0_bind; [by apply sends_none|]. intros _. apply sends_reconnect.
    + sends0.
Qed.

Lemma sends_Close Q c : sends Q 0 (conn_Close c).
Proof. by apply sends_none. Qed.

(** [Execute] sends its statement, and logs a success when it returns. *)
Lemma Execute_log c q p r p' :
  Execute c q p = (r, p') -> r <> Panic ->
  pLog p' = pLog p ++ [(c, q, is_Ok r)].
Proof.
  unfold Execute, mbind, M_bind. unfold conn_get at 1.
  destruct (pHeap p !! c) as [x|]; [|by intros [= <- <-]].
  destruct (cDialed x); [|by intros [= <- <-]].
  assert (exists o p2, drv_next p = (Ok o, p2) /\ pLog p2 = pLog p) as (o & p2 & -> & Hl).
  { unfold drv_next. destruct (pScript p); eauto. }
  unfold fetch_all, mbind, M_bind. simpl. rewrite <- Hl. unfold drv_after, mret, M_ret, mfail.
  destruct o as [qr b|n| | |]; simpl; unfold conn_get; simpl;
    repeat case_match; simplify_eq; intros; simplify_eq/=; done.
Qed.

Lemma sends_Execute (Q : string -> Prop) c q : Q q -> sends Q 1 (Execute c q).
Proof.
  intros Hq. unfold Execute. apply (sends_bind Q 0 1); [apply sends_none; intros p; unfold conn_get; by case_match|].
  intros x. destruct (cDialed x); [|by eapply sends_weaken, sends_none; [lia|]].
  apply (sends_bind Q 0 1); [apply sends_none; intros p; unfold drv_next; by case_match|]. intros o.
  unfold fetch_all. apply (sends_bind Q 1 0).
  - intros p. eexists. split; [reflexivity|]. split; [by repeat constructor|simpl; lia].
  - intros _. unfold drv_after, note_error, conn_get, conn_modify. sends0.
Qed.
End sends.

(** ** Statements sent by a transaction *)

(** The statements sent so far through a pool. *)
Definition log_of (s : TW) (loc : nat) (rep : bool) : list (nat * string * bool) :=
  match pool_at (twW s) loc rep with Some p => pLog p | None => [] end.

(** The statements sent between two states. *)
Definition sent (s s' : TW) (loc : nat) (rep : bool) (new : list (nat * string * bool)) : Prop :=
  log_of s' loc rep = log_of s loc rep ++ new.

(** The two-phase connections of a transaction belong to its backends. *)
Definition handles_ok (t : Txn) : Prop :=
  forall b h, tTwopcConns t !! b = Some h -> tBackends t !! b = Some (hdLoc h) /\ hdReplica h = false.

(** [ext Q f s s']: between [s] and [s'] at most [f loc] statements went to
    each pool of [loc], all in [Q]; the backends, the id, the request and the
    commit log are the same. *)
Record ext (Q : string -> Prop) (f : nat -> nat) (s s' : TW) : Prop := {
  ex_sent : forall loc rep, exists new,
    sent s s' loc rep new /\ Forall (fun e => Q e.1.2) new /\ (length new <= f loc)%nat;
  ex_backends : tBackends (twT s') = tBackends (twT s);
  ex_xid : tXid (twT s') = tXid (twT s);
  ex_req : tReq (twT s') = tReq (twT s);
  ex_xa : wXa (twW s') = wXa (twW s);
  ex_errors : tErrors (twT s) <= tErrors (twT s');
  ex_handles : handles_ok (twT s) -> handles_ok (twT s')
}.

Lemma ext_refl Q f s : ext Q f s s.
Proof.
  split; try done. intros loc rep. exists []. unfold sent. rewrite app_nil_r.
  split; [done|]. split; [constructor|simpl; lia].
Qed.

Lemma ext_trans Q f g s1 s2 s3 :
  ext Q f s1 s2 -> ext Q g s2 s3 -> ext Q (fun l => f l + g l)%nat s1 s3.
Proof.
  intros [A1] [A2]. split; [|congruence..|lia|auto].
  intros loc rep. destruct (A1 loc rep) as (n1 & H1 & Q1 & L1). destruct (A2 loc rep) as (n2 & H2 & Q2 & L2).
  exists (n1 ++ n2). unfold sent in *. rewrite H2, H1, app_assoc, length_app.
  split; [done|]. split; [by apply Forall_app|lia].
Qed.

Lemma ext_weaken (Q Q' : string -> Prop) f g s s' :
  (forall q, Q q -> Q' q) -> (forall l, f l <= g l)%nat -> ext Q f s s' -> ext Q' g s s'.
Proof.
  intros HQ Hf [A]. split; try done. intros loc rep. destruct (A loc rep) as (n & H & HQn & L).
  exists n. split; [done|]. split; [|specialize (Hf loc); lia]. eapply Forall_impl; [exact HQn|auto].
Qed.

(** The budget of a backend. *)
Definition at_backend (t : Txn) (b : string) (n : nat) (loc : nat) : nat :=
  if decide (tBackends t !! b = Some loc) then n else O.

(** [run Q b n m s]: from [s], [m] sends at most [n] statements, all in [Q] and
    all to backend [b]. *)
Definition run {A} (Q : string -> Prop) (b : string) (n : nat) (m : TM A) (s : TW) : Prop :=
  handles_ok (twT s) -> ext Q (at_backend (twT s) b n) s (snd (m s)).

Lemma run_bind {A B} Q b n1 n2 (m : TM A) (k : A -> TM B) s :
  run Q b n1 m s -> (forall a s1, handles_ok (twT s) -> m s = (Ok a, s1) -> run Q b n2 (k a) s1) ->
  run Q b (n1 + n2) (x ← m; k x) s.
Proof.
  intros Hm Hk Hh. specialize (Hm Hh). unfold mbind, M_bind.
  assert (forall l, at_backend (twT s) b (n1 + n2) l = at_backend (twT s) b n1 l + at_backend (twT s) b n2 l)%nat
    as Hadd by (intros l; unfold at_backend; case_decide; lia).
  destruct (m s) as [[a|e|] s1] eqn:He; simpl in *.
  - assert (handles_ok (twT s1)) as Hh1 by (by apply Hm).
    specialize (Hk a s1 Hh eq_refl Hh1).
    eapply ext_weaken; [| |eapply ext_trans; [exact Hm|exact Hk]]; [done|].
    intros l. rewrite Hadd. unfold at_backend. rewrite (ex_backends _ _ _ _ Hm). lia.
  - eapply ext_weaken; [| |exact Hm]; [done|]. intros l. rewrite Hadd. lia.
  - eapply ext_weaken; [| |exact Hm]; [done|]. intros l. rewrite Hadd. lia.
Qed.

Lemma run_weaken {A} Q b n n' (m : TM A) s : (n <= n')%nat -> run Q b n m s -> run Q b n' m s.
Proof.
  intros Hn Hr Hh. specialize (Hr Hh). eapply ext_weaken; [| |exact Hr]; [done|].
  intros l. unfold at_backend. case_decide; lia.
Qed.

Lemma run_same {A} Q b n (m : TM A) s : snd (m s) = s -> run Q b n m s.
Proof. intros H Hh. rewrite H. apply ext_refl. Qed.

Lemma run_mtry {A} Q b n (m : TM A) s : run Q b n m s -> run Q b n (mtry m) s.
Proof. intros Hr Hh. specialize (Hr Hh). unfold mtry. by destruct (m s) as [[]]. Qed.

(** Counting an event. *)
Lemma ext_count Q f s name : ext Q f s (snd (in_world (txn_count name) s)).
Proof.
  split; try done. intros loc rep. exists []. unfold sent. rewrite app_nil_r.
  split; [done|]. split; [constructor|simpl; lia].
Qed.

(** A change of the transaction that keeps its backends, id, request, errors
    and connections. *)
Lemma ext_modify_txn Q f s (g : Txn -> Txn) :
  (forall t, tBackends (g t) = tBackends t /\ tXid (g t) = tXid t /\ tReq (g t) = tReq t /\
     tErrors t <= tErrors (g t)) ->
  (handles_ok (twT s) -> handles_ok (g (twT s))) -> ext Q f s (snd (modify_txn g s)).
Proof.
  intros Hg Hh. destruct (Hg (twT s)) as (? & ? & ? & ?). split; try done.
  intros loc rep. exists []. unfold sent. rewrite app_nil_r.
  split; [done|]. split; [constructor|simpl; lia].
Qed.

Lemma pool_at_put loc rep p w loc' rep' :
  is_Some (pool_at w loc rep) ->
  pool_at (put_pool loc rep p w) loc' rep' =
    if decide (loc = loc' /\ rep = rep') then Some p else pool_at w loc' rep'.
Proof.
  intros [p0 Hp]. unfold pool_at, put_pool in *. simpl.
  destruct (wPoolz w !! loc) as [z|] eqn:Hz; [|done]. simpl in Hp.
  destruct (decide (loc = loc')) as [<-|Hne].
  - rewrite list_lookup_alter_eq, Hz. simpl. unfold side_of, with_side.
    destruct rep, rep'; case_decide; naive_solver.
  - rewrite list_lookup_alter_ne by done. rewrite decide_False by naive_solver. done.
Qed.

Lemma ext_on_pool {A} Q n loc rep (m : PM A) s :
  sends Q n m ->
  ext Q (fun l => if decide (l = loc) then n else O) s (snd (on_pool loc rep m s)).
Proof.
  intros Hm. unfold on_pool. destruct (pool_at (twW s) loc rep) as [p|] eqn:Hp; [|apply ext_refl].
  destruct (Hm p) as (new & Hl & HQ & Hn). destruct (m p) as [r p'] eqn:Hmp. simpl in *. split; try done.
  intros loc' rep'. unfold sent, log_of. simpl. rewrite pool_at_put by (by rewrite Hp).
  destruct (decide (loc = loc' /\ rep = rep')) as [[<- <-]|Hne].
  - exists new. rewrite Hp, decide_True by done. done.
  - exists []. rewrite app_nil_r. split; [done|]. split; [constructor|simpl; lia].
Qed.

Lemma run_on_conn {A} Q b n h (m : nat -> PM A) s :
  tBackends (twT s) !! b = Some (hdLoc h) -> sends Q n (m (hdConn h)) -> run Q b n (on_conn h m) s.
Proof.
  intros Hb Hm _. unfold on_conn. eapply ext_weaken; [| |by apply ext_on_pool]; [done|].
  intros l. unfold at_backend. destruct (decide (l = hdLoc h)) as [->|]; [|lia]. by rewrite decide_True.
Qed.

(** A backend has acknowledged a statement between two states. *)
Definition acked (b q : string) (s s' : TW) : Prop :=
  exists loc c new, tBackends (twT s) !! b = Some loc /\ sent s s' loc false new /\ (c, q, true) ∈ new.

Lemma acked_l b q Q f s s1 s2 : ext Q f s s1 -> acked b q s1 s2 -> acked b q s s2.
Proof.
  intros He (loc & c & new & Hb & Hs & Hin). destruct (ex_sent _ _ _ _ He loc false) as (n1 & H1 & _).
  exists loc, c, (n1 ++ new). split; [by rewrite <- (ex_backends _ _ _ _ He)|]. unfold sent in *.
  rewrite Hs, H1, app_assoc. split; [done|set_solver].
Qed.

Lemma acked_r b q Q f s s1 s2 : ext Q f s1 s2 -> acked b q s s1 -> acked b q s s2.
Proof.
  intros He (loc & c & new & Hb & Hs & Hin). destruct (ex_sent _ _ _ _ He loc false) as (n1 & H1 & _).
  exists loc, c, (new ++ n1). split; [done|]. unfold sent in *.
  rewrite H1, Hs, app_assoc. split; [done|set_solver].
Qed.

Section twopc.
Context `{D : Driver, R : MapRange}.

(** ** Connections *)
Lemma twopc_result b s h s1 :
  handles_ok (twT s) -> twopcConnection b s = (Ok h, s1) ->
  tBackends (twT s1) !! b = Some (hdLoc h) /\ hdReplica h = false.
Proof.
  intros Hh H. unfold twopcConnection, mbind, M_bind, mget in H.
  destruct (tTwopcConns (twT s) !! b) as [h0|] eqn:H0; [injection H as <- <-; by apply Hh|].
  destruct (tBackends (twT s) !! b) as [loc|] eqn:Hb; [|done].
  unfold on_pool in H. destruct (pool_at _ _ _); [|done]. destruct (Pool_Get p) as [[c| |] p']; [|done..].
  simpl in H. injection H as <- <-. done.
Qed.

Lemma run_twopc Q b s : run Q b 0 (twopcConnection b) s.
Proof.
  intros Hh. unfold twopcConnection, mbind at 1, M_bind at 1, mget.
  destruct (tTwopcConns (twT s) !! b) as [h0|] eqn:H0; [apply ext_refl|].
  destruct (tBackends (twT s) !! b) as [loc|] eqn:Hb.
  - revert Hh. apply (run_bind Q b 0 0).
    + intros _. eapply ext_weaken; [| |apply ext_on_pool, sends_Get]; [done|]. intros l. cbv beta. destruct (decide (l = loc)); lia.
    + intros c s1 _ He Hh1. assert (tBackends (twT s1) !! b = Some loc) as Hb1.
      { unfold on_pool in He. destruct (pool_at _ _ _) as [p|]; [|done].
        destruct (Pool_Get p) as [? ?]. by injection He as _ <-. }
      apply ext_modify_txn; [done|]. intros _ b' h'. simpl.
      destruct (decide (b = b')) as [<-|Hne]; [rewrite lookup_insert_eq; by intros [= <-]|].
      rewrite lookup_insert_ne by done. apply Hh1.
  - apply ext_count.
Qed.

Lemma run_reFetch Q b s : run Q b 0 (reFetchTwopcConnection b) s.
Proof.
  apply (run_bind Q b 0 0); [by apply run_same|]. intros s0 s1 Hh0 [= <- <-].
  apply (run_bind Q b 0 0).
  - destruct (tTwopcConns (twT s) !! b) as [h|] eqn:Hh; [|by apply run_same].
    destruct (Hh0 b h Hh) as [Hb Hr]. apply (run_bind Q b 0 0).
    + intros _. apply ext_modify_txn; [done|]. intros _ b' h'. simpl. intros [_ Hl]%lookup_delete_Some.
      by apply Hh0.
    + intros a s1 _ [= <- <-]. apply run_on_conn; [done|apply sends_Close].
  - intros a s1 _ _. apply run_twopc.
Qed.

Lemma reFetch_result b s h s1 :
  handles_ok (twT s) -> reFetchTwopcConnection b s = (Ok h, s1) ->
  tBackends (twT s1) !! b = Some (hdLoc h) /\ hdReplica h = false.
Proof.
  intros Hh H. unfold reFetchTwopcConnection in H. apply M_bind_inv_Ok in H as (s0 & s0' & Hg & H).
  injection Hg as <- <-. apply M_bind_inv_Ok in H as ([] & s2 & H2 & H). eapply twopc_result; [|exact H].
  destruct (tTwopcConns (twT s) !! b) as [h0|] eqn:H0; [|by injection H2 as <-].
  apply M_bind_inv_Ok in H2 as ([] & s3 & H3 & H2). injection H3 as <-.
  assert (twT s2 = set_TwopcConns (delete b (tTwopcConns (twT s))) (twT s)) as ->.
  { unfold on_conn, on_pool in H2. destruct (pool_at _ _ _); [|done]. by injection H2 as <-. }
  intros b' h'. simpl. intros [_ Hl]%lookup_delete_Some. by apply Hh.
Qed.

(** ** One participant *)

(** Sending one statement on a connection of the backend. *)
Lemma on_conn_acked b h q s r s' :
  tBackends (twT s) !! b = Some (hdLoc h) -> hdReplica h = false ->
  on_conn h (fun c => Execute c q) s = (Ok r, s') -> acked b q s s'.
Proof.
  intros Hb Hr H. unfold on_conn, on_pool in H.
  destruct (pool_at (twW s) (hdLoc h) (hdReplica h)) as [p|] eqn:Hp; [|done].
  destruct (Execute (hdConn h) q p) as [r0 p'] eqn:He. injection H as -> <-.
  apply Execute_log in He; [|done]. exists (hdLoc h), (hdConn h), [(hdConn h, q, true)].
  split; [done|]. split; [|left]. unfold sent, log_of. simpl. rewrite Hr in *.
  rewrite pool_at_put by (by rewrite Hp). rewrite decide_True, Hp by done. done.
Qed.

(** The fetch of an attempt. *)
Definition fetch_attempt (first : bool) (b : string) : TM Handle :=
  if first then twopcConnection b else reFetchTwopcConnection b.

Lemma run_attempt Q first b s : run Q b 0 (fetch_attempt first b) s.
Proof. destruct first; [apply run_twopc|apply run_reFetch]. Qed.

Lemma attempt_result first b s h s1 :
  handles_ok (twT s) -> fetch_attempt first b s = (Ok h, s1) ->
  tBackends (twT s1) !! b = Some (hdLoc h) /\ hdReplica h = false.
Proof. destruct first; [apply twopc_result|apply reFetch_result]. Qed.

(** The retry loop sends at most one statement per attempt. *)
Lemma run_retry n first b q x s : run (fun y => y = q) b n (xa_retry n first b q x) s.
Proof.
  revert first x s. induction n as [|n IH]; intros first x s; simpl.
  { destruct x; by apply run_same. }
  apply (run_bind _ b 0 (S n)); [apply run_mtry, run_attempt|].
  intros [h|e] s1 Hh H1; [|by apply (run_weaken _ _ n); [lia|]].
  apply (run_bind _ b 1 n).
  - apply run_mtry, run_on_conn; [|by apply sends_Execute].
    unfold mtry in H1. change (if first then _ else _) with (fetch_attempt first b) in H1.
    destruct (fetch_attempt first b s) as [[h'| |] s1'] eqn:Hf; simplify_eq. by eapply attempt_result.
  - intros [r|e] s2 _ _; [by apply run_same|]. destruct e; try apply IH.
    destruct (_ =? _); [by apply run_same|apply IH].
Qed.

(** A retry loop that returns got an acknowledgement. *)
Lemma retry_acked n first b q x s s' :
  handles_ok (twT s) -> (n <> O \/ x <> None) ->
  xa_retry n first b q x s = (Ok tt, s') -> acked b q s s'.
Proof.
  revert first x s. induction n as [|n IH]; intros first x s Hh Hor; cbn [xa_retry].
  { destruct x; [done|]. naive_solver. }
  change (if first then twopcConnection b else reFetchTwopcConnection b) with (fetch_attempt first b).
  intros (y & s1 & H1 & H)%M_bind_inv_Ok.
  pose proof (run_mtry (fun _ => True) b 0 _ s (run_attempt (fun _ => True) first b s) Hh) as He.
  rewrite H1 in He. simpl in He. eapply acked_l; [exact He|]. apply (ex_handles _ _ _ _ He) in Hh as Hh1.
  unfold mtry in H1. destruct (fetch_attempt first b s) as [[h|e|] s1'] eqn:Hf; simplify_eq.
  - destruct (attempt_result _ _ _ _ _ Hh Hf) as [Hb Hr]. apply M_bind_inv_Ok in H as (z & s2 & H2 & H).
    pose proof (run_mtry _ b 1 _ s1 (run_on_conn (fun y => y = q) b 1 h (fun c => Execute c q) s1 Hb
      ltac:(by apply sends_Execute)) Hh1) as He2.
    rewrite H2 in He2. simpl in He2. apply (ex_handles _ _ _ _ He2) in Hh1 as Hh2.
    destruct z as [r|e].
    + unfold mtry in H2. destruct (on_conn h _ s1) as [[r'| |] s2'] eqn:Hx; simplify_eq.
      injection H as <-. by eapply on_conn_acked.
    + eapply acked_l; [exact He2|].
      destruct e; try (by apply IH in H; [done..|right]).
      destruct (_ =? _); [done|]. by apply IH in H; [done..|right].
  - apply IH in H; [done..|by right].
Qed.

(** One participant of a statement in any phase. *)
Definition xa_budget (st : txnXAState) : nat :=
  match st with txnXAStateCommit | txnXAStateRollback => xaMaxRetryNum | _ => 1%nat end.
Definition xa_sends (st : txnXAState) : Prop :=
  st = txnXAStateStart \/ st = txnXAStateEnd \/ st = txnXAStatePrepare \/
  st = txnXAStateCommit \/ st = txnXAStateRollback.

Lemma run_shard st q b s :
  run (fun y => y = q) b (xa_budget st) (xa_oneShard st q b) s /\
  (handles_ok (twT s) -> xa_sends st ->
   forall s', xa_oneShard st q b s = (Ok tt, s') -> acked b q s s').
Proof.
  assert (run (fun y => y = q) b 1
    (h ← twopcConnection b; _ ← on_conn h (fun c => Execute c q); mret tt) s) as H1.
  { apply (run_bind _ b 0 1); [apply run_twopc|]. intros h s1 Hh He.
    apply (run_bind _ b 1 0); [|by intros; apply run_same].
    apply run_on_conn; [by eapply twopc_result|by apply sends_Execute]. }
  assert (handles_ok (twT s) -> forall s', (h ← twopcConnection b; _ ← on_conn h (fun c => Execute c q); mret tt) s
    = (Ok tt, s') -> acked b q s s') as H2.
  { intros Hh s' (h & s1 & He & H)%M_bind_inv_Ok. destruct (twopc_result _ _ _ _ Hh He) as [Hb Hr].
    pose proof (run_twopc (fun _ => True) b s Hh) as Hx. rewrite He in Hx. eapply acked_l; [exact Hx|].
    apply M_bind_inv_Ok in H as (r & s2 & H & H0). injection H0 as <-. by eapply on_conn_acked. }
  split.
  - unfold xa_oneShard, xa_budget. destruct st; cbv beta iota;
      first [exact H1|apply run_retry|by apply run_same].
  - unfold xa_oneShard, xa_sends. intros Hh Hst s'. destruct st; cbv beta iota;
      first [by apply H2|intros H; eapply retry_acked; [done| |exact H]; by left|naive_solver].
Qed.
(** ** All participants *)

(** The statements a list of backends may receive. *)
Fixpoint budgets (t : Txn) (bs : list string) (n : nat) (loc : nat) : nat :=
  match bs with [] => O | b :: bs => (at_backend t b n loc + budgets t bs n loc)%nat end.

Lemma budgets_once t bs n loc :
  NoDup bs -> (forall b b' l, tBackends t !! b = Some l -> tBackends t !! b' = Some l -> b = b') ->
  (budgets t bs n loc <= n)%nat.
Proof.
  intros Hnd Hinj. induction Hnd as [|b bs Hb Hnd IH]; simpl; [lia|]. unfold at_backend.
  case_decide as Hd; [|lia]. replace (budgets t bs n loc) with O; [lia|]. symmetry. clear IH Hnd.
  induction bs as [|b' bs IH]; simpl; [done|]. unfold at_backend. rewrite decide_False.
  - apply IH. set_solver.
  - intros Hd'. apply Hb. rewrite (Hinj b b' loc) by done. left.
Qed.

Lemma eg_shards st q bs s r s' :
  handles_ok (twT s) ->
  eg_run ((fun b => xa_oneShard st q b) <$> bs) s = (r, s') ->
  ext (fun y => y = q) (budgets (twT s) bs (xa_budget st)) s s' /\
  (xa_sends st -> is_Ok r = true -> forall b, b ∈ bs -> acked b q s s').
Proof.
  revert s r s'. induction bs as [|b bs IH]; intros s r s' Hh.
  { intros [= <- <-]. split; [apply ext_refl|]. set_solver. }
  destruct (run_shard st q b s) as [Hr Ha]. specialize (Hr Hh). rewrite fmap_cons. cbn [eg_run].
  unfold mbind at 1, M_bind at 1, mtry at 1. destruct (xa_oneShard st q b s) as [x s1] eqn:H1.
  cbn [snd] in Hr. apply (ex_handles _ _ _ _ Hr) in Hh as Hh1.
  assert (forall f, budgets (twT s1) bs f = budgets (twT s) bs f) as Hbud.
  { intros f. clear -Hr. induction bs as [|b' bs IH]; [done|]. simpl.
    unfold at_backend. by rewrite IH, (ex_backends _ _ _ _ Hr). }
  destruct (eg_run ((fun b => xa_oneShard st q b) <$> bs) s1) as [y s2] eqn:H2.
  destruct (IH s1 y s2 Hh1 H2) as [He2 Ha2]. rewrite Hbud in He2.
  assert (ext (fun y => y = q) (budgets (twT s) (b :: bs) (xa_budget st)) s s2) as He
    by (eapply ext_trans; [exact Hr|exact He2]).
  assert (ext (fun y => y = q) (budgets (twT s) (b :: bs) (xa_budget st)) s s1) as He1.
  { eapply ext_weaken; [| |exact Hr]; [done|]. intros l. simpl. lia. }
  assert (forall out : list unit + berr -> TM (list unit), (xs ← mtry (eg_run ((fun b => xa_oneShard st q b) <$> bs)); out xs) s1
    = match y with Ok l => out (inl l) s2 | Err e => out (inr e) s2 | Panic => (Panic, s2) end) as Hout.
  { intros out. unfold mbind, M_bind, mtry. rewrite H2. by destruct y. }
  destruct x as [[]|e|].
  - rewrite Hout. destruct y as [l|e|]; intros [= <- <-]; (split; [exact He|]); [|done|done].
    intros Hst _ b' [->|Hb']%elem_of_cons.
    + eapply acked_r; [exact He2|by apply Ha].
    + eapply acked_l; [exact Hr|by apply Ha2].
  - rewrite Hout. destruct y as [l|e'|]; intros [= <- <-]; by (split; [exact He|]).
  - intros [= <- <-]. by split.
Qed.

(** The participants of the current request. *)
Definition current (s : TW) : list string :=
  match tReq (twT s) with
  | Some req => participants (twT s) req
  | None => []
  end.

Lemma participants_raw t q req :
  participants t (mkRequestContext q (rqMode req) TxnNone (rqQuerys req)) = participants t req.
Proof. done. Qed.

Lemma participants_same t t' req : tBackends t' = tBackends t -> participants t' req = participants t req.
Proof. intros H. unfold participants. by rewrite H. Qed.

Lemma budgets_ext Q f s s' bs n : ext Q f s s' -> budgets (twT s') bs n = budgets (twT s) bs n.
Proof.
  intros He. induction bs as [|b bs IH]; [done|]. simpl. unfold at_backend.
  by rewrite IH, (ex_backends _ _ _ _ He).
Qed.

Lemma xa_command_spec st q s r s' :
  handles_ok (twT s) -> executeXACommand q st s = (r, s') ->
  ext (fun y => y = q) (budgets (twT s) (current s) (xa_budget st)) s s' /\
  (xa_sends st -> is_Ok r = true -> forall b, b ∈ current s -> acked b q s s').
Proof.
  intros Hh. unfold executeXACommand, current, mbind at 1, M_bind at 1, mget.
  destruct (tReq (twT s)) as [req|]; [|intros [= <- <-]; split; [apply ext_refl|done]].
  unfold executeXA. erewrite M_bind_Ok by reflexivity. erewrite M_bind_Ok by reflexivity.
  set (s0 := snd (modify_txn (set_State txnStateExecutingTwoPC) s)).
  change (twT (mkTW _ _)) with (twT s0). rewrite participants_raw.
  rewrite (participants_same (twT s) (twT s0)) by done. unfold mbind, M_bind.
  destruct (eg_run _ _) as [y s1] eqn:H1. intros H.
  assert (ext (fun y => y = q) (fun _ => O) s s0) as H0 by (by apply ext_modify_txn).
  destruct (eg_shards st q _ s0 y s1 Hh H1) as [He Ha].
  assert (s' = s1 /\ is_Ok r = is_Ok y) as [-> Hr] by (destruct y; by injection H as <- <-).
  split.
  { eapply ext_weaken; [| |exact (ext_trans _ _ _ _ _ _ H0 He)]; [done|].
    intros l. by rewrite (budgets_ext _ _ _ _ _ _ H0). }
  rewrite Hr. intros Hst Hy b Hb.
  eapply acked_l; [exact H0|by apply Ha].
Qed.

Lemma current_ext Q f s s' : ext Q f s s' -> current s' = current s.
Proof.
  intros He. unfold current. rewrite (ex_req _ _ _ _ He). destruct (tReq (twT s)); [|done].
  apply participants_same. apply He.
Qed.

(** A phase of the protocol: [xaEnd], [xaPrepare] *)
Lemma phase_spec counter st fin q s r s' :
  handles_ok (twT s) -> xa_sends st -> xa_phase counter st fin q s = (r, s') ->
  ext (fun y => y = q) (budgets (twT s) (current s) (xa_budget st)) s s' /\
  (is_Ok r = true -> forall b, b ∈ current s -> acked b q s s') /\
  (is_Err r = true -> tErrors (twT s) < tErrors (twT s')).
Proof.
  intros Hh Hst. unfold xa_phase, mbind at 1, M_bind at 1, mtry.
  destruct (executeXACommand q st s) as [x s1] eqn:H1. destruct (xa_command_spec _ _ _ _ _ Hh H1) as [He Ha].
  assert (forall (t' : Txn -> Txn) w', wPoolz w' = wPoolz (twW s1) -> wXa w' = wXa (twW s1) ->
    tBackends (t' (twT s1)) = tBackends (twT s1) -> tXid (t' (twT s1)) = tXid (twT s1) ->
    tReq (t' (twT s1)) = tReq (twT s1) -> tErrors (twT s1) <= tErrors (t' (twT s1)) ->
    tTwopcConns (t' (twT s1)) = tTwopcConns (twT s1) ->
    ext (fun y => y = q) (fun _ => O) s1 (mkTW w' (t' (twT s1)))) as Hmod.
  { intros t' w' Hp Hx Hb Hi Hq Her Hc. split; try done.
    - intros loc rep. exists []. unfold sent, log_of, pool_at. simpl. rewrite Hp, app_nil_r.
      split; [done|]. split; [constructor|simpl; lia].
    - intros Hok b h. simpl. rewrite Hc, Hb. apply Hok. }
  assert (forall s2, ext (fun y => y = q) (fun _ => O) s1 s2 ->
    ext (fun y => y = q) (budgets (twT s) (current s) (xa_budget st)) s s2) as Hall.
  { intros s2 H2. eapply ext_weaken; [| |eapply ext_trans; [exact He|exact H2]]; [done|]. intros l. cbv beta. lia. }
  destruct x as [[]|e|].
  - intros [= <- <-]. split; [by apply Hall, Hmod|]. split; [|done]. intros _ b Hb.
    eapply (acked_r _ _ (fun y => y = q) (fun _ => O)); [by apply Hmod|]. by apply Ha.
  - intros H. simpl in H. injection H as <- <-. split; [apply Hall|split; [done|]].
    + apply (Hmod (fun t => set_XaState fin (set_Errors (tErrors t + 1) t))); try done. simpl. lia.
    + intros _. simpl. pose proof (ex_errors _ _ _ _ He). lia.
  - intros [= <- <-]. by split.
Qed.

(** The state after the first two lines of a phase. *)
Definition started (counter : string) (st : txnXAState) (s : TW) : TW :=
  mkTW (set_wcounters (counters_Add counter 1 (wCounters (twW s))) (twW s)) (set_XaState st (twT s)).

Lemma started_ext Q counter st s : ext Q (fun _ => O) s (started counter st s).
Proof.
  split; try done. intros loc rep. exists []. unfold sent. rewrite app_nil_r.
  split; [done|]. split; [constructor|simpl; lia].
Qed.

(** What a phase guarantees. *)
Definition phase_ok (q : string) (n : nat) (s s' : TW) (r : res berr unit) : Prop :=
  ext (fun y => y = q) (budgets (twT s) (current s) n) s s' /\
  (is_Ok r = true -> forall b, b ∈ current s -> acked b q s s') /\
  (is_Err r = true -> tErrors (twT s) < tErrors (twT s')).

Lemma phase_from c0 counter st fin q s r s' :
  handles_ok (twT s) -> xa_sends st -> xa_phase counter st fin q (started c0 st s) = (r, s') ->
  phase_ok q (xa_budget st) s s' r.
Proof.
  intros Hh Hst H. apply phase_spec in H as (He & Ha & Hr); [|exact Hh|done].
  pose proof (started_ext (fun y => y = q) c0 st s) as H0. split; [|split; [|exact Hr]].
  - eapply ext_weaken; [| |eapply ext_trans; [exact H0|exact He]]; [done|]. intros l. cbv beta.
    by rewrite (budgets_ext _ _ _ _ _ _ H0).
  - intros Hok b Hb. eapply acked_l; [exact H0|]. by apply Ha.
Qed.

Lemma xaEnd_spec s r s' :
  handles_ok (twT s) -> xaEnd s = (r, s') -> phase_ok (XA_END (tXid (twT s))) 1 s s' r.
Proof.
  intros Hh H. unfold xaEnd in H. do 3 (erewrite M_bind_Ok in H by reflexivity).
  apply (phase_from _ _ txnXAStateEnd _ _ _ _ _ Hh) in H; [done|]. unfold xa_sends. auto.
Qed.

Lemma xaPrepare_spec s r s' :
  handles_ok (twT s) -> xaPrepare s = (r, s') -> phase_ok (XA_PREPARE (tXid (twT s))) 1 s s' r.
Proof.
  intros Hh H. unfold xaPrepare in H. do 3 (erewrite M_bind_Ok in H by reflexivity).
  apply (phase_from _ _ txnXAStatePrepare _ _ _ _ _ Hh) in H; [done|]. unfold xa_sends. auto.
Qed.

(** ** The second phase *)

(** Logging a failed commit touches no pool; unless it panics the transaction
    id is pending afterwards. *)
Lemma WriteXa_spec xid st w r w' :
  WriteXaCommitErrLog xid st w = (r, w') ->
  wPoolz w' = wPoolz w /\
  (r <> Panic -> exists xc, wXa w' = Some xc /\ is_Some (xcRetrys xc !! xid)).
Proof.
  unfold WriteXaCommitErrLog, mbind at 1, M_bind at 1, mget.
  destruct (wXa w) as [xc|] eqn:Hx; [|by intros [= <- <-]].
  unfold mbind, M_bind, addXaCommitErrLog. rewrite Hx. simpl.
  destruct (xcRetrys xc !! xid) eqn:Hr; [intros [= <- <-]; split; [done|]; rewrite Hx; eauto|].
  set (w1 := set_xa _ w). unfold flushXaCommitErrLog, or_panic, write_file, mbind, M_bind, mget, mtry, wnext_io.
  simpl. destruct (wIo w) as [|[] l]; intros [= <- <-]; (split; [done|]); [intros _..|done|done];
    (eexists; split; [reflexivity|]; simpl; rewrite lookup_insert_eq; eauto).
Qed.

(** The transaction id is in the log of the check thread. *)
Definition pending (s : TW) (xid : string) : Prop :=
  exists xc, wXa (twW s) = Some xc /\ is_Some (xcRetrys xc !! xid).

Lemma second_spec counter logged st fin q s r s' :
  handles_ok (twT s) -> xa_sends st -> xa_second counter logged st fin q s = (r, s') ->
  (forall loc rep, exists new, sent s s' loc rep new /\ Forall (fun e => e.1.2 = q) new /\
     (length new <= budgets (twT s) (current s) (xa_budget st) loc)%nat) /\
  is_Err r = false /\
  (is_Ok r = true -> (forall b, b ∈ current s -> acked b q s s') \/ pending s' (tXid (twT s))).
Proof.
  intros Hh Hst. unfold xa_second, mbind at 1, M_bind at 1, mtry at 1.
  destruct (executeXACommand q st s) as [x s1] eqn:H1. destruct (xa_command_spec _ _ _ _ _ Hh H1) as [He Ha].
  destruct x as [[]|e|].
  - intros [= <- <-]. split; [exact (ex_sent _ _ _ _ He)|]. split; [done|]. intros _. left. intros b Hb.
    destruct (Ha Hst eq_refl b Hb) as (loc & c & new & H). exists loc, c, new. exact H.
  - unfold mbind, M_bind. cbn -[WriteXaCommitErrLog]. unfold in_world, mtry. cbn -[WriteXaCommitErrLog].
    destruct (WriteXaCommitErrLog _ logged _) as [y w'] eqn:HW. apply WriteXa_spec in HW as [Hp Hx].
    assert (forall t loc rep, log_of (mkTW w' t) loc rep = log_of s1 loc rep) as Hlog.
    { intros t loc rep. unfold log_of, pool_at. simpl in *. by rewrite Hp. }
    assert (forall t loc rep, exists new, sent s (mkTW w' t) loc rep new /\ Forall (fun e => e.1.2 = q) new /\
      (length new <= budgets (twT s) (current s) (xa_budget st) loc)%nat) as Hsent.
    { intros t loc rep. destruct (ex_sent _ _ _ _ He loc rep) as (new & H & ?). exists new. split; [|done].
      unfold sent in *. by rewrite Hlog. }
    rewrite (ex_xid _ _ _ _ He) in Hx.
    destruct y as [[]|e'|]; intros [= <- <-]; (split; [apply Hsent|]); (split; [done|]); [| |done].
    all: intros _; right; apply Hx; done.
  - intros [= <- <-]. split; [exact (ex_sent _ _ _ _ He)|]. done.
Qed.

(** [xaCommit] and [xaRollback] *)
Lemma second_from c0 counter logged st fin q s r s' :
  handles_ok (twT s) -> xa_sends st -> xa_second counter logged st fin q (started c0 st s) = (r, s') ->
  (forall loc rep, exists new, sent s s' loc rep new /\ Forall (fun e => e.1.2 = q) new /\
     (length new <= budgets (twT s) (current s) (xa_budget st) loc)%nat) /\
  is_Err r = false /\
  (is_Ok r = true -> (forall b, b ∈ current s -> acked b q s s') \/ pending s' (tXid (twT s))).
Proof.
  intros Hh Hst H. apply second_spec in H as (Hs & He & Ho); [|exact Hh|done].
  pose proof (started_ext (fun y => y = q) c0 st s) as H0.
  rewrite (budgets_ext _ _ _ _ _ _ H0) in Hs. exact (conj Hs (conj He Ho)).
Qed.

(** ** Commit and rollback *)

(** The bodies of the commit and rollback methods. *)
Definition commit_seq : TM unit := _ ← xaEnd; _ ← xaPrepare; xaCommit.
Definition rollback_seq : TM unit := _ ← xaEnd; _ ← xaPrepare; xaRollback.

(** The statement went to a pool between two states. *)
Definition was_sent (q : string) (s s' : TW) : Prop :=
  exists loc rep new c ok, sent s s' loc rep new /\ (c, q, ok) ∈ new.

(** How a sequence of the two first phases and a second phase [m] ends. *)
Inductive ended (q : string) (s s' : TW) (r : res berr unit) : Prop :=
| ended_first : is_Ok r = false ->
    ext (fun y => y = XA_END (tXid (twT s)) \/ y = XA_PREPARE (tXid (twT s)))
      (fun l => budgets (twT s) (current s) 2 l) s s' ->
    (is_Err r = true -> tErrors (twT s) < tErrors (twT s')) -> ended q s s' r
| ended_second s2 : is_Err r = false ->
    ext (fun y => y = XA_END (tXid (twT s)) \/ y = XA_PREPARE (tXid (twT s)))
      (fun l => budgets (twT s) (current s) 2 l) s s2 ->
    (forall b, b ∈ current s -> acked b (XA_PREPARE (tXid (twT s))) s s2) ->
    (forall loc rep, exists new, sent s2 s' loc rep new /\ Forall (fun e => e.1.2 = q) new /\
       (length new <= budgets (twT s) (current s) xaMaxRetryNum loc)%nat) ->
    (is_Ok r = true -> (forall b, b ∈ current s -> acked b q s2 s') \/ pending s' (tXid (twT s))) ->
    ended q s s' r.

Lemma budgets_add t bs n m l : (budgets t bs n l + budgets t bs m l = budgets t bs (n + m) l)%nat.
Proof.
  induction bs as [|b bs IH]; [done|]. simpl. unfold at_backend in *. case_decide; lia.
Qed.

Lemma first_phases (m : TM unit) q s r s' :
  handles_ok (twT s) ->
  (forall s2 r s', handles_ok (twT s2) -> tXid (twT s2) = tXid (twT s) -> m s2 = (r, s') ->
     (forall loc rep, exists new, sent s2 s' loc rep new /\ Forall (fun e => e.1.2 = q) new /\
       (length new <= budgets (twT s2) (current s2) xaMaxRetryNum loc)%nat) /\
     is_Err r = false /\
     (is_Ok r = true -> (forall b, b ∈ current s2 -> acked b q s2 s') \/ pending s' (tXid (twT s2)))) ->
  (_ ← xaEnd; _ ← xaPrepare; m) s = (r, s') -> ended q s s' r.
Proof.
  intros Hh Hm H. set (X := tXid (twT s)) in *. unfold mbind at 1, M_bind at 1 in H.
  destruct (xaEnd s) as [r1 s1] eqn:H1. destruct (xaEnd_spec _ _ _ Hh H1) as (He1 & _ & Hr1).
  assert (ext (fun y => y = XA_END X \/ y = XA_PREPARE X) (fun l => budgets (twT s) (current s) 1 l) s s1)
    as He1' by (eapply ext_weaken; [| |exact He1]; [auto|done]).
  assert (ext (fun y => y = XA_END X \/ y = XA_PREPARE X) (fun l => budgets (twT s) (current s) 2 l) s s1) as He1''.
  { eapply ext_weaken; [| |exact He1']; [done|]. intros l.
    pose proof (budgets_add (twT s) (current s) 1 1 l). simpl in *. lia. }
  destruct r1 as [[]|e|]; [|injection H as <- <-; by apply ended_first..].
  apply (ex_handles _ _ _ _ He1) in Hh as Hh1.
  unfold mbind, M_bind in H. destruct (xaPrepare s1) as [r2 s2] eqn:H2.
  destruct (xaPrepare_spec _ _ _ Hh1 H2) as (He2 & Ha2 & Hr2).
  rewrite (ex_xid _ _ _ _ He1) in He2, Ha2. rewrite (current_ext _ _ _ _ He1) in Ha2, He2.
  rewrite (budgets_ext _ _ _ _ _ _ He1) in He2. fold X in He2, Ha2.
  assert (ext (fun y => y = XA_END X \/ y = XA_PREPARE X) (fun l => budgets (twT s) (current s) 2 l) s s2) as He.
  { eapply ext_weaken; [| |eapply ext_trans; [exact He1'|eapply ext_weaken; [| |exact He2]]];
      [done| |auto|done]. intros l. pose proof (budgets_add (twT s) (current s) 1 1 l). simpl in *. lia. }
  apply (ex_handles _ _ _ _ He) in Hh as Hh2.
  destruct r2 as [[]|e|].
  - apply Hm in H as (Hs & Hr & Ho); [|done|by rewrite (ex_xid _ _ _ _ He)].
    rewrite (current_ext _ _ _ _ He) in Hs, Ho. rewrite (budgets_ext _ _ _ _ _ _ He) in Hs.
    rewrite (ex_xid _ _ _ _ He) in Ho.
    eapply (ended_second q s s' r s2); try done. intros b Hb. eapply acked_l; [exact He1|]. by apply Ha2.
  - injection H as <- <-. apply ended_first; [done|done|]. intros _. pose proof (ex_errors _ _ _ _ He1).
    specialize (Hr2 eq_refl). lia.
  - injection H as <- <-. by apply ended_first.
Qed.

Lemma commit_ended s r s' :
  handles_ok (twT s) -> commit_seq s = (r, s') -> ended (XA_COMMIT (tXid (twT s))) s s' r.
Proof.
  intros Hh. apply first_phases; [done|]. intros s2 r2 s2' Hh2 Hx H. unfold xaCommit in H.
  do 3 (erewrite M_bind_Ok in H by reflexivity). rewrite <- Hx.
  apply (second_from _ _ _ txnXAStateCommit _ _ _ _ _ Hh2) in H; [done|]. unfold xa_sends. auto.
Qed.

Lemma rollback_ended s r s' :
  handles_ok (twT s) -> rollback_seq s = (r, s') -> ended (XA_ROLLBACK (tXid (twT s))) s s' r.
Proof.
  intros Hh. apply first_phases; [done|]. intros s2 r2 s2' Hh2 Hx H. unfold xaRollback in H.
  do 3 (erewrite M_bind_Ok in H by reflexivity). rewrite <- Hx.
  apply (second_from _ _ _ txnXAStateRollback _ _ _ _ _ Hh2) in H; [done|]. unfold xa_sends. auto.
Qed.

(** Statements of different phases differ. *)
Lemma phases_differ x : XA_END x <> XA_COMMIT x /\ XA_PREPARE x <> XA_COMMIT x /\
  XA_END x <> XA_ROLLBACK x /\ XA_PREPARE x <> XA_ROLLBACK x.
Proof. by split_and!. Qed.

Lemma ext_not_sent (Q : string -> Prop) f q s s' : ext Q f s s' -> ~ Q q -> ~ was_sent q s s'.
Proof.
  intros He Hq (loc & rep & new & c & ok & Hs & Hin). destruct (ex_sent _ _ _ _ He loc rep) as (n & Hn & HQ & _).
  unfold sent in *. rewrite Hn in Hs. apply app_inv_head in Hs as ->.
  rewrite Forall_forall in HQ. exact (Hq (HQ _ Hin)).
Qed.

(** A write transaction or a scatter transaction runs the sequence from a
    state with the same pools, backends and id. *)
Definition commits (s : TW) (m : TM unit) (bs : list string) : Prop :=
  (m = Commit /\ bs = current s /\ exists req, tReq (twT s) = Some req /\ rqTxnMode req = TxnWrite) \/
  (m = CommitScatter /\ bs = fst <$> map_range (tBackends (twT s))).

Lemma commits_from s m bs :
  commits s m bs -> exists s0, m s = commit_seq s0 /\ twW s0 = twW s /\ tBackends (twT s0) = tBackends (twT s) /\
    tXid (twT s0) = tXid (twT s) /\ tTwopcConns (twT s0) = tTwopcConns (twT s) /\
    tErrors (twT s0) = tErrors (twT s) /\ current s0 = bs /\ is_Some (tReq (twT s0)).
Proof.
  intros [(-> & -> & req & Hreq & Hw)|[-> ->]].
  - exists (mkTW (twW s) (set_State txnStateCommitting (twT s))). split_and!; try done.
    unfold Commit. erewrite M_bind_Ok by reflexivity. unfold if_write.
    erewrite M_bind_Ok by reflexivity. simpl. by rewrite Hreq, Hw.
  - exists (mkTW (twW s)
      (set_Req (Some scatterRequest) (set_Twopc true (set_State txnStateCommitting (twT s))))).
    by split_and!.
Qed.

Lemma commits_seq s m bs :
  commits s m bs -> exists s0, m s = commit_seq s0 /\ twW s0 = twW s /\ tBackends (twT s0) = tBackends (twT s) /\
    tXid (twT s0) = tXid (twT s) /\ tTwopcConns (twT s0) = tTwopcConns (twT s) /\
    tErrors (twT s0) = tErrors (twT s) /\ current s0 = bs.
Proof. intros (s0 & ? & ? & ? & ? & ? & ? & ? & _)%commits_from. by exists s0. Qed.

(** C1: two-phase commit is safe: whatever the servers answer, when the commit
    statement of a transaction reaches any backend, every participant has
    acknowledged the prepare of the transaction before. *)
Theorem Commit_after_all_prepared s m bs r s' :
  handles_ok (twT s) -> commits s m bs -> m s = (r, s') ->
  was_sent (XA_COMMIT (tXid (twT s))) s s' ->
  forall b, b ∈ bs -> acked b (XA_PREPARE (tXid (twT s))) s s'.
Proof.
  intros Hh Hc Hm Hsent b Hb. destruct (commits_seq s m bs Hc) as (s0 & He & Hw & Hbk & Hx & Ht & _ & Hcur).
  rewrite He in Hm. rewrite <- Hx in *. rewrite <- Hcur in Hb.
  assert (handles_ok (twT s0)) as Hh0 by (intros b0 h0; rewrite Ht, Hbk; apply Hh).
  assert (forall loc rep new, sent s s' loc rep new <-> sent s0 s' loc rep new) as Hs
    by (intros; unfold sent, log_of; by rewrite Hw).
  apply commit_ended in Hm as [Hr Hext _|s2 _ Hext Hp Hsnd _]; [| |done].
  - exfalso. eapply ext_not_sent; [exact Hext| |].
    2: { destruct Hsent as (loc & rep & new & c & ok & H1 & H2). exists loc, rep, new, c, ok.
         by rewrite <- Hs. }
    destruct (phases_differ (tXid (twT s0))) as (? & ? & _). naive_solver.
  - destruct (Hp b Hb) as (loc & c & new & H1 & H2 & H3). destruct (Hsnd loc false) as (n2 & Hn2 & _).
    exists loc, c, (new ++ n2). split; [by rewrite <- Hbk|]. split; [|set_solver].
    apply Hs. unfold sent in *. by rewrite Hn2, H2, app_assoc.
Qed.

(** C2: a commit that returns has committed everywhere or has recorded the
    transaction for the check thread: every participant acknowledged the
    commit, or the id is pending in [XaCheck]. *)
Theorem Commit_complete s m bs s' :
  handles_ok (twT s) -> commits s m bs -> m s = (Ok tt, s') ->
  (forall b, b ∈ bs -> acked b (XA_COMMIT (tXid (twT s))) s s') \/ pending s' (tXid (twT s)).
Proof.
  intros Hh Hc Hm. destruct (commits_seq s m bs Hc) as (s0 & He & Hw & Hbk & Hx & Ht & _ & Hcur).
  rewrite He in Hm. rewrite <- Hx. rewrite <- Hcur.
  assert (handles_ok (twT s0)) as Hh0 by (intros b0 h0; rewrite Ht, Hbk; apply Hh).
  apply commit_ended in Hm as [Hr Hext _|s2 _ Hext _ _ Ho]; [done| |done].
  destruct (Ho eq_refl) as [Ha|Hp]; [left|by right]. intros b Hb.
  destruct (acked_l _ _ _ _ _ _ _ Hext (Ha b Hb)) as (loc & c & new & H1 & H2 & H3).
  exists loc, c, new. split; [by rewrite <- Hbk|]. split; [|done]. unfold sent, log_of in *. by rewrite <- Hw.
Qed.

(** The effect of a commit that fails. *)
Lemma commit_fails s m bs e s' :
  handles_ok (twT s) -> commits s m bs -> m s = (Err e, s') ->
  ~ was_sent (XA_COMMIT (tXid (twT s))) s s' /\ ~ was_sent (XA_ROLLBACK (tXid (twT s))) s s' /\
  wXa (twW s') = wXa (twW s) /\ tErrors (twT s) < tErrors (twT s').
Proof.
  intros Hh Hc Hm. destruct (commits_seq s m bs Hc) as (s0 & He & Hw & Hbk & Hx & Ht & Her & Hcur).
  rewrite He in Hm. rewrite <- Hx. rewrite <- Her, <- Hw.
  assert (handles_ok (twT s0)) as Hh0 by (intros b0 h0; rewrite Ht, Hbk; apply Hh).
  apply commit_ended in Hm as [Hr Hext Hrise|s2 Hr]; [|done|done].
  assert (forall q, was_sent q s s' -> was_sent q s0 s') as Hs.
  { intros q (loc & rep & new & c & ok & H1 & H2). exists loc, rep, new, c, ok.
    unfold sent, log_of in *. by rewrite Hw. }
  destruct (phases_differ (tXid (twT s0))) as (? & ? & ? & ?).
  split_and!; [| |apply Hext|by apply Hrise].
  - intros Hsent%Hs. revert Hsent. eapply ext_not_sent; [exact Hext|naive_solver].
  - intros Hsent%Hs. revert Hsent. eapply ext_not_sent; [exact Hext|naive_solver].
Qed.

(** A commit that fails, fails before the second phase: between the two
    states no commit and no rollback statement went to any backend, nothing was
    recorded for the check thread, and the error count rose, so that the
    connections will be closed.  A participant that acknowledged its prepare is
    left prepared. *)
Theorem Commit_failure s m bs e s' :
  handles_ok (twT s) -> commits s m bs -> m s = (Err e, s') ->
  ~ was_sent (XA_COMMIT (tXid (twT s))) s s' /\ ~ was_sent (XA_ROLLBACK (tXid (twT s))) s s' /\
  wXa (twW s') = wXa (twW s) /\ tErrors (twT s) < tErrors (twT s').
Proof. apply commit_fails. Qed.

(** A commit sends a bounded number of statements: when no two backends
    share a pool, each pool receives at most one end, one prepare and ten
    commit statements. *)
Theorem Commit_bounded s m bs r s' loc rep :
  handles_ok (twT s) -> commits s m bs -> NoDup bs ->
  (forall b b' l, tBackends (twT s) !! b = Some l -> tBackends (twT s) !! b' = Some l -> b = b') ->
  m s = (r, s') ->
  exists first second, sent s s' loc rep (first ++ second) /\
    (length first <= 2)%nat /\ (length second <= xaMaxRetryNum)%nat /\
    Forall (fun e => e.1.2 = XA_COMMIT (tXid (twT s))) second /\
    Forall (fun e => e.1.2 <> XA_COMMIT (tXid (twT s))) first.
Proof.
  intros Hh Hc Hnd Hinj Hm. destruct (commits_seq s m bs Hc) as (s0 & He & Hw & Hbk & Hx & Ht & _ & Hcur).
  rewrite He in Hm. rewrite <- Hx.
  assert (handles_ok (twT s0)) as Hh0 by (intros b0 h0; rewrite Ht, Hbk; apply Hh).
  assert (forall n l, (budgets (twT s0) (current s0) n l <= n)%nat) as Hbud.
  { intros n l. apply budgets_once; [by rewrite Hcur|]. rewrite Hbk. exact Hinj. }
  destruct (phases_differ (tXid (twT s0))) as (Hd1 & Hd2 & _).
  assert (forall (l : list (nat * string * bool)), Forall (fun e => e.1.2 = XA_END (tXid (twT s0)) \/
    e.1.2 = XA_PREPARE (tXid (twT s0))) l -> Forall (fun e => e.1.2 <> XA_COMMIT (tXid (twT s0))) l) as Hne.
  { intros l Hl. eapply Forall_impl; [exact Hl|]. simpl. intros x [-> | ->]; done. }
  apply commit_ended in Hm as [_ Hext _|s2 _ Hext _ Hsnd _]; [| |done];
    destruct (ex_sent _ _ _ _ Hext loc rep) as (n1 & Hn1 & HQ & Hl1); specialize (Hbud 2%nat loc) as Hb2.
  - exists n1, []. rewrite app_nil_r. split; [unfold sent, log_of in *; by rewrite <- Hw|].
    split_and!; [lia|simpl; lia|constructor|by apply Hne].
  - destruct (Hsnd loc rep) as (n2 & Hn2 & HQ2 & Hl2). specialize (Hbud xaMaxRetryNum loc) as Hb10.
    exists n1, n2. split; [unfold sent, log_of in *; rewrite <- Hw, Hn2, Hn1; by rewrite app_assoc|].
    split_and!; [lia|lia|done|by apply Hne].
Qed.

(** ** The end of a transaction *)

(** [pools_only m]: a run of [m] changes pools only. *)
Definition pools_only {A} (m : TM A) : Prop := forall s,
  twT (snd (m s)) = twT s /\ exists l, twW (snd (m s)) = set_poolz l (twW s).

Lemma set_poolz_id w : set_poolz (wPoolz w) w = w.
Proof. by destruct w. Qed.

Lemma pools_only_on_pool {A} loc rep (m : PM A) : pools_only (on_pool loc rep m).
Proof.
  intros s. unfold on_pool. destruct (pool_at (twW s) loc rep) as [p|].
  - destruct (m p) as [r p']. split; [done|]. by eexists.
  - split; [done|]. exists (wPoolz (twW s)). by rewrite set_poolz_id.
Qed.

Lemma pools_only_bind {A B} (m : TM A) (k : A -> TM B) :
  pools_only m -> (forall a, pools_only (k a)) -> pools_only (x ← m; k x).
Proof.
  intros Hm Hk s. unfold mbind, M_bind. destruct (Hm s) as [Ht [l Hl]].
  destruct (m s) as [[a|e|] s1]; simpl in *; [|eauto..].
  destruct (Hk a s1) as [Ht' [l' Hl']]. rewrite Ht', Hl', Hl. eauto.
Qed.

Lemma pools_only_ret {A} (a : A) : pools_only (mret a : TM A).
Proof. intros s. split; [done|]. exists (wPoolz (twW s)). by rewrite set_poolz_id. Qed.

Lemma pools_only_mtry {A} (m : TM A) : pools_only m -> pools_only (mtry m).
Proof. intros Hm s. specialize (Hm s). unfold mtry. by destruct (m s) as [[]]. Qed.

Lemma pools_only_miter {A} (f : A -> TM unit) l : (forall a, pools_only (f a)) -> pools_only (miter f l).
Proof.
  intros Hf. induction l as [|x l IH]; simpl; [apply pools_only_ret|]. by apply pools_only_bind.
Qed.

Lemma pools_only_give errors h : pools_only (give_back errors h).
Proof. unfold give_back. case_match; apply pools_only_on_pool. Qed.

Lemma pools_only_abort h : pools_only (abort_conn h).
Proof.
  apply pools_only_bind; [apply pools_only_mtry, pools_only_on_pool|]. intros. apply pools_only_ret.
Qed.

(** What happens to the connections of a pool that only takes connections
    back: closed ones stay closed, idle ones stay idle. *)
Record pool_mono (p p' : Pool) : Prop := {
  pm_nil : pNil p' = pNil p;
  pm_log : pLog p' = pLog p;
  pm_chan : forall c, c ∈ pChan p -> c ∈ pChan p';
  pm_heap : forall i x, pHeap p !! i = Some x ->
    exists x', pHeap p' !! i = Some x' /\ (conn_Closed x = true -> conn_Closed x' = true)
}.

Lemma conn_modify_mono c f p :
  (forall x, conn_Closed x = true -> conn_Closed (f x) = true) -> pool_mono p (snd (conn_modify c f p)).
Proof.
  intros Hf. split; try done. simpl. intros i x Hx. destruct (decide (i = c)) as [->|Hne].
  - rewrite list_lookup_alter_eq, Hx. simpl. eauto.
  - rewrite list_lookup_alter_ne by done. eauto.
Qed.

Lemma close_conn_closed x : conn_Closed (close_conn x) = true.
Proof. unfold conn_Closed, close_conn. by destruct (cDialed x) eqn:Hd; simpl; rewrite ?Hd. Qed.

(** A connection is back in its pool, closed, or its pool is closed. *)
Definition settled (p : Pool) (c : nat) : Prop :=
  exists x, pHeap p !! c = Some x /\ (conn_Closed x = true \/ c ∈ pChan p \/ pNil p = true).

Lemma settled_mono p p' c : pool_mono p p' -> settled p c -> settled p' c.
Proof.
  intros [] (x & Hx & Hor). destruct (pm_heap0 c x Hx) as (x' & Hx' & Hc). exists x'. split; [done|].
  rewrite pm_nil0. naive_solver.
Qed.

Lemma Recycle_settles c p p' :
  Recycle c p = (Ok tt, p') -> pool_mono p p' /\ settled p' c.
Proof.
  unfold Recycle. intros (x & p0 & Hg & H)%M_bind_inv_Ok. unfold conn_get in Hg.
  destruct (pHeap p !! c) as [x0|] eqn:Hx; [|done]. injection Hg as -> <-.
  destruct (cDialed x) eqn:Hd; [|done]. destruct (cDrvClosed x) eqn:Hc.
  { injection H as <-. split; [split; eauto|]. exists x. split; [done|]. left.
    unfold conn_Closed. by rewrite Hd. }
  unfold Put, put in H. erewrite M_bind_Ok in H by reflexivity. erewrite M_bind_Ok in H by reflexivity.
  set (p1 := set_counters _ p) in H.
  assert (pool_mono p p1) as H1 by (split; eauto). destruct (pNil p1) eqn:Hn.
  { injection H as <-. split; [done|]. exists x. split; [done|]. auto. }
  erewrite M_bind_Ok in H by reflexivity. set (p2 := set_conns _ p1) in H.
  assert (pool_mono p p2) as H2.
  { destruct (conn_modify_mono c (fun x => mkConn (cID x) (cDialed x) (cDrvClosed x) (cLastErr x) (cKilled x)
      (pNow p1)) p1) as []; [done|]. split; eauto. }
  destruct (pm_heap _ _ H2 c x Hx) as (x2 & Hx2 & _).
  destruct (pChanClosed p1); [done|]. destruct (_ <? _); injection H as <-.
  - split; [|exists x2; split; [done|right; left; simpl; set_solver]].
    destruct H2. split; try done. simpl. set_solver.
  - destruct (conn_modify_mono c close_conn p2) as [Ha1 Ha2 Ha3 Ha4]; [intros; apply close_conn_closed|].
    split.
    + destruct H2. split; [exact (eq_trans Ha1 pm_nil0)|exact (eq_trans Ha2 pm_log0)|
        intros c0 Hc0; by apply Ha3, pm_chan0|]. intros i y Hy.
      destruct (pm_heap0 i y Hy) as (y1 & Hy1 & Hc1). destruct (Ha4 i y1 Hy1) as (y2 & Hy2 & Hc2). eauto.
    + destruct (Ha4 c x2 Hx2) as (x3 & Hx3 & _). exists x3. split; [done|]. left.
      revert Hx3. change (pHeap (snd (conn_modify c close_conn p2))) with (alter close_conn c (pHeap p2)).
      rewrite list_lookup_alter_eq, Hx2. intros [= <-]. apply close_conn_closed.
Qed.

(** A handle refers to a connection of its pool. *)
Definition valid (s : TW) (h : Handle) : Prop :=
  exists p x, pool_at (twW s) (hdLoc h) (hdReplica h) = Some p /\ pHeap p !! hdConn h = Some x.

(** A handle was given back: the connection is settled, and closed when the
    transaction had errors. *)
Definition gone (errors : Z) (s : TW) (h : Handle) : Prop :=
  exists p, pool_at (twW s) (hdLoc h) (hdReplica h) = Some p /\ settled p (hdConn h) /\
    (0 < errors -> exists x, pHeap p !! hdConn h = Some x /\ conn_Closed x = true).

(** Replacing a pool by a later one keeps what was given back. *)
Lemma put_mono errors loc rep p p' s :
  pool_at (twW s) loc rep = Some p -> pool_mono p p' ->
  let s' := mkTW (put_pool loc rep p' (twW s)) (twT s) in
  (forall h, gone errors s h -> gone errors s' h) /\ (forall h, valid s h -> valid s' h) /\
  forall l b, log_of s' l b = log_of s l b.
Proof.
  intros Hp Hm s'. assert (forall l b, pool_at (twW s') l b = if decide (loc = l /\ rep = b) then Some p'
    else pool_at (twW s) l b) as Hat by (intros; apply pool_at_put; by rewrite Hp).
  split_and!.
  - intros h (q & Hq & Hs & Hc). unfold gone. rewrite Hat. case_decide as Hd; [|eauto].
    destruct Hd as [-> ->]. assert (q = p) as -> by congruence.
    exists p'. split; [done|]. split; [by eapply settled_mono|]. intros He.
    destruct (Hc He) as (x & Hx & Hcl). destruct (pm_heap _ _ Hm _ _ Hx) as (x' & ? & ?). eauto.
  - intros h (q & x & Hq & Hx). unfold valid. rewrite Hat. case_decide as Hd; [|eauto].
    destruct Hd as [-> ->]. assert (q = p) as -> by congruence.
    destruct (pm_heap _ _ Hm _ _ Hx) as (x' & ? & ?). eauto.
  - intros l b. unfold log_of. rewrite Hat. case_decide as Hd; [|done]. destruct Hd as [<- <-].
    by rewrite Hp, (pm_log _ _ Hm).
Qed.

Lemma give_back_spec errors h s s' :
  valid s h -> give_back errors h s = (Ok tt, s') ->
  gone errors s' h /\ (forall h', gone errors s h' -> gone errors s' h') /\
  (forall h', valid s h' -> valid s' h') /\ forall l b, log_of s' l b = log_of s l b.
Proof.
  intros (p & x & Hp & Hx) H. unfold give_back, on_conn, on_pool in H.
  assert (exists p', pool_mono p p' /\ settled p' (hdConn h) /\
    (0 < errors -> exists x, pHeap p' !! hdConn h = Some x /\ conn_Closed x = true) /\
    s' = mkTW (put_pool (hdLoc h) (hdReplica h) p' (twW s)) (twT s)) as (p' & Hm & Hset & Hcl & ->).
  { destruct (Z.ltb_spec 0 errors) as [Hpos|Hneg].
    - rewrite Hp in H. simpl in H. injection H as <-. eexists.
      split; [apply (conn_modify_mono (hdConn h) close_conn); intros; apply close_conn_closed|].
      assert (pHeap (snd (conn_Close (hdConn h) p)) !! hdConn h = Some (close_conn x)) as Hx'
        by (simpl; by rewrite list_lookup_alter_eq, Hx).
      pose proof (close_conn_closed x). unfold settled. split_and!; eauto.
    - rewrite Hp in H. destruct (Recycle (hdConn h) p) as [r p'] eqn:Hr. injection H as -> <-.
      apply Recycle_settles in Hr as [? ?]. exists p'. split_and!; try done. lia. }
  destruct (put_mono errors _ _ _ _ _ Hp Hm) as (H1 & H2 & H3). split; [|done].
  exists p'. cbn [twW]. rewrite pool_at_put by (by rewrite Hp). rewrite decide_True by done. done.
Qed.

Lemma give_all errors hs s s' :
  Forall (valid s) hs -> miter (give_back errors) hs s = (Ok tt, s') ->
  Forall (gone errors s') hs /\ (forall h', gone errors s h' -> gone errors s' h') /\
  (forall h', valid s h' -> valid s' h') /\ forall l b, log_of s' l b = log_of s l b.
Proof.
  revert s. induction hs as [|h hs IH]; intros s Hv; simpl.
  { intros [= <-]. split; [constructor|done]. }
  apply Forall_cons in Hv as [Hv Hvs]. intros ([] & s1 & H1 & H)%M_bind_inv_Ok.
  destruct (give_back_spec _ _ _ _ Hv H1) as (Hg & Hmono & Hval & Hlog).
  destruct (IH s1) as (Hgs & Hmono' & Hval' & Hlog'); [by eapply Forall_impl|done|].
  split_and!; [constructor; auto|auto|auto|]. intros l b. by rewrite Hlog', Hlog.
Qed.

Lemma give_frame errors hs s s' :
  miter (give_back errors) hs s = (Ok tt, s') ->
  twT s' = twT s /\ exists l, twW s' = set_poolz l (twW s).
Proof.
  intros H. pose proof (pools_only_miter (give_back errors) hs (pools_only_give errors) s) as Hp.
  by rewrite H in Hp.
Qed.

(** All the connections of a transaction. *)
Definition all_handles (t : Txn) : list Handle :=
  (snd <$> map_range (tTwopcConns t)) ++ tNormalConns t ++ tReplicaConns t.

(** A change of the transaction or of the counters. *)
Lemma same_pools s s' :
  wPoolz (twW s') = wPoolz (twW s) ->
  (forall e h, gone e s h -> gone e s' h) /\ (forall h, valid s h -> valid s' h) /\
  forall l b, log_of s' l b = log_of s l b.
Proof. intros H. unfold gone, valid, log_of, pool_at. rewrite H. done. Qed.

(** The body of [Finish] for a transaction that was not aborted. *)
Lemma Finish_body s s' :
  tState (twT s) <> txnStateAborting -> Finish s = (Ok tt, s') ->
  exists s2 s4 s5, let e := tErrors (twT s) in
    miter (give_back e) (snd <$> map_range (tTwopcConns (twT s)))
      (mkTW (set_wcounters (counters_Add "#txn.finish" 1 (wCounters (twW s))) (twW s))
         (set_State txnStateFinshing (set_XaState txnXAStateNone (twT s)))) = (Ok tt, s2) /\
    miter (give_back e) (tNormalConns (twT s)) (mkTW (twW s2) (set_TwopcConns ∅ (twT s2))) = (Ok tt, s4) /\
    miter (give_back e) (tReplicaConns (twT s)) s4 = (Ok tt, s5) /\
    s' = mkTW (set_txns (wTxnid (twW s5)) (swrap 64 (wTxnNums (twW s5) - 1)) (wTxnz (twW s5) ∖ {[ tId (twT s5) ]})
                 (twW s5)) (set_IsMulti false (set_Twopc false (twT s5))).
Proof.
  intros Hst H. unfold Finish in H. erewrite M_bind_Ok in H by reflexivity.
  erewrite M_bind_Ok in H by reflexivity. cbn [twT] in H. rewrite decide_False in H by done.
  apply M_bind_inv_Ok in H as ([] & s9 & H & Hdef).
  apply M_bind_inv_Ok in H as ([] & s1 & E1 & H). injection E1 as <-.
  apply M_bind_inv_Ok in H as ([] & s2 & E2 & H).
  apply M_bind_inv_Ok in H as ([] & s3 & E3 & H). injection E3 as <-.
  apply M_bind_inv_Ok in H as ([] & s4 & E4 & H).
  apply M_bind_inv_Ok in H as ([] & s5 & E5 & H).
  injection H as <-. injection Hdef as <-. exists s2, s4, s5. done.
Qed.

Lemma Finish_spec s s' :
  tState (twT s) <> txnStateAborting -> Forall (valid s) (all_handles (twT s)) ->
  Finish s = (Ok tt, s') ->
  Forall (gone (tErrors (twT s)) s') (all_handles (twT s)) /\
  (forall l b, log_of s' l b = log_of s l b) /\ wXa (twW s') = wXa (twW s).
Proof.
  intros Hst [Hv1 [Hv2 Hv3]%Forall_app]%Forall_app H.
  apply Finish_body in H as (s2 & s4 & s5 & E2 & E4 & E5 & ->); [|done].
  apply give_frame in E2 as F2. destruct F2 as [Ht2 [l2 Hl2]].
  apply give_frame in E4 as F4. destruct F4 as [Ht4 [l4 Hl4]].
  apply give_frame in E5 as F5. destruct F5 as [Ht5 [l5 Hl5]].
  apply give_all in E2 as (G1 & M1 & V1 & L1); [|done].
  apply give_all in E4 as (G2 & M2 & V2 & L2); [|eapply Forall_impl; [exact Hv2|]; apply V1].
  apply give_all in E5 as (G3 & M3 & V3 & L3);
    [|eapply Forall_impl; [exact Hv3|]; intros h Hh; apply V2; by apply V1].
  split_and!.
  - unfold all_handles. rewrite !Forall_app.
    split_and!; [eapply Forall_impl; [exact G1|]|eapply Forall_impl; [exact G2|]|
      eapply Forall_impl; [exact G3|]]; intros h Hh; [apply M3, M2, Hh|apply M3, Hh|apply Hh].
  - intros l b. change (log_of s5 l b = log_of s l b). rewrite L3, L2. apply L1.
  - cbn [twW]. change (wXa (twW s5) = wXa (twW s)). rewrite Hl5, Hl4. cbn. by rewrite Hl2.
Qed.

Lemma Finish_state s s' :
  tState (twT s) <> txnStateAborting -> Finish s = (Ok tt, s') ->
  tTwopcConns (twT s') = ∅ /\ tState (twT s') = txnStateFinshing /\ tTwopc (twT s') = false /\
  tIsMulti (twT s') = false /\ tId (twT s') = tId (twT s) /\
  wTxnNums (twW s') = swrap 64 (wTxnNums (twW s) - 1) /\ tId (twT s) ∉ wTxnz (twW s').
Proof.
  intros Hst H. apply Finish_body in H as (s2 & s4 & s5 & E2 & E4 & E5 & ->); [|done].
  apply give_frame in E2 as [Ht2 [l2 Hl2]].
  apply give_frame in E4 as [Ht4 [l4 Hl4]]. apply give_frame in E5 as [Ht5 [l5 Hl5]].
  assert (twT s5 = set_TwopcConns ∅ (set_State txnStateFinshing (set_XaState txnXAStateNone (twT s)))) as Ht.
  { rewrite Ht5, Ht4. cbn [twT]. by rewrite Ht2. }
  assert (wTxnNums (twW s5) = wTxnNums (twW s)) as Hn by (rewrite Hl5, Hl4; cbn; by rewrite Hl2).
  cbn. rewrite Ht, Hn. cbn. split_and!; try done. set_solver.
Qed.

(** A [Finish] of a transaction that was not aborted gives back every
    connection the transaction took, whichever way it was taken: with errors
    each of them is closed; without, each is idle in its pool again, or closed,
    or its pool is closed.  It sends nothing, empties the two-phase map,
    removes the transaction from the registry and counts it once. *)
Theorem Finish_gives_back s s' :
  tState (twT s) <> txnStateAborting -> Forall (valid s) (all_handles (twT s)) ->
  Finish s = (Ok tt, s') ->
  Forall (gone (tErrors (twT s)) s') (all_handles (twT s)) /\
  (forall l b, log_of s' l b = log_of s l b) /\
  tTwopcConns (twT s') = ∅ /\ tState (twT s') = txnStateFinshing /\
  wTxnNums (twW s') = swrap 64 (wTxnNums (twW s) - 1) /\ tId (twT s) ∉ wTxnz (twW s').
Proof.
  intros Hst Hv H. destruct (Finish_spec _ _ Hst Hv H) as (? & ? & _).
  destruct (Finish_state _ _ Hst H) as (? & ? & _ & _ & _ & ? & ?). done.
Qed.

(** After a failed commit and [Finish], a participant that acknowledged its
    prepare has received neither a commit nor a rollback, and the check thread
    does not know the transaction: the participant stays in doubt. *)
Theorem failed_commit_stays_prepared s m bs e s1 s2 b :
  handles_ok (twT s) -> commits s m bs -> m s = (Err e, s1) -> acked b (XA_PREPARE (tXid (twT s))) s s1 ->
  tState (twT s1) <> txnStateAborting -> Forall (valid s1) (all_handles (twT s1)) ->
  Finish s1 = (Ok tt, s2) ->
  acked b (XA_PREPARE (tXid (twT s))) s s2 /\ wXa (twW s2) = wXa (twW s) /\
  ~ was_sent (XA_COMMIT (tXid (twT s))) s s2 /\ ~ was_sent (XA_ROLLBACK (tXid (twT s))) s s2.
Proof.
  intros Hh Hc Hm (loc & c & new & H1 & H2 & H3) Hst Hv HF.
  destruct (Finish_spec _ _ Hst Hv HF) as (_ & Hlog & Hxa).
  assert (forall q, was_sent q s s2 -> was_sent q s s1) as Hs.
  { intros q (l & r & n & c' & ok & Hsent & Hin). exists l, r, n, c', ok. split; [|done].
    unfold sent in *. by rewrite <- Hlog. }
  destruct (commit_fails s m bs e s1 Hh Hc Hm) as (Hn1 & Hn2 & Hx & _).
  split_and!; [|congruence|auto|auto]. exists loc, c, new. split; [done|]. split; [|done].
  unfold sent in *. by rewrite Hlog.
Qed.

Lemma abort_frame hs s s' :
  miter abort_conn hs s = (Ok tt, s') -> twT s' = twT s /\ exists l, twW s' = set_poolz l (twW s).
Proof.
  intros H. pose proof (pools_only_miter abort_conn hs pools_only_abort s) as Hp. by rewrite H in Hp.
Qed.

(** The body of [Abort] for a transaction that was not finished. *)
Lemma Abort_body s s' :
  tState (twT s) <> txnStateFinshing -> Abort_ s = (Ok tt, s') ->
  exists w5, let t5 := set_TwopcConns ∅ (set_State txnStateAborting (twT s)) in
    wTxnNums w5 = wTxnNums (twW s) /\ wTxnz w5 = wTxnz (twW s) /\ wTxnid w5 = wTxnid (twW s) /\
    s' = mkTW (set_txns (wTxnid w5) (swrap 64 (wTxnNums w5 - 1)) (wTxnz w5 ∖ {[ tId t5 ]}) w5)
           (set_IsMulti false (set_Twopc false t5)).
Proof.
  intros Hst H. unfold Abort_ in H. erewrite M_bind_Ok in H by reflexivity.
  erewrite M_bind_Ok in H by reflexivity. cbn [twT] in H. rewrite decide_False in H by done.
  apply M_bind_inv_Ok in H as ([] & s9 & H & Hdef).
  apply M_bind_inv_Ok in H as ([] & s1 & E1 & H). injection E1 as <-.
  apply M_bind_inv_Ok in H as ([] & s2 & [Ht2 [l2 Hl2]]%abort_frame & H).
  apply M_bind_inv_Ok in H as ([] & s3 & E3 & H). injection E3 as <-.
  apply M_bind_inv_Ok in H as ([] & s4 & [Ht4 [l4 Hl4]]%abort_frame & H).
  apply M_bind_inv_Ok in H as ([] & s5 & [Ht5 [l5 Hl5]]%abort_frame & H).
  injection H as <-. injection Hdef as <-. exists (twW s5).
  assert (twT s5 = set_TwopcConns ∅ (set_State txnStateAborting (twT s))) as Ht.
  { rewrite Ht5, Ht4. cbn [twT]. by rewrite Ht2. }
  rewrite Hl5, Hl4. cbn. rewrite Hl2. split_and!; try done. by rewrite Ht.
Qed.

Lemma Abort_state s s' :
  tState (twT s) <> txnStateFinshing -> Abort_ s = (Ok tt, s') ->
  tState (twT s') = txnStateAborting /\ tId (twT s') = tId (twT s) /\
  wTxnNums (twW s') = swrap 64 (wTxnNums (twW s) - 1) /\ tId (twT s) ∉ wTxnz (twW s').
Proof.
  intros Hst H. apply Abort_body in H as (w5 & Hn & _ & _ & ->); [|done]. cbn. rewrite Hn. split_and!; [done..|set_solver].
Qed.

(** A transaction is counted down once, and its connections are treated
    once, when it is both aborted and finished, in either order: the second
    call leaves the count and every pool as they are. *)
Theorem Finish_Abort_once s s1 s2 :
  (tState (twT s) <> txnStateFinshing -> Abort_ s = (Ok tt, s1) -> Finish s1 = (Ok tt, s2) ->
     wTxnNums (twW s2) = swrap 64 (wTxnNums (twW s) - 1) /\ wPoolz (twW s2) = wPoolz (twW s1)) /\
  (tState (twT s) <> txnStateAborting -> Finish s = (Ok tt, s1) -> Abort_ s1 = (Ok tt, s2) ->
     wTxnNums (twW s2) = swrap 64 (wTxnNums (twW s) - 1) /\ wPoolz (twW s2) = wPoolz (twW s1)).
Proof.
  split.
  - intros Hst H HF. apply Abort_state in H as (Ha & _ & Hn & _); [|done]. rewrite <- Hn.
    unfold Finish in HF. erewrite M_bind_Ok in HF by reflexivity.
    erewrite M_bind_Ok in HF by reflexivity. cbn [twT] in HF. rewrite decide_True in HF by done.
    by injection HF as <-.
  - intros Hst H HF. apply Finish_state in H as (_ & Ha & _ & _ & _ & Hn & _); [|done]. rewrite <- Hn.
    unfold Abort_ in HF. erewrite M_bind_Ok in HF by reflexivity.
    erewrite M_bind_Ok in HF by reflexivity. cbn [twT] in HF. rewrite decide_True in HF by done.
    by injection HF as <-.
Qed.
End twopc.

(** ** Concrete instances

    A write on two backends, with the driver outcomes of the pools fixed by
    address. *)
#[local] Existing Instance ex_driver.

Definition ex_write : RequestContext :=
  mkRequestContext "" ReqNormal TxnWrite [mkQueryTuple "insert 1" "b1" ""; mkQueryTuple "insert 2" "b2" ""].
Definition ex_txn (script : gmap string (list drv_out)) : TW :=
  match CreateTransaction (ex_scatter script) with
  | (Ok t, w) => snd ((_ ← Begin; txn_Execute ex_write) (mkTW w t))
  | (_, w) => mkTW w (mkTxn 0 "" 0 None false false false txnStateLive txnXAStateNone ∅ 0 0 0 0 ∅ [] [])
  end.
Definition ok_out : drv_out := DrvOk emptyResult 0.
(** The fifth call to the second backend, its prepare, fails. *)
Definition bad_prepare : gmap string (list drv_out) :=
  {[ "a:2" := [ok_out; ok_out; ok_out; ok_out; DrvSQLErr 1402] ]}.
(** The commit of the second backend is answered with an unknown id. *)
Definition bad_commit : gmap string (list drv_out) :=
  {[ "a:2" := [ok_out; ok_out; ok_out; ok_out; ok_out; DrvSQLErr 1397] ]}.

Lemma demo_handles script t :
  twT (ex_txn script) = t ->
  bool_decide (map_Forall (fun b h => tBackends t !! b = Some (hdLoc h) /\ hdReplica h = false)
    (tTwopcConns t)) = true -> handles_ok t.
Proof. intros _ H. apply bool_decide_eq_true in H. intros b h Hb. exact (H b h Hb). Qed.

Lemma demo_commits script :
  tReq (twT (ex_txn script)) = Some ex_write -> commits (ex_txn script) Commit (current (ex_txn script)).
Proof. intros H. left. split; [done|]. split; [done|]. exists ex_write. split; [exact H|reflexivity]. Qed.

Lemma Commit_after_all_prepared_witness :
  acked "b2" (XA_PREPARE (tXid (twT (ex_txn ∅)))) (ex_txn ∅) (snd (Commit (ex_txn ∅))).
Proof.
  apply (Commit_after_all_prepared (ex_txn ∅) Commit (current (ex_txn ∅)) (Ok tt) (snd (Commit (ex_txn ∅)))).
  - apply (demo_handles ∅); [reflexivity|vm_compute; reflexivity].
  - apply demo_commits. vm_compute. reflexivity.
  - vm_compute. reflexivity.
  - eexists 0%nat, false, _, _, true. split; [vm_compute; reflexivity|]. do 2 right. left.
  - vm_compute. right. left.
Defined.

Lemma Commit_complete_witness :
  exists s', Commit (ex_txn bad_commit) = (Ok tt, s') /\
    ((forall b, b ∈ current (ex_txn bad_commit) ->
        acked b (XA_COMMIT (tXid (twT (ex_txn bad_commit)))) (ex_txn bad_commit) s') \/
     pending s' (tXid (twT (ex_txn bad_commit)))).
Proof.
  exists (snd (Commit (ex_txn bad_commit))). split; [vm_compute; reflexivity|].
  apply (Commit_complete (ex_txn bad_commit) Commit (current (ex_txn bad_commit))).
  - apply (demo_handles bad_commit); [reflexivity|vm_compute; reflexivity].
  - apply demo_commits. vm_compute. reflexivity.
  - vm_compute. reflexivity.
Defined.

Lemma Commit_failure_witness :
  exists e s', Commit (ex_txn bad_prepare) = (Err e, s') /\
    ~ was_sent (XA_COMMIT (tXid (twT (ex_txn bad_prepare)))) (ex_txn bad_prepare) s'.
Proof.
  exists (ErrSQL 1402), (snd (Commit (ex_txn bad_prepare))). split; [vm_compute; reflexivity|].
  apply (Commit_failure (ex_txn bad_prepare) Commit (current (ex_txn bad_prepare)) (ErrSQL 1402)).
  - apply (demo_handles bad_prepare); [reflexivity|vm_compute; reflexivity].
  - apply demo_commits. vm_compute. reflexivity.
  - vm_compute. reflexivity.
Defined.

Lemma Commit_bounded_witness :
  exists first second,
    sent (ex_txn bad_commit) (snd (Commit (ex_txn bad_commit))) 1 false (first ++ second) /\
    (length second <= 10)%nat.
Proof.
  destruct (Commit_bounded (ex_txn bad_commit) Commit (current (ex_txn bad_commit)) (Ok tt)
    (snd (Commit (ex_txn bad_commit))) 1 false) as (l1 & l2 & H1 & _ & H2 & _).
  - apply (demo_handles bad_commit); [reflexivity|vm_compute; reflexivity].
  - apply demo_commits. vm_compute. reflexivity.
  - apply (bool_decide_unpack _). vm_compute. exact I.
  - assert (tBackends (twT (ex_txn bad_commit)) = {[ "b1" := 0%nat; "b2" := 1%nat ]}) as ->
      by (vm_compute; reflexivity).
    intros b b' l. rewrite !lookup_insert_Some, !lookup_singleton_Some. naive_solver.
  - vm_compute. reflexivity.
  - exists l1, l2. split; [exact H1|exact H2].
Defined.

Lemma Finish_gives_back_witness :
  exists s', Finish (ex_txn ∅) = (Ok tt, s') /\
    Forall (gone 0 s') (all_handles (twT (ex_txn ∅))) /\ wTxnNums (twW s') = 0.
Proof.
  exists (snd (Finish (ex_txn ∅))). split; [vm_compute; reflexivity|].
  destruct (Finish_gives_back (ex_txn ∅) (snd (Finish (ex_txn ∅)))) as (H1 & _ & _ & _ & H2 & _).
  - vm_compute. discriminate.
  - vm_compute. repeat constructor; eexists _, _; split; reflexivity.
  - vm_compute. reflexivity.
  - split; [exact H1|]. rewrite H2. vm_compute. reflexivity.
Defined.

Lemma failed_commit_stays_prepared_witness :
  exists s2, Finish (snd (Commit (ex_txn bad_prepare))) = (Ok tt, s2) /\
    acked "b1" (XA_PREPARE (tXid (twT (ex_txn bad_prepare)))) (ex_txn bad_prepare) s2 /\
    ~ was_sent (XA_ROLLBACK (tXid (twT (ex_txn bad_prepare)))) (ex_txn bad_prepare) s2.
Proof.
  exists (snd (Finish (snd (Commit (ex_txn bad_prepare))))). split; [vm_compute; reflexivity|].
  destruct (failed_commit_stays_prepared (ex_txn bad_prepare) Commit (current (ex_txn bad_prepare)) (ErrSQL 1402)
    (snd (Commit (ex_txn bad_prepare))) (snd (Finish (snd (Commit (ex_txn bad_prepare))))) "b1")
    as (H1 & _ & _ & H2).
  - apply (demo_handles bad_prepare); [reflexivity|vm_compute; reflexivity].
  - apply demo_commits. vm_compute. reflexivity.
  - vm_compute. reflexivity.
  - eexists 0%nat, _, _. split; [vm_compute; reflexivity|]. split; [vm_compute; reflexivity|]. right. left.
  - vm_compute. discriminate.
  - vm_compute. repeat constructor; eexists _, _; split; reflexivity.
  - vm_compute. reflexivity.
  - split; [exact H1|exact H2].
Defined.

Lemma Finish_Abort_once_witness :
  exists s1 s2, Abort_ (ex_txn ∅) = (Ok tt, s1) /\ Finish s1 = (Ok tt, s2) /\ wTxnNums (twW s2) = 0.
Proof.
  exists (snd (Abort_ (ex_txn ∅))), (snd (Finish (snd (Abort_ (ex_txn ∅))))).
  split; [vm_compute; reflexivity|]. split; [vm_compute; reflexivity|].
  destruct (Finish_Abort_once (ex_txn ∅) (snd (Abort_ (ex_txn ∅))) (snd (Finish (snd (Abort_ (ex_txn ∅))))))
    as [H _].
  destruct H as [H _]; [vm_compute; discriminate|vm_compute; reflexivity|vm_compute; reflexivity|].
  rewrite H. vm_compute. reflexivity.
Defined.
