(* ===== verification/TxnLive.v ===== *)
(** * Commits succeed when the servers answer

    The theorems of the other files say what a commit that returns has done;
    here it returns: when the participants hold open connections and the
    servers acknowledge every statement, the whole protocol goes through on the
    first attempt and nothing is left for the check thread. *)
From S2P Require Import Prelude GoStd Config Xcontext Pool PoolProps Scatter ScatterProps Txn TxnProps.
Open Scope string_scope.
Open Scope list_scope.
Open Scope Z_scope.

Section live.
Context `{D : Driver, R : MapRange}.

(** The transaction holds a dialled connection to [b], and the server of [b]
    answers every call to come. *)
Definition ready (s : TW) (b : string) : Prop :=
  exists h p x, tTwopcConns (twT s) !! b = Some h /\ pool_at (twW s) (hdLoc h) (hdReplica h) = Some p /\
    pHeap p !! hdConn h = Some x /\ cDialed x = true /\ pScript p = [].

Section participants.
Context (bs : list string) (req : RequestContext) (xa : option XaCheck).

(** Every participant is ready, the request is [req] with the participants
    [bs], the log of the check thread is [xa]. *)
Record steady (s : TW) : Prop := {
  st_ready : forall b, b ∈ bs -> ready s b;
  st_req : tReq (twT s) = Some req;
  st_parts : participants (twT s) req = bs;
  st_xa : wXa (twW s) = xa
}.

(** From a steady state [m] returns, in a steady state. *)
Definition live {A} (m : TM A) : Prop :=
  forall s, steady s -> exists a s', m s = (Ok a, s') /\ steady s'.

Lemma live_ret {A} (a : A) : live (mret a).
Proof. intros s Hs. by exists a, s. Qed.

Lemma live_bind {A B} (m : TM A) (k : A -> TM B) : live m -> (forall a, live (k a)) -> live (x ← m; k x).
Proof.
  intros Hm Hk s Hs. destruct (Hm s Hs) as (a & s1 & H1 & Hs1). destruct (Hk a s1 Hs1) as (b & s2 & H2 & Hs2).
  exists b, s2. by erewrite M_bind_Ok.
Qed.

Lemma live_mget {A} (k : TW -> TM A) : (forall s, live (k s)) -> live (s ← mget; k s).
Proof. intros Hk. apply live_bind; [|done]. intros s Hs. by exists s, s. Qed.

Lemma live_mtry {A} (m : TM A) : live m -> live (mtry m).
Proof. intros Hm s Hs. destruct (Hm s Hs) as (a & s' & H & Hs'). exists (inl a), s'. unfold mtry. by rewrite H. Qed.

Lemma live_modify (f : Txn -> Txn) :
  (forall t, tTwopcConns (f t) = tTwopcConns t /\ tReq (f t) = tReq t /\ tBackends (f t) = tBackends t) ->
  live (modify_txn f).
Proof.
  intros Hf s [Hr Hq Hp Hx]. exists tt. eexists. split; [reflexivity|]. destruct (Hf (twT s)) as (Hc & Hreq & Hb).
  split; simpl; [|by rewrite Hreq| |done].
  - intros b Hin. unfold ready. simpl. rewrite Hc. by apply Hr.
  - by rewrite (participants_same (twT s)).
Qed.

Lemma live_count name : live (in_world (txn_count name)).
Proof. intros s [Hr Hq Hp Hx]. exists tt. eexists. split; [reflexivity|]. by split. Qed.

(** A statement that is acknowledged leaves only a log entry. *)
Lemma Execute_ready c q p x :
  pHeap p !! c = Some x -> cDialed x = true -> pScript p = [] ->
  exists qr, Execute c q p = (Ok qr, set_log (pLog p ++ [(c, q, true)]) p).
Proof.
  intros Hx Hd Hs. exists emptyResult. unfold Execute, mbind, M_bind, conn_get, drv_next. rewrite Hx, Hd, Hs. reflexivity.
Qed.

Lemma ready_conn b q s :
  b ∈ bs -> steady s ->
  exists h qr s', twopcConnection b s = (Ok h, s) /\ on_conn h (fun c => Execute c q) s = (Ok qr, s') /\ steady s'.
Proof.
  intros Hb Hs. pose proof Hs as [Hr Hq Hp Hxa]. destruct (Hr b Hb) as (h & p & x & Hh & Hpool & Hx & Hd & Hsc).
  destruct (Execute_ready (hdConn h) q p x Hx Hd Hsc) as [qr He]. exists h, qr.
  set (p' := set_log (pLog p ++ [(hdConn h, q, true)]) p) in *.
  exists (mkTW (put_pool (hdLoc h) (hdReplica h) p' (twW s)) (twT s)). split; [|split].
  - unfold twopcConnection. erewrite M_bind_Ok by reflexivity. by rewrite Hh.
  - unfold on_conn, on_pool. rewrite Hpool, He. done.
  - split; [|done|done|done]. intros b' Hb'. destruct (Hr b' Hb') as (h' & p0 & x' & Hh' & Hp0 & Hx' & Hd' & Hsc').
    exists h'. simpl. rewrite pool_at_put by eauto. case_decide as Heq.
    + destruct Heq as [E1 E2]. rewrite <- E1, <- E2 in Hp0. assert (p0 = p) as -> by congruence. by exists p', x'.
    + by exists p0, x'.
Qed.

Lemma live_shard st q b : b ∈ bs -> live (xa_oneShard st q b).
Proof.
  intros Hb s Hs. destruct (ready_conn b q s Hb Hs) as (h & qr & s' & Hc & He & Hs').
  assert (exists a s', (h ← twopcConnection b; _ ← on_conn h (fun c => Execute c q); mret tt) s = (Ok a, s') /\ steady s') as Hone.
  { exists tt, s'. split; [|done]. erewrite M_bind_Ok by exact Hc. by erewrite M_bind_Ok by exact He. }
  assert (forall n, exists a s', xa_retry (S n) true b q None s = (Ok a, s') /\ steady s') as Htwo.
  { intros n. exists tt, s'. split; [|done]. cbn [xa_retry].
    erewrite M_bind_Ok by (unfold mtry; rewrite Hc; reflexivity). cbv beta iota.
    by erewrite M_bind_Ok by (unfold mtry; rewrite He; reflexivity). }
  destruct st; first [exact Hone|exact (Htwo 9%nat)|by apply live_ret].
Qed.

Lemma live_eg {A} (ts : list (TM A)) : Forall live ts -> live (eg_run ts).
Proof.
  induction 1 as [|t ts Ht _ IH]; [apply live_ret|]. intros s Hs.
  destruct (Ht s Hs) as (a & s1 & H1 & Hs1). destruct (IH s1 Hs1) as (l & s2 & H2 & Hs2). exists (a :: l), s2.
  split; [|done]. cbn [eg_run]. erewrite M_bind_Ok by (unfold mtry; rewrite H1; reflexivity).
  erewrite M_bind_Ok by (unfold mtry; rewrite H2; reflexivity). done.
Qed.

Lemma live_command q st : live (executeXACommand q st).
Proof.
  intros s Hs. unfold executeXACommand. erewrite M_bind_Ok by reflexivity. rewrite (st_req s Hs).
  revert s Hs. change (live (executeXA (mkRequestContext q (rqMode req) TxnNone (rqQuerys req)) st)). unfold executeXA.
  apply live_bind; [by apply live_modify|]. intros []. intros s Hs. erewrite M_bind_Ok by reflexivity.
  rewrite participants_raw, (st_parts s Hs). revert s Hs.
  match goal with |- forall s, _ -> exists a s', ?m s = _ /\ _ => change (live m) end.
  apply live_bind; [|intros _; apply live_ret]. apply live_eg. apply Forall_fmap, Forall_forall. intros b Hb. by apply live_shard.
Qed.

Lemma live_phase counter st fin q : live (xa_phase counter st fin q).
Proof.
  intros s Hs. destruct (live_command q st s Hs) as ([] & s1 & H1 & Hs1). unfold xa_phase.
  erewrite M_bind_Ok by (unfold mtry; rewrite H1; reflexivity). cbv beta iota.
  assert (live (modify_txn (set_XaState fin))) as Hf by (by apply live_modify). exact (Hf s1 Hs1).
Qed.

Lemma live_second counter logged st fin q : live (xa_second counter logged st fin q).
Proof.
  intros s Hs. destruct (live_command q st s Hs) as ([] & s1 & H1 & Hs1). unfold xa_second.
  erewrite M_bind_Ok by (unfold mtry; rewrite H1; reflexivity). cbv beta iota.
  erewrite M_bind_Ok by reflexivity.
  assert (live (modify_txn (set_XaState fin))) as Hf by (by apply live_modify). exact (Hf s1 Hs1).
Qed.

(** The common start of the phases. *)
Lemma live_xa counter st (k : TW -> TM unit) :
  (forall s, live (k s)) -> live (_ ← in_world (txn_count counter); _ ← modify_txn (set_XaState st); s ← mget; k s).
Proof.
  intros Hk. apply live_bind; [apply live_count|]. intros _. apply live_bind; [by apply live_modify|]. intros _.
  by apply live_mget.
Qed.

Lemma live_commit_seq : live commit_seq.
Proof.
  apply live_bind; [|intros _; apply live_bind; [|intros _]]; apply live_xa; intros s.
  - apply live_phase.
  - apply live_phase.
  - apply live_second.
Qed.
End participants.

(** C3: a commit goes through when the servers do: if the transaction holds an
    open connection to every participant, each server acknowledges what it is
    sent, and the id is not pending already, the commit returns, every
    participant has acknowledged the commit statement, and nothing was recorded
    for the check thread. *)
Theorem Commit_live s m bs :
  handles_ok (twT s) -> commits s m bs -> (forall b, b ∈ bs -> ready s b) -> ~ pending s (tXid (twT s)) ->
  exists s', m s = (Ok tt, s') /\ wXa (twW s') = wXa (twW s) /\
    forall b, b ∈ bs -> acked b (XA_COMMIT (tXid (twT s))) s s'.
Proof.
  intros Hh Hc Hr Hp. destruct (commits_from s m bs Hc) as (s0 & He & Hw & Hbk & Hx & Ht & _ & Hcur & req & Hreq).
  assert (steady bs req (wXa (twW s)) s0) as Hs.
  { split; [|done| |by rewrite Hw].
    - intros b Hb. unfold ready. rewrite Ht, Hw. by apply Hr.
    - unfold current in Hcur. by rewrite Hreq in Hcur. }
  destruct (live_commit_seq _ _ _ s0 Hs) as ([] & s' & Hm & Hs'). exists s'. split; [by rewrite He|].
  pose proof (st_xa _ _ _ _ Hs') as Hxa. split; [done|].
  assert (handles_ok (twT s0)) as Hh0 by (intros b0 h0; rewrite Ht, Hbk; apply Hh).
  apply commit_ended in Hm as [Hf _ _|s2 _ Hext _ _ Ho]; [done| |done].
  rewrite Hcur, Hx in Ho. destruct (Ho eq_refl) as [Ha|Hpend].
  - intros b Hb. destruct (acked_l _ _ _ _ _ _ _ Hext (Ha b Hb)) as (loc & c & new & H1 & H2 & H3).
    exists loc, c, new. split; [by rewrite <- Hbk|]. split; [|done]. unfold sent, log_of in *. by rewrite <- Hw.
  - exfalso. apply Hp. unfold pending in *. by rewrite <- Hxa.
Qed.
End live.

(** ** An example *)
#[local] Existing Instance ex_driver.

Lemma ex_ready b : b ∈ current (ex_txn ∅) -> ready (ex_txn ∅) b.
Proof.
  intros Hb. vm_compute in Hb. apply elem_of_cons in Hb as [->|[->|[]%elem_of_nil]%elem_of_cons];
    (do 3 eexists; split; [vm_compute; reflexivity|split_and!; vm_compute; reflexivity]).
Qed.

Lemma Commit_live_witness :
  exists s', Commit (ex_txn ∅) = (Ok tt, s') /\ wXa (twW s') = wXa (twW (ex_txn ∅)) /\
    forall b, b ∈ current (ex_txn ∅) -> acked b (XA_COMMIT (tXid (twT (ex_txn ∅)))) (ex_txn ∅) s'.
Proof.
  apply Commit_live.
  - apply (demo_handles ∅); [reflexivity|vm_compute; reflexivity].
  - apply demo_commits. vm_compute. reflexivity.
  - exact ex_ready.
  - intros (xc & Hx & v & Hv). vm_compute in Hx. injection Hx as <-. vm_compute in Hv. discriminate.
Defined.
