(* ===== verification/XaRetry.v ===== *)
(** * Retrying failed commits (src/backend/xacheck.go)

    The check thread wakes on a ticker and tries to finish the transactions
    whose second phase failed: it asks every backend for its prepared
    transactions and sends the commit or rollback where it is missing.  Each
    tick runs [xaCommitsRetry] under the lock of [XaCheck]. *)
From S2P Require Import Prelude GoStd Config Xcontext Pool PoolProps Scatter ScatterProps Txn TxnProps.
Open Scope string_scope.
Open Scope list_scope.
Open Scope Z_scope.

Section retry.
Context `{D : Driver, R : MapRange}.

(** [txn, err := scatter.CreateTransaction(); defer txn.Finish()] around [m] *)
Definition with_txn {A} (m : TM A) : WM A := fun w =>
  match CreateTransaction w with
  | (Ok t, w1) =>
      let '(r, s1) := m (mkTW w1 t) in
      let '(r2, s2) := Finish s1 in
      (match r2 with Panic => Panic | _ => r end, twW s2)
  | (Err e, w1) => (Err e, w1)
  | (Panic, w1) => (Panic, w1)
  end.

(** The rows of [xa recover] that name the transaction. *)
Fixpoint matching_rows (xaid : string) (rows : list (list string)) : res berr nat :=
  match rows with
  | [] => Ok O
  | row :: rows =>
      match row !! 3%nat with
      | None => Panic
      | Some v => n ← matching_rows xaid rows; Ok (if EqualFold v xaid then S n else n)
      end
  end.

(** The first stage on one backend: the backend once per matching row. *)
Definition recover_one (xaid backend : string) : TM (list string) :=
  result ← ExecuteOnThisBackend backend "xa recover";
  if (0 <? qRowsAffected result) && Nat.eqb (length (qFields result)) 4 then
    n ← mlift (matching_rows xaid (qRows result)); mret (replicate n backend)
  else mret [].

Fixpoint recover_all (xaid : string) (backends : list string) : TM (list string) :=
  match backends with
  | [] => mret []
  | b :: bs => need ← recover_one xaid b; rest ← recover_all xaid bs; mret (need ++ rest)
  end.

(** The second stage: the number of backends that acknowledged. *)
Fixpoint commit_all (query : string) (need : list string) : TM nat :=
  match need with
  | [] => mret O
  | b :: bs =>
      r ← mtry (ExecuteOnThisBackend b query);
      n ← commit_all query bs;
      mret (match r with inl _ => S n | inr _ => n end)
  end.

Definition retry_query (retry : XaCommitErr) : string :=
  "xa " +:+ xState retry +:+ " '" +:+ xXaid retry +:+ "' ".

(** Both stages; whether every backend that has the transaction acknowledged. *)
Definition retry_stages (retry : XaCommitErr) (backends : list string) : TM bool :=
  need ← recover_all (xXaid retry) backends;
  count ← commit_all (retry_query retry) need;
  mret ((0 <? Z.of_nat count) && Nat.eqb count (length need)).

(** [writeAppendFile] of the entry, a failure of which panics *)
Definition append_timesout (retry : XaCommitErr) : WM unit :=
  x ← wnext_io;
  match x with
  | IoOk => mmodify (fun w => set_timesout (wXaTimesOut w ++ [retry]) w)
  | _ => mpanic
  end.

(** [retry.Times--] on the entry the map points to *)
Definition dec_times (retry : XaCommitErr) : WM unit := mmodify (fun w =>
  match wXa w with
  | None => w
  | Some xc =>
      set_xa (Some (mkXaCheck (xcTimes xc)
        (<[xXaid retry := mkXaCommitErr (xTime retry) (xXaid retry) (xState retry) (xTimes retry - 1)]>
           (xcRetrys xc)))) w
  end).

(** [commitRetryBackends] *)
Definition commitRetryBackends (retry : XaCommitErr) : WM bool :=
  w ← mget;
  match AllBackends w with
  | [] => mfail ErrBackendEmpty
  | backends =>
      done ← with_txn (retry_stages retry backends);
      if (done : bool) then mret true
      else if xTimes retry <=? 0 then _ ← append_timesout retry; mret true
      else _ ← dec_times retry; mret false
  end.

(** The body of the loop of [xaCommitsRetryMain] *)
Definition retry_one (retry : XaCommitErr) : WM unit :=
  done ← commitRetryBackends retry;
  if (done : bool) then
    _ ← mmodify (fun w =>
      match wXa w with
      | None => w
      | Some xc => set_xa (Some (mkXaCheck (xcTimes xc) (delete (xXaid retry) (xcRetrys xc)))) w
      end);
    flushXaCommitErrLog
  else mret tt.

(** [xaCommitsRetryMain] and [xaCommitsRetry]: an entry is visited once, and
    only its own visit changes it. *)
Definition xaCommitsRetry : WM unit :=
  w ← mget;
  match wXa w with
  | None => mpanic
  | Some xc => miter retry_one (snd <$> map_range (xcRetrys xc))
  end.

(** [LoadXaCommitErrLogs] *)
Definition LoadXaCommitErrLogs : WM unit :=
  w ← mget;
  match wXaFile w with
  | None => mret tt
  | Some _ =>
      x ← wnext_io;
      match x with
      | IoOk =>
          w ← mget;
          match wXaFile w with
          | Some (Some logs) => miter addXaCommitErrLog logs
          | _ => mfail ErrJSON
          end
      | _ => mfail ErrIOb
      end
  end.

(** [NewXaCheck], [XaCheck.Init] and [TxnManager.Init]: the directory is made,
    the log is loaded; the manager keeps the check when both succeed. *)
Definition mgr_Init (conf : ScatterConfig) : WM unit := fun w =>
  let old := wXa w in
  match (_ ← (x ← wnext_io; match x with IoOk => mret tt | _ => mfail ErrIOb end);
         _ ← mmodify (set_xa (Some (mkXaCheck (scXaCheckRetrys conf) ∅)));
         LoadXaCommitErrLogs) w with
  | (Ok tt, w') => (Ok tt, w')
  | (r, w') => (r, set_xa old w')
  end.
End retry.

(** ** Statements of the check thread

    The transactions of the check thread run outside two-phase mode and
    without limits.  [plain] says so; [quiet] says that a step keeps it, keeps
    the commit log and the backends, and only adds to what was sent. *)
Definition plain (t : Txn) : Prop :=
  tTwopc t = false /\ tIsExecOnRep t = false /\ tTimeout t = 0 /\ tMaxResult t = 0.

Definition xa_part (w : World) :=
  (wXa w, wXaFile w, wXaTimesOut w, wIo w, wBackends w).

Record calm (s s' : TW) : Prop := {
  ca_plain : plain (twT s) -> plain (twT s');
  ca_xa : xa_part (twW s') = xa_part (twW s);
  ca_backends : tBackends (twT s') = tBackends (twT s);
  ca_sent : forall loc rep, exists new, sent s s' loc rep new
}.

Lemma calm_refl s : calm s s.
Proof. split; try done. intros loc rep. exists []. unfold sent. by rewrite app_nil_r. Qed.

Lemma calm_trans s1 s2 s3 : calm s1 s2 -> calm s2 s3 -> calm s1 s3.
Proof.
  intros [] []. split; [auto|congruence|congruence|]. intros loc rep.
  destruct (ca_sent0 loc rep) as [n1 H1], (ca_sent1 loc rep) as [n2 H2]. exists (n1 ++ n2).
  unfold sent in *. by rewrite H2, H1, app_assoc.
Qed.

Definition quiet {A} (m : TM A) : Prop := forall s, plain (twT s) -> calm s (snd (m s)).

Lemma quiet_bind {A B} (m : TM A) (k : A -> TM B) :
  quiet m -> (forall a, quiet (k a)) -> quiet (x ← m; k x).
Proof.
  intros Hm Hk s Hp. specialize (Hm s Hp). unfold mbind, M_bind.
  destruct (m s) as [[a|e|] s1]; simpl in *; [|done..].
  eapply calm_trans; [exact Hm|]. apply Hk. by apply Hm.
Qed.

Lemma quiet_same {A} (m : TM A) : (forall s, snd (m s) = s) -> quiet m.
Proof. intros H s _. rewrite H. apply calm_refl. Qed.

Lemma quiet_mtry {A} (m : TM A) : quiet m -> quiet (mtry m).
Proof. intros Hm s Hp. specialize (Hm s Hp). unfold mtry. by destruct (m s) as [[]]. Qed.

Lemma quiet_count name : quiet (in_world (txn_count name)).
Proof. intros s Hp. split; try done. intros loc rep. exists []. unfold sent. by rewrite app_nil_r. Qed.

Lemma quiet_modify g :
  (forall t, plain t -> plain (g t)) -> (forall t, tBackends (g t) = tBackends t) -> quiet (modify_txn g).
Proof.
  intros Hg Hb s Hp. split; [intros _; by apply Hg|done|apply Hb|].
  intros loc rep. exists []. unfold sent. by rewrite app_nil_r.
Qed.

Lemma quiet_on_pool {A} Q n loc rep (m : PM A) : sends Q n m -> quiet (on_pool loc rep m).
Proof.
  intros Hm s Hp. pose proof (ext_on_pool Q n loc rep m s Hm) as He.
  assert (twT (snd (on_pool loc rep m s)) = twT s /\
          xa_part (twW (snd (on_pool loc rep m s))) = xa_part (twW s)) as [Ht Hx].
  { unfold on_pool. destruct (pool_at _ _ _); [|done]. by destruct (m p). }
  split; [by rewrite Ht|done|by rewrite Ht|]. intros l b.
  destruct (ex_sent _ _ _ _ He l b) as (new & H & _). by exists new.
Qed.

Section quiet.
Context `{D : Driver, R : MapRange, !MapRangeOk R}.

Lemma quiet_normal b : quiet (normalConnection b).
Proof.
  apply quiet_bind; [by apply quiet_same|]. intros s. case_match.
  - apply quiet_bind; [eapply quiet_on_pool, (sends_Get (fun _ => True))|]. intros c.
    apply quiet_bind; [by apply quiet_modify|]. intros. by apply quiet_same.
  - apply quiet_bind; [apply quiet_count|]. intros. by apply quiet_same.
Qed.

(** In a plain transaction a statement runs on a fresh normal connection. *)
Lemma fetch_plain b s : plain (twT s) -> fetchOneConnection b s = normalConnection b s.
Proof.
  intros (Ht & Hr & _). unfold fetchOneConnection. erewrite M_bind_Ok by reflexivity. rewrite Hr.
  erewrite M_bind_Ok by reflexivity. by rewrite Ht.
Qed.

Lemma normal_result b s h s1 :
  normalConnection b s = (Ok h, s1) -> tBackends (twT s1) !! b = Some (hdLoc h) /\ hdReplica h = false.
Proof.
  intros H. unfold normalConnection in H. erewrite M_bind_Ok in H by reflexivity.
  destruct (tBackends (twT s) !! b) as [loc|] eqn:Hb; [|done].
  apply M_bind_inv_Ok in H as (c & s2 & H2 & H). injection H as <- <-. simpl.
  unfold on_pool in H2. destruct (pool_at _ _ _); [|done]. destruct (Pool_Get p). by injection H2 as _ <-.
Qed.

(** One query on one shard. *)
Lemma shard_plain b q s :
  plain (twT s) ->
  calm s (snd (oneShard b [q] s)) /\
  forall rs s', oneShard b [q] s = (Ok rs, s') -> acked b q s s'.
Proof.
  intros Hp. unfold oneShard. unfold mbind at 1 3, M_bind at 1 3. rewrite fetch_plain by done.
  pose proof (quiet_normal b s Hp) as Hq. destruct (normalConnection b s) as [[h|e|] s1] eqn:Hn; [|done..].
  simpl in Hq. destruct (normal_result _ _ _ _ Hn) as [Hb Hr].
  apply (ca_plain _ _ Hq) in Hp as Hp1. pose proof Hp1 as (_ & _ & Ht & Hm).
  assert (forall c p, ExecuteWithLimits c q (tTimeout (twT s1)) (tMaxResult (twT s1)) p = Execute c q p) as HE.
  { intros c p. rewrite Ht, Hm. apply Execute_no_limits. }
  assert (on_conn h (fun c => ExecuteWithLimits c q (tTimeout (twT s1)) (tMaxResult (twT s1))) s1 =
          on_conn h (fun c => Execute c q) s1) as HC.
  { unfold on_conn, on_pool. destruct (pool_at _ _ _); [|done]. by rewrite HE. }
  pose proof (quiet_on_pool _ _ (hdLoc h) (hdReplica h) (Execute (hdConn h) q)
    (sends_Execute (fun _ => True) (hdConn h) q I) s1 Hp1) as Hx.
  erewrite !M_bind_Ok by reflexivity. cbn [exec_querys].
  unfold mbind at 1 3, M_bind at 1 3. rewrite HC.
  destruct (on_conn h (fun c => Execute c q) s1) as [[r|e|] s2] eqn:HX; unfold on_conn in HX; rewrite HX in Hx;
    simpl in *; (split; [eapply calm_trans; [exact Hq|exact Hx]|]); [|done|done].
  intros rs s' [= _ <-]. apply (on_conn_acked b h q s1 r s2 Hb Hr) in HX.
  destruct HX as (loc & c & new & H1 & H2 & H3). destruct (ca_sent _ _ Hq loc false) as [n1 Hn1].
  exists loc, c, (n1 ++ new). split; [by rewrite <- (ca_backends _ _ Hq)|]. split; [|set_solver].
  unfold sent in *. by rewrite H2, Hn1, app_assoc.
Qed.

(** A request for one backend runs on one shard. *)
Lemma execute_single b q s :
  tTwopc (twT s) = false ->
  txn_execute (mkRequestContext "" ReqNormal TxnNone [mkQueryTuple q b ""]) s =
    match oneShard b [q] (mkTW (twW s) (set_State txnStateExecutingNormal (twT s))) with
    | (Ok rs, s1) => (Ok (foldl AppendResult emptyResult rs), s1)
    | (Err e, s1) => (Err e, s1)
    | (Panic, s1) => (Panic, s1)
    end.
Proof.
  intros Ht. assert (map_range (queryMap [mkQueryTuple q b ""]) = [(b, [q])]) as Hsh.
  { assert (Permutation (map_range (queryMap [mkQueryTuple q b ""])) [(b, [q])]) as HP.
    { rewrite map_range_perm. unfold queryMap. simpl. rewrite lookup_empty. simpl.
      rewrite insert_empty. by rewrite map_to_list_singleton. }
    symmetry in HP. by apply Permutation_singleton_l in HP. }
  unfold txn_execute. erewrite M_bind_Ok by reflexivity. erewrite M_bind_Ok by reflexivity.
  unfold shards. cbn [rqMode rqQuerys]. rewrite Hsh. rewrite Ht.
  set (s0 := mkTW _ _). cbn [fmap list_fmap fst snd eg_run].
  unfold mbind at 1 2, M_bind at 1 2, mtry at 1. destruct (oneShard b [q] s0) as [[rs|e|] s1]; try done.
  simpl. by rewrite app_nil_r.
Qed.

(** A statement sent to one backend. *)
Lemma this_backend_plain b q s :
  plain (twT s) ->
  calm s (snd (ExecuteOnThisBackend b q s)) /\
  forall r s', ExecuteOnThisBackend b q s = (Ok r, s') -> acked b q s s'.
Proof.
  intros Hp. unfold ExecuteOnThisBackend, txn_Execute. pose proof Hp as (Ht & _).
  erewrite !(M_bind_Ok mget) by reflexivity. rewrite Ht.
  rewrite !(M_bind_Ok (mret tt) _ s tt s) by reflexivity. unfold mbind, M_bind, mtry.
  rewrite execute_single by done. set (s0 := mkTW _ _).
  assert (calm s s0) as H0.
  { split; try done. intros loc rep. exists []. unfold sent. by rewrite app_nil_r. }
  destruct (shard_plain b q s0 Hp) as [Hc Ha]. destruct (oneShard b [q] s0) as [[rs|e|] s1]; simpl in *.
  - split; [by eapply calm_trans|]. intros r s' [= _ <-].
    destruct (Ha rs s1 eq_refl) as (loc & c & new & H). by exists loc, c, new.
  - split; [|done]. eapply calm_trans; [exact H0|]. eapply calm_trans; [exact Hc|].
    split; try done. intros loc rep. exists []. unfold sent. by rewrite app_nil_r.
  - split; [by eapply calm_trans|done].
Qed.

Lemma quiet_this b q : quiet (ExecuteOnThisBackend b q).
Proof. intros s Hp. by apply this_backend_plain. Qed.

Lemma quiet_recover xaid bs : quiet (recover_all xaid bs).
Proof.
  induction bs as [|b bs IH]; cbn [recover_all]; [by apply quiet_same|].
  apply quiet_bind.
  - apply quiet_bind; [apply quiet_this|]. intros r. case_match; [|by apply quiet_same].
    apply quiet_bind; [by apply quiet_same|]. intros n. by apply quiet_same.
  - intros need. apply quiet_bind; [apply IH|]. intros rest. by apply quiet_same.
Qed.

Lemma quiet_commit q need : quiet (commit_all q need).
Proof.
  induction need as [|b bs IH]; cbn [commit_all]; [by apply quiet_same|].
  apply quiet_bind; [apply quiet_mtry, quiet_this|]. intros r.
  apply quiet_bind; [apply IH|]. intros n. by apply quiet_same.
Qed.

(** The count reaches the number of backends only when all acknowledged. *)
Lemma commit_all_acked q need s n s' :
  plain (twT s) -> commit_all q need s = (Ok n, s') ->
  (n <= length need)%nat /\ (n = length need -> forall b, b ∈ need -> acked b q s s').
Proof.
  revert s n. induction need as [|b need IH]; intros s n Hp; cbn [commit_all].
  { intros [= <- <-]. split; [done|]. set_solver. }
  intros (r & s1 & H1 & H)%M_bind_inv_Ok. apply M_bind_inv_Ok in H as (k & s2 & H2 & H). injection H as <- <-.
  pose proof (quiet_mtry _ (quiet_this b q) s Hp) as Hq. rewrite H1 in Hq. simpl in Hq.
  apply (ca_plain _ _ Hq) in Hp as Hp1. destruct (IH s1 k Hp1 H2) as [Hle Hall].
  pose proof (quiet_commit q need s1 Hp1) as Hq2. rewrite H2 in Hq2. simpl in Hq2.
  destruct r as [r|e]; simpl; [|split; [lia|intros; lia]]. split; [lia|].
  intros Hn b' [->|Hb']%elem_of_cons.
  - unfold mtry in H1. destruct (ExecuteOnThisBackend b q s) as [[r'| |] s1'] eqn:HE; simplify_eq.
    destruct (this_backend_plain b q s Hp) as [_ Ha].
    destruct (Ha _ _ HE) as (loc & c & new & G1 & G2 & G3). destruct (ca_sent _ _ Hq2 loc false) as [n2 Hn2].
    exists loc, c, (new ++ n2). split; [done|]. split; [|set_solver].
    unfold sent in *. by rewrite Hn2, G2, app_assoc.
  - destruct (Hall ltac:(lia) b' Hb') as (loc & c & new & G1 & G2 & G3).
    destruct (ca_sent _ _ Hq loc false) as [n1 Hn1].
    exists loc, c, (n1 ++ new). split; [by rewrite <- (ca_backends _ _ Hq)|]. split; [|set_solver].
    unfold sent in *. by rewrite G2, Hn1, app_assoc.
Qed.

Lemma quiet_stages retry bs : quiet (retry_stages retry bs).
Proof.
  apply quiet_bind; [apply quiet_recover|]. intros need.
  apply quiet_bind; [apply quiet_commit|]. intros n. by apply quiet_same.
Qed.

(** The check thread takes a transaction as finished only when some backend
    reported it as prepared and every backend that did acknowledged the commit
    or rollback statement that was logged for it. *)
Theorem retry_success_acked retry bs s s' :
  plain (twT s) -> retry_stages retry bs s = (Ok true, s') ->
  exists need s1, recover_all (xXaid retry) bs s = (Ok need, s1) /\ need <> [] /\
    forall b, b ∈ need -> acked b (retry_query retry) s s'.
Proof.
  intros Hp (need & s1 & H1 & H)%M_bind_inv_Ok. exists need, s1. split; [done|].
  apply M_bind_inv_Ok in H as (n & s2 & H2 & H). injection H as H <-.
  apply andb_true_iff in H as [Hn%Z.ltb_lt Heq%Nat.eqb_eq].
  pose proof (quiet_recover (xXaid retry) bs s Hp) as Hq. rewrite H1 in Hq. simpl in Hq.
  apply commit_all_acked in H2 as [_ Hall]; [|by apply Hq]. split; [destruct need; simpl in *; [lia|done]|].
  intros b Hb. destruct (Hall Heq b Hb) as (loc & c & new & G1 & G2 & G3).
  destruct (ca_sent _ _ Hq loc false) as [n1 Hn1].
  exists loc, c, (n1 ++ new). split; [by rewrite <- (ca_backends _ _ Hq)|]. split; [|set_solver].
  unfold sent in *. by rewrite G2, Hn1, app_assoc.
Qed.

(** ** A round of the check thread *)

Lemma xa_part_finish s : xa_part (twW (snd (Finish s))) = xa_part (twW s).
Proof.
  assert (forall (m : TM unit) s, pools_only m -> xa_part (twW (snd (m s))) = xa_part (twW s)) as Hpo.
  { intros m s0 Hm. destruct (Hm s0) as [_ [l ->]]. done. }
  assert (forall A (m : TM A) (k : A -> TM unit) s, xa_part (twW (snd (m s))) = xa_part (twW s) ->
    (forall a s, xa_part (twW (snd (k a s))) = xa_part (twW s)) ->
    xa_part (twW (snd ((x ← m; k x) s))) = xa_part (twW s)) as Hbind.
  { intros A m k s0 Hm Hk. unfold mbind, M_bind. destruct (m s0) as [[a|e|] s1]; simpl in *; [|done..].
    by rewrite Hk. }
  unfold Finish. apply Hbind; [done|intros _ s1]. apply Hbind; [done|intros s2 s3].
  apply Hbind; [|intros _ s4; unfold txn_deferred; apply Hbind; [done|]; intros; apply Hbind; done].
  case_decide; [done|]. apply Hbind; [done|intros _ s4].
  apply Hbind; [apply Hpo, pools_only_miter, pools_only_give|intros _ s5].
  apply Hbind; [done|intros _ s6]. apply Hbind; [apply Hpo, pools_only_miter, pools_only_give|intros _ s7].
  apply Hbind; [apply Hpo, pools_only_miter, pools_only_give|intros _ s8]. done.
Qed.

Lemma with_txn_frame {A} (m : TM A) w : quiet m -> xa_part (snd (with_txn m w)) = xa_part w.
Proof.
  intros Hm. unfold with_txn. destruct (CreateTransaction w) as [rt w1] eqn:HC.
  assert (xa_part w1 = xa_part w /\ forall t, rt = Ok t -> plain t) as [Hx Ht].
  { unfold CreateTransaction, CreateTxn in HC. erewrite M_bind_Ok in HC by reflexivity.
    destruct (decide _); [by injection HC as <- <-|].
    unfold NewTxn, mgr_GetID, mgr_Add, txnz_Add, txn_count, mmodify, mbind, M_bind in HC. simpl in HC.
    injection HC as <- <-. split; [done|]. intros t [= <-]. done. }
  destruct rt as [t|e|]; [|done..]. specialize (Hm (mkTW w1 t) (Ht t eq_refl)).
  destruct (m (mkTW w1 t)) as [r s1]. simpl in Hm. pose proof (xa_part_finish s1) as Hf.
  destruct (Finish s1) as [r2 s2]. simpl in *. rewrite Hf, (ca_xa _ _ Hm). done.
Qed.

(** [retry.Times--] *)
Definition dec (e : XaCommitErr) : XaCommitErr :=
  mkXaCommitErr (xTime e) (xXaid e) (xState e) (xTimes e - 1).

(** What a retry leaves of the log. *)
Definition retried (m : gmap string XaCommitErr) (e : XaCommitErr) : gmap string XaCommitErr -> Prop :=
  fun m' => m' = delete (xXaid e) m \/ (0 < xTimes e /\ m' = <[xXaid e := dec e]> m).

Lemma commitRetry_spec retry w b w' xc :
  wXa w = Some xc -> commitRetryBackends retry w = (Ok b, w') ->
  if b then wXa w' = Some xc /\
            (wXaTimesOut w' = wXaTimesOut w \/ (xTimes retry <= 0 /\ wXaTimesOut w' = wXaTimesOut w ++ [retry]))
  else 0 < xTimes retry /\ wXaTimesOut w' = wXaTimesOut w /\
       wXa w' = Some (mkXaCheck (xcTimes xc) (<[xXaid retry := dec retry]> (xcRetrys xc))).
Proof.
  intros Hx H. unfold commitRetryBackends in H. erewrite M_bind_Ok in H by reflexivity.
  destruct (AllBackends w) as [|b0 bs]; [done|].
  apply M_bind_inv_Ok in H as (d & w1 & H1 & H).
  pose proof (with_txn_frame (retry_stages retry (b0 :: bs)) w (quiet_stages _ _)) as Hf.
  rewrite H1 in Hf. simpl in Hf. injection Hf as Hxa _ Hto Hio _.
  destruct d; [injection H as <- <-; split; [congruence|by left]|].
  destruct (Z.leb_spec (xTimes retry) 0) as [Hle|Hgt].
  - apply M_bind_inv_Ok in H as ([] & w2 & H2 & H). injection H as <- <-.
    unfold append_timesout, mbind, M_bind, wnext_io in H2.
    destruct (wIo w1) as [|[] l]; try done; injection H2 as <-; simpl; rewrite Hxa, Hto, Hx; auto.
  - apply M_bind_inv_Ok in H as ([] & w2 & H2 & H). injection H as <- <-. injection H2 as <-.
    rewrite Hxa, Hx. done.
Qed.

Lemma flush_Xa w w' : flushXaCommitErrLog w = (Ok tt, w') -> wXa w' = wXa w.
Proof.
  unfold flushXaCommitErrLog, mbind at 1, M_bind at 1, mget. destruct (wXa w) as [xc|] eqn:Hx; [|done].
  unfold or_panic, write_file, mbind, M_bind, mtry, wnext_io.
  destruct (wIo w) as [|[] l]; simpl; intros [= <-]; done.
Qed.

Lemma retry_one_spec retry w w' xc :
  wXa w = Some xc -> retry_one retry w = (Ok tt, w') ->
  exists m', wXa w' = Some (mkXaCheck (xcTimes xc) m') /\ retried (xcRetrys xc) retry m'.
Proof.
  intros Hx H. unfold retry_one in H. apply M_bind_inv_Ok in H as (b & w1 & H1 & H).
  apply (commitRetry_spec _ _ _ _ _ Hx) in H1. destruct b.
  - destruct H1 as [Hx1 _]. apply M_bind_inv_Ok in H as ([] & w2 & H2 & H). injection H2 as <-.
    rewrite Hx1 in H. apply flush_Xa in H. eexists. split; [exact H|]. by left.
  - injection H as <-. destruct H1 as (Hpos & _ & ->). eexists. split; [reflexivity|]. by right.
Qed.

(** The log is filed under the transaction ids. *)
Definition keyed (m : gmap string XaCommitErr) : Prop := forall k e, m !! k = Some e -> xXaid e = k.

(** What a round leaves of an entry. *)
Definition after_round (m m' : gmap string XaCommitErr) (k : string) : Prop :=
  match m !! k with
  | None => m' !! k = None
  | Some e => m' !! k = None \/ (0 < xTimes e /\ m' !! k = Some (dec e))
  end.

Lemma retry_loop l w w' xc :
  wXa w = Some xc -> NoDup (xXaid <$> l) -> (forall e, e ∈ l -> xcRetrys xc !! xXaid e = Some e) ->
  miter retry_one l w = (Ok tt, w') ->
  exists m', wXa w' = Some (mkXaCheck (xcTimes xc) m') /\
    forall k, if decide (k ∈ xXaid <$> l) then after_round (xcRetrys xc) m' k else m' !! k = xcRetrys xc !! k.
Proof.
  revert w xc. induction l as [|e l IH]; intros w xc Hx Hnd Hin; cbn [miter].
  { intros [= <-]. exists (xcRetrys xc). split; [by destruct xc|]. intros k. rewrite decide_False; [done|set_solver]. }
  intros ([] & w1 & H1 & H)%M_bind_inv_Ok. destruct (retry_one_spec _ _ _ _ Hx H1) as (m1 & Hx1 & Hr).
  apply NoDup_cons in Hnd as [He Hnd].
  assert (forall k, k <> xXaid e -> m1 !! k = xcRetrys xc !! k) as Hother.
  { intros k Hk. destruct Hr as [->|[_ ->]]; [by rewrite lookup_delete_ne|by rewrite lookup_insert_ne]. }
  assert (after_round (xcRetrys xc) m1 (xXaid e)) as Hself.
  { unfold after_round. rewrite (Hin e ltac:(left)).
    destruct Hr as [->|[Hp ->]]; [left; by rewrite lookup_delete_eq|right; by rewrite lookup_insert_eq]. }
  destruct (IH w1 _ Hx1 Hnd) as (m' & Hx' & Hm').
  - intros e' He'. cbn [xcRetrys]. rewrite Hother; [apply Hin; by right|]. intros Heq. apply He. rewrite <- Heq.
    by apply list_elem_of_fmap_2.
  - done.
  - exists m'. split; [done|]. intros k. specialize (Hm' k). cbn [xcRetrys] in Hm'. rewrite fmap_cons.
    destruct (decide (k = xXaid e)) as [->|Hk].
    + rewrite decide_True by (left). rewrite decide_False in Hm' by done. unfold after_round in *.
      by rewrite Hm'.
    + destruct (decide (k ∈ xXaid <$> l)) as [Hkl|Hkl].
      * rewrite decide_True by (by right). unfold after_round in *. by rewrite Hother in Hm' by done.
      * rewrite decide_False; [|intros [?|?]%elem_of_cons; done]. by rewrite Hm', Hother.
Qed.

(** The entries a round visits are those of the log, each once. *)
Lemma pending_entries m :
  keyed m ->
  (forall e, e ∈ snd <$> map_range m <-> m !! xXaid e = Some e) /\ NoDup (xXaid <$> (snd <$> map_range m)).
Proof.
  intros Hk. split.
  - intros e. rewrite list_elem_of_fmap. split.
    + intros ([k e'] & -> & Hin). rewrite map_range_perm in Hin. apply elem_of_map_to_list in Hin. simpl.
      by rewrite (Hk _ _ Hin).
    + intros He. exists (xXaid e, e). split; [done|]. rewrite map_range_perm. by apply elem_of_map_to_list.
  - rewrite <- list_fmap_compose, (list_fmap_ext _ fst).
    + rewrite map_range_perm. apply NoDup_fst_map_to_list.
    + intros i [k e] Hl. apply list_elem_of_lookup_2 in Hl. rewrite map_range_perm in Hl.
      apply elem_of_map_to_list in Hl. simpl. by apply Hk.
Qed.

Lemma after_round_keyed m m' k e : keyed m -> after_round m m' k -> m' !! k = Some e -> xXaid e = k.
Proof.
  intros Hk Ha He. unfold after_round in Ha. destruct (m !! k) as [e0|] eqn:H0; [|congruence].
  destruct Ha as [?|[_ Hd]]; [congruence|]. rewrite Hd in He. injection He as <-. simpl. by apply Hk.
Qed.

Lemma round_spec w w' xc :
  wXa w = Some xc -> keyed (xcRetrys xc) -> xaCommitsRetry w = (Ok tt, w') ->
  exists m', wXa w' = Some (mkXaCheck (xcTimes xc) m') /\ keyed m' /\ forall k, after_round (xcRetrys xc) m' k.
Proof.
  intros Hx Hk H. unfold xaCommitsRetry in H. erewrite M_bind_Ok in H by reflexivity. rewrite Hx in H.
  destruct (pending_entries _ Hk) as [Hmem Hnd].
  destruct (retry_loop _ _ w' _ Hx Hnd (fun e => proj1 (Hmem e)) H) as (m' & Hx' & Hm').
  assert (forall k, after_round (xcRetrys xc) m' k) as Hall.
  { intros k. specialize (Hm' k). destruct (decide _) as [|Hn]; [done|]. unfold after_round.
    destruct (xcRetrys xc !! k) as [e|] eqn:He; [|done]. exfalso. apply Hn.
    rewrite <- (Hk _ _ He). apply list_elem_of_fmap_2, Hmem. by rewrite (Hk _ _ He). }
  exists m'. split; [done|]. split; [|done]. intros k e He. by apply (after_round_keyed _ _ _ _ Hk (Hall k)).
Qed.

(** A round of the check thread that returns removes each pending
    transaction or uses up one of its retries, and adds none: an entry left
    after the round had a retry left, and has one less now. *)
Theorem retry_round w w' xc :
  wXa w = Some xc -> keyed (xcRetrys xc) -> xaCommitsRetry w = (Ok tt, w') ->
  exists m', wXa w' = Some (mkXaCheck (xcTimes xc) m') /\
    forall k, match xcRetrys xc !! k with
              | None => m' !! k = None
              | Some e => m' !! k = None \/ (0 < xTimes e /\ m' !! k = Some (dec e))
              end.
Proof.
  intros Hx Hk H. destruct (round_spec _ _ _ Hx Hk H) as (m' & ? & _ & Hall). exists m'. split; [done|].
  exact Hall.
Qed.

(** A step of the loop that fails has changed nothing of the log. *)
Lemma retry_one_Err retry w e w' : retry_one retry w = (Err e, w') -> wXa w' = wXa w.
Proof.
  assert (forall v e0 v', flushXaCommitErrLog v <> (Err e0, v')) as HF.
  { intros v e0 v'. unfold flushXaCommitErrLog, or_panic, write_file, wnext_io, mtry, mbind, M_bind, mget.
    destruct (wXa v); [|done]. by destruct (wIo v) as [|[] l]. }
  unfold retry_one, commitRetryBackends, mget, mmodify, mbind, M_bind.
  destruct (AllBackends w) as [|b0 bs]; [by intros [= _ <-]|].
  pose proof (with_txn_frame (retry_stages retry (b0 :: bs)) w (quiet_stages _ _)) as Hf.
  destruct (with_txn _ w) as [[d|e'|] w1]; simpl in Hf; [|intros [= _ <-]; by injection Hf|done].
  destruct d; [intros H; by apply HF in H|]. destruct (xTimes retry <=? 0); [|done].
  unfold append_timesout, wnext_io, mbind, M_bind. destruct (wIo w1) as [|[] l]; try done; intros H; by apply HF in H.
Qed.

(** A failing loop ran its steps up to the one that failed. *)
Lemma miter_Err {St Er A} (f : A -> M St Er unit) l s e s' :
  miter f l s = (Err e, s') ->
  exists l1 x l2 s1, l = l1 ++ x :: l2 /\ miter f l1 s = (Ok tt, s1) /\ f x s1 = (Err e, s').
Proof.
  revert s. induction l as [|x l IH]; intros s; cbn [miter]; [done|].
  unfold mbind, M_bind. destruct (f x s) as [[[]|e'|] s1] eqn:Hx; [|intros [= -> ->]; by exists [], x, l, s|done].
  intros (l1 & y & l2 & s2 & -> & H1 & H2)%IH. exists (x :: l1), y, l2, s2. split; [done|]. split; [|done].
  cbn [miter]. by erewrite M_bind_Ok.
Qed.

(** What a round leaves of an entry whether it returned or failed. *)
Definition kept_or_after (m m' : gmap string XaCommitErr) (k : string) : Prop :=
  m' !! k = m !! k \/ after_round m m' k.

Lemma round_Err w e w' xc :
  wXa w = Some xc -> keyed (xcRetrys xc) -> xaCommitsRetry w = (Err e, w') ->
  exists m', wXa w' = Some (mkXaCheck (xcTimes xc) m') /\ keyed m' /\ forall k, kept_or_after (xcRetrys xc) m' k.
Proof.
  intros Hx Hk H. unfold xaCommitsRetry in H. erewrite M_bind_Ok in H by reflexivity. rewrite Hx in H.
  apply miter_Err in H as (l1 & x & l2 & w1 & Hl & H1 & H2). apply retry_one_Err in H2.
  destruct (pending_entries _ Hk) as [Hmem Hnd]. rewrite Hl in Hmem, Hnd.
  rewrite fmap_app in Hnd. apply NoDup_app in Hnd as (Hnd & _ & _).
  assert (forall e0, e0 ∈ l1 -> xcRetrys xc !! xXaid e0 = Some e0) as Hin.
  { intros e0 He0. apply Hmem. set_solver. }
  destruct (retry_loop _ _ w1 _ Hx Hnd Hin H1) as (m' & Hx' & Hm').
  exists m'. split; [by rewrite H2|].
  assert (forall k, kept_or_after (xcRetrys xc) m' k) as Hall.
  { intros k. specialize (Hm' k). destruct (decide _); [by right|by left]. }
  split; [|done]. intros k e0 He. destruct (Hall k) as [Hs|Hs]; [apply Hk; by rewrite <- Hs|].
  by apply (after_round_keyed _ _ _ _ Hk Hs).
Qed.

(** The ticks of the check thread, of which [n] returned without an error: a
    tick whose round fails is followed by the next one. *)
Inductive ticks : nat -> World -> World -> Prop :=
| ticks_none w : ticks O w w
| ticks_ok n w w1 w' : xaCommitsRetry w = (Ok tt, w1) -> ticks n w1 w' -> ticks (S n) w w'
| ticks_err n w e w1 w' : xaCommitsRetry w = (Err e, w1) -> ticks n w1 w' -> ticks n w w'.

(** Every pending transaction has fewer than [n] retries left. *)
Definition retries_below (n : Z) (m : gmap string XaCommitErr) : Prop :=
  forall k e, m !! k = Some e -> xTimes e < n.

Lemma kept_below n m m' : (forall k, kept_or_after m m' k) -> retries_below n m -> retries_below n m'.
Proof.
  intros Hr Hb k e He. destruct (Hr k) as [Hs|Hs]; [apply (Hb k); congruence|]. unfold after_round in Hs.
  destruct (m !! k) as [e0|] eqn:H0; [|congruence]. destruct Hs as [?|[Hp Hd]]; [congruence|].
  rewrite He in Hd. injection Hd as ->. specialize (Hb k e0 H0). simpl. lia.
Qed.

Lemma round_below n m m' :
  (forall k, after_round m m' k) -> retries_below (Z.of_nat (S n)) m ->
  if decide (n = O) then m' = ∅ else retries_below (Z.of_nat n) m'.
Proof.
  intros Hr Hb. assert (forall k e, m' !! k = Some e -> 0 <= xTimes e < Z.of_nat n) as Hall.
  { intros k e He. specialize (Hr k). unfold after_round in Hr.
    destruct (m !! k) as [e0|] eqn:H0; [|congruence]. destruct Hr as [?|[Hp Hd]]; [congruence|].
    rewrite He in Hd. injection Hd as ->. specialize (Hb k e0 H0). simpl. lia. }
  case_decide as Hn; [|intros k e He; by apply (Hall k)]. apply map_empty. intros k.
  destruct (m' !! k) as [e|] eqn:He; [|done]. specialize (Hall k e He). lia.
Qed.

(** Once the log is empty it stays empty. *)
Lemma ticks_empty n w w' xc :
  wXa w = Some xc -> xcRetrys xc = ∅ -> ticks n w w' -> exists xc', wXa w' = Some xc' /\ xcRetrys xc' = ∅.
Proof.
  intros Hx He H. revert xc Hx He. induction H as [w|n w w1 w' H _ IH|n w e w1 w' H _ IH]; intros xc Hx He; [by exists xc|..].
  - destruct (round_spec _ _ _ Hx ltac:(rewrite He; done) H) as (m' & Hx' & _ & Hm). apply (IH _ Hx'). apply map_empty.
    intros k. specialize (Hm k). unfold after_round in Hm. by rewrite He, lookup_empty in Hm.
  - destruct (round_Err _ _ _ _ Hx ltac:(rewrite He; done) H) as (m' & Hx' & _ & Hm). apply (IH _ Hx'). apply map_empty.
    intros k. destruct (Hm k) as [Hs|Hs]; [by rewrite He, lookup_empty in Hs|]. unfold after_round in Hs.
    by rewrite He, lookup_empty in Hs.
Qed.

(** C40: the log empties.  The check thread ticks any number of times while no
    other commit fails; a tick whose round fails, because there is no backend,
    no transaction can be created or a backend does not answer [xa recover],
    removes and uses up what it had reached and is followed by the next tick.
    When every pending transaction has at most [n] retries left and [n + 1]
    of the ticks returned without an error, no transaction is pending.  A
    failing round does not use a retry of the transaction it failed on, so the
    count is of the rounds that returned ([failed_round_keeps]). *)
Theorem retry_terminates n w w' xc :
  wXa w = Some xc -> keyed (xcRetrys xc) -> (forall k e, xcRetrys xc !! k = Some e -> xTimes e <= Z.of_nat n) ->
  ticks (S n) w w' ->
  exists xc', wXa w' = Some xc' /\ xcRetrys xc' = ∅.
Proof.
  intros Hx Hk Hmax H. assert (retries_below (Z.of_nat (S n)) (xcRetrys xc)) as Hb.
  { intros k e He. specialize (Hmax k e He). lia. }
  clear Hmax. remember (S n) as c eqn:Hc. revert n xc Hc Hx Hk Hb.
  induction H as [w|c w w1 w' H Ht IH|c w e w1 w' H Ht IH]; intros n xc Hc Hx Hk Hb; [done|..].
  - injection Hc as ->. destruct (round_spec _ _ _ Hx Hk H) as (m' & Hx' & Hk' & Hm).
    pose proof (round_below n _ _ Hm Hb) as Hd. destruct n as [|n]; [by apply (ticks_empty _ _ _ _ Hx' Hd Ht)|].
    by apply (IH n _ eq_refl Hx').
  - destruct (round_Err _ _ _ _ Hx Hk H) as (m' & Hx' & Hk' & Hm).
    apply (IH n _ Hc Hx' Hk'). by apply (kept_below _ _ _ Hm).
Qed.

(** ** The log file *)
Lemma add_logs l w xc :
  wXa w = Some xc -> NoDup (xXaid <$> l) -> (forall e, e ∈ l -> xcRetrys xc !! xXaid e = None) ->
  exists w' m', miter addXaCommitErrLog l w = (Ok tt, w') /\ wXa w' = Some (mkXaCheck (xcTimes xc) m') /\
    forall k e, m' !! k = Some e <-> (e ∈ l /\ xXaid e = k) \/ xcRetrys xc !! k = Some e.
Proof.
  revert w xc. induction l as [|e l IH]; intros w xc Hx Hnd Hfree.
  { exists w, (xcRetrys xc). split; [done|]. split; [by destruct xc|]. set_solver. }
  apply NoDup_cons in Hnd as [He Hnd].
  set (w1 := set_xa (Some (mkXaCheck (xcTimes xc) (<[xXaid e := e]> (xcRetrys xc)))) w).
  assert (addXaCommitErrLog e w = (Ok tt, w1)) as H1.
  { unfold addXaCommitErrLog. by rewrite Hx, (Hfree e ltac:(left)). }
  destruct (IH w1 _ eq_refl Hnd) as (w' & m' & H & Hx' & Hm').
  { intros e' He'. simpl. rewrite lookup_insert_ne; [apply Hfree; by right|]. intros Heq. apply He.
    rewrite Heq. by apply list_elem_of_fmap_2. }
  exists w', m'. split; [cbn [miter]; by erewrite M_bind_Ok|]. split; [done|]. intros k e'. rewrite Hm'. simpl.
  pose proof (Hfree e ltac:(left)) as Hf. destruct (decide (k = xXaid e)) as [->|Hk].
  - rewrite lookup_insert_eq, Hf. split.
    + intros [[? ?]|[= ->]]; [left; split; [by right|done]|left; split; [left|done]].
    + intros [[[->|?]%elem_of_cons ?]|?]; [by right|left; done|done].
  - rewrite lookup_insert_ne by done. set_solver.
Qed.

(** A log that was flushed is restored by loading it into a new check: the
    same transactions are pending with the same state and retries. *)
Theorem xalog_roundtrip conf w w1 xc :
  wXa w = Some xc -> keyed (xcRetrys xc) -> wIo w = [] -> flushXaCommitErrLog w = (Ok tt, w1) ->
  exists w2, mgr_Init conf w1 = (Ok tt, w2) /\
    wXa w2 = Some (mkXaCheck (scXaCheckRetrys conf) (xcRetrys xc)).
Proof.
  intros Hx Hk Hio HF. set (logs := snd <$> map_range (xcRetrys xc)).
  assert (wXaFile w1 = Some (Some logs) /\ wIo w1 = []) as [Hf1 Hio1].
  { unfold flushXaCommitErrLog, or_panic, write_file, wnext_io, mtry, mbind, M_bind, mget in HF.
    rewrite Hx in HF. simpl in HF. rewrite Hio in HF. simpl in HF. by injection HF as <-. }
  destruct (pending_entries _ Hk) as [Hmem Hnd]. fold logs in Hmem, Hnd.
  set (w0 := set_xa (Some (mkXaCheck (scXaCheckRetrys conf) ∅)) w1).
  destruct (add_logs logs w0 _ eq_refl Hnd) as (w2 & m' & Hrun & Hx2 & Hm').
  { intros e _. simpl. apply lookup_empty. }
  exists w2. unfold mgr_Init, LoadXaCommitErrLogs, wnext_io, mbind, M_bind, mmodify, mget. rewrite Hio1. simpl.
  rewrite Hf1. simpl. rewrite Hio1. simpl. rewrite Hf1. fold w0. rewrite Hrun. split; [done|].
  rewrite Hx2. simpl. do 2 f_equal. apply map_eq. intros k. apply option_eq. intros e. rewrite Hm'. simpl.
  rewrite lookup_empty, Hmem. split.
  - intros [[H <-]|?]; [done|done].
  - intros H. left. by rewrite (Hk _ _ H).
Qed.
End quiet.

(** ** Concrete instances

    One transaction is pending; both backends are asked, the first reports the
    transaction as prepared. *)
#[local] Existing Instance ex_driver.

Definition ex_entry (times : Z) : XaCommitErr := mkXaCommitErr "20200101000000" "RXID-1" "commit" times.
Definition ex_recover : drv_out :=
  DrvOk (mkResult ["formatID"; "gtrid_length"; "bqual_length"; "data"] 1 0 [["1"; "6"; "0"; "rxid-1"]]) 0.
Definition ex_pending (times : Z) (script : gmap string (list drv_out)) : World :=
  set_xa (Some (mkXaCheck 10 {[ "RXID-1" := ex_entry times ]})) (ex_scatter script).
Definition ex_prepared : gmap string (list drv_out) := {[ "a:1" := [ok_out; ex_recover] ]}.
Definition ex_plain (script : gmap string (list drv_out)) : TW :=
  match CreateTransaction (ex_scatter script) with
  | (Ok t, w) => mkTW w t
  | (_, w) => mkTW w (mkTxn 0 "" 0 None false false false txnStateLive txnXAStateNone ∅ 0 0 0 0 ∅ [] [])
  end.

Lemma ex_keyed times : keyed {[ "RXID-1" := ex_entry times ]}.
Proof. intros k e. rewrite lookup_singleton_Some. intros [<- <-]. done. Qed.

Lemma retry_success_acked_witness :
  exists need s' s1, retry_stages (ex_entry 3) ["b1"; "b2"] (ex_plain ex_prepared) = (Ok true, s') /\
    recover_all "RXID-1" ["b1"; "b2"] (ex_plain ex_prepared) = (Ok need, s1) /\
    forall b, b ∈ need -> acked b "xa commit 'RXID-1' " (ex_plain ex_prepared) s'.
Proof.
  destruct (retry_success_acked (ex_entry 3) ["b1"; "b2"] (ex_plain ex_prepared)
    (snd (retry_stages (ex_entry 3) ["b1"; "b2"] (ex_plain ex_prepared)))) as (need & s1 & H1 & _ & H2).
  - vm_compute. split_and!; reflexivity.
  - vm_compute. reflexivity.
  - eexists need, _, s1. split; [vm_compute; reflexivity|]. split; [exact H1|exact H2].
Defined.

Lemma retry_round_witness :
  exists m', wXa (snd (xaCommitsRetry (ex_pending 3 ∅))) = Some (mkXaCheck 10 m') /\
    (m' !! "RXID-1" = None \/ (0 < 3 /\ m' !! "RXID-1" = Some (dec (ex_entry 3)))).
Proof.
  destruct (retry_round (ex_pending 3 ∅) (snd (xaCommitsRetry (ex_pending 3 ∅)))
    (mkXaCheck 10 {[ "RXID-1" := ex_entry 3 ]})) as (m' & H1 & H2);
    [reflexivity|apply ex_keyed|vm_compute; reflexivity|].
  exists m'. split; [exact H1|exact (H2 "RXID-1")].
Defined.

(** The first backend answers the first [xa recover] with an error. *)
Definition ex_failing : gmap string (list drv_out) := {[ "a:1" := [ok_out; DrvSQLErr 1205] ]}.

(** A round that fails on [xa recover] leaves the retries of the transaction. *)
Example failed_round_keeps :
  exists e w', xaCommitsRetry (ex_pending 1 ex_failing) = (Err e, w') /\
    wXa w' = Some (mkXaCheck 10 {[ "RXID-1" := ex_entry 1 ]}).
Proof. eexists _, _. split; vm_compute; reflexivity. Qed.

Lemma retry_terminates_witness :
  exists w' xc', ticks 2 (ex_pending 1 ex_failing) w' /\ wXa w' = Some xc' /\ xcRetrys xc' = ∅.
Proof.
  set (w1 := snd (xaCommitsRetry (ex_pending 1 ex_failing))).
  assert (ticks 2 (ex_pending 1 ex_failing) (snd (xaCommitsRetry (snd (xaCommitsRetry w1))))) as H.
  { eapply (ticks_err _ _ _ w1); [vm_compute; reflexivity|].
    apply (ticks_ok _ _ (snd (xaCommitsRetry w1))); [vm_compute; reflexivity|].
    eapply ticks_ok; [vm_compute; reflexivity|]. apply ticks_none. }
  destruct (retry_terminates 1 (ex_pending 1 ex_failing) (snd (xaCommitsRetry (snd (xaCommitsRetry w1))))
    (mkXaCheck 10 {[ "RXID-1" := ex_entry 1 ]})) as (xc' & H1 & H2).
  - reflexivity.
  - apply ex_keyed.
  - intros k e. cbn [xcRetrys]. rewrite lookup_singleton_Some. intros [_ <-]. simpl. lia.
  - exact H.
  - eexists _, xc'. split; [exact H|]. split; [exact H1|exact H2].
Defined.

Lemma xalog_roundtrip_witness :
  exists w1 w2, flushXaCommitErrLog (ex_pending 3 ∅) = (Ok tt, w1) /\
    mgr_Init DefaultScatterConfig w1 = (Ok tt, w2) /\
    wXa w2 = Some (mkXaCheck 10 {[ "RXID-1" := ex_entry 3 ]}).
Proof.
  exists (snd (flushXaCommitErrLog (ex_pending 3 ∅))).
  destruct (xalog_roundtrip DefaultScatterConfig (ex_pending 3 ∅) (snd (flushXaCommitErrLog (ex_pending 3 ∅)))
    (mkXaCheck 10 {[ "RXID-1" := ex_entry 3 ]})) as (w2 & H1 & H2).
  - reflexivity.
  - apply ex_keyed.
  - vm_compute. reflexivity.
  - vm_compute. reflexivity.
  - exists w2. split; [vm_compute; reflexivity|]. split; [exact H1|exact H2].
Defined.
