(* ===== verification/Join.v ===== *)
(** * Joining shard results (src/executor/engine: merge_join.go, join_engine.go, common.go)

    The rows of the left and the right plan are joined in the proxy: by a
    sort-merge join on the join keys, or by a Cartesian product.

    A value of a row belongs to the SQL library ([sqltypes.Value]); the class
    [Values] names what the engine uses of it, [lawful] the sets of values on
    which its comparison is an order.  [concatLeftAndRight] runs one goroutine per left row and
    appends its rows under a mutex, so the order of the joined rows is open:
    the interleaving of the goroutines is the parameter [Schedule]. *)
From S2P Require Import Prelude GoStd.
Open Scope list_scope.
Open Scope Z_scope.

(** ** Values *)
Class Values (V : Type) := {
  vnull : V;
  IsNull : V -> bool;
  CastToBool : V -> bool;
  NullsafeCompare : V -> V -> Z
}.

(** The zero [Value] has the type NULL. *)
Class ZeroNull (V : Type) `{Values V} := vnull_IsNull : IsNull vnull = true.

(** The comparison is not an order of all values: it is numeric when one side
    is a number and bytewise otherwise, so that on a column with numbers and
    text it is not transitive, and it panics on tuples and on numbers that
    cannot be parsed.  [lawful D] says that on the values [D] it does what
    sorting needs: it answers -1, 0 or 1 (and does not panic), it is a total
    preorder, and NULL equals NULL only.  The values of a column of one type
    are such a set ([ints_lawful] and [texts_lawful] in JoinProps), those of
    a column of numbers and a column of text together need not be
    ([mixed_not_lawful]).  Theorems that sort take it as a condition on the
    values of the columns at hand. *)
Record lawful {V : Type} `{Values V} (D : V -> Prop) : Prop := {
  law_range : forall a b, D a -> D b -> NullsafeCompare a b = -1 \/ NullsafeCompare a b = 0 \/ NullsafeCompare a b = 1;
  law_antisym : forall a b, D a -> D b -> NullsafeCompare b a = - NullsafeCompare a b;
  law_trans : forall a b c, D a -> D b -> D c ->
    NullsafeCompare a b <= 0 -> NullsafeCompare b c <= 0 -> NullsafeCompare a c <= 0;
  law_null : forall a b, D a -> D b -> NullsafeCompare a b = 0 -> IsNull a = IsNull b
}.

(** ** The plan node *)

(** The operators of a [Comparison]; any other operator filters nothing. *)
Inductive CmpOp := EqualOp | LessThanOp | GreaterThanOp | LessEqualOp | GreaterEqualOp | NotEqualOp
  | NullSafeEqualOp | OtherOp.
Record Comparison := mkComparison { cmpLeft : Z; cmpRight : Z; cmpOp : CmpOp; cmpExchange : bool }.

Inductive JoinStrategy := Cartesian | SortMerge | NestLoop.

(** [builder.JoinNode], the part the engine reads; a [JoinKey] is its index. *)
Record JoinNode := mkJoinNode {
  jnStrategy : JoinStrategy;
  jnCols : list Z;
  jnLeftKeys : list Z;
  jnRightKeys : list Z;
  jnCmpFilter : list Comparison;
  jnIsLeftJoin : bool;
  jnHasRightFilter : bool;
  jnLeftTmpCols : list Z;
  jnRightTmpCols : list Z;
  jnVars : list (string * Z)
}.

Inductive jerr := ErrRowLimit (maxrow : Z) | ErrPlan (e : string).

(** The order in which the goroutines of a call append their rows, given the
    rows of each. *)
Class Schedule (V : Type) := interleave : list (list (list V)) -> list (list V).

(** Every goroutine appends each of its rows once. *)
Class ScheduleOk (V : Type) `{Schedule V} := interleave_perm : forall xs, interleave xs ≡ₚ mjoin xs.

Section join.
Context {V : Type} `{VV : Values V, SC : Schedule V}.

Abbreviation row := (list V).
Abbreviation JR := (res jerr).

(** [row[i]] *)
Definition at_ (r : row) (i : Z) : JR V :=
  if i <? 0 then Panic else match r !! Z.to_nat i with Some v => Ok v | None => Panic end.

(** The result of a join: [res.Rows] and [res.RowsAffected]. *)
Record JRes := mkJRes { jRows : list row; jAffected : Z }.
Definition emptyJRes : JRes := mkJRes [] 0.

(** Append a row and check the limit. *)
Definition emit (maxrow : Z) (acc : JRes) (r : row) : JR JRes :=
  let acc := mkJRes (jRows acc ++ [r]) (wrap 64 (jAffected acc + 1)) in
  if maxrow <? Z.of_nat (length (jRows acc)) then Err (ErrRowLimit maxrow) else Ok acc.

(** [joinRows]; a nil right row leaves zero values. *)
Fixpoint joinRows (lrow : row) (rrow : option row) (cols : list Z) : JR row :=
  match cols with
  | [] => Ok []
  | index :: cols =>
      v ← (if index <? 0 then at_ lrow (- index - 1)
           else match rrow with Some r => at_ r (index - 1) | None => Ok vnull end);
      vs ← joinRows lrow rrow cols;
      Ok (v :: vs)
  end.

(** [keysEqual] *)
Fixpoint keysEqual (row1 row2 : row) (joins : list Z) : JR bool :=
  match joins with
  | [] => Ok true
  | j :: joins =>
      v1 ← at_ row1 j; v2 ← at_ row2 j;
      if NullsafeCompare v1 v2 =? 0 then keysEqual row1 row2 joins else Ok false
  end.

(** The loop of [fetchSameKeyRows] over the rows after the first. *)
Fixpoint same_prefix (current : row) (joins : list Z) (rows : list row) : JR (list row) :=
  match rows with
  | [] => Ok []
  | r :: rows =>
      equal ← keysEqual current r joins;
      if (equal : bool) then rest ← same_prefix current joins rows; Ok (r :: rest) else Ok []
  end.

(** [fetchSameKeyRows] *)
Definition fetchSameKeyRows (rows : list row) (joins : list Z) (index : nat) : JR (option (list row) * nat) :=
  match rows !! index with
  | None => Ok (None, index)
  | Some current =>
      match joins with
      | [] => Ok (Some rows, length rows)
      | _ =>
          rest ← same_prefix current joins (drop (S index) rows);
          Ok (Some (current :: rest), (S index + length rest)%nat)
      end
  end.

(** ** One left row *)

(** The switch on the operator: whether the comparison fails. *)
Definition op_fails (op : CmpOp) (cmp : Z) : bool :=
  match op with
  | EqualOp | NullSafeEqualOp => negb (cmp =? 0)
  | LessThanOp => negb (cmp =? -1)
  | GreaterThanOp => negb (cmp =? 1)
  | LessEqualOp => cmp =? 1
  | GreaterEqualOp => cmp =? -1
  | NotEqualOp => cmp =? 0
  | OtherOp => false
  end.

(** The loop over [node.CmpFilter]. *)
Fixpoint filters_match (lrow rrow : row) (fs : list Comparison) : JR bool :=
  match fs with
  | [] => Ok true
  | f :: fs =>
      l ← at_ lrow (cmpLeft f); r ← at_ rrow (cmpRight f);
      let cmp := if cmpExchange f then NullsafeCompare r l else NullsafeCompare l r in
      if op_fails (cmpOp f) cmp then Ok false
      else match cmpOp f with
           | NullSafeEqualOp => filters_match lrow rrow fs
           | _ => if IsNull l || IsNull r then Ok false else filters_match lrow rrow fs
           end
  end.

(** The loop over [node.LeftTmpCols]. *)
Fixpoint left_match (lrow : row) (cols : list Z) : JR bool :=
  match cols with
  | [] => Ok true
  | i :: cols => v ← at_ lrow i; if CastToBool v then left_match lrow cols else Ok false
  end.

(** The loop over [node.RightTmpCols]. *)
Fixpoint right_null (rrow : row) (cols : list Z) : JR bool :=
  match cols with
  | [] => Ok true
  | i :: cols => v ← at_ rrow i; if IsNull v then right_null rrow cols else Ok false
  end.

(** The loop over the right rows: the rows to append and [matchCnt]. *)
Fixpoint match_rows (node : JoinNode) (lrow : row) (rrows : list row) (matchCnt : nat) : JR (list row * nat) :=
  match rrows with
  | [] => Ok ([], matchCnt)
  | rrow :: rrows =>
      m ← filters_match lrow rrow (jnCmpFilter node);
      if (m : bool) then
        ok ← right_null rrow (jnRightTmpCols node);
        new ← (if (ok : bool) then r ← joinRows lrow (Some rrow) (jnCols node); Ok [r] else Ok []);
        am ← match_rows node lrow rrows (S matchCnt);
        Ok (new ++ fst am, snd am)
      else match_rows node lrow rrows matchCnt
  end.

Definition keeps_left (node : JoinNode) : bool := jnIsLeftJoin node && negb (jnHasRightFilter node).

(** [mathOps]: the rows one goroutine appends, in its order. *)
Definition mathOps (node : JoinNode) (rrows : list row) (lrow : row) : JR (list row) :=
  lm ← left_match lrow (jnLeftTmpCols node);
  am ← (if (lm : bool) then match_rows node lrow rrows 0 else Ok ([], O));
  if Nat.eqb (snd am) 0 && keeps_left node
  then r ← joinRows lrow None (jnCols node); Ok (fst am ++ [r])
  else Ok (fst am).

Fixpoint all_rows (f : row -> JR (list row)) (lrows : list row) : JR (list (list row)) :=
  match lrows with
  | [] => Ok []
  | l :: lrows => x ← f l; xs ← all_rows f lrows; Ok (x :: xs)
  end.

(** [concatLeftAndRight]: the goroutines append under the mutex; after the
    limit error no row is appended any more. *)
Definition concatLeftAndRight (lrows rrows : list row) (node : JoinNode) (maxrow : Z) (acc : JRes) : JR JRes :=
  outs ← all_rows (mathOps node rrows) lrows;
  res_fold (emit maxrow) acc (interleave outs).

(** [concatLeftAndNil] *)
Definition concatLeftAndNil (lrows : list row) (node : JoinNode) (maxrow : Z) (acc : JRes) : JR JRes :=
  if keeps_left node
  then res_fold (fun acc lrow => r ← joinRows lrow None (jnCols node); emit maxrow acc r) acc lrows
  else Ok acc.

(** ** The merge *)

(** The comparison of the two current groups: [cmp] and [isNull]. *)
Fixpoint group_cmp (lrow rrow : row) (lkeys rkeys : list Z) : JR (Z * bool) :=
  match lkeys with
  | [] => Ok (0, false)
  | lk :: lkeys =>
      match rkeys with
      | [] => Panic
      | rk :: rkeys =>
          l ← at_ lrow lk; r ← at_ rrow rk;
          let cmp := NullsafeCompare l r in
          if negb (cmp =? 0) then Ok (cmp, false)
          else if IsNull l then Ok (0, true)
          else group_cmp lrow rrow lkeys rkeys
      end
  end.

(** The loop of [mergeJoin].  Every iteration but the last moves one of the
    two indexes, so [fuel] bounds them; running out of it counts as a panic,
    which [mergeJoin_correct] excludes. *)
Fixpoint merge_loop (fuel : nat) (lres rres : list row) (node : JoinNode) (maxrow : Z)
    (lrows : option (list row)) (lidx : nat) (rrows : option (list row)) (ridx : nat) (acc : JRes) : JR JRes :=
  match lrows with
  | None => Ok acc
  | Some lc =>
      match fuel with
      | O => Panic
      | S fuel =>
          match rrows with
          | None => concatLeftAndNil (drop (lidx - length lc) lres) node maxrow acc
          | Some rc =>
              match lc, rc with
              | l0 :: _, r0 :: _ =>
                  cn ← group_cmp l0 r0 (jnLeftKeys node) (jnRightKeys node);
                  let '(cmp, isNull) := cn in
                  if cmp =? 0 then
                    acc ← (if (isNull : bool) then concatLeftAndNil lc node maxrow acc
                           else concatLeftAndRight lc rc node maxrow acc);
                    ln ← fetchSameKeyRows lres (jnLeftKeys node) lidx;
                    rn ← fetchSameKeyRows rres (jnRightKeys node) ridx;
                    merge_loop fuel lres rres node maxrow (fst ln) (snd ln) (fst rn) (snd rn) acc
                  else if 0 <? cmp then
                    rn ← fetchSameKeyRows rres (jnRightKeys node) ridx;
                    merge_loop fuel lres rres node maxrow (Some lc) lidx (fst rn) (snd rn) acc
                  else
                    acc ← concatLeftAndNil lc node maxrow acc;
                    ln ← fetchSameKeyRows lres (jnLeftKeys node) lidx;
                    merge_loop fuel lres rres node maxrow (fst ln) (snd ln) (Some rc) ridx acc
              | _, _ => Panic
              end
          end
      end
  end.

(** [mergeJoin] *)
Definition mergeJoin (lres rres : list row) (node : JoinNode) (maxrow : Z) (acc : JRes) : JR JRes :=
  ln ← fetchSameKeyRows lres (jnLeftKeys node) 0;
  rn ← fetchSameKeyRows rres (jnRightKeys node) 0;
  merge_loop (S (length lres + length rres)) lres rres node maxrow (fst ln) (snd ln) (fst rn) (snd rn) acc.

(** [cartesianProduct] *)
Definition cartesianProduct (lres rres : list row) (node : JoinNode) (maxrow : Z) (acc : JRes) : JR JRes :=
  res_fold (fun acc lrow =>
    res_fold (fun acc rrow => r ← joinRows lrow (Some rrow) (jnCols node); emit maxrow acc r) acc rres)
    (mkJRes [] (jAffected acc)) lres.

(** ** Sorting *)

(** The [less] of [sortMergeJoin]: on equal keys it answers [true]. *)
Fixpoint key_less (keys : list Z) (row1 row2 : row) : JR bool :=
  match keys with
  | [] => Ok true
  | key :: keys =>
      v1 ← at_ row1 key; v2 ← at_ row2 key;
      let cmp := NullsafeCompare v1 v2 in
      if cmp =? 0 then key_less keys row1 row2 else Ok (cmp <? 0)
  end.
End join.
Arguments JRes : clear implicits.

(** [sort.Slice] of Go's library.  The order of elements [less] does not
    separate is open, so the function is a parameter of the model. *)
Class GoSort (V : Type) := sort_Slice : (list V -> list V -> res jerr bool) -> list (list V) -> res jerr (list (list V)).

(** Its documented contract: when [less] answers (does not panic) and both
    it and its negation are transitive, the result is a permutation in which
    no element stands after one it is less than, ties apart. *)
Class GoSortOk (V : Type) `{GoSort V} := sort_ok : forall less lt xs,
  (forall a b, a ∈ xs -> b ∈ xs -> less a b = Ok (lt a b)) ->
  (forall a b c, a ∈ xs -> b ∈ xs -> c ∈ xs -> lt a b = true -> lt b c = true -> lt a c = true) ->
  (forall a b c, a ∈ xs -> b ∈ xs -> c ∈ xs -> lt a b = false -> lt b c = false -> lt a c = false) ->
  exists ys, sort_Slice less xs = Ok ys /\ ys ≡ₚ xs /\
    StronglySorted (fun a b => lt a b = true \/ lt b a = false) ys.

Section engine.
Context {V F : Type} `{VV : Values V, SC : Schedule V, GS : GoSort V}.
Abbreviation row := (list V).
Abbreviation JR := (res jerr).

(** [sortMergeJoin]; the two sides are sorted side by side. *)
Definition sortMergeJoin (lres rres : list row) (node : JoinNode) (maxrow : Z) (acc : JRes V) : JR (JRes V) :=
  lres ← sort_Slice (key_less (jnLeftKeys node)) lres;
  rres ← sort_Slice (key_less (jnRightKeys node)) rres;
  mergeJoin lres rres node maxrow acc.

(** ** The engine *)

(** [sqltypes.Result] as the engines use it. *)
Record Result := mkResult { Fields : list F; resRows : JRes V }.
Abbreviation BindVars := (gmap string V).

(** The [PlanEngine] interface: a child as the function of the bind
    variables it computes. *)
Record PlanEngine := mkPlanEngine {
  pe_Execute : JR Result;
  pe_execBindVars : BindVars -> bool -> JR Result;
  pe_getFields : BindVars -> JR Result
}.

(** [joinFields] *)
Definition field_at (fs : list F) (i : Z) : JR F :=
  if i <? 0 then Panic else match fs !! Z.to_nat i with Some f => Ok f | None => Panic end.
Fixpoint joinFields (lfields rfields : list F) (cols : list Z) : JR (list F) :=
  match cols with
  | [] => Ok []
  | index :: cols =>
      f ← (if index <? 0 then field_at lfields (- index - 1) else field_at rfields (index - 1));
      fs ← joinFields lfields rfields cols;
      Ok (f :: fs)
  end.

(** [combineVars]: the second map wins. *)
Definition combineVars (bv1 bv2 : BindVars) : BindVars := bv2 ∪ bv1.

(** [joinVars[k] = lrow[col]] for the variables of the node. *)
Definition bind_row (vars : list (string * Z)) (lrow : row) (joinVars : BindVars) : JR BindVars :=
  res_fold (fun jv kc => v ← at_ lrow kc.2; Ok (<[kc.1 := v]> jv)) joinVars vars.

(** [joinVars[k] = NullBindVariable] *)
Definition null_vars (vars : list (string * Z)) (joinVars : BindVars) : BindVars :=
  fold_left (fun jv kc => <[kc.1 := vnull]> jv) vars joinVars.

(** The loop over the right rows: the accumulator and [matchCnt]. *)
Fixpoint nest_right (node : JoinNode) (maxrow : Z) (lrow : row) (rrows : list row) (acc : JRes V) (matchCnt : nat)
    : JR (JRes V * nat) :=
  match rrows with
  | [] => Ok (acc, matchCnt)
  | rrow :: rrows =>
      ok ← right_null rrow (jnRightTmpCols node);
      acc ← (if (ok : bool) then r ← joinRows lrow (Some rrow) (jnCols node); emit maxrow acc r else Ok acc);
      nest_right node maxrow lrow rrows acc (S matchCnt)
  end.

(** What the loop over the left rows carries. *)
Record Nest := mkNest { nsVars : BindVars; nsWant : bool; nsFields : list F; nsAcc : JRes V }.

(** One left row of [execBindVars]. *)
Definition nest_row (right : PlanEngine) (node : JoinNode) (maxrow : Z) (bindVars : BindVars) (lfields : list F)
    (st : Nest) (lrow : row) : JR Nest :=
  leftMatch ← left_match lrow (jnLeftTmpCols node);
  sm ← (if (leftMatch : bool) then
          joinVars ← bind_row (jnVars node) lrow (nsVars st);
          rres ← pe_execBindVars right (combineVars bindVars joinVars) (nsWant st);
          fields ← (if nsWant st then joinFields lfields (Fields rres) (jnCols node) else Ok (nsFields st));
          am ← nest_right node maxrow lrow (jRows (resRows rres)) (nsAcc st) 0;
          Ok (mkNest joinVars false fields (fst am), snd am)
        else Ok (st, O));
  if Nat.eqb (snd sm) 0
  then acc ← concatLeftAndNil [lrow] node maxrow (nsAcc (fst sm));
       Ok (mkNest (nsVars (fst sm)) (nsWant (fst sm)) (nsFields (fst sm)) acc)
  else Ok (fst sm).

(** [JoinEngine.execBindVars] *)
Definition join_execBindVars (left right : PlanEngine) (node : JoinNode) (maxrow : Z) (bindVars : BindVars) (wantfields : bool)
    : JR Result :=
  lres ← pe_execBindVars left bindVars wantfields;
  st ← res_fold (nest_row right node maxrow bindVars (Fields lres)) (mkNest ∅ wantfields [] emptyJRes) (jRows (resRows lres));
  if nsWant st then
    rres ← pe_getFields right (combineVars bindVars (null_vars (jnVars node) (nsVars st)));
    fields ← joinFields (Fields lres) (Fields rres) (jnCols node);
    Ok (mkResult fields (nsAcc st))
  else Ok (mkResult (nsFields st) (nsAcc st)).

(** [JoinEngine.getFields]; the join variables are set, but the right side
    gets [bindVars]. *)
Definition join_getFields (left right : PlanEngine) (node : JoinNode) (bindVars : BindVars) : JR Result :=
  lres ← pe_getFields left bindVars;
  rres ← pe_getFields right bindVars;
  fields ← joinFields (Fields lres) (Fields rres) (jnCols node);
  Ok (mkResult fields emptyJRes).

(** [JoinEngine.Execute].  [ExecSubPlan] is the operators above the join
    (order by, limit, aggregates).  The two sides run side by side; of two
    errors either may be the one returned, here the left one is. *)
Definition join_Execute (left right : PlanEngine) (node : JoinNode) (maxrow : Z) (ExecSubPlan : Result -> JR Result) : JR Result :=
  match jnStrategy node with
  | NestLoop => ctx ← join_execBindVars left right node maxrow ∅ true; ExecSubPlan ctx
  | strategy =>
      lres ← pe_Execute left; rres ← pe_Execute right;
      fields ← joinFields (Fields lres) (Fields rres) (jnCols node);
      match jRows (resRows lres), jRows (resRows rres) with
      | [], _ => Ok (mkResult fields emptyJRes)
      | lrows, [] => acc ← concatLeftAndNil lrows node maxrow emptyJRes; ExecSubPlan (mkResult fields acc)
      | lrows, rrows =>
          acc ← match strategy with
                | SortMerge => sortMergeJoin lrows rrows node maxrow emptyJRes
                | _ => cartesianProduct lrows rrows node maxrow emptyJRes
                end;
          ExecSubPlan (mkResult fields acc)
      end
  end.
End engine.
Arguments Result : clear implicits.
Arguments PlanEngine : clear implicits.
