(* ===== verification/JoinProps.v ===== *)
(** * The sort-merge join is the nested-loop join

    [joined] is the reference: every left row with every right row that
    matches it.  On rows sorted by the join keys, the merge produces exactly
    these rows, or the row-limit error when there are too many. *)
From S2P Require Import Prelude GoStd Join.
Open Scope list_scope.
Open Scope Z_scope.

Section props.
Context {V : Type} `{VV : Values V, SC : Schedule V, SO : !ScheduleOk V}.
Abbreviation row := (list V).

(** ** Rows that have the columns of the plan *)
Definition getv (r : row) (i : Z) : V := default vnull (r !! Z.to_nat i).
Definition inb (w : Z) (i : Z) : Prop := 0 <= i < w.

Lemma at_getv (r : row) w i : Z.of_nat (length r) = w -> inb w i -> at_ r i = Ok (getv r i).
Proof.
  intros Hw [H0 H1]. unfold at_, getv. destruct (Z.ltb_spec i 0); [lia|].
  destruct (lookup_lt_is_Some_2 r (Z.to_nat i)) as [v Hv]; [lia|]. by rewrite Hv.
Qed.

(** The node refers to columns of the two sides, of [wl] and [wr] columns. *)
Record node_ok (wl wr : Z) (node : JoinNode) : Prop := {
  no_lkeys : Forall (inb wl) (jnLeftKeys node);
  no_rkeys : Forall (inb wr) (jnRightKeys node);
  no_len : length (jnLeftKeys node) = length (jnRightKeys node);
  no_filter : Forall (fun f => inb wl (cmpLeft f) /\ inb wr (cmpRight f)) (jnCmpFilter node);
  no_cols : Forall (fun i => (i < 0 /\ inb wl (- i - 1)) \/ (0 < i /\ inb wr (i - 1))) (jnCols node);
  no_ltmp : Forall (inb wl) (jnLeftTmpCols node);
  no_rtmp : Forall (inb wr) (jnRightTmpCols node)
}.
Definition rows_ok (w : Z) (rows : list row) : Prop := Forall (fun r => Z.of_nat (length r) = w) rows.

(** ** The reference *)

(** The key of a row and the order of keys. *)
Definition kv (keys : list Z) (r : row) : list V := getv r <$> keys.
Fixpoint vcmp (a b : list V) : Z :=
  match a, b with
  | x :: a, y :: b => let c := NullsafeCompare x y in if c =? 0 then vcmp a b else c
  | _, _ => 0
  end.

(** Two keys match: equal, and without a NULL. *)
Fixpoint kmatch (a b : list V) : bool :=
  match a, b with
  | x :: a, y :: b => (NullsafeCompare x y =? 0) && negb (IsNull x) && kmatch a b
  | _, _ => true
  end.

Definition filter_ok (l r : row) (f : Comparison) : bool :=
  let a := getv l (cmpLeft f) in
  let b := getv r (cmpRight f) in
  negb (op_fails (cmpOp f) (if cmpExchange f then NullsafeCompare b a else NullsafeCompare a b)) &&
  match cmpOp f with NullSafeEqualOp => true | _ => negb (IsNull a || IsNull b) end.

Definition out_row (node : JoinNode) (l : row) (r : option row) : row :=
  (fun i => if i <? 0 then getv l (- i - 1)
            else match r with Some r => getv r (i - 1) | None => vnull end) <$> jnCols node.

(** The right rows that satisfy the conditions of the join besides its keys. *)
Definition matches (node : JoinNode) (l : row) (rrows : list row) : list row :=
  if forallb (fun i => CastToBool (getv l i)) (jnLeftTmpCols node)
  then filter (fun r => forallb (filter_ok l r) (jnCmpFilter node) = true) rrows else [].

(** The rows one left row contributes, given the right rows with its key. *)
Definition row_out (node : JoinNode) (rrows : list row) (l : row) : list row :=
  let ms := matches node l rrows in
  (out_row node l ∘ Some <$> filter (fun r => forallb (fun i => IsNull (getv r i)) (jnRightTmpCols node) = true) ms) ++
  match ms with [] => if keeps_left node then [out_row node l None] else [] | _ => [] end.

Definition same_key (node : JoinNode) (l r : row) : Prop :=
  kmatch (kv (jnLeftKeys node) l) (kv (jnRightKeys node) r) = true.
Global Instance same_key_dec node l r : Decision (same_key node l r).
Proof. unfold same_key. apply _. Defined.

(** The nested-loop join. *)
Definition joined (node : JoinNode) (L R : list row) : list row :=
  l ← L; row_out node (filter (same_key node l) R) l.

(** ** Appending rows *)
Definition emit_all (maxrow : Z) (acc : JRes V) (rows : list row) : res jerr (JRes V) :=
  res_fold (emit maxrow) acc rows.

Lemma emit_all_app maxrow acc xs ys :
  emit_all maxrow acc (xs ++ ys) = (a ← emit_all maxrow acc xs; emit_all maxrow a ys).
Proof. apply res_fold_app. Qed.

Lemma emit_all_one maxrow acc r : emit_all maxrow acc [r] = emit maxrow acc r.
Proof. unfold emit_all. cbn [res_fold]. by destruct (emit maxrow acc r). Qed.

Lemma emit_all_cons maxrow acc r rows :
  emit_all maxrow acc (r :: rows) =
    if maxrow <? Z.of_nat (S (length (jRows acc))) then Err (ErrRowLimit maxrow)
    else emit_all maxrow (mkJRes (jRows acc ++ [r]) (wrap 64 (jAffected acc + 1))) rows.
Proof.
  unfold emit_all. cbn [res_fold]. replace (emit maxrow acc r) with
    (if maxrow <? Z.of_nat (S (length (jRows acc))) then Err (ErrRowLimit maxrow)
     else Ok (mkJRes (jRows acc ++ [r]) (wrap 64 (jAffected acc + 1)))); [by destruct (_ <? _)|].
  unfold emit. cbn [jRows]. rewrite length_app. simpl. by rewrite Nat.add_1_r.
Qed.

(** The rows are all appended, or the limit is exceeded. *)
Lemma emit_all_spec maxrow acc rows :
  rows <> [] ->
  emit_all maxrow acc rows =
    if Z.of_nat (length (jRows acc) + length rows) <=? maxrow
    then Ok (mkJRes (jRows acc ++ rows) (fold_left (fun n _ => wrap 64 (n + 1)) rows (jAffected acc)))
    else Err (ErrRowLimit maxrow).
Proof.
  revert acc. induction rows as [|r rows IH]; intros acc Hne; [done|].
  rewrite emit_all_cons. cbn [length]. destruct (Z.ltb_spec maxrow (Z.of_nat (S (length (jRows acc))))).
  - destruct (Z.leb_spec (Z.of_nat (length (jRows acc) + S (length rows))) maxrow); [lia|done].
  - destruct rows as [|r' rows].
    + simpl. destruct (Z.leb_spec (Z.of_nat (length (jRows acc) + 1)) maxrow); [done|lia].
    + rewrite IH by done. cbn [jRows jAffected]. rewrite length_app. cbn [length].
      replace (length (jRows acc) + 1 + S (length rows))%nat with (length (jRows acc) + S (S (length rows)))%nat by lia.
      destruct (_ <=? _); [|done]. by rewrite <- app_assoc.
Qed.

(** ** One left row *)
Section node.
Context (wl wr : Z) (node : JoinNode) (maxrow : Z) (Hnode : node_ok wl wr node).

Definition lok (l : row) : Prop := Z.of_nat (length l) = wl.
Definition rok (r : row) : Prop := Z.of_nat (length r) = wr.

Lemma keysEqual_pure w keys r1 r2 :
  Forall (inb w) keys -> Z.of_nat (length r1) = w -> Z.of_nat (length r2) = w ->
  keysEqual r1 r2 keys = Ok (vcmp (kv keys r1) (kv keys r2) =? 0).
Proof.
  intros Hk H1 H2. induction Hk as [|k keys Hin Hk IH]; [done|]. cbn [keysEqual kv fmap list_fmap vcmp].
  rewrite (at_getv r1 w), (at_getv r2 w) by done. cbn [mbind res_bind].
  destruct (NullsafeCompare _ _ =? 0) eqn:He; [exact IH|]. by rewrite He.
Qed.

Lemma joinRows_pure l r :
  lok l -> match r with Some r => rok r | None => True end -> joinRows l r (jnCols node) = Ok (out_row node l r).
Proof.
  intros Hl Hr. unfold out_row. induction (no_cols _ _ _ Hnode) as [|i cols Hi _ IH]; [done|].
  cbn [joinRows fmap list_fmap]. rewrite IH.
  assert ((if i <? 0 then at_ l (- i - 1) else match r with Some r => at_ r (i - 1) | None => Ok vnull end) =
    Ok (if i <? 0 then getv l (- i - 1) else match r with Some r => getv r (i - 1) | None => vnull end)) as ->; [|done].
  destruct (Z.ltb_spec i 0), Hi as [[? ?]|[? ?]]; try lia; [by apply (at_getv l wl)|].
  destruct r as [r|]; [by apply (at_getv r wr)|done].
Qed.

Lemma filters_pure l r :
  lok l -> rok r -> filters_match l r (jnCmpFilter node) = Ok (forallb (filter_ok l r) (jnCmpFilter node)).
Proof.
  intros Hl Hr. induction (no_filter _ _ _ Hnode) as [|f fs [Hi Hj] _ IH]; [done|]. cbn [filters_match forallb].
  rewrite (at_getv l wl), (at_getv r wr) by done. cbn [mbind res_bind]. rewrite IH.
  set (F := forallb (filter_ok l r) fs). clearbody F. unfold filter_ok.
  destruct (op_fails _ _); [done|]. destruct (cmpOp f); simpl; try done; by destruct (_ || _).
Qed.

Lemma left_pure l :
  lok l -> left_match l (jnLeftTmpCols node) = Ok (forallb (fun i => CastToBool (getv l i)) (jnLeftTmpCols node)).
Proof.
  intros Hl. induction (no_ltmp _ _ _ Hnode) as [|i cols Hi _ IH]; [done|]. cbn [left_match forallb].
  rewrite (at_getv l wl) by done. cbn [mbind res_bind]. rewrite IH. by destruct (CastToBool _).
Qed.

Lemma right_pure r :
  rok r -> right_null r (jnRightTmpCols node) = Ok (forallb (fun i => IsNull (getv r i)) (jnRightTmpCols node)).
Proof.
  intros Hr. induction (no_rtmp _ _ _ Hnode) as [|i cols Hi _ IH]; [done|]. cbn [right_null forallb].
  rewrite (at_getv r wr) by done. cbn [mbind res_bind]. rewrite IH. by destruct (IsNull _).
Qed.

Lemma match_rows_pure l rrows n :
  lok l -> Forall rok rrows ->
  let ms := filter (fun r => forallb (filter_ok l r) (jnCmpFilter node) = true) rrows in
  match_rows node l rrows n =
    Ok (out_row node l ∘ Some <$>
          filter (fun r => forallb (fun i => IsNull (getv r i)) (jnRightTmpCols node) = true) ms, (n + length ms)%nat).
Proof.
  intros Hl Hr. revert n. induction Hr as [|r rrows Hrok Hr IH]; intros n.
  { simpl. by rewrite Nat.add_0_r. }
  cbn [match_rows]. rewrite filters_pure by done. cbn [mbind res_bind]. rewrite !filter_cons.
  destruct (forallb (filter_ok l r) _).
  - rewrite decide_True by done. rewrite filter_cons. rewrite right_pure by done. cbn [mbind res_bind].
    destruct (forallb (fun i => IsNull _) _).
    + rewrite decide_True by done. rewrite joinRows_pure by done. cbn [mbind res_bind fmap list_fmap].
      rewrite IH. cbn [mbind res_bind fst snd length app]. by rewrite Nat.add_succ_r.
    + rewrite decide_False by done. cbn [mbind res_bind]. rewrite IH. cbn [mbind res_bind fst snd length app].
      by rewrite Nat.add_succ_r.
  - rewrite decide_False by done. apply IH.
Qed.

Lemma mathOps_pure l rrows : lok l -> Forall rok rrows -> mathOps node rrows l = Ok (row_out node rrows l).
Proof.
  intros Hl Hr. unfold mathOps, row_out, matches. rewrite left_pure by done. cbn [mbind res_bind].
  destruct (forallb _ (jnLeftTmpCols node)).
  - rewrite match_rows_pure by done. set (ms := filter _ rrows). cbn [mbind res_bind fst snd Nat.add].
    destruct ms as [|r ms]; [|cbn [length Nat.eqb andb]; by rewrite app_nil_r].
    cbn [length Nat.eqb andb]. destruct (keeps_left node); [|by rewrite app_nil_r]. by rewrite joinRows_pure.
  - cbn [mbind res_bind fst snd Nat.eqb andb fmap list_fmap filter list_filter app].
    destruct (keeps_left node); [|done]. by rewrite joinRows_pure.
Qed.

Lemma concatLR_pure lrows rrows :
  Forall lok lrows -> Forall rok rrows ->
  exists rows, rows ≡ₚ (l ← lrows; row_out node rrows l) /\
    forall acc, concatLeftAndRight lrows rrows node maxrow acc = emit_all maxrow acc rows.
Proof.
  intros Hl Hr. exists (interleave (row_out node rrows <$> lrows)). split.
  - rewrite interleave_perm. clear Hl. induction lrows as [|l lrows IH]; [done|]. rewrite fmap_cons, bind_cons. cbn. by rewrite IH.
  - intros acc. unfold concatLeftAndRight.
    assert (all_rows (mathOps node rrows) lrows = Ok (row_out node rrows <$> lrows)) as ->; [|done].
    induction Hl as [|l lrows Hlok Hl IH]; [done|]. cbn [all_rows]. rewrite mathOps_pure by done. cbn [mbind res_bind].
    by rewrite IH.
Qed.

(** Left rows without a partner. *)
Lemma row_out_nil l : row_out node [] l = if keeps_left node then [out_row node l None] else [].
Proof. unfold row_out, matches. by destruct (forallb _ (jnLeftTmpCols node)). Qed.

Lemma concatLN_pure lrows acc :
  Forall lok lrows ->
  concatLeftAndNil lrows node maxrow acc = emit_all maxrow acc (l ← lrows; row_out node [] l).
Proof.
  intros Hl. unfold concatLeftAndNil. destruct (keeps_left node) eqn:Hk.
  - revert acc. induction Hl as [|l lrows Hlok Hl IH]; intros acc; [done|]. cbn [res_fold].
    rewrite joinRows_pure by done. rewrite bind_cons, row_out_nil, Hk. cbn [mbind res_bind app emit_all res_fold].
    destruct (emit maxrow acc _); [|done|done]. cbn [mbind res_bind]. apply IH.
  - replace (l ← lrows; row_out node [] l) with ([] : list row); [done|]. clear Hl.
    induction lrows as [|l lrows IH]; [done|]. rewrite bind_cons, row_out_nil, Hk. exact IH.
Qed.
End node.

(** ** The order of keys *)

(** A key whose values belong to the domains of their columns. *)
Definition kin (doms : list (V -> Prop)) (a : list V) : Prop := Forall2 (fun (D : V -> Prop) v => D v) doms a.

Section keys.
Context (doms : list (V -> Prop)) (Hdoms : Forall lawful doms).

Lemma vcmp_antisym a b : kin doms a -> kin doms b -> vcmp b a = - vcmp a b.
Proof.
  revert a b. induction Hdoms as [|D ds HD Hds IH]; intros a b Ha Hb; inv Ha as [|? x ? a' Hx Ha']; inv Hb as [|? y ? b' Hy Hb']; [done|].
  simpl. rewrite (law_antisym D HD x y), (IH Hds a' b') by done.
  destruct (Z.eqb_spec (NullsafeCompare x y) 0) as [->|Hne]; [done|].
  destruct (Z.eqb_spec (- NullsafeCompare x y) 0); [lia|done].
Qed.

Lemma vcmp_refl a : kin doms a -> vcmp a a = 0.
Proof. intros Ha. pose proof (vcmp_antisym a a Ha Ha). lia. Qed.

Lemma vcmp_trans a b c : kin doms a -> kin doms b -> kin doms c -> vcmp a b <= 0 -> vcmp b c <= 0 -> vcmp a c <= 0.
Proof.
  revert a b c. induction Hdoms as [|D ds HD Hds IH]; intros a b c Ha Hb Hc;
    inv Ha as [|? x ? a' Hx Ha']; inv Hb as [|? y ? b' Hy Hb']; inv Hc as [|? z ? c' Hz Hc']; [done|]. simpl.
  pose proof (law_antisym D HD x y Hx Hy) as Ax. pose proof (law_antisym D HD y z Hy Hz) as Ay.
  pose proof (law_antisym D HD x z Hx Hz) as Az. pose proof (law_trans D HD x y z Hx Hy Hz) as T1.
  pose proof (law_trans D HD z x y Hz Hx Hy) as T2. pose proof (law_trans D HD y z x Hy Hz Hx) as T3.
  destruct (Z.eqb_spec (NullsafeCompare x y) 0), (Z.eqb_spec (NullsafeCompare y z) 0),
    (Z.eqb_spec (NullsafeCompare x z) 0); intros; try lia. by apply (IH Hds a' b' c').
Qed.

Lemma vcmp_lt_le a b c : kin doms a -> kin doms b -> kin doms c -> vcmp a b < 0 -> vcmp b c <= 0 -> vcmp a c < 0.
Proof.
  intros Ha Hb Hc Hab Hbc. destruct (Z.lt_ge_cases (vcmp a c) 0) as [|Hge]; [done|].
  pose proof (vcmp_antisym a b Ha Hb). pose proof (vcmp_antisym a c Ha Hc). assert (vcmp b a <= 0); [|lia].
  apply (vcmp_trans b c a); [done..|lia].
Qed.

Lemma vcmp_le_lt a b c : kin doms a -> kin doms b -> kin doms c -> vcmp a b <= 0 -> vcmp b c < 0 -> vcmp a c < 0.
Proof.
  intros Ha Hb Hc Hab Hbc. destruct (Z.lt_ge_cases (vcmp a c) 0) as [|Hge]; [done|].
  pose proof (vcmp_antisym b c Hb Hc). pose proof (vcmp_antisym a c Ha Hc). assert (vcmp c b <= 0); [|lia].
  apply (vcmp_trans c a b); [done..|lia|done].
Qed.

(** A key with a NULL matches nothing. *)
Definition has_null (a : list V) : bool := existsb IsNull a.

Lemma kmatch_facts a b :
  kin doms a -> kin doms b -> kmatch a b = true -> vcmp a b = 0 /\ has_null a = false /\ has_null b = false.
Proof.
  revert a b. induction Hdoms as [|D ds HD Hds IH]; intros a b Ha Hb; inv Ha as [|? x ? a' Hx Ha']; inv Hb as [|? y ? b' Hy Hb']; [done|].
  simpl. intros [[Hc%Z.eqb_eq Hn%negb_true_iff]%andb_true_iff Hm]%andb_true_iff.
  destruct (IH Hds a' b') as (H1 & H2 & H3); [done..|]. pose proof (law_null D HD x y Hx Hy Hc) as Hny.
  rewrite Hc, Hn, <- Hny, Hn. simpl. done.
Qed.

Lemma cmp_eq_l D x y z :
  lawful D -> D x -> D y -> D z -> NullsafeCompare x y = 0 -> NullsafeCompare x z = 0 -> NullsafeCompare y z = 0.
Proof.
  intros HD Hx Hy Hz H1 H2. pose proof (law_antisym D HD x y Hx Hy). pose proof (law_antisym D HD x z Hx Hz).
  pose proof (law_antisym D HD y z Hy Hz). pose proof (law_trans D HD y x z Hy Hx Hz). pose proof (law_trans D HD z x y Hz Hx Hy). lia.
Qed.

(** Matching depends on keys up to equality. *)
Lemma kmatch_congr a a' b b' :
  kin doms a -> kin doms a' -> kin doms b -> kin doms b' ->
  vcmp a a' = 0 -> vcmp b b' = 0 -> kmatch a b = true -> kmatch a' b' = true.
Proof.
  revert a a' b b'. induction Hdoms as [|D ds HD Hds IH]; intros a a' b b' Ha Ha' Hb Hb';
    inv Ha as [|? x ? a1 Hx Ha1]; inv Ha' as [|? x' ? a2 Hx' Ha2]; inv Hb as [|? y ? b1 Hy Hb1]; inv Hb' as [|? y' ? b2 Hy' Hb2];
    [done|]. simpl.
  destruct (Z.eqb_spec (NullsafeCompare x x') 0) as [Hxx|]; [|lia].
  destruct (Z.eqb_spec (NullsafeCompare y y') 0) as [Hyy|]; [|lia].
  intros H1 H2 [[Hc%Z.eqb_eq Hn]%andb_true_iff Hm]%andb_true_iff.
  assert (NullsafeCompare x' y' = 0) as ->.
  { pose proof (cmp_eq_l D x x' y HD Hx Hx' Hy Hxx Hc). apply (cmp_eq_l D y); [done..| |done].
    pose proof (law_antisym D HD x' y Hx' Hy). lia. }
  rewrite <- (law_null D HD x x' Hx Hx' Hxx), Hn. simpl. by apply (IH Hds a1 a2 b1 b2).
Qed.

Lemma has_null_congr a b : kin doms a -> kin doms b -> vcmp a b = 0 -> has_null a = has_null b.
Proof.
  revert a b. induction Hdoms as [|D ds HD Hds IH]; intros a b Ha Hb; inv Ha as [|? x ? a' Hx Ha']; inv Hb as [|? y ? b' Hy Hb']; [done|].
  simpl. destruct (Z.eqb_spec (NullsafeCompare x y) 0) as [Hxy|]; [|lia]. intros H.
  by rewrite (law_null D HD x y Hx Hy Hxy), (IH Hds a' b') by done.
Qed.
End keys.

(** The comparison of two groups. *)
Lemma group_cmp_spec doms wl wr l r lkeys rkeys :
  Forall lawful doms -> kin doms (kv lkeys l) -> kin doms (kv rkeys r) ->
  Forall (inb wl) lkeys -> Forall (inb wr) rkeys -> Z.of_nat (length l) = wl -> Z.of_nat (length r) = wr ->
  exists c n, group_cmp l r lkeys rkeys = Ok (c, n) /\
    let a := kv lkeys l in let b := kv rkeys r in
    (c <> 0 -> vcmp a b = c) /\ (c = 0 -> n = false -> kmatch a b = true) /\
    (c = 0 -> n = true -> has_null a = true /\ has_null b = true).
Proof.
  intros Hd Hka Hkb Hlk Hrk Hl Hr. revert doms rkeys Hd Hka Hkb Hrk.
  induction Hlk as [|k lkeys Hk Hlk IH]; intros doms rkeys Hd Hka Hkb Hrk.
  { inv Hka. inv Hkb as [Hnil|]. destruct rkeys; [|done]. exists 0, false. done. }
  inv Hka as [|D ? ds ? HDl Hka']. apply Forall_cons in Hd as [HD Hd].
  destruct Hrk as [|k' rkeys Hk' Hrk]; [inv Hkb|]. inv Hkb as [|? ? ? ? HDr Hkb'].
  cbn [group_cmp]. rewrite (at_getv l (Z.of_nat (length l))), (at_getv r (Z.of_nat (length r))) by done.
  cbn [mbind res_bind]. destruct (IH ds rkeys) as (c & n & Hg & H1 & H2 & H3); [done..|].
  cbn [kv fmap list_fmap vcmp kmatch has_null existsb] in *.
  destruct (Z.eqb_spec (NullsafeCompare (getv l k) (getv r k')) 0) as [Hc|Hc]; simpl.
  - destruct (IsNull (getv l k)) eqn:Hn.
    + exists 0, true. split; [done|]. split; [done|]. split; [done|]. intros _ _.
      rewrite <- (law_null D HD _ _ HDl HDr Hc), Hn. done.
    + exists c, n. split; [done|]. split; [done|]. split; [done|]. intros H0 Hn'.
      destruct (H3 H0 Hn') as [Ha Hb]. unfold has_null, kv in *. rewrite Ha, Hb. split; [done|apply orb_true_r].
  - exists (NullsafeCompare (getv l k) (getv r k')), false. split; [done|]. done.
Qed.

(** ** Groups *)
Definition key_le (keys : list Z) (r1 r2 : row) : Prop := vcmp (kv keys r1) (kv keys r2) <= 0.

(** [o] and [idx], as [fetchSameKeyRows] returns them, stand for the rows
    [rem] that the merge has not passed yet: the group and what follows it. *)
Definition cur (keys : list Z) (rows : list row) (o : option (list row)) (idx : nat) (rem : list row) : Prop :=
  (keys = [] -> (length rows <= idx)%nat) /\
  match o with
  | None => rem = []
  | Some ch =>
      rem = ch ++ drop idx rows /\ drop (idx - length ch) rows = rem /\
      exists c0 t, ch = c0 :: t /\
        Forall (fun r => vcmp (kv keys c0) (kv keys r) = 0) ch /\
        Forall (fun r => vcmp (kv keys c0) (kv keys r) < 0) (drop idx rows)
  end.

Lemma kv_length keys (r : row) : length (kv keys r) = length keys.
Proof. apply length_fmap. Qed.

(** Rows whose keys belong to the domains. *)
Definition keyed (doms : list (V -> Prop)) (keys : list Z) (rows : list row) : Prop :=
  Forall (fun r => kin doms (kv keys r)) rows.

Lemma same_prefix_spec doms w keys c rows :
  Forall lawful doms -> keyed doms keys (c :: rows) -> Forall (inb w) keys -> Z.of_nat (length c) = w -> rows_ok w rows ->
  StronglySorted (key_le keys) (c :: rows) ->
  exists p q, same_prefix c keys rows = Ok p /\ rows = p ++ q /\
    Forall (fun r => vcmp (kv keys c) (kv keys r) = 0) p /\
    Forall (fun r => vcmp (kv keys c) (kv keys r) < 0) q.
Proof.
  intros Hd [Hck Hkd]%Forall_cons Hk Hc Hr [Hs Hle]%StronglySorted_inv. induction rows as [|r rows IH].
  { by exists [], []. }
  apply Forall_cons in Hkd as [Hrk Hkd].
  apply Forall_cons in Hr as [Hrw Hr]. apply Forall_cons in Hle as [Hcr Hle].
  apply StronglySorted_inv in Hs as [Hs Hrle]. cbn [same_prefix].
  rewrite (keysEqual_pure w) by done. cbn [mbind res_bind].
  destruct (Z.eqb_spec (vcmp (kv keys c) (kv keys r)) 0) as [He|He].
  - destruct (IH Hkd Hr Hs Hle) as (p & q & -> & -> & Hp & Hq). exists (r :: p), q.
    cbn [mbind res_bind]. do 2 (split; [done|]). split; [by constructor|done].
  - exists [], (r :: rows). do 2 (split; [done|]). split; [done|].
    unfold key_le in *. constructor; [lia|]. rewrite Forall_forall in Hrle, Hkd. apply Forall_forall. intros r' Hr'.
    apply (vcmp_lt_le doms Hd _ (kv keys r)); [done|done|by apply Hkd|lia|by apply Hrle].
Qed.

Lemma StronglySorted_drop {A} (R : A -> A -> Prop) n l : StronglySorted R l -> StronglySorted R (drop n l).
Proof. revert n. induction l as [|x l IH]; intros [|n] H; try done. apply IH. by apply StronglySorted_inv in H as [? _]. Qed.

Lemma fetch_cur doms w keys rows idx :
  Forall lawful doms -> keyed doms keys rows -> Forall (inb w) keys -> rows_ok w rows -> StronglySorted (key_le keys) rows ->
  (keys = [] -> idx = O \/ (length rows <= idx)%nat) ->
  exists o idx', fetchSameKeyRows rows keys idx = Ok (o, idx') /\ cur keys rows o idx' (drop idx rows).
Proof.
  intros Hdoms Hkd Hk Hr Hs He. unfold fetchSameKeyRows. destruct (rows !! idx) as [c|] eqn:Hc.
  - pose proof (lookup_lt_Some _ _ _ Hc) as Hlt. pose proof (drop_S _ _ _ Hc) as Hd. destruct keys as [|k keys].
    + assert (idx = O) as -> by (destruct (He eq_refl); [done|lia]). exists (Some rows), (length rows).
      split; [done|]. split; [done|]. rewrite drop_all, app_nil_r, Nat.sub_diag. do 2 (split; [done|]).
      rewrite drop_0 in Hd. exists c, (drop 1 rows). split; [done|]. split; [|done]. by apply Forall_true.
    + destruct (same_prefix_spec doms w (k :: keys) c (drop (S idx) rows)) as (p & q & -> & Hpq & Hp & Hq); [done| |done| | | |].
      * rewrite <- Hd. by apply Forall_drop.
      * apply (Forall_lookup_1 _ _ _ _ Hr Hc).
      * by apply Forall_drop.
      * rewrite <- Hd. by apply StronglySorted_drop.
      * cbn [mbind res_bind]. exists (Some (c :: p)), (S idx + length p)%nat. split; [done|]. split; [done|].
        assert (drop (S idx + length p) rows = q) as Hq'.
        { rewrite <- drop_drop, Hpq. apply drop_app_length. }
        split; [rewrite Hd, Hpq, Hq'; done|]. split; [f_equal; simpl; lia|]. exists c, p. split; [done|].
        split; [|by rewrite Hq']. constructor; [|done]. apply (vcmp_refl doms Hdoms), (Forall_lookup_1 _ _ _ _ Hkd Hc).
  - apply lookup_ge_None in Hc. exists None, idx. split; [done|]. split; [done|]. by apply drop_ge.
Qed.


(** ** The merge *)
Lemma bind_ext_in {A B} (f g : A -> list B) l : (forall x, x ∈ l -> f x = g x) -> (l ≫= f) = (l ≫= g).
Proof.
  intros H. induction l as [|x l IH]; [done|]. rewrite !bind_cons. rewrite H by left.
  by rewrite IH by (intros; apply H; by right).
Qed.

Section merge.
Context (wl wr : Z) (node : JoinNode) (maxrow : Z) (Hnode : node_ok wl wr node).
Context (L R : list row) (HL : rows_ok wl L) (HR : rows_ok wr R).
Context (doms : list (V -> Prop)) (Hdoms : Forall lawful doms).
Context (HLk : keyed doms (jnLeftKeys node) L) (HRk : keyed doms (jnRightKeys node) R).
Context (HLs : StronglySorted (key_le (jnLeftKeys node)) L) (HRs : StronglySorted (key_le (jnRightKeys node)) R).
Abbreviation kl := (kv (jnLeftKeys node)).
Abbreviation kr := (kv (jnRightKeys node)).

(** What the left rows [ls] contribute. *)
Definition out (ls : list row) : list row := l ← ls; row_out node (filter (same_key node l) R) l.

Lemma kl_in l : l ∈ L -> kin doms (kl l).
Proof. unfold keyed in HLk. rewrite Forall_forall in HLk. apply HLk. Qed.
Lemma kr_in r : r ∈ R -> kin doms (kr r).
Proof. unfold keyed in HRk. rewrite Forall_forall in HRk. apply HRk. Qed.

Lemma same_key_cmp l r : l ∈ L -> r ∈ R -> same_key node l r -> vcmp (kl l) (kr r) = 0.
Proof. intros Hl Hr H. eapply (kmatch_facts doms Hdoms); [by apply kl_in|by apply kr_in|exact H]. Qed.

Lemma same_key_null l r : l ∈ L -> r ∈ R -> same_key node l r -> has_null (kl l) = false /\ has_null (kr r) = false.
Proof. intros Hl Hr H. eapply (kmatch_facts doms Hdoms); [by apply kl_in|by apply kr_in|exact H]. Qed.

(** Left rows no right row matches. *)
Lemma out_none ls acc :
  rows_ok wl ls -> (forall l r, l ∈ ls -> r ∈ R -> ~ same_key node l r) ->
  concatLeftAndNil ls node maxrow acc = emit_all maxrow acc (out ls).
Proof.
  intros Hl Hn. rewrite (concatLN_pure wl wr) by done. f_equal. apply bind_ext_in. intros l Hin. f_equal.
  symmetry. apply list_filter_none, Forall_forall. intros r Hr. by apply Hn.
Qed.

(** Left rows that match exactly the group [rc]. *)
Lemma out_group ls pre rc post :
  rows_ok wl ls -> R = pre ++ rc ++ post ->
  (forall l r, l ∈ ls -> r ∈ pre ++ post -> ~ same_key node l r) ->
  (forall l r, l ∈ ls -> r ∈ rc -> same_key node l r) ->
  exists rows, rows ≡ₚ out ls /\ forall acc, concatLeftAndRight ls rc node maxrow acc = emit_all maxrow acc rows.
Proof.
  intros Hl HReq Hn Hy. destruct (concatLR_pure wl wr node maxrow Hnode ls rc) as (rows & Hp & Hc); [done| |].
  { unfold rows_ok in HR. rewrite HReq in HR. by apply Forall_app in HR as [_ [? _]%Forall_app]. }
  exists rows. split; [|done]. rewrite Hp. unfold out. erewrite bind_ext_in; [done|]. intros l Hin. f_equal.
  rewrite HReq, !filter_app.
  rewrite (list_filter_none _ pre), (list_filter_all _ rc), (list_filter_none _ post), app_nil_r; [done|..];
    apply Forall_forall; intros r Hr.
  - apply Hn; [done|]. apply elem_of_app. by right.
  - by apply Hy.
  - apply Hn; [done|]. apply elem_of_app. by left.
Qed.

(** How the rows of the two current groups and those after them compare. *)
Section groups.
Context (l0 r0 : row) (lt lrest rt rrest : list row).
Context (HlL : forall l, l ∈ l0 :: lt \/ l ∈ lrest -> l ∈ L) (HrR : forall r, r ∈ r0 :: rt \/ r ∈ rrest -> r ∈ R).
Context (Hl : Forall (fun l => vcmp (kl l0) (kl l) = 0) (l0 :: lt)) (Hlr : Forall (fun l => vcmp (kl l0) (kl l) < 0) lrest).
Context (Hr : Forall (fun r => vcmp (kr r0) (kr r) = 0) (r0 :: rt)) (Hrr : Forall (fun r => vcmp (kr r0) (kr r) < 0) rrest).

Lemma l0_L : l0 ∈ L.
Proof. apply HlL. left. by left. Qed.
Lemma r0_R : r0 ∈ R.
Proof. apply HrR. left. by left. Qed.

(** Keys of rows of the two sides. *)
Ltac inside := first [apply kl_in | apply kr_in]; first [exact l0_L | exact r0_R | apply HlL; by auto | apply HrR; by auto].
Ltac flip a b := pose proof (vcmp_antisym doms Hdoms a b ltac:(inside) ltac:(inside)).

(** [l0 <= r0]: the left group is below the right rows after the group. *)
Lemma group_above l r : vcmp (kl l0) (kr r0) <= 0 -> l ∈ l0 :: lt -> r ∈ rrest -> ~ same_key node l r.
Proof.
  intros Hc Hin Hin' Hs%same_key_cmp; [|by auto..]. rewrite Forall_forall in Hl, Hrr.
  specialize (Hl l Hin). specialize (Hrr r Hin'). flip (kl l0) (kl l).
  assert (vcmp (kl l) (kr r) < 0); [|lia]. apply (vcmp_le_lt doms Hdoms _ (kr r0)); [inside..| |done].
  apply (vcmp_trans doms Hdoms _ (kl l0)); [inside..|lia|done].
Qed.

(** [l0 < r0]: the left group is below the right group. *)
Lemma group_below l r : vcmp (kl l0) (kr r0) < 0 -> l ∈ l0 :: lt -> r ∈ r0 :: rt -> ~ same_key node l r.
Proof.
  intros Hc Hin Hin' Hs%same_key_cmp; [|by auto..]. rewrite Forall_forall in Hl, Hr.
  specialize (Hl l Hin). specialize (Hr r Hin'). flip (kl l0) (kl l).
  assert (vcmp (kl l) (kr r) < 0); [|lia]. apply (vcmp_lt_le doms Hdoms _ (kr r0)); [inside..| |lia].
  apply (vcmp_le_lt doms Hdoms _ (kl l0)); [inside..|lia|done].
Qed.

(** [r0 <= l0]: the right group is below the left rows after the group. *)
Lemma rest_above l r : 0 <= vcmp (kl l0) (kr r0) -> l ∈ lrest -> r ∈ r0 :: rt -> ~ same_key node l r.
Proof.
  intros Hc Hin Hin' Hs%same_key_cmp; [|by auto..]. rewrite Forall_forall in Hlr, Hr.
  specialize (Hlr l Hin). specialize (Hr r Hin'). flip (kr r0) (kr r). flip (kl l0) (kr r0). flip (kl l) (kr r).
  assert (vcmp (kr r) (kl l) < 0); [|lia]. apply (vcmp_le_lt doms Hdoms _ (kl l0)); [inside..| |done].
  apply (vcmp_trans doms Hdoms _ (kr r0)); [inside..|lia|lia].
Qed.

(** [r0 < l0]: the right group is below the left group. *)
Lemma group_passed l r : 0 < vcmp (kl l0) (kr r0) -> l ∈ l0 :: lt -> r ∈ r0 :: rt -> ~ same_key node l r.
Proof.
  intros Hc Hin Hin' Hs%same_key_cmp; [|by auto..]. rewrite Forall_forall in Hl, Hr.
  specialize (Hl l Hin). specialize (Hr r Hin'). flip (kr r0) (kr r). flip (kl l0) (kr r0). flip (kl l) (kr r).
  assert (vcmp (kr r) (kl l) < 0); [|lia]. apply (vcmp_lt_le doms Hdoms _ (kl l0)); [inside..| |lia].
  apply (vcmp_le_lt doms Hdoms _ (kr r0)); [inside..|lia|lia].
Qed.

(** The groups match. *)
Lemma group_matches l r : same_key node l0 r0 -> l ∈ l0 :: lt -> r ∈ r0 :: rt -> same_key node l r.
Proof.
  intros Hk Hin Hin'. rewrite Forall_forall in Hl, Hr.
  apply (kmatch_congr doms Hdoms (kl l0) _ (kr r0)); [inside..|by apply Hl|by apply Hr|exact Hk].
Qed.

(** A group with a NULL in its key matches nothing. *)
Lemma null_group_l l r : has_null (kl l0) = true -> l ∈ l0 :: lt -> r ∈ R -> ~ same_key node l r.
Proof.
  intros Hn Hin HR' [Hs _]%same_key_null; [|by auto..]. rewrite Forall_forall in Hl.
  rewrite (has_null_congr doms Hdoms (kl l0) (kl l)) in Hn; [congruence|inside..|by apply Hl].
Qed.
Lemma null_group_r l r : has_null (kr r0) = true -> l ∈ L -> r ∈ r0 :: rt -> ~ same_key node l r.
Proof.
  intros Hn HL' Hin [_ Hs]%same_key_null; [|by auto..]. rewrite Forall_forall in Hr.
  rewrite (has_null_congr doms Hdoms (kr r0) (kr r)) in Hn; [congruence|inside..|by apply Hr].
Qed.
End groups.

Lemma out_app ls ls' : out (ls ++ ls') = out ls ++ out ls'.
Proof. apply bind_app. Qed.

Lemma cur_ok w keys rows o idx rem : rows_ok w rows -> cur keys rows o idx rem -> rows_ok w rem.
Proof.
  intros Hr [_ Hc]. destruct o as [ch|]; [|subst; constructor]. destruct Hc as (_ & <- & _). by apply Forall_drop.
Qed.

Lemma fetch_next_l o idx rem :
  cur (jnLeftKeys node) L o idx rem ->
  exists o' idx', fetchSameKeyRows L (jnLeftKeys node) idx = Ok (o', idx') /\ cur (jnLeftKeys node) L o' idx' (drop idx L).
Proof. intros [He _]. apply (fetch_cur doms wl); [done|done|apply Hnode|done|done|]. intros Hk. right. by apply He. Qed.

Lemma fetch_next_r o idx rem :
  cur (jnRightKeys node) R o idx rem ->
  exists o' idx', fetchSameKeyRows R (jnRightKeys node) idx = Ok (o', idx') /\ cur (jnRightKeys node) R o' idx' (drop idx R).
Proof. intros [He _]. apply (fetch_cur doms wr); [done|done|apply Hnode|done|done|]. intros Hk. right. by apply He. Qed.

(** The right rows the merge has passed match no left row that is left. *)
Definition passed (ls Rdone : list row) : Prop := forall l r, l ∈ ls -> r ∈ Rdone -> ~ same_key node l r.

Lemma passed_app ls rs rs' : passed ls rs -> passed ls rs' -> passed ls (rs ++ rs').
Proof. intros H1 H2 l r Hl [Hr|Hr]%elem_of_app; [by apply H1|by apply H2]. Qed.
Lemma passed_sub ls ls' rs : passed (ls ++ ls') rs -> passed ls rs /\ passed ls' rs.
Proof. intros H. split; intros l r Hl; apply H; apply elem_of_app; by (left + right). Qed.

(** [X] appends the rows of [ls] in some order. *)
Definition appends (X : JRes V -> res jerr (JRes V)) (ls : list row) : Prop :=
  exists rows, rows ≡ₚ out ls /\ forall acc, X acc = emit_all maxrow acc rows.

Lemma appends_bind X (k : JRes V -> res jerr (JRes V)) ls ls' :
  appends X ls -> appends k ls' -> appends (fun acc => a ← X acc; k a) (ls ++ ls').
Proof.
  intros (rs & Hp & HX) (rs' & Hp' & Hk). exists (rs ++ rs'). split; [by rewrite out_app, Hp, Hp'|].
  intros acc. rewrite HX, emit_all_app. destruct (emit_all maxrow acc rs); [|done|done]. apply Hk.
Qed.

Lemma appends_none ls :
  rows_ok wl ls -> (forall l r, l ∈ ls -> r ∈ R -> ~ same_key node l r) -> appends (concatLeftAndNil ls node maxrow) ls.
Proof. intros Hl Hn. exists (out ls). split; [done|]. intros acc. by apply out_none. Qed.

(** One step on two groups that compare equal or meet at a NULL. *)
Lemma equal_groups l0 r0 lt lrest rt rrest Rdone (n : bool) :
  (forall l, l ∈ l0 :: lt \/ l ∈ lrest -> l ∈ L) -> (forall r, r ∈ r0 :: rt \/ r ∈ rrest -> r ∈ R) ->
  rows_ok wl (l0 :: lt) -> R = Rdone ++ (r0 :: rt) ++ rrest -> passed (l0 :: lt) Rdone ->
  Forall (fun l => vcmp (kl l0) (kl l) = 0) (l0 :: lt) -> Forall (fun l => vcmp (kl l0) (kl l) < 0) lrest ->
  Forall (fun r => vcmp (kr r0) (kr r) = 0) (r0 :: rt) -> Forall (fun r => vcmp (kr r0) (kr r) < 0) rrest ->
  (n = false -> same_key node l0 r0) -> (n = true -> has_null (kl l0) = true /\ has_null (kr r0) = true) ->
  passed lrest (r0 :: rt) /\
  appends (fun acc => if n then concatLeftAndNil (l0 :: lt) node maxrow acc
                      else concatLeftAndRight (l0 :: lt) (r0 :: rt) node maxrow acc) (l0 :: lt).
Proof.
  intros HlL HrR Hlcok HReq Hpc Hl Hlr Hr Hrr Hm Hnull. destruct n.
  - destruct (Hnull eq_refl) as [Hnl Hnr]. split.
    + intros l r Hin Hin'. apply (null_group_r r0 rt rrest); auto.
    + apply appends_none; [done|]. intros l r Hin Hin'. apply (null_group_l l0 lt lrest); auto.
  - pose proof (Hm eq_refl) as Hk.
    pose proof (same_key_cmp _ _ (l0_L l0 lt lrest HlL) (r0_R r0 rt rrest HrR) Hk) as Hc0. split.
    + intros l r. apply (rest_above l0 r0 lt lrest rt rrest HlL HrR Hlr Hr). lia.
    + apply (out_group _ Rdone _ rrest); [done|done| |].
      * intros l r Hin [Hin'|Hin']%elem_of_app; [by apply Hpc|]. revert Hin Hin'.
        apply (group_above l0 r0 lt lrest rt rrest HlL HrR Hl Hrr). lia.
      * intros l r. by apply (group_matches l0 r0 lt lrest rt rrest HlL HrR Hl Hr).
Qed.

Lemma merge_loop_spec fuel : forall lo lidx lrem ro ridx rrem Rdone,
  cur (jnLeftKeys node) L lo lidx lrem -> cur (jnRightKeys node) R ro ridx rrem ->
  R = Rdone ++ rrem -> passed lrem Rdone -> (length lrem + length rrem < fuel)%nat ->
  appends (merge_loop fuel L R node maxrow lo lidx ro ridx) lrem.
Proof.
  induction fuel as [|fuel IH]; intros lo lidx lrem ro ridx rrem Rdone Hcl Hcr HReq Hpass Hfuel; [lia|].
  pose proof (cur_ok wl _ _ _ _ _ HL Hcl) as Hlok. pose proof (fetch_next_l _ _ _ Hcl) as (lo' & lidx' & Hfl & Hcl').
  pose proof (fetch_next_r _ _ _ Hcr) as (ro' & ridx' & Hfr & Hcr').
  cbn [merge_loop]. destruct lo as [lc|]; [|destruct Hcl as [_ ->]; by exists []].
  pose proof Hcl as (_ & Hlrem & Hldrop & l0 & lt & -> & Hl & Hlr).
  destruct ro as [rc|].
  2: { destruct Hcr as [_ ->]. rewrite Hldrop. apply appends_none; [done|]. intros l r Hin Hr. apply Hpass; [done|].
       by rewrite HReq, app_nil_r in Hr. }
  pose proof Hcr as (_ & Hrrem & Hrdrop & r0 & rt & -> & Hr & Hrr).
  set (lrest := drop lidx L) in *. set (rrest := drop ridx R) in *.
  assert (rows_ok wl (l0 :: lt)) as Hlcok by (rewrite Hlrem in Hlok; by apply Forall_app in Hlok as [? _]).
  assert (Z.of_nat (length l0) = wl) as Hl0 by (by inv Hlcok).
  assert (Z.of_nat (length r0) = wr) as Hr0.
  { unfold rows_ok in HR. rewrite HReq, Hrrem in HR. apply Forall_app in HR as [_ HR']. by inv HR'. }
  assert (forall l, l ∈ l0 :: lt \/ l ∈ lrest -> l ∈ L) as HlL.
  { intros l Hin. assert (l ∈ lrem) as Hin' by (rewrite Hlrem; by apply elem_of_app).
    rewrite <- Hldrop in Hin'. by eapply subseteq_drop. }
  assert (forall r, r ∈ r0 :: rt \/ r ∈ rrest -> r ∈ R) as HrR.
  { intros r Hin. rewrite HReq, Hrrem. apply elem_of_app. right. by apply elem_of_app. }
  destruct (group_cmp_spec doms wl wr l0 r0 _ _ Hdoms (kl_in _ (l0_L l0 lt lrest HlL)) (kr_in _ (r0_R r0 rt rrest HrR))
    (no_lkeys _ _ _ Hnode) (no_rkeys _ _ _ Hnode) Hl0 Hr0)
    as (c & n & -> & Hne & Hm & Hnull).
  cbn [mbind res_bind]. rewrite Hfl, Hfr. cbn [mbind res_bind fst snd].
  rewrite Hlrem in Hpass. pose proof (passed_sub _ _ _ Hpass) as [Hpc Hprest].
  rewrite Hlrem, Hrrem, !length_app in Hfuel. cbn [length] in Hfuel.
  assert (R = (Rdone ++ (r0 :: rt)) ++ rrest) as HReq' by (by rewrite <- app_assoc, <- Hrrem).
  destruct (Z.eqb_spec c 0) as [->|Hc].
  - rewrite Hlrem. destruct (equal_groups l0 r0 lt lrest rt rrest Rdone n) as [Hp Hout]; try done.
    { by rewrite HReq, Hrrem. }
    { by apply Hm. }
    { by apply Hnull. }
    apply (appends_bind _ _ _ _ Hout). apply (IH _ _ _ _ _ rrest (Rdone ++ (r0 :: rt))); [done|done|done| |lia].
    by apply passed_app.
  - specialize (Hne Hc). destruct (Z.ltb_spec 0 c) as [Hpos|Hneg].
    + apply (IH _ _ lrem _ _ rrest (Rdone ++ (r0 :: rt))); [done|done|done| |].
      * rewrite Hlrem. apply passed_app; [done|]. intros l r [Hin|Hin]%elem_of_app; revert Hin.
        -- apply (group_passed l0 r0 lt lrest rt rrest HlL HrR Hl Hr). lia.
        -- apply (rest_above l0 r0 lt lrest rt rrest HlL HrR Hlr Hr). lia.
      * rewrite Hlrem, length_app. simpl. lia.
    + rewrite Hlrem. apply appends_bind.
      * apply appends_none; [done|]. intros l r Hin Hin'. rewrite HReq, Hrrem in Hin'.
        apply elem_of_app in Hin' as [Hin'|[Hin'|Hin']%elem_of_app]; [by apply Hpc| |]; revert Hin Hin'.
        -- apply (group_below l0 r0 lt lrest rt rrest HlL HrR Hl Hr). lia.
        -- apply (group_above l0 r0 lt lrest rt rrest HlL HrR Hl Hrr). lia.
      * apply (IH _ _ _ _ _ rrem Rdone); [done|done|done|done|]. rewrite Hrrem, length_app. simpl. lia.
Qed.

Lemma mergeJoin_spec : appends (mergeJoin L R node maxrow) L.
Proof.
  unfold mergeJoin.
  destruct (fetch_cur doms wl (jnLeftKeys node) L 0) as (lo & li & -> & Hcl); [done|done|apply Hnode|done|done|by left|].
  destruct (fetch_cur doms wr (jnRightKeys node) R 0) as (ro & ri & -> & Hcr); [done|done|apply Hnode|done|done|by left|].
  cbn [mbind res_bind fst snd]. rewrite drop_0 in Hcl, Hcr.
  apply (merge_loop_spec _ lo li L ro ri R []); [done|done|done| |lia]. intros l r _ Hr. by apply not_elem_of_nil in Hr.
Qed.
End merge.

(** ** Permutations of the inputs *)
#[local] Instance row_out_perm node : Proper ((≡ₚ) ==> (=) ==> (≡ₚ)) (row_out node).
Proof.
  intros rs rs' Hp l ? <-. unfold row_out.
  assert (matches node l rs ≡ₚ matches node l rs') as Hm.
  { unfold matches. destruct (forallb _ _); [by rewrite Hp|done]. }
  apply Permutation_app; [by rewrite Hm|].
  destruct (matches node l rs); destruct (matches node l rs'); [done| | |done].
  - by apply Permutation_nil_cons in Hm.
  - symmetry in Hm. by apply Permutation_nil_cons in Hm.
Qed.

#[local] Instance joined_perm node : Proper ((≡ₚ) ==> (≡ₚ) ==> (≡ₚ)) (joined node).
Proof.
  intros L L' HL R R' HR. unfold joined. transitivity (l ← L'; row_out node (filter (same_key node l) R) l).
  { by rewrite HL. }
  clear HL L. induction L' as [|l L' IH]; [done|]. rewrite !bind_cons. apply Permutation_app; [by rewrite HR|exact IH].
Qed.

(** ** Sorting *)
Section sorting.
Context `{GS : GoSort V, GO : !GoSortOk V}.

Lemma key_less_pure w keys a b :
  Forall (inb w) keys -> Z.of_nat (length a) = w -> Z.of_nat (length b) = w ->
  key_less keys a b = Ok (vcmp (kv keys a) (kv keys b) <=? 0).
Proof.
  intros Hk Ha Hb. induction Hk as [|k keys Hin Hk IH]; [done|]. cbn [key_less kv fmap list_fmap vcmp].
  rewrite (at_getv a w), (at_getv b w) by done. cbn [mbind res_bind].
  destruct (Z.eqb_spec (NullsafeCompare (getv a k) (getv b k)) 0); [exact IH|].
  f_equal. destruct (Z.ltb_spec (NullsafeCompare (getv a k) (getv b k)) 0),
    (Z.leb_spec (NullsafeCompare (getv a k) (getv b k)) 0); lia.
Qed.

(** Sorting by a comparison that answers like a total preorder of the rows. *)
Lemma sort_by_cmp (less : row -> row -> res jerr bool) (cmp : row -> row -> Z) xs :
  (forall a b, a ∈ xs -> b ∈ xs -> less a b = Ok (cmp a b <=? 0)) ->
  (forall a b, a ∈ xs -> b ∈ xs -> cmp b a = - cmp a b) ->
  (forall a b c, a ∈ xs -> b ∈ xs -> c ∈ xs -> cmp a b <= 0 -> cmp b c <= 0 -> cmp a c <= 0) ->
  exists ys, sort_Slice less xs = Ok ys /\ ys ≡ₚ xs /\ StronglySorted (fun a b => cmp a b <= 0) ys.
Proof.
  intros Hl Ha Ht.
  destruct (sort_ok less (fun a b => cmp a b <=? 0) xs) as (ys & Hy & Hp & Hs); [done|..].
  - intros a b c Hia Hib Hic. rewrite !Z.leb_le. by apply Ht.
  - intros a b c Hia Hib Hic. rewrite !Z.leb_gt. intros H1 H2.
    pose proof (Ha a b Hia Hib). pose proof (Ha b c Hib Hic). pose proof (Ht a c b Hia Hic Hib). lia.
  - exists ys. split; [done|]. split; [done|].
    assert (forall y, y ∈ ys -> y ∈ xs) as Hin by (intros y; by rewrite Hp). clear Hy Hp.
    induction Hs as [|a ys Hs IH Hf]; constructor; [apply IH; intros; apply Hin; by right|].
    rewrite Forall_forall in Hf |- *. intros b Hb. specialize (Hf b Hb). cbv beta in Hf. rewrite Z.leb_le, Z.leb_gt in Hf.
    pose proof (Ha a b (Hin a (list_elem_of_here _ _)) (Hin b (list_elem_of_further _ _ _ Hb))). lia.
Qed.

Lemma sort_rows doms w keys xs :
  Forall lawful doms -> keyed doms keys xs -> Forall (inb w) keys -> rows_ok w xs ->
  exists ys, sort_Slice (key_less keys) xs = Ok ys /\ ys ≡ₚ xs /\ StronglySorted (key_le keys) ys.
Proof.
  intros Hd Hkd Hk Hr. unfold rows_ok in Hr. unfold keyed in Hkd. rewrite Forall_forall in Hr, Hkd.
  apply (sort_by_cmp (key_less keys) (fun a b => vcmp (kv keys a) (kv keys b))).
  - intros a b Ha Hb. apply (key_less_pure w); auto.
  - intros a b Ha Hb. apply (vcmp_antisym doms Hd); auto.
  - intros a b c Ha Hb Hc. apply (vcmp_trans doms Hd); auto.
Qed.

(** The values of the columns of the two sides that a pair of keys names. *)
Definition key_dom (L R : list row) (lk rk : Z) : V -> Prop :=
  fun v => (exists l, l ∈ L /\ v = getv l lk) \/ (exists r, r ∈ R /\ v = getv r rk).
Definition key_doms (node : JoinNode) (L R : list row) : list (V -> Prop) :=
  zip_with (key_dom L R) (jnLeftKeys node) (jnRightKeys node).

(** For every pair of key columns the values of the two columns together are
    ordered by the comparison. *)
Definition keys_comparable (node : JoinNode) (L R : list row) : Prop := Forall lawful (key_doms node L R).

Lemma key_doms_keyed node L R :
  length (jnLeftKeys node) = length (jnRightKeys node) ->
  keyed (key_doms node L R) (jnLeftKeys node) L /\ keyed (key_doms node L R) (jnRightKeys node) R.
Proof.
  unfold key_doms, keyed, kin, kv, key_dom. generalize (jnLeftKeys node), (jnRightKeys node). intros lks.
  induction lks as [|lk lks IH]; intros [|rk rks] Hlen; try done.
  { split; apply Forall_true; constructor. }
  destruct (IH rks) as [H1 H2]; [simpl in Hlen; lia|]. rewrite Forall_forall in H1, H2.
  split; apply Forall_forall; intros r Hr; apply Forall2_cons; (split; [|by (apply H1 || apply H2)]); [left|right]; by exists r.
Qed.

Lemma sortMergeJoin_spec wl wr node maxrow L R acc :
  node_ok wl wr node -> rows_ok wl L -> rows_ok wr R -> keys_comparable node L R ->
  exists rows, rows ≡ₚ joined node L R /\ sortMergeJoin L R node maxrow acc = emit_all maxrow acc rows.
Proof.
  intros Hn HL HR Hd. unfold sortMergeJoin. destruct (key_doms_keyed node L R (no_len _ _ _ Hn)) as [HkL HkR].
  destruct (sort_rows _ wl (jnLeftKeys node) L Hd HkL) as (L' & -> & HpL & HsL); [apply Hn|done|].
  destruct (sort_rows _ wr (jnRightKeys node) R Hd HkR) as (R' & -> & HpR & HsR); [apply Hn|done|].
  cbn [mbind res_bind].
  destruct (mergeJoin_spec wl wr node maxrow Hn L' R') with (doms := key_doms node L R) as (rows & Hp & Hm); [| |done| | |done|done|].
  1-4: unfold rows_ok, keyed; by rewrite ?HpL, ?HpR.
  exists rows. split; [|apply Hm]. rewrite Hp. change (out node R' L') with (joined node L' R'). by rewrite HpL, HpR.
Qed.

(** The result a join that produces [rows] returns: the rows and their
    number, or the limit error. *)
Definition within (maxrow : Z) (rows : list row) : res jerr (JRes V) :=
  if Z.of_nat (length rows) <=? maxrow then Ok (mkJRes rows (wrap 64 (Z.of_nat (length rows))))
  else Err (ErrRowLimit maxrow).

Lemma affected_count (rows : list row) n :
  0 <= n < 2 ^ 64 -> fold_left (fun n (_ : row) => wrap 64 (n + 1)) rows n = wrap 64 (n + Z.of_nat (length rows)).
Proof.
  revert n. induction rows as [|r rows IH]; intros n Hn; cbn [fold_left length].
  - unfold wrap. rewrite Z.add_0_r. by rewrite Z.mod_small.
  - rewrite IH by (apply Z.mod_pos_bound; lia). unfold wrap. rewrite Zplus_mod_idemp_l. f_equal. lia.
Qed.

Lemma emit_all_within maxrow rows : 0 <= maxrow -> emit_all maxrow emptyJRes rows = within maxrow rows.
Proof.
  intros Hm. destruct rows as [|r rows].
  - unfold within. cbn [length]. destruct (Z.leb_spec (Z.of_nat 0) maxrow); [done|lia].
  - rewrite emit_all_spec by done. unfold within. rewrite affected_count by (simpl; lia). done.
Qed.

(** C9: sort-merge join.  When for every pair of key columns the values of
    the two columns together are ordered by the comparison ([keys_comparable]:
    columns of one type, say; a column of numbers against one of text need not
    be, see [mixed_join_loses_rows]), [mergeJoin] on rows sorted by the join
    keys returns exactly the rows of the nested-loop join of the two sides,
    left joins, NULL keys, extra comparisons and the IS NULL filters included,
    with their count, or the limit error when they exceed the limit; it
    terminates and no index is out of range.  The order of the rows depends on
    the goroutines only. *)
Theorem mergeJoin_correct wl wr node maxrow L R :
  node_ok wl wr node -> rows_ok wl L -> rows_ok wr R -> keys_comparable node L R ->
  StronglySorted (key_le (jnLeftKeys node)) L -> StronglySorted (key_le (jnRightKeys node)) R -> 0 <= maxrow ->
  exists rows, rows ≡ₚ joined node L R /\ mergeJoin L R node maxrow emptyJRes = within maxrow rows.
Proof.
  intros Hn HL HR Hc HLs HRs Hm. destruct (key_doms_keyed node L R (no_len _ _ _ Hn)) as [HkL HkR].
  destruct (mergeJoin_spec wl wr node maxrow Hn L R HL HR _ Hc HkL HkR HLs HRs) as (rows & Hp & Hr).
  exists rows. split; [exact Hp|]. rewrite Hr. by apply emit_all_within.
Qed.
End sorting.

(** ** The engine *)
Section engine.
Context {F : Type} `{GS : GoSort V, GO : !GoSortOk V}.
Implicit Types left right : PlanEngine V F.

(** *** The Cartesian product *)
Definition product (node : JoinNode) (L R : list row) : list row :=
  l ← L; out_row node l ∘ Some <$> R.

Lemma product_row wl wr node maxrow l R acc :
  node_ok wl wr node -> lok wl l -> rows_ok wr R ->
  res_fold (fun acc r => x ← joinRows l (Some r) (jnCols node); emit maxrow acc x) acc R =
    emit_all maxrow acc (out_row node l ∘ Some <$> R).
Proof.
  intros Hn Hl HR. revert acc. induction HR as [|r R Hr HR IH]; intros acc; [done|].
  cbn [res_fold fmap list_fmap emit_all]. rewrite (joinRows_pure wl wr) by done. cbn [mbind res_bind].
  unfold compose at 2. destruct (emit maxrow acc _); [apply IH|done|done].
Qed.

(** The Cartesian product pairs every left row with every right row in
    order, within the limit; for a join without conditions and a right side
    that is not empty this is the nested-loop join. *)
Theorem cartesianProduct_correct wl wr node maxrow L R :
  node_ok wl wr node -> rows_ok wl L -> rows_ok wr R -> 0 <= maxrow ->
  cartesianProduct L R node maxrow emptyJRes = within maxrow (product node L R) /\
  (jnLeftKeys node = [] -> jnCmpFilter node = [] -> jnLeftTmpCols node = [] -> jnRightTmpCols node = [] -> R <> [] ->
   product node L R = joined node L R).
Proof.
  intros Hn HL HR Hm. split.
  - rewrite <- emit_all_within by done. unfold cartesianProduct. change (mkJRes [] (jAffected emptyJRes)) with (emptyJRes (V := V)).
    generalize (emptyJRes (V := V)). induction HL as [|l L Hl HL IH]; intros acc; [done|].
    cbn [res_fold]. rewrite (product_row wl wr) by done. unfold product. rewrite bind_cons, emit_all_app.
    destruct (emit_all maxrow acc _); [|done|done]. apply IH.
  - intros Hk Hf Hlt Hrt HRne. apply bind_ext_in. intros l _. unfold row_out, matches. rewrite Hlt. cbn [forallb].
    rewrite (list_filter_all (same_key node l)) by (apply Forall_true; intros r; unfold same_key; by rewrite Hk).
    rewrite (list_filter_all (fun r => forallb (filter_ok l r) (jnCmpFilter node) = true))
      by (apply Forall_true; intros r; by rewrite Hf).
    rewrite (list_filter_all (fun r => forallb (fun i => IsNull (getv r i)) (jnRightTmpCols node) = true))
      by (apply Forall_true; intros r; by rewrite Hrt).
    destruct R; [done|]. by rewrite app_nil_r.
Qed.

(** A join the engine computes from the rows of both sides: a sort-merge join
    whose key columns are comparable, or a Cartesian product, which has no
    condition. *)
Definition two_sided (node : JoinNode) (L R : list row) : Prop :=
  match jnStrategy node with
  | SortMerge => keys_comparable node L R
  | Cartesian => jnLeftKeys node = [] /\ jnCmpFilter node = [] /\ jnLeftTmpCols node = [] /\ jnRightTmpCols node = []
  | NestLoop => False
  end.

(** C38: the join engine, with the sort-merge strategy on comparable keys or
    with the Cartesian product of a join without conditions (the nested loop
    is [nest_loop_correct]).  With the fields and rows of its two children,
    when there is a left row the engine hands to the operators above it the
    rows of the nested-loop join in some order (no right row included), with
    their count, or reports the limit; when there is none it returns no row at
    once and the operators do not run. *)
Theorem join_Execute_correct wl wr left right node maxrow (sub : Result V F -> res jerr (Result V F)) lf L ln rf R rn fields :
  two_sided node L R -> node_ok wl wr node -> rows_ok wl L -> rows_ok wr R -> 0 <= maxrow ->
  pe_Execute left = Ok (mkResult lf (mkJRes L ln)) -> pe_Execute right = Ok (mkResult rf (mkJRes R rn)) ->
  joinFields lf rf (jnCols node) = Ok fields ->
  exists rows, rows ≡ₚ joined node L R /\
    join_Execute left right node maxrow sub =
      match L with
      | [] => Ok (mkResult fields emptyJRes)
      | _ => res ← within maxrow rows; sub (mkResult fields res)
      end.
Proof.
  unfold two_sided, join_Execute. intros Hs Hn HL HR Hm Hel Her Hf. destruct (jnStrategy node); [| |done].
  all: rewrite Hel, Her; cbn [mbind res_bind resRows jRows Fields]; rewrite Hf; cbn [mbind res_bind];
    (destruct L as [|l L]; [by exists []|]); (destruct R as [|r R];
      [exists (joined node (l :: L) []); split; [done|]; by rewrite (concatLN_pure wl wr), emit_all_within by done|]).
  - destruct (cartesianProduct_correct wl wr node maxrow (l :: L) (r :: R)) as [Hc Hj]; [done..|].
    destruct Hs as (? & ? & ? & ?). exists (joined node (l :: L) (r :: R)). split; [done|]. by rewrite Hc, Hj.
  - destruct (sortMergeJoin_spec wl wr node maxrow (l :: L) (r :: R) emptyJRes) as (rows & Hp & ->); [done..|].
    exists rows. split; [done|]. by rewrite emit_all_within.
Qed.

(** *** The nested loop *)

(** A node whose comparisons are evaluated by the right side. *)
Definition pushed (node : JoinNode) : JoinNode :=
  mkJoinNode (jnStrategy node) (jnCols node) (jnLeftKeys node) (jnRightKeys node) [] (jnIsLeftJoin node)
    (jnHasRightFilter node) (jnLeftTmpCols node) (jnRightTmpCols node) (jnVars node).

Lemma pushed_ok wl wr node : node_ok wl wr node -> node_ok wl wr (pushed node).
Proof. intros []. by constructor. Qed.

Lemma nest_right_pure wl wr node maxrow l rrows acc n :
  node_ok wl wr node -> lok wl l -> Forall (rok wr) rrows ->
  nest_right node maxrow l rrows acc n =
    (a ← emit_all maxrow acc (out_row node l ∘ Some <$>
       filter (fun r => forallb (fun i => IsNull (getv r i)) (jnRightTmpCols node) = true) rrows);
     Ok (a, (n + length rrows)%nat)).
Proof.
  intros Hnode Hl Hr. revert acc n. induction Hr as [|r rrows Hrok Hr IH]; intros acc n.
  { simpl. by rewrite Nat.add_0_r. }
  cbn [nest_right]. rewrite filter_cons, (right_pure wl wr) by done. cbn [mbind res_bind length].
  destruct (forallb (fun i => IsNull _) _).
  - rewrite decide_True by done. rewrite (joinRows_pure wl wr) by done. cbn [mbind res_bind fmap list_fmap emit_all res_fold].
    destruct (emit maxrow acc _) as [acc'|e|]; [|done|done]. cbn [mbind res_bind]. rewrite IH. by rewrite Nat.add_succ_r.
  - rewrite decide_False by done. cbn [mbind res_bind]. rewrite IH. by rewrite Nat.add_succ_r.
Qed.

(** The bind variables of a left row. *)
Definition row_vars (node : JoinNode) (l : row) (jv : gmap string V) : gmap string V :=
  fold_left (fun jv kc => <[kc.1 := getv l kc.2]> jv) (jnVars node) jv.

Lemma bind_row_pure wl node l jv :
  Forall (fun kc => inb wl kc.2) (jnVars node) -> Z.of_nat (length l) = wl ->
  bind_row (jnVars node) l jv = Ok (row_vars node l jv).
Proof.
  intros Hv Hl. unfold bind_row, row_vars. revert jv. induction Hv as [|kc vars Hk Hv IH]; intros jv; [done|].
  cbn [res_fold fold_left]. rewrite (at_getv l wl) by done. cbn [mbind res_bind]. apply IH.
Qed.

(** Binding a second row's variables overwrites the first row's. *)
Lemma row_vars_lookup node l jv k :
  row_vars node l jv !! k = match row_vars node l ∅ !! k with Some v => Some v | None => jv !! k end.
Proof.
  unfold row_vars. revert jv. induction (jnVars node) as [|kc vars IH] using rev_ind; intros jv; [simpl; by rewrite lookup_empty|].
  rewrite !fold_left_app. cbn [fold_left]. destruct (decide (kc.1 = k)) as [<-|Hne].
  - by rewrite !lookup_insert_eq.
  - by rewrite !lookup_insert_ne.
Qed.

Lemma row_vars_keys node l l' k : is_Some (row_vars node l ∅ !! k) <-> is_Some (row_vars node l' ∅ !! k).
Proof.
  unfold row_vars. induction (jnVars node) as [|kc vars IH] using rev_ind; [done|].
  rewrite !fold_left_app. cbn [fold_left]. destruct (decide (kc.1 = k)) as [<-|Hne].
  - rewrite !lookup_insert_eq. split; eauto.
  - by rewrite !lookup_insert_ne.
Qed.

Lemma row_vars_again node l l' : row_vars node l (row_vars node l' ∅) = row_vars node l ∅.
Proof.
  apply map_eq. intros k. rewrite row_vars_lookup. pose proof (row_vars_keys node l l' k) as Hk.
  destruct (row_vars node l ∅ !! k) eqn:He; [done|]. destruct (row_vars node l' ∅ !! k) eqn:He'; [|done].
  destruct Hk as [_ [? ?]]; [eauto|done].
Qed.

Definition left_ok (node : JoinNode) (l : row) : bool := forallb (fun i => CastToBool (getv l i)) (jnLeftTmpCols node).

Section nest.
Context (wl wr : Z) (node : JoinNode) (maxrow : Z) (Hnode : node_ok wl wr node).
Context (Hvars : Forall (fun kc => inb wl kc.2) (jnVars node)).
Context (right : PlanEngine V F) (bindVars : gmap string V) (lf rf fields : list F) (ans : row -> list row) (num : row -> Z).
Context (Hfields : joinFields lf rf (jnCols node) = Ok fields).

(** The right side answers the bindings of [l] with the rows [ans l]. *)
Definition answers (l : row) : Prop :=
  left_ok node l = true -> Forall (rok wr) (ans l) /\
  forall want, pe_execBindVars right (combineVars bindVars (row_vars node l ∅)) want = Ok (mkResult rf (mkJRes (ans l) (num l))).

(** Between left rows: the variables are those of some row, the fields are
    set unless they are still wanted. *)
Definition nest_inv (want0 : bool) (st : Nest (V := V) (F := F)) : Prop :=
  (nsVars st = ∅ \/ exists l, nsVars st = row_vars node l ∅) /\
  (nsWant st = true -> want0 = true) /\ (want0 = true -> nsWant st = false -> nsFields st = fields).

Lemma left_pure' l : lok wl l -> left_match l (jnLeftTmpCols node) = Ok (left_ok node l).
Proof. by apply (left_pure wl wr). Qed.

Lemma concat_one l acc :
  lok wl l -> concatLeftAndNil [l] node maxrow acc =
    emit_all maxrow acc (if keeps_left (pushed node) then [out_row (pushed node) l None] else []).
Proof. intros Hl. rewrite (concatLN_pure wl wr) by (done || by repeat constructor). by rewrite bind_cons, row_out_nil, app_nil_r. Qed.

Lemma nest_row_spec want0 st l :
  nest_inv want0 st -> lok wl l -> answers l ->
  exists st', nest_inv want0 st' /\
    nest_row right node maxrow bindVars lf st l =
      (a ← emit_all maxrow (nsAcc st) (row_out (pushed node) (ans l) l);
       Ok (mkNest (nsVars st') (nsWant st') (nsFields st') a)).
Proof.
  intros (Hv & Hw & Hf) Hl Ha. unfold nest_row. rewrite left_pure' by done. cbn [mbind res_bind].
  unfold row_out, matches. simpl jnLeftTmpCols. change (forallb _ (jnLeftTmpCols node)) with (left_ok node l).
  unfold answers in Ha. destruct (left_ok node l).
  - destruct (Ha eq_refl) as [Hrok Hans].
    assert (row_vars node l (nsVars st) = row_vars node l ∅) as Hrv.
    { destruct Hv as [->|[l' ->]]; [done|apply row_vars_again]. }
    rewrite (bind_row_pure wl) by done. cbn [mbind res_bind]. rewrite Hrv, Hans. cbn [mbind res_bind Fields resRows jRows].
    exists (mkNest (row_vars node l ∅) false (if nsWant st then fields else nsFields st) (nsAcc st)). split.
    { split; [right; by exists l|]. split; [done|]. cbn. intros H0 _. destruct (nsWant st) eqn:?; [done|by apply Hf]. }
    assert ((if nsWant st then joinFields lf rf (jnCols node) else Ok (nsFields st)) =
      Ok (if nsWant st then fields else nsFields st)) as -> by (by destruct (nsWant st)).
    cbn [mbind res_bind]. rewrite (nest_right_pure wl wr) by done. 
    assert (filter (fun r => forallb (filter_ok l r) (jnCmpFilter (pushed node)) = true) (ans l) = ans l) as ->
      by (apply list_filter_all; by apply Forall_true).
    rewrite emit_all_app. change (out_row (pushed node)) with (out_row node). simpl jnRightTmpCols.
    destruct (emit_all maxrow (nsAcc st) _) as [a|e|]; [|done|done].
    cbn [mbind res_bind fst snd nsVars nsWant nsFields nsAcc Nat.add]. destruct (ans l) as [|r ms]; [|done].
    cbn [length Nat.eqb]. by rewrite concat_one.
  - exists st. split; [done|]. cbn [fst snd Nat.eqb mbind res_bind]. by rewrite concat_one.
Qed.

Lemma nest_rows_spec want0 L : forall st,
  nest_inv want0 st -> rows_ok wl L -> Forall answers L ->
  exists st', nest_inv want0 st' /\
    res_fold (nest_row right node maxrow bindVars lf) st L =
      (a ← emit_all maxrow (nsAcc st) (l ← L; row_out (pushed node) (ans l) l);
       Ok (mkNest (nsVars st') (nsWant st') (nsFields st') a)).
Proof.
  induction L as [|l L IH]; intros st Hi HL Ha.
  { exists st. split; [done|]. by destruct st. }
  apply Forall_cons in HL as [Hl HL]. apply Forall_cons in Ha as [Hal Ha].
  destruct (nest_row_spec want0 st l Hi Hl Hal) as (st1 & Hi1 & Hrow). cbn [res_fold]. rewrite Hrow, bind_cons, emit_all_app.
  destruct (emit_all maxrow (nsAcc st) _) as [a|e|]; [|by exists st1..]. cbn [mbind res_bind].
  destruct (IH (mkNest (nsVars st1) (nsWant st1) (nsFields st1) a)) as (st2 & Hi2 & H2); [done..|]. by exists st2.
Qed.
End nest.

(** The right rows that satisfy the whole condition for [l], as the right
    side evaluates it under the bindings of [l]. *)
Definition right_answer (node : JoinNode) (R : list row) (l : row) : list row :=
  filter (fun r => forallb (filter_ok l r) (jnCmpFilter node) = true) (filter (same_key node l) R).

Lemma pushed_out node R l : row_out (pushed node) (right_answer node R l) l = row_out node (filter (same_key node l) R) l.
Proof.
  unfold row_out. assert (matches (pushed node) l (right_answer node R l) = matches node l (filter (same_key node l) R)) as ->; [|done].
  unfold matches. simpl jnLeftTmpCols. destruct (forallb _ (jnLeftTmpCols node)); [|done].
  apply list_filter_all. by apply Forall_true.
Qed.

(** The nested-loop strategy computes the same join.  When the right
    child, under the bind variables of a left row, answers the right rows
    that satisfy the join condition for it, the engine returns exactly the
    rows of the nested-loop join, whether or not a left row reached the right
    side, with the joined fields; later rows' bindings replace earlier ones. *)
Theorem nest_loop_correct wl wr node maxrow bindVars left right lf rf fields L ln R (num : row -> Z) rn :
  node_ok wl wr node -> Forall (fun kc => inb wl kc.2) (jnVars node) -> rows_ok wl L -> rows_ok wr R -> 0 <= maxrow ->
  joinFields lf rf (jnCols node) = Ok fields ->
  pe_execBindVars left bindVars true = Ok (mkResult lf (mkJRes L ln)) ->
  (forall l, l ∈ L -> answers wr node right bindVars rf (right_answer node R) num l) ->
  (forall vars, pe_getFields right vars = Ok (mkResult rf (mkJRes [] rn))) ->
  join_execBindVars left right node maxrow bindVars true =
    (res ← within maxrow (joined node L R); Ok (mkResult fields res)).
Proof.
  intros Hn Hv HL HR Hm Hf Hel Ha Hg. unfold join_execBindVars. rewrite Hel. cbn [mbind res_bind Fields resRows jRows].
  destruct (nest_rows_spec wl wr node maxrow Hn Hv right bindVars lf rf fields (right_answer node R) num Hf true L
    (mkNest ∅ true [] emptyJRes)) as (st & (_ & _ & Hfs) & ->).
  - split; [by left|]. done.
  - done.
  - by apply Forall_forall.
  - rewrite (bind_ext_in _ (fun l => row_out node (filter (same_key node l) R) l)) by (intros; apply pushed_out).
    cbn [nsAcc]. rewrite emit_all_within by done. unfold joined. destruct (within maxrow _) as [a|e|]; [|done|done].
    cbn [mbind res_bind nsWant nsFields nsAcc nsVars]. destruct (nsWant st); [|by rewrite Hfs].
    rewrite Hg. cbn [mbind res_bind Fields]. by rewrite Hf.
Qed.
End engine.
End props.

(** ** Examples *)

(** Values as nullable integers. *)
#[local] Instance zval : Values (option Z) := {
  vnull := None;
  IsNull v := match v with None => true | _ => false end;
  CastToBool v := match v with Some z => negb (z =? 0) | None => false end;
  NullsafeCompare a b :=
    match a, b with
    | None, None => 0 | None, _ => -1 | _, None => 1
    | Some x, Some y => match x ?= y with Lt => -1 | Eq => 0 | Gt => 1 end
    end
}.
#[local] Instance zval_null : ZeroNull (option Z).
Proof. done. Qed.
Lemma zval_lawful D : lawful (V := option Z) D.
Proof.
  constructor; intros [a|] [b|]; try intros [c|]; cbn; intros; try done; try lia;
    repeat match goal with
           | |- context [?x ?= ?y] => destruct (Z.compare_spec x y); subst
           | H : context [?x ?= ?y] |- _ => destruct (Z.compare_spec x y); subst
           end; (done || lia || auto).
Qed.
Lemma zvals_lawful (doms : list (option Z -> Prop)) : Forall lawful doms.
Proof. apply Forall_true, zval_lawful. Qed.

(** An insertion sort has the contract of [sort.Slice]. *)
Section insertion.
Context {V : Type} (less : list V -> list V -> res jerr bool).
Fixpoint insert_row (x : list V) (ys : list (list V)) : res jerr (list (list V)) :=
  match ys with
  | [] => Ok [x]
  | y :: ys => b ← less y x; if (b : bool) then rest ← insert_row x ys; Ok (y :: rest) else Ok (x :: y :: ys)
  end.
Fixpoint insertion_sort (xs : list (list V)) : res jerr (list (list V)) :=
  match xs with [] => Ok [] | x :: xs => ys ← insertion_sort xs; insert_row x ys end.

Context (lt : list V -> list V -> bool).
Abbreviation no_inv := (fun a b => lt a b = true \/ lt b a = false).

Lemma insert_row_ok x ys :
  (forall a b, a ∈ x :: ys -> b ∈ x :: ys -> less a b = Ok (lt a b)) ->
  (forall a b c, a ∈ x :: ys -> b ∈ x :: ys -> c ∈ x :: ys -> lt a b = true -> lt b c = true -> lt a c = true) ->
  (forall a b c, a ∈ x :: ys -> b ∈ x :: ys -> c ∈ x :: ys -> lt a b = false -> lt b c = false -> lt a c = false) ->
  StronglySorted no_inv ys ->
  exists zs, insert_row x ys = Ok zs /\ zs ≡ₚ x :: ys /\ StronglySorted no_inv zs.
Proof.
  intros Hl Ht Hf Hs. induction Hs as [|y ys Hs IH Hy]; [by exists [x]; repeat constructor|]. cbn [insert_row].
  assert (forall a, a ∈ x :: ys -> a ∈ x :: y :: ys) as Hsub by (clear; set_solver).
  assert (x ∈ x :: y :: ys) as Hx by (clear; set_solver). assert (y ∈ x :: y :: ys) as Hy' by (clear; set_solver).
  rewrite Hl by done. cbn [mbind res_bind]. destruct (lt y x) eqn:Hyx.
  - destruct IH as (zs & -> & Hp & Hz); [eauto..|]. exists (y :: zs). split; [done|]. split; [by rewrite Hp, Permutation_swap|].
    constructor; [done|]. rewrite Hp. constructor; [by left|done].
  - exists (x :: y :: ys). do 2 (split; [done|]). constructor; [by constructor|]. constructor; [by right|].
    rewrite Forall_forall in *. intros z Hin. destruct (Hy z Hin) as [Hyz|Hzy].
    + right. destruct (lt z x) eqn:Hzx; [|done]. rewrite (Ht y z x) in Hyx; auto using list_elem_of_further.
    + right. apply (Hf z y x); auto using list_elem_of_further.
Qed.

Lemma insertion_sort_ok xs :
  (forall a b, a ∈ xs -> b ∈ xs -> less a b = Ok (lt a b)) ->
  (forall a b c, a ∈ xs -> b ∈ xs -> c ∈ xs -> lt a b = true -> lt b c = true -> lt a c = true) ->
  (forall a b c, a ∈ xs -> b ∈ xs -> c ∈ xs -> lt a b = false -> lt b c = false -> lt a c = false) ->
  exists ys, insertion_sort xs = Ok ys /\ ys ≡ₚ xs /\ StronglySorted no_inv ys.
Proof.
  induction xs as [|x xs IH]; intros Hl Ht Hf; [by exists []; repeat constructor|]. cbn [insertion_sort].
  destruct IH as (ys & -> & Hp & Hs); [eauto using list_elem_of_further..|]. cbn [mbind res_bind].
  destruct (insert_row_ok x ys) as (zs & Hz & Hpz & Hsz); [intros *; rewrite Hp; eauto..|done|].
  exists zs. split; [done|]. split; [by rewrite Hpz, Hp|done].
Qed.
End insertion.

#[local] Instance isort : GoSort (option Z) := insertion_sort.
(** The goroutines run one after the other. *)
#[local] Instance in_order : Schedule (option Z) := mjoin.
#[local] Instance in_order_ok : ScheduleOk (option Z).
Proof. intros xs. done. Qed.
#[local] Instance isort_ok : GoSortOk (option Z).
Proof. intros less lt xs. apply insertion_sort_ok. Qed.

(** A left join of [(k, a)] and [(k, b)] on [k] and [a < b]. *)
Definition ex_node (strategy : JoinStrategy) : JoinNode :=
  mkJoinNode strategy [-1; -2; 2] [0] [0] [mkComparison 1 1 LessThanOp false] true false [] [] [(("k")%string, 0); (("a")%string, 1)].
Definition ex_L : list (list (option Z)) := [[Some 2; Some 5]; [None; Some 1]; [Some 1; Some 7]; [Some 2; Some 9]].
Definition ex_R : list (list (option Z)) := [[Some 2; Some 8]; [Some 3; Some 0]; [None; Some 4]; [Some 2; Some 6]].
Definition ex_out : list (list (option Z)) :=
  [[None; Some 1; None]; [Some 1; Some 7; None]; [Some 2; Some 5; Some 8]; [Some 2; Some 5; Some 6]; [Some 2; Some 9; None]].

Lemma ex_node_ok s : node_ok 2 2 (ex_node s).
Proof.
  constructor; cbn; [by repeat constructor..| | |done|done].
  - by repeat constructor.
  - repeat apply Forall_cons_2; [left|left|right|done]; unfold inb; lia.
Qed.

Example sort_merge_runs :
  sortMergeJoin ex_L ex_R (ex_node SortMerge) 10 emptyJRes =
    Ok (mkJRes [[None; Some 1; None]; [Some 1; Some 7; None]; [Some 2; Some 9; None]; [Some 2; Some 5; Some 6];
                [Some 2; Some 5; Some 8]] 5).
Proof. vm_compute. reflexivity. Qed.

Definition ex_Ls : list (list (option Z)) := [[None; Some 1]; [Some 1; Some 7]; [Some 2; Some 5]; [Some 2; Some 9]].
Definition ex_Rs : list (list (option Z)) := [[None; Some 4]; [Some 2; Some 8]; [Some 2; Some 6]; [Some 3; Some 0]].

Lemma mergeJoin_correct_witness :
  exists rows, rows ≡ₚ ex_out /\ mergeJoin ex_Ls ex_Rs (ex_node SortMerge) 10 emptyJRes = within 10 rows.
Proof.
  assert (joined (ex_node SortMerge) ex_Ls ex_Rs = ex_out) as <- by (vm_compute; reflexivity).
  apply (mergeJoin_correct 2 2); [apply ex_node_ok|repeat constructor|repeat constructor|apply zvals_lawful|repeat constructor..|lia];
    vm_compute; discriminate.
Defined.

Example limit_exceeded : mergeJoin ex_Ls ex_Rs (ex_node SortMerge) 4 emptyJRes = Err (ErrRowLimit 4).
Proof. vm_compute. reflexivity. Qed.

(** Engines over fixed rows; the right one evaluates the condition of the
    join under the bindings. *)
Definition ex_left : PlanEngine (option Z) string :=
  mkPlanEngine (Ok (mkResult ["k"; "a"]%string (mkJRes ex_L 4))) (fun _ _ => Ok (mkResult ["k"; "a"]%string (mkJRes ex_L 4)))
    (fun _ => Ok (mkResult ["k"; "a"]%string emptyJRes)).
Definition ex_select (vars : gmap string (option Z)) : list (list (option Z)) :=
  match vars !! "k"%string, vars !! "a"%string with
  | Some k, Some a => right_answer (ex_node NestLoop) ex_R [k; a]
  | _, _ => []
  end.
Definition ex_right : PlanEngine (option Z) string :=
  mkPlanEngine (Ok (mkResult ["k"; "b"]%string (mkJRes ex_R 4)))
    (fun vars _ => Ok (mkResult ["k"; "b"]%string (mkJRes (ex_select vars) 0)))
    (fun _ => Ok (mkResult ["k"; "b"]%string (mkJRes [] 0))).

Definition ex_cross : JoinNode := mkJoinNode Cartesian [-1; 2] [] [] [] false false [] [] [].
Lemma cartesianProduct_correct_witness :
  cartesianProduct ex_L ex_R ex_cross 100 emptyJRes = within 100 (joined ex_cross ex_L ex_R) /\
  length (joined ex_cross ex_L ex_R) = 16%nat.
Proof.
  destruct (cartesianProduct_correct 2 2 ex_cross 100 ex_L ex_R) as [H1 H2]; [|repeat constructor..|lia|].
  { constructor; try done. repeat apply Forall_cons_2; [left|right|done]; unfold inb; lia. }
  rewrite <- H2 by done. split; [exact H1|]. vm_compute. reflexivity.
Defined.

Lemma join_Execute_correct_witness :
  exists rows, rows ≡ₚ joined (ex_node SortMerge) ex_L ex_R /\
    join_Execute ex_left ex_right (ex_node SortMerge) 10 Ok =
      (res ← within 10 rows; Ok (mkResult ["k"; "a"; "b"]%string res)).
Proof.
  apply (join_Execute_correct 2 2 ex_left ex_right (ex_node SortMerge) 10 Ok ["k"; "a"]%string ex_L 4 ["k"; "b"]%string ex_R 4
    ["k"; "a"; "b"]%string); try reflexivity; [apply zvals_lawful|apply ex_node_ok|repeat constructor..|lia].
Defined.

Lemma nest_loop_correct_witness :
  join_execBindVars ex_left ex_right (ex_node NestLoop) 10 ∅ true =
    Ok (mkResult ["k"; "a"; "b"]%string (mkJRes (joined (ex_node NestLoop) ex_L ex_R) 5)).
Proof.
  rewrite (nest_loop_correct 2 2 (ex_node NestLoop) 10 ∅ ex_left ex_right ["k"; "a"]%string ["k"; "b"]%string ["k"; "a"; "b"]%string
    ex_L 4 ex_R (fun _ => 0) 0); try reflexivity.
  - apply ex_node_ok.
  - repeat constructor; unfold inb; simpl; lia.
  - repeat constructor.
  - repeat constructor.
  - lia.
  - intros l Hl _. split; [apply Forall_forall; intros r Hr; revert Hr; unfold right_answer; rewrite !list_elem_of_filter;
      intros (_ & _ & Hr); revert r Hr; apply Forall_forall; repeat constructor|].
    intros want. revert l Hl. apply Forall_forall. repeat constructor.
Defined.

(** With no left row the operators above the join do not run: an aggregate
    over an empty join, which the same operator answers with one row when the
    rows come from a single shard, gives none. *)
Example empty_left_skips_operators lf rf (sub : Result (option Z) string -> res jerr (Result (option Z) string)) R n :
  let left := mkPlanEngine (Ok (mkResult lf (mkJRes [] 0))) (fun _ _ => Panic) (fun _ => Panic) in
  let right := mkPlanEngine (Ok (mkResult rf (mkJRes R n))) (fun _ _ => Panic) (fun _ => Panic) in
  join_Execute left right (ex_node SortMerge) 10 sub =
    (fields ← joinFields lf rf [-1; -2; 2]; Ok (mkResult fields emptyJRes)).
Proof. reflexivity. Qed.

(** ** Columns of numbers and of text

    The comparison of the SQL library (sqltypes/arithmetic.go) on NULL, on
    integers and on texts that are decimal integers or no numbers: NULL is
    lowest, a comparison with an integer is numeric (a text that is no number
    counts as 0), two texts are compared bytewise. *)
Inductive mval := MNull | MInt (z : Z) | MText (t : string).
Definition m_number (v : mval) : Z :=
  match v with MNull => 0 | MInt z => z | MText t => default 0 (Atoi t) end.
Definition sign_of (c : comparison) : Z := match c with Lt => -1 | Eq => 0 | Gt => 1 end.

#[local] Instance mvals : Values mval := {
  vnull := MNull;
  IsNull v := match v with MNull => true | _ => false end;
  CastToBool v := negb (m_number v =? 0);
  NullsafeCompare a b :=
    match a, b with
    | MNull, MNull => 0 | MNull, _ => -1 | _, MNull => 1
    | MText s, MText t => sign_of (String.compare s t)
    | _, _ => sign_of (m_number a ?= m_number b)
    end
}.

(** A column of integers, or of texts, is ordered; NULLs may be among them. *)
Lemma sign_range c : sign_of c = -1 \/ sign_of c = 0 \/ sign_of c = 1.
Proof. destruct c; auto. Qed.
Lemma sign_le c : sign_of c <= 0 <-> c <> Gt.
Proof. destruct c; simpl; (split; [done|]); done. Qed.
Lemma sign_opp c : sign_of (CompOpp c) = - sign_of c.
Proof. by destruct c. Qed.

Lemma z_compare_le x y : sign_of (x ?= y) <= 0 <-> x <= y.
Proof. rewrite sign_le. apply Z.compare_le_iff. Qed.

Lemma ints_lawful : lawful (fun v => match v with MText _ => False | _ => True end).
Proof.
  split; intros [|a|] [|b|]; try intros [|c|]; cbn; intros; try done; try lia; auto using sign_range.
  - by rewrite Z.compare_antisym, sign_opp.
  - rewrite z_compare_le in *. lia.
Qed.

Lemma str_compare_le s t : sign_of (String.compare s t) <= 0 <-> str_le s t.
Proof. rewrite sign_le. unfold str_le, String.leb. by destruct (String.compare s t). Qed.

Lemma texts_lawful : lawful (fun v => match v with MInt _ => False | _ => True end).
Proof.
  split; intros [| |s] [| |t]; try intros [| |u]; cbn; intros; try done; try lia; auto using sign_range.
  - by rewrite String.compare_antisym, sign_opp.
  - rewrite str_compare_le in *. by etrans.
Qed.

(** Together they are not: '10' is below '9', '9' equals 9, and '10' is above 9. *)
Lemma mixed_not_lawful : ~ lawful (fun v : mval => v = MText "10" \/ v = MText "9" \/ v = MInt 9).
Proof.
  intros H. assert (NullsafeCompare (MText "10") (MInt 9) <= 0) as Hc; [|exact (Hc eq_refl)].
  apply (law_trans _ H _ (MText "9")); [auto..|vm_compute; discriminate|vm_compute; discriminate].
Qed.

(** A join of a text column with the rows '10' and '9' and an integer column
    with the rows 9 and 10: each left row has its partner, but the sort-merge
    join, which sorts the two sides each by its own order, finds one of them. *)
Definition mixed_node : JoinNode := mkJoinNode SortMerge [-1; 1] [0] [0] [] false false [] [] [].
Definition mixed_L : list (list mval) := [[MText "10"]; [MText "9"]].
Definition mixed_R : list (list mval) := [[MInt 9]; [MInt 10]].
#[local] Instance msort : GoSort mval := insertion_sort.
#[local] Instance m_order : Schedule mval := mjoin.

Theorem mixed_join_loses_rows :
  joined mixed_node mixed_L mixed_R = [[MText "10"; MInt 10]; [MText "9"; MInt 9]] /\
  sortMergeJoin mixed_L mixed_R mixed_node 10 emptyJRes = Ok (mkJRes [[MText "10"; MInt 10]] 1).
Proof. split; vm_compute; reflexivity. Qed.
