(* ===== verification/Operators.v ===== *)
(** * The operators above the shards (src/executor/engine/operator; limit_plan.go)

    The rows the shards return are aggregated, sorted and limited in the proxy.
    What the operators use of the SQL library is modelled from its source: the
    columns of a result, [Result.Limit], [Result.RemoveColumns] and the
    aggregations; its arithmetic on values is the parameter [Arith]. *)
From S2P Require Import Prelude GoStd Partition Sql PlanExpr PlanDml Join.
Open Scope string_scope.
Open Scope list_scope.
Open Scope Z_scope.

(** ** Child plans *)

(** [builder.Direction], [builder.OrderBy] *)
Inductive Direction := ASC | DESC.
Record OrderBy := mkOrderBy { obField : string; obTable : string; obDirection : Direction }.
(** [builder.OrderByPlan], the part the operator reads. *)
Record OrderByPlan := mkOrderByPlan { opRemovedIdxs : list Z; opOrderBys : list OrderBy }.

(** [sqltypes.AggrType], [builder.Aggregator] *)
Inductive AggrType := AggrTypeNull | AggrTypeCount | AggrTypeSum | AggrTypeMin | AggrTypeMax | AggrTypeAvg | AggrTypeGroupBy.
Global Instance AggrType_eq_dec : EqDecision AggrType.
Proof. solve_decision. Defined.
Record Aggregator := mkAggregator { agField : string; agIndex : Z; agType : AggrType; agDistinct : bool }.
(** [builder.AggregatePlan], the part the operator reads. *)
Record AggregatePlan := mkAggregatePlan {
  apNormal : list Aggregator; apGroup : list Aggregator; apIsPushDown : bool
}.

(** [builder.LimitPlan] after [Build]: the two numbers and the limit sent to
    the shards. *)
Record LimitPlan := mkLimitPlan { lpOffset : Z; lpLimit : Z; lpReWritten : option string }.

Inductive ChildPlan :=
| ChildAggregate (p : AggregatePlan)
| ChildOrderby (p : OrderByPlan)
| ChildLimit (p : LimitPlan).

(** [querypb.Field]: its name, its table and what the arithmetic knows of its
    type. *)
Record Field (T : Type) := mkField { fName : string; fTable : string; fType : T }.
Arguments mkField {T}.
Arguments fName {T}.
Arguments fTable {T}.
Arguments fType {T}.

(** ** LimitPlan (limit_plan.go) *)

(** The value of an offset or a row count: [None] when it is absent. *)
Definition limit_val (e : option Expr) : res perr (option Z) :=
  match e with
  | None => Ok None
  | Some (SQLValE v) =>
      if decide (svType v = IntVal) then
        match Atoi (svVal v) with Some z => Ok (Some z) | None => Err ELimitParse end
      else Err ELimitType
  | Some _ => Err ELimitType
  end.

(** [LimitPlan.analyze] *)
Definition LimitPlan_analyze (node : Limit) : bool :=
  forallb (fun e => match e with SQLValE v => bool_decide (svType v = IntVal) | _ => false end)
    (List.flat_map nodes (opt_list (liOffset node) ++ opt_list (liRowcount node))).

(** [LimitPlan.Build] *)
Definition LimitPlan_Build (node : option Limit) : res perr LimitPlan :=
  match node with
  | None => Ok (mkLimitPlan 0 0 None)
  | Some n =>
      if LimitPlan_analyze n then
        off ← limit_val (liOffset n);
        cnt ← limit_val (liRowcount n);
        let Offset := default 0 off in
        let Limit := default 0 cnt in
        Ok (mkLimitPlan Offset Limit (Some (Itoa (swrap 64 (Offset + Limit)))))
      else Err ELimitType
  end.

(** ** Arithmetic of the SQL library *)

(** [fix_type] is [Aggregation.FixField] on the type of a field; [None] is an
    error of the operation. *)
Class Arith (V T : Type) := {
  fix_type : AggrType -> bool -> T -> T;
  NullsafeAdd : T -> V -> V -> option V;
  NullsafeSum : T -> V -> V -> option V;
  NullsafeDiv : T -> V -> V -> option V;
  Cast : T -> V -> option V;
  zero_of : T -> V;
  NewInt64 : Z -> V;
  Raw : V -> string
}.

Section operators.
Context {V T : Type} `{VV : Values V, AR : Arith V T, GS : GoSort V}.
Abbreviation row := (list V).
Abbreviation JR := (res jerr).
Abbreviation Res := (Result V (Field T)).

(** ** Results *)

(** [Result.Limit]: the sum is a machine integer, and slicing panics when the
    bounds are out of order. *)
Definition Result_Limit (offset limit : Z) (rows : list row) : JR (list row) :=
  let count := Z.of_nat (length rows) in
  let start := Z.min offset count in
  let end_ := Z.min (swrap 64 (offset + limit)) count in
  if (start <? 0) || (end_ <? start) then Panic
  else Ok (take (Z.to_nat end_ - Z.to_nat start) (drop (Z.to_nat start) rows)).

(** The elements of a list whose index is not listed. *)
Definition remove_idxs {A} (idxs : list Z) (l : list A) : list A :=
  snd <$> filter (fun p => Z.of_nat (fst p) ∉ idxs) (imap pair l).

Definition set_rows (rows : list row) (r : Res) : Res := mkResult (Fields r) (mkJRes rows (jAffected (resRows r))).

(** [Result.RemoveColumns] *)
Definition RemoveColumns (idxs : list Z) (r : Res) : Res :=
  match idxs with
  | [] => r
  | _ => mkResult (remove_idxs idxs (Fields r))
           (mkJRes (remove_idxs idxs <$> jRows (resRows r)) (jAffected (resRows r)))
  end.

(** ** LimitOperator *)
Definition limit_Execute (plan : LimitPlan) (r : Res) : JR Res :=
  rows ← Result_Limit (lpOffset plan) (lpLimit plan) (jRows (resRows r));
  Ok (set_rows rows r).

(** ** OrderByOperator *)

(** The column of an ORDER BY field: the first whose name is the field's, of
    its table when one is given. *)
Fixpoint order_index (fields : list (Field T)) (o : OrderBy) (k : Z) : option Z :=
  match fields with
  | [] => None
  | f :: fs =>
      if bool_decide (fName f = obField o) && (bool_decide (obTable o = "") || bool_decide (obTable o = fTable f))
      then Some k else order_index fs o (k + 1)
  end.

(** The [less] of the sort.  A field that is not found is an error: it is kept
    aside while the sort goes on, and returned after it. *)
Fixpoint order_less (fields : list (Field T)) (os : list OrderBy) (a b : row) : JR bool :=
  match os with
  | [] => Ok true
  | o :: os =>
      match order_index fields o 0 with
      | None => Err (ErrPlan (obField o))
      | Some idx =>
          x ← at_ a idx; y ← at_ b idx;
          let cmp := NullsafeCompare x y in
          if cmp =? 0 then order_less fields os a b
          else let cmp := match obDirection o with DESC => - cmp | ASC => cmp end in Ok (cmp <? 0)
      end
  end.

(** [OrderByOperator.Execute] *)
Definition orderby_Execute (plan : OrderByPlan) (r : Res) : JR Res :=
  rows ← sort_Slice (order_less (Fields r) (opOrderBys plan)) (jRows (resRows r));
  Ok (RemoveColumns (opRemovedIdxs plan) (set_rows rows r)).

(** ** Aggregations (sqltypes/aggregation.go) *)

(** [Aggregation]: [agrType] is the field type it was given by [FixField]. *)
Record Aggregation := mkAggregation {
  agrDistinct : bool; agrIndex : Z; agrAggrTyp : AggrType; agrType : T; agrIsPushDown : bool
}.

(** [AggEvaluateContext]; the buffer holds the values seen, for DISTINCT. *)
Record EvalCtx := mkEvalCtx { ecCount : Z; ecVal : V; ecErr : bool; ecBuffer : list string }.

(** [InitEvalCtx]; [x = None] is a nil row. *)
Definition InitEvalCtx (aggr : Aggregation) (x : option row) : JR EvalCtx :=
  v ← match x with Some r => at_ r (agrIndex aggr) | None => Ok vnull end;
  if negb (agrIsPushDown aggr) && negb (IsNull v)
  then Ok (mkEvalCtx 1 v false (if agrDistinct aggr then [Raw v] else []))
  else Ok (mkEvalCtx 0 v false []).

Definition min_ (v1 v2 : V) : V :=
  if IsNull v1 then v2 else if IsNull v2 then v1 else if NullsafeCompare v1 v2 <? 0 then v1 else v2.
Definition max_ (v1 v2 : V) : V :=
  if IsNull v1 then v2 else if IsNull v2 then v1 else if NullsafeCompare v1 v2 <? 0 then v2 else v1.

(** Store the result of an operation, or record its error. *)
Definition put_val (count : Z) (v : option V) (ctx : EvalCtx) : EvalCtx :=
  match v with
  | Some v => mkEvalCtx count v (ecErr ctx) (ecBuffer ctx)
  | None => mkEvalCtx count vnull true (ecBuffer ctx)
  end.

(** The switch of [Update] on the kind of the aggregation. *)
Definition update_val (aggr : Aggregation) (v : V) (ctx : EvalCtx) : EvalCtx :=
  let n := swrap 64 (ecCount ctx + 1) in
  match agrAggrTyp aggr with
  | AggrTypeMin => mkEvalCtx (ecCount ctx) (min_ (ecVal ctx) v) (ecErr ctx) (ecBuffer ctx)
  | AggrTypeMax => mkEvalCtx (ecCount ctx) (max_ (ecVal ctx) v) (ecErr ctx) (ecBuffer ctx)
  | AggrTypeSum => put_val n (NullsafeSum (agrType aggr) (ecVal ctx) v) ctx
  | AggrTypeCount =>
      if agrIsPushDown aggr then put_val (ecCount ctx) (NullsafeAdd (agrType aggr) (ecVal ctx) v) ctx
      else mkEvalCtx n (ecVal ctx) (ecErr ctx) (ecBuffer ctx)
  | AggrTypeAvg =>
      if agrIsPushDown aggr then ctx else put_val n (NullsafeSum (agrType aggr) (ecVal ctx) v) ctx
  | _ => ctx
  end.

(** [Update] *)
Definition Update_ (aggr : Aggregation) (x : row) (ctx : EvalCtx) : JR EvalCtx :=
  if ecErr ctx then Ok ctx
  else
    v ← at_ x (agrIndex aggr);
    if IsNull v then Ok ctx
    else if negb (agrIsPushDown aggr) && agrDistinct aggr then
      if bool_decide (Raw v ∈ ecBuffer ctx) then Ok ctx
      else Ok (update_val aggr v (mkEvalCtx (ecCount ctx) (ecVal ctx) (ecErr ctx) (Raw v :: ecBuffer ctx)))
    else Ok (update_val aggr v ctx).

(** [GetResult] *)
Definition GetResult (aggr : Aggregation) (ctx : EvalCtx) : V :=
  if ecErr ctx then zero_of (agrType aggr)
  else match agrAggrTyp aggr with
       | AggrTypeAvg =>
           if agrIsPushDown aggr then vnull
           else default (zero_of (agrType aggr)) (NullsafeDiv (agrType aggr) (ecVal ctx) (NewInt64 (ecCount ctx)))
       | AggrTypeMax | AggrTypeMin => ecVal ctx
       | AggrTypeSum => default (zero_of (agrType aggr)) (Cast (agrType aggr) (ecVal ctx))
       | AggrTypeCount => if agrIsPushDown aggr then ecVal ctx else NewInt64 (ecCount ctx)
       | _ => vnull
       end.

(** [x[i] = v] *)
Definition set_at (x : row) (i : Z) (v : V) : JR row :=
  if (i <? 0) || (Z.of_nat (length x) <=? i) then Panic else Ok (<[Z.to_nat i := v]> x).

(** [GetResults]: the row with the results stored in it and the columns to
    remove.  A pushed-down AVG takes the sum and the count that follow it. *)
Fixpoint GetResults (aggrs : list Aggregation) (ctxs : list EvalCtx) (x : row) : JR (row * list Z) :=
  match aggrs, ctxs with
  | [], _ => Ok (x, [])
  | aggr :: aggrs1, ctx :: ctxs1 =>
      if agrIsPushDown aggr && bool_decide (agrAggrTyp aggr = AggrTypeAvg) then
        match aggrs1, ctxs1 with
        | _ :: _ :: aggrs3, c1 :: c2 :: ctxs3 =>
            let v := default (zero_of (agrType aggr)) (NullsafeDiv (agrType aggr) (ecVal c1) (ecVal c2)) in
            x ← set_at x (agrIndex aggr) v;
            r ← GetResults aggrs3 ctxs3 x;
            Ok (fst r, agrIndex aggr + 1 :: snd r)
        | _, _ => Panic
        end
      else
        x ← set_at x (agrIndex aggr) (GetResult aggr ctx);
        GetResults aggrs1 ctxs1 x
  | _ :: _, [] => Panic
  end.

(** ** AggregateOperator *)

(** The loop that makes the aggregations and fixes the fields in turn. *)
Definition make_aggr (pushdown : bool) (st : list Aggregation * list (Field T)) (a : Aggregator)
    : JR (list Aggregation * list (Field T)) :=
  f ← field_at (snd st) (agIndex a);
  let ty := fix_type (agType a) pushdown (fType f) in
  Ok (fst st ++ [mkAggregation (agDistinct a) (agIndex a) (agType a) ty pushdown],
      <[Z.to_nat (agIndex a) := mkField (fName f) (fTable f) ty]> (snd st)).

(** A group: its first row and the contexts of the aggregations. *)
Record group := mkGroup { gRow : row; gCtxs : list EvalCtx }.

(** [aggr.Update(row, ctx)] for each aggregation. *)
Fixpoint update_all (aggrs : list Aggregation) (x : row) (ctxs : list EvalCtx) : JR (list EvalCtx) :=
  match aggrs with
  | [] => Ok []
  | a :: aggrs =>
      match ctxs with
      | [] => Panic
      | c :: ctxs => c ← Update_ a x c; cs ← update_all aggrs x ctxs; Ok (c :: cs)
      end
  end.

(** One row of the grouping loop; the current group is the last. *)
Definition group_row (keys : list Z) (aggrs : list Aggregation) (groups : list group) (x : row) : JR (list group) :=
  match last groups with
  | None => ctxs ← res_map (fun a => InitEvalCtx a (Some x)) aggrs; Ok (groups ++ [mkGroup x ctxs])
  | Some g =>
      equal ← keysEqual (gRow g) x keys;
      if (equal : bool) then
        ctxs ← update_all aggrs x (gCtxs g);
        Ok (<[Nat.pred (length groups) := mkGroup (gRow g) ctxs]> groups)
      else ctxs ← res_map (fun a => InitEvalCtx a (Some x)) aggrs; Ok (groups ++ [mkGroup x ctxs])
  end.

(** [AggregatePlan.Empty] *)
Definition Empty_ (plan : AggregatePlan) : bool :=
  match apNormal plan, apGroup plan with [], [] => true | _, _ => false end.

(** [AggregateOperator.aggregate] *)
Definition aggregate (plan : AggregatePlan) (r : Res) : JR Res :=
  if Empty_ plan then Ok r
  else
    let keys := agIndex <$> apGroup plan in
    rows ← match keys with [] => Ok (jRows (resRows r)) | _ => sort_Slice (key_less keys) (jRows (resRows r)) end;
    st ← res_fold (make_aggr (apIsPushDown plan)) ([], Fields r) (apNormal plan);
    let '(aggrs, fields) := st in
    groups ← res_fold (group_row keys aggrs) [] rows;
    outs ← match groups, aggrs with
           | [], _ :: _ =>
               ctxs ← res_map (fun a => InitEvalCtx a None) aggrs;
               x ← GetResults aggrs ctxs (replicate (length fields) vnull); Ok [x]
           | _, _ => res_map (fun g => GetResults aggrs (gCtxs g) (gRow g)) groups
           end;
    let deIdxs := match last outs with Some x => snd x | None => [] end in
    Ok (RemoveColumns deIdxs (mkResult fields (mkJRes (fst <$> outs) (jAffected (resRows r))))).

(** [ExecSubPlan] *)
Definition ExecSubPlan (children : list ChildPlan) (r : Res) : JR Res :=
  res_fold (fun r c => match c with
                       | ChildAggregate p => aggregate p r
                       | ChildOrderby p => orderby_Execute p r
                       | ChildLimit p => limit_Execute p r
                       end) r children.
End operators.
