(* ===== verification/OperatorsProps.v ===== *)
(** * What the operators compute

    Sorting and limiting the shards' rows gives the rows a single server would
    give; aggregation makes one row per distinct key. *)
From S2P Require Import Prelude GoStd Partition Sql PlanExpr PlanDml Join JoinProps Operators.
Open Scope string_scope.
Open Scope list_scope.
Open Scope Z_scope.

(** ** The first rows of several sorted lists *)
Section top.
Context {A : Type} (le : A -> A -> Prop) `{!RelDecision le}.
Hypothesis le_total : forall a b, le a b \/ le b a.
Hypothesis le_trans : forall a b c, le a b -> le b c -> le a c.

Lemma sorted_perm (l : list A) : exists s, s ≡ₚ l /\ StronglySorted le s.
Proof.
  exists (merge_sort le l). split; [apply merge_sort_Permutation|].
  apply StronglySorted_merge_sort; [intros a b c; apply le_trans|intros a b; apply le_total].
Qed.

Lemma filter_prefix (P : A -> Prop) `{!forall x, Decision (P x)} l1 l2 :
  Forall (fun x => ~ P x) l2 -> (length (filter P (l1 ++ l2)) <= length l1)%nat.
Proof.
  intros Hl2. rewrite filter_app, length_app, (list_filter_none P l2) by done.
  pose proof (length_filter P l1). simpl. lia.
Qed.

(** When [m] holds [n] elements that are not above [x], its first [n] are not. *)
Lemma first_n_below (n : nat) (t rest m : list A) x :
  m ≡ₚ t ++ rest -> StronglySorted le m -> length t = n -> Forall (fun y => le y x) t ->
  Forall (fun y => le y x) (take n m).
Proof.
  intros Hp Hs Hn Ht. apply Forall_forall. intros y Hy.
  destruct (decide (le y x)) as [|Hyx]; [done|]. exfalso.
  apply list_elem_of_lookup in Hy as [i Hi]. apply lookup_take_Some in Hi as [Hi Hin].
  pose proof (take_drop_middle m i y Hi) as Hm. pose (P := fun z => ~ le y z).
  assert (Forall (fun z => ~ P z) (y :: drop (S i) m)) as Hnp.
  { rewrite <- Hm in Hs. apply StronglySorted_app in Hs as (_ & _ & Hs). apply StronglySorted_cons in Hs as [Hy _].
    apply Forall_cons. split; [intros HP; apply HP; destruct (le_total y y); done|].
    eapply Forall_impl; [exact Hy|]. intros z Hz HP. by apply HP. }
  pose proof (filter_prefix P (take i m) (y :: drop (S i) m) Hnp) as Hlen. rewrite Hm in Hlen.
  rewrite length_take in Hlen.
  assert (n <= length (filter P m))%nat as Hge; [|lia].
  rewrite Hp, filter_app, length_app, (list_filter_all P t); [lia|].
  eapply Forall_impl; [exact Ht|]. intros z Hz HP. apply Hyx. by apply (le_trans _ z).
Qed.

Lemma mjoin_split (n : nat) (ls : list (list A)) :
  mjoin ls ≡ₚ mjoin (take n <$> ls) ++ mjoin (drop n <$> ls).
Proof.
  induction ls as [|l ls IH]; [done|]. cbn. rewrite IH.
  rewrite <- (take_drop n l) at 1. rewrite <- !app_assoc. f_equiv. apply Permutation_app_swap_app.
Qed.

Lemma drop_mem_length (n : nat) (l : list A) x : x ∈ drop n l -> (n < length l)%nat.
Proof.
  intros Hx. destruct (decide (n < length l)%nat); [done|]. rewrite drop_ge in Hx by lia.
  by apply not_elem_of_nil in Hx.
Qed.

(** A rest behind the cut means that the cut list is full. *)
Lemma cut_rest (n : nat) (ls : list (list A)) x :
  x ∈ mjoin (drop n <$> ls) -> exists l rest, l ∈ ls /\ (n < length l)%nat /\ x ∈ drop n l /\
    mjoin (take n <$> ls) ≡ₚ take n l ++ rest.
Proof.
  intros Hx. apply list_elem_of_join in Hx as (d & Hxd & Hd).
  apply list_elem_of_fmap in Hd as (l & -> & Hl). pose proof (drop_mem_length _ _ _ Hxd) as Hlen.
  exists l. pose proof Hl as Hin. apply list_elem_of_split in Hl as (l1 & l2 & ->).
  exists (mjoin (take n <$> l1) ++ mjoin (take n <$> l2)). split_and!; [done..|].
  rewrite fmap_app, fmap_cons, join_app. apply Permutation_app_swap_app.
Qed.

(** Cutting every sorted list to [n] elements does not change the first [n] of
    all of them. *)
Lemma top_n (n : nat) (ls : list (list A)) (m : list A) :
  Forall (StronglySorted le) ls -> m ≡ₚ mjoin (take n <$> ls) -> StronglySorted le m ->
  exists s, s ≡ₚ mjoin ls /\ StronglySorted le s /\ take n s = take n m.
Proof.
  intros Hls Hm Hs. rewrite Forall_forall in Hls.
  assert (forall y x, y ∈ take n m -> x ∈ mjoin (drop n <$> ls) -> le y x) as Hrest.
  { intros y x Hy (l & rest & Hl & Hlen & Hxd & Hp)%cut_rest.
    assert (Forall (fun y => le y x) (take n m)) as HF; [|rewrite Forall_forall in HF; by apply HF].
    apply (first_n_below n (take n l) rest); [by rewrite Hm|done|rewrite length_take; lia|].
    specialize (Hls _ Hl). rewrite <- (take_drop n l) in Hls. apply Forall_forall. intros z Hz.
    by eapply StronglySorted_app_1_elem_of. }
  destruct (sorted_perm (drop n m ++ mjoin (drop n <$> ls))) as (tail & Htp & Hts).
  exists (take n m ++ tail). split_and!.
  - rewrite Htp, app_assoc, take_drop, Hm. symmetry. apply mjoin_split.
  - rewrite <- (take_drop n m) in Hs. apply StronglySorted_app in Hs as (Hd & Ht & _).
    apply StronglySorted_app. split_and!; [|done|done]. intros y z Hy. rewrite Htp. intros [Hz|Hz]%elem_of_app; auto.
  - assert (tail = [] \/ (n <= length m)%nat) as [->|Hlen].
    { destruct (decide (n <= length m)%nat); [by right|left]. rewrite drop_ge in Htp by lia.
      destruct (mjoin (drop n <$> ls)) as [|x xs] eqn:Hx; [by apply Permutation_nil_r|].
      assert (x ∈ mjoin (drop n <$> ls)) as (l & rest & _ & Hl & _ & Hp)%cut_rest by (rewrite Hx; by left).
      rewrite Hp in Hm. apply Permutation_length in Hm. rewrite length_app, length_take in Hm. lia. }
    + by rewrite app_nil_r, take_take, Nat.min_id.
    + rewrite take_app_le, take_take, Nat.min_id; [done|]. rewrite length_take. lia.
Qed.
End top.

(** A comparison that is a total preorder of the elements of a list ranks
    them: below an element are as many as its rank. *)
Section rank.
Context {A : Type} (cmp : A -> A -> Z) (xs : list A).
Hypothesis cmp_antisym : forall a b, a ∈ xs -> b ∈ xs -> cmp b a = - cmp a b.
Hypothesis cmp_trans : forall a b c, a ∈ xs -> b ∈ xs -> c ∈ xs -> cmp a b <= 0 -> cmp b c <= 0 -> cmp a c <= 0.
Definition rank (a : A) : nat := length (filter (fun y => cmp y a < 0) xs).

Lemma filter_sub (P Q : A -> Prop) `{!forall x, Decision (P x)} `{!forall x, Decision (Q x)} (l : list A) :
  (forall x, x ∈ l -> P x -> Q x) -> filter P l = filter P (filter Q l).
Proof.
  intros Hsub. induction l as [|x l IH]; [done|]. rewrite !filter_cons. rewrite IH by (intros; apply Hsub; [by right|done]).
  pose proof (Hsub x (list_elem_of_here _ _)). destruct (decide (Q x)) as [HQ|HQ].
  - rewrite filter_cons. done.
  - rewrite decide_False by auto. done.
Qed.

Lemma rank_below a b : a ∈ xs -> b ∈ xs -> cmp a b <= 0 -> (rank a <= rank b)%nat.
Proof.
  intros Ha Hb Hab. unfold rank. rewrite (filter_sub _ (fun y => cmp y b < 0)); [apply length_filter|].
  intros y Hy Hya. pose proof (cmp_antisym y b Hy Hb). pose proof (cmp_antisym y a Hy Ha).
  pose proof (cmp_antisym a b Ha Hb). pose proof (cmp_trans a b y Ha Hb Hy).
  pose proof (cmp_trans y a b Hy Ha Hb). lia.
Qed.

Lemma rank_above a b : a ∈ xs -> b ∈ xs -> 0 < cmp a b -> (rank b < rank a)%nat.
Proof.
  intros Ha Hb Hab. pose proof (cmp_antisym a b Ha Hb) as Hba. pose proof (cmp_antisym b b Hb Hb) as Hbb. unfold rank.
  rewrite (filter_sub (fun y => cmp y b < 0) (fun y => cmp y a < 0)).
  - apply length_filter_lt with (x := b); [|lia]. apply list_elem_of_filter. split; [lia|done].
  - intros y Hy Hyb. pose proof (cmp_antisym y b Hy Hb). pose proof (cmp_antisym y a Hy Ha).
    pose proof (cmp_trans b a y Hb Ha Hy). pose proof (cmp_trans y b a Hy Hb Ha). lia.
Qed.

Lemma rank_le a b : a ∈ xs -> b ∈ xs -> cmp a b <= 0 <-> (rank a <= rank b)%nat.
Proof.
  intros Ha Hb. split; [by apply rank_below|]. intros Hr. destruct (Z.le_gt_cases (cmp a b) 0); [done|].
  pose proof (rank_above a b Ha Hb). lia.
Qed.
End rank.

Lemma StronglySorted_weaken {A} (R R' : A -> A -> Prop) s :
  (forall a b, a ∈ s -> b ∈ s -> R a b -> R' a b) -> StronglySorted R s -> StronglySorted R' s.
Proof.
  intros H Hs. induction Hs as [|a s Hs IH Hf]; constructor.
  - apply IH. intros x y Hx Hy. apply H; by right.
  - rewrite Forall_forall in Hf |- *. intros b Hb. apply H; [by left|by right|by apply Hf].
Qed.

(** The same for a comparison that orders the elements at hand. *)
Lemma top_n_cmp {A} (cmp : A -> A -> Z) (n : nat) (ls : list (list A)) (m : list A) :
  (forall a b, a ∈ mjoin ls -> b ∈ mjoin ls -> cmp b a = - cmp a b) ->
  (forall a b c, a ∈ mjoin ls -> b ∈ mjoin ls -> c ∈ mjoin ls -> cmp a b <= 0 -> cmp b c <= 0 -> cmp a c <= 0) ->
  Forall (StronglySorted (fun a b => cmp a b <= 0)) ls -> m ≡ₚ mjoin (take n <$> ls) ->
  StronglySorted (fun a b => cmp a b <= 0) m ->
  exists s, s ≡ₚ mjoin ls /\ StronglySorted (fun a b => cmp a b <= 0) s /\ take n s = take n m.
Proof.
  intros Ha Ht Hls Hm Hs. pose (rk := rank cmp (mjoin ls)).
  assert (forall a b, a ∈ mjoin ls -> b ∈ mjoin ls -> cmp a b <= 0 <-> (rk a <= rk b)%nat) as Hrk by (by apply rank_le).
  assert (RelDecision (fun a b : A => rk a <= rk b)%nat) by (intros a b; apply _).
  assert (forall x, x ∈ m -> x ∈ mjoin ls) as Hin.
  { intros x. rewrite Hm. intros (ans & Hx & (s & -> & Hin)%list_elem_of_fmap)%list_elem_of_join.
    apply list_elem_of_join. exists s. split; [by eapply subseteq_take|done]. }
  destruct (top_n (fun a b => rk a <= rk b)%nat) with (n := n) (ls := ls) (m := m) as (s & Hs1 & Hs2 & Hs3).
  - intros a b. lia.
  - intros a b c. lia.
  - rewrite Forall_forall in Hls |- *. intros s Hs'. eapply StronglySorted_weaken; [|by apply Hls].
    intros a b Hia Hib. apply Hrk; apply list_elem_of_join; eauto.
  - done.
  - eapply StronglySorted_weaken; [|exact Hs]. intros a b Hia Hib. apply Hrk; auto.
  - exists s. split_and!; [done| |done]. eapply StronglySorted_weaken; [|exact Hs2].
    intros a b. rewrite Hs1. intros Hia Hib. by apply Hrk.
Qed.

(** ** ORDER BY *)
Section order.
Context {V T : Type} `{VV : Values V, AR : Arith V T, GS : GoSort V, GO : !GoSortOk V}.
Abbreviation row := (list V).
Abbreviation Res := (Result V (Field T)).

(** A column and its direction. *)
Definition okey : Type := Z * Direction.
Definition dir (d : Direction) (c : Z) : Z := match d with DESC => - c | ASC => c end.

Fixpoint ocmp (ks : list okey) (a b : row) : Z :=
  match ks with
  | [] => 0
  | (i, d) :: ks =>
      let c := NullsafeCompare (getv a i) (getv b i) in
      if c =? 0 then ocmp ks a b else dir d c
  end.
Definition ord_le (ks : list okey) (a b : row) : Prop := ocmp ks a b <= 0.
#[export] Instance ord_le_dec ks : RelDecision (ord_le ks).
Proof. intros a b. unfold ord_le. apply _. Defined.

(** The values of a column; the columns of an order whose values the
    comparison orders. *)
Definition col_dom (rows : list row) (i : Z) : V -> Prop := fun v => exists x, x ∈ rows /\ v = getv x i.
Definition order_comparable (ks : list okey) (rows : list row) : Prop := Forall (fun k => lawful (col_dom rows k.1)) ks.

Lemma order_comparable_sub ks rows rows' :
  (forall x, x ∈ rows' -> x ∈ rows) -> order_comparable ks rows -> order_comparable ks rows'.
Proof.
  intros Hsub Hc. eapply Forall_impl; [exact Hc|]. intros k [H1 H2 H3 H4].
  assert (forall v, col_dom rows' k.1 v -> col_dom rows k.1 v) as Hd by (intros v (x & Hx & ->); exists x; auto).
  split; eauto.
Qed.

Lemma getv_dom rows x i : x ∈ rows -> col_dom rows i (getv x i).
Proof. by exists x. Qed.

Section laws.
Context (rows : list row).

Lemma ocmp_antisym ks a b : order_comparable ks rows -> a ∈ rows -> b ∈ rows -> ocmp ks b a = - ocmp ks a b.
Proof.
  intros Hk Ha Hb. induction Hk as [|[i d] ks HD Hk IH]; [done|]. cbn [ocmp].
  rewrite (law_antisym _ HD (getv a i)) by (by apply getv_dom).
  destruct (Z.eqb_spec (NullsafeCompare (getv a i) (getv b i)) 0) as [->|Hne]; [done|].
  destruct (Z.eqb_spec (- NullsafeCompare (getv a i) (getv b i)) 0); [lia|]. destruct d; simpl; lia.
Qed.

(** Strictly below and not above is strictly below. *)
Section cmp.
Context (D : V -> Prop) (HD : lawful D) (x y z : V) (Hx : D x) (Hy : D y) (Hz : D z).
Lemma cmp_lt_le : NullsafeCompare x y < 0 -> NullsafeCompare y z <= 0 -> NullsafeCompare x z < 0.
Proof.
  intros H1 H2. pose proof (law_trans D HD x y z Hx Hy Hz). pose proof (law_trans D HD y z x Hy Hz Hx).
  pose proof (law_antisym D HD x y Hx Hy). pose proof (law_antisym D HD x z Hx Hz). lia.
Qed.
Lemma cmp_le_lt : NullsafeCompare x y <= 0 -> NullsafeCompare y z < 0 -> NullsafeCompare x z < 0.
Proof.
  intros H1 H2. pose proof (law_trans D HD x y z Hx Hy Hz). pose proof (law_trans D HD z x y Hz Hx Hy).
  pose proof (law_antisym D HD y z Hy Hz). pose proof (law_antisym D HD x z Hx Hz). lia.
Qed.
Lemma cmp_eq_eq : NullsafeCompare x y = 0 -> NullsafeCompare y z = 0 -> NullsafeCompare x z = 0.
Proof.
  intros H1 H2. pose proof (law_trans D HD x y z Hx Hy Hz). pose proof (law_trans D HD z y x Hz Hy Hx).
  pose proof (law_antisym D HD x y Hx Hy). pose proof (law_antisym D HD y z Hy Hz). pose proof (law_antisym D HD x z Hx Hz). lia.
Qed.
End cmp.

Lemma ocmp_trans ks a b c :
  order_comparable ks rows -> a ∈ rows -> b ∈ rows -> c ∈ rows -> ocmp ks a b <= 0 -> ocmp ks b c <= 0 -> ocmp ks a c <= 0.
Proof.
  intros Hk Ha Hb Hc. induction Hk as [|[i d] ks HD Hk IH]; [done|]. cbn [ocmp]. cbn [fst] in HD.
  pose proof (getv_dom rows a i Ha) as Hx. pose proof (getv_dom rows b i Hb) as Hy. pose proof (getv_dom rows c i Hc) as Hz.
  set (x := getv a i) in *. set (y := getv b i) in *. set (z := getv c i) in *.
  pose proof (law_antisym _ HD x y Hx Hy). pose proof (law_antisym _ HD y z Hy Hz). pose proof (law_antisym _ HD x z Hx Hz).
  pose proof (cmp_lt_le _ HD x y z Hx Hy Hz). pose proof (cmp_le_lt _ HD x y z Hx Hy Hz). pose proof (cmp_eq_eq _ HD x y z Hx Hy Hz).
  pose proof (cmp_lt_le _ HD z y x Hz Hy Hx). pose proof (cmp_le_lt _ HD z y x Hz Hy Hx).
  destruct (Z.eqb_spec (NullsafeCompare x y) 0), (Z.eqb_spec (NullsafeCompare y z) 0),
    (Z.eqb_spec (NullsafeCompare x z) 0), d; unfold dir; intros; try done; try lia; auto.
Qed.
End laws.

(** The columns the ORDER BY fields name. *)
Fixpoint resolve (fields : list (Field T)) (os : list OrderBy) : option (list okey) :=
  match os with
  | [] => Some []
  | o :: os => i ← order_index fields o 0; ks ← resolve fields os; Some ((i, obDirection o) :: ks)
  end.

Lemma order_index_range (fields : list (Field T)) o k i :
  order_index fields o k = Some i -> k <= i < k + Z.of_nat (length fields).
Proof.
  revert k. induction fields as [|f fs IH]; intros k H; [done|]. cbn [order_index] in H. cbn [length].
  case_match; [injection H as <-; lia|]. apply IH in H. lia.
Qed.

Lemma order_less_pure (fields : list (Field T)) os ks a b :
  resolve fields os = Some ks -> length a = length fields -> length b = length fields ->
  order_less fields os a b = Ok (ocmp ks a b <=? 0).
Proof.
  revert ks. induction os as [|o os IH]; intros ks Hr Ha Hb; cbn in Hr; [by injection Hr as <-|].
  destruct (order_index fields o 0) as [i|] eqn:Hi; simpl in Hr; [|done].
  destruct (resolve fields os) as [ks'|]; simpl in Hr; [|done]. injection Hr as <-.
  cbn [order_less ocmp]. rewrite Hi. apply order_index_range in Hi.
  rewrite (at_getv a (Z.of_nat (length fields)) i), (at_getv b (Z.of_nat (length fields)) i)
    by (rewrite ?Ha, ?Hb; unfold inb; lia).
  cbn [mbind res_bind]. destruct (Z.eqb_spec (NullsafeCompare (getv a i) (getv b i)) 0); [by apply IH|].
  f_equal. destruct (obDirection o); unfold dir; bcase; lia.
Qed.

Definition fields_ok (r : Res) : Prop := Forall (fun x => length x = length (Fields r)) (jRows (resRows r)).

Lemma order_sort (fields : list (Field T)) os ks rows :
  resolve fields os = Some ks -> Forall (fun x => length x = length fields) rows -> order_comparable ks rows ->
  exists ys, sort_Slice (order_less fields os) rows = Ok ys /\ ys ≡ₚ rows /\ StronglySorted (ord_le ks) ys.
Proof.
  intros Hr Hrows Hc. rewrite Forall_forall in Hrows. apply (sort_by_cmp _ (ocmp ks)).
  - intros. apply order_less_pure; auto.
  - intros. by apply (ocmp_antisym rows).
  - intros a b c. by apply (ocmp_trans rows).
Qed.

Definition strip (idxs : list Z) (x : row) : row := match idxs with [] => x | _ => remove_idxs idxs x end.

Lemma RemoveColumns_rows idxs (r : Res) : jRows (resRows (RemoveColumns idxs r)) = strip idxs <$> jRows (resRows r).
Proof. destruct idxs; simpl; [by rewrite list_fmap_id|done]. Qed.

Lemma orderby_spec plan (r : Res) ks :
  resolve (Fields r) (opOrderBys plan) = Some ks -> fields_ok r -> order_comparable ks (jRows (resRows r)) ->
  exists ys r', orderby_Execute plan r = Ok r' /\ ys ≡ₚ jRows (resRows r) /\ StronglySorted (ord_le ks) ys /\
    jRows (resRows r') = strip (opRemovedIdxs plan) <$> ys.
Proof.
  intros Hk Hf Hc. unfold orderby_Execute. destruct (order_sort _ _ _ _ Hk Hf Hc) as (ys & -> & Hp & Hs).
  exists ys. eexists. split; [reflexivity|]. split_and!; [done..|]. by rewrite RemoveColumns_rows.
Qed.

(** ** LIMIT *)
Lemma Result_Limit_spec offset limit (rows : list row) :
  0 <= offset -> 0 <= limit -> offset + limit < 2 ^ 63 ->
  Result_Limit offset limit rows = Ok (take (Z.to_nat limit) (drop (Z.to_nat offset) rows)).
Proof.
  intros Ho Hl Hs. unfold Result_Limit. rewrite swrap_id by lia.
  destruct (Z.ltb_spec (Z.min offset (Z.of_nat (length rows))) 0); [lia|].
  destruct (Z.ltb_spec (Z.min (offset + limit) (Z.of_nat (length rows))) (Z.min offset (Z.of_nat (length rows)))); [lia|].
  simpl. f_equal. destruct (decide (offset <= Z.of_nat (length rows))) as [Hle|Hgt].
  - rewrite (Z.min_l offset) by lia. destruct (decide (offset + limit <= Z.of_nat (length rows))).
    + rewrite Z.min_l by lia. f_equal. lia.
    + rewrite Z.min_r by lia. rewrite !take_ge; [done|rewrite length_drop; lia..].
  - rewrite (Z.min_r offset), (Z.min_r (offset + limit)), !Nat2Z.id by lia.
    rewrite !drop_ge by lia. by rewrite !take_nil.
Qed.

Lemma take_drop_top (n m : nat) {A} (l : list A) : take m (drop n l) = drop n (take (n + m) l).
Proof. rewrite take_drop_commute. done. Qed.

(** What a server answers to the query with ORDER BY [ks] and LIMIT [n]. *)
Definition top_rows (ks : list okey) (n : nat) (rows answer : list row) : Prop :=
  exists s, s ≡ₚ rows /\ StronglySorted (ord_le ks) s /\ answer = take n s.

Lemma top_rows_sorted ks n shards answers :
  Forall2 (top_rows ks n) shards answers ->
  exists ss, Forall2 (≡ₚ) ss shards /\ Forall (StronglySorted (ord_le ks)) ss /\ answers = take n <$> ss.
Proof.
  induction 1 as [|rows ans shards answers (s & Hp & Hs & ->) _ (ss & H1 & H2 & ->)]; [by exists []|].
  exists (s :: ss). by split_and!; try constructor.
Qed.

Lemma mjoin_perm {A} (xs ys : list (list A)) : Forall2 (≡ₚ) xs ys -> mjoin xs ≡ₚ mjoin ys.
Proof. induction 1 as [|x y xs ys Hxy _ IH]; [done|]. cbn. by rewrite Hxy, IH. Qed.

Lemma order_limit ob lp (r : Res) ks n shards answers :
  resolve (Fields r) (opOrderBys ob) = Some ks ->
  Forall2 (top_rows ks n) shards answers -> jRows (resRows r) ≡ₚ mjoin answers ->
  Forall (Forall (fun x => length x = length (Fields r))) shards -> order_comparable ks (mjoin shards) ->
  0 <= lpOffset lp -> 0 <= lpLimit lp -> lpOffset lp + lpLimit lp < 2 ^ 63 ->
  Z.of_nat n = lpOffset lp + lpLimit lp ->
  exists s r', ExecSubPlan [ChildOrderby ob; ChildLimit lp] r = Ok r' /\
    s ≡ₚ mjoin shards /\ StronglySorted (ord_le ks) s /\
    jRows (resRows r') = strip (opRemovedIdxs ob) <$> take (Z.to_nat (lpLimit lp)) (drop (Z.to_nat (lpOffset lp)) s).
Proof.
  intros Hk Hans Hrows Hw Hcomp Ho Hl Hsum Hn. destruct (top_rows_sorted _ _ _ _ Hans) as (ss & Hss & Hsort & ->).
  pose proof (mjoin_perm _ _ Hss) as Hall.
  assert (forall x, x ∈ mjoin ss -> x ∈ mjoin shards) as Hin by (intros x; by rewrite Hall).
  assert (order_comparable ks (mjoin ss)) as Hcs by (by eapply order_comparable_sub).
  assert (forall x, x ∈ jRows (resRows r) -> x ∈ mjoin ss) as Hrin.
  { intros x. rewrite Hrows. intros (ans & Hx & (s & -> & Hs)%list_elem_of_fmap)%list_elem_of_join.
    apply list_elem_of_join. exists s. split; [by eapply subseteq_take|done]. }
  assert (fields_ok r) as Hf.
  { apply Forall_forall. intros x (sh & Hx & Hsh)%Hrin%Hin%list_elem_of_join. rewrite Forall_forall in Hw.
    specialize (Hw _ Hsh). rewrite Forall_forall in Hw. by apply Hw. }
  destruct (orderby_spec ob r ks Hk Hf) as (m & r1 & Hr1 & Hm & Hms & Hrows1); [by eapply order_comparable_sub|].
  destruct (top_n_cmp (ocmp ks) n ss m) as (s & Hs1 & Hs2 & Hs3); [..|done|by rewrite Hm|done|].
  { intros a b. by apply (ocmp_antisym (mjoin ss)). }
  { intros a b c. by apply (ocmp_trans (mjoin ss)). }
  exists s. eexists. split_and!; [|by rewrite Hs1, Hall|done|].
  - unfold ExecSubPlan. cbn [res_fold]. rewrite Hr1. cbn [mbind res_bind]. unfold limit_Execute.
    rewrite Result_Limit_spec by done. cbn [mbind res_bind]. reflexivity.
  - cbn. rewrite Hrows1, <- fmap_drop, <- fmap_take. f_equal. rewrite !take_drop_top.
    replace (Z.to_nat (lpOffset lp) + Z.to_nat (lpLimit lp))%nat with n by lia. by rewrite Hs3.
Qed.
End order.

(** C11: ORDER BY with LIMIT over shards: when the values of every sorted
    column are ordered by the comparison (columns of one type) and every shard
    answers with the first rows of its own sorted rows, as many as the
    rewritten limit of [LimitPlan.Build] asks for, the sort and the limit in
    the proxy return the rows [offset .. offset+limit) of all rows in a sorted
    order, the columns added for sorting removed; no row is lost to the limit
    that was pushed down. *)
Theorem limit_pushdown {V T} `{VV : Values V, AR : Arith V T, GS : GoSort V, GO : !GoSortOk V}
    node lp ob (r : Result V (Field T)) ks sent shards answers :
  LimitPlan_Build (Some node) = Ok lp -> 0 <= lpOffset lp -> 0 <= lpLimit lp -> lpOffset lp + lpLimit lp < 2 ^ 63 ->
  lpReWritten lp = Some sent ->
  resolve (Fields r) (opOrderBys ob) = Some ks ->
  Forall2 (top_rows ks (Z.to_nat (default 0 (Atoi sent)))) shards answers ->
  jRows (resRows r) ≡ₚ mjoin answers ->
  Forall (Forall (fun x => length x = length (Fields r))) shards -> order_comparable ks (mjoin shards) ->
  exists s r', ExecSubPlan [ChildOrderby ob; ChildLimit lp] r = Ok r' /\
    s ≡ₚ mjoin shards /\ StronglySorted (ord_le ks) s /\
    jRows (resRows r') = strip (opRemovedIdxs ob) <$> take (Z.to_nat (lpLimit lp)) (drop (Z.to_nat (lpOffset lp)) s).
Proof.
  intros Hb Ho Hl Hs Hsent Hk Ha Hr Hw Hc. eapply order_limit; [done|exact Ha|done..|].
  assert (sent = Itoa (swrap 64 (lpOffset lp + lpLimit lp))) as ->.
  { unfold LimitPlan_Build in Hb. destruct (LimitPlan_analyze node); [|done].
    destruct (limit_val (liOffset node)); simpl in Hb; [|done..]. destruct (limit_val (liRowcount node)); simpl in Hb; [|done..].
    injection Hb as <-. simpl in Hsent. by injection Hsent as <-. }
  rewrite swrap_id by lia. rewrite Atoi_Itoa by lia. simpl. lia.
Qed.

(** The sum of offset and limit is a machine integer: [LIMIT 1, 9223372036854775807]
    is accepted, sends a negative limit to the shards, and panics in the
    operator whatever the rows are. *)
Theorem limit_overflow {V} (rows : list (list V)) :
  exists lp, LimitPlan_Build (Some (mkLimit (Some (SQLValE (mkSQLVal IntVal "1")))
      (Some (SQLValE (mkSQLVal IntVal "9223372036854775807"))))) = Ok lp /\
    lpReWritten lp = Some "-9223372036854775808" /\
    Result_Limit (lpOffset lp) (lpLimit lp) rows = Panic.
Proof.
  eexists. split; [vm_compute; reflexivity|]. split; [reflexivity|]. cbn [lpOffset lpLimit].
  unfold Result_Limit. replace (swrap 64 (1 + 9223372036854775807)) with (-9223372036854775808) by (vm_compute; reflexivity).
  destruct (Z.ltb_spec (Z.min (-9223372036854775808) (Z.of_nat (length rows))) (Z.min 1 (Z.of_nat (length rows)))); [|lia].
  by rewrite orb_true_r.
Qed.

(** ** Aggregation *)
Section aggregate.
Context {V T : Type} `{VV : Values V, ZN : !ZeroNull V, AR : Arith V T, GS : GoSort V, GO : !GoSortOk V}.
Abbreviation row := (list V).
Abbreviation Res := (Result V (Field T)).
Abbreviation Aggr := (Aggregation (T := T)).

(** The contexts of an aggregation on rows that have its column. *)
Definition init_ctx (a : Aggr) (x : row) : EvalCtx :=
  let v := getv x (agrIndex a) in
  if negb (agrIsPushDown a) && negb (IsNull v)
  then mkEvalCtx 1 v false (if agrDistinct a then [Raw v] else []) else mkEvalCtx 0 v false [].

Definition update_ctx (a : Aggr) (c : EvalCtx) (x : row) : EvalCtx :=
  let v := getv x (agrIndex a) in
  if ecErr c || IsNull v then c
  else if negb (agrIsPushDown a) && agrDistinct a then
    if bool_decide (Raw v ∈ ecBuffer c) then c
    else update_val a v (mkEvalCtx (ecCount c) (ecVal c) (ecErr c) (Raw v :: ecBuffer c))
  else update_val a v c.

(** The context of a group: its first row, then the others in order. *)
Definition group_ctx (a : Aggr) (g : row * list row) : EvalCtx := foldl (update_ctx a) (init_ctx a g.1) g.2.

Definition rows_of (g : row * list row) : list row := g.1 :: g.2.
Definition run_group (aggrs : list Aggr) (g : row * list row) : group := mkGroup g.1 ((fun a => group_ctx a g) <$> aggrs).

Section width.
Variables (w : Z) (keys : list Z) (aggrs : list Aggr).
Hypothesis Hkeys : Forall (inb w) keys.
Hypothesis Haggrs : Forall (fun a => inb w (agrIndex a)) aggrs.
Abbreviation wide := (fun x : row => Z.of_nat (length x) = w).

Lemma init_pure a x : inb w (agrIndex a) -> wide x -> InitEvalCtx a (Some x) = Ok (init_ctx a x).
Proof.
  intros Ha Hx. unfold InitEvalCtx, init_ctx. rewrite (at_getv x w) by done. simpl. by case_match.
Qed.

Lemma inits_pure x : wide x -> res_map (fun a => InitEvalCtx a (Some x)) aggrs = Ok ((fun a => init_ctx a x) <$> aggrs).
Proof.
  intros Hx. apply res_map_Ok. clear Hkeys. revert Haggrs. induction aggrs as [|a aggrs' IH]; [constructor|].
  intros [Ha Ha']%Forall_cons. constructor; [by apply init_pure|by apply IH].
Qed.

Lemma update_pure a x c : inb w (agrIndex a) -> wide x -> Update_ a x c = Ok (update_ctx a c x).
Proof.
  intros Ha Hx. unfold Update_, update_ctx. destruct (ecErr c) eqn:He; [done|].
  rewrite (at_getv x w) by done. simpl. repeat case_match; try done; by rewrite He.
Qed.

Lemma updates_pure x (ctx : Aggr -> EvalCtx) :
  wide x -> update_all aggrs x (ctx <$> aggrs) = Ok ((fun a => update_ctx a (ctx a) x) <$> aggrs).
Proof.
  intros Hx. clear Hkeys. revert Haggrs. induction aggrs as [|a aggrs' IH]; [done|].
  intros [Ha Ha']%Forall_cons. rewrite !fmap_cons. cbn [update_all].
  rewrite (update_pure a x) by done. cbn [mbind res_bind]. by rewrite IH.
Qed.

Lemma last_run gs g : last (run_group aggrs <$> gs ++ [g]) = Some (run_group aggrs g).
Proof. rewrite fmap_app. apply last_snoc. Qed.

(** One row of a sorted list joins the last group or starts the next. *)
Lemma group_row_pure gs g x :
  wide g.1 -> wide x ->
  group_row keys aggrs (run_group aggrs <$> gs ++ [g]) x =
    Ok (run_group aggrs <$> if vcmp (kv keys g.1) (kv keys x) =? 0 then gs ++ [(g.1, g.2 ++ [x])] else (gs ++ [g]) ++ [(x, [])]).
Proof.
  intros Hg Hx. unfold group_row. rewrite last_run. cbn [gRow gCtxs run_group].
  rewrite (keysEqual_pure w) by done. cbn [mbind res_bind]. destruct (vcmp _ _ =? 0).
  - rewrite updates_pure by done. cbn [mbind res_bind]. f_equal.
    rewrite !fmap_app, length_app, length_fmap. simpl. rewrite Nat.add_1_r. simpl.
    rewrite insert_app_r_alt by (rewrite length_fmap; lia). rewrite length_fmap, Nat.sub_diag. simpl. do 2 f_equal.
    unfold run_group. simpl. f_equal. unfold group_ctx. apply list_fmap_ext. intros i a _. simpl.
    by rewrite foldl_app.
  - rewrite inits_pure by done. cbn [mbind res_bind]. by rewrite (fmap_app _ (gs ++ [g])).
Qed.

(** The groups of a sorted list. *)
Record grouped (gs : list (row * list row)) : Prop := {
  gd_same : Forall (fun g => Forall (fun y => vcmp (kv keys g.1) (kv keys y) = 0) g.2) gs;
  gd_strict : StronglySorted (fun g h => vcmp (kv keys g.1) (kv keys h.1) < 0) gs
}.

Lemma grouped_join gs g x :
  grouped (gs ++ [g]) -> vcmp (kv keys g.1) (kv keys x) = 0 -> grouped (gs ++ [(g.1, g.2 ++ [x])]).
Proof.
  intros [Hs Ho] Hx. apply Forall_app in Hs as [Hs1 Hs2]. apply Forall_cons in Hs2 as [Hs2 _].
  apply StronglySorted_app in Ho as (Ho1 & Ho2 & _). split.
  - apply Forall_app. split; [done|]. apply Forall_cons. split; [|done]. simpl. apply Forall_app. by split; [|constructor].
  - apply StronglySorted_app. split_and!; [|done|repeat constructor].
    intros a b Ha ->%list_elem_of_singleton. simpl. apply (Ho1 a g); [done|by left].
Qed.

Lemma grouped_next doms gs g x :
  Forall lawful doms -> keyed doms keys (x :: (fst <$> gs ++ [g])) ->
  grouped (gs ++ [g]) -> vcmp (kv keys g.1) (kv keys x) < 0 -> grouped ((gs ++ [g]) ++ [(x, [])]).
Proof.
  intros Hd [Hkx Hkd]%Forall_cons [Hs Ho] Hx. rewrite Forall_fmap, Forall_forall in Hkd. split.
  - apply Forall_app. split; [done|]. repeat constructor.
  - apply StronglySorted_app. split_and!; [|done|repeat constructor].
    intros a b [Ha| ->%list_elem_of_singleton]%elem_of_app ->%list_elem_of_singleton; simpl; [|done].
    apply StronglySorted_app in Ho as (Ho1 & _ & _).
    assert (vcmp (kv keys a.1) (kv keys g.1) < 0) by (apply Ho1; [done|by left]).
    apply (vcmp_lt_le doms Hd _ (kv keys g.1)); [apply Hkd, elem_of_app; by left| |done|done|lia].
    apply Hkd, elem_of_app. right. by left.
Qed.

Lemma firsts_in (gs : list (row * list row)) x : x ∈ fst <$> gs -> x ∈ mjoin (rows_of <$> gs).
Proof.
  intros (g & -> & Hg)%list_elem_of_fmap. apply list_elem_of_join. exists (rows_of g).
  split; [by left|]. by apply list_elem_of_fmap_2.
Qed.

Lemma groups_loop doms xs : Forall lawful doms -> forall gs g,
  keyed doms keys (mjoin (rows_of <$> gs ++ [g]) ++ xs) ->
  Forall wide (rows_of g) -> Forall wide xs ->
  StronglySorted (key_le keys) (mjoin (rows_of <$> gs ++ [g]) ++ xs) -> grouped (gs ++ [g]) ->
  exists gs', res_fold (group_row keys aggrs) (run_group aggrs <$> gs ++ [g]) xs = Ok (run_group aggrs <$> gs') /\
    grouped gs' /\ mjoin (rows_of <$> gs') = mjoin (rows_of <$> gs ++ [g]) ++ xs.
Proof.
  intros Hd. induction xs as [|x xs IH]; intros gs g Hkd Hg Hxs Hs Hgr; [exists (gs ++ [g]); by rewrite app_nil_r|].
  apply Forall_cons in Hxs as [Hx Hxs]. cbn [res_fold].
  pose proof Hg as [Hg1 Hg2]%Forall_cons. rewrite group_row_pure by done. cbn [mbind res_bind].
  assert (vcmp (kv keys g.1) (kv keys x) <= 0) as Hle.
  { eapply (StronglySorted_app_1_elem_of (key_le keys)); [exact Hs| |by left].
    rewrite fmap_app, join_app. apply elem_of_app. right. cbn. by left. }
  assert (forall l, mjoin (rows_of <$> gs ++ [(g.1, g.2 ++ [x])]) ++ l = mjoin (rows_of <$> gs ++ [g]) ++ x :: l) as Hj.
  { intros l. rewrite !fmap_app, !join_app. cbn. rewrite !app_nil_r, <- !app_assoc. cbn. by rewrite <- app_assoc. }
  destruct (Z.eqb_spec (vcmp (kv keys g.1) (kv keys x)) 0).
  - destruct (IH gs (g.1, g.2 ++ [x])) as (gs' & H1 & H2 & H3); [by rewrite Hj| |done|by rewrite Hj|by apply grouped_join|].
    + unfold rows_of in *. simpl. rewrite app_comm_cons. apply Forall_app. by split; [|constructor].
    + exists gs'. by rewrite H3, Hj.
  - assert (mjoin (rows_of <$> (gs ++ [g]) ++ [(x, [])]) ++ xs = mjoin (rows_of <$> gs ++ [g]) ++ x :: xs) as Hj'.
    { rewrite (fmap_app _ (gs ++ [g])), join_app. cbn. by rewrite <- app_assoc. }
    assert (keyed doms keys (x :: (fst <$> gs ++ [g]))) as Hkx.
    { unfold keyed in *. apply Forall_app in Hkd as [Hkd1 [Hkx _]%Forall_cons]. apply Forall_cons. split; [done|].
      rewrite Forall_forall in Hkd1 |- *. intros y Hy. by apply Hkd1, firsts_in. }
    destruct (IH (gs ++ [g]) (x, [])) as (gs' & H1 & H2 & H3);
      [by rewrite Hj'|by constructor|done|by rewrite Hj'|apply (grouped_next doms); [done..|lia]|].
    + exists gs'. split_and!; [done|done|]. rewrite H3, (fmap_app _ (gs ++ [g])), join_app. cbn. by rewrite <- app_assoc.
Qed.

Lemma groups_spec doms ys :
  Forall lawful doms -> keyed doms keys ys -> Forall wide ys -> StronglySorted (key_le keys) ys ->
  exists gs, res_fold (group_row keys aggrs) [] ys = Ok (run_group aggrs <$> gs) /\ grouped gs /\ mjoin (rows_of <$> gs) = ys.
Proof.
  intros Hd Hkd Hw Hs. destruct ys as [|y ys]; [exists []; split_and!; [done|split; constructor|done]|].
  apply Forall_cons in Hw as [Hy Hw]. cbn [res_fold]. unfold group_row at 2. cbn [last].
  rewrite inits_pure by done. cbn [mbind res_bind app].
  destruct (groups_loop doms ys Hd [] (y, [])) as (gs & H1 & H2 & H3); [done|by constructor|done|done|split; repeat constructor|].
  by exists gs.
Qed.

(** A pushed-down AVG: its value comes from the sum and the count that follow
    it, and the column of the count is removed in the end. *)
Definition pushed_avg (a : Aggr) : bool := agrIsPushDown a && bool_decide (agrAggrTyp a = AggrTypeAvg).

(** A row with the results of the contexts [ctx] stored in it. *)
Fixpoint store (ctx : Aggr -> EvalCtx) (l : list Aggr) (x : row) : row :=
  match l with
  | [] => x
  | a :: l =>
      if pushed_avg a then
        match l with
        | sum :: count :: l =>
            let v := default (zero_of (agrType a)) (NullsafeDiv (agrType a) (ecVal (ctx sum)) (ecVal (ctx count))) in
            store ctx l (<[Z.to_nat (agrIndex a) := v]> x)
        | _ => x
        end
      else store ctx l (<[Z.to_nat (agrIndex a) := GetResult a (ctx a)]> x)
  end.

(** The columns that are removed. *)
Fixpoint removed (l : list Aggr) : list Z :=
  match l with
  | [] => []
  | a :: l =>
      if pushed_avg a then match l with _ :: _ :: l => agrIndex a + 1 :: removed l | _ => [] end
      else removed l
  end.

(** Every pushed-down AVG is followed by its sum and its count. *)
Fixpoint avgs_ok (l : list Aggr) : bool :=
  match l with
  | [] => true
  | a :: l => if pushed_avg a then match l with _ :: _ :: l => avgs_ok l | _ => false end else avgs_ok l
  end.

(** The row of a group: its first row with the results stored in it. *)
Definition group_out (g : row * list row) : row := store (fun a => group_ctx a g) aggrs g.1.

(** The row of no rows: NULLs with the results of empty aggregations. *)
Definition empty_ctx : EvalCtx := mkEvalCtx 0 vnull false [].
Definition empty_out : row := store (fun _ => empty_ctx) aggrs (replicate (Z.to_nat w) vnull).

Lemma set_at_pure x i v : wide x -> inb w i -> set_at x i v = Ok (<[Z.to_nat i := v]> x).
Proof.
  intros Hx [H1 H2]. cbv beta in Hx. unfold set_at. destruct (Z.ltb_spec i 0); [lia|].
  destruct (Z.leb_spec (Z.of_nat (length x)) i); [lia|]. done.
Qed.

Hypothesis Havgs : avgs_ok aggrs = true.

Lemma GetResults_list (ctx : Aggr -> EvalCtx) n : forall l x,
  (length l <= n)%nat -> Forall (fun a => inb w (agrIndex a)) l -> avgs_ok l = true -> wide x ->
  GetResults l (ctx <$> l) x = Ok (store ctx l x, removed l).
Proof.
  induction n as [|n IH]; intros [|a l] x Hn Hin Hav Hx; simpl in Hn; try done; [lia|].
  apply Forall_cons in Hin as [Ha Hin]. rewrite fmap_cons. cbn [GetResults store removed avgs_ok] in *.
  fold (pushed_avg a). destruct (pushed_avg a).
  - destruct l as [|s [|c l]]; [done..|]. apply Forall_cons in Hin as [_ [_ Hin]%Forall_cons]. rewrite !fmap_cons.
    rewrite set_at_pure by done. cbn [mbind res_bind]. rewrite IH; [done|simpl in Hn; lia|done|done|by rewrite length_insert].
  - rewrite set_at_pure by done. cbn [mbind res_bind]. apply IH; [lia|done|done|by rewrite length_insert].
Qed.

Lemma GetResults_pure (ctx : Aggr -> EvalCtx) x :
  wide x -> GetResults aggrs (ctx <$> aggrs) x = Ok (store ctx aggrs x, removed aggrs).
Proof. by apply (GetResults_list ctx (length aggrs)). Qed.

Lemma outs_spec gs :
  Forall wide (mjoin (rows_of <$> gs)) ->
  res_map (fun g => GetResults aggrs (gCtxs g) (gRow g)) (run_group aggrs <$> gs) = Ok ((fun g => (group_out g, removed aggrs)) <$> gs).
Proof.
  intros Hw. apply res_map_Ok. induction gs as [|g gs IH]; [constructor|]. cbn in Hw. apply Forall_cons in Hw as [Hg Hw].
  apply Forall_app in Hw as [_ Hw]. rewrite !fmap_cons. constructor; [|by apply IH].
  cbn. by rewrite GetResults_pure.
Qed.

Lemma empties_spec :
  0 <= w ->
  res_map (fun a => InitEvalCtx a None) aggrs = Ok ((fun _ => empty_ctx) <$> aggrs) /\
  GetResults aggrs ((fun _ => empty_ctx) <$> aggrs) (replicate (Z.to_nat w) vnull) = Ok (empty_out, removed aggrs).
Proof.
  intros Hw. split.
  - apply res_map_Ok. clear Hkeys Haggrs Havgs. induction aggrs as [|a l IH]; [constructor|]. rewrite fmap_cons. constructor; [|done].
    unfold InitEvalCtx. cbn. by rewrite vnull_IsNull, andb_false_r.
  - rewrite GetResults_pure; [done|]. rewrite length_replicate. lia.
Qed.
End width.

(** ** The operator *)

(** The aggregations made for a plan. *)
Definition aggrs_for (plan : AggregatePlan) (aggrs : list Aggr) : Prop :=
  Forall2 (fun p a => agrIndex a = agIndex p /\ agrAggrTyp a = agType p /\
             agrDistinct a = agDistinct p /\ agrIsPushDown a = apIsPushDown plan) (apNormal plan) aggrs.

Lemma make_aggrs (pushdown : bool) (w : nat) ps : forall aggrs0 (fields : list (Field T)),
  length fields = w -> Forall (fun p => inb (Z.of_nat w) (agIndex p)) ps ->
  exists aggrs fields', res_fold (make_aggr pushdown) (aggrs0, fields) ps = Ok (aggrs0 ++ aggrs, fields') /\
    length fields' = w /\
    Forall2 (fun p a => agrIndex a = agIndex p /\ agrAggrTyp a = agType p /\
             agrDistinct a = agDistinct p /\ agrIsPushDown a = pushdown) ps aggrs.
Proof.
  induction ps as [|p ps IH]; intros aggrs0 fields Hw Hps; [exists [], fields; by rewrite app_nil_r|].
  apply Forall_cons in Hps as [[Hp1 Hp2] Hps]. cbn [res_fold]. unfold make_aggr at 2, field_at. cbn [fst snd].
  destruct (Z.ltb_spec (agIndex p) 0); [lia|].
  destruct (lookup_lt_is_Some_2 fields (Z.to_nat (agIndex p))) as [f Hf]; [lia|]. rewrite Hf. cbn [mbind res_bind].
  edestruct IH as (aggrs & fields' & H1 & H2 & H3); [by rewrite length_insert|exact Hps|].
  eexists (_ :: aggrs), fields'. rewrite H1, <- app_assoc. split_and!; [done|done|]. by constructor.
Qed.

(** In the aggregations of a plan every pushed-down AVG is followed by its sum
    and its count, as the planner puts them there. *)
Fixpoint plan_avgs (pushdown : bool) (ps : list Aggregator) : bool :=
  match ps with
  | [] => true
  | p :: ps =>
      if pushdown && bool_decide (agType p = AggrTypeAvg)
      then match ps with _ :: _ :: ps => plan_avgs pushdown ps | _ => false end else plan_avgs pushdown ps
  end.

(** The plan aggregates or groups something, and its columns exist. *)
Record plan_ok (w : Z) (plan : AggregatePlan) : Prop := {
  po_nonempty : Empty_ plan = false;
  po_normal : Forall (fun p => inb w (agIndex p)) (apNormal plan);
  po_group : Forall (fun p => inb w (agIndex p)) (apGroup plan);
  po_avg : plan_avgs (apIsPushDown plan) (apNormal plan) = true
}.

Lemma plan_avgs_ok pushdown n : forall ps (aggrs : list Aggr),
  (length ps <= n)%nat -> plan_avgs pushdown ps = true ->
  Forall2 (fun p a => agrIndex a = agIndex p /\ agrAggrTyp a = agType p /\
             agrDistinct a = agDistinct p /\ agrIsPushDown a = pushdown) ps aggrs ->
  avgs_ok aggrs = true.
Proof.
  induction n as [|n IH]; intros ps aggrs Hn Hp Hf; destruct Hf as [|p a ps aggrs (_ & Hty & _ & Hpd) Hf]; simpl in Hn; try done; [lia|].
  cbn [plan_avgs avgs_ok] in *. unfold pushed_avg. rewrite Hty, Hpd. destruct (pushdown && _).
  - destruct Hf as [|? ? ? ? _ [|? ? ps' aggrs' _ Hf]]; [done..|]. apply (IH ps'); [simpl in Hn; lia|done|done].
  - apply (IH ps); [lia|done|done].
Qed.

Lemma aggrs_plain plan w aggrs :
  plan_ok w plan -> aggrs_for plan aggrs -> Forall (fun a => inb w (agrIndex a)) aggrs /\ avgs_ok aggrs = true.
Proof.
  intros [_ Hn _ Ha] Hf. split; [|by eapply plan_avgs_ok].
  unfold aggrs_for in Hf. rewrite Forall_lookup in Hn. apply Forall_lookup. intros i a Hi.
  destruct (Forall2_lookup_r _ _ _ _ _ Hf Hi) as (p & Hp & -> & _). by eapply Hn.
Qed.

Definition group_keys (plan : AggregatePlan) : list Z := agIndex <$> apGroup plan.

(** The values of every grouping column are ordered by the comparison. *)
Definition groups_comparable (plan : AggregatePlan) (rows : list row) : Prop :=
  Forall lawful (col_dom rows <$> group_keys plan).

Lemma group_keyed keys (rows : list row) : keyed (col_dom rows <$> keys) keys rows.
Proof.
  apply Forall_forall. intros x Hx. unfold kin, kv. induction keys as [|k keys IH]; [constructor|].
  constructor; [by apply getv_dom|exact IH].
Qed.

(** The rows the groups become, the columns of the counts of pushed-down AVGs
    removed; without any row, one row of empty results when something is
    aggregated. *)
Definition agg_rows (w : Z) (aggrs : list Aggr) (gs : list (row * list row)) : list row :=
  strip (removed aggrs) <$> match gs, aggrs with [], _ :: _ => [empty_out w aggrs] | _, _ => group_out aggrs <$> gs end.

Lemma sort_for plan w (rows : list row) :
  plan_ok w plan -> rows_ok w rows -> groups_comparable plan rows ->
  exists ys, match group_keys plan with [] => Ok rows | _ => sort_Slice (key_less (group_keys plan)) rows end = Ok ys /\
    ys ≡ₚ rows /\ StronglySorted (key_le (group_keys plan)) ys.
Proof.
  intros [_ _ Hg _] Hr Hcomp. destruct (group_keys plan) as [|k ks] eqn:Hk.
  - exists rows. split_and!; [done|done|]. clear Hr Hcomp. induction rows as [|x rows IH]; constructor; [done|].
    apply Forall_forall. intros y _. unfold key_le. simpl. lia.
  - rewrite <- Hk. apply (sort_rows _ w _ _ Hcomp); [apply group_keyed| |done]. unfold group_keys. by rewrite Forall_fmap.
Qed.

Lemma aggregate_spec plan (r : Res) :
  plan_ok (Z.of_nat (length (Fields r))) plan -> fields_ok r -> groups_comparable plan (jRows (resRows r)) ->
  exists aggrs ys gs r', aggregate plan r = Ok r' /\ aggrs_for plan aggrs /\
    ys ≡ₚ jRows (resRows r) /\ mjoin (rows_of <$> gs) = ys /\ grouped (group_keys plan) gs /\
    jRows (resRows r') = agg_rows (Z.of_nat (length (Fields r))) aggrs gs.
Proof.
  set (w := Z.of_nat (length (Fields r))). intros Hp Hf Hcomp.
  assert (rows_ok w (jRows (resRows r))) as Hr.
  { eapply Forall_impl; [exact Hf|]. simpl. intros x ->. done. }
  destruct (sort_for plan w _ Hp Hr Hcomp) as (ys & Hsort & Hperm & Hsorted).
  destruct (make_aggrs (apIsPushDown plan) (length (Fields r)) (apNormal plan) [] (Fields r)) as (aggrs & fields' & Hm & Hlen & Hfor);
    [done|apply Hp|]. destruct (aggrs_plain plan w aggrs Hp Hfor) as [Hin Havgs].
  assert (Forall (fun x : row => Z.of_nat (length x) = w) ys) as Hys by (by rewrite Hperm).
  destruct (groups_spec w (group_keys plan) aggrs) with (doms := col_dom (jRows (resRows r)) <$> group_keys plan) (ys := ys)
    as (gs & Hg & Hgr & Hj); [|done|done| |done|done|].
  { unfold group_keys. rewrite Forall_fmap. apply Hp. }
  { unfold keyed. rewrite Hperm. apply group_keyed. }
  pose (outs := match gs, aggrs with [], _ :: _ => [empty_out w aggrs] | _, _ => group_out aggrs <$> gs end).
  exists aggrs, ys, gs. eexists. split_and!; [|done|done|done|done|].
  - unfold aggregate. rewrite (po_nonempty _ _ Hp). fold (group_keys plan). rewrite Hsort. cbn [mbind res_bind].
    rewrite Hm. cbn [mbind res_bind app]. rewrite Hg. cbn [mbind res_bind].
    replace (match run_group aggrs <$> gs, aggrs with
             | [], _ :: _ => ctxs ← res_map (fun a => InitEvalCtx a None) aggrs;
                             x ← GetResults aggrs ctxs (replicate (length fields') vnull); Ok [x]
             | _, _ => res_map (fun g => GetResults aggrs (gCtxs g) (gRow g)) (run_group aggrs <$> gs)
             end) with (Ok (E := jerr) ((fun x => (x, removed aggrs)) <$> outs)); [cbn [mbind res_bind]; reflexivity|].
    rewrite <- Hj in Hys. pose proof (outs_spec w aggrs Hin Havgs gs Hys) as Ho.
    destruct (empties_spec w aggrs Hin Havgs ltac:(lia)) as [He1 He2]. unfold w in He2. rewrite Nat2Z.id in He2.
    rewrite Hlen, He1. cbn [mbind res_bind]. rewrite He2. unfold outs. symmetry.
    destruct gs as [|g gs], aggrs as [|a aggrs]; try done; rewrite Ho; by rewrite <- list_fmap_compose.
  - cbn. rewrite RemoveColumns_rows. cbn [resRows jRows]. unfold agg_rows. fold outs. rewrite fmap_last, <- !list_fmap_compose.
    destruct (last outs) as [o|] eqn:Hl; [done|]. apply last_None in Hl. by rewrite Hl.
Qed.

End aggregate.

(** ** COUNT *)
Section counting.
Context {V T : Type} `{VV : Values V, AR : Arith V T}.
Abbreviation row := (list V).
Abbreviation Aggr := (Aggregation (T := T)).

(** The values of a column that are not NULL. *)
Definition non_null (i : Z) (rows : list row) : list V := filter (fun v => IsNull v = false) ((fun x => getv x i) <$> rows).

(** How many values COUNT, or COUNT(DISTINCT), counts. *)
Definition count_of (distinct : bool) (vs : list V) : nat :=
  if distinct then length (remove_dups (Raw <$> vs)) else length vs.

(** The context after the rows [xs]. *)
Definition count_inv (a : Aggr) (xs : list row) (c : EvalCtx (V := V)) : Prop :=
  let vs := non_null (agrIndex a) xs in
  ecErr c = false /\
  (if agrDistinct a then NoDup (ecBuffer c) /\ (forall k, k ∈ ecBuffer c <-> k ∈ Raw <$> vs) /\
     ecCount c = Z.of_nat (length (ecBuffer c))
   else ecCount c = Z.of_nat (length vs)).

Lemma non_null_snoc i xs x :
  non_null i (xs ++ [x]) = non_null i xs ++ (if IsNull (getv x i) then [] else [getv x i]).
Proof.
  unfold non_null. rewrite fmap_app, filter_app. f_equal. simpl.
  destruct (IsNull (getv x i)) eqn:Hn; [by rewrite filter_cons_False by (by rewrite Hn)|by rewrite filter_cons_True].
Qed.

Section count.
Variable a : Aggr.
Hypothesis Hty : agrAggrTyp a = AggrTypeCount.
Hypothesis Hpush : agrIsPushDown a = false.

Lemma count_bound xs c : count_inv a xs c -> ecCount c <= Z.of_nat (length xs).
Proof.
  intros [_ Hc]. assert (length (non_null (agrIndex a) xs) <= length xs)%nat.
  { unfold non_null. etrans; [apply length_filter|]. by rewrite length_fmap. }
  destruct (agrDistinct a); [|lia]. destruct Hc as (Hnd & Hk & ->).
  assert (length (ecBuffer c) <= length (non_null (agrIndex a) xs))%nat; [|lia].
  rewrite <- (length_fmap (Raw (V := V))). apply submseteq_length, NoDup_submseteq; [done|]. intros k. by rewrite Hk.
Qed.

Lemma count_init x : count_inv a [x] (init_ctx a x).
Proof.
  unfold count_inv, init_ctx. rewrite Hpush. change [x] with ([] ++ [x]). rewrite non_null_snoc. cbn.
  destruct (IsNull (getv x (agrIndex a))); simpl; (split; [done|]); destruct (agrDistinct a); simpl; try done.
  - split_and!; [constructor|set_solver|done].
  - split_and!; [apply NoDup_singleton|set_solver|done].
Qed.

Lemma count_step xs c x :
  count_inv a xs c -> Z.of_nat (length (xs ++ [x])) < 2 ^ 63 -> count_inv a (xs ++ [x]) (update_ctx a c x).
Proof.
  intros Hinv Hlen. pose proof (count_bound _ _ Hinv) as Hb. rewrite length_app in Hlen. simpl in Hlen.
  assert (0 <= ecCount c) as H0 by (destruct Hinv as [_ Hc]; destruct (agrDistinct a); [destruct Hc as (_ & _ & ->)|]; lia).
  destruct Hinv as [He Hc]. unfold count_inv, update_ctx. rewrite He, non_null_snoc. simpl.
  destruct (IsNull (getv x (agrIndex a))) eqn:Hn; [by rewrite app_nil_r|]. rewrite Hpush. simpl.
  unfold update_val. rewrite Hty, Hpush. destruct (agrDistinct a) eqn:Hd.
  - destruct Hc as (Hnd & Hk & Hc). case_bool_decide as Hin; simpl.
    + split_and!; try done. intros k. rewrite fmap_app, elem_of_app, <- Hk. simpl. set_solver.
    + split_and!; [done|by constructor| |rewrite swrap_id by lia; lia].
      intros k. rewrite fmap_app, elem_of_app, elem_of_cons, <- Hk. simpl. set_solver.
  - simpl. rewrite length_app. simpl. split; [done|]. rewrite swrap_id by lia. lia.
Qed.

Lemma count_group g : Z.of_nat (length (rows_of g)) < 2 ^ 63 -> count_inv a (rows_of g) (group_ctx a g).
Proof.
  destruct g as [x xs]. unfold group_ctx, rows_of. simpl. intros Hlen.
  assert (forall ys done c, count_inv a done c -> Z.of_nat (length (done ++ ys)) < 2 ^ 63 ->
    count_inv a (done ++ ys) (foldl (update_ctx a) c ys)) as Hgen.
  { induction ys as [|y ys IH]; intros pre c Hc Hl; [by rewrite app_nil_r|].
    replace (pre ++ y :: ys) with ((pre ++ [y]) ++ ys) in * by (by rewrite <- app_assoc). apply IH; [|done].
    apply count_step; [done|]. rewrite length_app in Hl. lia. }
  apply (Hgen xs [x]); [apply count_init|done].
Qed.
End count.
End counting.

(** C12: for a plan that aggregates or groups something, whose columns exist
    and in which every pushed-down AVG is followed by its sum and its count,
    and when the values of every grouping column are ordered by the comparison
    (columns of one type), [AggregateOperator] does not fail and makes exactly
    one row per distinct group key: the rows are divided, each into one group,
    the rows of a group agree on the key and the groups have increasing, hence
    different, keys; a group's row is its first row with the aggregates of its
    rows stored in their columns (for a pushed-down AVG the sum divided by the
    count, whose column is removed), and an aggregation of no rows gives one
    row. *)
Theorem aggregate_groups {V T} `{VV : Values V, ZN : !ZeroNull V, AR : Arith V T, GS : GoSort V, GO : !GoSortOk V}
    plan (r : Result V (Field T)) :
  plan_ok (Z.of_nat (length (Fields r))) plan -> fields_ok r -> groups_comparable plan (jRows (resRows r)) ->
  exists aggrs ys gs r', aggregate plan r = Ok r' /\ aggrs_for plan aggrs /\
    ys ≡ₚ jRows (resRows r) /\ mjoin (rows_of <$> gs) = ys /\ grouped (group_keys plan) gs /\
    jRows (resRows r') = agg_rows (Z.of_nat (length (Fields r))) aggrs gs.
Proof. apply aggregate_spec. Qed.

(** The value of COUNT over a group: the number of its values that are not
    NULL, or with DISTINCT the number of different ones, whatever the order of
    the rows. *)
Theorem count_value {V T} `{VV : Values V, AR : Arith V T} (a : Aggregation (T := T)) (g : list V * list (list V)) :
  agrAggrTyp a = AggrTypeCount -> agrIsPushDown a = false -> Z.of_nat (length (rows_of g)) < 2 ^ 63 ->
  GetResult a (group_ctx a g) = NewInt64 (Z.of_nat (count_of (agrDistinct a) (non_null (agrIndex a) (rows_of g)))).
Proof.
  intros Hty Hp Hlen. destruct (count_group a Hty Hp g Hlen) as [He Hc]. unfold GetResult. rewrite He, Hty, Hp.
  f_equal. unfold count_of. destruct (agrDistinct a); [|done]. destruct Hc as (Hnd & Hk & ->). f_equal.
  apply Permutation_length, NoDup_Permutation; [done|apply NoDup_remove_dups|].
  intros k. by rewrite elem_of_remove_dups, Hk.
Qed.

(** ** Examples: columns of nullable integers *)
#[local] Existing Instance zval.
#[local] Existing Instance zval_null.
#[local] Existing Instance isort.
#[local] Existing Instance isort_ok.

#[export] Instance zarith : Arith (option Z) unit := {
  fix_type _ _ t := t;
  NullsafeAdd _ a b := Some (Some (default 0 a + default 0 b));
  NullsafeSum _ a b := Some (Some (default 0 a + default 0 b));
  NullsafeDiv _ a b := Some (x ← a; y ← b; if y =? 0 then None else Some (x / y));
  Cast _ a := Some a;
  zero_of _ := Some 0;
  NewInt64 n := Some n;
  Raw v := match v with Some z => Itoa z | None => "" end
}.

Definition zfield (n : string) : Field unit := mkField n "t" tt.
Definition ex_fields : list (Field unit) := [zfield "a"; zfield "b"].
Definition zres (rows : list (list (option Z))) : Result (option Z) (Field unit) := mkResult ex_fields (mkJRes rows 0).

(** Two shards, [order by b desc limit 1, 2], the column b added for sorting. *)
Definition ex_shards : list (list (list (option Z))) :=
  [[[Some 1; Some 10]; [Some 2; Some 40]; [Some 3; Some 30]; [Some 9; Some 5]]; [[Some 4; Some 20]; [Some 5; Some 50]]].
Definition ex_answers : list (list (list (option Z))) :=
  [[[Some 2; Some 40]; [Some 3; Some 30]; [Some 1; Some 10]]; [[Some 5; Some 50]; [Some 4; Some 20]]].
Definition ex_orderby : OrderByPlan := mkOrderByPlan [1] [mkOrderBy "b" "" DESC].
Definition ex_limit : Limit :=
  mkLimit (Some (SQLValE (mkSQLVal IntVal "1"))) (Some (SQLValE (mkSQLVal IntVal "2"))).

Lemma ex_top : Forall2 (top_rows [(1, DESC)] 3) ex_shards ex_answers.
Proof.
  constructor; [|constructor; [|constructor]].
  - exists [[Some 2; Some 40]; [Some 3; Some 30]; [Some 1; Some 10]; [Some 9; Some 5]]. split_and!; [|repeat constructor; vm_compute; congruence|done].
    apply (bool_decide_unpack _). vm_compute. exact I.
  - exists [[Some 5; Some 50]; [Some 4; Some 20]]. split_and!; [|repeat constructor; vm_compute; congruence|done].
    apply (bool_decide_unpack _). vm_compute. exact I.
Qed.

Lemma limit_pushdown_witness :
  exists s r', ExecSubPlan [ChildOrderby ex_orderby; ChildLimit (mkLimitPlan 1 2 (Some "3"))] (zres (mjoin ex_answers)) = Ok r' /\
    s ≡ₚ mjoin ex_shards /\ jRows (resRows r') = strip [1] <$> take 2 (drop 1 s) /\
    jRows (resRows r') = [[Some 2]; [Some 3]].
Proof.
  destruct (limit_pushdown ex_limit (mkLimitPlan 1 2 (Some "3")) ex_orderby (zres (mjoin ex_answers)) [(1, DESC)] "3"
    ex_shards ex_answers) as (s & r' & H1 & H2 & _ & H4);
    [vm_compute; reflexivity|done|done|done|reflexivity|vm_compute; reflexivity|exact ex_top|reflexivity|repeat constructor|apply Forall_true; intros k; apply zval_lawful|].
  exists s, r'. split; [exact H1|]. split; [exact H2|]. split; [exact H4|].
  assert (ExecSubPlan [ChildOrderby ex_orderby; ChildLimit (mkLimitPlan 1 2 (Some "3"))] (zres (mjoin ex_answers))
    = Ok (mkResult [zfield "a"] (mkJRes [[Some 2]; [Some 3]] 0))) as Hr by (vm_compute; reflexivity).
  rewrite H1 in Hr. injection Hr as ->. reflexivity.
Defined.

(** [select a, count(b) ... group by a] over rows of two shards, not pushed down. *)
Definition ex_count : AggregatePlan :=
  mkAggregatePlan [mkAggregator "count(b)" 1 AggrTypeCount false] [mkAggregator "a" 0 AggrTypeGroupBy false] false.
Definition ex_agg_rows : list (list (option Z)) :=
  [[Some 2; Some 5]; [Some 1; None]; [Some 2; Some 5]; [Some 1; Some 7]; [None; Some 1]].

Lemma aggregate_groups_witness :
  exists (aggrs : list (Aggregation (T := unit))) ys gs r', aggregate ex_count (zres ex_agg_rows) = Ok r' /\ aggrs_for ex_count aggrs /\
    ys ≡ₚ ex_agg_rows /\ mjoin (rows_of <$> gs) = ys /\ grouped [0] gs /\
    jRows (resRows r') = [[None; Some 1]; [Some 1; Some 1]; [Some 2; Some 2]].
Proof.
  destruct (aggregate_groups ex_count (zres ex_agg_rows)) as (aggrs & ys & gs & r' & H1 & H2 & H3 & H4 & H5 & _);
    [split; try reflexivity; repeat constructor; vm_compute; congruence|repeat constructor|apply zvals_lawful|].
  exists aggrs, ys, gs, r'. repeat (split; [assumption|]).
  assert (aggregate ex_count (zres ex_agg_rows) = Ok (zres [[None; Some 1]; [Some 1; Some 1]; [Some 2; Some 2]])) as Hr
    by (vm_compute; reflexivity).
  rewrite H1 in Hr. injection Hr as ->. reflexivity.
Defined.

Lemma count_value_witness :
  let a := mkAggregation true 1 AggrTypeCount tt false in
  let g := ([Some 2; Some 5], [[Some 2; Some 5]; [Some 2; None]; [Some 2; Some 7]]) in
  GetResult a (group_ctx a g) = Some 2 /\ count_of true (non_null 1 (rows_of g)) = 2%nat.
Proof.
  cbn zeta. split; [|vm_compute; reflexivity].
  rewrite (count_value (mkAggregation true 1 AggrTypeCount tt false)
    ([Some 2; Some 5], [[Some 2; Some 5]; [Some 2; None]; [Some 2; Some 7]]) eq_refl eq_refl ltac:(vm_compute; reflexivity)).
  vm_compute. reflexivity.
Defined.

(** [select a, avg(b) ... group by a], pushed down: the shards answer the sum
    and the count, and the column of the count is removed. *)
Definition ex_avg : AggregatePlan :=
  mkAggregatePlan [mkAggregator "avg(b)" 1 AggrTypeAvg false; mkAggregator "sum(b)" 1 AggrTypeSum false;
                   mkAggregator "count(b)" 2 AggrTypeCount false] [mkAggregator "a" 0 AggrTypeGroupBy false] true.
Example avg_pushed_down :
  plan_ok 3 ex_avg /\
  aggregate ex_avg (mkResult [zfield "a"; zfield "sum(b)"; zfield "count(b)"]
      (mkJRes [[Some 2; Some 5; Some 1]; [Some 1; Some 9; Some 3]; [Some 2; Some 7; Some 2]] 0)) =
    Ok (mkResult [zfield "a"; zfield "sum(b)"] (mkJRes [[Some 1; Some 3]; [Some 2; Some 4]] 0)).
Proof. split; [split; try reflexivity; repeat constructor; vm_compute; congruence|vm_compute; reflexivity]. Qed.
