(* ===== verification/Engine.v ===== *)
(** * The engines of a plan (src/executor/engine: merge_engine.go, union_engine.go, plan_engine.go; src/executor)

    A plan tree of merge, join and union nodes is executed bottom up; the
    executors of the other statements hand their queries to the transaction.
    What a transaction returns for a request is the parameter [TxnExec]; the
    hash table of UNION is modelled from its source. *)
From S2P Require Import Prelude GoStd Xcontext Join Operators.
Open Scope string_scope.
Open Scope list_scope.
Open Scope Z_scope.

(** ** The hash table (common/hash_table.go) *)

(** FNV-1a with 64 bits, [hash/fnv.New64a]. *)
Definition fnv_offset : Z := 14695981039346656037.
Definition fnv_prime : Z := 1099511628211.
Fixpoint fnv_write (h : Z) (data : string) : Z :=
  match data with
  | EmptyString => h
  | String c s => fnv_write (wrap 64 (Z.lxor h (Z.of_nat (nat_of_ascii c)) * fnv_prime)) s
  end.
Definition hash64a (data : string) : Z := fnv_write fnv_offset data.

Section hashtable.
Context {A : Type}.

(** [HashTable]: the chains in the order their buckets were first used, and
    the chain of each bucket. *)
Record HashTable := mkHashTable {
  htEntry : list (list (string * list A));
  htMap : gmap Z nat;
  htSize : Z
}.
(** [NewHashTable] *)
Definition NewHashTable : HashTable := mkHashTable [] ∅ 0.

(** [entry.put] *)
Fixpoint entry_put (key : string) (value : A) (e : list (string * list A)) : list (string * list A) :=
  match e with
  | [] => [(key, [value])]
  | (k, vs) :: e => if decide (k = key) then (k, vs ++ [value]) :: e else (k, vs) :: entry_put key value e
  end.

(** [entry.get] *)
Fixpoint entry_get (key : string) (e : list (string * list A)) : option (list A) :=
  match e with
  | [] => None
  | (k, vs) :: e => if decide (k = key) then Some vs else entry_get key e
  end.

(** [HashTable.Put] *)
Definition Put (key : string) (value : A) (h : HashTable) : HashTable :=
  let bucket := hash64a key in
  match htMap h !! bucket with
  | None => mkHashTable (htEntry h ++ [[(key, [value])]]) (<[bucket := length (htEntry h)]> (htMap h)) (htSize h + 1)
  | Some i => mkHashTable (alter (entry_put key value) i (htEntry h)) (htMap h) (htSize h + 1)
  end.

(** [HashTable.Get] *)
Definition Get (key : string) (h : HashTable) : option (list A) :=
  i ← htMap h !! hash64a key; e ← htEntry h !! i; entry_get key e.

(** The entries [HashTable.Next] iterates over. *)
Definition entries (h : HashTable) : list (string * list A) := mjoin (htEntry h).
End hashtable.
Arguments HashTable : clear implicits.

(** ** Plan nodes *)
Section nodes.
Context {V T : Type}.

(** [builder.MergeNode] after the plan was built: the queries, how each is
    generated from bind variables ([None] is an error), the query that fetches
    the fields, and the statement for a request that is not split. *)
Record MergeNode := mkMergeNode {
  mnReqMode : RequestMode;
  mnQuerys : list QueryTuple;
  mnParsedQuerys : list (gmap string V -> option string);
  mnFieldQuery : gmap string V -> option string;
  mnSelString : string;
  mnChildren : list ChildPlan
}.

(** [builder.PlanNode] *)
Inductive PlanNode :=
| MergeN (m : MergeNode)
| JoinN (node : JoinNode) (children : list ChildPlan) (l r : PlanNode)
| UnionN (typ : string) (children : list ChildPlan) (l r : PlanNode).
End nodes.
Arguments MergeNode : clear implicits.
Arguments PlanNode : clear implicits.

(** [Transaction.Execute] as the engines see it, and [Transaction.MaxJoinRows]. *)
Class TxnExec (V T : Type) := {
  txn_exec : RequestContext -> res jerr (Result V (Field T));
  MaxJoinRows : Z
}.

Section engines.
Context {V T : Type} `{VV : Values V, AR : Arith V T, GS : GoSort V, SC : Schedule V, TX : TxnExec V T}.
Abbreviation row := (list V).
Abbreviation JR := (res jerr).
Abbreviation Res := (Result V (Field T)).
Abbreviation Engine := (PlanEngine V (Field T)).

(** ** MergeEngine *)

(** [MergeEngine.Execute] *)
Definition merge_Execute (m : MergeNode V) : JR Res :=
  let reqCtx := match mnReqMode m with
                | ReqNormal => mkRequestContext "" ReqNormal TxnRead (mnQuerys m)
                | mode => mkRequestContext (mnSelString m) mode TxnRead []
                end in
  rs ← txn_exec reqCtx;
  ExecSubPlan (mnChildren m) rs.

Definition set_query (q : QueryTuple) (s : string) : QueryTuple := mkQueryTuple s (qtBackend q) (qtRange q).

(** The loop that generates the queries; [querys[i]] panics out of range. *)
Fixpoint bind_querys (bindVars : gmap string V) (ps : list (gmap string V -> option string)) (qs : list QueryTuple)
    : JR (list QueryTuple) :=
  match ps with
  | [] => Ok qs
  | p :: ps =>
      match p bindVars with
      | None => Err (ErrPlan "missing.bind.var")
      | Some s =>
          match qs with
          | [] => Panic
          | q :: qs => rest ← bind_querys bindVars ps qs; Ok (set_query q s :: rest)
          end
      end
  end.

(** [MergeEngine.execBindVars] *)
Definition merge_execBindVars (m : MergeNode V) (bindVars : gmap string V) (wantfields : bool) : JR Res :=
  querys ← bind_querys bindVars (mnParsedQuerys m) (mnQuerys m);
  rs ← txn_exec (mkRequestContext "" ReqNormal TxnRead querys);
  ExecSubPlan (mnChildren m) rs.

(** [MergeEngine.getFields] *)
Definition merge_getFields (m : MergeNode V) (bindVars : gmap string V) : JR Res :=
  match last (mnQuerys m) with
  | None => Panic
  | Some q =>
      match mnFieldQuery m bindVars with
      | None => Err (ErrPlan "missing.bind.var")
      | Some s => txn_exec (mkRequestContext "" ReqNormal TxnRead [set_query q s])
      end
  end.

(** ** UnionEngine *)

(** [Result.AppendResult] on fields, rows and affected rows. *)
Definition AppendResult (r src : Res) : Res :=
  if (jAffected (resRows src) =? 0) && Nat.eqb (length (Fields src)) 0 then r
  else mkResult (match Fields r with [] => Fields src | fs => fs end)
         (mkJRes (jRows (resRows r) ++ jRows (resRows src)) (wrap 64 (jAffected (resRows r) + jAffected (resRows src)))).

(** The key of a row: the raw bytes of its values, one after the other. *)
Definition row_raw (x : row) : string := foldl (fun key v => key +:+ Raw v) "" x.

(** The loop that fills the table. *)
Definition union_table (rows : list row) : HashTable row :=
  foldl (fun t x => match Get (row_raw x) t with Some _ => t | None => Put (row_raw x) x t end) NewHashTable rows.

(** [v[0]] of every entry. *)
Definition first_values (es : list (string * list row)) : JR (list row) :=
  res_map (fun e => match snd e with v :: _ => Ok v | [] => Panic end) es.

Definition is_distinct (typ : string) : bool := bool_decide (typ = "union distinct") || bool_decide (typ = "union").

(** [UnionEngine.Execute]; the two sides run side by side, of two errors the
    left one is returned here. *)
Definition union_Execute (left right : Engine) (typ : string) (children : list ChildPlan) : JR Res :=
  lres ← pe_Execute left; rres ← pe_Execute right;
  if negb (Nat.eqb (length (Fields lres)) (length (Fields rres))) then Err (ErrPlan "different.number.of.columns")
  else
    let all := AppendResult lres rres in
    match jRows (resRows all) with
    | [] => Ok (mkResult (Fields lres) emptyJRes)
    | rows =>
        out ← (if is_distinct typ then
                 let table := union_table rows in
                 vs ← first_values (entries table);
                 Ok (mkJRes vs (htSize table))
               else Ok (resRows all));
        ExecSubPlan children (mkResult (Fields lres) out)
    end.

(** ** BuildEngine *)
Fixpoint BuildEngine (plan : PlanNode V) : Engine :=
  match plan with
  | MergeN m => mkPlanEngine (merge_Execute m) (merge_execBindVars m) (merge_getFields m)
  | JoinN node children l r =>
      let left := BuildEngine l in
      let right := BuildEngine r in
      mkPlanEngine (join_Execute left right node MaxJoinRows (ExecSubPlan children))
        (join_execBindVars left right node MaxJoinRows) (join_getFields left right node)
  | UnionN typ children l r =>
      mkPlanEngine (union_Execute (BuildEngine l) (BuildEngine r) typ children)
        (fun _ _ => Err (ErrPlan "unreachable")) (fun _ => Err (ErrPlan "unreachable"))
  end.

(** ** Executors (executor) *)

(** A plan of [planner]: its queries and how they are sent. *)
Record QueryPlan := mkQueryPlan { qpReqMode : RequestMode; qpRawQuery : string; qpQuerys : list QueryTuple }.

Inductive Plan :=
| PlanDDL (p : QueryPlan) | PlanInsert (p : QueryPlan) | PlanDelete (p : QueryPlan) | PlanUpdate (p : QueryPlan)
| PlanSelect (root : PlanNode V) | PlanUnion (root : PlanNode V) | PlanOthers (p : QueryPlan)
| PlanOfType (t : string).

(** [Execute] of the executors that hand their plan to the transaction. *)
Definition query_Execute (mode : TxnMode) (p : QueryPlan) : JR Res :=
  txn_exec (mkRequestContext (qpRawQuery p) (qpReqMode p) mode (qpQuerys p)).

(** [DDLExecutor.Execute]; the transaction mode stays that of a new request. *)
Definition ddl_Execute (p : QueryPlan) : JR Res := query_Execute TxnNone p.
(** [InsertExecutor.Execute], [DeleteExecutor.Execute], [UpdateExecutor.Execute] *)
Definition insert_Execute (p : QueryPlan) : JR Res := query_Execute TxnWrite p.
Definition delete_Execute (p : QueryPlan) : JR Res := query_Execute TxnWrite p.
Definition update_Execute (p : QueryPlan) : JR Res := query_Execute TxnWrite p.
(** [OthersExecutor.Execute] *)
Definition others_Execute (p : QueryPlan) : JR Res := query_Execute TxnRead p.
(** [SelectExecutor.Execute], [UnionExecutor.Execute] *)
Definition select_Execute (root : PlanNode V) : JR Res := pe_Execute (BuildEngine root).
Definition unions_Execute (root : PlanNode V) : JR Res := pe_Execute (BuildEngine root).

(** [executor.Execute] of the executor [Tree.Execute] makes for a plan. *)
Definition executor_Execute (p : Plan) : JR Res :=
  match p with
  | PlanDDL p => ddl_Execute p
  | PlanInsert p => insert_Execute p
  | PlanDelete p => delete_Execute p
  | PlanUpdate p => update_Execute p
  | PlanSelect root => select_Execute root
  | PlanUnion root => unions_Execute root
  | PlanOthers p => others_Execute p
  | PlanOfType t => Err (ErrPlan t)
  end.

Definition known_plan (p : Plan) : JR Plan := match p with PlanOfType t => Err (ErrPlan t) | _ => Ok p end.

(** [Tree.Execute]: the executors are made before any of them runs; the result
    is the one of the last. *)
Definition Tree_Execute (plans : list Plan) : JR (option Res) :=
  children ← res_map known_plan plans;
  res_fold (fun _ p => r ← executor_Execute p; Ok (Some r)) None children.
End engines.
