(* ===== verification/EngineProps.v ===== *)
(** * What the engines return

    UNION keeps one row per key; a join with an empty left side skips its
    operators. *)
From S2P Require Import Prelude GoStd Xcontext Partition Sql PlanExpr PlanDml Join JoinProps Operators OperatorsProps Engine.
Open Scope string_scope.
Open Scope list_scope.
Open Scope Z_scope.

(** ** The hash table *)
Section hashtable.
Context {A : Type}.
Abbreviation Table := (HashTable A).

(** Every bucket has its own chain, and a chain holds keys of its bucket. *)
Record wf_table (h : Table) : Prop := {
  wt_chain : forall b i, htMap h !! b = Some i -> (i < length (htEntry h))%nat;
  wt_bucket : forall i e, htEntry h !! i = Some e ->
    exists b, htMap h !! b = Some i /\ Forall (fun kv => hash64a kv.1 = b) e;
  wt_inj : forall b b' i, htMap h !! b = Some i -> htMap h !! b' = Some i -> b = b';
  wt_keys : NoDup (fst <$> entries h)
}.

Lemma wf_empty : wf_table NewHashTable.
Proof. split; simpl; [by intros; simplify_map_eq|by intros; simplify_eq|by intros; simplify_map_eq|constructor]. Qed.

Lemma entry_get_mem k e vs : NoDup (fst <$> e) -> entry_get (A := A) k e = Some vs <-> (k, vs) ∈ e.
Proof.
  induction e as [|[k' vs'] e IH]; intros Hnd; simpl; [set_solver|]. apply NoDup_cons in Hnd as [Hk Hnd].
  rewrite elem_of_cons. case_decide as Hd; [subst|rewrite IH by done; naive_solver].
  split; [by intros [= ->]; left|]. intros [[= ->]|Hin]; [done|]. exfalso. apply Hk.
  by apply (list_elem_of_fmap_2 fst) in Hin.
Qed.

Lemma chain_NoDup h i e : wf_table h -> htEntry h !! i = Some e -> NoDup (fst <$> e).
Proof.
  intros [_ _ _ Hnd] Hi. unfold entries in Hnd. apply list_elem_of_split_length in Hi as (l1 & l2 & Heq & _).
  rewrite Heq, join_app in Hnd. cbn in Hnd. rewrite !fmap_app in Hnd.
  apply NoDup_app in Hnd as (_ & _ & Hnd). by apply NoDup_app in Hnd as (Hnd & _ & _).
Qed.

Lemma Get_mem h k vs : wf_table h -> Get k h = Some vs <-> (k, vs) ∈ entries h.
Proof.
  intros Hw. unfold Get, entries. split.
  - destruct (htMap h !! hash64a k) as [i|] eqn:Hb; simpl; [|done].
    destruct (htEntry h !! i) as [e|] eqn:He; simpl; [|done].
    rewrite entry_get_mem by (by eapply chain_NoDup). intros Hin. apply list_elem_of_join.
    exists e. split; [done|]. by eapply list_elem_of_lookup_2.
  - intros (e & Hin & He)%list_elem_of_join. apply list_elem_of_lookup in He as [i Hi].
    destruct (wt_bucket h Hw i e Hi) as (b & Hb & Hf). rewrite Forall_forall in Hf.
    pose proof (Hf _ Hin) as Hk. simpl in Hk. rewrite Hk, Hb. simpl. rewrite Hi. simpl.
    apply entry_get_mem; [by eapply chain_NoDup|done].
Qed.

Lemma Get_None h k : wf_table h -> Get k h = None <-> k ∉ fst <$> entries h.
Proof.
  intros Hw. split.
  - intros Hg ([k' vs] & -> & Hin)%list_elem_of_fmap. apply Get_mem in Hin; [|done]. simpl in Hg. congruence.
  - intros Hk. destruct (Get k h) as [vs|] eqn:Hg; [|done]. exfalso. apply Hk.
    apply Get_mem in Hg; [|done]. by apply (list_elem_of_fmap_2 fst) in Hg.
Qed.

Lemma entry_put_new k v e : k ∉ fst <$> e -> entry_put (A := A) k v e = e ++ [(k, [v])].
Proof.
  induction e as [|[k' vs] e IH]; intros Hk; simpl; [done|]. rewrite decide_False by set_solver.
  by rewrite IH by set_solver.
Qed.

Lemma Forall_entry_put k v e :
  Forall (fun kv => hash64a kv.1 = hash64a k) e -> Forall (fun kv => hash64a kv.1 = hash64a k) (entry_put (A := A) k v e).
Proof.
  induction e as [|[k' vs] e IH]; intros Hf; simpl; [by repeat constructor|]. apply Forall_cons in Hf as [Hk Hf].
  case_decide; constructor; auto.
Qed.

(** A new key is appended to its chain, or starts one. *)
Lemma Put_new h k v : wf_table h -> Get k h = None ->
  wf_table (Put k v h) /\ entries (Put k v h) ≡ₚ entries h ++ [(k, [v])].
Proof.
  intros Hw Hg. pose proof (proj1 (Get_None h k Hw) Hg) as Hk.
  assert (entries (Put k v h) ≡ₚ entries h ++ [(k, [v])]) as He.
  { unfold Put, entries. destruct (htMap h !! hash64a k) as [i|] eqn:Hb; simpl.
    - pose proof (wt_chain h Hw _ _ Hb) as Hlt. destruct (lookup_lt_is_Some_2 (htEntry h) i Hlt) as [e Hi].
      unfold Get in Hg. rewrite Hb in Hg. simpl in Hg. rewrite Hi in Hg. simpl in Hg.
      assert (k ∉ fst <$> e) as Hke.
      { intros ([k' vs] & -> & Hin)%list_elem_of_fmap. apply entry_get_mem in Hin; [|by eapply chain_NoDup].
        simpl in Hg. congruence. }
      apply list_elem_of_split_length in Hi as (l1 & l2 & Heq & Hl). rewrite Heq.
      rewrite alter_app_r_alt, Hl, Nat.sub_diag by lia. cbn. rewrite entry_put_new by done.
      rewrite !join_app. cbn. rewrite <- !app_assoc. do 2 f_equiv. apply Permutation_app_comm.
    - by rewrite join_app. }
  split; [|done]. split.
  - intros b i. unfold Put. destruct (htMap h !! hash64a k) as [j|] eqn:Hb; simpl.
    + rewrite length_alter. by apply Hw.
    + rewrite length_app, lookup_insert. simpl. case_decide; [intros [= <-]; lia|]. intros Hi%(wt_chain h Hw). lia.
  - intros i e. unfold Put. destruct (htMap h !! hash64a k) as [j|] eqn:Hb; simpl.
    + destruct (decide (i = j)) as [->|Hne]; [|rewrite list_lookup_alter_ne by done; apply Hw].
      rewrite list_lookup_alter_eq. destruct (htEntry h !! j) as [e'|] eqn:Hj; simpl; [|done]. intros [= <-].
      destruct (wt_bucket h Hw _ _ Hj) as (b & Hbj & Hf). exists (hash64a k). split; [done|].
      rewrite (wt_inj h Hw _ _ _ Hbj Hb) in Hf. by apply Forall_entry_put.
    + rewrite lookup_app. destruct (htEntry h !! i) as [e'|] eqn:Hi.
      * intros [= <-]. destruct (wt_bucket h Hw _ _ Hi) as (b & Hbi & Hf). exists b. split; [|done].
        rewrite lookup_insert_ne; [done|]. intros <-. congruence.
      * intros Hx. assert (i = length (htEntry h)) as ->.
        { apply lookup_ge_None in Hi. destruct (i - length (htEntry h))%nat as [|n] eqn:Hn; [lia|done]. }
        rewrite Nat.sub_diag in Hx. injection Hx as <-. exists (hash64a k). rewrite lookup_insert_eq. by repeat constructor.
  - intros b b' i. unfold Put. destruct (htMap h !! hash64a k) as [j|] eqn:Hb; simpl; [by apply Hw|].
    rewrite !lookup_insert. do 2 case_decide; try congruence; [intros [= <-] Hx%(wt_chain h Hw)|intros Hx%(wt_chain h Hw) [= <-]|apply Hw]; lia.
  - rewrite He, fmap_app. apply NoDup_app. split_and!; [apply Hw| |apply NoDup_singleton].
    intros x Hx ->%list_elem_of_singleton. done.
Qed.
End hashtable.

(** ** UNION *)
Section union.
Context {V T : Type} `{VV : Values V, AR : Arith V T}.
Abbreviation row := (list V).

(** The rows whose key did not occur before: the reference for UNION. *)
Fixpoint first_rows (seen : list string) (rows : list row) : list row :=
  match rows with
  | [] => []
  | x :: rows =>
      if bool_decide (row_raw x ∈ seen) then first_rows seen rows
      else x :: first_rows (row_raw x :: seen) rows
  end.

Definition fill (t : HashTable row) (x : row) : HashTable row :=
  match Get (row_raw x) t with Some _ => t | None => Put (row_raw x) x t end.

Lemma Put_size k v (h : HashTable row) : htSize (Put k v h) = htSize h + 1.
Proof. unfold Put. by case_match. Qed.

Lemma fill_spec rows : forall t seen,
  wf_table t -> (forall k, k ∈ seen <-> k ∈ fst <$> entries t) ->
  let t' := foldl fill t rows in
  wf_table t' /\ entries t' ≡ₚ entries t ++ ((fun x => (row_raw x, [x])) <$> first_rows seen rows) /\
  htSize t' = htSize t + Z.of_nat (length (first_rows seen rows)).
Proof.
  induction rows as [|x rows IH]; intros t seen Hw Hseen; simpl.
  { split_and!; [done|by rewrite app_nil_r|lia]. }
  unfold fill at 2 4 6. destruct (Get (row_raw x) t) as [vs|] eqn:Hg.
  - rewrite bool_decide_true; [by apply IH|]. apply Hseen. apply Get_mem in Hg; [|done].
    by apply (list_elem_of_fmap_2 fst) in Hg.
  - pose proof (proj1 (Get_None _ _ Hw) Hg) as Hn. rewrite bool_decide_false by (by rewrite Hseen).
    destruct (Put_new t (row_raw x) x Hw Hg) as [Hw' He].
    destruct (IH (Put (row_raw x) x t) (row_raw x :: seen) Hw') as (H1 & H2 & H3).
    { intros k. rewrite He, fmap_app, elem_of_app, <- Hseen. simpl. set_solver. }
    split_and!; [done|by rewrite H2, He, <- app_assoc|]. rewrite H3, Put_size. simpl. lia.
Qed.

Lemma first_values_perm es vs :
  es ≡ₚ (fun x : row => (row_raw x, [x])) <$> vs ->
  exists out, first_values es = Ok out /\ out ≡ₚ vs.
Proof.
  intros Hp. assert (exists l, es = (fun x : row => (row_raw x, [x])) <$> l /\ l ≡ₚ vs) as (l & -> & Hl).
  { apply Permutation_map_inv in Hp as (l & -> & Hl). exists l. by split. }
  exists l. split; [|done]. apply res_map_Ok. clear. induction l; constructor; done.
Qed.

Lemma union_rows rows :
  exists out, first_values (entries (union_table rows)) = Ok out /\ out ≡ₚ first_rows [] rows /\
    htSize (union_table rows) = Z.of_nat (length out).
Proof.
  destruct (fill_spec rows NewHashTable [] wf_empty) as (_ & He & Hs); [simpl; set_solver|].
  change (foldl fill NewHashTable rows) with (union_table rows) in *. simpl in He, Hs.
  destruct (first_values_perm _ _ He) as (out & Ho & Hp). exists out. split_and!; [done..|]. by rewrite Hs, Hp.
Qed.

Lemma first_rows_sub seen rows x : x ∈ first_rows seen rows -> x ∈ rows /\ row_raw x ∉ seen.
Proof.
  revert seen. induction rows as [|y rows IH]; intros seen; simpl; [set_solver|].
  case_bool_decide as Hb; [intros [??]%IH; set_solver|]. rewrite !elem_of_cons.
  intros [->|[H1 H2]%IH]; [by split; [left|]|]. split; [by right|]. set_solver.
Qed.

Lemma first_rows_keys seen rows : NoDup (row_raw <$> first_rows seen rows).
Proof.
  revert seen. induction rows as [|y rows IH]; intros seen; simpl; [constructor|].
  case_bool_decide; [apply IH|]. rewrite fmap_cons. constructor; [|apply IH].
  intros (x & Hk & [_ Hx]%first_rows_sub)%list_elem_of_fmap. set_solver.
Qed.

Lemma first_rows_all seen rows x :
  x ∈ rows -> row_raw x ∈ seen \/ row_raw x ∈ row_raw <$> first_rows seen rows.
Proof.
  revert seen. induction rows as [|y rows IH]; intros seen; simpl; [set_solver|].
  rewrite elem_of_cons. case_bool_decide as Hb; [intros [->|Hx]; [by left|by apply IH]|].
  rewrite fmap_cons, elem_of_cons. intros [->|Hx]; [tauto|]. destruct (IH (row_raw y :: seen) Hx) as [Hy|]; [|tauto].
  apply elem_of_cons in Hy as [->|]; tauto.
Qed.
End union.

(** UNION [DISTINCT] of two results with rows keeps, of the rows of both
    sides, exactly the first row of every key (the concatenated raw bytes of
    its values), and reports that many affected rows; UNION ALL keeps them all.
    When the keys tell the rows apart these are the different rows. *)
Theorem union_distinct {V T} `{VV : Values V, AR : Arith V T, GS : GoSort V, SC : Schedule V, TX : TxnExec V T}
    (left right : PlanEngine V (Field T)) typ lres rres :
  pe_Execute left = Ok lres -> pe_Execute right = Ok rres ->
  length (Fields lres) = length (Fields rres) -> Fields rres <> [] ->
  let all := jRows (resRows lres) ++ jRows (resRows rres) in
  all <> [] ->
  exists r, union_Execute left right typ [] = Ok r /\ Fields r = Fields lres /\
    (is_distinct typ = false -> jRows (resRows r) = all) /\
    (is_distinct typ = true ->
       jRows (resRows r) ≡ₚ first_rows [] all /\ jAffected (resRows r) = Z.of_nat (length (jRows (resRows r))) /\
       ((forall x y, x ∈ all -> y ∈ all -> row_raw x = row_raw y -> x = y) ->
          NoDup (jRows (resRows r)) /\ forall x, x ∈ jRows (resRows r) <-> x ∈ all)).
Proof.
  intros Hl Hr Hf Hne all Hall. unfold union_Execute. rewrite Hl, Hr. cbn [mbind res_bind].
  rewrite Hf, Nat.eqb_refl. cbn [negb].
  assert (jRows (resRows (AppendResult lres rres)) = all) as Ha.
  { unfold AppendResult. destruct (Nat.eqb_spec (length (Fields rres)) 0) as [H0|]; [by destruct (Fields rres)|].
    by rewrite andb_false_r. }
  assert (exists x0 rows0, all = x0 :: rows0) as (x0 & rows0 & Hx) by (destruct all; [done|eauto]).
  rewrite Ha, Hx. cbn match. rewrite <- Hx. clearbody all. clear x0 rows0 Hx Hall.
  destruct (is_distinct typ).
  - destruct (union_rows all) as (out & Ho & Hp & Hs). rewrite Ho. cbn.
    eexists. split_and!; [reflexivity|done|done|]. intros _. cbn. split_and!; [done|done|]. intros Hinj.
    assert (forall x, x ∈ first_rows [] all <-> x ∈ all) as Hmem.
    { intros x. split; [by intros [? _]%first_rows_sub|]. intros Hin.
      destruct (first_rows_all [] all x Hin) as [?%not_elem_of_nil|Hk]; [done|].
      apply list_elem_of_fmap in Hk as (y & Hk & Hy). rewrite (Hinj x y); [done|done| |done].
      by apply first_rows_sub in Hy as [? _]. }
    split; [rewrite Hp; eapply NoDup_fmap_1, first_rows_keys|]. intros x. by rewrite Hp.
  - cbn. eexists. split_and!; [reflexivity|done|done|done].
Qed.

(** ** Examples and what the engines do not do *)
#[local] Existing Instance zval.
#[local] Existing Instance isort.
#[local] Existing Instance in_order.

#[local] Instance ex_txn : TxnExec (option Z) unit := {
  txn_exec _ := Ok (zres []);
  MaxJoinRows := 100
}.

Definition returns (rows : list (list (option Z))) : PlanEngine (option Z) (Field unit) :=
  mkPlanEngine (Ok (zres rows)) (fun _ _ => Ok (zres rows)) (fun _ => Ok (zres [])).

Lemma union_distinct_witness :
  exists r, union_Execute (returns [[Some 1; Some 2]; [Some 1; Some 2]]) (returns [[Some 3; Some 4]; [Some 1; Some 2]]) "union" [] = Ok r /\
    jRows (resRows r) = [[Some 1; Some 2]; [Some 3; Some 4]] /\ NoDup (jRows (resRows r)).
Proof.
  destruct (union_distinct (returns [[Some 1; Some 2]; [Some 1; Some 2]]) (returns [[Some 3; Some 4]; [Some 1; Some 2]]) "union"
    (zres [[Some 1; Some 2]; [Some 1; Some 2]]) (zres [[Some 3; Some 4]; [Some 1; Some 2]])) as (r & Hr & _ & _ & Hd);
    [reflexivity|reflexivity|reflexivity|done|done|].
  destruct (Hd eq_refl) as (_ & _ & Hn). exists r. split; [exact Hr|].
  assert (r = mkResult ex_fields (mkJRes [[Some 1; Some 2]; [Some 3; Some 4]] 2)) as ->.
  { assert (union_Execute (returns [[Some 1; Some 2]; [Some 1; Some 2]]) (returns [[Some 3; Some 4]; [Some 1; Some 2]]) "union" []
      = Ok (mkResult ex_fields (mkJRes [[Some 1; Some 2]; [Some 3; Some 4]] 2))) as He by (vm_compute; reflexivity).
    rewrite Hr in He. injection He as ->. reflexivity. }
  split; [reflexivity|]. apply Hn. intros x y Hx Hy Hk. vm_compute in Hx, Hy.
  repeat (apply elem_of_cons in Hx as [->|Hx]; [repeat (apply elem_of_cons in Hy as [->|Hy]; [first [reflexivity|vm_compute in Hk; discriminate Hk]|]); destruct (not_elem_of_nil _ Hy)|]).
  destruct (not_elem_of_nil _ Hx).
Defined.

(** The key of a row does not separate its values: UNION of the rows (1, 23)
    and (12, 3) returns one of them. *)
Theorem union_drops_row :
  exists r, union_Execute (returns [[Some 1; Some 23]]) (returns [[Some 12; Some 3]]) "union" [] = Ok r /\
    jRows (resRows r) = [[Some 1; Some 23]].
Proof. eexists. split; [vm_compute; reflexivity|]. reflexivity. Qed.

(** A join whose left side is empty returns before its operators run: COUNT
    over it has no row, where COUNT over an empty result has the row 0, which
    is what the same join returns when its right side is the empty one. *)
Definition ex_join : JoinNode := mkJoinNode Cartesian [-1; 1] [] [] [] false false [] [] [].
Definition ex_count_all : list ChildPlan := [ChildAggregate (mkAggregatePlan [mkAggregator "count(*)" 0 AggrTypeCount false] [] false)].

Theorem join_empty_left_skips_count :
  (exists r, join_Execute (returns []) (returns [[Some 1; Some 2]]) ex_join 100 (ExecSubPlan ex_count_all) = Ok r /\
     jRows (resRows r) = []) /\
  (exists r, join_Execute (returns [[Some 1; Some 2]]) (returns []) ex_join 100 (ExecSubPlan ex_count_all) = Ok r /\
     jRows (resRows r) = [[Some 0; None]]).
Proof. split; eexists; (split; [vm_compute; reflexivity|reflexivity]). Qed.
