(* ===== verification/PlanSelect.v ===== *)
(** * Planning a SELECT (src/planner/builder: from.go, merge_node.go, project.go, aggregate_plan.go,
      orderby_plan.go, expr.go)

    A MergeNode is the part of a SELECT that every shard answers alone: its
    tables, the indexes of the shards its filters select, and the fields.  The
    select expressions are parsed into tuples, from which the plans of the
    operators are made. *)
From S2P Require Import Prelude GoStd Config Xcontext Partition Router Sql PlanExpr Join Operators.
Open Scope string_scope.
Open Scope list_scope.
Open Scope Z_scope.

(** ** Parameters *)

(** The text of expressions, and of the statement of a node with its tables
    replaced by those of one shard. *)
Class ExprPrinter := {
  fmt_expr : Expr -> string;
  fmt_select_exprs : list SelectExpr -> string
}.

(** [rand.Intn], which picks a backend for global tables. *)
Class Rand := rand_Intn : Z -> Z.
Class RandOk (R : Rand) := rand_range : forall n, 0 < n -> 0 <= rand_Intn n < n.

(** ** The FROM clause (from.go) *)

(** [MergeNode] while the plan is built, with the conditions of its WHERE
    clause in the order they were added. *)
Record MergeSt := mkMergeSt {
  msTables : gmap string tableInfo;
  msNonGlobalCnt : Z;
  msBackend : string;
  msIndexes : list Z;
  msRouteLen : nat;
  msWhere : list Expr
}.

Definition set_indexes (l : list Z) (m : MergeSt) : MergeSt :=
  mkMergeSt (msTables m) (msNonGlobalCnt m) (msBackend m) l (msRouteLen m) (msWhere m).
(** [addWhere] *)
Definition addWhere (e : Expr) (m : MergeSt) : MergeSt :=
  mkMergeSt (msTables m) (msNonGlobalCnt m) (msBackend m) (msIndexes m) (msRouteLen m) (msWhere m ++ [e]).

(** [scanAliasedTableExpr] on a table name. *)
Definition scanAliasedTableExpr (r : Router) (database : string) (t : TableName) (as_ : string) : res perr MergeSt :=
  let db := if decide (tnQualifier t = "") then database else tnQualifier t in
  let tableName := tnName t in
  conf ← of_router (TableConfigOf r db tableName);
  let shardType := tcShardType conf in
  let '(indexes, cnt, as_) :=
    if decide (shardType = "GLOBAL") then ([], 0, as_)
    else if decide (shardType = "SINGLE") then ([0], 1, as_)
    else if decide (shardType = "HASH" \/ shardType = "LIST") then ([], 1, if decide (as_ = "") then tableName else as_)
    else ([], 0, as_) in
  let tn := mkTableInfo db tableName as_ (tcShardKey conf) shardType conf [] in
  Ok (mkMergeSt {[ (if decide (as_ = "") then tableName else as_) := tn ]} cnt "" indexes 0 []).

(** [isSameShard]; a table that is not in the map is a nil dereference. *)
Definition isSameShard (ltb rtb : gmap string tableInfo) (lcn rcn : ColName) : res perr bool :=
  match ltb !! tnName (cnQualifier lcn) with
  | None => Panic
  | Some lt =>
      if bool_decide (tiShardKey lt = "") || negb (EqualString (cnName lcn) (tiShardKey lt)) then Ok false
      else match rtb !! tnName (cnQualifier rcn) with
           | None => Panic
           | Some rt =>
               if bool_decide (tiShardKey rt = "") || negb (EqualString (cnName rcn) (tiShardKey rt)) then Ok false
               else
                 let ltp := tcPartitions (tiConfig lt) in
                 let rtp := tcPartitions (tiConfig rt) in
                 Ok (Nat.eqb (length ltp) (length rtp) &&
                     forallb (fun lr => bool_decide (pcSegment lr.1 = pcSegment lr.2) &&
                                        bool_decide (pcBackend lr.1 = pcBackend lr.2)) (zip ltp rtp))
           end
  end.

Section merge.
Context `{IR : InMapRange, R : MapRange, J : JumpHash, RI : Rand}.

(** ** Filters (merge_node.go) *)

(** [fetchIndex] *)
Definition fetchIndex (r : Router) (tbInfo : tableInfo) (m : MergeSt) (val : SQLVal) : res perr MergeSt :=
  idx ← of_router (GetIndex r (tiDatabase tbInfo) (tiTableName tbInfo) val);
  Ok (set_indexes (msIndexes m ++ [idx]) m).

(** [MergeNode.pushFilter] *)
Definition pushFilter (r : Router) (m : MergeSt) (filter : exprInfo) : res perr MergeSt :=
  let m := addWhere (eiExpr filter) m in
  match eiReferTables filter with
  | [tb] =>
      match msTables m !! tb with
      | None => Panic
      | Some tbInfo =>
          match eiVals filter with
          | [] => Ok m
          | vals =>
              if decide (tiShardKey tbInfo = "") then Ok m
              else match eiCols filter with
                   | [] => Panic
                   | c :: _ =>
                       if nameMatch (ColNameE c) tb (tiShardKey tbInfo)
                       then res_fold (fetchIndex r tbInfo) m vals else Ok m
                   end
          end
      end
  | _ => Ok m
  end.

(** [pushFilters] on a MergeNode. *)
Definition pushFilters (r : Router) (m : MergeSt) (expr : Expr) : res perr MergeSt :=
  jw ← parseWhereOrJoinExprs expr (msTables m);
  m ← res_fold (pushFilter r) m (snd jw);
  Ok (foldl (fun m j => addWhere (eiExpr j) m) m (fst jw)).

(** ** Routes (merge_node.go) *)
Definition set_segments (segs : list Segment) (t : tableInfo) : tableInfo :=
  mkTableInfo (tiDatabase t) (tiTableName t) (tiAlias t) (tiShardKey t) (tiShardType t) (tiConfig t) segs.

(** One table of [calcRoute] when not all tables are global. *)
Definition route_table (r : Router) (m : MergeSt) (kt : string * tableInfo) : res perr MergeSt :=
  let '(k, t) := kt in
  if decide (tiShardType t = "GLOBAL") then Ok m
  else
    segs ← of_router (GetSegments r (tiDatabase t) (tiTableName t) (msIndexes m));
    Ok (mkMergeSt (<[k := set_segments segs t]> (msTables m)) (msNonGlobalCnt m)
          (match segs with
           | [sg] => if decide (msBackend m = "") then sgBackend sg else msBackend m
           | _ => msBackend m
           end)
          (msIndexes m)
          (if Nat.eqb (msRouteLen m) 0 then length segs else msRouteLen m) (msWhere m)).

(** [MergeNode.calcRoute] *)
Definition calcRoute (r : Router) (m : MergeSt) : res perr MergeSt :=
  if msNonGlobalCnt m =? 0 then
    match map_range (msTables m) with
    | [] => Ok m
    | (_, t) :: _ =>
        segs ← of_router (Lookup r (tiDatabase t) (tiTableName t) None None);
        match segs with
        | [] => Panic
        | _ =>
            let idx := rand_Intn (Z.of_nat (length segs)) in
            match segs !! Z.to_nat idx with
            | None => Panic
            | Some sg => Ok (mkMergeSt (msTables m) 0 (sgBackend sg) (msIndexes m ++ [idx]) 1 (msWhere m))
            end
        end
    end
  else res_fold (route_table r) m (map_range (msTables m)).

(** ** Queries (merge_node.go) *)

(** One table of the inner loop of [buildQuery]: the backend and the range so
    far, and the names of the tables of shard [i]. *)
Definition query_table (i : nat) (st : string * string * gmap string string) (kt : string * tableInfo)
    : res perr (string * string * gmap string string) :=
  let '(backend, range, names) := st in
  let '(k, t) := kt in
  if decide (tiShardKey t = "") then Ok st
  else match tiSegments t !! i with
       | None => Panic
       | Some sg =>
           match sgRange sg with
           | None => Panic
           | Some rg => Ok (if decide (backend = "") then sgBackend sg else backend,
                            KeyRange_String (rgVal rg), <[k := sgTable sg]> names)
           end
       end.

(** [MergeNode.buildQuery]: [print] is the statement of the node with the given
    table names.  The range is left from the last table that had one. *)
Fixpoint build_querys (print : gmap string string -> string) (m : MergeSt) (range : string) (i n : nat)
    : res perr (list QueryTuple) :=
  match n with
  | O => Ok []
  | S n =>
      st ← res_fold (query_table i) (msBackend m, range, ∅) (map_range (msTables m));
      let '(backend, range, names) := st in
      rest ← build_querys print m range (S i) n;
      Ok (mkQueryTuple (print names) backend range :: rest)
  end.
Definition buildQuery (print : gmap string string -> string) (m : MergeSt) : res perr (list QueryTuple) :=
  build_querys print m "" 0 (msRouteLen m).
End merge.

(** ** Select expressions (project.go) *)

(** [selectTuple] *)
Record selectTuple := mkSelectTuple {
  stExpr : SelectExpr;
  stInfo : exprInfo;
  stField : string;
  stAlias : string;
  stAggrFuc : string;
  stAggrField : string;
  stDistinct : bool;
  stIsCol : bool
}.

(** [sqlparser.Aggregates], [FuncExpr.IsAggregate] *)
Definition Aggregates : list string :=
  ["avg"; "bit_and"; "bit_or"; "bit_xor"; "count"; "group_concat"; "max"; "min"; "std"; "stddev_pop";
   "stddev_samp"; "stddev"; "sum"; "var_pop"; "var_samp"; "variance"].
Definition IsAggregate (name : string) : bool := bool_decide (ToLower name ∈ Aggregates).

(** What the walk of [parseSelectExpr] collects. *)
Record SelSt := mkSelSt {
  ssCols : list ColName; ssTables : list string; ssFunc : string; ssAggrField : string;
  ssDistinct : bool; ssHasAggr : bool
}.

Section project.
Context `{R : MapRange, EP : ExprPrinter}.

(** The visitor of [parseSelectExpr]; [root] tells whether the node is the
    whole expression. *)
Definition select_visit (tbInfos : gmap string tableInfo) (field : string) (root : bool) (st : SelSt) (node : Expr)
    : res perr SelSt :=
  match node with
  | ColNameE c =>
      t ← refer_table tbInfos (EUnknownColumn "select.exprs" "" (cnName c))
            (EUnknownColumn "field.list" (tnName (cnQualifier c)) field) c;
      Ok (mkSelSt (ssCols st ++ [c]) (add_table (ssTables st) t) (ssFunc st) (ssAggrField st) (ssDistinct st) (ssHasAggr st))
  | FuncExpr name distinct exprs =>
      if IsAggregate name then
        if negb root then Err (EAggregateNested field)
        else if negb (Nat.eqb (length exprs) 1) then Err (EGroupFunction name)
        else
          let aggrField := fmt_select_exprs exprs in
          if bool_decide (aggrField = "*") && (negb (bool_decide (name = "count")) || distinct) then Err (ESyntaxAt field)
          else Ok (mkSelSt (ssCols st) (ssTables st) name aggrField distinct true)
      else Ok (mkSelSt (ssCols st) (ssTables st) (ssFunc st) (ssAggrField st) distinct (ssHasAggr st))
  | Node (GroupConcatExpr _ _) _ => Err EGroupConcat
  | Subquery _ => Err (ESubquery "select.exprs")
  | _ => Ok st
  end.

(** [parseSelectExpr]: the tuple and whether it has an aggregate. *)
Definition parseSelectExpr (e : Expr) (as_ : string) (tbInfos : gmap string tableInfo) : res perr (selectTuple * bool) :=
  let field := match e with ColNameE c => cnName c | _ => fmt_expr e end in
  let isCol := match e with ColNameE _ => true | _ => false end in
  match nodes e with
  | [] => Panic
  | n :: ns =>
      st ← select_visit tbInfos field true (mkSelSt [] [] "" "" false false) n;
      st ← res_fold (select_visit tbInfos field false) st ns;
      Ok (mkSelectTuple (AliasedExpr e as_) (mkExprInfo e (ssTables st) (ssCols st) []) field as_
            (ssFunc st) (ssAggrField st) (ssDistinct st) isCol, ssHasAggr st)
  end.

(** [aggrType], [setAggregatorType] *)
Inductive aggrType := nullAgg | canPush | notPush.
Definition setAggregatorType (hasAggr hasDist isMergeNode : bool) : aggrType :=
  if hasAggr then if hasDist || negb isMergeNode then notPush else canPush else nullAgg.

(** One iteration of [parseSelectExprs]. *)
Definition select_step (isMergeNode : bool) (tbInfos : gmap string tableInfo)
    (st : list selectTuple * bool * bool) (expr : SelectExpr) : res perr (list selectTuple * bool * bool) :=
  let '(tuples, hasAggs, hasDist) := st in
  match expr with
  | AliasedExpr e as_ =>
      th ← parseSelectExpr e as_ tbInfos;
      let '(tuple, hasAgg) := th in
      Ok (tuples ++ [tuple], hasAggs || hasAgg, hasDist || (hasAgg && stDistinct tuple))
  | StarExpr t =>
      if negb isMergeNode then Err EStarCrossShard
      else
        refs ← (if decide (tnName t = "") then Ok []
                else match tbInfos !! tnName t with
                     | None => Err (EUnknownTable "field list" (tnName t) "")
                     | Some _ => Ok [tnName t]
                     end);
        Ok (tuples ++ [mkSelectTuple expr (mkExprInfo NullVal refs [] []) "*" "" "" "" false false], hasAggs, hasDist)
  | Nextval => Err ENextval
  end.

(** [parseSelectExprs] *)
Definition parseSelectExprs (exprs : list SelectExpr) (isMergeNode : bool) (tbInfos : gmap string tableInfo)
    : res perr (list selectTuple * aggrType) :=
  st ← res_fold (select_step isMergeNode tbInfos) ([], false, false) exprs;
  let '(tuples, hasAggs, hasDist) := st in
  Ok (tuples, setAggregatorType hasAggs hasDist isMergeNode).
End project.

(** [tuple.info.referTables[0]] of a column. *)
Definition first_table (t : selectTuple) : res perr string :=
  match eiReferTables (stInfo t) with tb :: _ => Ok tb | [] => Panic end.

(** [checkInTuple] *)
Fixpoint checkInTuple (field table : string) (tuples : list selectTuple) : res perr (option selectTuple) :=
  match tuples with
  | [] => Ok None
  | t :: ts =>
      if bool_decide (table = "") && (bool_decide (stField t = "*") || EqualFold field (stAlias t)) then Ok (Some t)
      else if bool_decide (stField t = "*") &&
              match eiReferTables (stInfo t) with [] => true | tb :: _ => bool_decide (tb = table) end then Ok (Some t)
      else if stIsCol t && EqualFold field (stField t) then
        if decide (table = "") then Ok (Some t)
        else tb ← first_table t; if decide (table = tb) then Ok (Some t) else checkInTuple field table ts
      else checkInTuple field table ts
  end.

(** ** GROUP BY (project.go) *)

(** The field of the select list a GROUP BY column names. *)
Fixpoint group_field (field table : string) (fields : list selectTuple) : res perr (option selectTuple) :=
  match fields with
  | [] => Ok None
  | t :: ts =>
      if bool_decide (table = "") && EqualFold field (stAlias t) then Ok (Some t)
      else if stIsCol t && EqualFold field (stField t) then
        if decide (table = "") then Ok (Some t)
        else tb ← first_table t; if decide (table = tb) then Ok (Some t) else group_field field table ts
      else group_field field table ts
  end.

(** [checkShard] *)
Definition checkShard (table col : string) (tbInfos : gmap string tableInfo) : res perr bool :=
  match tbInfos !! table with
  | None => Err (EUnknownColumn "field list" table col)
  | Some t => Ok (negb (bool_decide (tiShardKey t = "")) && EqualFold (tiShardKey t) col)
  end.

(** One column of [checkGroupBy]. *)
Definition group_step (fields : list selectTuple) (tbInfos : gmap string tableInfo) (canOpt : bool)
    (st : list selectTuple * bool) (expr : Expr) : res perr (list selectTuple * bool) :=
  let '(groups, hasShard) := st in
  match expr with
  | ColNameE c =>
      let field := cnName c in
      let table := tnName (cnQualifier c) in
      if negb (bool_decide (table = "")) && bool_decide (tbInfos !! table = None) then
        Err (EUnknownTable "group by" table field)
      else
        g ← group_field field table fields;
        match g with
        | None => Err (EGroupNotSelected field)
        | Some g =>
            hs ← (if canOpt && stIsCol g && negb hasShard
                  then tb ← first_table g; checkShard tb (stField g) tbInfos else Ok hasShard);
            Ok (groups ++ [g], hs)
        end
  | _ => Err EGroupNotCol
  end.

(** [checkGroupBy]: the groups to aggregate by in the proxy, none when the
    shard key is among them. *)
Definition checkGroupBy (exprs : list Expr) (fields : list selectTuple) (tbInfos : gmap string tableInfo) (canOpt : bool)
    : res perr (list selectTuple) :=
  st ← res_fold (group_step fields tbInfos canOpt) ([], false) exprs;
  Ok (if (snd st : bool) then [] else fst st).

(** [decomposeAvg] *)
Definition decomposeAvg (tuple : selectTuple) : res perr (list SelectExpr) :=
  let alias := if decide (stAlias tuple = "") then stField tuple else stAlias tuple in
  match stExpr tuple with
  | AliasedExpr (FuncExpr _ _ exprs) _ =>
      Ok [AliasedExpr (FuncExpr "sum" false exprs) alias; AliasedExpr (FuncExpr "count" false exprs) ""]
  | _ => Panic
  end.

(** [decomposeAgg] *)
Definition decomposeAgg (tuple : selectTuple) : res perr SelectExpr :=
  let alias := if decide (stAlias tuple = "") then stField tuple else stAlias tuple in
  match stExpr tuple with
  | AliasedExpr (FuncExpr _ _ (StarExpr _ :: _)) _ => Ok (AliasedExpr (SQLValE (mkSQLVal IntVal "1")) alias)
  | AliasedExpr (FuncExpr _ _ (AliasedExpr e _ :: _)) _ => Ok (AliasedExpr e alias)
  | _ => Panic
  end.

(** ** AggregatePlan (aggregate_plan.go) *)

(** The aggregate an expression asks for. *)
Definition aggr_of (f : string) : option AggrType :=
  let f := ToLower f in
  if decide (f = "sum") then Some AggrTypeSum
  else if decide (f = "count") then Some AggrTypeCount
  else if decide (f = "min") then Some AggrTypeMin
  else if decide (f = "max") then Some AggrTypeMax
  else if decide (f = "avg") then Some AggrTypeAvg
  else None.

(** The state of [analyze]: the aggregators, the plain fields with their
    columns, the next column, the rewritten expressions and the tuples of the
    node, whose expressions are rewritten in place. *)
Record AggrSt := mkAggrSt {
  asNormal : list Aggregator; asNull : list Aggregator; asK : nat; asRewritten : list SelectExpr;
  asTuples : list selectTuple
}.

(** [p.tuples[k].expr = e] *)
Definition set_stExpr (e : SelectExpr) (t : selectTuple) : selectTuple :=
  mkSelectTuple e (stInfo t) (stField t) (stAlias t) (stAggrFuc t) (stAggrField t) (stDistinct t) (stIsCol t).

(** [p.rewritten[k] = e] *)
Definition put_expr (k : nat) (e : SelectExpr) (l : list SelectExpr) : res perr (list SelectExpr) :=
  if decide (k < length l)%nat then Ok (<[k := e]> l) else Panic.

(** One field of [analyze]. *)
Definition aggr_step (isPushDown : bool) (st : AggrSt) (tuple : selectTuple) : res perr AggrSt :=
  let k := asK st in
  if decide (stAggrFuc tuple = "") then
    if decide (stField tuple = "*") then Err EStarWithAggregate
    else Ok (mkAggrSt (asNormal st) (asNull st ++ [mkAggregator (stField tuple) (Z.of_nat k) AggrTypeNull false])
               (S k) (asRewritten st) (asTuples st))
  else match aggr_of (stAggrFuc tuple) with
       | None => Err (EFunction (stAggrFuc tuple))
       | Some ty =>
           let a := mkAggregator (stField tuple) (Z.of_nat k) ty (stDistinct tuple) in
           if isPushDown then
             match ty with
             | AggrTypeAvg =>
                 avgs ← decomposeAvg tuple;
                 let sum := mkAggregator ("sum(" +:+ stAggrField tuple +:+ ")") (Z.of_nat k) AggrTypeSum false in
                 let count := mkAggregator ("count(" +:+ stAggrField tuple +:+ ")") (Z.of_nat (S k)) AggrTypeCount false in
                 if decide (k < length (asRewritten st))%nat then
                   Ok (mkAggrSt (asNormal st ++ [a; sum; count]) (asNull st) (S (S k))
                         (take k (asRewritten st) ++ avgs ++ drop (S k) (asRewritten st)) (asTuples st))
                 else Panic
             | _ => Ok (mkAggrSt (asNormal st ++ [a]) (asNull st) (S k) (asRewritten st) (asTuples st))
             end
           else
             e ← decomposeAgg tuple;
             l ← put_expr k e (asRewritten st);
             Ok (mkAggrSt (asNormal st ++ [a]) (asNull st) (S k) l (alter (set_stExpr e) k (asTuples st)))
       end.

(** The column of a GROUP BY field: the first plain field of that name. *)
Fixpoint null_index (nulls : list Aggregator) (field : string) : option Z :=
  match nulls with
  | [] => None
  | n :: ns => if EqualFold (agField n) field then Some (agIndex n) else null_index ns field
  end.

Definition group_aggr (nulls : list Aggregator) (by_ : selectTuple) : res perr Aggregator :=
  match null_index nulls (stField by_) with
  | None => Err (EGroupNotPlain (stField by_))
  | Some idx => Ok (mkAggregator (stField by_) idx AggrTypeGroupBy false)
  end.

(** [AggregatePlan.Build]: the plan of the operator, the rewritten select
    expressions and the tuples of the node. *)
Definition AggregatePlan_Build (exprs : list SelectExpr) (tuples groups : list selectTuple) (isPushDown : bool)
    : res perr (AggregatePlan * list SelectExpr * list selectTuple) :=
  st ← res_fold (aggr_step isPushDown) (mkAggrSt [] [] 0 exprs tuples) tuples;
  gs ← res_map (group_aggr (asNull st)) groups;
  Ok (mkAggregatePlan (asNormal st) gs isPushDown, asRewritten st, asTuples st).
