(* ===== verification/PlanSelectProps.v ===== *)
(** * What the planning of a SELECT guarantees

    The shards a SELECT on one table is sent to hold every row its WHERE clause
    is true of; two tables that are joined inside the shards keep equal keys in
    the same shard; and the statements on which the planner answers wrongly. *)
From S2P Require Import Prelude GoStd Config Xcontext Partition Compute Router Frm RouterProps Sql PlanExpr PlanExprProps Join Operators JoinProps OperatorsProps PlanSelect.
Open Scope string_scope.
Open Scope list_scope.
Open Scope Z_scope.

(** ** The conditions of the tree

    The grammar gives ESCAPE to LIKE only. *)
Definition no_escape (e : Expr) : Prop :=
  forall op l r x, ComparisonExpr op l r (Some x) ∈ nodes e -> op <> EqualStr /\ op <> InStr.

Lemma nodes_self e : e ∈ nodes e.
Proof. destruct e; simpl; by left. Qed.

Lemma nodes_skip e : nodes (skipParenthesis e) ⊆ nodes e.
Proof. induction e; simpl; set_solver. Qed.

Lemma splitAnd_nodes e : forall fs f, f ∈ splitAndExpression fs e -> f ∈ fs \/ nodes f ⊆ nodes e.
Proof.
  assert (forall fs e f, f ∈ fs ++ [e] -> f ∈ fs \/ nodes f ⊆ nodes e) as H1
    by (intros fs e0 f; set_solver).
  induction e as [l IHl r IHr| | e IH| | | | | | | |]; intros fs f Hf; simpl in Hf; try by apply H1.
  - destruct (IHr _ _ Hf) as [[Hl|Hl]%IHl|Hr]; [by left|right; simpl; set_solver..].
  - destruct e; try by apply H1. destruct (IH _ _ Hf); [by left|right; simpl in *; set_solver].
Qed.

Lemma splitOr_nodes e : forall m subs m' s, splitOrExpression e m = (subs, m') -> s ∈ subs -> nodes s ⊆ nodes e.
Proof.
  induction e as [| l IHl r IHr | e IH | op l _ r _ esc | | | | | | |]; intros m subs m' s H Hs; simpl in H;
    try (injection H as <- <-; by apply list_elem_of_singleton in Hs as ->).
  - destruct (splitOrExpression l m) as [ls m1] eqn:Hl. destruct (splitOrExpression r m1) as [rs m2] eqn:Hr.
    injection H as <- <-. apply elem_of_app in Hs as [Hs|Hs]; [apply (IHl _ _ _ _ Hl) in Hs|apply (IHr _ _ _ _ Hr) in Hs];
      simpl; set_solver.
  - rewrite splitOr_skip in H. specialize (IH _ _ _ _ H Hs). simpl. set_solver.
  - destruct (if decide (op = EqualStr) then _ else None) as [[c v]|];
      injection H as <- <-; [by apply not_elem_of_nil in Hs|by apply list_elem_of_singleton in Hs as ->].
Qed.

Lemma rebuild_some l : forall a e, foldl (fun o e => Some (rebuildOr o e)) (Some a) l = Some e ->
  e = a \/ exists x y, e = OrExpr x y.
Proof.
  induction l as [|x l IH]; intros a e H; simpl in H; [injection H as ->; by left|].
  destruct (IH _ _ H) as [->|]; eauto.
Qed.

Lemma rebuild_elem l e : foldl (fun o e => Some (rebuildOr o e)) None l = Some e ->
  e ∈ l \/ exists x y, e = OrExpr x y.
Proof.
  destruct l as [|a l]; simpl; [done|]. intros [->|?]%rebuild_some; [left; by left|by right].
Qed.

Lemma convertOrToIn_no_escape `{IR : InMapRange} e op l r x :
  no_escape e -> convertOrToIn e = ComparisonExpr op l r (Some x) -> op <> EqualStr /\ op <> InStr.
Proof.
  intros He H. destruct e as [|a b| |op' l' r' esc| | | | | | |]; try done.
  2: { injection H as -> -> -> ->. eapply He, nodes_self. }
  unfold convertOrToIn in H. destruct (splitOrExpression (OrExpr a b) []) as [subs m] eqn:Hs.
  destruct (foldl _ _ _) as [e|] eqn:Hf; simpl in H; [subst e|done].
  apply rebuild_elem in Hf as [[Hin|Hin]%elem_of_app|(? & ? & ?)]; [| |done].
  - eapply He, (splitOr_nodes _ _ _ _ _ Hs Hin), nodes_self.
  - apply list_elem_of_fmap in Hin as (kv & ? & _). done.
Qed.

(** ** What a filter tells *)
Section walk.
Context `{IR : InMapRange, R : MapRange}.

Lemma where_cols tbs e st : Walk (where_visit tbs) ([], []) e = Ok st -> st.1 = cols_of e.
Proof.
  unfold Walk, cols_of.
  apply (res_fold_inv (where_visit tbs) (fun ns st => st.1 = omap col_of ns)); [done|].
  intros ns n [cs ts] st' IH H. cbn [fst] in IH. subst cs. rewrite omap_app.
  destruct n; simpl in *; try (injection H as <-; by rewrite app_nil_r); try done.
  destruct (refer_table _ _ _); simpl in H; [|done..]. by injection H as <-.
Qed.

(** A filter with values is an equality or an IN list between its first column
    and literals. *)
Definition point_filter (w : exprInfo) : Prop :=
  exists c, eiCols w = [c] /\
    ((exists x, eiVals w = [x] /\ eiExpr w = ComparisonExpr EqualStr (ColNameE c) (SQLValE x) None) \/
     eiExpr w = ComparisonExpr InStr (ColNameE c) (ValTuple (SQLValE <$> eiVals w)) None).

Lemma tuple_vals_spec es vs : tuple_vals es = Some vs -> es = SQLValE <$> vs.
Proof.
  revert vs. induction es as [|e es IH]; intros vs H; [by injection H as <-|].
  destruct e; try done. cbn in H. destruct (tuple_vals es) as [vs'|]; [|done]. injection H as <-.
  cbn. f_equal. by apply IH.
Qed.

Lemma cols_lits vs : omap col_of (List.flat_map nodes (SQLValE <$> vs)) = [].
Proof. by induction vs. Qed.

Lemma classify_point f rt w :
  (forall op l r x, f = ComparisonExpr op l r (Some x) -> op <> EqualStr /\ op <> InStr) ->
  classify f rt (cols_of f) = inr w -> eiVals w <> [] -> point_filter w.
Proof.
  intros Hesc H Hv. unfold classify in H. destruct f as [| | |op l r esc| | | | | | |]; try (injection H as <-; done).
  case_decide as Heq; [subst op|case_decide as Hin; [subst op|by injection H as <-]].
  - destruct esc as [x|]; [by destruct (Hesc _ _ _ _ eq_refl)|].
    destruct l, r; try (injection H as <-; done); [injection H as <-| injection H as <-|by case_decide; simplify_eq].
    + exists c. split; [done|]. left. eauto.
    + exists c. split; [done|]. left. eauto.
  - destruct esc as [x|]; [by destruct (Hesc _ _ _ _ eq_refl)|].
    destruct l, r; try (injection H as <-; done). injection H as <-.
    destruct (tuple_vals es) as [vs|] eqn:Ht; [|done]. apply tuple_vals_spec in Ht as ->. exists c. simpl.
    split; [|by right]. unfold cols_of. simpl. by rewrite cols_lits.
Qed.

Lemma parse_points e tbs joins wheres w :
  no_escape e -> parseWhereOrJoinExprs e tbs = Ok (joins, wheres) -> w ∈ wheres -> eiVals w <> [] -> point_filter w.
Proof.
  intros He H. unfold parseWhereOrJoinExprs in H.
  assert (Forall (fun f => nodes f ⊆ nodes e) (splitAndExpression [] e)) as Hsub.
  { apply Forall_forall. intros f Hf. by destruct (splitAnd_nodes _ _ _ Hf) as [?%not_elem_of_nil|]. }
  revert H Hsub. generalize (splitAndExpression [] e). intros fs.
  apply (res_fold_inv (parse_filter tbs) (fun fs acc => Forall (fun f => nodes f ⊆ nodes e) fs ->
    w ∈ acc.2 -> eiVals w <> [] -> point_filter w)); [by intros _ ?%not_elem_of_nil|].
  intros fs' f [js ws] acc' IH Hf [Hfs [Hsub _]%Forall_cons]%Forall_app. unfold parse_filter in Hf.
  destruct (Walk _ _ _) as [st| |] eqn:Hw; simpl in Hf; try done. apply where_cols in Hw. rewrite Hw in Hf.
  destruct (classify _ _ _) as [j|w'] eqn:Hc; injection Hf as <-; [by apply IH|].
  intros [Hin| ->%list_elem_of_singleton]%elem_of_app; [by apply IH|]. intros Hv.
  eapply classify_point; [|exact Hc|exact Hv]. intros op l r x. apply convertOrToIn_no_escape.
  intros op' l' r' x' Hn. eapply He, Hsub, nodes_skip, Hn.
Qed.
End walk.

Lemma lits_tuple vs : omap lit_of (List.flat_map nodes (SQLValE <$> vs)) = vs.
Proof. induction vs as [|x vs IH]; [done|]. cbn. f_equal. exact IH. Qed.

Lemma classify_vals f rt w : classify f rt (cols_of f) = inr w -> eiVals w ⊆ literals f.
Proof.
  intros H. unfold classify in H. destruct f as [| | |op l r esc| | | | | | |]; try (injection H as <-; simpl; set_solver).
  unfold literals. cbn [nodes omap list_omap lit_of]. rewrite !omap_app.
  case_decide; [|case_decide; [|injection H as <-; simpl; set_solver]].
  - destruct l, r; try case_decide; simplify_eq/=; set_solver.
  - destruct l, r; simplify_eq/=; try set_solver.
    destruct (tuple_vals es) as [vs|] eqn:Ht; [|set_solver]. apply tuple_vals_spec in Ht as ->.
    rewrite lits_tuple. set_solver.
Qed.

Lemma parse_vals `{IR : InMapRange, !InMapRangeOk IR, R : MapRange} e tbs joins wheres w :
  parseWhereOrJoinExprs e tbs = Ok (joins, wheres) -> w ∈ wheres -> eiVals w ⊆ literals e.
Proof.
  unfold parseWhereOrJoinExprs.
  assert (Forall (fun f => literals f ⊆ literals e) (splitAndExpression [] e)) as Hsub.
  { apply Forall_forall. intros f Hf. by destruct (splitAnd_literals _ _ _ Hf) as [?%not_elem_of_nil|]. }
  revert Hsub. generalize (splitAndExpression [] e). intros fs Hfs H. revert Hfs.
  change wheres with (joins, wheres).2. revert H.
  apply (res_fold_inv (parse_filter tbs) (fun fs acc => Forall (fun f => literals f ⊆ literals e) fs ->
    w ∈ acc.2 -> eiVals w ⊆ literals e)); [by intros _ ?%not_elem_of_nil|].
  intros fs' f [js ws] acc' IH Hf [Hfs [Hsub _]%Forall_cons]%Forall_app. unfold parse_filter in Hf.
  destruct (Walk _ _ _) as [st| |] eqn:Hw; simpl in Hf; try done. apply where_cols in Hw. rewrite Hw in Hf.
  destruct (classify _ _ _) as [j|w'] eqn:Hc; injection Hf as <-; [by apply IH|].
  intros [Hin| ->%list_elem_of_singleton]%elem_of_app; [by apply IH|].
  etrans; [by eapply classify_vals|]. etrans; [apply convertOrToIn_literals|]. by rewrite literals_skip.
Qed.

Lemma map_range_singleton `{R : MapRange, !MapRangeOk R} {A} (k : string) (x : A) :
  map_range ({[k := x]} : gmap string A) = [(k, x)].
Proof. apply Permutation_singleton_r. by rewrite map_range_perm, map_to_list_singleton. Qed.

(** ** The queries of a route *)
Lemma build_querys_spec `{R : MapRange, !MapRangeOk R} print m k ti : forall n i range qs,
  msTables m = {[k := ti]} -> tiShardKey ti <> "" -> build_querys print m range i n = Ok qs ->
  forall j s, (j < n)%nat -> tiSegments ti !! (i + j)%nat = Some s ->
  exists q, qs !! j = Some q /\ qtQuery q = print {[k := sgTable s]} /\
    qtBackend q = if decide (msBackend m = "") then sgBackend s else msBackend m.
Proof.
  induction n as [|n IH]; intros i range qs Ht Hk H j s Hj Hs; [lia|]. cbn [build_querys] in H.
  rewrite Ht, map_range_singleton in H. cbn [res_fold query_table] in H. rewrite decide_False in H by done.
  destruct (tiSegments ti !! i) as [s0|] eqn:Hs0; [|done].
  destruct (sgRange s0) as [rg|]; [|done]. cbn [mbind res_bind] in H.
  destruct (build_querys print m _ (S i) n) as [rest| |] eqn:Hr; simpl in H; try done. injection H as <-.
  destruct j as [|j].
  - rewrite Nat.add_0_r, Hs0 in Hs. injection Hs as <-. eexists. split; [done|]. simpl. split; [|done].
    by rewrite insert_empty.
  - eapply IH in Hr as (q & Hq & ?); [by exists q|done|done| |by rewrite Nat.add_succ_comm]. lia.
Qed.

(** ** The route of a SELECT on one table *)
Section route.
Context {V : Type} `{SS : SqlSem V, !SqlSemOk V}.
Context `{IR : InMapRange, !InMapRangeOk IR} `{J : JumpHash, !JumpHashOk J} `{R : MapRange, !MapRangeOk R} `{RI : Rand}.
Variables (env : ColName -> V) (r : Router) (db t : string) (tb : Table) (p : Partition) (v : SQLVal) (sg : Segment).
Variables (k : string) (ti : tableInfo).
Hypothesis Htb : getTable r db t = Ok tb.
Hypothesis Hp : tPartition tb = Some p.
Hypothesis Hwf : wf_partition p.
Hypothesis Hrow : p_Lookup p (Some v) (Some v) = Ok [sg].
Hypothesis Hti : tiDatabase ti = db /\ tiTableName ti = t.
Hypothesis Hkey : forall c, nameMatch (ColNameE c) k (tiShardKey ti) = true -> env c = sem_lit v.

(** The node before its route: its only table, and the index of the row among
    the indexes if there are any. *)
Definition routed (m : MergeSt) : Prop :=
  msTables m = {[k := ti]} /\ msNonGlobalCnt m = 1 /\ msBackend m = "" /\ msRouteLen m = 0%nat /\
  (msIndexes m = [] \/ exists i, GetIndex r db t v = Ok i /\ i ∈ msIndexes m).

Lemma fetch_fold vals : forall m m', res_fold (fetchIndex r ti) m vals = Ok m' ->
  exists idxs, Forall2 (fun x i => GetIndex r db t x = Ok i) vals idxs /\ m' = set_indexes (msIndexes m ++ idxs) m.
Proof.
  destruct Hti as [Hd Ht]. induction vals as [|x vals IH]; intros m m' H; simpl in H.
  - injection H as <-. exists []. rewrite app_nil_r. split; [constructor|]. by destruct m.
  - destruct (fetchIndex r ti m x) as [m1| |] eqn:Hf; simpl in H; try done.
    unfold fetchIndex in Hf. rewrite Hd, Ht in Hf.
    destruct (GetIndex r db t x) as [i| |] eqn:Hx; simpl in Hf; try done. injection Hf as <-.
    destruct (IH _ _ H) as (idxs & HF & ->). exists (i :: idxs). split; [by constructor|].
    simpl. by rewrite <- app_assoc.
Qed.

Lemma point_true w : point_filter w -> cond env (eiExpr w) = Some true ->
  forall c, eiCols w = [c] -> env c = sem_lit v ->
  exists x, x ∈ eiVals w /\ sem_eq (sem_lit v) (sem_lit x) = Some true.
Proof.
  intros (c & Hc & [(x & Hv & He)|He]) Ht c' Hc' Hval; rewrite Hc in Hc'; injection Hc' as <-; rewrite He in Ht.
  - rewrite Hv. exists x. split; [by left|]. unfold cond in Ht. simpl in Ht. by rewrite truth_of3, Hval in Ht.
  - rewrite (in_list_sem env (c, eiVals w)) in Ht. apply or3s_true in Ht.
    apply list_elem_of_fmap in Ht as (x & Hx & Hin). simpl in Hx. rewrite Hval in Hx. eauto.
Qed.

Lemma pushFilter_routed m m' w :
  routed m -> (eiVals w <> [] -> point_filter w) -> cond env (eiExpr w) = Some true ->
  (forall x, x ∈ eiVals w -> sem_eq (sem_lit v) (sem_lit x) = Some true -> GetIndex r db t x = GetIndex r db t v) ->
  pushFilter r m w = Ok m' -> routed m'.
Proof.
  intros (Ht & Hn & Hb & Hl & Hi) Hpt Htrue Hcoh H. unfold pushFilter in H.
  assert (routed (addWhere (eiExpr w) m)) as Hadd by done.
  destruct (eiReferTables w) as [|tb0 [|]]; [by injection H as <-| |by injection H as <-].
  cbn [msTables addWhere] in H. rewrite Ht in H.
  destruct (decide (tb0 = k)) as [->|]; [|by rewrite lookup_singleton_ne in H].
  rewrite lookup_singleton_eq in H. destruct (eiVals w) as [|y vals] eqn:Hvals; [by injection H as <-|].
  case_decide; [by injection H as <-|]. destruct (eiCols w) as [|c cs] eqn:Hcols; [done|].
  destruct (nameMatch (ColNameE c) k (tiShardKey ti)) eqn:Hm; [|by injection H as <-].
  specialize (Hpt ltac:(done)). pose proof Hpt as (c' & Hc' & _). rewrite Hcols in Hc'. injection Hc' as -> ->.
  destruct (point_true _ Hpt Htrue _ Hcols (Hkey _ Hm)) as (x & Hx & Heq). rewrite Hvals in Hx.
  apply fetch_fold in H as (idxs & HF & ->). do 4 (split; [done|]). right.
  apply list_elem_of_lookup in Hx as [n Hn']. destruct (Forall2_lookup_l _ _ _ _ _ HF Hn') as (i & Hin & Hgi).
  exists i. rewrite <- (Hcoh x); [|by eapply list_elem_of_lookup_2|done]. split; [done|].
  simpl. apply elem_of_app. right. by eapply list_elem_of_lookup_2.
Qed.

Lemma pushFilters_routed m m' e :
  env_ok env -> no_escape e -> cond env e = Some true ->
  (forall x, x ∈ literals e -> sem_eq (sem_lit v) (sem_lit x) = Some true -> GetIndex r db t x = GetIndex r db t v) ->
  routed m -> pushFilters r m e = Ok m' -> routed m'.
Proof.
  intros Henv Hesc Htrue Hcoh Hm H. unfold pushFilters in H.
  destruct (parseWhereOrJoinExprs e (msTables m)) as [[js ws]| |] eqn:Hparse; simpl in H; try done.
  destruct (res_fold (pushFilter r) m ws) as [m1| |] eqn:Hf; simpl in H; try done. injection H as <-.
  assert (Forall (fun w => cond env (eiExpr w) = Some true) ws) as Htrues.
  { pose proof (parse_sem env Henv _ _ _ _ Hparse) as Hs. rewrite Htrue in Hs. apply and3s_true in Hs.
    rewrite fmap_app, fmap_app, Forall_app, !Forall_fmap in Hs. destruct Hs as [_ Hs].
    eapply Forall_impl; [exact Hs|]. by intros w <-. }
  assert (routed m1) as Hm1.
  { enough (Forall (fun w => w ∈ ws) ws -> routed m1) as Hall by (apply Hall, Forall_forall; auto). revert Hf.
    apply (res_fold_inv (pushFilter r) (fun ys b => Forall (fun w => w ∈ ws) ys -> routed b)); [done|].
    intros ys w b b' IH Hw [Hys [Hin _]%Forall_cons]%Forall_app. eapply pushFilter_routed; [by apply IH|..|exact Hw].
    - by eapply parse_points.
    - by eapply Forall_forall in Htrues.
    - intros x Hx. apply Hcoh. by eapply parse_vals. }
  clear - Hm1. revert m1 Hm1. induction js as [|j js IH]; intros m1 Hm1; [done|]. simpl. by apply IH.
Qed.

(** The table with the segments of the route. *)
Lemma calcRoute_routed m m' : tiShardType ti <> "GLOBAL" -> routed m -> calcRoute r m = Ok m' ->
  exists segs, sg ∈ segs /\ msTables m' = {[k := set_segments segs ti]} /\ msRouteLen m' = length segs /\
    (msBackend m' = "" \/ segs = [sg] /\ msBackend m' = sgBackend sg).
Proof.
  intros Hg (Ht & Hn & Hb & Hl & Hi) H. unfold calcRoute in H. rewrite Hn in H. simpl in H.
  rewrite Ht, (map_range_singleton k ti) in H. simpl in H. rewrite decide_False in H by done.
  destruct Hti as [Hd Htn]. rewrite Hd, Htn in H.
  destruct (GetSegments r db t (msIndexes m)) as [segs| |] eqn:Hs; simpl in H; try done. injection H as <-.
  assert (sg ∈ segs) as Hin.
  { destruct Hi as [Hi|(i & Hgi & Hi)]; [|by eapply (index_segments r db t tb p v sg Htb Hp Hwf Hrow v i)].
    rewrite (getTable_GetSegments _ _ _ _ _ _ Htb Hp), Hi in Hs. injection Hs as <-. by eapply all_segments. }
  exists segs. split; [done|]. simpl. rewrite Ht, insert_singleton_eq, Hl, Hb. split; [done|]. split; [done|].
  destruct segs as [|s [|]]; [by left| |by left]. apply list_elem_of_singleton in Hin as ->. by right.
Qed.
End route.

(** A SELECT on one table reaches every row it asks for.  The table is
    sharded by hash or by list, the row was written with the literal [v] as its
    shard key and lies in segment [sg], and the WHERE clause [e] is true of it.
    When [scanAliasedTableExpr], [pushFilters], [calcRoute] and [buildQuery]
    succeed, one of the queries names the table of [sg] and goes to its
    backend. *)
Theorem select_route_complete {V} `{SS : SqlSem V, !SqlSemOk V} `{IR : InMapRange, !InMapRangeOk IR}
    `{J : JumpHash, !JumpHashOk J} `{R : MapRange, !MapRangeOk R} `{RI : Rand}
    (env : ColName -> V) r db t as_ tb p conf v sg e print m m1 m2 qs :
  env_ok env -> no_escape e -> getTable r db t = Ok tb -> tPartition tb = Some p -> wf_partition p ->
  TableConfigOf r db t = Ok conf -> tcShardType conf = "HASH" \/ tcShardType conf = "LIST" -> tcShardKey conf <> "" ->
  p_Lookup p (Some v) (Some v) = Ok [sg] ->
  (forall c, nameMatch (ColNameE c) (if decide (as_ = "") then t else as_) (tcShardKey conf) = true -> env c = sem_lit v) ->
  (forall w, w ∈ literals e -> sem_eq (sem_lit v) (sem_lit w) = Some true -> GetIndex r db t w = GetIndex r db t v) ->
  cond env e = Some true ->
  scanAliasedTableExpr r db (mkTableName t "") as_ = Ok m -> pushFilters r m e = Ok m1 ->
  calcRoute r m1 = Ok m2 -> buildQuery print m2 = Ok qs ->
  exists q, q ∈ qs /\ qtBackend q = sgBackend sg /\
    qtQuery q = print {[ (if decide (as_ = "") then t else as_) := sgTable sg ]}.
Proof.
  intros Henv Hesc Htb Hp Hwf Hconf Hty Hsk Hrow Hkey Hcoh Htrue Hscan Hpush Hroute Hq.
  unfold scanAliasedTableExpr in Hscan. simpl in Hscan. rewrite Hconf in Hscan. simpl in Hscan.
  set (k := if decide (as_ = "") then t else as_) in *.
  assert (tcShardType conf <> "GLOBAL" /\ tcShardType conf <> "SINGLE") as [Hg Hs] by (destruct Hty as [-> | ->]; done).
  rewrite decide_False, decide_False, decide_True in Hscan by done. injection Hscan as <-.
  set (ti := mkTableInfo db t k _ _ conf []) in *.
  assert (routed r db t v k ti (mkMergeSt {[k := ti]} 1 "" [] 0 [])) as H0 by (repeat split; by left).
  replace (if decide (k = "") then t else k) with k in Hpush by (unfold k; repeat case_decide; congruence).
  assert (routed r db t v k ti m1) as H1 by (eapply (pushFilters_routed env); eauto).
  destruct (calcRoute_routed r db t tb p v sg k ti Htb Hp Hwf Hrow ltac:(done) m1 m2) as (segs & Hin & Ht & Hlen & Hb); [done..|].
  apply list_elem_of_lookup in Hin as [j Hj]. pose proof (lookup_lt_Some _ _ _ Hj) as Hlt.
  unfold buildQuery in Hq. eapply build_querys_spec in Hq as (q & Hqj & Htext & Hback);
    [|exact Ht|done|rewrite Hlen; exact Hlt|exact Hj].
  exists q. split; [by eapply list_elem_of_lookup_2|]. split; [|done]. rewrite Hback.
  destruct Hb as [-> | [_ ->]]; [by rewrite decide_True|]. destruct (decide (sgBackend sg = "")); reflexivity.
Qed.

#[local] Existing Instance mod_jump.
#[export] Instance first_rand : Rand := fun _ => 0.
#[export] Instance first_rand_ok : RandOk first_rand.
Proof. intros n Hn. unfold rand_Intn, first_rand. lia. Qed.

(** The text of an example query: the name of the table of [a]. *)
Definition ex_print (names : gmap string string) : string := default "" (names !! "a").

Lemma select_route_complete_witness :
  exists sg m m1 m2 qs, p_Lookup (PHash ex_hash) (Some ex_key) (Some ex_key) = Ok [sg] /\
    scanAliasedTableExpr ex_router "db" (mkTableName "t" "") "a" = Ok m /\
    pushFilters ex_router m ex_where = Ok m1 /\ length (msIndexes m1) = 2%nat /\
    calcRoute ex_router m1 = Ok m2 /\ buildQuery ex_print m2 = Ok qs /\
    exists q, q ∈ qs /\ qtBackend q = sgBackend sg /\ qtQuery q = ex_print {["a" := sgTable sg]}.
Proof.
  eexists _, _, _, _, _. do 6 (split; [vm_compute; reflexivity|]).
  eapply (select_route_complete (JumpHashOk0 := mod_jump_ok) (row_env ex_key) ex_router "db" "t" "a" _ (PHash ex_hash)
    _ ex_key _ ex_where ex_print);
    [apply row_env_ok| |vm_compute; reflexivity|vm_compute; reflexivity|exact ex_hash_wf|vm_compute; reflexivity|
     left; vm_compute; reflexivity|vm_compute; discriminate|vm_compute; reflexivity|intros c; apply row_env_key| |
     vm_compute; reflexivity..].
  - intros op l r x Hw. vm_compute in Hw. repeat (apply elem_of_cons in Hw as [?|Hw]; [done|]).
    destruct (not_elem_of_nil _ Hw).
  - intros w Hw. vm_compute in Hw. repeat (apply elem_of_cons in Hw as [->|Hw]; [vm_compute; first [done|reflexivity]|]).
    destruct (not_elem_of_nil _ Hw).
Defined.

(** ** Tables joined inside the shards *)

(** Segments of the same range on the same backend. *)
Definition seg_sim (a b : Segment) : Prop := sgRange a = sgRange b /\ sgBackend a = sgBackend b.
Definition slots_sim (m1 m2 : gmap Z Segment) : Prop := forall i, option_Forall2 seg_sim (m1 !! i) (m2 !! i).
Definition part_sim (a b : PartitionConfig) : Prop := pcSegment a = pcSegment b /\ pcBackend a = pcBackend b.

Lemma seg_sim_start a b : seg_sim a b -> seg_start a = seg_start b.
Proof. intros [H _]. unfold seg_start. by rewrite H. Qed.
Lemma seg_sim_id a b : seg_sim a b -> seg_id a = seg_id b.
Proof. intros [H _]. unfold seg_id. by rewrite H. Qed.

Lemma mark_sim seg sg1 sg2 n : forall i m1 m2 m1',
  seg_sim sg1 sg2 -> slots_sim m1 m2 -> Hash.mark seg sg1 n i m1 = Ok m1' ->
  exists m2', Hash.mark seg sg2 n i m2 = Ok m2' /\ slots_sim m1' m2'.
Proof.
  induction n as [|n IH]; intros i m1 m2 m1' Hs Hm H; simpl in *; [injection H as <-; eauto|].
  destruct (m1 !! i) eqn:H1; [done|]. pose proof (Hm i) as Hi. rewrite H1 in Hi. inversion Hi as [|E1 E2].
  eapply IH; [done| |exact H]. intros j. destruct (decide (j = i)) as [->|].
  - rewrite !lookup_insert_eq. by constructor.
  - by rewrite !lookup_insert_ne by done.
Qed.

Lemma build_parts_sim ps1 ps2 : Forall2 part_sim ps1 ps2 -> forall st1 st2 st1',
  slots_sim st1.1 st2.1 -> Forall2 seg_sim st1.2 st2.2 -> res_fold Hash.build_part st1 ps1 = Ok st1' ->
  exists st2', res_fold Hash.build_part st2 ps2 = Ok st2' /\ slots_sim st1'.1 st2'.1 /\ Forall2 seg_sim st1'.2 st2'.2.
Proof.
  induction 1 as [|p1 p2 ps1 ps2 [Hseg Hb] _ IH]; intros st1 st2 st1' Hm Hl H; simpl in *; [injection H as <-; eauto|].
  destruct (Hash.build_part st1 p1) as [st| |] eqn:Hp; simpl in H; try done.
  unfold Hash.build_part in Hp |- *. rewrite <- Hseg. destruct (Split _ _) as [|s0 [|s1 []]]; try done.
  destruct (Atoi s0) as [a|]; [|done]. destruct (Atoi s1) as [b|]; [|done]. destruct (b <=? a); [done|].
  destruct (Hash.mark _ _ _ _ st1.1) as [m1| |] eqn:Hmk; simpl in Hp; try done. injection Hp as <-.
  eapply mark_sim in Hmk as (m2 & -> & Hm2); [|split; [|exact Hb]; by rewrite (Forall2_length _ _ _ Hl)|exact Hm].
  simpl. eapply IH; [..|exact H]; simpl; [done|]. apply Forall2_app; [done|]. constructor; [|done].
  split; [|exact Hb]. simpl. by rewrite (Forall2_length _ _ _ Hl).
Qed.

Lemma slots_sim_size m1 m2 : slots_sim m1 m2 -> size m1 = size m2.
Proof.
  intros H. rewrite <- !size_dom. f_equal. apply set_eq. intros i. rewrite !elem_of_dom.
  destruct (H i); split; intros [? ?]; simplify_eq; eauto.
Qed.

(** Sorting related lists by related keys keeps them related. *)
Section sort_sim.
Context {A : Type} (Rel : A -> A -> Prop) (le : relation A) `{!RelDecision le}.
Hypothesis Hle : forall a a' b b', Rel a a' -> Rel b b' -> le a b <-> le a' b'.

Lemma list_merge_sim l1 l1' : Forall2 Rel l1 l1' -> forall l2 l2', Forall2 Rel l2 l2' ->
  Forall2 Rel (list_merge le l1 l2) (list_merge le l1' l2').
Proof.
  induction 1 as [|a a' l1 l1' Ha H1 IH1]; intros l2 l2' H2; [by rewrite !list_merge_nil_l|].
  induction H2 as [|b b' l2 l2' Hb H2 IH2]; [by rewrite !list_merge_nil_r; constructor|].
  rewrite !list_merge_cons. pose proof (Hle _ _ _ _ Ha Hb) as Hab.
  destruct (decide (le a b)), (decide (le a' b')); try tauto; constructor; auto.
Qed.

Lemma merge_sort_sim l l' : Forall2 Rel l l' -> Forall2 Rel (merge_sort le l) (merge_sort le l').
Proof.
  unfold merge_sort.
  assert (forall st st', Forall2 (option_Forall2 (Forall2 Rel)) st st' ->
    Forall2 Rel (merge_stack le st) (merge_stack le st')) as Hstack.
  { induction 1 as [|o o' st st' Ho _ IH]; [constructor|]. destruct Ho; simpl; [|done]. by apply list_merge_sim. }
  assert (forall st st', Forall2 (option_Forall2 (Forall2 Rel)) st st' -> forall k k', Forall2 Rel k k' ->
    Forall2 (option_Forall2 (Forall2 Rel)) (merge_list_to_stack le st k) (merge_list_to_stack le st' k')) as Hpush.
  { induction 1 as [|o o' st st' Ho Hst IH]; intros k k' Hk; [by repeat constructor|]. destruct Ho; simpl.
    - constructor; [constructor|]. apply IH. by apply list_merge_sim.
    - by repeat constructor. }
  intros H. assert (Forall2 (option_Forall2 (Forall2 Rel)) [] []) as Hst by constructor. revert Hst.
  generalize (@nil (option (list A))) at 1 3 as st. generalize (@nil (option (list A))) as st'.
  induction H as [|a a' l l' Ha _ IH]; intros st' st Hst; simpl; [by apply Hstack|].
  apply IH, Hpush; [done|]. by repeat constructor.
Qed.
End sort_sim.

Section colocated.
Context `{J : JumpHash}.
Variables (r : Router) (db1 t1 db2 t2 : string) (tb1 tb2 : Table) (h1 h2 : Hash.t).
Hypothesis Htb1 : getTable r db1 t1 = Ok tb1.
Hypothesis Htb2 : getTable r db2 t2 = Ok tb2.
Hypothesis Hp1 : tPartition tb1 = Some (PHash h1).
Hypothesis Hp2 : tPartition tb2 = Some (PHash h2).
Hypothesis Hslots : Hash.slots h1 = Hash.slots h2.
Hypothesis Hsim : slots_sim (Hash.partitions h1) (Hash.partitions h2).

Lemma slot_sim i : seg_sim (Hash.slot h1 i) (Hash.slot h2 i).
Proof. unfold Hash.slot. by destruct (Hsim i). Qed.

Lemma collect_sim idxs : forall s1 s2 out1, Forall2 seg_sim s1 s2 ->
  collect_segments (PHash h1) idxs s1 = Ok out1 ->
  exists out2, collect_segments (PHash h2) idxs s2 = Ok out2 /\ Forall2 seg_sim out1 out2.
Proof.
  induction idxs as [|i idxs IH]; intros s1 s2 out1 Hs H; cbn [collect_segments] in *; [injection H as <-; eauto|].
  cbn in *. unfold Hash.GetSegment in *. rewrite <- Hslots.
  destruct ((i <? 0) || (Hash.slots h1 <=? i)); simpl in H |- *; [done|]. eapply IH; [|exact H].
  assert (existsb (fun s => bool_decide (seg_id s = seg_id (Hash.slot h1 i))) s1
          = existsb (fun s => bool_decide (seg_id s = seg_id (Hash.slot h2 i))) s2) as <-.
  { clear - Hs Hsim. induction Hs as [|a b s1 s2 Hab _ IHs]; [done|]. simpl.
    rewrite (seg_sim_id _ _ Hab), (seg_sim_id _ _ (slot_sim i)). f_equal.
    rewrite (seg_sim_id _ _ (slot_sim i)) in IHs. apply IHs. }
  destruct (existsb _ _); [done|]. apply Forall2_app; [done|]. constructor; [apply slot_sim|done].
Qed.
End colocated.

(** The partitions [isSameShard] compares. *)
Lemma isSameShard_true ltb rtb lcn rcn :
  isSameShard ltb rtb lcn rcn = Ok true ->
  exists lt rt, ltb !! tnName (cnQualifier lcn) = Some lt /\ rtb !! tnName (cnQualifier rcn) = Some rt /\
    Forall2 part_sim (tcPartitions (tiConfig lt)) (tcPartitions (tiConfig rt)).
Proof.
  unfold isSameShard. intros H. destruct (ltb !! _) as [lt|]; [|done]. destruct (_ || _); [done|].
  destruct (rtb !! _) as [rt|]; [|done]. destruct (_ || _); [done|]. injection H as [Hl Hz]%andb_true_iff.
  apply Nat.eqb_eq in Hl. exists lt, rt. do 2 (split; [done|]). revert Hl Hz.
  generalize (tcPartitions (tiConfig lt)) (tcPartitions (tiConfig rt)). intros l1.
  induction l1 as [|a l1 IH]; intros [|b l2] Hl Hz; simpl in *; try lia; [constructor|].
  rewrite !andb_true_iff, !bool_decide_eq_true in Hz. destruct Hz as [? Hz]. constructor; [done|]. apply IH; [lia|done].
Qed.

(** Hash tables that [isSameShard] lets be joined inside the shards are
    laid out alike.  A key has the same index in both; for any list of indexes
    of the merged node the router returns as many segments for one table as for
    the other, and the segments at each position have the same range of slots
    and the same backend, where [buildQuery] joins them. *)
Theorem isSameShard_colocated `{J : JumpHash} r db1 t1 db2 t2 tb1 tb2 n1 n2 h1 h2 ltb rtb lcn rcn lt rt :
  getTable r db1 t1 = Ok tb1 -> getTable r db2 t2 = Ok tb2 ->
  tPartition tb1 = Some (PHash h1) -> tPartition tb2 = Some (PHash h2) ->
  ltb !! tnName (cnQualifier lcn) = Some lt -> rtb !! tnName (cnQualifier rcn) = Some rt ->
  Hash.Build (Some (tiConfig lt)) (Hash.New n1) = Ok h1 -> Hash.Build (Some (tiConfig rt)) (Hash.New n2) = Ok h2 ->
  isSameShard ltb rtb lcn rcn = Ok true ->
  (forall v, GetIndex r db1 t1 v = GetIndex r db2 t2 v) /\
  forall idxs segs, GetSegments r db1 t1 idxs = Ok segs ->
    exists segs', GetSegments r db2 t2 idxs = Ok segs' /\
      Forall2 (fun a b => sgRange a = sgRange b /\ sgBackend a = sgBackend b) segs segs'.
Proof.
  intros Htb1 Htb2 Hp1 Hp2 Hlt Hrt (st1 & Hb1 & Hn1 & ->)%Build_inv (st2 & Hb2 & Hn2 & ->)%Build_inv
    (lt' & rt' & Hlt' & Hrt' & HF)%isSameShard_true. rewrite Hlt in Hlt'. rewrite Hrt in Hrt'. simplify_eq.
  destruct (build_parts_sim _ _ HF (∅, []) (∅, []) st1) as (st & Hst & Hm & Hl); try done;
    [intros i; cbn; rewrite lookup_empty; constructor|]. rewrite Hb2 in Hst. injection Hst as <-.
  pose proof (slots_sim_size _ _ Hm) as Hsz. split.
  - intros v. rewrite (getTable_GetIndex _ _ _ _ _ _ Htb1 Hp1), (getTable_GetIndex _ _ _ _ _ _ Htb2 Hp2). cbn.
    unfold Hash.GetIndex. cbn. by rewrite Hsz.
  - intros idxs segs. rewrite (getTable_GetSegments _ _ _ _ _ _ Htb1 Hp1), (getTable_GetSegments _ _ _ _ _ _ Htb2 Hp2).
    destruct idxs as [|i idxs].
    + intros [= <-]. eexists. split; [done|]. cbn. apply (merge_sort_sim seg_sim); [|done].
      intros a a' b b' Ha Hb. unfold seg_le. by rewrite (seg_sim_start _ _ Ha), (seg_sim_start _ _ Hb).
    + apply collect_sim; [by rewrite Hsz|done|constructor].
Qed.

(** A router with the hash tables [t] and [u] and two list tables. *)
Definition ex_lv (s : string) : option SQLVal := Some (mkSQLVal StrVal s).
Definition join_ops : list admin_op :=
  ex_ops ++ [OpCreateHash "db" "u" "uid" "hash" ["b1"; "b2"] None None].
Definition join_router : Router := snd (miter admin_run join_ops ex_empty).
Definition info_of_table (r : Router) (db t : string) : tableInfo :=
  match scanAliasedTableExpr r db (mkTableName t "") "" with
  | Ok m => default ex_info (msTables m !! t)
  | _ => ex_info
  end.
Definition qcol (t c : string) : ColName := mkColName c (mkTableName t "").

Lemma isSameShard_colocated_witness :
  isSameShard {["t" := info_of_table join_router "db" "t"]} {["u" := info_of_table join_router "db" "u"]}
    (qcol "t" "id") (qcol "u" "uid") = Ok true /\
  forall v, GetIndex join_router "db" "t" v = GetIndex join_router "db" "u" v.
Proof.
  split; [vm_compute; reflexivity|].
  assert (exists tb1 tb2 lt rt h1 h2, getTable join_router "db" "t" = Ok tb1 /\ getTable join_router "db" "u" = Ok tb2 /\
    tPartition tb1 = Some (PHash h1) /\ tPartition tb2 = Some (PHash h2) /\
    ({["t" := info_of_table join_router "db" "t"]} : gmap string tableInfo) !! "t" = Some lt /\
    ({["u" := info_of_table join_router "db" "u"]} : gmap string tableInfo) !! "u" = Some rt /\
    Hash.Build (Some (tiConfig lt)) (Hash.New 16) = Ok h1 /\ Hash.Build (Some (tiConfig rt)) (Hash.New 16) = Ok h2)
    as (tb1 & tb2 & lt & rt & h1 & h2 & H1 & H2 & Hp1 & Hp2 & Hl & Hr & Hb1 & Hb2).
  { do 6 eexists. repeat (split; [vm_compute; reflexivity|]). vm_compute. reflexivity. }
  apply (isSameShard_colocated join_router "db" "t" "db" "u" tb1 tb2 16 16 h1 h2
    {["t" := info_of_table join_router "db" "t"]} {["u" := info_of_table join_router "db" "u"]}
    (qcol "t" "id") (qcol "u" "uid") lt rt H1 H2 Hp1 Hp2 Hl Hr Hb1 Hb2). vm_compute. reflexivity.
Defined.

(** The partitions of list tables all have the segment [""], so [isSameShard]
    compares backends only: tables with different lists are joined shard by
    shard although the value 1 is kept on b1 by one and on b2 by the other. *)
Definition list_info (t a b : string) : tableInfo :=
  mkTableInfo "db" t t "id" MethodTypeList
    (mkTableConfig t 0 0 MethodTypeList "id"
       [mkPartitionConfig (part_name t 0) "" "b1" a; mkPartitionConfig (part_name t 1) "" "b2" b] None) [].
Theorem isSameShard_list_values :
  isSameShard {["t" := list_info "t" "1" "2"]} {["u" := list_info "u" "2" "1"]} (qcol "t" "id") (qcol "u" "id") = Ok true /\
  exists l1 l2 s1 s2, List_.Build (Some (tiConfig (list_info "t" "1" "2"))) List_.New = Ok l1 /\
    List_.Build (Some (tiConfig (list_info "u" "2" "1"))) List_.New = Ok l2 /\
    List_.Lookup l1 (Some (mkSQLVal IntVal "1")) (Some (mkSQLVal IntVal "1")) = Ok [s1] /\
    List_.Lookup l2 (Some (mkSQLVal IntVal "1")) (Some (mkSQLVal IntVal "1")) = Ok [s2] /\
    sgBackend s1 = "b1" /\ sgBackend s2 = "b2".
Proof. split; [vm_compute; reflexivity|]. eexists _, _, _, _. repeat (split; [vm_compute; reflexivity|]). vm_compute. reflexivity. Qed.

(** ** Select expressions *)

(** Texts for the examples: functions print as their name. *)
#[export] Instance ex_expr_printer : ExprPrinter := {
  fmt_expr e := match e with FuncExpr n _ _ => n +:+ "(...)" | ColNameE c => cnName c | _ => "?" end;
  fmt_select_exprs l := match l with [StarExpr _] => "*" | _ => "..." end
}.

(** The flag of [distinct] is overwritten by every function the walk meets, so
    a function inside [count(distinct ...)] clears it and the aggregate is
    pushed down to the shards, whose counts are then added up. *)
Definition count_distinct (arg : Expr) : SelectExpr := AliasedExpr (FuncExpr "count" true [AliasedExpr arg ""]) "".
Theorem distinct_flag_lost :
  (exists ts, parseSelectExprs [count_distinct (col "a")] true {["t" := ex_info]} = Ok (ts, notPush)) /\
  (exists ts, parseSelectExprs [count_distinct (FuncExpr "abs" false [AliasedExpr (col "a") ""])] true {["t" := ex_info]}
    = Ok (ts, canPush)).
Proof. split; eexists; vm_compute; reflexivity. Qed.

(** A group by column is found among the plain fields by its name alone:
    [select t1.a, t2.a, count(1) ... group by t2.a] groups by the first. *)
Theorem group_by_wrong_column :
  exists ts g plan es ts', let tbs := {["t1" := ex_info; "t2" := ex_info]} in
    let exprs := [AliasedExpr (ColNameE (qcol "t1" "a")) ""; AliasedExpr (ColNameE (qcol "t2" "a")) "";
                  AliasedExpr (FuncExpr "count" false [AliasedExpr (int_ "1") ""]) ""] in
    parseSelectExprs exprs false tbs = Ok (ts, notPush) /\
    checkGroupBy [ColNameE (qcol "t2" "a")] ts tbs false = Ok [g] /\
    eiReferTables (stInfo g) = ["t2"] /\
    AggregatePlan_Build exprs ts [g] false = Ok (plan, es, ts') /\
    (agIndex <$> apGroup plan) = [0].
Proof. eexists _, _, _, _, _. repeat (split; [vm_compute; reflexivity|]). vm_compute. reflexivity. Qed.

(** ** Aggregations *)

(** The planner puts the sum and the count of a pushed-down AVG right behind
    it, which is what the operator needs. *)
Lemma plan_avgs_snoc pushdown n : forall ps qs,
  (length ps <= n)%nat -> plan_avgs pushdown ps = true -> plan_avgs pushdown qs = true -> plan_avgs pushdown (ps ++ qs) = true.
Proof.
  induction n as [|n IH]; intros [|p ps] qs Hn Hp Hq; simpl in Hn; try done; [lia|]. cbn [app plan_avgs] in *.
  destruct (pushdown && _); [|apply IH; [lia|done|done]].
  destruct ps as [|s [|c ps]]; [done..|]. cbn [app]. apply IH; [simpl in Hn; lia|done|done].
Qed.

Lemma aggr_step_avgs pushdown st t st' :
  aggr_step pushdown st t = Ok st' -> plan_avgs pushdown (asNormal st) = true -> plan_avgs pushdown (asNormal st') = true.
Proof.
  unfold aggr_step. intros H Ha.
  repeat (case_match; simplify_eq/=; try done);
    repeat match goal with
           | H : (_ ← ?x; _) = Ok _ |- _ => destruct x; simplify_eq/=
           | H : (if ?b then _ else _) = Ok _ |- _ => destruct b; simplify_eq/=
           end; try done; eapply plan_avgs_snoc; (done || reflexivity || (simpl; by case_bool_decide)).
Qed.

Theorem planned_avgs exprs tuples groups pushdown plan exprs' tuples' :
  AggregatePlan_Build exprs tuples groups pushdown = Ok (plan, exprs', tuples') ->
  plan_avgs (apIsPushDown plan) (apNormal plan) = true.
Proof.
  unfold AggregatePlan_Build. destruct (res_fold _ _ _) as [st| |] eqn:Hf; simpl; try done.
  destruct (res_map _ _); simpl; try done. intros [= <- _ _]. simpl. clear -Hf.
  assert (plan_avgs pushdown (asNormal (mkAggrSt [] [] 0 exprs tuples)) = true) as H0 by done.
  revert H0 Hf. generalize (mkAggrSt [] [] 0 exprs tuples). induction tuples as [|t ts IH]; intros s0 H0 Hf; simpl in Hf.
  { by injection Hf as <-. }
  destruct (aggr_step pushdown s0 t) as [s1| |] eqn:Hs; simpl in Hf; try done.
  apply (IH s1); [by eapply aggr_step_avgs|done].
Qed.
