(* ===== verification/PlanTree.v ===== *)
(** * The plan tree of a SELECT (src/planner/builder: from.go, join_node.go, plan_node.go, merge_node.go)

    The FROM clause becomes a tree of nodes: the leaves are merge nodes, sent to
    the shards as they are, the inner nodes are joins made in the proxy.  The
    conditions are pushed to the nodes that hold their tables, nodes that lie on
    the same shards are merged, and routes are computed.

    Pointers: a node knows its parent and a table its merge node; in the tree
    below they are the place of the node and the leaf that holds the table, so
    [tbInfo.parent] is "the leaf of the table" and [findLCA] "the smallest
    subtree with both tables".  The [JoinTableExpr] of a join node is kept as its
    kind and its ON condition; its two sides are the children. *)
From S2P Require Import Prelude GoStd Config Xcontext Partition Router Sql PlanExpr PlanDml Join Operators PlanSelect.
Open Scope string_scope.
Open Scope list_scope.
Open Scope Z_scope.

(** ** The FROM clause of the statement *)
Definition JoinStr : string := "join".
Definition StraightJoinStr : string := "straight_join".
Definition LeftJoinStr : string := "left join".
Definition RightJoinStr : string := "right join".

(** [sqlparser.TableExpr] *)
#[warnings="-register-all"]
Inductive TableRef :=
| TRTable (t : TableName) (As : string)
| TRSubquery (As : string)
| TRJoin (Left : TableRef) (Join : string) (Right : TableRef) (On : option Expr)
| TRParen (Exprs : list TableRef).

(** The FROM clause of a merge node. *)
#[warnings="-register-all"]
Inductive FromT :=
| FTable (key : string)
| FJoin (Join : string) (On : Expr) (l r : list FromT)
| FParen (l : list FromT).

(** ** Nodes *)

(** The rest of the statement [Sel] of a [MergeNode], with its fields, its
    children, its place in the order of the leaves and [aliasIndex]. *)
Record SelPart := mkSelPart {
  spExprs : list SelectExpr; spFields : list selectTuple; spGroupBy : list Expr; spDistinct : string;
  spHaving : list Expr; spOrderBy : list Order; spLimit : option Limit; spChildren : list ChildPlan;
  spOrder : Z; spAliasIndex : nat
}.
Definition emptySel : SelPart := mkSelPart [] [] [] "" [] [] None [] 0 0.

(** [MergeNode]: the part of PlanSelect.v, the FROM clause of its statement,
    whether it was written in parentheses, and the rest of the statement. *)
Record MNode := mkMNode { mnS : MergeSt; mnFrom : list FromT; mnParen : bool; mnSel : SelPart }.

(** [otherJoin] *)
Record OtherJoin := mkOtherJoin {
  ojNoTables : list Expr; ojLeft : list selectTuple; ojRight : list exprInfo; ojOthers : list exprInfo
}.

(** [JoinKey] *)
Record JoinKey := mkJoinKey { jkField : string; jkTable : string; jkIndex : Z }.

(** The part of a [JoinNode] that is filled when the select expressions are
    pushed. *)
Record JoinSel := mkJoinSel {
  jsCols : list Z; jsFields : list selectTuple; jsLeftKeys : list JoinKey; jsRightKeys : list JoinKey;
  jsCmp : list Comparison; jsLeftTmp : list Z; jsRightTmp : list Z; jsOrder : Z; jsVars : list (string * Z);
  jsChildren : list ChildPlan
}.
Definition emptyJoinSel : JoinSel := mkJoinSel [] [] [] [] [] [] [] 0 [] [].

(** [JoinNode]; [jExpr] is the kind and the ON condition of [joinExpr],
    [jTables] is [referTables]. *)
Record JNode := mkJNode {
  jStrategy : JoinStrategy;
  jExpr : option (string * Expr);
  jTables : gmap string tableInfo;
  jParen : bool;
  jOn : list exprInfo;
  jOtherFilter : list exprInfo;
  jNoTable : list Expr;
  jOtherLeft : option OtherJoin;
  jRightNull : list selectTuple;
  jIsLeft : bool;
  jHasRight : bool;
  jSel : JoinSel
}.

Inductive PTree := PM (m : MNode) | PJ (j : JNode) (Left Right : PTree).

Definition set_mnS (s : MergeSt) (m : MNode) : MNode := mkMNode s (mnFrom m) (mnParen m) (mnSel m).
Definition m_addWhere (e : Expr) (m : MNode) : MNode := set_mnS (addWhere e (mnS m)) m.
Definition m_addWheres (es : list Expr) (m : MNode) : MNode := foldl (fun m e => m_addWhere e m) m es.

Definition add_otherFilter (f : exprInfo) (j : JNode) : JNode :=
  mkJNode (jStrategy j) (jExpr j) (jTables j) (jParen j) (jOn j) (jOtherFilter j ++ [f]) (jNoTable j) (jOtherLeft j)
    (jRightNull j) (jIsLeft j) (jHasRight j) (jSel j).
Definition add_noTable (es : list Expr) (j : JNode) : JNode :=
  mkJNode (jStrategy j) (jExpr j) (jTables j) (jParen j) (jOn j) (jOtherFilter j) (jNoTable j ++ es) (jOtherLeft j)
    (jRightNull j) (jIsLeft j) (jHasRight j) (jSel j).
Definition add_rightNull (t : selectTuple) (j : JNode) : JNode :=
  mkJNode (jStrategy j) (jExpr j) (jTables j) (jParen j) (jOn j) (jOtherFilter j) (jNoTable j) (jOtherLeft j)
    (jRightNull j ++ [t]) (jIsLeft j) (jHasRight j) (jSel j).
Definition set_hasRight (b : bool) (j : JNode) : JNode :=
  mkJNode (jStrategy j) (jExpr j) (jTables j) (jParen j) (jOn j) (jOtherFilter j) (jNoTable j) (jOtherLeft j)
    (jRightNull j) (jIsLeft j) b (jSel j).
Definition set_jParen (b : bool) (j : JNode) : JNode :=
  mkJNode (jStrategy j) (jExpr j) (jTables j) b (jOn j) (jOtherFilter j) (jNoTable j) (jOtherLeft j)
    (jRightNull j) (jIsLeft j) (jHasRight j) (jSel j).
Definition set_otherLeft (o : option OtherJoin) (j : JNode) : JNode :=
  mkJNode (jStrategy j) (jExpr j) (jTables j) (jParen j) (jOn j) (jOtherFilter j) (jNoTable j) o
    (jRightNull j) (jIsLeft j) (jHasRight j) (jSel j).
(** [joinOn = append(joinOn, join)], and the condition is added to [joinExpr.On]. *)
Definition add_joinOn (f : exprInfo) (j : JNode) : JNode :=
  mkJNode (jStrategy j)
    (match jExpr j with Some (k, on) => Some (k, AndExpr on (eiExpr f)) | None => None end)
    (jTables j) (jParen j) (jOn j ++ [f]) (jOtherFilter j) (jNoTable j) (jOtherLeft j)
    (jRightNull j) (jIsLeft j) (jHasRight j) (jSel j).

(** [getReferTables] *)
Definition getReferTables (t : PTree) : gmap string tableInfo :=
  match t with PM m => msTables (mnS m) | PJ j _ _ => jTables j end.

(** [setParenthese] *)
Definition setParenthese (b : bool) (t : PTree) : PTree :=
  match t with
  | PM m => PM (mkMNode (mnS m) (mnFrom m) b (mnSel m))
  | PJ j l r => PJ (set_jParen b j) l r
  end.

(** [addFilter(findParent(tables, t), filter)]: the smallest subtree with all
    of the tables gets the filter. *)
Fixpoint addFilter (tables : list string) (filter : exprInfo) (t : PTree) : PTree :=
  match t with
  | PM m => PM (m_addWhere (eiExpr filter) m)
  | PJ j l r =>
      if checkTbInNode tables (getReferTables l) then PJ j (addFilter tables filter l) r
      else if checkTbInNode tables (getReferTables r) then PJ j l (addFilter tables filter r)
      else PJ (add_otherFilter filter j) l r
  end.

Section tree.
Context `{IR : InMapRange, R : MapRange, J : JumpHash, RI : Rand, EP : ExprPrinter}.

(** ** Parsing expressions (project.go) *)

(** [parseExpr] *)
Definition parseExpr (e : Expr) : selectTuple :=
  let cols := cols_of e in
  mkSelectTuple (AliasedExpr e "") (mkExprInfo e (foldl add_table [] ((fun c => tnName (cnQualifier c)) <$> cols)) cols [])
    (match e with ColNameE c => if decide (cnName c = "") then fmt_expr e else cnName c | _ => fmt_expr e end)
    "" "" "" false (match e with ColNameE _ => true | _ => false end).

(** [checkIsWithNull]: the expression that is compared with NULL. *)
Definition checkIsWithNull (filter : exprInfo) (tbInfos : gmap string tableInfo) : option selectTuple :=
  if negb (checkTbInNode (eiReferTables filter) tbInfos) then None
  else match eiExpr filter with
       | Node (IsExpr op) [e] => if decide (op = IsNullStr) then Some (parseExpr e) else None
       | ComparisonExpr op l r _ =>
           if decide (op = NullSafeEqualStr) then
             match l with
             | NullVal => Some (parseExpr r)
             | _ => match r with NullVal => Some (parseExpr l) | _ => None end
             end
           else None
       | _ => None
       end.

(** ** Filters *)

(** [MergeNode.pushFilter] *)
Definition m_pushFilter (r : Router) (m : MNode) (filter : exprInfo) : res perr MNode :=
  s ← pushFilter r (mnS m) filter; Ok (set_mnS s m).

(** [MergeNode.pushKeyFilter] *)
Definition m_pushKeyFilter (r : Router) (m : MNode) (filter : exprInfo) (table field : string) : res perr MNode :=
  let s := addWhere (eiExpr filter) (mnS m) in
  match msTables s !! table with
  | None => Panic
  | Some tbInfo =>
      s ← (if EqualFold (tiShardKey tbInfo) field then res_fold (fetchIndex r tbInfo) s (eiVals filter) else Ok s);
      Ok (set_mnS s m)
  end.

(** The columns of a join condition. *)
Definition on_cols (f : exprInfo) : res perr (ColName * ColName) :=
  match eiCols f with a :: b :: _ => Ok (a, b) | _ => Panic end.

(** The column a join condition makes equal to [table.field]; [left] tells on
    which side of the condition [table.field] is. *)
Fixpoint find_key (left : bool) (table field : string) (on : list exprInfo) : res perr (option ColName) :=
  match on with
  | [] => Ok None
  | f :: on =>
      ab ← on_cols f;
      let (a, b) := (if left then ab else (snd ab, fst ab)) : ColName * ColName in
      if bool_decide (tnName (cnQualifier a) = table) && bool_decide (cnName a = field) then Ok (Some b)
      else find_key left table field on
  end.

(** [filter] with its only column replaced, [filter.cols[0].Name = col] and
    [filter.cols[0].Qualifier = tb]. *)
Definition replace_key (filter : exprInfo) (tb col : string) : exprInfo :=
  let c := mkColName col (mkTableName tb "") in
  mkExprInfo (map_cols (fun _ => c) (eiExpr filter)) (eiReferTables filter) [c] (eiVals filter).

(** [pushKeyFilter] *)
Fixpoint pushKeyFilter (r : Router) (t : PTree) (filter : exprInfo) (table field : string) : res perr PTree :=
  match t with
  | PM m => m ← m_pushKeyFilter r m filter table field; Ok (PM m)
  | PJ j lt rt =>
      if bool_decide (is_Some (getReferTables lt !! table)) then
        other ← find_key true table field (jOn j);
        lt ← pushKeyFilter r lt filter table field;
        rt ← (match other with
              | None => Ok rt
              | Some c => pushKeyFilter r rt (replace_key filter (tnName (cnQualifier c)) (cnName c))
                            (tnName (cnQualifier c)) (cnName c)
              end);
        Ok (PJ j lt rt)
      else
        other ← find_key false table field (jOn j);
        rt ← pushKeyFilter r rt filter table field;
        lt ← (match other with
              | None => Ok lt
              | Some c => pushKeyFilter r lt (replace_key filter (tnName (cnQualifier c)) (cnName c))
                            (tnName (cnQualifier c)) (cnName c)
              end);
        Ok (PJ j lt rt)
  end.

(** [pushFilter] *)
Definition j_pushFilter (r : Router) (t : PTree) (filter : exprInfo) : res perr PTree :=
  match t with
  | PM m => m ← m_pushFilter r m filter; Ok (PM m)
  | PJ j lt rt =>
      match eiReferTables filter with
      | [] => Ok (PJ (add_noTable [eiExpr filter] j) lt rt)
      | tables =>
          match (if jIsLeft j then checkIsWithNull filter (getReferTables rt) else None) with
          | Some nullFunc => Ok (PJ (add_rightNull nullFunc j) lt rt)
          | None =>
              let has := existsb (fun tb => bool_decide (is_Some (getReferTables rt !! tb))) tables in
              let t := PJ (set_hasRight (jHasRight j || (jIsLeft j && has)) j) lt rt in
              match tables with
              | [tb] =>
                  match jTables j !! tb with
                  | None => Panic
                  | Some _ =>
                      match eiCols filter with
                      | [c] => pushKeyFilter r t filter (tnName (cnQualifier c)) (cnName c)
                      | _ => Ok (addFilter [tb] filter t)
                      end
                  end
              | _ => if checkTbInNode tables (jTables j) then Ok (addFilter tables filter t) else Panic
              end
          end
      end
  end.

(** ** Merging two merge nodes (from.go) *)

Definition from_of (m : MNode) : list FromT := if mnParen m then [FParen (mnFrom m)] else mnFrom m.

(** [mergeRoutes] *)
Definition mergeRoutes (r : Router) (lmn rmn : MNode) (joinExpr : option (string * Expr)) (otherJoinOn : list exprInfo)
    : res perr MNode :=
  let ls := mnS lmn in
  let rs := mnS rmn in
  let from := match joinExpr with
              | None => from_of lmn ++ from_of rmn
              | Some (k, on) => [FJoin k on (from_of lmn) (from_of rmn)]
              end in
  let m := mkMNode (mkMergeSt (msTables rs ∪ msTables ls) (msNonGlobalCnt ls + msNonGlobalCnt rs) (msBackend ls)
                      (msIndexes ls) (msRouteLen ls) (msWhere ls ++ msWhere rs)) from (mnParen lmn) (mnSel lmn) in
  match joinExpr with
  | Some (k, _) => if decide (k = LeftJoinStr) then Ok m else res_fold (m_pushFilter r) m otherJoinOn
  | None => res_fold (m_pushFilter r) m otherJoinOn
  end.

(** [checkJoinOn] *)
Definition checkJoinOn (lt rt : gmap string tableInfo) (join : exprInfo) : res perr exprInfo :=
  ab ← on_cols join;
  let '(a, b) := ab in
  let l := tnName (cnQualifier a) in
  let r := tnName (cnQualifier b) in
  if bool_decide (is_Some (lt !! l)) then
    if bool_decide (is_Some (rt !! r)) then Ok join else Err EJoinOn
  else if bool_decide (is_Some (lt !! r)) then
    Ok (mkExprInfo (eiExpr join) (eiReferTables join) [b; a] (eiVals join))
  else Err EJoinOn.

(** [newJoinNode] *)
Definition newJoinNode (joinExpr : option (string * Expr)) (joinOn : list exprInfo) (refers : gmap string tableInfo) : JNode :=
  mkJNode SortMerge joinExpr refers false joinOn [] [] None []
    (match joinExpr with Some (k, _) => bool_decide (k = LeftJoinStr) | None => false end) false emptyJoinSel.

(** One filter of [setOtherJoin]. *)
Definition other_join (lt rt : gmap string tableInfo) (o : OtherJoin) (filter : exprInfo) : OtherJoin :=
  match eiReferTables filter with
  | [] => mkOtherJoin (ojNoTables o ++ [eiExpr filter]) (ojLeft o) (ojRight o) (ojOthers o)
  | tables =>
      if checkTbInNode tables lt then
        mkOtherJoin (ojNoTables o)
          (ojLeft o ++ [mkSelectTuple (AliasedExpr (eiExpr filter) "tmpc") filter (fmt_expr (eiExpr filter)) "tmpc" "" "" false false])
          (ojRight o) (ojOthers o)
      else if checkTbInNode tables rt then mkOtherJoin (ojNoTables o) (ojLeft o) (ojRight o ++ [filter]) (ojOthers o)
      else mkOtherJoin (ojNoTables o) (ojLeft o) (ojRight o) (ojOthers o ++ [filter])
  end.
(** [setOtherJoin] *)
Definition setOtherJoin (filters : list exprInfo) (lt rt : gmap string tableInfo) (j : JNode) : JNode :=
  set_otherLeft (Some (foldl (other_join lt rt) (mkOtherJoin [] [] [] []) filters)) j.

(** ** Joins of the FROM clause (from.go) *)

(** The conditions of [joinExpr.On], and what is left of [joinExpr]: the other
    conditions of an inner join move to the WHERE clause. *)
Definition join_conditions (lt rt : gmap string tableInfo) (refers : gmap string tableInfo)
    (joinExpr : option (string * option Expr)) : res perr (option (string * Expr) * list exprInfo * list exprInfo) :=
  match joinExpr with
  | Some (k, Some on) =>
      jo ← parseWhereOrJoinExprs on refers;
      joinOn ← res_map (checkJoinOn lt rt) (fst jo);
      let others := snd jo in
      Ok (if decide (k = LeftJoinStr) then Some (k, on)
          else match others with
               | [] => Some (k, on)
               | _ => match joinOn with
                      | [] => None
                      | f :: fs => Some (k, foldl (fun on f => AndExpr on (eiExpr f)) (eiExpr f) fs)
                      end
               end, joinOn, others)
  | _ => Ok (None, [], [])
  end.

(** The first condition on the shard keys of tables with the same shards. *)
Fixpoint any_same_shard (lt rt : gmap string tableInfo) (on : list exprInfo) : res perr bool :=
  match on with
  | [] => Ok false
  | f :: on =>
      ab ← on_cols f;
      same ← isSameShard lt rt (fst ab) (snd ab);
      if (same : bool) then Ok true else any_same_shard lt rt on
  end.

(** [join] *)
Definition join (r : Router) (lpn rpn : PTree) (joinExpr : option (string * option Expr)) : res perr PTree :=
  let lt := getReferTables lpn in
  let rt := getReferTables rpn in
  match List.find (fun kv => bool_decide (is_Some (lt !! fst kv))) (map_range rt) with
  | Some (k, _) => Err (ENotUnique k)
  | None =>
      let refers := rt ∪ lt in
      c ← join_conditions lt rt refers joinExpr;
      let '(joinExpr, joinOn, otherJoinOn) := c in
      merged ← match lpn, rpn with
               | PM lmn, PM rmn =>
                   can ← (if (msNonGlobalCnt (mnS lmn) =? 0) || (msNonGlobalCnt (mnS rmn) =? 0) then Ok true
                          else any_same_shard lt rt joinOn);
                   if (can : bool) then m ← mergeRoutes r lmn rmn joinExpr otherJoinOn; Ok (Some m) else Ok None
               | _, _ => Ok None
               end;
      match merged with
      | Some m => Ok (PM m)
      | None =>
          let jn := newJoinNode joinExpr joinOn refers in
          if jIsLeft jn then Ok (PJ (setOtherJoin otherJoinOn lt rt jn) lpn rpn)
          else res_fold (j_pushFilter r) (PJ jn lpn rpn) otherJoinOn
      end
  end.

(** [scanTableExprs] on the scans of its members. *)
Fixpoint join_all (r : Router) (scan : TableRef -> res perr PTree) (es : list TableRef) : res perr PTree :=
  match es with
  | [] => Panic
  | [e] => scan e
  | e :: es => lpn ← scan e; rpn ← join_all r scan es; join r lpn rpn None
  end.

(** [scanTableExpr], with [scanAliasedTableExpr] and [scanJoinTableExpr]; a
    right join is turned into a left join ([convertToLeftJoin]). *)
Fixpoint scanTableExpr (r : Router) (database : string) (e : TableRef) : res perr PTree :=
  match e with
  | TRTable t as_ =>
      s ← scanAliasedTableExpr r database t as_;
      Ok (PM (mkMNode s ((fun kv => FTable (fst kv)) <$> map_to_list (msTables s)) false emptySel))
  | TRSubquery _ => Err (ESubquery "select")
  | TRJoin l k rt on =>
      if decide (k = JoinStr \/ k = StraightJoinStr \/ k = LeftJoinStr) then
        lpn ← scanTableExpr r database l;
        rpn ← scanTableExpr r database rt;
        join r lpn rpn (Some (k, on))
      else if decide (k = RightJoinStr) then
        lpn ← scanTableExpr r database rt;
        rpn ← scanTableExpr r database l;
        join r lpn (match l with TRJoin _ _ _ _ => setParenthese true rpn | _ => rpn end) (Some (LeftJoinStr, on))
      else Err (EJoinType k)
  | TRParen es => t ← join_all r (scanTableExpr r database) es; Ok (setParenthese true t)
  end.
Definition scanTableExprs (r : Router) (database : string) (es : list TableRef) : res perr PTree :=
  join_all r (scanTableExpr r database) es.

(** ** Equalities between tables in the WHERE clause (join_node.go) *)

(** What merging a join node adds to the WHERE clause of the merged node. *)
Definition join_wheres (j : JNode) : list Expr :=
  (eiExpr <$> jOtherFilter j) ++ jNoTable j ++ (match jExpr j with None => eiExpr <$> jOn j | Some _ => [] end).

(** One condition of [pushEqualCmprs], from the root of the tree. *)
Fixpoint push_equal (r : Router) (t : PTree) (cond : exprInfo) : res perr PTree :=
  match t with
  | PM m => Ok (PM (m_addWhere (eiExpr cond) m))
  | PJ j lt rt =>
      match eiReferTables cond with
      | a :: b :: _ =>
          if checkTbInNode [a; b] (getReferTables lt) then lt ← push_equal r lt cond; Ok (PJ j lt rt)
          else if checkTbInNode [a; b] (getReferTables rt) then rt ← push_equal r rt cond; Ok (PJ j lt rt)
          else
            let join := match checkJoinOn (getReferTables lt) (getReferTables rt) cond with Ok f => f | _ => cond end in
            merged ← match lt, rt with
                     | PM lmn, PM rmn =>
                         ab ← on_cols join;
                         same ← isSameShard (msTables (mnS lmn)) (msTables (mnS rmn)) (fst ab) (snd ab);
                         if (same : bool) then m ← mergeRoutes r lmn rmn (jExpr j) []; Ok (Some m) else Ok None
                     | _, _ => Ok None
                     end;
            match merged with
            | Some m => Ok (setParenthese (jParen j) (PM (m_addWheres (join_wheres j ++ [eiExpr join]) m)))
            | None => Ok (PJ ((if jIsLeft j then add_otherFilter else add_joinOn) join j) lt rt)
            end
      | _ => Panic
      end
  end.

(** [pushEqualCmprs]; once the root is merged the remaining conditions are
    added to its WHERE clause. *)
Definition pushEqualCmprs (r : Router) (t : PTree) (joins : list exprInfo) : res perr PTree := res_fold (push_equal r) t joins.

(** [pushFilters] *)
Definition t_pushFilters (r : Router) (t : PTree) (expr : Expr) : res perr PTree :=
  jw ← parseWhereOrJoinExprs expr (getReferTables t);
  t ← res_fold (j_pushFilter r) t (snd jw);
  pushEqualCmprs r t (fst jw).

(** ** Routes (join_node.go) *)

(** [lmn.backend = rmn.backend] and the like when the tables of [lmn] are all
    global. *)
Definition take_route (ls rs : MergeSt) : MergeSt :=
  if msNonGlobalCnt ls =? 0
  then mkMergeSt (msTables ls) (msNonGlobalCnt ls) (msBackend rs) (msIndexes rs) (msRouteLen rs) (msWhere ls)
  else ls.

(** [calcRoute] *)
Fixpoint t_calcRoute (r : Router) (t : PTree) : res perr PTree :=
  match t with
  | PM m => s ← calcRoute r (mnS m); Ok (PM (set_mnS s m))
  | PJ j lt rt =>
      lt ← t_calcRoute r lt;
      rt ← t_calcRoute r rt;
      match lt, rt with
      | PM lmn, PM rmn =>
          let ls := mnS lmn in
          let rs := mnS rmn in
          if (negb (bool_decide (msBackend ls = "")) && bool_decide (msBackend ls = msBackend rs))
             || (msNonGlobalCnt rs =? 0) || (msNonGlobalCnt ls =? 0) then
            m ← mergeRoutes r (set_mnS (take_route ls rs) lmn) rmn (jExpr j) [];
            Ok (setParenthese (jParen j) (PM (m_addWheres (join_wheres j) m)))
          else Ok (PJ j lt rt)
      | _, _ => Ok (PJ j lt rt)
      end
  end.

(** The part of [processSelect] up to the routes. *)
Definition plan_where (r : Router) (t : PTree) (where_ : option Expr) : res perr PTree :=
  t ← (match where_ with Some e => t_pushFilters r t e | None => Ok t end);
  t_calcRoute r t.
Definition plan_from (r : Router) (database : string) (from : list TableRef) (where_ : option Expr) : res perr PTree :=
  t ← scanTableExprs r database from; plan_where r t where_.
End tree.
