(* ===== verification/PlanTreeProps.v ===== *)
(** * What the plan tree guarantees

    For inner joins the conditions of the nodes are together equivalent to the
    ON and WHERE conditions of the statement: pushing them to the nodes, merging
    nodes and computing routes loses and invents none. *)
From S2P Require Import Prelude GoStd Config Xcontext Partition Compute Router Frm RouterProps Sql PlanExpr PlanExprProps Join Operators PlanSelect PlanSelectProps PlanTree.
Open Scope string_scope.
Open Scope list_scope.
Open Scope Z_scope.

(** ** Renamed columns *)
Section rename.
Context {V : Type} `{SS : SqlSem V}.
Variables (env : ColName -> V) (f : ColName -> ColName).

(** Evaluation is unchanged, and member by member on the list of an IN. *)
Definition same_eval (e : Expr) : Prop :=
  (forall c, c ∈ cols_of e -> env (f c) = env c) ->
  eval env (map_cols f e) = eval env e /\
  match e with ValTuple es => List.map (eval env) (List.map (map_cols f) es) = List.map (eval env) es | _ => True end.

Lemma map_eval_ext (es : list Expr) :
  Forall same_eval es -> (forall c, c ∈ omap col_of (List.flat_map nodes es) -> env (f c) = env c) ->
  List.map (eval env) (List.map (map_cols f) es) = List.map (eval env) es.
Proof.
  induction 1 as [|e es He _ IH]; intros Hc; simpl in *; [done|]. rewrite omap_app in Hc. f_equal.
  - apply He. intros c Hin. apply Hc, elem_of_app. by left.
  - apply IH. intros c Hin. apply Hc, elem_of_app. by right.
Qed.

Lemma args_eval_ext (args : list SelectExpr) :
  Forall same_eval (select_args args) ->
  (forall c, c ∈ omap col_of (List.flat_map (fun a => match a with AliasedExpr e _ => nodes e | _ => [] end) args) ->
     env (f c) = env c) ->
  List.map (fun a => match a with AliasedExpr e _ => Some (eval env e) | _ => None end)
    (List.map (fun a => match a with
                        | AliasedExpr e as_ => AliasedExpr (map_cols f e) as_
                        | StarExpr t => StarExpr t
                        | Nextval => Nextval
                        end) args)
  = List.map (fun a => match a with AliasedExpr e _ => Some (eval env e) | _ => None end) args.
Proof.
  induction args as [|[t|e a|] args IH]; intros Ha Hc; simpl in *; [done|f_equal; auto| |f_equal; auto].
  rewrite omap_app in Hc. apply Forall_cons in Ha as [He Ha].
  assert (eval env (map_cols f e) = eval env e) as -> by (apply He; intros c Hin; apply Hc, elem_of_app; by left).
  f_equal. apply IH; [done|]. intros c Hin. apply Hc, elem_of_app. by right.
Qed.

Lemma cmp_eval_ext op l r esc :
  same_eval l -> same_eval r -> Forall same_eval (opt_list esc) -> same_eval (ComparisonExpr op l r esc).
Proof.
  intros Hl Hr He Hc. split; [|done]. unfold cols_of in Hc. simpl in Hc. rewrite !omap_app in Hc.
  destruct Hl as [Hl _]; [intros c Hin; apply Hc; rewrite !elem_of_app; tauto|].
  destruct Hr as [Hr Ht]; [intros c Hin; apply Hc; rewrite !elem_of_app; tauto|].
  assert (match esc with Some x => Some (map_cols f x) | None => None end = map_cols f <$> esc) as Hm by (by destruct esc).
  assert ((match (map_cols f <$> esc) with Some x => Some (eval env x) | None => None end)
    = match esc with Some x => Some (eval env x) | None => None end) as Hx.
  { destruct esc as [x|]; [|done]. simpl. f_equal. apply Forall_cons in He as [He _]. apply He.
    intros c Hin. apply Hc. rewrite !elem_of_app. tauto. }
  simpl. rewrite Hm, Hl, Hr, Hx. case_decide; [done|]. case_decide; [|done].
  destruct r; try done. simpl in *. do 2 f_equal.
  rewrite <- (List.map_map (eval env) (sem_eq (eval env l))), Ht, (List.map_map (eval env)). done.
Qed.

Lemma eval_same e : same_eval e.
Proof.
  induction e as [l r IHl IHr|l r IHl IHr|e IH|op l r esc IHl IHr IHe|v| |c|es IH|es IH|n d args IH|k es IH]
    using Expr_ind'; try (by apply cmp_eval_ext); intros Hc; unfold cols_of in *; simpl in *; rewrite ?omap_app in Hc; (split; [|done]) || idtac; try done.
  - destruct IHl as [-> _]; [intros c Hin; apply Hc, elem_of_app; by left|].
    destruct IHr as [-> _]; [intros c Hin; apply Hc, elem_of_app; by right|done].
  - destruct IHl as [-> _]; [intros c Hin; apply Hc, elem_of_app; by left|].
    destruct IHr as [-> _]; [intros c Hin; apply Hc, elem_of_app; by right|done].
  - by apply IH.
  - apply Hc. by left.
  - rewrite map_eval_ext by done. done.
  - f_equal. by apply map_eval_ext.
  - f_equal. by apply args_eval_ext.
  - f_equal. by apply map_eval_ext.
Qed.

Lemma eval_map_cols e : (forall c, c ∈ cols_of e -> env (f c) = env c) -> eval env (map_cols f e) = eval env e.
Proof. apply eval_same. Qed.
End rename.

(** ** The conditions of a tree *)
Fixpoint from_conds (t : FromT) : list Expr :=
  match t with
  | FTable _ => []
  | FJoin _ on l r => on :: List.flat_map from_conds l ++ List.flat_map from_conds r
  | FParen l => List.flat_map from_conds l
  end.
Definition node_conds (m : MNode) : list Expr := msWhere (mnS m) ++ List.flat_map from_conds (mnFrom m).
Fixpoint tree_conds (t : PTree) : list Expr :=
  match t with
  | PM m => node_conds m
  | PJ j l r => tree_conds l ++ tree_conds r ++ (eiExpr <$> jOn j) ++ (eiExpr <$> jOtherFilter j) ++ jNoTable j
  end.

(** The ON conditions of a FROM clause, and that all of its joins are inner. *)
Fixpoint ref_conds (e : TableRef) : list Expr :=
  match e with
  | TRTable _ _ | TRSubquery _ => []
  | TRJoin l _ r on => ref_conds l ++ ref_conds r ++ opt_list on
  | TRParen es => List.flat_map ref_conds es
  end.
Fixpoint inner_ref (e : TableRef) : bool :=
  match e with
  | TRTable _ _ | TRSubquery _ => true
  | TRJoin l k r _ => negb (bool_decide (k = LeftJoinStr)) && negb (bool_decide (k = RightJoinStr)) && inner_ref l && inner_ref r
  | TRParen es => forallb inner_ref es
  end.

(** ** The join conditions of a statement *)

(** [f] is one of the conjuncts of a condition. *)
Inductive conjunct (f : Expr) : Expr -> Prop :=
| conjunct_self : conjunct f f
| conjunct_left l r : conjunct f l -> conjunct f (AndExpr l r)
| conjunct_right l r : conjunct f r -> conjunct f (AndExpr l r)
| conjunct_paren e : conjunct f e -> conjunct f (ParenExpr e).

(** One of the conditions has [a = b], for columns with different qualifiers,
    as a conjunct. *)
Definition equated (conds : list Expr) (a b : ColName) : Prop :=
  exists e esc, e ∈ conds /\ conjunct (ComparisonExpr EqualStr (ColNameE a) (ColNameE b) esc) e /\ cnQualifier a <> cnQualifier b.

Lemma conjunct_trans f e g : conjunct f e -> conjunct e g -> conjunct f g.
Proof. intros H. induction 1; [done|by apply conjunct_left|by apply conjunct_right|by apply conjunct_paren]. Qed.

Lemma skip_conjunct e : conjunct (skipParenthesis e) e.
Proof. induction e; simpl; try apply conjunct_self. by apply conjunct_paren. Qed.

Lemma split_conjunct e : forall fs f, f ∈ splitAndExpression fs e -> f ∈ fs \/ conjunct f e.
Proof.
  assert (forall fs e f, f ∈ fs ++ [e] -> f ∈ fs \/ conjunct f e) as H1.
  { intros fs e0 f [Hf|Hf]%elem_of_app; [by left|right]. apply list_elem_of_singleton in Hf as ->. apply conjunct_self. }
  induction e as [l IHl r IHr| | e IH| | | | | | | |]; intros fs f Hf; simpl in Hf; try by apply H1.
  - destruct (IHr _ _ Hf) as [[Hl|Hl]%IHl|Hr]; [by left|right; by apply conjunct_left|right; by apply conjunct_right].
  - destruct e; try by apply H1. destruct (IH _ _ Hf); [by left|right; by apply conjunct_paren].
Qed.

(** An OR is never rewritten to an equality: it has two terms, or becomes IN. *)
Lemma add_to_map_some c v m : add_to_map c v m <> [].
Proof. destruct m as [|[k vs] m]; simpl; [done|]. by case_match. Qed.

Lemma splitOr_some e : forall m subs m', splitOrExpression e m = (subs, m') ->
  (m <> [] -> m' <> []) /\ (m' = [] -> subs <> []).
Proof.
  induction e as [| l IHl r IHr | e IH | op l _ r _ esc | | | | | | |]; intros m subs m' H; simpl in H; try (by injection H as <- <-).
  - destruct (splitOrExpression l m) as [ls m1] eqn:Hl. destruct (splitOrExpression r m1) as [rs m2] eqn:Hr. injection H as <- <-.
    destruct (IHl _ _ _ Hl) as [H1 H2], (IHr _ _ _ Hr) as [H3 H4]. split; [tauto|]. intros Hm Hs.
    apply app_eq_nil in Hs as [_ Hs]. by apply H4.
  - rewrite splitOr_skip in H. by apply IH.
  - case_match; [|by injection H as <- <-]. destruct p as [c v]. injection H as <- <-. pose proof (add_to_map_some c v m). done.
Qed.

Lemma rebuild_or l : forall n : Expr, l <> [] ->
  exists a b, foldl (fun res e => Some (rebuildOr res e)) (Some n) l = Some (OrExpr a b).
Proof.
  induction l as [|x l IH]; intros n Hl; [done|]. simpl. destruct l as [|y l]; [by eexists _, _|]. by apply IH.
Qed.

Lemma convert_equality `{IR : InMapRange, !InMapRangeOk IR} e l r esc :
  convertOrToIn e = ComparisonExpr EqualStr l r esc -> e = ComparisonExpr EqualStr l r esc.
Proof.
  destruct e as [| a b | | | | | | | | |]; try done. cbn [convertOrToIn].
  destruct (splitOrExpression (OrExpr a b) []) as [subs m] eqn:H. simpl in H.
  destruct (splitOrExpression a []) as [ls m1] eqn:Ha. destruct (splitOrExpression b m1) as [rs m2] eqn:Hb. injection H as <- <-.
  destruct (splitOr_some _ _ _ _ Ha) as [H1 H2], (splitOr_some _ _ _ _ Hb) as [H3 H4].
  set (ins := _ <$> in_range m2). destruct (ls ++ rs ++ ins) as [|x [|y l']] eqn:Hl.
  - rewrite <- app_assoc, Hl. simpl. done.
  - rewrite <- app_assoc, Hl. simpl. intros ->. exfalso. destruct (decide (m2 = [])) as [->|Hm].
    + assert (m1 = []) as -> by (destruct m1; [done|exfalso; by apply H3]).
      specialize (H2 eq_refl). specialize (H4 eq_refl). destruct ls as [|? [|]], rs; simpl in Hl; done.
    + assert (ComparisonExpr EqualStr l r esc ∈ ins) as Hin.
      { assert (ins <> []) as Hi.
        { intros Hn. unfold ins in Hn. apply fmap_nil_inv in Hn. apply Hm. apply Permutation_nil_r. by rewrite <- Hn, in_range_perm. }
        destruct ins as [|i is']; [done|]. assert (i ∈ ls ++ rs ++ i :: is') as Hx by set_solver. rewrite Hl in Hx.
        apply list_elem_of_singleton in Hx as ->. set_solver. }
      unfold ins in Hin. apply list_elem_of_fmap in Hin as (kv & [=] & _).
  - rewrite <- app_assoc, Hl. simpl. destruct (rebuild_or (y :: l') x ltac:(done)) as (u & v & Hr). simpl in Hr. rewrite Hr. done.
Qed.

Section conditions.
Context {V : Type} `{SS : SqlSem V, !SqlSemOk V}.
Context `{IR : InMapRange, !InMapRangeOk IR} `{R : MapRange, !MapRangeOk R} `{J : JumpHash} `{RI : Rand} `{EP : ExprPrinter}.
Variables (env : ColName -> V) (r : Router).
Hypothesis Henv : env_ok env.
(** A column is told by its name and the name of its table. *)
Hypothesis Hnames : forall a b, cnName a = cnName b -> tnName (cnQualifier a) = tnName (cnQualifier b) -> env a = env b.
(** The conditions of the statement and the joined row at hand: the columns
    of a join condition, when they compare equal, hold the same value.  It is so
    when they are of one type and compared by content; a number and a text, or
    texts under a collation, may compare equal and differ
    ([key_filter_invents]). *)
Variable conds : list Expr.
Hypothesis Hsame : forall a b, equated conds a b -> sem_eq (env a) (env b) = Some true -> env a = env b.

Abbreviation tt_ e := (cond env e = Some true).
Definition sat (t : PTree) : Prop := Forall (fun e => tt_ e) (tree_conds t).

(** A join condition equates its two columns. *)
Definition on_ok (f : exprInfo) : Prop :=
  exists a b, eiCols f = [a; b] /\ (tt_ (eiExpr f) -> env a = env b).

(** Trees of inner joins: the ON condition of a node is the conjunction of its
    join conditions. *)
Fixpoint inner (t : PTree) : Prop :=
  match t with
  | PM _ => True
  | PJ j lt rt =>
      jIsLeft j = false /\ Forall on_ok (jOn j) /\
      match jExpr j with
      | Some (k, on) => k <> LeftJoinStr /\ (tt_ on <-> Forall (fun f => tt_ (eiExpr f)) (jOn j))
      | None => True
      end /\ inner lt /\ inner rt
  end.

Lemma sat_join j lt rt : sat (PJ j lt rt) <->
  sat lt /\ sat rt /\ Forall (fun f => tt_ (eiExpr f)) (jOn j) /\ Forall (fun f => tt_ (eiExpr f)) (jOtherFilter j) /\
  Forall (fun e => tt_ e) (jNoTable j).
Proof. unfold sat. simpl. by rewrite !Forall_app, !Forall_fmap. Qed.

Lemma sat_where m e : sat (PM (m_addWhere e m)) <-> sat (PM m) /\ tt_ e.
Proof.
  unfold sat. simpl. unfold node_conds. simpl. rewrite !Forall_app, Forall_singleton. tauto.
Qed.
Lemma sat_wheres es : forall m, sat (PM (m_addWheres es m)) <-> sat (PM m) /\ Forall (fun e => tt_ e) es.
Proof.
  induction es as [|e es IH]; intros m; simpl; [rewrite Forall_nil; tauto|].
  unfold m_addWheres in *. simpl. rewrite IH, sat_where, Forall_cons. tauto.
Qed.
Lemma sat_paren b t : sat (setParenthese b t) <-> sat t.
Proof. by destruct t. Qed.
Lemma inner_paren b t : inner (setParenthese b t) <-> inner t.
Proof. by destruct t. Qed.

Lemma sat_addFilter tbs f : forall t, sat (addFilter tbs f t) <-> sat t /\ tt_ (eiExpr f).
Proof.
  induction t as [m|j lt IHl rt IHr]; simpl; [apply sat_where|].
  destruct (checkTbInNode tbs (getReferTables lt)); [|destruct (checkTbInNode tbs (getReferTables rt))];
    rewrite !sat_join, ?IHl, ?IHr; simpl; rewrite ?Forall_app, ?Forall_singleton; tauto.
Qed.
Lemma inner_addFilter tbs f t : inner t -> inner (addFilter tbs f t).
Proof.
  induction t as [m|j lt IHl rt IHr]; simpl; [done|]. intros (H1 & H2 & H3 & Hl & Hr).
  destruct (checkTbInNode tbs (getReferTables lt)); [|destruct (checkTbInNode tbs (getReferTables rt))];
    simpl; repeat split; auto.
Qed.

(** ** Merge nodes *)
Lemma fetch_where ti vals : forall s s', res_fold (fetchIndex r ti) s vals = Ok s' -> msWhere s' = msWhere s.
Proof.
  induction vals as [|v vals IH]; intros s s' H; simpl in H; [by injection H as <-|].
  destruct (fetchIndex r ti s v) as [s1| |] eqn:Hf; simpl in H; try done. rewrite (IH _ _ H).
  unfold fetchIndex in Hf. destruct (GetIndex _ _ _ _); simpl in Hf; try done. by injection Hf as <-.
Qed.

Lemma pushFilter_where s f s' : pushFilter r s f = Ok s' -> msWhere s' = msWhere s ++ [eiExpr f].
Proof.
  unfold pushFilter. intros H. repeat (case_match; try done); simplify_eq; try done; by apply fetch_where in H.
Qed.

Lemma m_pushFilter_sat m f m' : m_pushFilter r m f = Ok m' -> sat (PM m') <-> sat (PM m) /\ tt_ (eiExpr f).
Proof.
  unfold m_pushFilter. destruct (pushFilter r (mnS m) f) as [s| |] eqn:Hp; simpl; try done. intros [= <-].
  apply pushFilter_where in Hp. unfold sat, node_conds. simpl. unfold node_conds. simpl. rewrite Hp, !Forall_app, Forall_singleton. tauto.
Qed.

Lemma m_pushFilters_sat fs : forall m m', res_fold (m_pushFilter r) m fs = Ok m' ->
  sat (PM m') <-> sat (PM m) /\ Forall (fun f => tt_ (eiExpr f)) fs.
Proof.
  induction fs as [|f fs IH]; intros m m' H; simpl in H; [injection H as <-; rewrite Forall_nil; tauto|].
  destruct (m_pushFilter r m f) as [m1| |] eqn:Hf; simpl in H; try done.
  rewrite (IH _ _ H), (m_pushFilter_sat _ _ _ Hf), Forall_cons. tauto.
Qed.

Lemma m_pushKeyFilter_sat m f tb c m' :
  m_pushKeyFilter r m f tb c = Ok m' -> sat (PM m') <-> sat (PM m) /\ tt_ (eiExpr f).
Proof.
  unfold m_pushKeyFilter. intros H. destruct (msTables _ !! tb) as [ti|]; [|done].
  destruct (if EqualFold _ _ then _ else _) as [s| |] eqn:Hs; simpl in H; try done. injection H as <-.
  assert (msWhere s = msWhere (mnS m) ++ [eiExpr f]) as Hw.
  { destruct (EqualFold _ _); [by apply fetch_where in Hs|by injection Hs as <-]. }
  unfold sat. simpl. unfold node_conds. simpl. rewrite Hw, !Forall_app, Forall_singleton. tauto.
Qed.

(** ** Conditions on one column *)

(** The columns of the filter are all the column [table.field]. *)
Definition key_filter (f : exprInfo) (table field : string) : Prop :=
  forall c, c ∈ cols_of (eiExpr f) -> env c = env (mkColName field (mkTableName table "")).

Lemma replace_key_filter f tb c : key_filter (replace_key f tb c) tb c.
Proof.
  intros x Hx. unfold replace_key in Hx. simpl in Hx.
  assert (Forall (fun y => y = mkColName c (mkTableName tb "")) (cols_of (map_cols (fun _ => mkColName c (mkTableName tb "")) (eiExpr f))))
    as HF by (by apply map_cols_all). rewrite Forall_forall in HF. by rewrite (HF _ Hx).
Qed.

Lemma replace_key_cond f table field tb c :
  key_filter f table field -> env (mkColName c (mkTableName tb "")) = env (mkColName field (mkTableName table "")) ->
  cond env (eiExpr (replace_key f tb c)) = cond env (eiExpr f).
Proof. intros Hf He. unfold cond, replace_key. simpl. f_equal. apply eval_map_cols. intros x Hx. by rewrite (Hf _ Hx). Qed.

Lemma find_key_spec left table field on c :
  Forall on_ok on -> Forall (fun f => tt_ (eiExpr f)) on -> find_key left table field on = Ok (Some c) ->
  env (mkColName (cnName c) (mkTableName (tnName (cnQualifier c)) "")) = env (mkColName field (mkTableName table "")).
Proof.
  intros Hok Htt. induction on as [|f on IH]; simpl; [done|].
  apply Forall_cons in Hok as [(a & b & Hc & Heq) Hok]. apply Forall_cons in Htt as [Ht Htt].
  unfold on_cols. rewrite Hc. simpl. specialize (Heq Ht).
  assert (forall x y, env x = env y -> bool_decide (tnName (cnQualifier x) = table) && bool_decide (cnName x = field) = true ->
    env (mkColName (cnName y) (mkTableName (tnName (cnQualifier y)) "")) = env (mkColName field (mkTableName table ""))) as Hgen.
  { intros x y Hxy [Hx1%bool_decide_eq_true Hx2%bool_decide_eq_true]%andb_true_iff. subst.
    transitivity (env y); [by apply Hnames|]. rewrite <- Hxy. by apply Hnames. }
  destruct left; simpl; destruct (_ && _) eqn:Hm; try (by apply IH); intros [= <-]; eapply Hgen; by try exact Hm.
Qed.

Lemma pushKeyFilter_sat t : forall f tb c t', inner t -> key_filter f tb c -> pushKeyFilter r t f tb c = Ok t' ->
  (sat t' <-> sat t /\ tt_ (eiExpr f)) /\ inner t'.
Proof.
  induction t as [m|j lt IHl rt IHr]; intros f tb c t' Hin Hf H; simpl in H.
  - destruct (m_pushKeyFilter r m f tb c) as [m'| |] eqn:Hm; simpl in H; try done. injection H as <-.
    split; [by eapply m_pushKeyFilter_sat|done].
  - destruct Hin as (H1 & Hok & H3 & Hl & Hr).
    assert (forall left x, find_key left tb c (jOn j) = Ok (Some x) -> Forall (fun f => tt_ (eiExpr f)) (jOn j) ->
      tt_ (eiExpr (replace_key f (tnName (cnQualifier x)) (cnName x))) <-> tt_ (eiExpr f)) as Hrep.
    { intros left x Hx Htt. by rewrite (replace_key_cond f tb c) by eauto using find_key_spec. }
    destruct (bool_decide (is_Some (getReferTables lt !! tb))).
    + destruct (find_key true tb c (jOn j)) as [o| |] eqn:Ho; simpl in H; try done.
      destruct (pushKeyFilter r lt f tb c) as [lt'| |] eqn:Hlt; simpl in H; try done.
      destruct (IHl _ _ _ _ Hl Hf Hlt) as [Hsl Hil]. destruct o as [x|]; simpl in H.
      * destruct (pushKeyFilter r rt _ _ _) as [rt'| |] eqn:Hrt; simpl in H; try done. injection H as <-.
        destruct (IHr _ _ _ _ Hr (replace_key_filter _ _ _) Hrt) as [Hsr Hir].
        split; [|repeat split; auto]. rewrite !sat_join, Hsl, Hsr. specialize (Hrep true x Ho). tauto.
      * injection H as <-. split; [|repeat split; auto]. rewrite !sat_join, Hsl. tauto.
    + destruct (find_key false tb c (jOn j)) as [o| |] eqn:Ho; simpl in H; try done.
      destruct (pushKeyFilter r rt f tb c) as [rt'| |] eqn:Hrt; simpl in H; try done.
      destruct (IHr _ _ _ _ Hr Hf Hrt) as [Hsr Hir]. destruct o as [x|]; simpl in H.
      * destruct (pushKeyFilter r lt _ _ _) as [lt'| |] eqn:Hlt; simpl in H; try done. injection H as <-.
        destruct (IHl _ _ _ _ Hl (replace_key_filter _ _ _) Hlt) as [Hsl Hil].
        split; [|repeat split; auto]. rewrite !sat_join, Hsl, Hsr. specialize (Hrep false x Ho). tauto.
      * injection H as <-. split; [|repeat split; auto]. rewrite !sat_join, Hsr. tauto.
Qed.

(** A parsed filter knows all of its columns. *)
Definition cols_known (f : exprInfo) : Prop := forall c, c ∈ cols_of (eiExpr f) -> c ∈ eiCols f.

Lemma j_pushFilter_sat t f t' : inner t -> cols_known f -> j_pushFilter r t f = Ok t' ->
  (sat t' <-> sat t /\ tt_ (eiExpr f)) /\ inner t'.
Proof.
  intros Hin Hc H. unfold j_pushFilter in H. destruct t as [m|j lt rt].
  { destruct (m_pushFilter r m f) as [m'| |] eqn:Hm; simpl in H; try done. injection H as <-.
    split; [by apply m_pushFilter_sat|done]. }
  destruct Hin as (H1 & Hok & H3 & Hl & Hr). rewrite H1 in H.
  destruct (eiReferTables f) as [|tb tbs].
  { injection H as <-. split; [|repeat split; auto]. rewrite !sat_join. simpl. rewrite Forall_app, Forall_singleton. tauto. }
  set (t := PJ (set_hasRight _ j) lt rt) in H. assert (inner t) as Hit by (repeat split; auto).
  assert (sat t <-> sat (PJ j lt rt)) as Hst by reflexivity.
  assert (forall tabs, (sat (addFilter tabs f t) <-> sat (PJ j lt rt) /\ tt_ (eiExpr f)) /\ inner (addFilter tabs f t)) as Hadd.
  { intros tabs. rewrite sat_addFilter, Hst. split; [reflexivity|by apply inner_addFilter]. }
  destruct tbs as [|tb2 tbs].
  - destruct (jTables j !! tb); [|done]. destruct (eiCols f) as [|c [|]] eqn:Hcs; try (injection H as <-; exact (Hadd [tb])).
    apply pushKeyFilter_sat in H as [Hs Hi]; [by rewrite Hs, Hst|done|].
    intros x Hx. specialize (Hc x Hx). rewrite Hcs in Hc. apply list_elem_of_singleton in Hc as ->. by apply Hnames.
  - destruct (checkTbInNode _ _); [|done]. injection H as <-. exact (Hadd (tb :: tb2 :: tbs)).
Qed.

Lemma j_pushFilters_sat fs : forall t t', inner t -> Forall cols_known fs -> res_fold (j_pushFilter r) t fs = Ok t' ->
  (sat t' <-> sat t /\ Forall (fun f => tt_ (eiExpr f)) fs) /\ inner t'.
Proof.
  induction fs as [|f fs IH]; intros t t' Hin Hc H; simpl in H; [injection H as <-; rewrite Forall_nil; tauto|].
  apply Forall_cons in Hc as [Hf Hc]. destruct (j_pushFilter r t f) as [t1| |] eqn:Ht; simpl in H; try done.
  destruct (j_pushFilter_sat _ _ _ Hin Hf Ht) as [Hs Hi]. destruct (IH _ _ Hi Hc H) as [Hs' Hi'].
  split; [|done]. rewrite Hs', Hs, Forall_cons. tauto.
Qed.

(** ** Parsed conditions *)
Lemma classify_parsed e f rt : e ∈ conds -> conjunct f e ->
  match classify f rt (cols_of f) with inl j => on_ok j | inr w => cols_known w end.
Proof.
  intros He Hf. unfold classify. destruct f as [| | |op l r' esc| | | | | | |]; try (by intros ? ?).
  case_decide as Heq; [|case_decide; [|by intros ? ?]].
  - subst op. destruct l, r'; try (by intros ? ?).
    + intros x Hx. simpl in *. unfold cols_of in *. simpl in *. rewrite !omap_app in *. set_solver.
    + case_decide; [by intros ? ?|]. exists c, c0. split; [done|]. unfold cond. simpl. rewrite truth_of3. apply Hsame.
      by exists e, esc.
  - destruct l, r'; by intros ? ?.
Qed.

(** A conjunct of the clause as it is parsed: itself, or no equality. *)
Lemma classify_filter e f rt : e ∈ conds -> conjunct f e ->
  match classify (convertOrToIn (skipParenthesis f)) rt (cols_of (convertOrToIn (skipParenthesis f))) with
  | inl j => on_ok j
  | inr w => cols_known w
  end.
Proof.
  intros He Hf. set (g := convertOrToIn (skipParenthesis f)).
  destruct g as [| | |op l r' esc| | | | | | |] eqn:Hg; try (by intros ? ?). destruct (decide (op = EqualStr)) as [->|Hop].
  - apply (classify_parsed e); [done|]. apply convert_equality in Hg. rewrite <- Hg.
    eapply conjunct_trans; [apply skip_conjunct|done].
  - unfold classify. rewrite decide_False by done. case_decide; [|by intros ? ?]. destruct l, r'; by intros ? ?.
Qed.

Lemma parse_ok e tbs joins wheres : e ∈ conds -> parseWhereOrJoinExprs e tbs = Ok (joins, wheres) ->
  Forall on_ok joins /\ Forall cols_known wheres /\
  (tt_ e <-> Forall (fun f => tt_ (eiExpr f)) joins /\ Forall (fun f => tt_ (eiExpr f)) wheres).
Proof.
  intros He H. pose proof (parse_sem env Henv e tbs joins wheres H) as Hs.
  assert (Forall on_ok joins /\ Forall cols_known wheres) as [H1 H2].
  { assert (forall f, f ∈ splitAndExpression [] e -> conjunct f e) as Hcj.
    { intros f Hf. apply split_conjunct in Hf as [Hn|]; [by apply not_elem_of_nil in Hn|done]. }
    revert H Hcj. unfold parseWhereOrJoinExprs.
    apply (res_fold_inv (parse_filter tbs)
      (fun fs acc => (forall f, f ∈ fs -> conjunct f e) -> Forall on_ok acc.1 /\ Forall cols_known acc.2)); [done|].
    intros fs f [js ws] acc' IH Hf Hcj. destruct IH as [Hj Hw]; [set_solver|]. unfold parse_filter in Hf.
    destruct (Walk _ _ _) as [st| |] eqn:Hwk; simpl in Hf; try done. apply where_cols in Hwk. rewrite Hwk in Hf.
    pose proof (classify_filter e f st.2 He (Hcj f ltac:(set_solver))) as Hc.
    destruct (classify _ _ _); injection Hf as <-; simpl in *; rewrite ?Forall_app, ?Forall_singleton; auto. }
  split; [done|]. split; [done|]. rewrite <- Hs, and3s_true, Forall_fmap, Forall_fmap, Forall_app.
  split; (intros [A B]; split; eapply Forall_impl; [eassumption|by intros ? ?|eassumption|by intros ? ?]).
Qed.

(** ** Merging nodes *)
Lemma from_of_conds m : List.flat_map from_conds (from_of m) = List.flat_map from_conds (mnFrom m).
Proof. unfold from_of. destruct (mnParen m); [|done]. simpl. by rewrite app_nil_r. Qed.

Lemma mergeRoutes_sat l rn je others m :
  mergeRoutes r l rn je others = Ok m -> match je with Some (k, _) => k <> LeftJoinStr | None => True end ->
  sat (PM m) <-> sat (PM l) /\ sat (PM rn) /\ match je with Some (_, on) => tt_ on | None => True end /\
    Forall (fun f => tt_ (eiExpr f)) others.
Proof.
  intros H Hk. unfold mergeRoutes in H. set (m0 := mkMNode _ _ _ _) in H.
  assert (res_fold (m_pushFilter r) m0 others = Ok m) as Hm
    by (destruct je as [[k on]|]; [rewrite decide_False in H by done|]; exact H).
  apply m_pushFilters_sat in Hm. rewrite Hm.
  assert (sat (PM m0) <-> sat (PM l) /\ sat (PM rn) /\ match je with Some (_, on) => tt_ on | None => True end) as ->.
  { unfold sat. simpl. unfold node_conds. simpl. destruct je as [[k on]|]; simpl; rewrite ?app_nil_r;
      rewrite ?List.flat_map_app, ?Forall_app, ?Forall_cons, ?Forall_app, ?from_of_conds; tauto. }
  tauto.
Qed.

(** ** The FROM clause *)
Lemma checkJoinOn_ok lt rt f f' : checkJoinOn lt rt f = Ok f' -> on_ok f -> on_ok f' /\ eiExpr f' = eiExpr f.
Proof.
  intros H (a & b & Hc & He). unfold checkJoinOn, on_cols in H. rewrite Hc in H. simpl in H.
  repeat case_match; try done; injection H as <-; split; try done; [by exists a, b|].
  exists b, a. split; [done|]. intros Ht. symmetry. by apply He.
Qed.

Lemma checkJoinOns_ok lt rt fs fs' : res_map (checkJoinOn lt rt) fs = Ok fs' -> Forall on_ok fs ->
  Forall on_ok fs' /\ (eiExpr <$> fs') = (eiExpr <$> fs).
Proof.
  intros H%res_map_Ok Hok. induction H as [|f f' fs fs' Hf _ IH]; [done|].
  apply Forall_cons in Hok as [Hf0 Hok]. destruct (checkJoinOn_ok _ _ _ _ Hf Hf0) as [? He], (IH Hok) as [? Hes].
  rewrite !fmap_cons, He, Hes. auto.
Qed.

Lemma and_chain fs : forall on, tt_ (foldl (fun on f => AndExpr on (eiExpr f)) on fs) <->
  tt_ on /\ Forall (fun f => tt_ (eiExpr f)) fs.
Proof.
  induction fs as [|f fs IH]; intros on; simpl; [rewrite Forall_nil; tauto|]. rewrite IH, Forall_cons.
  unfold cond at 1. simpl. rewrite truth_of3.
  change (truth (eval env on)) with (cond env on). change (truth (eval env (eiExpr f))) with (cond env (eiExpr f)).
  destruct (cond env on) as [[]|], (cond env (eiExpr f)) as [[]|]; simpl; naive_solver.
Qed.

(** The conditions a join is made from. *)
Lemma join_conditions_ok lt rt refers je x joinOn others :
  match je with Some (k, on) => k <> LeftJoinStr /\ opt_list on ⊆ conds | None => True end ->
  join_conditions lt rt refers je = Ok (x, joinOn, others) ->
  Forall on_ok joinOn /\ Forall cols_known others /\
  match x with
  | Some (k, on) => k <> LeftJoinStr /\ (tt_ on <-> Forall (fun f => tt_ (eiExpr f)) joinOn)
  | None => joinOn = []
  end /\
  (Forall (fun e => tt_ e) (match je with Some (_, Some on) => [on] | _ => [] end) <->
     Forall (fun f => tt_ (eiExpr f)) joinOn /\ Forall (fun f => tt_ (eiExpr f)) others).
Proof.
  intros Hk H. unfold join_conditions in H. destruct je as [[k [on|]]|].
  2-3: injection H as <- <- <-; try destruct Hk; repeat split; auto.
  destruct Hk as [Hk Hsub]. assert (on ∈ conds) as Hon by set_solver.
  destruct (parseWhereOrJoinExprs on refers) as [[js ws]| |] eqn:Hp; simpl in H; try done.
  destruct (res_map _ js) as [js'| |] eqn:Hj; simpl in H; try done.
  destruct (parse_ok _ _ _ _ Hon Hp) as (Hok & Hkn & Hsem). apply checkJoinOns_ok in Hj as [Hok' Hes]; [|done].
  assert (Forall (fun f => tt_ (eiExpr f)) js' <-> Forall (fun f => tt_ (eiExpr f)) js) as Hjs.
  { pose proof (Forall_fmap eiExpr (fun e => tt_ e)) as Hfm. unfold compose in Hfm. rewrite <- !Hfm. by rewrite Hes. }
  rewrite decide_False in H by done. injection H as <- <- <-. rewrite Forall_singleton, Hsem, Hjs.
  split_and!; try done. destruct ws as [|w ws]; [split; [done|]; rewrite Hsem, Hjs, Forall_nil; tauto|].
  destruct js' as [|f fs]; [done|]. split; [done|]. rewrite and_chain, Forall_cons. done.
Qed.

Lemma join_sat lpn rpn je t :
  inner lpn -> inner rpn -> match je with Some (k, on) => k <> LeftJoinStr /\ opt_list on ⊆ conds | None => True end ->
  join r lpn rpn je = Ok t ->
  (sat t <-> sat lpn /\ sat rpn /\ Forall (fun e => tt_ e) (match je with Some (_, Some on) => [on] | _ => [] end)) /\ inner t.
Proof.
  intros Hl Hr Hk H. unfold join in H. destruct (List.find _ _) as [[k ?]|]; [done|].
  destruct (join_conditions _ _ _ je) as [[[x joinOn] others]| |] eqn:Hc; simpl in H; try done.
  destruct (join_conditions_ok _ _ _ _ _ _ _ Hk Hc) as (Hon & Hkn & Hx & Hsem). rewrite Hsem.
  destruct (match lpn, rpn with PM _, PM _ => _ | _, _ => _ end) as [[m|]| |] eqn:Hm; simpl in H; try done.
  - injection H as <-. split; [|done]. destruct lpn as [lmn|]; [|done]. destruct rpn as [rmn|]; [|done].
    destruct (if _ || _ then _ else _) as [[]| |]; simpl in Hm; try done.
    destruct (mergeRoutes r lmn rmn x others) as [m'| |] eqn:Hmr; simpl in Hm; try done. injection Hm as ->.
    rewrite (mergeRoutes_sat _ _ _ _ _ Hmr) by (destruct x as [[]|]; tauto).
    destruct x as [[k on]|]; [destruct Hx as [_ Hx]; rewrite Hx|subst joinOn; rewrite Forall_nil]; tauto.
  - assert (match x with Some (k, _) => bool_decide (k = LeftJoinStr) | None => false end = false) as Hleft.
    { destruct x as [[k on]|]; [|done]. apply bool_decide_eq_false_2, Hx. }
    rewrite Hleft in H. apply j_pushFilters_sat in H as [Hs Hi]; [|repeat split; try done; by destruct x as [[]|]|done].
    split; [|done]. rewrite Hs, sat_join. simpl. rewrite !Forall_nil. tauto.
Qed.

(** An induction principle that reaches the lists in parentheses. *)
Fixpoint TableRef_ind' (P : TableRef -> Prop) (H1 : forall t a, P (TRTable t a)) (H2 : forall a, P (TRSubquery a))
    (H3 : forall l k rt on, P l -> P rt -> P (TRJoin l k rt on)) (H4 : forall es, Forall P es -> P (TRParen es))
    (e : TableRef) : P e :=
  match e with
  | TRTable t a => H1 t a
  | TRSubquery a => H2 a
  | TRJoin l k rt on => H3 l k rt on (TableRef_ind' P H1 H2 H3 H4 l) (TableRef_ind' P H1 H2 H3 H4 rt)
  | TRParen es => H4 es ((fix all es : Forall P es :=
      match es with
      | [] => List.Forall_nil P
      | e :: es => List.Forall_cons P e es (TableRef_ind' P H1 H2 H3 H4 e) (all es)
      end) es)
  end.

Definition scan_ok (db : string) (e : TableRef) : Prop := inner_ref e = true -> ref_conds e ⊆ conds ->
  forall t, scanTableExpr r db e = Ok t -> (sat t <-> Forall (fun c => tt_ c) (ref_conds e)) /\ inner t.

Lemma join_all_sat db es : Forall (scan_ok db) es -> forallb inner_ref es = true -> List.flat_map ref_conds es ⊆ conds ->
  forall t, join_all r (scanTableExpr r db) es = Ok t ->
  (sat t <-> Forall (fun c => tt_ c) (List.flat_map ref_conds es)) /\ inner t.
Proof.
  induction 1 as [|e es He Hes IH]; intros Hi Hsub t H; [done|]. simpl in Hi. apply andb_true_iff in Hi as [Hie Hi].
  cbn [List.flat_map] in *. assert (ref_conds e ⊆ conds /\ List.flat_map ref_conds es ⊆ conds) as [Hc1 Hc2] by set_solver. rewrite Forall_app. destruct es as [|e2 es].
  - destruct (He Hie Hc1 _ H) as [Hs Ht]. split; [|done]. rewrite Hs. simpl. rewrite Forall_nil. tauto.
  - change (join_all r (scanTableExpr r db) (e :: e2 :: es)) with
      (lpn ← scanTableExpr r db e; rpn ← join_all r (scanTableExpr r db) (e2 :: es); join r lpn rpn None) in H.
    destruct (scanTableExpr r db e) as [lpn| |] eqn:Hl; cbn [mbind res_bind] in H; try done.
    destruct (join_all r (scanTableExpr r db) (e2 :: es)) as [rpn| |] eqn:Hr; cbn [mbind res_bind] in H; try done.
    destruct (He Hie Hc1 _ Hl) as [Hsl Hil], (IH Hi Hc2 _ eq_refl) as [Hsr Hir].
    destruct (join_sat lpn rpn None t Hil Hir I H) as [Hs Ht]. split; [|done]. rewrite Hs, Hsl, Hsr, Forall_nil. tauto.
Qed.

Lemma scan_sat db e : scan_ok db e.
Proof.
  induction e as [t a|a|l k rt on IHl IHr|es IH] using TableRef_ind'; intros Hi Hsub x H; cbn [scanTableExpr ref_conds] in *; [|done| |].
  - unfold scanAliasedTableExpr in H. destruct (of_router _) as [conf| |]; simpl in H; try done.
    destruct (if decide _ then _ else _) as [[idxs cnt] as_]. simpl in H. injection H as <-.
    split; [|done]. unfold sat. simpl. unfold node_conds. simpl. rewrite map_to_list_singleton. done.
  - simpl in Hi. rewrite !andb_true_iff, !negb_true_iff, !bool_decide_eq_false in Hi. destruct Hi as [[[Hk1 Hk2] Hil] Hir].
    destruct (decide _) as [Hk|Hk]; [|by rewrite decide_False in H].
    destruct (scanTableExpr r db l) as [lpn| |] eqn:Hl; cbn [mbind res_bind] in H; try done.
    destruct (scanTableExpr r db rt) as [rpn| |] eqn:Hr; cbn [mbind res_bind] in H; try done.
    assert (ref_conds l ⊆ conds /\ ref_conds rt ⊆ conds /\ opt_list on ⊆ conds) as (Hc1 & Hc2 & Hc3) by set_solver.
    destruct (IHl Hil Hc1 _ Hl) as [Hsl Hnl], (IHr Hir Hc2 _ Hr) as [Hsr Hnr].
    destruct (join_sat lpn rpn (Some (k, on)) x Hnl Hnr (conj Hk1 Hc3) H) as [Hs Ht]. split; [|done]. rewrite Hs, Hsl, Hsr. simpl.
    rewrite !Forall_app. by destruct on.
  - destruct (join_all r (scanTableExpr r db) es) as [t| |] eqn:Ht; cbn [mbind res_bind] in H; try done. injection H as <-.
    destruct (join_all_sat db es IH Hi Hsub _ Ht) as [Hs Hn]. rewrite sat_paren, inner_paren. done.
Qed.

(** ** The WHERE clause and the routes *)
Lemma Ok_inj {E A} (a b : A) : @Ok E A a = Ok b -> b = a.
Proof. by intros [= ->]. Qed.

Lemma join_wheres_sat j lt rt m : inner (PJ j lt rt) ->
  (sat (PM m) <-> sat lt /\ sat rt /\ match jExpr j with Some (_, on) => tt_ on | None => True end) ->
  sat (PM (m_addWheres (join_wheres j) m)) <-> sat (PJ j lt rt).
Proof.
  intros (_ & _ & Hx & _ & _) Hm. rewrite sat_wheres, Hm, sat_join. unfold join_wheres. rewrite !Forall_app.
  pose proof (Forall_fmap eiExpr (fun e => tt_ e)) as Hfm. unfold compose in Hfm.
  destruct (jExpr j) as [[k on]|]; [destruct Hx as [_ Hx]; rewrite Hx|]; rewrite ?Hfm, ?Forall_nil; tauto.
Qed.

Lemma m_addWheres_app es1 es2 m : m_addWheres (es1 ++ es2) m = m_addWheres es2 (m_addWheres es1 m).
Proof. apply foldl_app. Qed.

Lemma push_equal_sat t : forall f t', inner t -> on_ok f -> push_equal r t f = Ok t' ->
  (sat t' <-> sat t /\ tt_ (eiExpr f)) /\ inner t'.
Proof.
  induction t as [m|j lt IHl rt IHr]; intros f t' Hin Hf H; cbn [push_equal] in H.
  { injection H as <-. split; [apply sat_where|done]. }
  pose proof Hin as (H1 & Hok & H3 & Hil & Hir).
  destruct (eiReferTables f) as [|a [|b ts]]; try done.
  destruct (checkTbInNode [a; b] (getReferTables lt)); [|destruct (checkTbInNode [a; b] (getReferTables rt))].
  - destruct (push_equal r lt f) as [lt'| |] eqn:Hl; cbn [mbind res_bind] in H; try done. injection H as <-.
    destruct (IHl _ _ Hil Hf Hl) as [Hs Hi]. split; [rewrite !sat_join, Hs; tauto|by repeat split].
  - destruct (push_equal r rt f) as [rt'| |] eqn:Hr; cbn [mbind res_bind] in H; try done. injection H as <-.
    destruct (IHr _ _ Hir Hf Hr) as [Hs Hi]. split; [rewrite !sat_join, Hs; tauto|by repeat split].
  - set (g := match checkJoinOn _ _ f with Ok f' => f' | _ => f end) in H.
    assert (on_ok g /\ eiExpr g = eiExpr f) as [Hg Hge].
    { unfold g. destruct (checkJoinOn _ _ f) as [f'| |] eqn:Hc; [by eapply checkJoinOn_ok|done..]. }
    clearbody g. rewrite <- Hge. clear Hf Hge.
    destruct (match lt, rt with PM _, PM _ => _ | _, _ => _ end) as [[m|]| |] eqn:Hm; cbn [mbind res_bind] in H; try done.
    + apply Ok_inj in H as ->. rewrite inner_paren, sat_paren. split; [|done]. rewrite m_addWheres_app.
      destruct lt as [lmn|]; [|done]. destruct rt as [rmn|]; [|done].
      destruct (on_cols g) as [[x y]| |]; simpl in Hm; try done.
      destruct (isSameShard _ _ _ _) as [[]| |]; simpl in Hm; try done.
      destruct (mergeRoutes r lmn rmn (jExpr j) []) as [m'| |] eqn:Hmr; simpl in Hm; try done. injection Hm as ->.
      apply mergeRoutes_sat in Hmr; [|destruct (jExpr j) as [[]|]; tauto]. simpl. rewrite sat_where.
      rewrite (join_wheres_sat j (PM lmn) (PM rmn)); [done|done|]. rewrite Hmr, Forall_nil. tauto.
    + rewrite H1 in H. injection H as <-. split.
      * rewrite !sat_join. simpl. rewrite Forall_app, Forall_singleton. tauto.
      * repeat split; try done; simpl; [by apply Forall_app; split; [|constructor]|].
        destruct (jExpr j) as [[k on]|]; [|done]. destruct H3 as [Hk H3]. split; [done|].
        rewrite Forall_app, <- H3. apply (and_chain [g] on).
Qed.

Lemma push_equals_sat fs : forall t t', inner t -> Forall on_ok fs -> pushEqualCmprs r t fs = Ok t' ->
  (sat t' <-> sat t /\ Forall (fun f => tt_ (eiExpr f)) fs) /\ inner t'.
Proof.
  unfold pushEqualCmprs. induction fs as [|f fs IH]; intros t t' Hin Hc H; cbn [res_fold] in H; [injection H as <-; rewrite Forall_nil; tauto|].
  apply Forall_cons in Hc as [Hf Hc]. destruct (push_equal r t f) as [t1| |] eqn:Ht; cbn [mbind res_bind] in H; try done.
  destruct (push_equal_sat _ _ _ Hin Hf Ht) as [Hs Hi]. destruct (IH _ _ Hi Hc H) as [Hs' Hi'].
  split; [|done]. rewrite Hs', Hs, Forall_cons. tauto.
Qed.

Lemma t_pushFilters_sat t e t' : e ∈ conds -> inner t -> t_pushFilters r t e = Ok t' -> (sat t' <-> sat t /\ tt_ e) /\ inner t'.
Proof.
  intros He Hin H. unfold t_pushFilters in H.
  destruct (parseWhereOrJoinExprs e (getReferTables t)) as [[js ws]| |] eqn:Hp; cbn [mbind res_bind fst snd] in H; try done.
  destruct (res_fold (j_pushFilter r) t ws) as [t1| |] eqn:Hf; cbn [mbind res_bind] in H; try done.
  destruct (parse_ok _ _ _ _ He Hp) as (Hon & Hkn & Hsem). destruct (j_pushFilters_sat _ _ _ Hin Hkn Hf) as [Hs1 Hi1].
  destruct (push_equals_sat _ _ _ Hi1 Hon H) as [Hs2 Hi2]. split; [|done]. rewrite Hs2, Hs1, Hsem. tauto.
Qed.

Lemma route_fold_where l : forall s s', res_fold (route_table r) s l = Ok s' -> msWhere s' = msWhere s.
Proof.
  induction l as [|[k ti] l IH]; intros s s' H; cbn [res_fold] in H; [by injection H as <-|].
  destruct (route_table r s (k, ti)) as [s1| |] eqn:Hr; cbn [mbind res_bind] in H; try done. rewrite (IH _ _ H).
  unfold route_table in Hr. case_decide; [by injection Hr as <-|].
  destruct (of_router _) as [segs| |]; simpl in Hr; try done. by injection Hr as <-.
Qed.

Lemma calcRoute_where s s' : calcRoute r s = Ok s' -> msWhere s' = msWhere s.
Proof.
  unfold calcRoute. case_match; [|apply route_fold_where]. destruct (map_range (msTables s)) as [|[k ti] l]; [by intros [= <-]|].
  destruct (of_router _) as [[|sg segs]| |]; simpl; try done. case_match; [|done]. by intros [= <-].
Qed.

Lemma sat_set_mnS s m : msWhere s = msWhere (mnS m) -> sat (PM (set_mnS s m)) <-> sat (PM m).
Proof. intros H. unfold sat. simpl. unfold node_conds. simpl. by rewrite H. Qed.

Lemma t_calcRoute_sat t : forall t', inner t -> t_calcRoute r t = Ok t' -> (sat t' <-> sat t) /\ inner t'.
Proof.
  induction t as [m|j lt IHl rt IHr]; intros t' Hin H; cbn [t_calcRoute] in H.
  { destruct (calcRoute r (mnS m)) as [s| |] eqn:Hs; cbn [mbind res_bind] in H; try done. apply Ok_inj in H as ->.
    split; [|done]. by apply sat_set_mnS, calcRoute_where. }
  pose proof Hin as (H1 & Hok & H3 & Hil & Hir).
  destruct (t_calcRoute r lt) as [lt'| |] eqn:Hl; cbn [mbind res_bind] in H; try done.
  destruct (t_calcRoute r rt) as [rt'| |] eqn:Hr; cbn [mbind res_bind] in H; try done.
  destruct (IHl _ Hil eq_refl) as [Hsl Hnl], (IHr _ Hir eq_refl) as [Hsr Hnr].
  assert (forall t', (Ok (PJ j lt' rt') : res perr PTree) = Ok t' -> (sat t' <-> sat (PJ j lt rt)) /\ inner t') as Hkeep.
  { intros t0 Ht0. apply Ok_inj in Ht0 as ->. split; [rewrite !sat_join, Hsl, Hsr; tauto|by repeat split]. }
  destruct lt' as [lmn|]; [|by apply Hkeep]. destruct rt' as [rmn|]; [|by apply Hkeep].
  destruct (_ || _ || _); [|by apply Hkeep].
  destruct (mergeRoutes r _ rmn (jExpr j) []) as [m| |] eqn:Hm; cbn [mbind res_bind] in H; try done. apply Ok_inj in H as ->.
  rewrite inner_paren, sat_paren. split; [|done]. rewrite (join_wheres_sat j lt rt m Hin); [done|].
  apply mergeRoutes_sat in Hm; [|destruct (jExpr j) as [[]|]; tauto]. rewrite Hm, Forall_nil, Hsr.
  rewrite sat_set_mnS by (unfold take_route; by destruct (_ =? 0)). rewrite Hsl. tauto.
Qed.

Lemma plan_from_sat db from where_ t : List.flat_map ref_conds from ++ opt_list where_ ⊆ conds -> forallb inner_ref from = true -> plan_from r db from where_ = Ok t ->
  sat t <-> Forall (fun e => tt_ e) (List.flat_map ref_conds from ++ opt_list where_).
Proof.
  intros Hsub Hi H. unfold plan_from, plan_where in H.
  assert (List.flat_map ref_conds from ⊆ conds /\ opt_list where_ ⊆ conds) as [Hc1 Hc2] by set_solver.
  destruct (scanTableExprs r db from) as [t0| |] eqn:H0; cbn [mbind res_bind] in H; try done.
  destruct (join_all_sat db from ltac:(apply Forall_forall; intros; apply scan_sat) Hi Hc1 _ H0) as [Hs0 Hn0].
  destruct (match where_ with Some e => _ | None => _ end) as [t1| |] eqn:H1; cbn [mbind res_bind] in H; try done.
  assert ((sat t1 <-> sat t0 /\ Forall (fun e => tt_ e) (opt_list where_)) /\ inner t1) as [Hs1 Hn1].
  { destruct where_ as [e|]; simpl.
    - assert (e ∈ conds) as He by set_solver. destruct (t_pushFilters_sat _ _ _ He Hn0 H1) as [Hs Hn]. split; [|done]. by rewrite Hs, Forall_singleton.
    - apply Ok_inj in H1 as ->. rewrite Forall_nil. tauto. }
  destruct (t_calcRoute_sat _ _ Hn1 H) as [Hs _]. by rewrite Hs, Hs1, Hs0, Forall_app.
Qed.
End conditions.

(** C14: Planning a SELECT over inner joins loses and invents no condition.
    For every joined row in which the two columns of each join condition of
    the statement (a conjunct [a = b] of an ON condition or the WHERE clause),
    when they compare equal, hold identical values, all conditions of the
    nodes of the plan tree (the WHERE and FROM clauses of the merge nodes, the
    join conditions, filters and constant conditions of the join nodes, with
    the conditions derived for the other side of a join key) hold of it
    exactly when the ON conditions and the WHERE clause of the statement do.
    For a row whose join columns are equal but not identical the derived
    conditions may say more ([key_filter_invents]). *)
Theorem plan_conditions {V} `{SS : SqlSem V, !SqlSemOk V} `{IR : InMapRange, !InMapRangeOk IR} `{R : MapRange, !MapRangeOk R}
    `{J : JumpHash} `{RI : Rand} `{EP : ExprPrinter} (env : ColName -> V) r db from where_ t :
  env_ok env ->
  (forall a b, cnName a = cnName b -> tnName (cnQualifier a) = tnName (cnQualifier b) -> env a = env b) ->
  (forall a b, equated (List.flat_map ref_conds from ++ opt_list where_) a b -> sem_eq (env a) (env b) = Some true -> env a = env b) ->
  forallb inner_ref from = true -> plan_from r db from where_ = Ok t ->
  Forall (fun e => cond env e = Some true) (tree_conds t) <->
  Forall (fun e => cond env e = Some true) (List.flat_map ref_conds from ++ opt_list where_).
Proof. intros. by eapply (plan_from_sat env r) with (conds := List.flat_map ref_conds from ++ opt_list where_). Qed.

(** ** Examples *)
#[local] Existing Instance mod_jump.

(** A joined row: the columns called id and uid hold 7, the others 1. *)
Definition join_env (c : ColName) : dval :=
  if EqualString (cnName c) "id" || EqualString (cnName c) "uid" then DInt 7 else DInt 1.

Lemma join_env_ok : env_ok join_env.
Proof. intros a b [H _]%ColName_Equal_spec. unfold join_env, EqualString. by rewrite H. Qed.

Definition tcol (t c : string) : Expr := ColNameE (qcol t c).
Definition ref (t : string) : TableRef := TRTable (mkTableName t "") "".

(** [t join u on t.a = u.b where t.id = 7 and t.c = u.c] *)
Definition ex_from : list TableRef := [TRJoin (ref "t") JoinStr (ref "u") (Some (eq_ (tcol "t" "a") (tcol "u" "b")))].
Definition ex_join_where : Expr := AndExpr (eq_ (tcol "t" "id") (int_ "7")) (eq_ (tcol "t" "c") (tcol "u" "c")).

Lemma plan_conditions_witness :
  exists t, plan_from join_router "db" ex_from (Some ex_join_where) = Ok t /\
    length (tree_conds t) = 3%nat /\ Forall (fun e => cond join_env e = Some true) (tree_conds t).
Proof.
  eexists. split; [vm_compute; reflexivity|]. split; [vm_compute; reflexivity|].
  eapply (plan_conditions join_env join_router "db" ex_from (Some ex_join_where));
    [apply join_env_ok| | |vm_compute; reflexivity|vm_compute; reflexivity|repeat constructor].
  - intros a b Ha _. unfold join_env. by rewrite Ha.
  - intros a b _. unfold join_env. repeat case_match; done.
Defined.

(** ** A filter copied across a join key

    In [t join u on t.a = u.b where t.a = '7'] the filter is copied to u as
    [u.b = '7'].  With the number 7 in t.a and the text 07 in u.b the ON
    condition and the WHERE clause are true, the copied condition is not: the
    row is lost. *)
Definition mixed_env (c : ColName) : dval :=
  if EqualString (cnName c) "a" then DInt 7 else if EqualString (cnName c) "b" then DStr "07" else DInt 1.

Theorem key_filter_invents :
  let where_ := eq_ (tcol "t" "a") (str_ "7") in
  exists t, plan_from join_router "db" ex_from (Some where_) = Ok t /\
    Forall (fun e => cond mixed_env e = Some true) (List.flat_map ref_conds ex_from ++ [where_]) /\
    eq_ (tcol "u" "b") (str_ "7") ∈ tree_conds t /\ cond mixed_env (eq_ (tcol "u" "b") (str_ "7")) = Some false.
Proof.
  eexists. split; [vm_compute; reflexivity|]. split; [repeat constructor|]. split; [|vm_compute; reflexivity].
  vm_compute. repeat constructor.
Qed.

(** ** Left joins *)
Definition left_ (l r : TableRef) (on : Expr) : TableRef := TRJoin l LeftJoinStr r (Some on).
Definition is_null (e : Expr) : Expr := Node (IsExpr IsNullStr) [e].

(** A join node that is merged forgets its conditions [... is null] on the
    right side: in [t left join u on t.a = u.b where t.id = 7 and u.uid = 7 and
    u.s is null] both sides lie on one backend, and the query that is sent there
    has no condition on u.s. *)
Theorem right_null_lost :
  exists m, plan_from join_router "db" [left_ (ref "t") (ref "u") (eq_ (tcol "t" "a") (tcol "u" "b"))]
      (Some (AndExpr (AndExpr (eq_ (tcol "t" "id") (int_ "7")) (eq_ (tcol "u" "uid") (int_ "7"))) (is_null (tcol "u" "s"))))
    = Ok (PM m) /\
    node_conds m = [eq_ (tcol "t" "id") (int_ "7"); eq_ (tcol "u" "uid") (int_ "7"); eq_ (tcol "t" "a") (tcol "u" "b")].
Proof. eexists. split; vm_compute; reflexivity. Qed.

(** Only the root of the tree notes that a condition of the WHERE clause is on
    the right side of a left join: in [(t left join u on t.a = u.b) join t as w
    on t.c = w.c where u.s = 1] the condition is sent to u, but the left join
    keeps the rows of t without a partner, for which it is not true. *)
Theorem nested_left_filter :
  exists j jl m1 m2 m3,
    plan_from join_router "db"
      [TRJoin (left_ (ref "t") (ref "u") (eq_ (tcol "t" "a") (tcol "u" "b"))) JoinStr (TRTable (mkTableName "t" "") "w")
         (Some (eq_ (tcol "t" "c") (tcol "w" "c")))]
      (Some (eq_ (tcol "u" "s") (int_ "1")))
    = Ok (PJ j (PJ jl (PM m1) (PM m2)) (PM m3)) /\
    jIsLeft jl = true /\ jHasRight jl = false /\ node_conds m2 = [eq_ (tcol "u" "s") (int_ "1")] /\
    node_conds m1 = [] /\ node_conds m3 = [].
Proof. eexists _, _, _, _, _. repeat (split; [vm_compute; reflexivity|]). vm_compute. reflexivity. Qed.

(** A left join of a global table with a sharded one is merged and sent to
    every shard, each of which returns the rows of the global table that have no
    partner in that shard. *)
Theorem global_left_join_everywhere :
  exists m, plan_from join_router "db" [left_ (ref "g") (ref "t") (eq_ (tcol "g" "a") (tcol "t" "a"))] None = Ok (PM m) /\
    mnFrom m = [FJoin LeftJoinStr (eq_ (tcol "g" "a") (tcol "t" "a")) [FTable "g"] [FTable "t"]] /\
    (1 < msRouteLen (mnS m))%nat.
Proof. eexists. split; [vm_compute; reflexivity|]. split; [vm_compute; reflexivity|]. vm_compute. lia. Qed.

(** An equality of two columns of one table, one of them written with the
    database, is taken as a join condition; in a join node the second of its
    tables is read, which is out of range. *)
Theorem qualified_column_panics :
  plan_from join_router "db" [ref "t"; ref "u"]
    (Some (eq_ (ColNameE (mkColName "a" (mkTableName "t" "db"))) (tcol "t" "b"))) = Panic.
Proof. vm_compute. reflexivity. Qed.
