(* ===== verification/PlanPush.v ===== *)
(** * The select part of a plan (src/planner/builder: join_node.go, merge_node.go, orderby_plan.go, project.go, expr.go)

    The select expressions are pushed down the plan tree: a join node asks its
    children for the columns it needs and notes their positions ([Cols], the
    join keys, the comparisons and the temporary columns), from which the
    executor builds its rows. *)
From S2P Require Import Prelude GoStd Config Xcontext Partition Router Sql PlanExpr PlanDml Join Operators PlanSelect PlanTree.
Open Scope string_scope.
Open Scope list_scope.
Open Scope Z_scope.

(** ** Assignments to the fields of the nodes *)
Definition sel_mod (f : SelPart -> SelPart) (m : MNode) : MNode := mkMNode (mnS m) (mnFrom m) (mnParen m) (f (mnSel m)).
Definition jsel_mod (f : JoinSel -> JoinSel) (j : JNode) : JNode :=
  mkJNode (jStrategy j) (jExpr j) (jTables j) (jParen j) (jOn j) (jOtherFilter j) (jNoTable j) (jOtherLeft j)
    (jRightNull j) (jIsLeft j) (jHasRight j) (f (jSel j)).
Definition set_strategy (s : JoinStrategy) (j : JNode) : JNode :=
  mkJNode s (jExpr j) (jTables j) (jParen j) (jOn j) (jOtherFilter j) (jNoTable j) (jOtherLeft j)
    (jRightNull j) (jIsLeft j) (jHasRight j) (jSel j).

Definition sp_push (e : SelectExpr) (t : selectTuple) (i : nat) (s : SelPart) : SelPart :=
  mkSelPart (spExprs s ++ [e]) (spFields s ++ [t]) (spGroupBy s) (spDistinct s) (spHaving s) (spOrderBy s) (spLimit s)
    (spChildren s) (spOrder s) i.
Definition sp_order (n : Z) (s : SelPart) : SelPart :=
  mkSelPart (spExprs s) (spFields s) (spGroupBy s) (spDistinct s) (spHaving s) (spOrderBy s) (spLimit s) (spChildren s) n (spAliasIndex s).
Definition sp_orderby (o : list Order) (s : SelPart) : SelPart :=
  mkSelPart (spExprs s) (spFields s) (spGroupBy s) (spDistinct s) (spHaving s) o (spLimit s) (spChildren s) (spOrder s) (spAliasIndex s).
Definition sp_having (e : Expr) (s : SelPart) : SelPart :=
  mkSelPart (spExprs s) (spFields s) (spGroupBy s) (spDistinct s) (spHaving s ++ [e]) (spOrderBy s) (spLimit s) (spChildren s)
    (spOrder s) (spAliasIndex s).
Definition sp_child (c : ChildPlan) (s : SelPart) : SelPart :=
  mkSelPart (spExprs s) (spFields s) (spGroupBy s) (spDistinct s) (spHaving s) (spOrderBy s) (spLimit s) (spChildren s ++ [c])
    (spOrder s) (spAliasIndex s).
Definition sp_limit (l : option Limit) (s : SelPart) : SelPart :=
  mkSelPart (spExprs s) (spFields s) (spGroupBy s) (spDistinct s) (spHaving s) (spOrderBy s) l (spChildren s) (spOrder s) (spAliasIndex s).

Definition js_col (c : Z) (t : selectTuple) (s : JoinSel) : JoinSel :=
  mkJoinSel (jsCols s ++ [c]) (jsFields s ++ [t]) (jsLeftKeys s) (jsRightKeys s) (jsCmp s) (jsLeftTmp s) (jsRightTmp s)
    (jsOrder s) (jsVars s) (jsChildren s).
Definition js_keys (l r : JoinKey) (s : JoinSel) : JoinSel :=
  mkJoinSel (jsCols s) (jsFields s) (jsLeftKeys s ++ [l]) (jsRightKeys s ++ [r]) (jsCmp s) (jsLeftTmp s) (jsRightTmp s)
    (jsOrder s) (jsVars s) (jsChildren s).
Definition js_cmp (c : Comparison) (s : JoinSel) : JoinSel :=
  mkJoinSel (jsCols s) (jsFields s) (jsLeftKeys s) (jsRightKeys s) (jsCmp s ++ [c]) (jsLeftTmp s) (jsRightTmp s)
    (jsOrder s) (jsVars s) (jsChildren s).
Definition js_ltmp (i : Z) (s : JoinSel) : JoinSel :=
  mkJoinSel (jsCols s) (jsFields s) (jsLeftKeys s) (jsRightKeys s) (jsCmp s) (jsLeftTmp s ++ [i]) (jsRightTmp s)
    (jsOrder s) (jsVars s) (jsChildren s).
Definition js_rtmp (i : Z) (s : JoinSel) : JoinSel :=
  mkJoinSel (jsCols s) (jsFields s) (jsLeftKeys s) (jsRightKeys s) (jsCmp s) (jsLeftTmp s) (jsRightTmp s ++ [i])
    (jsOrder s) (jsVars s) (jsChildren s).
Definition js_order (n : Z) (s : JoinSel) : JoinSel :=
  mkJoinSel (jsCols s) (jsFields s) (jsLeftKeys s) (jsRightKeys s) (jsCmp s) (jsLeftTmp s) (jsRightTmp s) n (jsVars s) (jsChildren s).
Definition js_var (v : string) (i : Z) (s : JoinSel) : JoinSel :=
  mkJoinSel (jsCols s) (jsFields s) (jsLeftKeys s) (jsRightKeys s) (jsCmp s) (jsLeftTmp s) (jsRightTmp s)
    (jsOrder s) (jsVars s ++ [(v, i)]) (jsChildren s).
Definition js_child (c : ChildPlan) (s : JoinSel) : JoinSel :=
  mkJoinSel (jsCols s) (jsFields s) (jsLeftKeys s) (jsRightKeys s) (jsCmp s) (jsLeftTmp s) (jsRightTmp s)
    (jsOrder s) (jsVars s) (jsChildren s ++ [c]).

Definition set_As (as_ : string) (e : SelectExpr) : SelectExpr := match e with AliasedExpr x _ => AliasedExpr x as_ | _ => e end.
Definition set_alias (as_ : string) (t : selectTuple) : selectTuple :=
  mkSelectTuple (stExpr t) (stInfo t) (stField t) as_ (stAggrFuc t) (stAggrField t) (stDistinct t) (stIsCol t).

(** The fields of a node ([getFields] once it has some). *)
Definition node_fields (t : PTree) : list selectTuple :=
  match t with PM m => spFields (mnSel m) | PJ j _ _ => jsFields (jSel j) end.
Definition len {A} (l : list A) : Z := Z.of_nat (length l).

(** ** Pushing a field *)

(** [MergeNode.pushSelectExpr]: the node, the index of the field and its
    expression, whose alias may have been set. *)
Definition m_pushSelectExpr (m : MNode) (field : selectTuple) : MNode * Z * SelectExpr :=
  let sp := mnSel m in
  let tmp := negb (stIsCol field) && bool_decide (stAlias field = "tmpc") in
  let alias := if tmp then "tmpc_" +:+ Itoa (Z.of_nat (spAliasIndex sp)) else stAlias field in
  let e := if tmp then set_As alias (stExpr field) else stExpr field in
  let idx := if tmp then S (spAliasIndex sp) else spAliasIndex sp in
  (sel_mod (sp_push e (set_stExpr e (set_alias alias field)) idx) m, len (spFields sp), e).

(** [setNestLoop] *)
Fixpoint setNestLoop (t : PTree) : PTree :=
  match t with
  | PM _ => t
  | PJ j l r => PJ (set_strategy NestLoop j) (setNestLoop l) (setNestLoop r)
  end.

Definition is_func (e : SelectExpr) : bool := match e with AliasedExpr (FuncExpr _ _ _) _ => true | _ => false end.

(** [pushSelectExpr]; a field with tables of both sides goes to the right side,
    and the join becomes a nested loop, with the joins below it. *)
Fixpoint pushSelectExpr (t : PTree) (field : selectTuple) : res perr (PTree * Z * SelectExpr) :=
  match t with
  | PM m => let '(m, i, e) := m_pushSelectExpr m field in Ok (PM m, i, e)
  | PJ j lt rt =>
      let tables := eiReferTables (stInfo field) in
      let n := len (jsFields (jSel j)) in
      if checkTbInNode tables (getReferTables lt) then
        x ← pushSelectExpr lt field;
        let '(lt, i, e) := x in
        Ok (PJ (jsel_mod (js_col (- i - 1) (set_stExpr e field)) j) lt rt, n, e)
      else if jIsLeft j && is_func (stExpr field) then Err (ELeftJoinFunc (stField field))
      else
        let cross := negb (checkTbInNode tables (getReferTables rt)) in
        let field := if cross && bool_decide (stAlias field = "")
                     then set_stExpr (set_As (stField field) (stExpr field)) (set_alias (stField field) field)
                     else field in
        x ← pushSelectExpr rt field;
        let '(rt, i, e) := x in
        let j := jsel_mod (js_col (i + 1) (set_stExpr e field)) j in
        Ok ((if cross then setNestLoop (PJ j lt rt) else PJ j lt rt), n, e)
  end.

(** The index of a column among the fields of a node. *)
Fixpoint find_field (table field : string) (fields : list selectTuple) (i : Z) : res perr (option Z) :=
  match fields with
  | [] => Ok None
  | f :: fs =>
      if stIsCol f then
        tb ← first_table f;
        if bool_decide (table = tb) && EqualFold field (stField f) then Ok (Some i) else find_field table field fs (i + 1)
      else find_field table field fs (i + 1)
  end.

(** [pushOtherFilter] *)
Definition pushOtherFilter (node : PTree) (tuple : selectTuple) : res perr (PTree * Z) :=
  table ← first_table tuple;
  found ← (if stIsCol tuple then find_field table (stField tuple) (node_fields node) 0 else Ok None);
  match found with
  | Some i => Ok (node, i)
  | None =>
      x ← pushSelectExpr node (if stIsCol tuple then tuple else set_alias "tmpc" tuple);
      let '(node, i, _) := x in Ok (node, i)
  end.

(** [buildOrderBy]: the error of [pushSelectExpr] is dropped, its index is then
    -1. *)
Definition buildOrderBy (node : PTree) (tuple : selectTuple) : res perr (PTree * JoinKey) :=
  table ← first_table tuple;
  found ← (if stIsCol tuple then find_field table (stField tuple) (node_fields node) 0 else Ok None);
  x ← (match found with
       | Some i => Ok (node, i, stExpr tuple)
       | None =>
           match pushSelectExpr node (if stIsCol tuple then tuple else set_alias "tmpc" tuple) with
           | Ok x => Ok x
           | Err _ => Ok (node, -1, stExpr tuple)
           | Panic => Panic
           end
       end);
  let '(node, i, e) := x in
  col ← (if stIsCol tuple then match eiCols (stInfo tuple) with c :: _ => Ok c | [] => Panic end
         else Ok (mkColName (match e with AliasedExpr _ as_ => as_ | _ => "" end) (mkTableName "" "")));
  let node := match node with
              | PM m => PM (sel_mod (fun s => sp_orderby (spOrderBy s ++ [mkOrder (ColNameE col) "asc"]) s) m)
              | _ => node
              end in
  Ok (node, mkJoinKey (stField tuple) table i).

(** ** The order of the leaves *)

(** [Order], [reOrder] *)
Definition node_order (t : PTree) : Z := match t with PM m => spOrder (mnSel m) | PJ j _ _ => jsOrder (jSel j) end.
Fixpoint reOrder (order : Z) (t : PTree) : PTree :=
  match t with
  | PM m => PM (sel_mod (sp_order (order + 1)) m)
  | PJ j l r =>
      let l := reOrder order l in
      let r := reOrder (node_order l) r in
      PJ (jsel_mod (js_order (node_order r + 1)) j) l r
  end.

(** [tbInfo.parent.Order()] and [tbInfo.parent.addWhere(e)] for a table. *)
Fixpoint leaf_order (k : string) (t : PTree) : Z :=
  match t with
  | PM m => spOrder (mnSel m)
  | PJ _ l r => if bool_decide (is_Some (getReferTables l !! k)) then leaf_order k l else leaf_order k r
  end.
Fixpoint leaf_mod (k : string) (f : MNode -> MNode) (t : PTree) : PTree :=
  match t with
  | PM m => PM (f m)
  | PJ j l r => if bool_decide (is_Some (getReferTables l !! k)) then PJ j (leaf_mod k f l) r else PJ j l (leaf_mod k f r)
  end.

(** The table of the list whose leaf comes last. *)
Fixpoint last_leaf (t : PTree) (best : string) (tables : list string) : string :=
  match tables with
  | [] => best
  | tb :: tbs => last_leaf t (if leaf_order best t <? leaf_order tb t then tb else best) tbs
  end.

(** Whether [findParent(tables, t)] is a join node; nil for no table. *)
Fixpoint parent_join (tables : list string) (t : PTree) : bool :=
  match t with
  | PM _ => false
  | PJ _ l r =>
      if checkTbInNode tables (getReferTables l) then parent_join tables l
      else if checkTbInNode tables (getReferTables r) then parent_join tables r
      else true
  end.
Definition parent_is_join (tables : list string) (t : PTree) : res perr bool :=
  match tables with
  | [] => Ok false
  | _ => if checkTbInNode tables (getReferTables t) then Ok (parent_join tables t) else Panic
  end.

(** ** Conditions that cross the shards *)
Section push.
Context `{IR : InMapRange, R : MapRange, J : JumpHash, RI : Rand, EP : ExprPrinter}.

(** [judgeStrategy] *)
Fixpoint judgeStrategy (filters : list exprInfo) (t : PTree) : res perr PTree :=
  match t with
  | PM _ => Panic
  | PJ j _ _ =>
      match filters with
      | [] => Ok t
      | f :: fs =>
          match jStrategy j with
          | NestLoop => Ok t
          | _ =>
              match eiExpr f with
              | ComparisonExpr _ l r _ =>
                  jl ← parent_is_join (getTbsInExpr l) t;
                  if (jl : bool) then Ok (setNestLoop t)
                  else jr ← parent_is_join (getTbsInExpr r) t; judgeStrategy fs (if (jr : bool) then setNestLoop t else t)
              | _ => judgeStrategy fs (setNestLoop t)
              end
          end
      end
  end.

(** The operators the engine knows. *)
Definition cmp_op (op : string) : CmpOp :=
  if decide (op = "=") then EqualOp else if decide (op = "<") then LessThanOp else if decide (op = ">") then GreaterThanOp
  else if decide (op = "<=") then LessEqualOp else if decide (op = ">=") then GreaterEqualOp
  else if decide (op = "!=") then NotEqualOp else if decide (op = "<=>") then NullSafeEqualOp else OtherOp.

(** One filter of [pushOtherFilters]. *)
Definition push_other (isOtherJoin : bool) (t : PTree) (filter : exprInfo) : res perr PTree :=
  match t with
  | PM _ => Panic
  | PJ j lt rt =>
      match jStrategy j with
      | NestLoop =>
          match eiReferTables filter with
          | [] => Panic
          | tb :: tbs =>
              if checkTbInNode (tb :: tbs) (jTables j) then Ok (leaf_mod (last_leaf t tb tbs) (m_addWhere (eiExpr filter)) t)
              else Panic
          end
      | SortMerge =>
          match eiExpr filter with
          | ComparisonExpr op l r _ =>
              let left := parseExpr l in
              let right := parseExpr r in
              let isLeft := checkTbInNode (eiReferTables (stInfo left)) (getReferTables lt) in
              let '(a, b) := (if isLeft then (left, right) else (right, left)) : selectTuple * selectTuple in
              if bool_decide (op = EqualStr) && (isOtherJoin || negb (jIsLeft j))
                 && Nat.eqb (length (eiReferTables (stInfo left))) 1 && Nat.eqb (length (eiReferTables (stInfo right))) 1 then
                lk ← buildOrderBy lt a;
                rk ← buildOrderBy rt b;
                Ok (PJ (jsel_mod (js_keys (snd lk) (snd rk)) j) (fst lk) (fst rk))
              else
                x ← pushOtherFilter lt a;
                y ← pushOtherFilter rt b;
                Ok (PJ (jsel_mod (js_cmp (mkComparison (snd x) (snd y) (cmp_op op) (negb isLeft))) j) (fst x) (fst y))
          | _ => Panic
          end
      | Cartesian => Ok t
      end
  end.

(** [pushOtherFilters] *)
Definition pushOtherFilters (isOtherJoin : bool) (filters : list exprInfo) (t : PTree) : res perr PTree :=
  res_fold (push_other isOtherJoin) t filters.

(** [addNoTableFilter] *)
Definition addNoTableFilter (es : list Expr) (t : PTree) : PTree :=
  match t with
  | PM m => PM (m_addWheres es m)
  | PJ j l r => PJ (add_noTable es j) l r
  end.

(** A field of [otherLeftJoin.left], one of [rightNull]. *)
Definition push_left (t : PTree) (field : selectTuple) : res perr PTree :=
  match t with
  | PM _ => Panic
  | PJ j lt rt => x ← pushSelectExpr lt field; let '(lt, i, _) := x in Ok (PJ (jsel_mod (js_ltmp i) j) lt rt)
  end.
Definition push_null (t : PTree) (tuple : selectTuple) : res perr PTree :=
  match t with
  | PM _ => Panic
  | PJ j lt rt => x ← pushOtherFilter rt tuple; Ok (PJ (jsel_mod (js_rtmp (snd x)) j) lt (fst x))
  end.
Definition right_mod (f : PTree -> PTree) (t : PTree) : PTree := match t with PM _ => t | PJ j l r => PJ j l (f r) end.

(** [pushNullExprs] *)
Definition pushNullExprs (t : PTree) : res perr PTree :=
  match t with PM _ => Panic | PJ j _ _ => res_fold push_null t (jRightNull j) end.

(** [pushOthers] *)
Definition pushOthers (t : PTree) : res perr PTree :=
  match t with
  | PM _ => Panic
  | PJ j _ _ =>
      t ← (match jOtherLeft j with
           | None => Ok t
           | Some o =>
               t ← res_fold push_left (right_mod (addNoTableFilter (ojNoTables o)) t) (ojLeft o);
               let t := foldl (fun t f => right_mod (addFilter (eiReferTables f) f) t) t (ojRight o) in
               match ojOthers o with
               | [] => Ok t
               | others => t ← judgeStrategy others t; pushOtherFilters true others t
               end
           end);
      t ← judgeStrategy (jOtherFilter j) t;
      pushOtherFilters false (jOtherFilter j) t
  end.

(** [handleOthers]; the joins below follow, on the nodes the pushes left.  The
    measure is the height of the tree, which pushing does not change. *)
Fixpoint height (t : PTree) : nat := match t with PM _ => 0 | PJ _ l r => S (Nat.max (height l) (height r)) end.
Fixpoint handle_others (fuel : nat) (t : PTree) : res perr PTree :=
  match t, fuel with
  | PM _, _ => Ok t
  | PJ _ _ _, O => Panic
  | PJ _ _ _, S fuel =>
      t ← pushNullExprs t;
      t ← pushOthers t;
      match t with
      | PM _ => Ok t
      | PJ j l r => l ← handle_others fuel l; r ← handle_others fuel r; Ok (PJ j l r)
      end
  end.
Definition handleOthers (t : PTree) : res perr PTree := handle_others (height t) t.

(** One condition of [handleJoinOn]. *)
Definition push_on (t : PTree) (join : exprInfo) : res perr PTree :=
  match t with
  | PM _ => Panic
  | PJ j lt rt =>
      ab ← on_cols join;
      let (a, b) := ab : ColName * ColName in
      match jStrategy j with
      | NestLoop =>
          let l := tnName (cnQualifier a) in
          let r := tnName (cnQualifier b) in
          if checkTbInNode [l; r] (jTables j) then
            match leaf_mod (last_leaf t l [r]) (m_addWhere (eiExpr join)) t with
            | PJ j lt rt => Ok (PJ (jsel_mod (js_keys (mkJoinKey (cnName a) l 0) (mkJoinKey (cnName b) r 0)) j) lt rt)
            | t => Ok t
            end
          else Panic
      | SortMerge =>
          lk ← buildOrderBy lt (parseExpr (ColNameE a));
          rk ← buildOrderBy rt (parseExpr (ColNameE b));
          Ok (PJ (jsel_mod (js_keys (snd lk) (snd rk)) j) (fst lk) (fst rk))
      | Cartesian => Ok (PJ (jsel_mod (js_keys (mkJoinKey "" "" 0) (mkJoinKey "" "" 0)) j) lt rt)
      end
  end.

(** [handleJoinOn] *)
Fixpoint handleJoinOn (t : PTree) : res perr PTree :=
  match t with
  | PM _ => Ok t
  | PJ j lt rt =>
      lt ← handleJoinOn lt;
      rt ← handleJoinOn rt;
      res_fold push_on (PJ j lt rt) (jOn j)
  end.

(** ** [pushSelectExprs] of a join node *)
Definition push_field (t : PTree) (field : selectTuple) : res perr PTree :=
  x ← pushSelectExpr t field; Ok (fst (fst x)).

Definition j_pushSelectExprs (t : PTree) (fields groups : list selectTuple) (exprs : list SelectExpr) (aggTyp : aggrType)
    : res perr PTree :=
  match reOrder 0 t with
  | PM _ => Panic
  | PJ j l r =>
      x ← (match groups, aggTyp with
           | [], nullAgg => Ok (PJ j l r, fields)
           | _, _ =>
               p ← AggregatePlan_Build exprs fields groups false;
               let '(plan, _, tuples) := p in
               Ok (PJ (jsel_mod (js_child (ChildAggregate plan)) j) l r, tuples)
           end);
      let (t, fields) := x : PTree * list selectTuple in
      t ← res_fold push_field t fields;
      t ← handleOthers t;
      handleJoinOn t
  end.
End push.

(** The join node of the executor. *)
Definition join_node (j : JNode) : JoinNode :=
  mkJoinNode (jStrategy j) (jsCols (jSel j)) (jkIndex <$> jsLeftKeys (jSel j)) (jkIndex <$> jsRightKeys (jSel j))
    (jsCmp (jSel j)) (jIsLeft j) (jHasRight j) (jsLeftTmp (jSel j)) (jsRightTmp (jSel j)) (jsVars (jSel j)).
