(* ===== verification/PlanPushProps.v ===== *)
(** * What the pushed select expressions guarantee

    The positions a join node notes are positions of its children's fields, and
    the columns of its result are the fields it was asked for, so that the
    executor's joins are run on nodes they are correct for. *)
From S2P Require Import Prelude GoStd Config Xcontext Partition Compute Router Frm RouterProps Sql PlanExpr PlanExprProps PlanDml Join JoinProps Operators PlanSelect PlanSelectProps PlanTree PlanTreeProps PlanPush.
Open Scope string_scope.
Open Scope list_scope.
Open Scope Z_scope.

(** The expression of a field, without its alias. *)
Definition sel_expr (e : SelectExpr) : option Expr := match e with AliasedExpr x _ => Some x | _ => None end.
Definition field_expr (f : selectTuple) : option Expr := sel_expr (stExpr f).

(** The node the executor runs: only the sort-merge join reads the keys. *)
Definition exec_node (j : JNode) : JoinNode :=
  match jStrategy j with
  | SortMerge => join_node j
  | s => mkJoinNode s (jsCols (jSel j)) [] [] (jsCmp (jSel j)) (jIsLeft j) (jHasRight j)
           (jsLeftTmp (jSel j)) (jsRightTmp (jSel j)) (jsVars (jSel j))
  end.

(** A column of the result is the field [f] of a child. *)
Definition col_means (l r : list selectTuple) (c : Z) (f : selectTuple) : Prop :=
  exists g, field_expr g = field_expr f /\
    ((c < 0 /\ l !! Z.to_nat (- c - 1) = Some g) \/ (0 < c /\ r !! Z.to_nat (c - 1) = Some g)).

Fixpoint sel_ok (t : PTree) : Prop :=
  match t with
  | PM m => spExprs (mnSel m) = stExpr <$> spFields (mnSel m)
  | PJ j l r =>
      node_ok (len (node_fields l)) (len (node_fields r)) (exec_node j) /\
      Forall2 (col_means (node_fields l) (node_fields r)) (jsCols (jSel j)) (jsFields (jSel j)) /\
      sel_ok l /\ sel_ok r
  end.

(** The expression a column of the result is computed from: the executor follows
    the columns of the joins to the query of a leaf. *)
Fixpoint col_expr (t : PTree) (k : nat) : option Expr :=
  match t with
  | PM m => spExprs (mnSel m) !! k ≫= sel_expr
  | PJ j l r => c ← jsCols (jSel j) !! k; if c <? 0 then col_expr l (Z.to_nat (- c - 1)) else col_expr r (Z.to_nat (c - 1))
  end.

Fixpoint no_left (t : PTree) : Prop :=
  match t with PM _ => True | PJ j l r => jIsLeft j = false /\ no_left l /\ no_left r end.

Lemma node_ok_mono wl wr wl' wr' node :
  wl <= wl' -> wr <= wr' -> node_ok wl wr node -> node_ok wl' wr' node.
Proof.
  intros Hl Hr []. assert (forall w w' i, w <= w' -> inb w i -> inb w' i) as Hm by (unfold inb; lia).
  constructor; try done; eapply Forall_impl; eauto; naive_solver.
Qed.

Lemma col_expr_field t : forall k f, sel_ok t -> node_fields t !! k = Some f -> col_expr t k = field_expr f.
Proof.
  induction t as [m|j l IHl r IHr]; intros k f Hok Hk; cbn [col_expr node_fields] in *.
  - simpl in Hok. by rewrite Hok, list_lookup_fmap, Hk.
  - destruct Hok as (_ & Hc & Hl & Hr). destruct (Forall2_lookup_r _ _ _ _ _ Hc Hk) as (c & -> & g & Hg & Hside). simpl.
    rewrite <- Hg. destruct Hside as [[Hneg Hx]|[Hpos Hx]].
    + rewrite (proj2 (Z.ltb_lt c 0)) by done. by apply IHl.
    + rewrite (proj2 (Z.ltb_ge c 0)) by lia. by apply IHr.
Qed.

(** The fields of [t] are among those of [t'], in front. *)
Definition fields_grow (t t' : PTree) : Prop := exists fs, node_fields t' = node_fields t ++ fs.

Lemma col_means_mono l r l' r' fl fr c f :
  l' = l ++ fl -> r' = r ++ fr -> col_means l r c f -> col_means l' r' c f.
Proof.
  intros -> -> (g & Hg & [[Hc H]|[Hc H]]); exists g; (split; [done|]); [left|right]; (split; [done|]);
    by apply lookup_app_l_Some.
Qed.

Lemma sel_ok_children j l r l' r' :
  fields_grow l l' -> fields_grow r r' -> sel_ok l' -> sel_ok r' -> sel_ok (PJ j l r) -> sel_ok (PJ j l' r').
Proof.
  intros [fl Hl] [fr Hr] Hl' Hr' (Hn & Hc & _ & _). split_and!; try done.
  - eapply node_ok_mono; [..|exact Hn]; rewrite ?Hl, ?Hr; unfold len; rewrite length_app; lia.
  - eapply Forall2_impl; [exact Hc|]. intros c f. by eapply col_means_mono.
Qed.

Lemma grow_refl t : fields_grow t t.
Proof. exists []. by rewrite app_nil_r. Qed.
Lemma grow_trans t1 t2 t3 : fields_grow t1 t2 -> fields_grow t2 t3 -> fields_grow t1 t3.
Proof. intros [a Ha] [b Hb]. exists (a ++ b). by rewrite Hb, Ha, app_assoc. Qed.

(** ** Steps that only change the strategy or the conditions *)
Lemma nest_fields t : node_fields (setNestLoop t) = node_fields t.
Proof. by destruct t. Qed.
Lemma nest_tables t : getReferTables (setNestLoop t) = getReferTables t.
Proof. by destruct t. Qed.
Lemma nest_height t : height (setNestLoop t) = height t.
Proof. induction t; simpl; congruence. Qed.
Lemma nest_no_left t : no_left t -> no_left (setNestLoop t).
Proof. induction t; simpl; [done|]. intros (? & ? & ?). auto. Qed.

Lemma exec_drop_keys wl wr j : node_ok wl wr (exec_node j) -> node_ok wl wr (exec_node (set_strategy NestLoop j)).
Proof. unfold exec_node. destruct (jStrategy j); simpl; intros []; by constructor. Qed.

Lemma nest_sel_ok t : sel_ok t -> sel_ok (setNestLoop t).
Proof.
  induction t as [m|j l IHl r IHr]; [done|]. intros (Hn & Hc & Hl & Hr). cbn [setNestLoop sel_ok].
  rewrite !nest_fields. split_and!; auto. by apply exec_drop_keys.
Qed.

(** ** Pushing fields *)

(** The join variables noted in a tree. *)
Fixpoint vars_of (t : PTree) : list (list (string * Z)) :=
  match t with PM _ => [] | PJ j l r => jsVars (jSel j) :: vars_of l ++ vars_of r end.
Lemma nest_vars t : vars_of (setNestLoop t) = vars_of t.
Proof. induction t; simpl; congruence. Qed.

Record steps (t t' : PTree) : Prop := {
  st_grow : fields_grow t t';
  st_left : no_left t -> no_left t';
  st_height : height t' = height t;
  st_vars : vars_of t' = vars_of t;
  st_ok : sel_ok t -> sel_ok t'
}.
Lemma steps_refl t : steps t t.
Proof. constructor; auto using grow_refl. Qed.
Lemma steps_trans t1 t2 t3 : steps t1 t2 -> steps t2 t3 -> steps t1 t3.
Proof. intros [] []. constructor; eauto using grow_trans; congruence. Qed.
Lemma steps_nest t : steps t (setNestLoop t).
Proof.
  constructor; auto using nest_no_left, nest_height, nest_sel_ok, nest_vars. exists []. by rewrite nest_fields, app_nil_r.
Qed.

(** What a join node keeps when its children take steps. *)
Lemma steps_join j j' l r l' r' :
  steps l l' -> steps r r' -> jIsLeft j' = jIsLeft j -> jsVars (jSel j') = jsVars (jSel j) ->
  (exists fs, jsFields (jSel j') = jsFields (jSel j) ++ fs) ->
  (sel_ok (PJ j l' r') -> sel_ok (PJ j' l' r')) -> steps (PJ j l r) (PJ j' l' r').
Proof.
  intros [Hgl Hll Hhl Hvl Hol] [Hgr Hlr Hhr Hvr Hor] Hj Hv Hfs Hok. constructor.
  - done.
  - simpl. rewrite Hj. intros (? & ? & ?). auto.
  - simpl. by rewrite Hhl, Hhr.
  - simpl. by rewrite Hv, Hvl, Hvr.
  - intros H. apply Hok. pose proof H as (_ & _ & H1 & H2). eapply sel_ok_children; eauto.
Qed.

Lemma js_col_ok j l r c f : col_means (node_fields l) (node_fields r) c f ->
  sel_ok (PJ j l r) -> sel_ok (PJ (jsel_mod (js_col c f) j) l r).
Proof.
  intros Hc (Hn & Hcs & Hl & Hr). split_and!; try done.
  - assert ((c < 0 /\ inb (len (node_fields l)) (- c - 1)) \/ (0 < c /\ inb (len (node_fields r)) (c - 1))) as Hin.
    { destruct Hc as (g & _ & [[Hc Hg]|[Hc Hg]]); [left|right]; (split; [done|]); apply lookup_lt_Some in Hg; unfold inb, len; lia. }
    destruct Hn as [H1 H2 H3 H4 H5 H6 H7]. unfold exec_node in *. simpl in *.
    destruct (jStrategy j); constructor; simpl in *; try done; apply Forall_app; auto.
  - simpl. by apply Forall2_app; [|constructor].
Qed.

Lemma pushSelectExpr_spec t : forall f t' i e, pushSelectExpr t f = Ok (t', i, e) ->
  steps t t' /\ i = len (node_fields t) /\ sel_expr e = field_expr f /\
  exists g, node_fields t' = node_fields t ++ [g] /\ field_expr g = field_expr f.
Proof.
  assert (forall x s, sel_expr (set_As s x) = sel_expr x) as Has by (by intros []).
  induction t as [m|j lt IHl rt IHr]; intros f t' i e H; cbn [pushSelectExpr] in H.
  - unfold m_pushSelectExpr in H. injection H as <- <- <-. split_and!; try done.
    + constructor; try done; simpl; [by eexists|]. intros Hx. by rewrite Hx, fmap_app.
    + by destruct (_ && _).
    + eexists. split; [done|]. unfold field_expr. simpl. by destruct (_ && _).
  - destruct (checkTbInNode _ (getReferTables lt)).
    + destruct (pushSelectExpr lt f) as [[[lt' k] e']| |] eqn:Hp; cbn [mbind res_bind] in H; try done.
      injection H as <- <- <-. destruct (IHl _ _ _ _ Hp) as (Hs & -> & He & g & Hg & Hge).
      split_and!; try done; [|by eexists].
      apply steps_join; [done|apply steps_refl|done|done|by eexists|]. apply js_col_ok. exists g. split; [by rewrite Hge|].
      left. unfold len. split; [lia|]. rewrite Hg. apply list_lookup_middle. lia.
    + destruct (jIsLeft j && is_func _); [done|].
      set (cross := negb _) in H. set (f' := if cross && _ then _ else f) in H.
      assert (field_expr f' = field_expr f) as Hf' by (unfold f', field_expr; destruct (_ && _); [simpl; by rewrite Has|done]).
      destruct (pushSelectExpr rt f') as [[[rt' k] e']| |] eqn:Hp; cbn [mbind res_bind] in H; try done.
      destruct (IHr _ _ _ _ Hp) as (Hs & -> & He & g & Hg & Hge). rewrite Hf' in *.
      injection H as <- <- <-. set (t1 := PJ _ lt rt').
      assert (steps (PJ j lt rt) t1) as H1.
      { apply steps_join; [apply steps_refl|done|done|done|by eexists|]. apply js_col_ok. exists g.
        split; [unfold field_expr in *; simpl; congruence|].
        right. unfold len. split; [lia|]. rewrite Hg. apply list_lookup_middle. lia. }
      split_and!; try done.
      * destruct cross; [exact (steps_trans _ _ _ H1 (steps_nest t1))|exact H1].
      * eexists. split; [destruct cross; reflexivity|done].
Qed.

(** Without left joins a field can always be pushed. *)
Lemma pushSelectExpr_total t : forall f, no_left t -> exists t' i e, pushSelectExpr t f = Ok (t', i, e).
Proof.
  induction t as [m|j lt IHl rt IHr]; intros f Hn; cbn [pushSelectExpr].
  - eexists _, _, _. reflexivity.
  - destruct Hn as (Hj & Hl & Hr). rewrite Hj. destruct (checkTbInNode _ _).
    + destruct (IHl f Hl) as (? & ? & ? & ->). eexists _, _, _. reflexivity.
    + cbn [andb]. destruct (IHr (if negb (checkTbInNode (eiReferTables (stInfo f)) (getReferTables rt)) && bool_decide (stAlias f = "")
        then set_stExpr (set_As (stField f) (stExpr f)) (set_alias (stField f) f) else f) Hr) as (? & ? & ? & ->).
      eexists _, _, _. reflexivity.
Qed.

Lemma find_field_range table field fs : forall i0 i, find_field table field fs i0 = Ok (Some i) -> i0 <= i < i0 + len fs.
Proof.
  unfold len. induction fs as [|f fs IH]; intros i0 i H; cbn [find_field] in H; [done|].
  assert (forall i, find_field table field fs (i0 + 1) = Ok (Some i) -> i0 <= i < i0 + Z.of_nat (length (f :: fs))) as Hn.
  { intros k Hk%IH. cbn [length]. lia. }
  destruct (stIsCol f); [|by apply Hn]. destruct (first_table f); simpl in H; try done.
  destruct (_ && _); [|by apply Hn]. injection H as <-. cbn [length]. lia.
Qed.

Lemma pushOtherFilter_spec t f t' i : pushOtherFilter t f = Ok (t', i) -> steps t t' /\ inb (len (node_fields t')) i.
Proof.
  unfold pushOtherFilter. intros H. destruct (first_table f) as [table| |]; cbn [mbind res_bind] in H; try done.
  destruct (if stIsCol f then find_field _ _ _ _ else Ok None) as [[k|]| |] eqn:Hf; cbn [mbind res_bind] in H; try done.
  - injection H as <- <-. split; [apply steps_refl|]. destruct (stIsCol f); [|done]. apply find_field_range in Hf. unfold inb. lia.
  - destruct (pushSelectExpr _ _) as [[[t1 k] e]| |] eqn:Hp; cbn [mbind res_bind] in H; try done. injection H as <- <-.
    apply pushSelectExpr_spec in Hp as (Hs & -> & _ & g & Hg & _). split; [done|]. rewrite Hg. unfold inb, len. rewrite length_app. simpl. lia.
Qed.

Lemma buildOrderBy_spec t f t' k : buildOrderBy t f = Ok (t', k) ->
  steps t t' /\ (no_left t -> inb (len (node_fields t')) (jkIndex k)).
Proof.
  unfold buildOrderBy. intros H. destruct (first_table f) as [table| |]; cbn [mbind res_bind] in H; try done.
  destruct (if stIsCol f then find_field _ _ _ _ else Ok None) as [o| |] eqn:Hf; cbn [mbind res_bind] in H; try done.
  destruct (match o with Some _ => _ | None => _ end) as [[[t1 i] e]| |] eqn:Hx; cbn [mbind res_bind] in H; try done.
  destruct (if stIsCol f then _ else Ok (mkColName _ _)) as [c| |]; cbn [mbind res_bind] in H; try done. injection H as <- <-.
  assert (steps t t1 /\ (no_left t -> inb (len (node_fields t1)) i)) as [H1 H2].
  { destruct o as [k0|].
    - injection Hx as <- <- <-. split; [apply steps_refl|]. intros _. destruct (stIsCol f); [|done].
      apply find_field_range in Hf. unfold inb. lia.
    - destruct (pushSelectExpr t _) as [[[t2 k2] e2]| |] eqn:Hp; [| |done].
      + injection Hx as <- <- <-. apply pushSelectExpr_spec in Hp as (Hs & -> & _ & g & Hg & _). split; [done|].
        intros _. rewrite Hg. unfold inb, len. rewrite length_app. simpl. lia.
      + injection Hx as <- <- <-. split; [apply steps_refl|]. intros Hn.
        destruct (pushSelectExpr_total t (if stIsCol f then f else set_alias "tmpc" f) Hn) as (? & ? & ? & Hp'). by rewrite Hp in Hp'. }
  assert (forall m g, steps (PM m) (PM (sel_mod (fun s => sp_orderby (g s) s) m))) as Hord.
  { intros m g. constructor; try done. exists []. by rewrite app_nil_r. }
  destruct t1 as [m|]; [|done]. split; [|exact H2]. exact (steps_trans _ _ _ H1 (Hord m _)).
Qed.

(** ** Steps of a join node

    A key whose field could not be pushed is kept as -1; only left joins refuse
    a field, so the keys are right when there are none below the node. *)
Definition jstep (t t' : PTree) : Prop :=
  match t, t' with
  | PM m, PM m' => m = m'
  | PJ j l r, PJ j' l' r' =>
      steps l l' /\ steps r r' /\ (jIsLeft j' = jIsLeft j /\ jsVars (jSel j') = jsVars (jSel j)) /\ jsFields (jSel j') = jsFields (jSel j) /\
      (no_left l -> no_left r -> sel_ok (PJ j l r) -> sel_ok (PJ j' l' r'))
  | _, _ => False
  end.

Lemma jstep_refl t : jstep t t.
Proof. destruct t; simpl; [done|]. split_and!; auto using steps_refl. Qed.
Lemma jstep_trans t1 t2 t3 : jstep t1 t2 -> jstep t2 t3 -> jstep t1 t3.
Proof.
  destruct t1 as [|j1 l1 r1], t2 as [|j2 l2 r2], t3 as [|j3 l3 r3]; cbn [jstep]; try done; [congruence|].
  intros (Hl & Hr & Hj & Hf1 & Ho) (Hl' & Hr' & Hj' & Hf2 & Ho'). split; [by eapply steps_trans|]. split; [by eapply steps_trans|].
  split; [destruct Hj, Hj'; split; congruence|]. split.
  - by rewrite Hf2, Hf1.
  - intros Hnl Hnr H. apply Ho'; [by apply Hl|by apply Hr|by apply Ho].
Qed.

Lemma jstep_steps t t' : jstep t t' -> no_left t -> steps t t'.
Proof.
  destruct t as [m|j l r], t' as [m'|j' l' r']; cbn [jstep]; try done; [intros -> _; apply steps_refl|].
  intros (Hl & Hr & (Hj & Hv) & Hf & Ho) Hn. pose proof Hn as (Hjf & Hnl & Hnr). constructor; [by exists []; rewrite app_nil_r| | | |auto].
  - intros _. simpl. rewrite Hj. split_and!; [done|by apply Hl|by apply Hr].
  - simpl. by rewrite (st_height _ _ Hl), (st_height _ _ Hr).
  - simpl. by rewrite Hv, (st_vars _ _ Hl), (st_vars _ _ Hr).
Qed.

Lemma jstep_fold {A} (f : PTree -> A -> res perr PTree) xs : forall t t',
  (forall t x t', f t x = Ok t' -> jstep t t') -> res_fold f t xs = Ok t' -> jstep t t'.
Proof.
  induction xs as [|x xs IH]; intros t t' Hf H; cbn [res_fold] in H; [injection H as <-; apply jstep_refl|].
  destruct (f t x) as [t1| |] eqn:H1; cbn [mbind res_bind] in H; try done. eapply jstep_trans; eauto.
Qed.

Lemma jstep_nest t : jstep t (setNestLoop t).
Proof.
  destruct t as [|j l r]; [done|]. cbn [setNestLoop jstep]. split_and!; auto using steps_nest.
  intros _ _ H. by apply (nest_sel_ok (PJ j l r)).
Qed.

(** A node whose children took steps, with another note in its lists. *)
Lemma jstep_note j l r l' r' g :
  steps l l' -> steps r r' -> jsVars (g (jSel j)) = jsVars (jSel j) -> jsFields (g (jSel j)) = jsFields (jSel j) -> jsCols (g (jSel j)) = jsCols (jSel j) ->
  (no_left l -> no_left r -> node_ok (len (node_fields l')) (len (node_fields r')) (exec_node j) ->
     node_ok (len (node_fields l')) (len (node_fields r')) (exec_node (jsel_mod g j))) ->
  jstep (PJ j l r) (PJ (jsel_mod g j) l' r').
Proof.
  intros Hl Hr Hv Hf Hc Hn. cbn [jstep]. split_and!; try done.
  intros Hnl Hnr H. pose proof H as (_ & _ & Hsl & Hsr).
  eapply sel_ok_children in H; [|apply Hl|apply Hr|by apply Hl|by apply Hr].
  destruct H as (H1 & H2 & H3 & H4). split_and!; try done; [by apply Hn|]. simpl. by rewrite Hf, Hc.
Qed.

Lemma exec_note wl wr j g :
  jsCols (g (jSel j)) = jsCols (jSel j) ->
  (jStrategy j = SortMerge -> Forall (inb wl) (jkIndex <$> jsLeftKeys (jSel j)) -> Forall (inb wl) (jkIndex <$> jsLeftKeys (g (jSel j)))) ->
  (jStrategy j = SortMerge -> Forall (inb wr) (jkIndex <$> jsRightKeys (jSel j)) -> Forall (inb wr) (jkIndex <$> jsRightKeys (g (jSel j)))) ->
  (jStrategy j = SortMerge -> length (jsLeftKeys (jSel j)) = length (jsRightKeys (jSel j)) -> length (jsLeftKeys (g (jSel j))) = length (jsRightKeys (g (jSel j)))) ->
  (let P := fun f => inb wl (cmpLeft f) /\ inb wr (cmpRight f) in Forall P (jsCmp (jSel j)) -> Forall P (jsCmp (g (jSel j)))) ->
  (Forall (inb wl) (jsLeftTmp (jSel j)) -> Forall (inb wl) (jsLeftTmp (g (jSel j)))) ->
  (Forall (inb wr) (jsRightTmp (jSel j)) -> Forall (inb wr) (jsRightTmp (g (jSel j)))) ->
  node_ok wl wr (exec_node j) -> node_ok wl wr (exec_node (jsel_mod g j)).
Proof.
  intros Hc Hl Hr Hlen Hcmp Hlt Hrt [H1 H2 H3 H4 H5 H6 H7]. unfold exec_node in *.
  change (jStrategy (jsel_mod g j)) with (jStrategy j).
  destruct (jStrategy j) eqn:Hs; simpl in *; constructor; simpl in *; rewrite ?Hc, ?length_fmap in *; auto.
Qed.

(** ** Steps that touch the conditions only *)
Definition same_sel (f : MNode -> MNode) : Prop := forall m, mnSel (f m) = mnSel m.

Lemma m_addWheres_sel es : forall m, mnSel (m_addWheres es m) = mnSel m.
Proof. unfold m_addWheres. induction es as [|e es IH]; intros m; simpl; [done|]. by rewrite IH. Qed.

Lemma leaf_steps k f t : same_sel f -> steps t (leaf_mod k f t).
Proof.
  intros Hf. induction t as [m|j l IHl r IHr]; cbn [leaf_mod].
  - constructor; try done; simpl; rewrite ?Hf; [|done]. exists []. simpl. by rewrite Hf, app_nil_r.
  - destruct (bool_decide _); (apply steps_join; [done || apply steps_refl|done || apply steps_refl|done|done|exists []; by rewrite app_nil_r|done]).
Qed.

Lemma addFilter_steps tbs f t : steps t (addFilter tbs f t).
Proof.
  induction t as [m|j l IHl r IHr]; cbn [addFilter].
  - constructor; try done. exists []. by simpl; rewrite app_nil_r.
  - destruct (checkTbInNode _ _); [|destruct (checkTbInNode _ _)];
      (apply steps_join; [done || apply steps_refl|done || apply steps_refl|done|done|exists []; simpl; by rewrite app_nil_r|done]).
Qed.

Lemma addNoTable_steps es t : steps t (addNoTableFilter es t).
Proof.
  destruct t as [m|j l r]; simpl.
  - constructor; try done; simpl; rewrite ?m_addWheres_sel; [|done]. exists []. simpl. by rewrite m_addWheres_sel, app_nil_r.
  - apply steps_join; try apply steps_refl; [done|done|exists []; simpl; by rewrite app_nil_r|done].
Qed.

Lemma jstep_children j l r l' r' : steps l l' -> steps r r' -> jstep (PJ j l r) (PJ j l' r').
Proof.
  intros Hl Hr. cbn [jstep]. split_and!; try done.
  intros _ _ H. pose proof H as (_ & _ & Hsl & Hsr). eapply sel_ok_children; [apply Hl|apply Hr|by apply Hl|by apply Hr|done].
Qed.

Lemma leaf_jstep k f j l r : same_sel f -> jstep (PJ j l r) (leaf_mod k f (PJ j l r)).
Proof.
  intros Hf. cbn [leaf_mod]. destruct (bool_decide _); apply jstep_children; auto using steps_refl, leaf_steps.
Qed.

Lemma right_jstep f t : (forall t, steps t (f t)) -> jstep t (right_mod f t).
Proof. intros Hf. destruct t; simpl; [done|]. apply jstep_children; [apply steps_refl|apply Hf]. Qed.

(** ** The steps of the plan *)
Section plan_steps.
Context `{IR : InMapRange, R : MapRange, J : JumpHash, RI : Rand, EP : ExprPrinter}.

(** A field of the result: the children and the other lists stay as right as they were. *)
Lemma push_field_spec j l r f t' : push_field (PJ j l r) f = Ok t' ->
  exists j' l' r' g, t' = PJ j' l' r' /\ steps l l' /\ steps r r' /\ jIsLeft j' = jIsLeft j /\
    jsFields (jSel j') = jsFields (jSel j) ++ [g] /\ field_expr g = field_expr f /\ (sel_ok (PJ j l r) -> sel_ok t').
Proof.
  unfold push_field. intros H. destruct (pushSelectExpr (PJ j l r) f) as [[[t1 i] e]| |] eqn:Hp; cbn [mbind res_bind fst] in H; try done.
  apply Ok_inj in H as ->. pose proof (pushSelectExpr_spec (PJ j l r) f t1 i e Hp) as (Hs & _ & _ & g & Hg & Hge).
  cbn [pushSelectExpr] in Hp. destruct (checkTbInNode _ (getReferTables l)).
  - destruct (pushSelectExpr l f) as [[[l' k] e']| |] eqn:Hl; cbn [mbind res_bind] in Hp; try done. injection Hp as <- <- <-.
    eexists _, _, _, g. split; [done|]. split_and!; try done; [by eapply pushSelectExpr_spec|apply steps_refl|apply Hs].
  - destruct (jIsLeft j && is_func _); [done|].
    destruct (pushSelectExpr r _) as [[[r' k] e']| |] eqn:Hr; cbn [mbind res_bind] in Hp; try done. injection Hp as <- <- <-.
    apply pushSelectExpr_spec in Hr as [Hr _]. destruct (negb _); cbn [setNestLoop] in *; eexists _, _, _, g; (split; [done|]);
      split_and!; try done; try apply Hs; try apply steps_refl; try apply steps_nest. eapply steps_trans; [exact Hr|apply steps_nest].
Qed.

Lemma push_fields_spec fs : forall j l r t', res_fold push_field (PJ j l r) fs = Ok t' ->
  exists j' l' r', t' = PJ j' l' r' /\ steps l l' /\ steps r r' /\ jIsLeft j' = jIsLeft j /\
    field_expr <$> jsFields (jSel j') = (field_expr <$> jsFields (jSel j)) ++ (field_expr <$> fs) /\ (sel_ok (PJ j l r) -> sel_ok t').
Proof.
  induction fs as [|f fs IH]; intros j l r t' H; cbn [res_fold] in H.
  - apply Ok_inj in H as ->. exists j, l, r. split; [done|]. split_and!; auto using steps_refl. by rewrite app_nil_r.
  - destruct (push_field _ f) as [t1| |] eqn:H1; cbn [mbind res_bind] in H; try done.
    apply push_field_spec in H1 as (j1 & l1 & r1 & g & -> & Hl & Hr & Hj & Hf & Hg & Ho).
    apply IH in H as (j2 & l2 & r2 & -> & Hl2 & Hr2 & Hj2 & Hf2 & Ho2). exists j2, l2, r2. split; [done|].
    split_and!; [by eapply steps_trans|by eapply steps_trans|congruence| |auto].
    rewrite Hf2, Hf, fmap_app, <- app_assoc. simpl. by rewrite Hg.
Qed.

Lemma judge_jstep fs : forall t t', judgeStrategy fs t = Ok t' -> jstep t t'.
Proof.
  induction fs as [|f fs IH]; intros t t' H; destruct t as [m|j l r]; try done; cbn [judgeStrategy] in H;
    [injection H as <-; apply jstep_refl|].
  assert (forall t', judgeStrategy fs (setNestLoop (PJ j l r)) = Ok t' -> jstep (PJ j l r) t') as Hnest.
  { intros t0 H0. eapply jstep_trans; [apply jstep_nest|by apply IH]. }
  assert (forall x y, (jl ← parent_is_join x (PJ j l r);
            if (jl : bool) then Ok (setNestLoop (PJ j l r))
            else jr ← parent_is_join y (PJ j l r);
                 judgeStrategy fs (if (jr : bool) then setNestLoop (PJ j l r) else PJ j l r)) = Ok t' -> jstep (PJ j l r) t') as Hcmp.
  { intros x y H0. destruct (parent_is_join x _) as [[]| |]; cbn [mbind res_bind] in H0; try done.
    - apply Ok_inj in H0 as ->. apply jstep_nest.
    - destruct (parent_is_join y _) as [[]| |]; cbn [mbind res_bind] in H0; try done; auto. }
  destruct (jStrategy j); [| |by injection H as <-; apply jstep_refl];
    (destruct (eiExpr f); solve [by apply Hnest|by eapply Hcmp]).
Qed.

Lemma push_other_jstep b t f t' : push_other b t f = Ok t' -> jstep t t'.
Proof.
  unfold push_other. intros H. destruct t as [m|j lt rt]; [done|]. destruct (jStrategy j) eqn:Hs.
  - injection H as <-. apply jstep_refl.
  - destruct (eiExpr f) as [| | |op l r esc| | | | | | |]; try done.
    destruct (if checkTbInNode _ _ then _ else _) as [a c]. destruct (_ && _ && _ && _).
    + destruct (buildOrderBy lt a) as [[lt' lk]| |] eqn:Hl; cbn [mbind res_bind fst snd] in H; try done.
      destruct (buildOrderBy rt c) as [[rt' rk]| |] eqn:Hr; cbn [mbind res_bind fst snd] in H; try done. injection H as <-.
      apply buildOrderBy_spec in Hl as [Hl Hkl], Hr as [Hr Hkr]. apply jstep_note; try done. intros Hnl Hnr.
      apply exec_note; simpl; try done; try (intros _ Hx; rewrite fmap_app, Forall_app; split; [done|]; constructor; auto).
      rewrite !length_app. simpl. lia.
    + destruct (pushOtherFilter lt a) as [[lt' li]| |] eqn:Hl; cbn [mbind res_bind fst snd] in H; try done.
      destruct (pushOtherFilter rt c) as [[rt' ri]| |] eqn:Hr; cbn [mbind res_bind fst snd] in H; try done. injection H as <-.
      apply pushOtherFilter_spec in Hl as [Hl Hkl], Hr as [Hr Hkr]. apply jstep_note; try done. intros _ _.
      apply exec_note; simpl; try done. intros Hx. apply Forall_app. split; [done|]. by constructor.
  - destruct (eiReferTables f) as [|tb tbs]; [done|]. destruct (checkTbInNode _ _); [|done]. injection H as <-. by apply leaf_jstep.
Qed.

Lemma push_left_jstep t f t' : push_left t f = Ok t' -> jstep t t'.
Proof.
  unfold push_left. intros H. destruct t as [m|j lt rt]; [done|].
  destruct (pushSelectExpr lt f) as [[[lt' i] e]| |] eqn:Hl; cbn [mbind res_bind] in H; try done. injection H as <-.
  apply pushSelectExpr_spec in Hl as (Hl & -> & _ & g & Hg & _).
  apply jstep_note; try done; [apply steps_refl|]. intros _ _. apply exec_note; simpl; try done.
  intros Hx. apply Forall_app. split; [done|]. constructor; [|done]. rewrite Hg. unfold inb, len. rewrite length_app. simpl. lia.
Qed.

Lemma push_null_jstep t f t' : push_null t f = Ok t' -> jstep t t'.
Proof.
  unfold push_null. intros H. destruct t as [m|j lt rt]; [done|].
  destruct (pushOtherFilter rt f) as [[rt' i]| |] eqn:Hr; cbn [mbind res_bind fst snd] in H; try done. injection H as <-.
  apply pushOtherFilter_spec in Hr as [Hr Hk].
  apply jstep_note; try done; [apply steps_refl|]. intros _ _. apply exec_note; simpl; try done.
  intros Hx. apply Forall_app. split; [done|]. by constructor.
Qed.

Lemma keys_note j l r lk rk : jStrategy j <> SortMerge -> jstep (PJ j l r) (PJ (jsel_mod (js_keys lk rk) j) l r).
Proof. intros Hs. apply jstep_note; try apply steps_refl; try done. intros _ _. by apply exec_note. Qed.

Lemma push_on_jstep t e t' : push_on t e = Ok t' -> jstep t t'.
Proof.
  unfold push_on. intros H. destruct t as [m|j lt rt]; [done|].
  destruct (on_cols e) as [[a b]| |]; cbn [mbind res_bind] in H; try done. destruct (jStrategy j) eqn:Hs.
  - apply Ok_inj in H as ->. apply keys_note. by rewrite Hs.
  - destruct (buildOrderBy lt _) as [[lt' lk]| |] eqn:Hl; cbn [mbind res_bind fst snd] in H; try done.
    destruct (buildOrderBy rt _) as [[rt' rk]| |] eqn:Hr; cbn [mbind res_bind fst snd] in H; try done. injection H as <-.
    apply buildOrderBy_spec in Hl as [Hl Hkl], Hr as [Hr Hkr]. apply jstep_note; try done. intros Hnl Hnr.
    apply exec_note; simpl; try done; try (intros _ Hx; rewrite fmap_app, Forall_app; split; [done|]; constructor; auto).
    rewrite !length_app. simpl. lia.
  - destruct (checkTbInNode _ _); [|done].
    pose proof (leaf_jstep (last_leaf (PJ j lt rt) (tnName (cnQualifier a)) [tnName (cnQualifier b)]) (m_addWhere (eiExpr e)) j lt rt
      (fun _ => eq_refl)) as Hj. cbn [leaf_mod] in H, Hj.
    destruct (bool_decide _); apply Ok_inj in H as ->; (eapply jstep_trans; [exact Hj|apply keys_note; by rewrite Hs]).
Qed.

Lemma pushNull_jstep t t' : pushNullExprs t = Ok t' -> jstep t t'.
Proof. unfold pushNullExprs. destruct t; [done|]. apply jstep_fold, push_null_jstep. Qed.

Lemma right_fold_jstep {A} (f : A -> PTree -> PTree) xs : forall t,
  (forall x t, steps t (f x t)) -> jstep t (foldl (fun t x => right_mod (f x) t) t xs).
Proof.
  induction xs as [|x xs IH]; intros t Hf; simpl; [apply jstep_refl|].
  eapply jstep_trans; [apply right_jstep, (Hf x)|by apply IH].
Qed.

Lemma others_jstep b fs t t' : (t ← judgeStrategy fs t; pushOtherFilters b fs t) = Ok t' -> jstep t t'.
Proof.
  destruct (judgeStrategy fs t) as [t1| |] eqn:Hj; cbn [mbind res_bind]; try done. intros H.
  eapply jstep_trans; [by eapply judge_jstep|]. eapply jstep_fold; [|exact H]. intros. by eapply push_other_jstep.
Qed.

Lemma pushOthers_jstep t t' : pushOthers t = Ok t' -> jstep t t'.
Proof.
  unfold pushOthers. destruct t as [m|j l r]; [done|]. intros H.
  destruct (match jOtherLeft j with Some _ => _ | None => _ end) as [t1| |] eqn:H1; cbn [mbind res_bind] in H; try done.
  eapply jstep_trans; [|by eapply others_jstep]. clear H. destruct (jOtherLeft j) as [o|]; [|injection H1 as <-; apply jstep_refl].
  destruct (res_fold push_left _ _) as [t2| |] eqn:H2; cbn [mbind res_bind] in H1; try done.
  eapply jstep_trans; [apply right_jstep, (addNoTable_steps (ojNoTables o))|].
  eapply jstep_trans; [eapply jstep_fold; [apply push_left_jstep|exact H2]|].
  eapply jstep_trans; [apply (right_fold_jstep (fun f => addFilter (eiReferTables f) f) (ojRight o)); intros; apply addFilter_steps|].
  destruct (ojOthers o); [injection H1 as <-; apply jstep_refl|by eapply others_jstep].
Qed.

(** The joins below a node take steps of their own when there are no left joins. *)
Lemma handle_others_steps fuel : forall t t', no_left t -> handle_others fuel t = Ok t' -> steps t t'.
Proof.
  induction fuel as [|fuel IH]; intros t t' Hn H; destruct t as [m|j l r]; try done;
    try (cbn [handle_others] in H; injection H as <-; apply steps_refl).
  cbn [handle_others] in H. destruct (pushNullExprs _) as [t1| |] eqn:H1; cbn [mbind res_bind] in H; try done.
  destruct (pushOthers t1) as [t2| |] eqn:H2; cbn [mbind res_bind] in H; try done.
  apply pushNull_jstep in H1. apply pushOthers_jstep in H2. pose proof (jstep_steps _ _ (jstep_trans _ _ _ H1 H2) Hn) as H12.
  eapply steps_trans; [exact H12|]. destruct t2 as [m2|j2 l2 r2]; [injection H as <-; apply steps_refl|].
  pose proof (st_left _ _ H12 Hn) as (Hj & Hl & Hr).
  destruct (handle_others fuel l2) as [l3| |] eqn:Hl2; cbn [mbind res_bind] in H; try done.
  destruct (handle_others fuel r2) as [r3| |] eqn:Hr2; cbn [mbind res_bind] in H; try done. injection H as <-.
  apply steps_join; eauto. exists []. by rewrite app_nil_r.
Qed.

Lemma handleJoinOn_steps t : forall t', no_left t -> handleJoinOn t = Ok t' -> steps t t'.
Proof.
  induction t as [m|j l IHl r IHr]; intros t' Hn H; cbn [handleJoinOn] in H; [injection H as <-; apply steps_refl|].
  destruct Hn as (Hj & Hl & Hr).
  destruct (handleJoinOn l) as [l1| |] eqn:Hl1; cbn [mbind res_bind] in H; try done.
  destruct (handleJoinOn r) as [r1| |] eqn:Hr1; cbn [mbind res_bind] in H; try done.
  specialize (IHl _ Hl eq_refl). specialize (IHr _ Hr eq_refl).
  eapply steps_trans; [by apply steps_join; [exact IHl|exact IHr|reflexivity|reflexivity|exists []; by rewrite app_nil_r|done]|].
  eapply jstep_steps; [eapply jstep_fold; [apply push_on_jstep|exact H]|]. simpl. split_and!; [done|by apply IHl|by apply IHr].
Qed.
End plan_steps.

(** ** The tree the FROM and WHERE clauses give

    Its select parts are empty, and it has no left joins when the statement has
    none. *)
Fixpoint planned (inner : bool) (t : PTree) : Prop :=
  match t with
  | PM m => mnSel m = emptySel
  | PJ j l r => jSel j = emptyJoinSel /\ (inner = true -> jIsLeft j = false) /\ planned inner l /\ planned inner r
  end.

Section planned_tree.
Context `{IR : InMapRange, R : MapRange, J : JumpHash, RI : Rand, EP : ExprPrinter}.
Variables (b : bool) (r : Router).

Lemma m_pushFilter_sel m f m' : m_pushFilter r m f = Ok m' -> mnSel m' = mnSel m.
Proof. unfold m_pushFilter. destruct (pushFilter _ _ _); cbn [mbind res_bind]; try done. by intros [= <-]. Qed.
Lemma m_pushFilters_sel fs : forall m m', res_fold (m_pushFilter r) m fs = Ok m' -> mnSel m' = mnSel m.
Proof.
  induction fs as [|f fs IH]; intros m m' H; cbn [res_fold] in H; [by injection H as <-|].
  destruct (m_pushFilter r m f) as [m1| |] eqn:H1; cbn [mbind res_bind] in H; try done.
  by rewrite (IH _ _ H), (m_pushFilter_sel _ _ _ H1).
Qed.
Lemma m_pushKeyFilter_sel m f tb c m' : m_pushKeyFilter r m f tb c = Ok m' -> mnSel m' = mnSel m.
Proof.
  unfold m_pushKeyFilter. case_match; [|done]. destruct (if EqualFold _ _ then _ else _); cbn [mbind res_bind]; try done.
  by intros [= <-].
Qed.
Lemma mergeRoutes_sel l rn je fs m : mergeRoutes r l rn je fs = Ok m -> mnSel m = mnSel l.
Proof.
  unfold mergeRoutes. intros H.
  destruct je as [[k on]|]; [case_decide; [by injection H as <-|]|]; by rewrite (m_pushFilters_sel _ _ _ H).
Qed.

Lemma planned_paren p t : planned b (setParenthese p t) <-> planned b t.
Proof. by destruct t. Qed.
Lemma planned_addFilter tbs f t : planned b t -> planned b (addFilter tbs f t).
Proof.
  induction t as [m|j lt IHl rt IHr]; cbn [addFilter]; [done|]. intros (H1 & H2 & Hl & Hr).
  destruct (checkTbInNode _ _); [by repeat split; auto|]. destruct (checkTbInNode _ _); by repeat split; auto.
Qed.

Lemma planned_pushKeyFilter t : forall f tb c t', planned b t -> pushKeyFilter r t f tb c = Ok t' -> planned b t'.
Proof.
  induction t as [m|j lt IHl rt IHr]; intros f tb c t' Hp H; cbn [pushKeyFilter] in H.
  - destruct (m_pushKeyFilter _ _ _ _ _) eqn:Hm; cbn [mbind res_bind] in H; try done. injection H as <-.
    simpl. by rewrite (m_pushKeyFilter_sel _ _ _ _ _ Hm).
  - destruct Hp as (H1 & H2 & Hl & Hr). destruct (bool_decide _).
    + destruct (find_key _ _ _ _) as [o| |]; cbn [mbind res_bind] in H; try done.
      destruct (pushKeyFilter r lt f tb c) as [lt'| |] eqn:Hlt; cbn [mbind res_bind] in H; try done.
      destruct (match o with Some _ => _ | None => _ end) as [rt'| |] eqn:Hrt; cbn [mbind res_bind] in H; try done.
      injection H as <-. split_and!; eauto. destruct o; [by eapply IHr|by injection Hrt as <-].
    + destruct (find_key _ _ _ _) as [o| |]; cbn [mbind res_bind] in H; try done.
      destruct (pushKeyFilter r rt f tb c) as [rt'| |] eqn:Hrt; cbn [mbind res_bind] in H; try done.
      destruct (match o with Some _ => _ | None => _ end) as [lt'| |] eqn:Hlt; cbn [mbind res_bind] in H; try done.
      injection H as <-. split_and!; eauto. destruct o; [by eapply IHl|by injection Hlt as <-].
Qed.

Lemma planned_pushFilter t f t' : planned b t -> j_pushFilter r t f = Ok t' -> planned b t'.
Proof.
  intros Hp H. destruct t as [m|j lt rt]; cbn [j_pushFilter] in H.
  - destruct (m_pushFilter _ _ _) eqn:Hm; cbn [mbind res_bind] in H; try done. injection H as <-.
    simpl. by rewrite (m_pushFilter_sel _ _ _ Hm).
  - destruct (eiReferTables f) as [|tb tbs]; [by injection H as <-|].
    destruct (if jIsLeft j then _ else _); [by injection H as <-|].
    assert (forall x, planned b (PJ (set_hasRight x j) lt rt)) as Hx by (by intros []).
    assert (forall tbs x, planned b (addFilter tbs f (PJ (set_hasRight x j) lt rt))) as Hf by (intros; by apply planned_addFilter).
    destruct tbs as [|tb2 tbs].
    + destruct (jTables j !! tb); [|done]. destruct (eiCols f) as [|c [|c2 cs]];
        [apply Ok_inj in H as ->; apply Hf| |apply Ok_inj in H as ->; apply Hf].
      eapply planned_pushKeyFilter; [|exact H]. apply Hx.
    + destruct (checkTbInNode _ (jTables j)); [|done]. apply Ok_inj in H as ->. apply Hf.
Qed.

Lemma planned_fold {A} (f : PTree -> A -> res perr PTree) xs : forall t t',
  (forall t x t', planned b t -> f t x = Ok t' -> planned b t') -> planned b t -> res_fold f t xs = Ok t' -> planned b t'.
Proof.
  induction xs as [|x xs IH]; intros t t' Hf Hp H; cbn [res_fold] in H; [by injection H as <-|].
  destruct (f t x) as [t1| |] eqn:H1; cbn [mbind res_bind] in H; try done. eauto.
Qed.

Lemma planned_join lpn rpn je t : planned b lpn -> planned b rpn ->
  (b = true -> match je with Some (k, _) => k <> LeftJoinStr | None => True end) -> join r lpn rpn je = Ok t -> planned b t.
Proof.
  intros Hl Hr Hk H. unfold join in H. destruct (List.find _ _) as [[k ?]|]; [done|].
  destruct (join_conditions _ _ _ je) as [[[x joinOn] others]| |] eqn:Hc; cbn [mbind res_bind] in H; try done.
  assert (b = true -> match x with Some (k, _) => k <> LeftJoinStr | None => True end) as Hx.
  { intros Hb. specialize (Hk Hb). unfold join_conditions in Hc. destruct je as [[k [on|]]|]; [|by injection Hc as <- _ _..].
    destruct (parseWhereOrJoinExprs on _) as [[js ws]| |]; cbn [mbind res_bind fst snd] in Hc; try done.
    destruct (res_map _ js); cbn [mbind res_bind] in Hc; try done. injection Hc as <- _ _. rewrite decide_False by done.
    by repeat case_match; simplify_eq. }
  destruct (match lpn, rpn with PM _, PM _ => _ | _, _ => _ end) as [[m|]| |] eqn:Hm; cbn [mbind res_bind] in H; try done.
  - injection H as <-. destruct lpn as [lmn|]; [|done]. destruct rpn as [rmn|]; [|done].
    destruct (if _ || _ then _ else _) as [[]| |]; cbn [mbind res_bind] in Hm; try done.
    destruct (mergeRoutes r lmn rmn x others) as [m'| |] eqn:Hmr; cbn [mbind res_bind] in Hm; try done. injection Hm as ->.
    simpl in *. by rewrite (mergeRoutes_sel _ _ _ _ _ Hmr).
  - assert (planned b (PJ (newJoinNode x joinOn (getReferTables rpn ∪ getReferTables lpn)) lpn rpn)) as Hn.
    { split_and!; try done. intros Hb. specialize (Hx Hb). simpl. destruct x as [[]|]; [|done]. by apply bool_decide_eq_false. }
    destruct (jIsLeft _); [injection H as <-; exact Hn|]. eapply planned_fold; [|exact Hn|exact H]. apply planned_pushFilter.
Qed.

Lemma planned_join_all db es :
  Forall (fun e => (b = true -> inner_ref e = true) -> forall t, scanTableExpr r db e = Ok t -> planned b t) es ->
  (b = true -> forallb inner_ref es = true) -> forall t, join_all r (scanTableExpr r db) es = Ok t -> planned b t.
Proof.
  induction 1 as [|e es He Hes IH]; intros Hi t H; [done|].
  assert (b = true -> inner_ref e = true) as Hie by (intros Hb; specialize (Hi Hb); simpl in Hi; by apply andb_true_iff in Hi as [? _]).
  assert (b = true -> forallb inner_ref es = true) as Hies by (intros Hb; specialize (Hi Hb); simpl in Hi; by apply andb_true_iff in Hi as [_ ?]).
  destruct es as [|e2 es]; [by apply (He Hie)|].
  change (join_all r (scanTableExpr r db) (e :: e2 :: es)) with
    (lpn ← scanTableExpr r db e; rpn ← join_all r (scanTableExpr r db) (e2 :: es); join r lpn rpn None) in H.
  destruct (scanTableExpr r db e) as [lpn| |] eqn:Hl; cbn [mbind res_bind] in H; try done.
  destruct (join_all r (scanTableExpr r db) (e2 :: es)) as [rpn| |] eqn:Hr; cbn [mbind res_bind] in H; try done.
  by eapply planned_join; [apply He|apply IH| |exact H].
Qed.

Lemma planned_scan db e : (b = true -> inner_ref e = true) -> forall t, scanTableExpr r db e = Ok t -> planned b t.
Proof.
  induction e as [t a|a|l k rt on IHl IHr|es IH] using TableRef_ind'; intros Hi x H; cbn [scanTableExpr] in H; [|done| |].
  - destruct (scanAliasedTableExpr _ _ _ _); cbn [mbind res_bind] in H; try done. by injection H as <-.
  - assert (b = true -> k <> LeftJoinStr /\ k <> RightJoinStr /\ inner_ref l = true /\ inner_ref rt = true) as Hb.
    { intros Hb. specialize (Hi Hb). simpl in Hi. rewrite !andb_true_iff, !negb_true_iff, !bool_decide_eq_false in Hi. tauto. }
    assert (forall lpn, scanTableExpr r db l = Ok lpn -> planned b lpn) as Hl by (apply IHl; tauto).
    assert (forall rpn, scanTableExpr r db rt = Ok rpn -> planned b rpn) as Hr by (apply IHr; tauto).
    destruct (scanTableExpr r db l) as [lpn| |] eqn:El; cbn [mbind res_bind] in H;
      destruct (scanTableExpr r db rt) as [rpn| |] eqn:Er; cbn [mbind res_bind] in H; try by repeat case_decide.
    specialize (Hl _ eq_refl). specialize (Hr _ eq_refl). case_decide.
    + eapply planned_join; [exact Hl|exact Hr| |exact H]. tauto.
    + case_decide; [|done]. eapply planned_join; [exact Hr| | |exact H]; [|tauto]. destruct l; by try apply planned_paren.
  - destruct (join_all r (scanTableExpr r db) es) as [t| |] eqn:Ht; cbn [mbind res_bind] in H; try done. injection H as <-.
    apply planned_paren. by eapply planned_join_all.
Qed.

Lemma planned_wheres es m : planned b (PM (m_addWheres es m)) <-> planned b (PM m).
Proof. simpl. by rewrite m_addWheres_sel. Qed.

Lemma planned_push_equal t : forall f t', planned b t -> push_equal r t f = Ok t' -> planned b t'.
Proof.
  induction t as [m|j lt IHl rt IHr]; intros f t' Hp H; cbn [push_equal] in H; [by injection H as <-|].
  pose proof Hp as (H1 & H2 & Hl & Hr). destruct (eiReferTables f) as [|x [|y ts]]; try done.
  destruct (checkTbInNode [x; y] (getReferTables lt)); [|destruct (checkTbInNode [x; y] (getReferTables rt))].
  - destruct (push_equal r lt f) as [lt'| |] eqn:Hlt; cbn [mbind res_bind] in H; try done. injection H as <-. split_and!; eauto.
  - destruct (push_equal r rt f) as [rt'| |] eqn:Hrt; cbn [mbind res_bind] in H; try done. injection H as <-. split_and!; eauto.
  - set (g := match checkJoinOn _ _ f with Ok f' => f' | _ => f end) in H.
    destruct (match lt, rt with PM _, PM _ => _ | _, _ => _ end) as [[m|]| |] eqn:Hm; cbn [mbind res_bind] in H; try done.
    + apply Ok_inj in H as ->. apply planned_paren, planned_wheres.
      destruct lt as [lmn|]; [|done]. destruct rt as [rmn|]; [|done].
      destruct (on_cols g) as [[u v]| |]; cbn [mbind res_bind] in Hm; try done.
      destruct (isSameShard _ _ _ _) as [[]| |]; cbn [mbind res_bind] in Hm; try done.
      destruct (mergeRoutes r lmn rmn (jExpr j) []) as [m'| |] eqn:Hmr; cbn [mbind res_bind] in Hm; try done. injection Hm as ->.
      simpl in *. by rewrite (mergeRoutes_sel _ _ _ _ _ Hmr).
    + injection H as <-. destruct (jIsLeft j) eqn:Hj; simpl; rewrite ?Hj; by split_and!.
Qed.

Lemma planned_calcRoute t : forall t', planned b t -> t_calcRoute r t = Ok t' -> planned b t'.
Proof.
  induction t as [m|j lt IHl rt IHr]; intros t' Hp H; cbn [t_calcRoute] in H.
  { destruct (calcRoute r (mnS m)); cbn [mbind res_bind] in H; try done. by apply Ok_inj in H as ->. }
  pose proof Hp as (H1 & H2 & Hl & Hr).
  destruct (t_calcRoute r lt) as [lt'| |] eqn:Hlt; cbn [mbind res_bind] in H; try done.
  destruct (t_calcRoute r rt) as [rt'| |] eqn:Hrt; cbn [mbind res_bind] in H; try done.
  specialize (IHl _ Hl eq_refl). specialize (IHr _ Hr eq_refl).
  assert (forall t', (Ok (PJ j lt' rt') : res perr PTree) = Ok t' -> planned b t') as Hkeep.
  { intros t0 Ht0. by apply Ok_inj in Ht0 as ->. }
  destruct lt' as [lmn|]; [|by apply Hkeep]. destruct rt' as [rmn|]; [|by apply Hkeep].
  destruct (_ || _ || _); [|by apply Hkeep].
  destruct (mergeRoutes r _ rmn (jExpr j) []) as [m| |] eqn:Hm; cbn [mbind res_bind] in H; try done. apply Ok_inj in H as ->.
  apply planned_paren, planned_wheres. simpl in *. by rewrite (mergeRoutes_sel _ _ _ _ _ Hm).
Qed.

Lemma plan_from_planned db from where_ t : (b = true -> forallb inner_ref from = true) -> plan_from r db from where_ = Ok t -> planned b t.
Proof.
  intros Hi H. unfold plan_from, plan_where in H.
  destruct (scanTableExprs r db from) as [t0| |] eqn:H0; cbn [mbind res_bind] in H; try done.
  eapply planned_join_all in H0; [|apply Forall_forall; intros; by eapply planned_scan|done].
  destruct (match where_ with Some e => _ | None => _ end) as [t1| |] eqn:H1; cbn [mbind res_bind] in H; try done.
  eapply planned_calcRoute; [|exact H]. destruct where_ as [e|]; [|by apply Ok_inj in H1 as ->]. unfold t_pushFilters in H1.
  destruct (parseWhereOrJoinExprs e _) as [[js ws]| |]; cbn [mbind res_bind fst snd] in H1; try done.
  destruct (res_fold (j_pushFilter r) t0 ws) as [t2| |] eqn:Hf; cbn [mbind res_bind] in H1; try done.
  eapply planned_fold; [|eapply planned_fold; [|exact H0|exact Hf]|exact H1]; [apply planned_push_equal|apply planned_pushFilter].
Qed.
End planned_tree.

(** ** The whole plan *)
Lemma reOrder_steps t : forall n, steps t (reOrder n t).
Proof.
  induction t as [m|j l IHl r IHr]; intros n; cbn [reOrder].
  - constructor; try done. exists []. simpl. by rewrite app_nil_r.
  - apply steps_join; [apply IHl|apply IHr|done|done|exists []; simpl; by rewrite app_nil_r|].
    done.
Qed.

Lemma planned_sel_ok b t : planned b t -> sel_ok t.
Proof.
  induction t as [m|j l IHl r IHr]; cbn [planned sel_ok].
  - by intros ->.
  - intros (Hj & _ & Hl & Hr). rewrite Hj. split_and!; auto.
    unfold exec_node, join_node. rewrite Hj. destruct (jStrategy j); by constructor.
Qed.

Lemma planned_no_left t : planned true t -> no_left t.
Proof. induction t; simpl; [done|]. intros (_ & ? & ? & ?). auto. Qed.

Section whole_plan.
Context `{IR : InMapRange, R : MapRange, J : JumpHash, RI : Rand, EP : ExprPrinter}.

(** The fields that are pushed: those of the statement, or those the aggregation
    works on. *)
Definition pushed_fields (fields groups : list selectTuple) (exprs : list SelectExpr) (aggTyp : aggrType) : res perr (list selectTuple) :=
  match groups, aggTyp with
  | [], nullAgg => Ok fields
  | _, _ => p ← AggregatePlan_Build exprs fields groups false; Ok (snd p)
  end.

(** Enough fuel: pushing does not change the height of the tree. *)
Lemma handle_others_fuel n : forall m t, (height t <= n)%nat -> (height t <= m)%nat -> handle_others n t = handle_others m t.
Proof.
  induction n as [|n IH]; intros m t Hn Hm; destruct t as [x|j l r]; simpl in Hn; try lia; try by destruct m.
  destruct m as [|m]; [simpl in Hm; lia|]. cbn [handle_others].
  destruct (pushNullExprs _) as [t1| |] eqn:H1; cbn [mbind res_bind]; try done.
  destruct (pushOthers t1) as [t2| |] eqn:H2; cbn [mbind res_bind]; try done.
  pose proof (jstep_trans _ _ _ (pushNull_jstep _ _ H1) (pushOthers_jstep _ _ H2)) as Hj.
  destruct t2 as [|j2 l2 r2]; [done|]. destruct Hj as (Hl & Hr & _). apply st_height in Hl, Hr. simpl in Hm.
  rewrite (IH m l2), (IH m r2) by lia. done.
Qed.

Lemma root_others j l r t' : no_left l -> no_left r -> handleOthers (PJ j l r) = Ok t' -> jstep (PJ j l r) t'.
Proof.
  intros Hl Hr H. unfold handleOthers in H. cbn [height handle_others] in H.
  destruct (pushNullExprs _) as [t1| |] eqn:H1; cbn [mbind res_bind] in H; try done.
  destruct (pushOthers t1) as [t2| |] eqn:H2; cbn [mbind res_bind] in H; try done.
  pose proof (jstep_trans _ _ _ (pushNull_jstep _ _ H1) (pushOthers_jstep _ _ H2)) as Hj.
  destruct t2 as [|j2 l2 r2]; [done|]. pose proof Hj as (Hl2 & Hr2 & _).
  destruct (handle_others _ l2) as [l3| |] eqn:Hl3; cbn [mbind res_bind] in H; try done.
  destruct (handle_others _ r2) as [r3| |] eqn:Hr3; cbn [mbind res_bind] in H; try done. apply Ok_inj in H as ->.
  eapply jstep_trans; [exact Hj|].
  apply jstep_children; (eapply handle_others_steps; [|eassumption]); [by apply Hl2|by apply Hr2].
Qed.

Lemma root_on j l r t' : no_left l -> no_left r -> handleJoinOn (PJ j l r) = Ok t' -> jstep (PJ j l r) t'.
Proof.
  intros Hl Hr H. cbn [handleJoinOn] in H.
  destruct (handleJoinOn l) as [l1| |] eqn:Hl1; cbn [mbind res_bind] in H; try done.
  destruct (handleJoinOn r) as [r1| |] eqn:Hr1; cbn [mbind res_bind] in H; try done.
  eapply jstep_trans; [apply (jstep_children j l r l1 r1); by apply handleJoinOn_steps|].
  eapply jstep_fold; [apply push_on_jstep|exact H].
Qed.

Lemma push_sel_ok b j l r fields groups exprs aggTyp t' :
  planned b (PJ j l r) -> no_left l -> no_left r ->
  j_pushSelectExprs (PJ j l r) fields groups exprs aggTyp = Ok t' ->
  exists tuples, pushed_fields fields groups exprs aggTyp = Ok tuples /\ sel_ok t' /\
    field_expr <$> node_fields t' = field_expr <$> tuples.
Proof.
  intros Hp Hl Hr H. unfold j_pushSelectExprs in H. pose proof (planned_sel_ok _ _ Hp) as Hok.
  pose proof (reOrder_steps (PJ j l r) 0) as Hre. cbn [reOrder] in H, Hre.
  pose proof (reOrder_steps l 0) as Hsl. set (l0 := reOrder 0 l) in *.
  pose proof (reOrder_steps r (node_order l0)) as Hsr. set (r0 := reOrder (node_order l0) r) in *.
  set (j0 := jsel_mod _ j) in *.
  destruct (match groups with [] => _ | _ => _ end) as [[t1 fs]| |] eqn:Hx; cbn [mbind res_bind] in H; try done.
  assert (exists j1, t1 = PJ j1 l0 r0 /\ pushed_fields fields groups exprs aggTyp = Ok fs /\ jsFields (jSel j1) = [] /\
      sel_ok (PJ j1 l0 r0)) as (j1 & -> & Hpf & Hf1 & Hok1).
  { apply Hre in Hok. destruct Hp as (Hj & _). assert (jsFields (jSel j0) = []) as Hj0 by (simpl; by rewrite Hj).
    assert (forall p, sel_ok (PJ (jsel_mod (js_child p) j0) l0 r0)) as Hc.
    { by intros p. }
    unfold pushed_fields. destruct (AggregatePlan_Build exprs fields groups false) as [[[plan ?] tuples]| |];
      destruct groups, aggTyp; cbn [mbind res_bind snd] in *; try done; injection Hx as <- <-; by eexists. }
  destruct (res_fold push_field (PJ j1 l0 r0) fs) as [t2| |] eqn:H2; cbn [mbind res_bind] in H; try done.
  apply push_fields_spec in H2 as (j2 & l2 & r2 & -> & Hl2 & Hr2 & _ & Hf2 & Hok2).
  assert (no_left l2 /\ no_left r2) as [Hnl Hnr] by (by split; [apply Hl2, Hsl|apply Hr2, Hsr]).
  destruct (handleOthers (PJ j2 l2 r2)) as [t3| |] eqn:H3; cbn [mbind res_bind] in H; try done.
  apply root_others in H3; [|done..]. destruct t3 as [|j3 l3 r3]; [done|]. destruct H3 as (Hl3 & Hr3 & _ & Hf3 & Hok3).
  apply root_on in H; [|by apply Hl3|by apply Hr3]. destruct t' as [|j4 l4 r4]; [done|]. destruct H as (_ & _ & _ & Hf4 & Hok4).
  exists fs. split_and!; [done|apply Hok4; [by apply Hl3|by apply Hr3|]; auto|]. simpl. by rewrite Hf4, Hf3, Hf2, Hf1.
Qed.
End whole_plan.

(** C16: The positions a planned join notes are right.  When the joins below the
    root of the tree are inner joins, a plan that is built has, at every join
    node, columns, join keys, comparisons and temporary columns that are
    positions of the rows its children return (what the executor's joins need),
    and column [k] of the result is read from the column of a shard's query that
    holds the [k]th expression of the statement (of the aggregation, when there
    is one). *)
Theorem pushed_plan_well_typed `{IR : InMapRange, R : MapRange, J : JumpHash, RI : Rand, EP : ExprPrinter}
    r db from where_ j lt rt fields groups exprs aggTyp t :
  plan_from r db from where_ = Ok (PJ j lt rt) -> no_left lt -> no_left rt ->
  j_pushSelectExprs (PJ j lt rt) fields groups exprs aggTyp = Ok t ->
  exists tuples, pushed_fields fields groups exprs aggTyp = Ok tuples /\ sel_ok t /\
    length (node_fields t) = length tuples /\
    forall k f, tuples !! k = Some f -> col_expr t k = field_expr f.
Proof.
  intros Hplan Hl Hr H. eapply push_sel_ok in H as (tuples & Hf & Hok & Hfs);
    [|by eapply (plan_from_planned false); [|exact Hplan]|done..].
  exists tuples. split_and!; try done.
  - apply (f_equal length) in Hfs. by rewrite !length_fmap in Hfs.
  - intros k f Hk. apply (f_equal (.!! k)) in Hfs. rewrite !list_lookup_fmap, Hk in Hfs.
    destruct (node_fields t !! k) as [g|] eqn:Hg; [|done]. rewrite (col_expr_field _ _ _ Hok Hg). by injection Hfs.
Qed.

(** ** Examples *)
#[local] Existing Instance mod_jump.

(** [select u.c, t.a + u.a, t.a from t join u on t.a = u.b where t.c < u.c]:
    the second expression makes the join a nested loop. *)
Definition plus_ (a b : Expr) : Expr := Node (BinaryExpr "+") [a; b].
Definition ex_fields : list selectTuple := parseExpr <$> [tcol "u" "c"; plus_ (tcol "t" "a") (tcol "u" "a"); tcol "t" "a"].
Definition lt_ (a b : Expr) : Expr := ComparisonExpr "<" a b None.

Lemma pushed_plan_well_typed_witness :
  exists j lt rt t, plan_from join_router "db" ex_from (Some (lt_ (tcol "t" "c") (tcol "u" "c"))) = Ok (PJ j lt rt) /\
    j_pushSelectExprs (PJ j lt rt) ex_fields [] [] nullAgg = Ok t /\ sel_ok t /\ col_expr t 2 = Some (tcol "t" "a").
Proof.
  assert (exists j lt rt t, plan_from join_router "db" ex_from (Some (lt_ (tcol "t" "c") (tcol "u" "c"))) = Ok (PJ j lt rt) /\
    no_left lt /\ no_left rt /\ j_pushSelectExprs (PJ j lt rt) ex_fields [] [] nullAgg = Ok t) as (j & lt & rt & t & H1 & H2 & H3 & H4).
  { eexists _, _, _, _. split; [vm_compute; reflexivity|]. split; [exact I|]. split; [exact I|]. vm_compute. reflexivity. }
  destruct (pushed_plan_well_typed join_router "db" ex_from _ j lt rt ex_fields [] [] nullAgg t H1 H2 H3 H4)
    as (ts & Hts & Hok & _ & Hcol).
  exists j, lt, rt, t. apply Ok_inj in Hts as ->. split_and!; [done..|]. exact (Hcol 2%nat (parseExpr (tcol "t" "a")) eq_refl).
Defined.

(** Below the root a left join makes the keys wrong: the error of a function that
    cannot be pushed through it is dropped, and the key of the join above it has
    position -1, at which the executor reads its rows.  The statement is [select
    t.a from t join (u left join t as w on u.a = w.a) on t.b = abs(w.b)]. *)
Definition abs_ (e : Expr) : Expr := FuncExpr "abs" false [AliasedExpr e ""].
Theorem dropped_error_key :
  exists j lt rt t j' lt' rt',
    plan_from join_router "db"
      [TRJoin (ref "t") JoinStr
         (TRParen [left_ (ref "u") (TRTable (mkTableName "t" "") "w") (eq_ (tcol "u" "a") (tcol "w" "a"))])
         (Some (eq_ (tcol "t" "b") (abs_ (tcol "w" "b"))))] None = Ok (PJ j lt rt) /\
    j_pushSelectExprs (PJ j lt rt) [parseExpr (tcol "t" "a")] [] [] nullAgg = Ok t /\ t = PJ j' lt' rt' /\
    jStrategy j' = SortMerge /\ jkIndex <$> jsRightKeys (jSel j') = [-1] /\ ~ sel_ok t.
Proof.
  eexists _, _, _, _, _, _, _. split; [vm_compute; reflexivity|]. split; [vm_compute; reflexivity|]. split; [reflexivity|].
  split; [vm_compute; reflexivity|]. split; [vm_compute; reflexivity|].
  intros [[_ Hk _ _ _ _ _] _]. apply Forall_cons in Hk as [Hk _]. unfold inb in Hk. vm_compute in Hk. by destruct Hk as [? _].
Qed.
