(* ===== verification/PlanBuild.v ===== *)
(** * Plans of SELECT and UNION statements (src/planner/builder: builder.go, union_node.go, merge_node.go, join_node.go,
      orderby_plan.go, project.go, expr.go)

    From the plan tree of the FROM and WHERE clauses to the finished plan: the
    select list, GROUP BY, DISTINCT, HAVING, ORDER BY and LIMIT, the parts of a
    UNION, and the queries of the leaves with the join variables they read.
    Comments and locking clauses, which are copied to the leaves, are left out. *)
From S2P Require Import Prelude GoStd Config Xcontext Partition Router Sql PlanExpr PlanDml Join Operators PlanSelect PlanTree PlanPush.
Open Scope string_scope.
Open Scope list_scope.
Open Scope Z_scope.

(** ** Statements *)

(** [sqlparser.Select], [sqlparser.SelectStatement] *)
Record Select := mkSelect {
  seDistinct : string; seExprs : list SelectExpr; seFrom : list TableRef; seWhere : option Expr;
  seGroupBy : list Expr; seHaving : option Expr; seOrderBy : list Order; seLimit : option Limit
}.
Inductive SelectStmt :=
| StSelect (s : Select)
| StUnion (Type_ : string) (Left Right : SelectStmt) (OrderBy : list Order) (Limit_ : option Limit)
| StParen (s : SelectStmt).

(** The statement of a node that is sent whole: selects, each with its own
    tables, and unions of them. *)
Inductive UStmt :=
| USel (m : MNode)
| UUnion (Type_ : string) (Left Right : UStmt) (OrderBy : list Order) (Limit_ : option Limit).

(** [PlanNode]: a tree of merge and join nodes, a merge node whose statement is
    a merged union or has no table, a union node. *)
Inductive PNode :=
| NTree (t : PTree)
| NSingle (s : MergeSt) (ReqMode : RequestMode) (stmt : UStmt)
| NUnion (Typ : string) (children : list ChildPlan) (Left Right : PNode).

(** ** The expressions of a statement, in the order of its text *)
Fixpoint from_exprs (f : FromT) : list Expr :=
  match f with
  | FTable _ => []
  | FJoin _ on l r => List.flat_map from_exprs l ++ List.flat_map from_exprs r ++ [on]
  | FParen l => List.flat_map from_exprs l
  end.
Definition stmt_exprs (m : MNode) : list Expr :=
  let s := mnSel m in
  select_args (spExprs s) ++ List.flat_map from_exprs (mnFrom m) ++ msWhere (mnS m) ++ spGroupBy s ++ spHaving s
    ++ (orExpr <$> spOrderBy s) ++ limit_exprs (spLimit s).

Section build.
Context `{IR : InMapRange, R : MapRange, J : JumpHash, RI : Rand, EP : ExprPrinter}.

(** ** Fields *)

(** [getFields]; an error of a node without fields is a panic. *)
Definition m_getFields (m : MNode) : res perr (list selectTuple) :=
  match spFields (mnSel m), spExprs (mnSel m) with
  | [], (_ :: _) as exprs =>
      match parseSelectExprs exprs true (msTables (mnS m)) with Ok fa => Ok (fst fa) | _ => Panic end
  | fs, _ => Ok fs
  end.
Definition t_getFields (t : PTree) : res perr (list selectTuple) :=
  match t with PM m => m_getFields m | PJ j _ _ => Ok (jsFields (jSel j)) end.
Fixpoint u_getFields (u : UStmt) : res perr (list selectTuple) :=
  match u with USel m => m_getFields m | UUnion _ l _ _ _ => u_getFields l end.
Fixpoint n_getFields (n : PNode) : res perr (list selectTuple) :=
  match n with NTree t => t_getFields t | NSingle _ _ u => u_getFields u | NUnion _ _ l _ => n_getFields l end.

(** ** DISTINCT (project.go) *)

(** Whether a column among the fields is a shard key. *)
Fixpoint has_shard (fields : list selectTuple) (tbInfos : gmap string tableInfo) : res perr bool :=
  match fields with
  | [] => Ok false
  | t :: ts =>
      if stIsCol t then
        tb ← first_table t;
        ok ← checkShard tb (stField t) tbInfos;
        if (ok : bool) then Ok true else has_shard ts tbInfos
      else has_shard ts tbInfos
  end.

(** The GROUP BY column of a field. *)
Definition distinct_col (t : selectTuple) : res perr Expr :=
  match stExpr t with
  | AliasedExpr e as_ =>
      if decide (as_ = "") then match e with ColNameE _ => Ok e | _ => Err EDistinct end
      else Ok (ColNameE (mkColName as_ (mkTableName "" "")))
  | _ => Err EDistinct
  end.

(** [checkDistinct]: the groups, and the statement with its DISTINCT turned into
    a GROUP BY. *)
Definition checkDistinct (node : Select) (groups fields : list selectTuple) (tbInfos : gmap string tableInfo) (canOpt : bool)
    : res perr (list selectTuple * Select) :=
  if bool_decide (seDistinct node = "") || negb (Nat.eqb (length (seGroupBy node)) 0) then Ok (groups, node)
  else
    hasShard ← (if canOpt then has_shard fields tbInfos else Ok false);
    by_ ← res_map distinct_col fields;
    Ok (if (hasShard : bool) then [] else fields,
        mkSelect "" (seExprs node) (seFrom node) (seWhere node) (seGroupBy node ++ by_) (seHaving node) (seOrderBy node) (seLimit node)).

(** ** HAVING (expr.go, join_node.go) *)

(** The visitor of [parseHaving]. *)
Definition having_visit (fields : list selectTuple) (t : exprInfo) (node : Expr) : res perr exprInfo :=
  match node with
  | ColNameE c =>
      let table := tnName (cnQualifier c) in
      f ← checkInTuple (cnName c) table fields;
      match f with
      | None => Err (EHavingColumn table (cnName c))
      | Some f =>
          if decide (stAggrFuc f = "")
          then Ok (mkExprInfo (eiExpr t) (foldl add_table (eiReferTables t) (eiReferTables (stInfo f))) (eiCols t ++ [c]) [])
          else Err EHavingAggregate
      end
  | FuncExpr name _ _ => if IsAggregate name then Err (EHavingFunc (fmt_expr node)) else Ok t
  | _ => Ok t
  end.

(** [parseHaving] *)
Definition parseHaving (expr : Expr) (fields : list selectTuple) : res perr (list exprInfo) :=
  res_map (fun f => let f := skipParenthesis f in Walk (having_visit fields) (mkExprInfo f [] [] []) f) (splitAndExpression [] expr).

(** The place of the leaf of a table: the turns from the root, [true] for right. *)
Fixpoint leaf_path (k : string) (t : PTree) : list bool :=
  match t with
  | PM _ => []
  | PJ _ l r => if bool_decide (is_Some (getReferTables l !! k)) then false :: leaf_path k l else true :: leaf_path k r
  end.

Definition add_having (e : Expr) (m : MNode) : MNode := sel_mod (sp_having e) m.

(** [pushHaving] *)
Fixpoint having_everywhere (e : Expr) (t : PTree) : PTree :=
  match t with PM m => PM (add_having e m) | PJ j l r => PJ j (having_everywhere e l) (having_everywhere e r) end.
Definition pushHaving (t : PTree) (having : exprInfo) : res perr PTree :=
  match t with
  | PM m => Ok (PM (add_having (eiExpr having) m))
  | PJ j _ _ =>
      match eiReferTables having with
      | [] => Ok (having_everywhere (eiExpr having) t)
      | tb :: tbs =>
          if checkTbInNode (tb :: tbs) (jTables j) then
            if forallb (fun x => bool_decide (leaf_path x t = leaf_path tb t)) tbs
            then Ok (leaf_mod tb (add_having (eiExpr having)) t)
            else match jStrategy j with
                 | NestLoop => Ok (leaf_mod (last_leaf t tb tbs) (add_having (eiExpr having)) t)
                 | SortMerge => Err (EHavingJoin (eiExpr having))
                 | Cartesian => Ok (leaf_mod tb (add_having (eiExpr having)) t)
                 end
          else Panic
      end
  end.

(** [pushHavings] *)
Definition pushHavings (t : PTree) (expr : Expr) : res perr PTree :=
  fields ← t_getFields t;
  havings ← parseHaving expr fields;
  res_fold pushHaving t havings.

(** ** ORDER BY (orderby_plan.go) *)
Definition direction (d : string) : Direction := if decide (d = "desc") then DESC else ASC.
Definition order_name (field : string) (t : selectTuple) : string :=
  if decide (stField t = "*") then field else if decide (stAlias t = "") then stField t else stAlias t.

(** One member of [OrderByPlan.analyze] on a tree; a column that is not among
    the fields is pushed, and its index is removed from the result later. *)
Definition order_step (st : PTree * OrderByPlan) (o : Order) : res perr (PTree * OrderByPlan) :=
  let '(t, plan) := st in
  match orExpr o with
  | ColNameE c =>
      let field := cnName c in
      let table := tnName (cnQualifier c) in
      let tbInfos := getReferTables t in
      if negb (bool_decide (table = "")) && bool_decide (tbInfos !! table = None) then Err (EUnknownTable "order by" table field)
      else
        fields ← t_getFields t;
        f ← checkInTuple field table fields;
        x ← (match f with
             | Some f => Ok (t, [], f)
             | None =>
                 tb ← (if decide (table = "") then
                         if decide (size tbInfos = 1%nat) then Ok (getOneTableInfo tbInfos) else Err (EOrderAmbiguous field)
                       else Ok table);
                 let f := mkSelectTuple (AliasedExpr (ColNameE c) "") (mkExprInfo (ColNameE c) [tb] [c] []) field "" "" "" false true in
                 match pushSelectExpr t f with
                 | Ok (t, i, _) => Ok (t, [i], f)
                 | Err _ => Ok (t, [-1], f)
                 | Panic => Panic
                 end
             end);
        let '(t, removed, f) := x in
        Ok (t, mkOrderByPlan (opRemovedIdxs plan ++ removed)
                 (opOrderBys plan ++ [mkOrderBy (order_name field f) table (direction (orDirection o))]))
  | _ => Err EOrderType
  end.
Definition OrderByPlan_Build (t : PTree) (os : list Order) : res perr (PTree * OrderByPlan) :=
  res_fold order_step (t, mkOrderByPlan [] []) os.

(** The same on a union node. *)
Definition union_order_step (fields : list selectTuple) (plan : OrderByPlan) (o : Order) : res perr OrderByPlan :=
  match orExpr o with
  | ColNameE c =>
      let field := cnName c in
      let table := tnName (cnQualifier c) in
      if negb (bool_decide (table = "")) then Err (EOrderTableInUnion table)
      else
        f ← checkInTuple field table fields;
        match f with
        | None => Err (EOrderColumn field)
        | Some f =>
            Ok (mkOrderByPlan (opRemovedIdxs plan)
                  (opOrderBys plan ++ [mkOrderBy (order_name field f) table (direction (orDirection o))]))
        end
  | _ => Err EOrderType
  end.

Definition add_child (c : ChildPlan) (t : PTree) : PTree :=
  match t with PM m => PM (sel_mod (sp_child c) m) | PJ j l r => PJ (jsel_mod (js_child c) j) l r end.
Definition t_orderPlan (t : PTree) (os : list Order) : res perr PTree :=
  x ← OrderByPlan_Build t os; Ok (add_child (ChildOrderby (snd x)) (fst x)).

(** [pushOrderBy] *)
Definition pushOrderBy (t : PTree) (os : list Order) : res perr PTree :=
  t_orderPlan (match t with PM m => PM (sel_mod (sp_orderby os) m) | _ => t end) os.

(** ** LIMIT *)

(** [pushLimit] *)
Definition pushLimit (t : PTree) (limit : Limit) : res perr PTree :=
  plan ← LimitPlan_Build (Some limit);
  let t := add_child (ChildLimit plan) t in
  Ok (match t with
      | PM m =>
          match spGroupBy (mnSel m), lpReWritten plan with
          | [], Some s => PM (sel_mod (sp_limit (Some (mkLimit None (Some (SQLValE (mkSQLVal IntVal s)))))) m)
          | [], None => PM (sel_mod (sp_limit None) m)
          | _, _ => t
          end
      | _ => t
      end).

(** ** The select list of a merge node *)
Definition sp_select (exprs : list SelectExpr) (fields : list selectTuple) (by_ : list Expr) (distinct : string) (os : list Order)
    (s : SelPart) : SelPart :=
  mkSelPart exprs fields by_ distinct (spHaving s) os (spLimit s) (spChildren s) (spOrder s) (spAliasIndex s).

(** [MergeNode.pushSelectExprs]; the tuples of the aggregate plan are the fields
    of the node. *)
Definition m_pushSelectExprs (m : MNode) (fields groups : list selectTuple) (sel : Select) (aggTyp : aggrType) : res perr PTree :=
  let os := spOrderBy (mnSel m) ++
    match seOrderBy sel with [] => (fun e => mkOrder e "asc") <$> seGroupBy sel | _ => [] end in
  let m := sel_mod (sp_select (seExprs sel) fields (seGroupBy sel) (seDistinct sel) os) m in
  match seGroupBy sel, groups with
  | _ :: _, [] => match os with [] => Ok (PM m) | _ => t_orderPlan (PM m) os end
  | _, _ =>
      match groups, aggTyp with
      | [], nullAgg => Ok (PM m)
      | _, _ =>
          p ← AggregatePlan_Build (seExprs sel) fields groups (match aggTyp with canPush => true | _ => false end);
          let '(plan, exprs, tuples) := p in
          Ok (add_child (ChildAggregate plan) (PM (sel_mod (sp_select exprs tuples (seGroupBy sel) (seDistinct sel) os) m)))
      end
  end.

(** ** SELECT (builder.go) *)

(** [node.From = sel.From], [node.Where = sel.Where], [mn.Sel = node] *)
Definition whole_select (node : Select) (m : MNode) : MNode :=
  sel_mod (fun s => mkSelPart (seExprs node) (spFields s) (seGroupBy node) (seDistinct node) (opt_list (seHaving node))
                      (seOrderBy node) (seLimit node) (spChildren s) (spOrder s) (spAliasIndex s)) m.

(** [processSelect] *)
Definition processSelect (r : Router) (database : string) (node : Select) : res perr PTree :=
  root ← scanTableExprs r database (seFrom node);
  let tbInfos := getReferTables root in
  root ← plan_where r root (seWhere node);
  let isM := match root with PM _ => true | _ => false end in
  match (match root with PM m => if Nat.eqb (msRouteLen (mnS m)) 1 then Some m else None | _ => None end) with
  | Some m =>
      let m := whole_select node m in
      _ ← res_fold (fun _ e => checkTbName tbInfos e) tt (stmt_exprs m);
      Ok (PM m)
  | None =>
      fa ← parseSelectExprs (seExprs node) isM (getReferTables root);
      let (fields, aggTyp) := fa : list selectTuple * aggrType in
      groups ← checkGroupBy (seGroupBy node) fields tbInfos isM;
      gn ← checkDistinct node groups fields tbInfos isM;
      let (groups, node) := gn : list selectTuple * Select in
      root ← (match root with
              | PM m => m_pushSelectExprs m fields groups node aggTyp
              | PJ _ _ _ => j_pushSelectExprs root fields groups (seExprs node) aggTyp
              end);
      root ← (match seHaving node with Some e => pushHavings root e | None => Ok root end);
      root ← (match seOrderBy node with [] => Ok root | os => pushOrderBy root os end);
      match seLimit node with Some l => pushLimit root l | None => Ok root end
  end.

(** ** UNION (builder.go) *)

(** The merge node a plan is, if it is one. *)
Definition as_merge (n : PNode) : option (MergeSt * RequestMode * UStmt) :=
  match n with
  | NTree (PM m) => Some (mnS m, ReqNormal, USel m)
  | NSingle s mode u => Some (s, mode, u)
  | _ => None
  end.

Definition union_merges (ls rs : MergeSt) : bool :=
  Nat.eqb (msRouteLen ls) 1 && Nat.eqb (msRouteLen rs) 1 &&
  (bool_decide (msBackend ls = msBackend rs) || (msNonGlobalCnt ls =? 0) || (msNonGlobalCnt rs =? 0)).

(** [union] *)
Definition union_ (left right : PNode) (typ : string) (os : list Order) (limit : option Limit) : res perr PNode :=
  lf ← n_getFields left;
  rf ← n_getFields right;
  if negb (Nat.eqb (length lf) (length rf)) then Err EUnionColumns
  else
    match (match as_merge left, as_merge right with
           | Some (ls, lmode, lu), Some (rs, rmode, ru) => if union_merges ls rs then Some (ls, lmode, lu, rs, rmode, ru) else None
           | _, _ => None
           end) with
    | Some (ls, lmode, lu, rs, rmode, ru) =>
        let take := (msNonGlobalCnt ls =? 0) && match rmode with ReqSingle => false | _ => true end in
        Ok (NSingle (mkMergeSt (msTables rs ∪ msTables ls) (msNonGlobalCnt ls) (if take then msBackend rs else msBackend ls)
                       (if take then msIndexes rs else msIndexes ls) 1 (msWhere ls))
              (if take then rmode else lmode) (UUnion typ lu ru os limit))
    | None =>
        ob ← (match os with [] => Ok [] | _ => p ← res_fold (union_order_step lf) (mkOrderByPlan [] []) os; Ok [ChildOrderby p] end);
        lim ← (match limit with None => Ok [] | Some l => p ← LimitPlan_Build (Some l); Ok [ChildLimit p] end);
        Ok (NUnion typ (ob ++ lim) left right)
    end.

Definition is_dual (node : Select) : bool :=
  match seFrom node with [TRTable t _] => bool_decide (tnName t = "dual") | _ => false end.

(** [processPart], with [processUnion] *)
Fixpoint processPart (r : Router) (database : string) (part : SelectStmt) : res perr PNode :=
  match part with
  | StUnion typ l rt os limit =>
      left ← processPart r database l;
      right ← processPart r database rt;
      union_ left right typ os limit
  | StSelect node =>
      if is_dual node then
        let s := mkMergeSt ∅ 0 "" [] 1 (opt_list (seWhere node)) in
        Ok (NSingle s ReqSingle (USel (whole_select node (mkMNode s [FTable "dual"] false emptySel))))
      else t ← processSelect r database node; Ok (NTree t)
  | StParen s => processPart r database s
  end.

(** The tree of [BuildNode], before its queries are built. *)
Definition processNode (r : Router) (database : string) (node : SelectStmt) : res perr PNode :=
  match node with
  | StSelect s => t ← processSelect r database s; Ok (NTree t)
  | StUnion _ _ _ _ _ => processPart r database node
  | StParen _ => Err EStatement
  end.
End build.
