(* ===== verification/PlanQuery.v ===== *)
(** * The queries of a plan (src/planner/builder: merge_node.go, join_node.go, union_node.go, builder.go)

    [buildQuery] walks the tree from right to left.  A leaf whose statement
    names a column of a leaf further left prints a join variable in its place:
    the lowest join above both leaves notes ([procure]) at which position of its
    left side's rows the executor finds the value.  The result is the tree of
    nodes the executor runs (Engine.v). *)
From S2P Require Import Prelude GoStd Config Xcontext Partition Router Sql PlanExpr PlanDml Join Operators Engine PlanSelect PlanTree PlanPush PlanBuild.
Open Scope string_scope.
Open Scope list_scope.
Open Scope Z_scope.

(** ** Names of join variables (sqlparser/ast_funcs.go), on ASCII names *)
Definition isLetter (c : Ascii.ascii) : bool :=
  let n := Z.of_N (Ascii.N_of_ascii c) in
  ((97 <=? n) && (n <=? 122)) || ((65 <=? n) && (n <=? 90)) || (n =? 95) || (n =? 64).
Definition isDigit (c : Ascii.ascii) : bool := let n := Z.of_N (Ascii.N_of_ascii c) in (48 <=? n) && (n <=? 57).
Fixpoint compliant (first : bool) (s : string) : string :=
  match s with
  | EmptyString => EmptyString
  | String c s => String (if negb (isLetter c) && (first || negb (isDigit c)) then "_"%char else c) (compliant false s)
  end.
Definition compliantName (s : string) : string := compliant true s.
Definition joinVar (c : ColName) : string := compliantName (tnName (cnQualifier c)) +:+ "_" +:+ compliantName (cnName c).

(** ** Text *)

(** The text of statements: columns for which a join variable is given are
    printed as the variable, the tables by the names of a shard.  [stmt_bind] is
    [GenerateQuery] of the parsed text (None when a variable is missing),
    [stmt_fields] the same with the impossible WHERE clause. *)
Class StmtPrinter (V : Type) := {
  stmt_text : (ColName -> option string) -> UStmt -> gmap string string -> string;
  stmt_bind : (ColName -> option string) -> UStmt -> gmap string string -> gmap string V -> option string;
  stmt_fields : (ColName -> option string) -> UStmt -> gmap string V -> option string
}.

(** A column of another node. *)
Definition foreign (tables : gmap string tableInfo) (c : ColName) : bool :=
  negb (bool_decide (tnName (cnQualifier c) = "")) && bool_decide (tables !! tnName (cnQualifier c) = None).
(** [varFormatter] on columns. *)
Definition var_of (tables : gmap string tableInfo) (c : ColName) : option string :=
  if foreign tables c then Some (joinVar c) else None.

(** ** Places in the tree *)
Fixpoint node_at (p : list bool) (t : PTree) : option PTree :=
  match p, t with
  | [], _ => Some t
  | false :: p, PJ _ l _ => node_at p l
  | true :: p, PJ _ _ r => node_at p r
  | _ :: _, PM _ => None
  end.
Fixpoint mod_at (p : list bool) (f : PTree -> PTree) (t : PTree) : PTree :=
  match p, t with
  | [], _ => f t
  | false :: p, PJ j l r => PJ j (mod_at p f l) r
  | true :: p, PJ j l r => PJ j l (mod_at p f r)
  | _ :: _, PM _ => t
  end.

Section query.
Context `{IR : InMapRange, R : MapRange, J : JumpHash, RI : Rand, EP : ExprPrinter}.

(** ** Join variables (join_node.go) *)

(** The position of a column among the fields. *)
Fixpoint var_field (field table : string) (fields : list selectTuple) (i : Z) : res perr (option Z) :=
  match fields with
  | [] => Ok None
  | f :: fs =>
      if stIsCol f && EqualFold field (stField f) then
        tb ← first_table f;
        if decide (table = tb) then Ok (Some i) else var_field field table fs (i + 1)
      else var_field field table fs (i + 1)
  end.

(** The side effect of [getFields] on a merge node without fields. *)
Definition cache_fields (t : PTree) : res perr PTree :=
  match t with
  | PM m =>
      fs ← m_getFields m;
      Ok (PM (sel_mod (fun s => mkSelPart (spExprs s) fs (spGroupBy s) (spDistinct s) (spHaving s) (spOrderBy s) (spLimit s)
                                  (spChildren s) (spOrder s) (spAliasIndex s)) m))
  | _ => Ok t
  end.

(** [procure] *)
Definition procure (j : JNode) (l r : PTree) (col : ColName) : res perr PTree :=
  let v := joinVar col in
  if decide (v ∈ fst <$> jsVars (jSel j)) then Ok (PJ j l r)
  else
    let field := cnName col in
    let table := tnName (cnQualifier col) in
    l ← cache_fields l;
    found ← var_field field table (node_fields l) 0;
    x ← (match found with
         | Some i => Ok (l, i)
         | None =>
             match pushSelectExpr l (mkSelectTuple (AliasedExpr (ColNameE col) "") (mkExprInfo (ColNameE col) [table] [col] [])
                                       field "" "" "" false true) with
             | Ok (l, i, _) => Ok (l, i)
             | Err _ => Ok (l, -1)
             | Panic => Panic
             end
         end);
    let (l, i) := x : PTree * Z in
    Ok (PJ (jsel_mod (js_var v i) j) l r).

(** [procure] of the join [findLCA(root, p, q)], for the leaf [p] of the
    column's table and the leaf [q] that is printed. *)
Fixpoint procure_at (p q : list bool) (col : ColName) (t : PTree) : res perr PTree :=
  match t, p, q with
  | PJ j l r, a :: p, b :: q =>
      if Bool.eqb a b then
        if (a : bool) then r ← procure_at p q col r; Ok (PJ j l r) else l ← procure_at p q col l; Ok (PJ j l r)
      else procure j l r col
  | _, _, _ => Panic
  end.

(** One column of the statement of the leaf [q]. *)
Definition procure_col (q : list bool) (tables : gmap string tableInfo) (root : PTree) (col : ColName) : res perr PTree :=
  if foreign tables col then
    if decide (is_Some (getReferTables root !! tnName (cnQualifier col)))
    then procure_at (leaf_path (tnName (cnQualifier col)) root) q col root
    else Panic
  else Ok root.

(** The select list of a leaf is not left empty. *)
Definition some_select (m : MNode) : MNode :=
  match spExprs (mnSel m) with
  | [] => sel_mod (fun s => mkSelPart [AliasedExpr (SQLValE (mkSQLVal IntVal "1")) ""] (spFields s) (spGroupBy s) (spDistinct s)
                              (spHaving s) (spOrderBy s) (spLimit s) (spChildren s) (spOrder s) (spAliasIndex s)) m
  | _ => m
  end.
Definition stmt_cols (m : MNode) : list ColName := List.flat_map cols_of (stmt_exprs m).

(** The leaf of [buildQuery] at [q]: its join variables are procured; the
    leaf as it is printed. *)
Definition build_leaf (q : list bool) (root : PTree) : res perr (PTree * MNode) :=
  match node_at q root with
  | Some (PM m) =>
      let m := some_select m in
      let root := mod_at q (fun _ => PM m) root in
      root ← (if Nat.eqb (msRouteLen (mnS m)) 0 then Ok root
              else res_fold (procure_col q (msTables (mnS m))) root (stmt_cols m));
      Ok (root, m)
  | _ => Panic
  end.

(** [JoinNode.buildQuery] up to its children. *)
Definition enter_join (t : PTree) : PTree :=
  match t with
  | PM _ => t
  | PJ j l r =>
      let cart := match jStrategy j with SortMerge => true | _ => false end
                  && Nat.eqb (length (jsLeftKeys (jSel j))) 0 && Nat.eqb (length (jsCmp (jSel j))) 0 && negb (jIsLeft j) in
      PJ (if cart then set_strategy Cartesian j else j) l (addNoTableFilter (jNoTable j) r)
  end.
Definition left_noTable (t : PTree) : PTree :=
  match t with PM _ => t | PJ j l r => PJ j (addNoTableFilter (jNoTable j) l) r end.

(** [buildQuery]: the root, and the leaves in the order they were printed. *)
Fixpoint build_tree (shape : PTree) (q : list bool) (st : PTree * list (list bool * MNode)) : res perr (PTree * list (list bool * MNode)) :=
  match shape with
  | PM _ => x ← build_leaf q (fst st); Ok (fst x, snd st ++ [(q, snd x)])
  | PJ _ l r =>
      st ← build_tree r (q ++ [true]) (mod_at q enter_join (fst st), snd st);
      build_tree l (q ++ [false]) (mod_at q left_noTable (fst st), snd st)
  end.

(** ** The nodes of the executor *)
Section nodes.
Context {V : Type} `{SP : StmtPrinter V}.

(** One shard of [buildQuery]: the names of its tables. *)
Definition shard_names (s : MergeSt) (i : nat) : res perr (gmap string string) :=
  st ← res_fold (query_table i) (msBackend s, "", ∅) (map_range (msTables s)); Ok (snd st).

(** A merge node with the statement [u]. *)
Definition merge_node (s : MergeSt) (mode : RequestMode) (u : UStmt) (children : list ChildPlan) : res perr (MergeNode V) :=
  let var := var_of (msTables s) in
  querys ← buildQuery (stmt_text var u) s;
  names ← res_map (shard_names s) (seq 0 (msRouteLen s));
  Ok (mkMergeNode mode querys (stmt_bind var u <$> names) (stmt_fields var u) (stmt_text (fun _ => None) u ∅) children).

(** The leaf that was printed at [q]. *)
Fixpoint printed (q : list bool) (done : list (list bool * MNode)) : option MNode :=
  match done with [] => None | (p, m) :: done => if decide (p = q) then Some m else printed q done end.

Fixpoint exec_tree (t : PTree) (q : list bool) (done : list (list bool * MNode)) : res perr (PlanNode V) :=
  match t with
  | PM m =>
      match printed q done with
      | Some p => n ← merge_node (mnS p) ReqNormal (USel p) (spChildren (mnSel m)); Ok (MergeN n)
      | None => Panic
      end
  | PJ j l r =>
      l ← exec_tree l (q ++ [false]) done;
      r ← exec_tree r (q ++ [true]) done;
      Ok (JoinN (join_node j) (jsChildren (jSel j)) l r)
  end.

(** [root.buildQuery(root)] *)
Fixpoint build_node (n : PNode) : res perr (PlanNode V) :=
  match n with
  | NTree t => x ← build_tree t [] (t, []); exec_tree (fst x) [] (snd x)
  | NSingle s mode u => n ← merge_node s mode u []; Ok (MergeN n)
  | NUnion typ children l r => l ← build_node l; r ← build_node r; Ok (UnionN typ children l r)
  end.

(** [BuildNode] *)
Definition BuildNode (r : Router) (database : string) (node : SelectStmt) : res perr (PlanNode V) :=
  n ← processNode r database node; build_node n.

(** [hasSubquery] on the statement. *)
Fixpoint ref_subquery (e : TableRef) : bool :=
  match e with
  | TRTable _ _ => false
  | TRSubquery _ => true
  | TRJoin l _ r on => ref_subquery l || ref_subquery r || hasSubquery (opt_list on)
  | TRParen es => existsb ref_subquery es
  end.
Definition select_subquery (s : Select) : bool :=
  existsb ref_subquery (seFrom s) ||
  hasSubquery (select_args (seExprs s) ++ opt_list (seWhere s) ++ seGroupBy s ++ opt_list (seHaving s)
               ++ (orExpr <$> seOrderBy s) ++ limit_exprs (seLimit s)).

(** [SelectPlan.Build] *)
Definition SelectPlan_Build (r : Router) (database : string) (node : Select) : res perr (PlanNode V) :=
  if select_subquery node then Err (ESubquery "select") else BuildNode r database (StSelect node).
(** [UnionPlan.Build] *)
Definition UnionPlan_Build (r : Router) (database typ : string) (l rt : SelectStmt) (os : list Order) (limit : option Limit)
    : res perr (PlanNode V) :=
  BuildNode r database (StUnion typ l rt os limit).
End nodes.
End query.
