(* ===== verification/PlanQueryProps.v ===== *)
(** * What the finished plans guarantee

    The join variables of the queries are bound; where the plans of unions and
    of grouped statements are not what the statement asks for. *)
From S2P Require Import Prelude GoStd Config Xcontext Partition Compute Router Frm RouterProps Sql PlanExpr PlanExprProps PlanDml Join JoinProps Operators Engine PlanSelect PlanSelectProps PlanTree PlanTreeProps PlanPush PlanPushProps PlanBuild PlanQuery.
Open Scope string_scope.
Open Scope list_scope.
Open Scope Z_scope.

(** ** Join variables *)

(** A column of a list of fields. *)
Definition is_column (g : selectTuple) (c : ColName) : Prop :=
  stIsCol g = true /\ EqualFold (cnName c) (stField g) = true /\ first_table g = Ok (tnName (cnQualifier c)).

(** [P] is a property of the columns that variables are noted for. *)
Section variables.
Context (P : ColName -> Prop).

(** A noted variable is a column of the left side's fields, one that has [P]. *)
Definition var_means (l : list selectTuple) (vi : string * Z) : Prop :=
  exists c g, P c /\ fst vi = joinVar c /\ 0 <= snd vi /\ l !! Z.to_nat (snd vi) = Some g /\ is_column g c.

Fixpoint vars_ok (t : PTree) : Prop :=
  match t with
  | PM _ => True
  | PJ j l r => Forall (var_means (node_fields l)) (jsVars (jSel j)) /\ vars_ok l /\ vars_ok r
  end.

(** Variables and fields are only added. *)
Fixpoint extends (t t' : PTree) : Prop :=
  fields_grow t t' /\
  match t, t' with
  | PM _, PM _ => True
  | PJ j l r, PJ j' l' r' => (exists vs, jsVars (jSel j') = jsVars (jSel j) ++ vs) /\ extends l l' /\ extends r r'
  | _, _ => False
  end.

(** A step of [buildQuery]. *)
Definition bstep (t t' : PTree) : Prop := extends t t' /\ (vars_ok t -> vars_ok t').

Lemma var_means_mono l fs vi : var_means l vi -> var_means (l ++ fs) vi.
Proof.
  intros (c & g & Hc & Hv & Hi & Hg & Hr). exists c, g. split_and!; try done; [|apply Hr..]. by apply lookup_app_l_Some.
Qed.

Lemma extends_grow t t' : extends t t' -> fields_grow t t'.
Proof. by destruct t as [|], t' as [|]; intros [? _]. Qed.
Lemma extends_refl t : extends t t.
Proof. induction t; simpl; split_and!; auto using grow_refl. exists []. by rewrite app_nil_r. Qed.
Lemma extends_trans t1 : forall t2 t3, extends t1 t2 -> extends t2 t3 -> extends t1 t3.
Proof.
  induction t1 as [m|j l IHl r IHr]; intros [m2|j2 l2 r2] [m3|j3 l3 r3]; cbn [extends]; try tauto.
  - intros [H1 _] [H2 _]. split; [by eapply grow_trans|done].
  - intros (H1 & [v1 Hv1] & Hl1 & Hr1) (H2 & [v2 Hv2] & Hl2 & Hr2). split_and!; [by eapply grow_trans| |eauto..].
    exists (v1 ++ v2). by rewrite Hv2, Hv1, app_assoc.
Qed.
Lemma bstep_refl t : bstep t t.
Proof. split; [apply extends_refl|done]. Qed.
Lemma bstep_trans t1 t2 t3 : bstep t1 t2 -> bstep t2 t3 -> bstep t1 t3.
Proof. intros [] []. split; [by eapply extends_trans|auto]. Qed.

(** The children of a join take steps; the join itself may note more variables. *)
Lemma bstep_join j j' l r l' r' vs :
  bstep l l' -> bstep r r' -> jsFields (jSel j') = jsFields (jSel j) -> jsVars (jSel j') = jsVars (jSel j) ++ vs ->
  Forall (var_means (node_fields l')) vs -> bstep (PJ j l r) (PJ j' l' r').
Proof.
  intros [Hel Hvl] [Her Hvr] Hf Hv Hvs. split.
  - cbn [extends]. split_and!; try done; [exists []; simpl; by rewrite Hf, app_nil_r|by eexists].
  - intros (H1 & H2 & H3). cbn [vars_ok]. rewrite Hv. split_and!; auto. apply Forall_app. split; [|done].
    apply extends_grow in Hel as [fs ->]. eapply Forall_impl; [exact H1|]. intros. by apply var_means_mono.
Qed.

Lemma bstep_push t : forall f t' i e, pushSelectExpr t f = Ok (t', i, e) -> bstep t t'.
Proof.
  assert (forall t, bstep t (setNestLoop t)) as Hnest.
  { intros u. induction u as [m|j l IHl r IHr]; [apply bstep_refl|]. cbn [setNestLoop].
    by apply (bstep_join _ _ _ _ _ _ []); [..|rewrite app_nil_r|]. }
  assert (forall j l r l' r' c f, bstep l l' -> bstep r r' -> bstep (PJ j l r) (PJ (jsel_mod (js_col c f) j) l' r')) as Hcol.
  { intros j l r l' r' c f [Hel Hvl] [Her Hvr]. split.
    - cbn [extends]. split_and!; try done; [by eexists|exists []; simpl; by rewrite app_nil_r].
    - intros (H1 & H2 & H3). split_and!; auto. apply extends_grow in Hel as [fs ->].
      eapply Forall_impl; [exact H1|]. intros. by apply var_means_mono. }
  induction t as [m|j lt IHl rt IHr]; intros f t' i e H; cbn [pushSelectExpr] in H.
  - unfold m_pushSelectExpr in H. injection H as <- _ _. split; [|done]. split; [|done]. by eexists.
  - destruct (checkTbInNode _ (getReferTables lt)).
    + destruct (pushSelectExpr lt f) as [[[lt' k] e']| |] eqn:Hp; cbn [mbind res_bind] in H; try done.
      injection H as <- _ _. apply Hcol; [by eapply IHl|apply bstep_refl].
    + destruct (jIsLeft j && is_func _); [done|].
      destruct (pushSelectExpr rt _) as [[[rt' k] e']| |] eqn:Hp; cbn [mbind res_bind] in H; try done.
      injection H as <- _ _. apply IHr in Hp. destruct (negb _); [|by apply Hcol; [apply bstep_refl|]].
      eapply bstep_trans; [apply Hcol; [apply bstep_refl|exact Hp]|exact (Hnest (PJ _ lt rt'))].
Qed.

(** The field that was pushed. *)
Lemma pushSelectExpr_field t f t' i e : pushSelectExpr t f = Ok (t', i, e) -> i = len (node_fields t) /\
  exists g, node_fields t' = node_fields t ++ [g] /\ stInfo g = stInfo f /\ stField g = stField f /\ stIsCol g = stIsCol f.
Proof.
  intros H. pose proof (pushSelectExpr_spec _ _ _ _ _ H) as (_ & Hi & _). split; [done|]. clear Hi.
  destruct t as [m|j lt rt]; cbn [pushSelectExpr] in H.
  - unfold m_pushSelectExpr in H. injection H as <- _ _. by eexists.
  - destruct (checkTbInNode _ (getReferTables lt)).
    + destruct (pushSelectExpr lt f) as [[[lt' k] e']| |]; cbn [mbind res_bind] in H; try done. injection H as <- _ _. by eexists.
    + destruct (jIsLeft j && is_func _); [done|].
      destruct (pushSelectExpr rt _) as [[[rt' k] e']| |]; cbn [mbind res_bind] in H; try done. injection H as <- _ _.
      destruct (negb _ && _); destruct (negb _); by eexists.
Qed.

(** A column is never refused. *)
Lemma push_col_total t : forall f, is_func (stExpr f) = false -> exists t' i e, pushSelectExpr t f = Ok (t', i, e).
Proof.
  induction t as [m|j lt IHl rt IHr]; intros f Hf; cbn [pushSelectExpr].
  - eexists _, _, _. reflexivity.
  - rewrite Hf, andb_false_r. destruct (checkTbInNode _ _).
    + destruct (IHl f Hf) as (? & ? & ? & ->). eexists _, _, _. reflexivity.
    + match goal with |- context [pushSelectExpr rt ?g] => destruct (IHr g) as (? & ? & ? & ->) end; [|eexists _, _, _; reflexivity].
      destruct (_ && _); [|done]. simpl. destruct (stExpr f) as [| | ]; [|done..]. done.
Qed.

Lemma var_field_spec field table fs : forall i0 i, var_field field table fs i0 = Ok (Some i) ->
  i0 <= i /\ exists g, fs !! Z.to_nat (i - i0) = Some g /\ stIsCol g = true /\ EqualFold field (stField g) = true /\ first_table g = Ok table.
Proof.
  induction fs as [|f fs IH]; intros i0 i H; cbn [var_field] in H; [done|].
  assert (var_field field table fs (i0 + 1) = Ok (Some i) -> i0 <= i /\
    exists g, (f :: fs) !! Z.to_nat (i - i0) = Some g /\ stIsCol g = true /\ EqualFold field (stField g) = true /\ first_table g = Ok table) as Hn.
  { intros (Hi & g & Hg & Hr)%IH. split; [lia|]. exists g. split; [|done].
    replace (Z.to_nat (i - i0)) with (S (Z.to_nat (i - (i0 + 1)))) by lia. done. }
  destruct (stIsCol f && EqualFold field (stField f)) eqn:Hf; [|by apply Hn]. apply andb_true_iff in Hf as [Hc He].
  destruct (first_table f) as [tb| |] eqn:Ht; cbn [mbind res_bind] in H; try done.
  case_decide; [|by apply Hn]. injection H as <-. subst tb. split; [lia|]. exists f. by rewrite Z.sub_diag.
Qed.

(** ** Procuring *)
Section procuring.
Context `{IR : InMapRange, R : MapRange, J : JumpHash, RI : Rand, EP : ExprPrinter}.

(** The join at [p] notes the variable of the column. *)
Definition noted (t : PTree) (p : list bool) (c : ColName) : Prop :=
  exists j l r, node_at p t = Some (PJ j l r) /\ joinVar c ∈ fst <$> jsVars (jSel j).

Lemma extends_node t : forall t' p j l r, extends t t' -> node_at p t = Some (PJ j l r) ->
  exists j' l' r', node_at p t' = Some (PJ j' l' r') /\ exists vs, jsVars (jSel j') = jsVars (jSel j) ++ vs.
Proof.
  induction t as [m|j0 l0 IHl r0 IHr]; intros t' p j l r He Hp; [by destruct p as [|[] ?]|].
  destruct t' as [m'|j' l' r']; [by destruct He as [_ []]|]. destruct He as (_ & Hv & Hl & Hr).
  destruct p as [|[] p]; simpl in Hp; [|exact (IHr _ _ _ _ _ Hr Hp)|exact (IHl _ _ _ _ _ Hl Hp)].
  injection Hp as -> -> ->. by exists j', l', r'.
Qed.
Lemma noted_extends t t' p c : extends t t' -> noted t p c -> noted t' p c.
Proof.
  intros He (j & l & r & Hp & Hc). destruct (extends_node _ _ _ _ _ _ He Hp) as (j' & l' & r' & Hp' & vs & Hv).
  exists j', l', r'. split; [done|]. rewrite Hv, fmap_app. apply elem_of_app. by left.
Qed.

Lemma cache_bstep l l' : cache_fields l = Ok l' -> bstep l l'.
Proof.
  destruct l as [m|j l r]; cbn [cache_fields]; [|intros [= <-]; apply bstep_refl]. unfold m_getFields.
  destruct (spFields (mnSel m)) as [|f fs] eqn:Hf.
  - destruct (spExprs (mnSel m)); [|destruct (parseSelectExprs _ _ _) as [[]| |]]; cbn [mbind res_bind]; try done;
      intros [= <-]; (split; [|done]); (split; [|done]); eexists; simpl; by rewrite Hf.
  - cbn [mbind res_bind]. intros [= <-]. split; [|done]. split; [|done]. exists []. simpl. by rewrite Hf, app_nil_r.
Qed.

Lemma procure_spec j l r c t' : P c -> procure j l r c = Ok t' -> bstep (PJ j l r) t' /\ noted t' [] c.
Proof.
  unfold procure. intros HP H. case_decide as Hv; [apply Ok_inj in H as ->; split; [apply bstep_refl|by exists j, l, r]|].
  destruct (cache_fields l) as [l1| |] eqn:Hc; cbn [mbind res_bind] in H; try done. apply cache_bstep in Hc.
  destruct (var_field _ _ _ 0) as [o| |] eqn:Hf; cbn [mbind res_bind] in H; try done.
  assert (exists l2 i, t' = PJ (jsel_mod (js_var (joinVar c) i) j) l2 r /\ bstep l l2 /\ var_means (node_fields l2) (joinVar c, i))
    as (l2 & i & -> & Hb & Hm).
  { destruct o as [i|]; cbn [mbind res_bind] in H.
    - apply Ok_inj in H as ->. exists l1, i. split_and!; [done..|]. apply var_field_spec in Hf as (Hi & g & Hg & Hr).
      rewrite Z.sub_0_r in Hg. by exists c, g.
    - set (f := mkSelectTuple _ _ _ _ _ _ _ _) in H.
      destruct (push_col_total l1 f eq_refl) as (l2 & i & e & Hp). rewrite Hp in H. cbn [mbind res_bind] in H. apply Ok_inj in H as ->.
      exists l2, i. split_and!; [done|by eapply bstep_trans; [|by eapply bstep_push]|].
      apply pushSelectExpr_field in Hp as (-> & g & Hg & Hi & Hn & Hcol). exists c, g. unfold is_column. simpl. unfold len. split_and!; [done|done|lia| |..].
      + rewrite Hg. apply list_lookup_middle. lia.
      + by rewrite Hcol.
      + rewrite Hn. simpl. unfold EqualFold. by apply bool_decide_eq_true_2.
      + unfold first_table. by rewrite Hi. }
  split; [|eexists _, _, _; split; [done|]; simpl; rewrite fmap_app; apply elem_of_app; right; by apply list_elem_of_singleton].
  eapply bstep_join; [exact Hb|apply bstep_refl|done|done|by constructor].
Qed.

Lemma procure_at_spec t : forall p q c t', P c -> procure_at p q c t = Ok t' ->
  bstep t t' /\ exists p0, p0 `prefix_of` q /\ p0 <> q /\ noted t' p0 c.
Proof.
  induction t as [m|j l IHl r IHr]; intros p q c t' HP H; [by destruct p, q|].
  destruct p as [|a p]; [done|]. destruct q as [|b q]; [done|]. cbn [procure_at] in H. destruct (Bool.eqb a b) eqn:Hab.
  - apply eqb_prop in Hab as <-. destruct a.
    + destruct (procure_at p q c r) as [r'| |] eqn:Hp; cbn [mbind res_bind] in H; try done. apply Ok_inj in H as ->.
      apply IHr in Hp as (Hb & p0 & Hpre & Hne & Hn); [|done]. split.
      * by apply (bstep_join _ _ _ _ _ _ []); [apply bstep_refl|..|rewrite app_nil_r|].
      * exists (true :: p0). split_and!; [by apply prefix_cons|congruence|done].
    + destruct (procure_at p q c l) as [l'| |] eqn:Hp; cbn [mbind res_bind] in H; try done. apply Ok_inj in H as ->.
      apply IHl in Hp as (Hb & p0 & Hpre & Hne & Hn); [|done]. split.
      * by apply (bstep_join _ _ _ _ _ _ []); [..|apply bstep_refl| |rewrite app_nil_r|].
      * exists (false :: p0). split_and!; [by apply prefix_cons|congruence|done].
  - apply procure_spec in H as [Hb Hn]; [|done]. split; [done|]. exists []. split_and!; [apply prefix_nil|done|done].
Qed.

(** The variables a leaf prints are noted above it. *)
Definition cols_noted (t : PTree) (q : list bool) (tables : gmap string tableInfo) (cs : list ColName) : Prop :=
  forall c, c ∈ cs -> foreign tables c = true -> exists p0, p0 `prefix_of` q /\ p0 <> q /\ noted t p0 c.

Lemma cols_noted_extends t t' q tables cs : extends t t' -> cols_noted t q tables cs -> cols_noted t' q tables cs.
Proof. intros He H c Hc Hf. destruct (H c Hc Hf) as (p0 & ? & ? & Hn). exists p0. split_and!; [done..|by eapply noted_extends]. Qed.

Lemma procure_cols_spec q tables cs : (forall c, c ∈ cs -> foreign tables c = true -> P c) -> forall t t', res_fold (procure_col q tables) t cs = Ok t' ->
  bstep t t' /\ cols_noted t' q tables cs.
Proof.
  induction cs as [|c cs IH]; intros HP t t' H; cbn [res_fold] in H.
  { apply Ok_inj in H as ->. split; [apply bstep_refl|]. by intros c Hc%elem_of_nil. }
  destruct (procure_col q tables t c) as [t1| |] eqn:H1; cbn [mbind res_bind] in H; try done.
  apply IH in H as [Hb Hn]; [|intros c' Hc'; apply HP; by right]. unfold procure_col in H1. assert (bstep t t1 /\ cols_noted t1 q tables [c]) as [Hb1 Hn1].
  { destruct (foreign tables c) eqn:Hf; [|apply Ok_inj in H1 as ->; split; [apply bstep_refl|]].
    - case_decide; [|done]. apply procure_at_spec in H1 as [Hb1 Hn1]; [|by apply HP; [left|]]. split; [done|]. by intros c' ->%list_elem_of_singleton _.
    - intros c' ->%list_elem_of_singleton. by rewrite Hf. }
  split; [by eapply bstep_trans|]. intros c' [->|Hc]%elem_of_cons; [|by apply Hn].
  eapply cols_noted_extends; [apply Hb|exact Hn1|by apply list_elem_of_singleton].
Qed.

Lemma mod_at_bstep p f : forall t u, node_at p t = Some u -> bstep u (f u) -> bstep t (mod_at p f t).
Proof.
  induction p as [|[] p IH]; intros t u Hp Hf; simpl in Hp; [injection Hp as ->; by destruct u| |]; destruct t as [|j l r]; try done; cbn [mod_at].
  - by apply (bstep_join _ _ _ _ _ _ []); [apply bstep_refl|by eapply IH|..|rewrite app_nil_r|].
  - by apply (bstep_join _ _ _ _ _ _ []); [by eapply IH|apply bstep_refl|..|rewrite app_nil_r|].
Qed.
Lemma mod_at_none p f : forall t, node_at p t = None -> mod_at p f t = t.
Proof.
  induction p as [|[] p IH]; intros t Hp; [done|..]; destruct t as [|j l r]; try done; cbn [mod_at node_at] in *; by rewrite IH.
Qed.
Lemma mod_all_bstep p f t : (forall u, bstep u (f u)) -> bstep t (mod_at p f t).
Proof.
  intros Hf. destruct (node_at p t) as [u|] eqn:Hp; [by eapply mod_at_bstep|]. rewrite (mod_at_none _ _ _ Hp). apply bstep_refl.
Qed.

Lemma noTable_bstep es t : bstep t (addNoTableFilter es t).
Proof.
  destruct t as [m|j l r]; cbn [addNoTableFilter].
  - split; [|done]. split; [|done]. exists []. simpl. by rewrite m_addWheres_sel, app_nil_r.
  - by apply (bstep_join _ _ _ _ _ _ []); [apply bstep_refl|apply bstep_refl|..|simpl; rewrite app_nil_r|].
Qed.
Lemma enter_bstep t : bstep t (enter_join t).
Proof.
  destruct t as [m|j l r]; [apply bstep_refl|]. cbn [enter_join].
  apply (bstep_join _ _ _ _ _ _ []); [apply bstep_refl|apply noTable_bstep|by destruct (_ && _)|rewrite app_nil_r; by destruct (_ && _)|done].
Qed.
Lemma left_bstep t : bstep t (left_noTable t).
Proof.
  destruct t as [m|j l r]; [apply bstep_refl|]. cbn [left_noTable].
  by apply (bstep_join _ _ _ _ _ _ []); [apply noTable_bstep|apply bstep_refl|..|rewrite app_nil_r|].
Qed.

(** The columns of other nodes that the queries of a printed leaf name. *)
Definition leaf_col (qm : list bool * MNode) (c : ColName) : Prop :=
  msRouteLen (mnS (snd qm)) <> 0%nat /\ c ∈ stmt_cols (snd qm) /\ foreign (msTables (mnS (snd qm))) c = true.

(** A printed leaf: every variable in its queries is noted. *)
Definition leaf_noted (t : PTree) (qm : list bool * MNode) : Prop :=
  msRouteLen (mnS (snd qm)) <> 0%nat -> cols_noted t (fst qm) (msTables (mnS (snd qm))) (stmt_cols (snd qm)).

Lemma build_leaf_spec q t t' m : (forall c, leaf_col (q, m) c -> P c) -> build_leaf q t = Ok (t', m) ->
  bstep t t' /\ leaf_noted t' (q, m).
Proof.
  unfold build_leaf. intros HP H. destruct (node_at q t) as [[m0|]|] eqn:Hq; try done.
  assert (bstep t (mod_at q (fun _ => PM (some_select m0)) t)) as Hb.
  { eapply mod_at_bstep; [exact Hq|]. split; [|done]. split; [|done]. exists [].
    unfold some_select. simpl. destruct (spExprs _); simpl; by rewrite app_nil_r. }
  destruct (if Nat.eqb _ 0 then _ else _) as [t1| |] eqn:H1; cbn [mbind res_bind] in H; try done. injection H as <- <-.
  unfold leaf_noted. cbn [fst snd]. destruct (Nat.eqb_spec (msRouteLen (mnS (some_select m0))) 0).
  - apply Ok_inj in H1 as ->. by split.
  - apply procure_cols_spec in H1 as [Hb1 Hn]; [split; [by eapply bstep_trans|done]|].
    intros c Hc Hf. apply HP. by split_and!.
Qed.

Lemma build_tree_done shape : forall q t done t' done', build_tree shape q (t, done) = Ok (t', done') -> done `prefix_of` done'.
Proof.
  induction shape as [m|j l IHl r IHr]; intros q t done t' done' H; cbn [build_tree fst snd] in H.
  - destruct (build_leaf q t) as [[t1 m1]| |]; cbn [mbind res_bind fst snd] in H; try done. injection H as <- <-. by eexists.
  - destruct (build_tree r _ _) as [[t1 d1]| |] eqn:Hr; cbn [mbind res_bind fst snd] in H; try done.
    apply IHr in Hr. apply IHl in H. by etrans.
Qed.

Lemma build_tree_spec shape : forall q t done t' done', (forall qm c, qm ∈ done' -> leaf_col qm c -> P c) ->
  build_tree shape q (t, done) = Ok (t', done') ->
  bstep t t' /\ exists new, done' = done ++ new /\ Forall (leaf_noted t') new.
Proof.
  induction shape as [m|j l IHl r IHr]; intros q t done t' done' HP H; cbn [build_tree fst snd] in H.
  - destruct (build_leaf q t) as [[t1 m1]| |] eqn:Hl; cbn [mbind res_bind fst snd] in H; try done. injection H as <- <-.
    apply build_leaf_spec in Hl as [Hb Hn]; [split; [done|]; exists [(q, m1)]; split; [done|by constructor]|].
    intros c. apply HP, elem_of_app. right. by left.
  - destruct (build_tree r _ _) as [[t1 d1]| |] eqn:Hr; cbn [mbind res_bind fst snd] in H; try done.
    pose proof (build_tree_done _ _ _ _ _ _ H) as [n Hpre].
    apply IHr in Hr as (Hb1 & n1 & -> & Hn1); [|intros qm c Hqm; apply HP; rewrite Hpre; apply elem_of_app; by left].
    apply IHl in H as (Hb2 & n2 & -> & Hn2); [|done].
    assert (bstep t1 t') as Hb by (eapply bstep_trans; [apply (mod_all_bstep q), left_bstep|exact Hb2]). split.
    + eapply bstep_trans; [apply (mod_all_bstep q), enter_bstep|]. by eapply bstep_trans.
    + exists (n1 ++ n2). rewrite app_assoc. split; [done|]. apply Forall_app. split; [|done].
      eapply Forall_impl; [exact Hn1|]. intros x Hx Hne. eapply cols_noted_extends; [apply Hb|by apply Hx].
Qed.

Lemma vars_ok_at t : forall p j l r, vars_ok t -> node_at p t = Some (PJ j l r) ->
  Forall (var_means (node_fields l)) (jsVars (jSel j)).
Proof.
  induction t as [m|j0 l0 IHl r0 IHr]; intros p j l r Hv Hp; [by destruct p as [|[] ?]|].
  destruct Hv as (H0 & Hl & Hr). destruct p as [|[] p]; simpl in Hp; [|by eapply IHr|by eapply IHl].
  by injection Hp as -> -> ->.
Qed.
End procuring.
End variables.

(** ** Before the queries are built no variable is noted *)
Definition no_vars (t : PTree) : Prop := Forall (eq []) (vars_of t).

Lemma no_vars_join j l r : no_vars (PJ j l r) <-> jsVars (jSel j) = [] /\ no_vars l /\ no_vars r.
Proof. unfold no_vars. cbn [vars_of]. rewrite Forall_cons, Forall_app. intuition congruence. Qed.
Lemma no_vars_ok P t : no_vars t -> vars_ok P t.
Proof. induction t as [m|j l IHl r IHr]; [done|]. rewrite no_vars_join. intros (Hj & Hl & Hr). simpl. rewrite Hj. auto. Qed.
Lemma planned_no_vars b t : planned b t -> no_vars t.
Proof.
  induction t as [m|j l IHl r IHr]; [by constructor|]. intros (Hj & _ & Hl & Hr). apply no_vars_join. rewrite Hj. auto.
Qed.

Lemma jstep_vars t t' : jstep t t' -> vars_of t' = vars_of t.
Proof.
  destruct t as [m|j l r], t' as [m'|j' l' r']; cbn [jstep]; try done. intros (Hl & Hr & (_ & Hv) & _).
  simpl. by rewrite Hv, (st_vars _ _ Hl), (st_vars _ _ Hr).
Qed.

Section no_variables.
Context `{IR : InMapRange, R : MapRange, J : JumpHash, RI : Rand, EP : ExprPrinter}.

Lemma handle_others_vars fuel : forall t t', handle_others fuel t = Ok t' -> vars_of t' = vars_of t.
Proof.
  induction fuel as [|fuel IH]; intros t t' H; destruct t as [m|j l r]; try done; try (cbn [handle_others] in H; by injection H as <-).
  cbn [handle_others] in H. destruct (pushNullExprs _) as [t1| |] eqn:H1; cbn [mbind res_bind] in H; try done.
  destruct (pushOthers t1) as [t2| |] eqn:H2; cbn [mbind res_bind] in H; try done.
  rewrite <- (jstep_vars _ _ (jstep_trans _ _ _ (pushNull_jstep _ _ H1) (pushOthers_jstep _ _ H2))).
  destruct t2 as [m2|j2 l2 r2]; [by injection H as <-|].
  destruct (handle_others fuel l2) as [l3| |] eqn:Hl2; cbn [mbind res_bind] in H; try done.
  destruct (handle_others fuel r2) as [r3| |] eqn:Hr2; cbn [mbind res_bind] in H; try done. injection H as <-.
  simpl. by rewrite (IH _ _ Hl2), (IH _ _ Hr2).
Qed.

Lemma handleJoinOn_vars t : forall t', handleJoinOn t = Ok t' -> vars_of t' = vars_of t.
Proof.
  induction t as [m|j l IHl r IHr]; intros t' H; cbn [handleJoinOn] in H; [by injection H as <-|].
  destruct (handleJoinOn l) as [l1| |]; cbn [mbind res_bind] in H; try done.
  destruct (handleJoinOn r) as [r1| |]; cbn [mbind res_bind] in H; try done.
  rewrite (jstep_vars (PJ j l1 r1) t') by (eapply jstep_fold; [apply push_on_jstep|exact H]).
  simpl. by rewrite (IHl _ eq_refl), (IHr _ eq_refl).
Qed.

Lemma j_pushSelectExprs_vars t fields groups exprs aggTyp t' :
  j_pushSelectExprs t fields groups exprs aggTyp = Ok t' -> vars_of t' = vars_of t.
Proof.
  unfold j_pushSelectExprs. intros H. rewrite <- (st_vars _ _ (reOrder_steps t 0)).
  destruct (reOrder 0 t) as [|j l r]; [done|].
  destruct (match groups with [] => _ | _ => _ end) as [[t1 fs]| |] eqn:Hx; cbn [mbind res_bind] in H; try done.
  assert (vars_of t1 = vars_of (PJ j l r)) as <-.
  { destruct (AggregatePlan_Build exprs fields groups false) as [[[plan ?] tuples]| |];
      destruct groups, aggTyp; cbn [mbind res_bind snd] in *; try done; by injection Hx as <- <-. }
  destruct (res_fold push_field t1 fs) as [t2| |] eqn:H2; cbn [mbind res_bind] in H; try done.
  destruct (handleOthers t2) as [t3| |] eqn:H3; cbn [mbind res_bind] in H; try done.
  rewrite (handleJoinOn_vars _ _ H), (handle_others_vars _ _ _ H3). clear -H2. revert t1 H2.
  induction fs as [|f fs IH]; intros t1 H2; cbn [res_fold] in H2; [by injection H2 as <-|].
  destruct (push_field t1 f) as [t0| |] eqn:Hf; cbn [mbind res_bind] in H2; try done. rewrite (IH _ H2).
  unfold push_field in Hf. destruct (pushSelectExpr t1 f) as [[[t4 i] e]| |] eqn:Hp; cbn [mbind res_bind fst] in Hf; try done.
  apply Ok_inj in Hf as ->. apply pushSelectExpr_spec in Hp as [Hp _]. by apply st_vars.
Qed.

Lemma having_vars t h t' : pushHaving t h = Ok t' -> vars_of t' = vars_of t.
Proof.
  assert (forall e t, vars_of (having_everywhere e t) = vars_of t) as He by (intros e u; induction u; simpl; congruence).
  assert (forall k f t, vars_of (leaf_mod k f t) = vars_of t) as Hl.
  { intros k f u. induction u as [m|j l IHl r IHr]; [done|]. cbn [leaf_mod]. destruct (bool_decide _); simpl; congruence. }
  unfold pushHaving. destruct t as [m|j l r]; [by intros [= <-]|].
  destruct (eiReferTables h) as [|tb tbs]; [intros H; apply Ok_inj in H as ->; apply He|].
  destruct (checkTbInNode _ _); [|done]. destruct (forallb _ _); [intros H; apply Ok_inj in H as ->; apply Hl|].
  destruct (jStrategy j); try done; intros H; apply Ok_inj in H as ->; apply Hl.
Qed.

Lemma fold_vars {A} (f : PTree -> A -> res perr PTree) xs : forall t t',
  (forall t x t', f t x = Ok t' -> vars_of t' = vars_of t) -> res_fold f t xs = Ok t' -> vars_of t' = vars_of t.
Proof.
  induction xs as [|x xs IH]; intros t t' Hf H; cbn [res_fold] in H; [by injection H as <-|].
  destruct (f t x) as [t1| |] eqn:H1; cbn [mbind res_bind] in H; try done. rewrite (IH _ _ Hf H). eauto.
Qed.

Lemma pushHavings_vars t e t' : pushHavings t e = Ok t' -> vars_of t' = vars_of t.
Proof.
  unfold pushHavings. destruct (t_getFields t); cbn [mbind res_bind]; try done.
  destruct (parseHaving _ _); cbn [mbind res_bind]; try done. apply fold_vars, having_vars.
Qed.

Lemma order_step_vars t p o t' p' : order_step (t, p) o = Ok (t', p') -> vars_of t' = vars_of t.
Proof.
  unfold order_step. intros H. destruct (orExpr o) as [| | | | | |c| | | |]; try done. destruct (negb _ && _); [done|].
  destruct (t_getFields t); cbn [mbind res_bind] in H; try done. destruct (checkInTuple _ _ _) as [[g|]| |]; cbn [mbind res_bind] in H; try done.
  - by injection H as <- _.
  - destruct (if decide _ then _ else _) as [tb| |]; cbn [mbind res_bind] in H; try done.
    destruct (pushSelectExpr t _) as [[[t1 i] e]| |] eqn:Hp; cbn [mbind res_bind] in H; try done; injection H as <- _; [|done].
    apply pushSelectExpr_spec in Hp as [Hp _]. by apply st_vars.
Qed.

Lemma add_child_vars c t : vars_of (add_child c t) = vars_of t.
Proof. by destruct t. Qed.

Lemma order_vars t os t' : t_orderPlan t os = Ok t' -> vars_of t' = vars_of t.
Proof.
  unfold t_orderPlan, OrderByPlan_Build. generalize (mkOrderByPlan [] []). revert t.
  induction os as [|o os IH]; intros t p H; cbn [res_fold mbind res_bind fst snd] in H; [apply Ok_inj in H as ->; apply add_child_vars|].
  destruct (order_step (t, p) o) as [[t1 p1]| |] eqn:Ho; cbn [mbind res_bind] in H; try done.
  rewrite (IH _ _ H). by eapply order_step_vars.
Qed.

Lemma pushOrderBy_vars t os t' : pushOrderBy t os = Ok t' -> vars_of t' = vars_of t.
Proof. unfold pushOrderBy. intros H. rewrite (order_vars _ _ _ H). by destruct t. Qed.

Lemma pushLimit_vars t l t' : pushLimit t l = Ok t' -> vars_of t' = vars_of t.
Proof.
  unfold pushLimit. destruct (LimitPlan_Build _) as [p| |]; cbn [mbind res_bind]; try done. intros H. apply Ok_inj in H as ->.
  destruct t as [m|j l' r']; cbn [add_child]; [|done]. by destruct (spGroupBy _), (lpReWritten p).
Qed.

Lemma processSelect_vars r db node t : processSelect r db node = Ok t -> no_vars t.
Proof.
  intros H. unfold processSelect in H. destruct (scanTableExprs r db (seFrom node)) as [t0| |] eqn:H0; cbn [mbind res_bind] in H; try done.
  destruct (plan_where r t0 (seWhere node)) as [t1| |] eqn:H1; cbn [mbind res_bind] in H; try done.
  assert (no_vars t1) as Hn.
  { apply (planned_no_vars false). apply (plan_from_planned false r db (seFrom node) (seWhere node)); [done|].
    unfold plan_from. rewrite H0. exact H1. }
  destruct (match t1 with PM _ => _ | _ => _ end) as [m|].
  { destruct (res_fold _ _ _); cbn [mbind res_bind] in H; try done. apply Ok_inj in H as ->. by constructor. }
  destruct (parseSelectExprs _ _ _) as [[fields agg]| |]; cbn [mbind res_bind] in H; try done.
  destruct (checkGroupBy _ _ _ _) as [groups| |]; cbn [mbind res_bind] in H; try done.
  destruct (checkDistinct _ _ _ _ _) as [[gs nd]| |]; cbn [mbind res_bind] in H; try done.
  destruct (match t1 with PM _ => _ | _ => _ end) as [t2| |] eqn:H2; cbn [mbind res_bind] in H; try done.
  assert (vars_of t2 = vars_of t1) as E2.
  { destruct t1 as [m|]; [|by eapply j_pushSelectExprs_vars]. unfold m_pushSelectExprs in H2. set (os := spOrderBy _ ++ _) in H2.
    clearbody os. destruct (AggregatePlan_Build _ _ _ _) as [[[plan exprs] tuples]| |];
      destruct (seGroupBy nd), gs, agg, os; cbn [mbind res_bind] in H2; try done;
      try (apply Ok_inj in H2 as ->; by rewrite ?add_child_vars); by apply order_vars in H2. }
  destruct (match seHaving nd with Some _ => _ | None => _ end) as [t3| |] eqn:H3; cbn [mbind res_bind] in H; try done.
  destruct (match seOrderBy nd with [] => _ | _ => _ end) as [t4| |] eqn:H4; cbn [mbind res_bind] in H; try done.
  assert (vars_of t3 = vars_of t2) as E3 by (destruct (seHaving nd); [by eapply pushHavings_vars|by injection H3 as <-]).
  assert (vars_of t4 = vars_of t3) as E4 by (destruct (seOrderBy nd); [by injection H4 as <-|by eapply pushOrderBy_vars]).
  assert (vars_of t = vars_of t4) as E5 by (destruct (seLimit nd); [by eapply pushLimit_vars|by injection H as <-]).
  unfold no_vars in *. by rewrite E5, E4, E3, E2.
Qed.
End no_variables.

(** The names of the variables tell the columns of other nodes that the leaves
    name apart. *)
Definition names_apart (leaves : list (list bool * MNode)) : Prop :=
  forall q1 c1 q2 c2, q1 ∈ leaves -> leaf_col q1 c1 -> q2 ∈ leaves -> leaf_col q2 c2 -> joinVar c1 = joinVar c2 ->
    cnName c1 = cnName c2 /\ tnName (cnQualifier c1) = tnName (cnQualifier c2).

(** The column [c] that a query of the leaf at [q] names is bound: a join above
    the leaf notes its variable, at a position of the left side's fields that
    holds this column. *)
Definition bound_above (t : PTree) (q : list bool) (c : ColName) : Prop :=
  exists p j l r i g, p `prefix_of` q /\ p <> q /\ node_at p t = Some (PJ j l r) /\ (joinVar c, i) ∈ jsVars (jSel j) /\
    0 <= i /\ node_fields l !! Z.to_nat i = Some g /\ is_column g c.

(** C17: The join variables of a SELECT are bound.  When the queries of a plan
    are built and no two different columns that the leaves name get the same
    variable name (for [a.b_c] and [a_b.c] they do, [variable_names_collide]),
    every column of another node that a leaf's queries name is noted as a join
    variable by a join above that leaf, at a position of the fields of its left
    side that holds the column of that table and name. *)
Theorem join_variables_bound `{IR : InMapRange, R : MapRange, J : JumpHash, RI : Rand, EP : ExprPrinter} r db node t t' leaves :
  processSelect r db node = Ok t -> build_tree t [] (t, []) = Ok (t', leaves) -> names_apart leaves ->
  forall qm c, qm ∈ leaves -> leaf_col qm c -> bound_above t' (fst qm) c.
Proof.
  intros Hp Hb Hap qm c Hqm Hc.
  set (P := fun c => exists q, q ∈ leaves /\ leaf_col q c).
  destruct (build_tree_spec P t [] t [] t' leaves) as ([_ Hok] & new & Hnew & Hn); [by unfold P; eauto|done|].
  simpl in Hnew. subst new. apply processSelect_vars, (no_vars_ok P) in Hp.
  rewrite Forall_forall in Hn. pose proof Hc as (Hlen & Hin & Hf).
  destruct (Hn qm Hqm Hlen c Hin Hf) as (p & Hpre & Hne & j & l & r' & Hat & ([v i] & Hv & Hvi)%list_elem_of_fmap).
  pose proof (vars_ok_at _ _ _ _ _ _ (Hok Hp) Hat) as Hm. rewrite Forall_forall in Hm.
  destruct (Hm _ Hvi) as (c' & g & (q' & Hq' & Hc') & Hv' & Hi & Hg & Hcol). simpl in *.
  destruct (Hap qm c q' c' Hqm Hc Hq' Hc') as [En Et]; [congruence|].
  exists p, j, l, r', i, g. split_and!; [done|done|done|by rewrite Hv|done|done|]. unfold is_column in *. by rewrite En, Et.
Qed.

(** ** Examples *)
#[local] Existing Instance mod_jump.

Definition select_ (exprs : list Expr) (from : list TableRef) (where_ : option Expr) (by_ : list Expr) : Select :=
  mkSelect "" ((fun e => AliasedExpr e "") <$> exprs) from where_ by_ None [] None.

(** [select t.a + u.a from t join u on t.a = u.b] *)
Definition ex_cross : Select := select_ [plus_ (tcol "t" "a") (tcol "u" "a")] ex_from None [].

(** The columns that the leaves name, as a list. *)
Definition leaf_cols (qm : list bool * MNode) : list ColName :=
  if decide (msRouteLen (mnS (snd qm)) = 0%nat) then []
  else filter (fun c => foreign (msTables (mnS (snd qm))) c = true) (stmt_cols (snd qm)).

Lemma leaf_cols_spec qm c : leaf_col qm c <-> c ∈ leaf_cols qm.
Proof.
  unfold leaf_col, leaf_cols. case_decide; [split; [tauto|by intros ?%not_elem_of_nil]|].
  rewrite list_elem_of_filter. tauto.
Qed.

Lemma join_variables_bound_witness :
  exists t t' leaves, processSelect join_router "db" ex_cross = Ok t /\ build_tree t [] (t, []) = Ok (t', leaves) /\
    vars_of t' = [[("t_a", 0)]] /\ mjoin (leaf_cols <$> leaves) = [qcol "t" "a"; qcol "t" "a"] /\
    forall qm, qm ∈ leaves -> leaf_col qm (qcol "t" "a") -> bound_above t' (fst qm) (qcol "t" "a").
Proof.
  assert (exists t t' leaves, processSelect join_router "db" ex_cross = Ok t /\ build_tree t [] (t, []) = Ok (t', leaves) /\
    vars_of t' = [[("t_a", 0)]] /\ mjoin (leaf_cols <$> leaves) = [qcol "t" "a"; qcol "t" "a"]) as (t & t' & leaves & H1 & H2 & H3 & H4).
  { eexists _, _, _. split; [vm_compute; reflexivity|]. split; [vm_compute; reflexivity|]. split; vm_compute; reflexivity. }
  exists t, t', leaves. split_and!; [done..|].
  assert (forall q c, q ∈ leaves -> leaf_col q c -> c = qcol "t" "a") as Hc.
  { intros q c Hq Hc%leaf_cols_spec. assert (c ∈ mjoin (leaf_cols <$> leaves)) as Hin.
    { apply list_elem_of_join. exists (leaf_cols q). split; [done|]. by apply list_elem_of_fmap_2. }
    rewrite H4 in Hin. by apply elem_of_cons in Hin as [-> | ->%list_elem_of_singleton]. }
  intros qm Hqm. apply (join_variables_bound join_router "db" ex_cross t t' leaves H1 H2); [|done].
  intros q1 c1 q2 c2 Hq1 Hc1 Hq2 Hc2 _. rewrite (Hc _ _ Hq1 Hc1), (Hc _ _ Hq2 Hc2). split; reflexivity.
Defined.

(** The name of a variable does not tell the table from the column: for [t as a]
    with column b_c and [t as a_b] with column c it is the same, and the second
    column is read where the first was noted. *)
Definition as_ (t a : string) : TableRef := TRTable (mkTableName t "") a.
Theorem variable_names_collide :
  exists t t' leaves j l r,
    processSelect join_router "db"
      (select_ [plus_ (tcol "a" "b_c") (tcol "u" "a"); plus_ (tcol "a_b" "c") (tcol "u" "a")]
         [TRJoin (TRParen [TRJoin (as_ "t" "a") JoinStr (as_ "t" "a_b") (Some (eq_ (tcol "a" "id") (tcol "a_b" "id")))])
            JoinStr (ref "u") (Some (eq_ (tcol "a" "c") (tcol "u" "b")))] None []) = Ok t /\
    build_tree t [] (t, []) = Ok (t', leaves) /\ t' = PJ j l r /\
    jsVars (jSel j) = [("a_b_c", 0); ("a_c", 1)] /\ field_expr <$> node_fields l = [Some (tcol "a" "b_c"); Some (tcol "a" "c")].
Proof.
  eexists _, _, _, _, _, _. split; [vm_compute; reflexivity|]. split; [vm_compute; reflexivity|]. split; [reflexivity|].
  split; vm_compute; reflexivity.
Qed.

(** A union that was merged into a node of global tables still counts as one:
    [(select from g union select from t where id = 7) union select from t where
    id = 12] goes as a whole to the backend of the last part. *)
Theorem merged_union_wrong_backend :
  let part := fun k => StSelect (select_ [tcol "t" "a"] [ref "t"] (Some (eq_ (tcol "t" "id") (int_ k))) []) in
  exists b1 b2 m1 m2 s mode u,
    processPart join_router "db" (part "7") = Ok (NTree (PM m1)) /\ msBackend (mnS m1) = b1 /\
    processPart join_router "db" (part "12") = Ok (NTree (PM m2)) /\ msBackend (mnS m2) = b2 /\ b1 <> b2 /\
    processPart join_router "db"
      (StUnion "union" (StUnion "union" (StSelect (select_ [tcol "g" "a"] [ref "g"] None [])) (part "7") [] None) (part "12") [] None)
    = Ok (NSingle s mode u) /\ msBackend s = b2.
Proof.
  eexists _, _, _, _, _, _, _. split; [vm_compute; reflexivity|]. split; [reflexivity|]. split; [vm_compute; reflexivity|].
  split; [reflexivity|]. split; [vm_compute; discriminate|]. split; vm_compute; reflexivity.
Qed.

(** GROUP BY on the shard key of the right table of a left join is left to the
    shards, although its NULL group has rows in all of them: [select w.id,
    count(1) from t left join t as w on t.id = w.id group by w.id]. *)
Theorem left_join_group_split :
  exists m, processSelect join_router "db"
      (mkSelect "" [AliasedExpr (tcol "w" "id") ""; AliasedExpr (FuncExpr "count" false [AliasedExpr (int_ "1") ""]) ""]
         [left_ (ref "t") (as_ "t" "w") (eq_ (tcol "t" "id") (tcol "w" "id"))] None [tcol "w" "id"] None [] None)
    = Ok (PM m) /\ (1 < msRouteLen (mnS m))%nat /\
    spChildren (mnSel m) = [ChildOrderby (mkOrderByPlan [] [mkOrderBy "id" "w" ASC])].
Proof. eexists. split; [vm_compute; reflexivity|]. split; [vm_compute; lia|vm_compute; reflexivity]. Qed.
