(* ===== verification/PlanDdl.v ===== *)
(** * DDL and maintenance statements (src/planner/ddl_plan.go, src/planner/others_plan.go, src/optimizer/simple_optimizer.go)

    A DDL statement on a table becomes one statement per partition table; the
    tree is copied and its table names replaced. *)
From S2P Require Import Prelude GoStd Config Xcontext Partition Compute Router Sql PlanExpr PlanDml.
Open Scope string_scope.
Open Scope list_scope.
Open Scope Z_scope.

(** ** Statements *)

(** [sqlparser.ColumnDefinition] and [sqlparser.IndexDefinition], the parts that are read. *)
Record ColumnDef := mkColumnDef { cdName : string; cdType : string; cdPrimary : bool; cdUnique : bool; cdAutoinc : bool }.
Record IndexDef := mkIndexDef { idUnique : bool; idPrimary : bool; idColumns : list string }.
Record TableSpec := mkTableSpec { tsColumns : list ColumnDef; tsIndexes : list IndexDef; tsEngine : string }.

(** [sqlparser.PartitionOption] *)
Inductive PartOption :=
| PartOptHash (Name : string) (PartitionNum : option SQLVal)
| PartOptList (Name : string) (PartDefs : list PartitionDefinition)
| PartOptNormal
| PartOptGlobal
| PartOptSingle (BackendName : string)
| PartOptNone.

Inductive DDLAction :=
| CreateDBStr | DropDBStr | AlterDatabase | CreateTableStr | DropTableStr | RenameStr
| CreateIndexStr | DropIndexStr | AlterEngineStr | AlterCharsetStr | AlterAddColumnStr | AlterDropColumnStr
| AlterModifyColumnStr | TruncateTableStr | OtherAction (s : string).

(** [sqlparser.DDL] *)
Record DDL := mkDDL {
  dAction : DDLAction; dTable : TableName; dNewName : TableName; dTables : list TableName; dDatabase : string;
  dIfExists : bool; dIfNotExists : bool; dSpec : option TableSpec; dPart : PartOption; dDropColumn : string;
  dModifyColumn : option ColumnDef
}.
Definition set_dTable (t : TableName) (d : DDL) : DDL :=
  mkDDL (dAction d) t (dNewName d) (dTables d) (dDatabase d) (dIfExists d) (dIfNotExists d) (dSpec d) (dPart d) (dDropColumn d) (dModifyColumn d).
Definition set_dNewName (t : TableName) (d : DDL) : DDL :=
  mkDDL (dAction d) (dTable d) t (dTables d) (dDatabase d) (dIfExists d) (dIfNotExists d) (dSpec d) (dPart d) (dDropColumn d) (dModifyColumn d).
Definition set_dTables (l : list TableName) (d : DDL) : DDL :=
  mkDDL (dAction d) (dTable d) (dNewName d) l (dDatabase d) (dIfExists d) (dIfNotExists d) (dSpec d) (dPart d) (dDropColumn d) (dModifyColumn d).

Definition set_dSpec (x : TableSpec) (d : DDL) : DDL :=
  mkDDL (dAction d) (dTable d) (dNewName d) (dTables d) (dDatabase d) (dIfExists d) (dIfNotExists d) (Some x) (dPart d) (dDropColumn d) (dModifyColumn d).
Definition set_dDatabase (x : string) (d : DDL) : DDL :=
  mkDDL (dAction d) (dTable d) (dNewName d) (dTables d) x (dIfExists d) (dIfNotExists d) (dSpec d) (dPart d) (dDropColumn d) (dModifyColumn d).

(** The statements of [OthersPlan], with their first table. *)
Inductive OtherKind := Checksum | Optimize | Check_.
Record OtherStmt := mkOther { oKind : OtherKind; oTable : TableName }.

(** The text of the statements. *)
Class DdlPrinter := { String_DDL : DDL -> string; String_Other : OtherStmt -> string }.

(** Errors of the checks. *)
Inductive derr := DPlan (e : perr) | DDropKey | DModifyKey | DConstraint (key : string) | DRenameDB (from to : string) | DMethod (m : string).
Definition of_plan {A} (r : res perr A) : res derr A := match r with Ok a => Ok a | Err e => Err (DPlan e) | Panic => Panic end.

Section ddl.
Context `{J : JumpHash, DP : DdlPrinter}.

Definition ddl_database (database : string) (t : TableName) : string :=
  if decide (tnQualifier t = "") then database else tnQualifier t.

(** [checkUnsupportedOperations]; a missing definition is a nil dereference. *)
Definition checkUnsupportedOperations (r : Router) (node : DDL) (database table : string) : res derr unit :=
  shardKey ← of_plan (of_router (ShardKey r database table));
  if decide (shardKey = "") then Ok tt
  else match dAction node with
       | AlterDropColumnStr => if EqualFold shardKey (dDropColumn node) then Err DDropKey else Ok tt
       | AlterModifyColumnStr =>
           match dModifyColumn node with
           | None => Panic
           | Some c =>
               if EqualString (cdName c) shardKey then Err DModifyKey
               else if cdPrimary c || cdUnique c then Err (DConstraint shardKey) else Ok tt
           end
       | AlterAddColumnStr =>
           match dSpec node with
           | None => Panic
           | Some s =>
               if existsb (fun c => cdPrimary c || cdUnique c) (tsColumns s) then Err (DConstraint shardKey)
               else if existsb (fun i => idUnique i || idPrimary i) (tsIndexes s) then Err (DConstraint shardKey) else Ok tt
           end
       | _ => Ok tt
       end.

(** One segment of [commonImpl]. *)
Definition common_query (node : DDL) (database : string) (sg : Segment) : res derr QueryTuple :=
  let t := mkTableName (sgTable sg) database in
  of_plan (segment_tuple (String_DDL (set_dNewName t (set_dTable t node))) sg).

(** [commonImpl] *)
Definition commonImpl (r : Router) (database : string) (node : DDL) : res derr (list QueryTuple) :=
  let table := tnName (dTable node) in
  let database := ddl_database database (dTable node) in
  _ ← checkUnsupportedOperations r node database table;
  segments ← of_plan (of_router (Lookup r database table None None));
  res_map (common_query node database) segments.

(** [dropTblImpl] *)
Definition drop_query (node : DDL) (database : string) (sg : Segment) : res derr QueryTuple :=
  of_plan (segment_tuple (String_DDL (set_dTables [mkTableName (sgTable sg) database] node)) sg).
Definition dropTblImpl (r : Router) (database : string) (node : DDL) : res derr (list QueryTuple) :=
  let database := ddl_database database (dTable node) in
  segments ← of_plan (of_router (Lookup r database (tnName (dTable node)) None None));
  res_map (drop_query node database) segments.

(** The new name of a partition table: the last part of its old name stays. *)
Definition rename_to (shardKey toTable partition : string) : string :=
  if decide (shardKey = "") then toTable else toTable +:+ "_" +:+ List.last (Split "_" partition) "".

(** One segment of [renameImpl]. *)
Definition rename_query (r : Router) (node : DDL) (database : string) (sg : Segment) : res derr QueryTuple :=
  shardKey ← of_plan (of_router (ShardKey r database (tnName (dTable node))));
  let to := rename_to shardKey (tnName (dNewName node)) (sgTable sg) in
  of_plan (segment_tuple (String_DDL (set_dNewName (mkTableName to database) (set_dTable (mkTableName (sgTable sg) database) node))) sg).

(** [renameImpl] *)
Definition renameImpl (r : Router) (database : string) (node : DDL) : res derr (list QueryTuple) :=
  let fromDatabase := ddl_database database (dTable node) in
  let toDatabase := tnQualifier (dNewName node) in
  if negb (bool_decide (toDatabase = "")) && negb (bool_decide (toDatabase = fromDatabase)) then Err (DRenameDB fromDatabase toDatabase)
  else
    segments ← of_plan (of_router (Lookup r fromDatabase (tnName (dTable node)) None None));
    res_map (rename_query r node fromDatabase) segments.

(** [DDLPlan.Build] *)
Definition DDLPlan_Build (r : Router) (database : string) (node : DDL) : res derr (list QueryTuple) :=
  match dAction node with
  | DropTableStr => dropTblImpl r database node
  | RenameStr => renameImpl r database node
  | _ => commonImpl r database node
  end.

(** ** OthersPlan *)
Definition partition_query (kind : OtherKind) (database : string) (p : PartitionConfig) : QueryTuple :=
  mkQueryTuple (String_Other (mkOther kind (mkTableName (pcTable p) database))) (pcBackend p) (pcSegment p).

(** [OthersPlan.Build] *)
Definition OthersPlan_Build (r : Router) (database : string) (node : OtherStmt) : res derr (list QueryTuple) :=
  let database := ddl_database database (oTable node) in
  let table := tnName (oTable node) in
  route ← of_plan (of_router (TableConfigOf r database table));
  match oKind node with
  | Checksum =>
      m ← of_plan (of_router (PartitionType r database table));
      if decide (m = MethodTypeGlobal \/ m = MethodTypeSingle) then
        match tcPartitions route with
        | [] => Panic
        | p :: _ => Ok [mkQueryTuple (String_Other (mkOther Checksum (mkTableName table database))) (pcBackend p) (pcSegment p)]
        end
      else if decide (m = MethodTypeHash \/ m = MethodTypeList) then Ok (partition_query Checksum database <$> tcPartitions route)
      else Err (DMethod m)
  | k => Ok (partition_query k database <$> tcPartitions route)
  end.
End ddl.
