(* ===== verification/ProxyDdl.v ===== *)
(** * DDL in the proxy (src/proxy/ddl.go, src/plugins/autoincrement/handler.go)

    [handleDDL] keeps the router's tables and the tables on the backends in
    step: it changes the router, sends the statements of the plan, and undoes or
    completes the change by the outcome. *)
From S2P Require Import Prelude GoStd Config Xcontext Partition Compute Router Frm Sql PlanExpr PlanDml PlanDdl.
Open Scope string_scope.
Open Scope list_scope.
Open Scope Z_scope.

Inductive herr :=
| HRouter (e : rerr) | HPlan (e : derr) | HExec | HDenied (db : string) | HInTxn
| HEngine (e : string) | HDual | HNoKey | HKeyMissing (key : string) | HConstraint (key : string) | HAutoType (t : string)
| HBackend (b : string) | HNoSuchTable (t : string) | HTableExists (t : string) | HUnsupported.

(** What is sent: the queries of a plan, or a statement for every backend. *)
Inductive Sent := SentPlan (qs : list QueryTuple) | SentAll (query : string).

(** The state a DDL works on: the router, what was sent, the outcomes of the
    executions to come (they succeed once the list is exhausted), and whether
    the session is inside a multi-statement transaction of two-phase commit. *)
Record DdlSt := mkDdlSt { dsRouter : Router; dsSent : list Sent; dsOut : list bool; dsInTxn : bool }.
Abbreviation HM := (M DdlSt herr).

Definition in_router {A} (m : RM A) : HM A := fun s =>
  match m (dsRouter s) with
  | (Ok a, r) => (Ok a, mkDdlSt r (dsSent s) (dsOut s) (dsInTxn s))
  | (Err e, r) => (Err (HRouter e), mkDdlSt r (dsSent s) (dsOut s) (dsInTxn s))
  | (Panic, r) => (Panic, mkDdlSt r (dsSent s) (dsOut s) (dsInTxn s))
  end.
Definition send (x : Sent) : HM unit := fun s =>
  match dsOut s with
  | [] => (Ok tt, mkDdlSt (dsRouter s) (dsSent s ++ [x]) [] (dsInTxn s))
  | b :: out => (if (b : bool) then Ok tt else Err HExec, mkDdlSt (dsRouter s) (dsSent s ++ [x]) out (dsInTxn s))
  end.
Definition of_ddl {A} (r : res derr A) : res herr A := match r with Ok a => Ok a | Err e => Err (HPlan e) | Panic => Panic end.

(** [checkEngine]: the table specification with the default engine. *)
Definition checkEngine (s : TableSpec) : res herr TableSpec :=
  if decide (tsEngine s = "") then Ok (mkTableSpec (tsColumns s) (tsIndexes s) "InnoDB")
  else if decide (ToLower (tsEngine s) = "innodb" \/ ToLower (tsEngine s) = "tokudb") then Ok s
  else Err (HEngine (tsEngine s)).

(** [checkShardKey] *)
Definition checkShardKey (s : TableSpec) (shardKey : string) : res herr unit :=
  if negb (existsb (fun c => EqualString (cdName c) shardKey) (tsColumns s)) then Err (HKeyMissing shardKey)
  else if existsb (fun c => negb (EqualString (cdName c) shardKey) && (cdPrimary c || cdUnique c)) (tsColumns s)
  then Err (HConstraint shardKey)
  else if existsb (fun i => (idUnique i || idPrimary i) && negb (existsb (fun c => EqualString c shardKey) (idColumns i))) (tsIndexes s)
  then Err (HConstraint shardKey)
  else Ok tt.

(** [tryGetShardKey]; [index.Opts.Columns[0]] of an index without columns panics. *)
Definition tryGetShardKey (node : DDL) (s : TableSpec) : res herr string :=
  if decide (tnName (dTable node) = "dual") then Err HDual
  else
    let with_key (k : string) : res herr string := _ ← checkShardKey s k; Ok k in
    match dPart node with
    | PartOptHash name _ | PartOptList name _ => with_key (ToLower name)
    | PartOptNormal =>
        match List.find (fun c => cdPrimary c || cdUnique c) (tsColumns s) with
        | Some c => with_key (ToLower (cdName c))
        | None =>
            match List.find (fun i => idUnique i || idPrimary i) (tsIndexes s) with
            | Some i => match idColumns i with c :: _ => with_key (ToLower c) | [] => Panic end
            | None => Err HNoKey
            end
        end
    | PartOptGlobal | PartOptSingle _ => Ok ""
    | PartOptNone => with_key ""
    end.

(** [GetAutoIncrement] *)
Definition GetAutoIncrement (s : TableSpec) : res herr (option AutoIncrement) :=
  match List.find cdAutoinc (tsColumns s) with
  | None => Ok None
  | Some c => if EqualFold (cdType c) "bigint" then Ok (Some (mkAutoIncrement (cdName c))) else Err (HAutoType (cdType c))
  end.

Section handle.
Context `{R : MapRange, J : JumpHash, DP : DdlPrinter}.
(** [scatter.Backends()], the databases the user may change, the privilege check. *)
Variables (backends : list string) (allowed : string -> DDL -> bool).

(** [checkTableExists] *)
Definition checkTableExists (database table : string) (r : Router) : bool :=
  match Tables r !! database with None => false | Some ts => bool_decide (table ∈ ts) end.

(** [ExecuteDDL] *)
Definition ExecuteDDL (database : string) (node : DDL) : HM unit :=
  s ← mget;
  if dsInTxn s then mfail HInTxn
  else qs ← mlift (of_ddl (DDLPlan_Build (dsRouter s) database node)); send (SentPlan qs).

(** The table the statement asks for. *)
Definition create_table (database table shardKey : string) (node : DDL) (extra : option Extra) : HM unit :=
  match dPart node with
  | PartOptHash _ n => in_router (CreateHashTable database table shardKey TableTypePartitionHash backends n extra)
  | PartOptNormal => in_router (CreateHashTable database table shardKey TableTypePartitionHash backends None extra)
  | PartOptList _ defs => in_router (CreateListTable database table shardKey TableTypePartitionList defs extra)
  | PartOptGlobal => in_router (CreateNonPartTable database table TableTypeGlobal backends extra)
  | PartOptSingle b =>
      if decide (b = "") then in_router (CreateNonPartTable database table TableTypeSingle backends extra)
      else if decide (b ∈ backends) then in_router (CreateNonPartTable database table TableTypeSingle [b] extra)
      else mfail (HBackend b)
  | PartOptNone => mret tt
  end.

(** The case CREATE TABLE of [handleDDL]. *)
Definition handle_create_table (database : string) (node : DDL) : HM unit :=
  let table := tnName (dTable node) in
  _ ← in_router (checkDatabase database);
  s ← mget;
  if dIfNotExists node && checkTableExists database table (dsRouter s) then mret tt
  else
    match dSpec node with
    | None => mpanic
    | Some spec =>
        spec ← mlift (checkEngine spec);
        shardKey ← mlift (tryGetShardKey node spec);
        autoinc ← mlift (GetAutoIncrement spec);
        _ ← create_table database table shardKey node (Some (mkExtra autoinc));
        x ← mtry (ExecuteDDL database (set_dSpec spec node));
        match x with
        | inl _ => mret tt
        | inr e => _ ← mtry (in_router (DropTable database table)); mfail e
        end
    end.

(** The case DROP TABLE: the tables in turn; with IF EXISTS the first missing
    one ends the statement. *)
Fixpoint handle_drop_tables (database : string) (node : DDL) (tables : list TableName) : HM unit :=
  match tables with
  | [] => mret tt
  | t :: ts =>
      let table := tnName t in
      let db := ddl_database database t in
      let node := set_dTable t node in
      _ ← in_router (checkDatabase db);
      s ← mget;
      if dIfExists node && negb (checkTableExists db table (dsRouter s)) then mret tt
      else
        x ← mtry (ExecuteDDL db node);
        _ ← mtry (in_router (DropTable db table));
        match x with inl _ => handle_drop_tables database node ts | inr e => mfail e end
  end.

(** The cases on an existing table. *)
Definition handle_alter (database : string) (node : DDL) : HM unit :=
  _ ← in_router (checkDatabase database);
  s ← mget;
  if checkTableExists database (tnName (dTable node)) (dsRouter s) then ExecuteDDL database node
  else mfail (HNoSuchTable (tnName (dTable node))).

(** The case RENAME. *)
Definition handle_rename (database : string) (node : DDL) : HM unit :=
  let fromTable := tnName (dTable node) in
  let toTable := tnName (dNewName node) in
  _ ← in_router (checkDatabase database);
  s ← mget;
  if negb (checkTableExists database fromTable (dsRouter s)) then mfail (HNoSuchTable fromTable)
  else if checkTableExists database toTable (dsRouter s) then mfail (HTableExists toTable)
  else _ ← ExecuteDDL database node; in_router (RenameTable database fromTable toTable).

(** The databases whose access is checked; for DROP TABLE the qualifier of
    [ddl.Table], which is empty, stands for those of the tables. *)
Definition checked_databases (database : string) (node : DDL) : list string :=
  (match dAction node with
   | DropTableStr => (fun _ => tnQualifier (dTable node)) <$> filter (fun t => tnQualifier t <> "") (dTables node)
   | _ => []
   end) ++ [database].

Definition check_access (node : DDL) (db : string) : HM unit :=
  _ ← in_router (mlift (DatabaseACL db));
  if allowed db node then mret tt else mfail (HDenied db).

(** [handleDDL]; [schema] is the database of the session. *)
Definition handleDDL (schema query : string) (node : DDL) : HM unit :=
  let database := if decide (dDatabase node = "") then schema else dDatabase node in
  let database := match dAction node with
                  | DropTableStr => database
                  | _ => ddl_database database (dTable node)
                  end in
  _ ← miter (check_access node) (checked_databases database node);
  match dAction node with
  | CreateDBStr =>
      x ← mtry (in_router (checkDatabase database));
      match x with
      | inl _ => if dIfNotExists node then mret tt else _ ← in_router (CreateDatabase database); send (SentAll query)
      | inr _ => _ ← in_router (CreateDatabase database); send (SentAll query)
      end
  | DropDBStr =>
      x ← mtry (in_router (checkDatabase database));
      match x with
      | inr _ => if dIfExists node then mret tt else _ ← send (SentAll query); in_router (DropDatabase database)
      | inl _ => _ ← send (SentAll query); in_router (DropDatabase database)
      end
  | CreateTableStr => handle_create_table database node
  | DropTableStr => handle_drop_tables database node (dTables node)
  | AlterDatabase =>
      _ ← in_router (checkDatabase database);
      send (SentAll (if decide (dDatabase node = "")
                     then String_DDL (set_dDatabase database node) else query))
  | RenameStr => handle_rename database node
  | OtherAction _ => mfail HUnsupported
  | _ => handle_alter database node
  end.
End handle.
