(* ===== verification/ProxyDdlProps.v ===== *)
(** * What DDL statements guarantee

    A CREATE TABLE whose execution fails leaves the router as it was; a table
    that was created exists where the router looks for it; RENAME gives the
    partition tables the names the router looks for afterwards. *)
From S2P Require Import Prelude GoStd Config Xcontext Partition Compute Router Frm RouterProps Sql PlanExpr PlanDml PlanDdl ProxyDdl.
Open Scope string_scope.
Open Scope list_scope.
Open Scope Z_scope.

(** ** I/O that does not fail *)
Definition io_fine (r : Router) : Prop := rIo r = [].

Lemma fine_next : preserves io_fine next_io.
Proof. intros r H. unfold next_io, io_fine in *. by rewrite H. Qed.
Lemma fine_step f : (forall r, rIo (f r) = rIo r) -> preserves io_fine (io_step f).
Proof.
  intros Hf. apply preserves_bind; [apply fine_next|]. intros []; intros r H; unfold io_fine in *; simpl; by rewrite ?Hf.
Qed.
Lemma fine_modify f : (forall r, rIo (f r) = rIo r) -> preserves io_fine (mmodify f : RM unit).
Proof. intros Hf r H. unfold io_fine in *. simpl. by rewrite Hf. Qed.
Lemma fine_same {A} (m : RM A) : (forall r, rIo (snd (m r)) = rIo r) -> preserves io_fine m.
Proof. intros Hm r H. unfold io_fine in *. by rewrite Hm. Qed.

Ltac fine :=
  repeat first
    [ progress intros
    | apply preserves_bind
    | apply preserves_mtry
    | apply fine_next
    | apply fine_step; intros; reflexivity
    | apply fine_modify; intros; reflexivity
    | case_match
    | solve [apply fine_same; intros; cbn; repeat case_match; done] ].

Lemma fine_write db t c : preserves io_fine (writeTableFrmData db t c).
Proof. unfold writeTableFrmData. fine. Qed.
Lemma fine_version : preserves io_fine UpdateVersion_or_panic.
Proof. unfold UpdateVersion_or_panic, UpdateVersion. fine. Qed.
Lemma fine_removeTable db t : preserves io_fine (removeTable db t).
Proof. unfold removeTable. apply fine_same. intros r. repeat case_match; done. Qed.
Lemma fine_addTable `{J : JumpHash} db loc : preserves io_fine (addTable db loc).
Proof.
  unfold addTable, put_table. fine; apply fine_same; intros r; [unfold checkDatabase|unfold deref]; by repeat case_match.
Qed.
Lemma fine_createTable `{J : JumpHash} db t loc : preserves io_fine (createTable db t loc).
Proof.
  unfold createTable. case_match; [by apply fine_same|]. case_match; [by apply fine_same|].
  apply preserves_bind; [apply fine_addTable|]. intros _.
  apply preserves_bind; [apply fine_same; intros r; unfold deref; by case_match|]. intros c.
  apply preserves_bind; [apply preserves_mtry, fine_write|]. intros [u|e]; [apply fine_version|].
  apply preserves_bind; [apply preserves_mtry, fine_removeTable|]. intros _. by apply fine_same.
Qed.

(** ** A table that was created can be dropped again *)
Lemma drop_total r db sch tb t dir o :
  io_fine r -> rMeta r = true -> rSchemas r !! db = Some sch -> sTables sch !! t = Some tb ->
  rDisk r !! db = Some dir -> dir !! t = Some o -> exists r', DropTable db t r = (Ok tt, r').
Proof.
  destruct r as [cf sc hp me dk ve io]. unfold io_fine. simpl. intros -> -> Hs Ht Hd Ho.
  unfold DropTable, dropTable, removeTable, removeTableFrmData, UpdateVersion_or_panic, UpdateVersion, io_step, next_io.
  unfold mbind, M_bind, mtry, mget, mmodify. simpl. rewrite Hs, Ht. simpl. rewrite Hd. simpl. rewrite Ho. simpl. by eexists.
Qed.

Lemma create_drop `{J : JumpHash} db table rc ex r r1 :
  (forall c, rc = Ok c -> tcName c = table) -> io_fine r -> coherent r -> create_from db table rc ex r = (Ok tt, r1) ->
  exists r2, DropTable db table r1 = (Ok tt, r2) /\ forall db' t', view r2 db' t' = view r db' t' /\ file_at r2 db' t' = file_at r db' t'.
Proof.
  intros Hname Hio Hco. unfold create_from. intros (c0 & r0 & Hc0 & H)%M_bind_inv_Ok.
  injection Hc0 as -> <-. specialize (Hname c0 eq_refl).
  apply M_bind_inv_Ok in H as (loc & r3 & Hl & H). injection Hl as <- <-.
  set (c := with_extra ex c0) in *. assert (tcName c = table) as Hn by (by unfold c; rewrite with_extra_name).
  pose proof (fine_createTable db table (length (rHeap r)) (set_heap (rHeap r ++ [c]) r) Hio) as Hfine.
  unfold alloc in H. simpl in H. rewrite H in Hfine. simpl in Hfine.
  apply (createTable_Ok _ _ _ c) in H as (sch & p & dir & io & Hdb & Hs & Hf & Hp & Hd & Hm & ->).
  2: { simpl. by rewrite lookup_app_r, Nat.sub_diag by done. }
  simpl in *. rewrite Hn in *.
  assert (file_at r db table = None) as Hnofile.
  { destruct (file_at r db table) as [o|] eqn:Hfa; [|done]. exfalso.
    destruct (co_in _ _ Hco db table) as (l & cc & _ & _ & _ & p' & _ & Htab); [by rewrite Hfa|].
    unfold table_at in Htab. by rewrite Hs in Htab; simpl in Htab; rewrite Hf in Htab. }
  edestruct (drop_total (after (set_heap (rHeap r ++ [c]) r) (with_table db sch (table_of c (Some p) (length (rHeap r))) (rSchemas r))
      (rHeap r ++ [c]) (<[db:=<[table:=Some c]> dir]> (rDisk r)) (S (rVersion r)) io)) as [r2 H2];
    [exact Hfine|done|simpl; unfold with_table; apply lookup_insert_eq|simpl; rewrite Hn; apply lookup_insert_eq
    |simpl; apply lookup_insert_eq|apply lookup_insert_eq|].
  exists r2. split; [exact H2|]. intros db' t'.
  apply dropTable_Ok in H2 as (sch2 & tb2 & dir2 & o2 & io2 & Hs2 & Ht2 & Hd2 & Ho2 & ->).
  assert (forall db' t', file_at (after (set_heap (rHeap r ++ [c]) r) (with_table db sch (table_of c (Some p) (length (rHeap r))) (rSchemas r))
      (rHeap r ++ [c]) (<[db:=<[table:=Some c]> dir]> (rDisk r)) (S (rVersion r)) io) db' t'
    = if decide (db' = db /\ t' = table) then Some (Some c) else file_at r db' t') as Hfw.
  { intros. rewrite after_set_heap. by apply file_at_write. }
  split.
  - unfold view. rewrite table_at_without by done. rewrite after_set_heap, table_at_with by done. simpl. rewrite Hn.
    case_decide as E; [destruct E as [-> ->]|].
    + unfold table_at. rewrite Hs. simpl. by rewrite Hf.
    + destruct (table_at r db' t') as [tb|] eqn:Htb; [|done]. simpl.
      destruct (file_at r db' t') as [o|] eqn:Hfa.
      * destruct (co_in _ _ Hco db' t') as (l & cc & _ & Hh & _ & p' & _ & Htab); [by rewrite Hfa|].
        rewrite Htb in Htab. injection Htab as ->. simpl. rewrite Hh. pose proof (lookup_lt_Some _ _ _ Hh).
        by rewrite lookup_app_l, Hh.
      * rewrite (co_out _ _ Hco) in Htb; [done|]. rewrite Hfa. by intros [? ?].
  - rewrite file_at_remove by done. rewrite Hfw. case_decide as E; [destruct E as [-> ->]; by rewrite Hnofile|done].
Qed.

(** ** CREATE TABLE *)
Section create.
Context `{R : MapRange, J : JumpHash, DP : DdlPrinter}.
Variables (backends : list string).

Definition same_but_router (s s' : DdlSt) : Prop := dsSent s' = dsSent s /\ dsOut s' = dsOut s /\ dsInTxn s' = dsInTxn s.

Lemma in_router_Ok {A} (m : RM A) a s s' : in_router m s = (Ok a, s') -> m (dsRouter s) = (Ok a, dsRouter s') /\ same_but_router s s'.
Proof. unfold in_router. destruct (m (dsRouter s)) as [[x|e|] r]; intros [= <- <-]. by repeat split. Qed.

Lemma in_router_not_exec {A} (m : RM A) s s' : in_router m s <> (Err HExec, s').
Proof. unfold in_router. destruct (m (dsRouter s)) as [[x|e|] r]; by intros [=]. Qed.

(** Only an execution on the backends fails with [HExec]. *)
Definition not_exec {A} (r : res herr A) : Prop := r <> Err HExec.
Lemma checkEngine_not s : not_exec (checkEngine s).
Proof. unfold checkEngine. by repeat case_decide. Qed.
Lemma checkShardKey_not s k : not_exec (checkShardKey s k).
Proof. unfold checkShardKey. by repeat case_match. Qed.
Lemma tryGetShardKey_not node s : not_exec (tryGetShardKey node s).
Proof.
  unfold tryGetShardKey. case_decide; [done|].
  assert (forall k, not_exec (_ ← checkShardKey s k; Ok k)) as Hk.
  { intros k. pose proof (checkShardKey_not s k) as Hn. destruct (checkShardKey s k); cbn [mbind res_bind]; [done| |done]. congruence. }
  repeat case_match; try done; apply Hk.
Qed.
Lemma GetAutoIncrement_not s : not_exec (GetAutoIncrement s).
Proof. unfold GetAutoIncrement. by repeat case_match. Qed.

Lemma mlift_not {A} (r : res herr A) s s' : not_exec r -> (mlift r : HM A) s <> (Err HExec, s').
Proof. intros Hr [= -> _]. by apply Hr. Qed.

(** What the creation did to the router. *)
Lemma create_table_spec database table key node ex s s1 :
  dPart node <> PartOptNone -> create_table backends database table key node ex s = (Ok tt, s1) ->
  same_but_router s s1 /\ exists rc, (forall c, rc = Ok c -> tcName c = table) /\
    create_from database table rc ex (dsRouter s) = (Ok tt, dsRouter s1).
Proof.
  intros Hn H. unfold create_table in H.
  assert (forall (m : RM unit), in_router m s = (Ok tt, s1) ->
    (exists rc, (forall c, rc = Ok c -> tcName c = table) /\ m (dsRouter s) = create_from database table rc ex (dsRouter s)) ->
    same_but_router s s1 /\ exists rc, (forall c, rc = Ok c -> tcName c = table) /\
      create_from database table rc ex (dsRouter s) = (Ok tt, dsRouter s1)) as Hm.
  { intros m [H1 H2]%in_router_Ok (rc & Hrc & Heq). split; [done|]. exists rc. by rewrite <- Heq. }
  destruct (dPart node) as [name n|name defs| | |b|]; [..|done].
  - apply (Hm _ H). eexists. split; [|reflexivity]. intros c. apply uniform_name_hash.
  - apply (Hm _ H). eexists. split; [|reflexivity]. intros c. apply uniform_name_list.
  - apply (Hm _ H). eexists. split; [|reflexivity]. intros c. apply uniform_name_hash.
  - apply (Hm _ H). eexists. split; [|reflexivity]. intros c. apply uniform_name_global.
  - case_decide; [|case_decide; [|done]]; (apply (Hm _ H); eexists; split; [|reflexivity]; intros c; apply uniform_name_single).
Qed.

Definition ends (x : res herr unit) : Prop := x = Ok tt \/ x = Err HExec.

Lemma bind_step {A} (m : HM A) (k : A -> HM unit) s x s' : ends x -> (forall s', m s <> (Err HExec, s')) ->
  (a ← m; k a) s = (x, s') -> exists a s1, m s = (Ok a, s1) /\ k a s1 = (x, s').
Proof.
  unfold mbind, M_bind. intros Hx Hm. destruct (m s) as [[a|e|] s1] eqn:Hs; intros H; [by eexists _, _| |];
    injection H as <- <-; destruct Hx as [[=]|[= ->]]. by destruct (Hm s1).
Qed.

(** A CREATE TABLE that returns or fails on the backends went through these steps. *)
Lemma create_steps database node s x s' : ends x -> handle_create_table backends database node s = (x, s') ->
  (dIfNotExists node && checkTableExists database (tnName (dTable node)) (dsRouter s) = true /\ x = Ok tt /\ s' = s) \/
  exists spec key ai s1, create_table backends database (tnName (dTable node)) key node (Some (mkExtra ai)) s = (Ok tt, s1) /\
    (y ← mtry (ExecuteDDL database (set_dSpec spec node));
     match y with inl _ => mret tt | inr e => _ ← mtry (in_router (DropTable database (tnName (dTable node)))); mfail e end) s1 = (x, s').
Proof.
  intros Hx H. unfold handle_create_table in H.
  apply bind_step in H as ([] & s0 & H0 & H); [|done|intros; apply in_router_not_exec].
  assert (s0 = s) as ->.
  { unfold in_router, checkDatabase in H0. destruct s as [r snt out t]. simpl in H0. repeat case_match; by simplify_eq. }
  apply bind_step in H as (r & s0 & Hg & H); [|done|by intros ? [=]]. injection Hg as <- <-.
  destruct (dIfNotExists node && _) eqn:Hex; [left; by injection H as <- <-|right].
  destruct (dSpec node) as [spec|]; [|by injection H as <- _; destruct Hx as [[=]|[=]]].
  apply bind_step in H as (spec' & s0 & H1 & H); [|done|intros; apply mlift_not, checkEngine_not]. injection H1 as H1 <-.
  apply bind_step in H as (key & s0 & H2 & H); [|done|intros; apply mlift_not, tryGetShardKey_not]. injection H2 as H2 <-.
  apply bind_step in H as (ai & s0 & H3 & H); [|done|intros; apply mlift_not, GetAutoIncrement_not]. injection H3 as H3 <-.
  apply bind_step in H as ([] & s1 & H4 & H); [|done|].
  2: { intros s2. unfold create_table. repeat case_match; try apply in_router_not_exec; by intros [=]. }
  by exists spec', key, ai, s1.
Qed.

(** An execution sends at most one plan and leaves the router alone. *)
Lemma ExecuteDDL_spec database node s x s' : ExecuteDDL database node s = (x, s') ->
  dsRouter s' = dsRouter s /\
  ((x <> Ok tt /\ x <> Err HExec /\ s' = s) \/
   exists qs, DDLPlan_Build (dsRouter s) database node = Ok qs /\ dsSent s' = dsSent s ++ [SentPlan qs]).
Proof.
  unfold ExecuteDDL, mbind, M_bind, mget. destruct (dsInTxn s); [intros [= <- <-]; split; [done|by left]|].
  unfold mlift. destruct (DDLPlan_Build (dsRouter s) database node) as [qs|e|]; cbn; [|intros [= <- <-]; split; [done|by left]..].
  unfold send. destruct (dsOut s) as [|b out]; intros [= <- <-]; (split; [done|]); right; by exists qs.
Qed.
End create.

Lemma route_bind {A B} (x : res rerr A) (k : A -> res derr B) b : (a ← of_plan (of_router x); k a) = Ok b -> exists a, x = Ok a /\ k a = Ok b.
Proof. destruct x as [a|e|]; [|done..]. intros H. by exists a. Qed.

(** C35: A CREATE TABLE whose execution on the backends fails is undone in the
    router: every table and every file is what it was before the statement. *)
Theorem create_table_undone `{R : MapRange, J : JumpHash, DP : DdlPrinter} backends database node s s' :
  dPart node <> PartOptNone -> io_fine (dsRouter s) -> coherent (dsRouter s) ->
  handle_create_table backends database node s = (Err HExec, s') ->
  forall db t, view (dsRouter s') db t = view (dsRouter s) db t /\ file_at (dsRouter s') db t = file_at (dsRouter s) db t.
Proof.
  intros Hn Hio Hco H. apply create_steps in H as [(_ & [=] & _)|(spec & key & ai & s1 & Hc & H)]; [|by right].
  apply create_table_spec in Hc as (_ & rc & Hrc & Hc); [|done].
  destruct (create_drop _ _ _ _ _ _ Hrc Hio Hco Hc) as (r2 & Hd & Hv).
  unfold mbind, M_bind, mtry in H. destruct (ExecuteDDL _ _ s1) as [[[]|e|] s2] eqn:He; [done| |done].
  apply ExecuteDDL_spec in He as [Hr _]. unfold in_router in H. rewrite Hr, Hd in H. cbn in H. by injection H as _ <-.
Qed.

(** C36: A CREATE TABLE with one of the grammar's partition options (it always
    gives one) that returns, for a table with or without a database before its
    name, either is CREATE TABLE IF NOT EXISTS of a table the router has, and
    then nothing is sent and nothing changes, or has sent one statement for
    every segment of the table the router now holds, for the segment's table
    on the segment's backend. The router, coherent with its files before,
    stays so. *)
Theorem create_table_everywhere `{R : MapRange, J : JumpHash, DP : DdlPrinter} backends schema node s s' :
  let database := ddl_database schema (dTable node) in
  dPart node <> PartOptNone -> dAction node = CreateTableStr -> coherent (dsRouter s) ->
  handle_create_table backends database node s = (Ok tt, s') ->
  coherent (dsRouter s') /\
  if dIfNotExists node && checkTableExists database (tnName (dTable node)) (dsRouter s) then s' = s
  else exists spec qs segs, dsSent s' = dsSent s ++ [SentPlan qs] /\
    Lookup (dsRouter s') database (tnName (dTable node)) None None = Ok segs /\
    Forall2 (fun sg q => qtBackend q = sgBackend sg /\
      qtQuery q = String_DDL (set_dNewName (mkTableName (sgTable sg) database)
                                (set_dTable (mkTableName (sgTable sg) database) (set_dSpec spec node)))) segs qs.
Proof.
  cbn zeta. set (database := ddl_database schema (dTable node)).
  assert (ddl_database database (dTable node) = database) as Hdb by (unfold database, ddl_database; by case_decide).
  clearbody database. intros Hn Ha Hco H. destruct (dIfNotExists node && _) eqn:Hex.
  { unfold handle_create_table in H. apply M_bind_inv_Ok in H as ([] & s0 & H0 & H).
    assert (s0 = s) as ->.
    { unfold in_router, checkDatabase in H0. destruct s as [r snt out t]. simpl in H0. repeat case_match; by simplify_eq. }
    apply M_bind_inv_Ok in H as (r & s0 & Hg & H). injection Hg as <- <-. rewrite Hex in H. by injection H as <-. }
  apply create_steps in H as [(Hex' & _)|(spec & key & ai & s1 & Hc & H)]; [congruence| |by left].
  apply create_table_spec in Hc as ((Hs1 & Ho1 & Ht1) & rc & Hrc & Hc); [|done].
  unfold mbind, M_bind, mtry in H. destruct (ExecuteDDL _ _ s1) as [[[]|e|] s2] eqn:He;
    [|by repeat case_match|done]. injection H as <-.
  apply ExecuteDDL_spec in He as [Hr [[? _]|(qs & Hb & Hsent)]]; [done|]. rewrite Hr. split; [by eapply coherent_create|].
  unfold DDLPlan_Build in Hb. cbn [dAction set_dSpec] in Hb. rewrite Ha in Hb. unfold commonImpl in Hb.
  cbn [dTable set_dSpec] in Hb. rewrite Hdb in Hb.
  destruct (checkUnsupportedOperations _ _ _ _); cbn [mbind res_bind] in Hb; try done.
  apply route_bind in Hb as (segs & Hl & Hb). exists spec, qs, segs. rewrite Hsent, Hs1. split_and!; [done..|].
  apply res_map_Ok in Hb. eapply Forall2_impl; [exact Hb|]. intros sg q Hsg. unfold common_query, segment_tuple in Hsg.
  destruct (sgRange sg); [|done]. by injection Hsg as <-.
Qed.

(** ** RENAME *)

(** The tables of a configuration are named after it. *)
Definition named_after (c : TableConfig) (name : string) : Prop :=
  if decide (tcShardKey c = "") then name = tcName c
  else exists suffix, name = tcName c +:+ "_" +:+ suffix /\ has_char "_" suffix = false.
Definition partition_names (c : TableConfig) : Prop := Forall (fun p => named_after c (pcTable p)) (tcPartitions c).

Lemma strip_prefix_app a b : strip_prefix a (a +:+ b) = Some b.
Proof. induction a as [|c a IH]; [done|]. simpl. by rewrite decide_True. Qed.
Lemma Replace1_app a b new : Replace1 (a +:+ b) a new = new +:+ b.
Proof.
  pose proof (strip_prefix_app a b) as H. destruct (a +:+ b) as [|c s] eqn:E; cbn [Replace1]; by rewrite H.
Qed.
Lemma Split_none c s : has_char c s = false -> Split c s = [s].
Proof.
  induction s as [|d s IH]; [done|]. simpl. case_decide as Hd; [done|]. intros H. rewrite decide_False by congruence. by rewrite IH.
Qed.
Lemma Split_nonempty c s : Split c s <> [].
Proof. destruct s as [|d s]; simpl; [done|]. case_decide; [done|]. by destruct (Split c s). Qed.
Lemma Split_app c a s : Split c (a +:+ String c s) = Split c a ++ Split c s.
Proof.
  induction a as [|d a IH]; simpl; [by rewrite decide_True|]. rewrite IH. case_decide; [done|].
  pose proof (Split_nonempty c a). by destruct (Split c a).
Qed.
Lemma last_Split c a s : has_char c s = false -> List.last (Split c (a +:+ String c s)) "" = s.
Proof. intros H. by rewrite Split_app, (Split_none _ _ H), List.last_last. Qed.

(** The planner's new name of a partition table is the router's. *)
Lemma rename_to_agrees c to name : named_after c name -> rename_to (tcShardKey c) to name = Replace1 name (tcName c) to.
Proof.
  unfold named_after, rename_to. case_decide.
  - intros ->. rewrite <- (str_app_nil_r (tcName c)) at 1. rewrite Replace1_app. by rewrite str_app_nil_r.
  - intros (suffix & -> & Hs). rewrite Replace1_app. change ("_" +:+ suffix) with (String "_" suffix). by rewrite last_Split.
Qed.

Lemma digits_no_underscore s a v : digits_val s a = Some v -> has_char "_" s = false.
Proof.
  revert a. induction s as [|c s IH]; intros a; [done|]. simpl. destruct (digit_val c) eqn:Hc; [|done].
  case_decide as E; [by subst c|]. apply IH.
Qed.
Lemma part_name_after table n : 0 <= n -> exists suffix, part_name table n = table +:+ "_" +:+ suffix /\ has_char "_" suffix = false.
Proof. intros Hn. exists (fmt_04d n). split; [done|]. by eapply digits_no_underscore, fmt_04d_val. Qed.

(** What CREATE TABLE makes is named so. *)
Lemma HashUniform_names conf table key bs num c : HashUniform conf table key bs num = Ok c -> partition_names c.
Proof.
  unfold HashUniform. repeat (case_decide; [done|]). destruct (hash_blocks conf num) as [blocks|e|]; cbn [mbind res_bind]; intros Hc; [|done..].
  repeat (case_match; [done|]). injection Hc as <-. unfold partition_names, named_after. cbn [tcShardKey tcName tcPartitions].
  apply Forall_forall. intros p Hp. rewrite decide_False by done. unfold hash_parts in Hp.
  apply list_elem_of_bind in Hp as (s & Hp & Hs). apply list_elem_of_bind in Hp as (i & Hp & Hi).
  apply elem_of_seqZ in Hs, Hi. apply list_elem_of_singleton in Hp as ->. apply part_name_after. nia.
Qed.

Lemma GlobalUniform_names table bs c : GlobalUniform table bs = Ok c -> partition_names c.
Proof.
  unfold GlobalUniform. case_decide; [done|]. destruct bs as [|b bs]; intros [= <-]. unfold partition_names, named_after. simpl.
  constructor; [done|]. apply Forall_fmap, Forall_forall. by intros.
Qed.
Lemma SingleUniform_names table bs c : SingleUniform table bs = Ok c -> partition_names c.
Proof.
  unfold SingleUniform. case_decide; [done|]. destruct bs as [|b bs]; intros [= <-]. by repeat constructor.
Qed.
Lemma ListUniform_names `{R : MapRange} table key defs c : ListUniform table key defs = Ok c -> partition_names c.
Proof.
  unfold ListUniform. repeat (case_decide; [done|]). destruct (listMergePartition defs) as [m|e|]; cbn [mbind res_bind]; [|done..].
  case_decide; [done|]. intros [= <-]. unfold partition_names, named_after. cbn [tcShardKey tcName tcPartitions].
  apply Forall_lookup. intros i p Hp. rewrite decide_False by done. rewrite list_lookup_imap in Hp. destruct (map_range m !! i); [|done].
  injection Hp as <-. apply part_name_after. lia.
Qed.

(** Renaming the tables of a configuration renames the tables of its segments. *)
Definition set_sgTable (f : string -> string) (sg : Segment) : Segment :=
  mkSegment (f (sgTable sg)) (sgBackend sg) (sgRange sg) (sgListValue sg).

Section sort_map.
Context {A : Type} (R : relation A) `{!RelDecision R} (f : A -> A) (Hf : forall a b, R (f a) (f b) <-> R a b).

Lemma list_merge_fmap l1 l2 : list_merge R (f <$> l1) (f <$> l2) = f <$> list_merge R l1 l2.
Proof.
  revert l2. induction l1 as [|x l1 IH1]; intros l2; [by destruct l2|]. induction l2 as [|y l2 IH2]; [done|].
  cbn. destruct (decide (R x y)) as [H|H].
  - rewrite decide_True by (by apply Hf). rewrite fmap_cons. f_equal. apply (IH1 (y :: l2)).
  - rewrite decide_False by (by rewrite Hf). rewrite fmap_cons. f_equal. apply IH2.
Qed.
Definition map_stack : list (option (list A)) -> list (option (list A)) := map (option_map (map f)).
Lemma merge_stack_fmap (st : list (option (list A))) : merge_stack R (map_stack st) = f <$> merge_stack R st.
Proof. induction st as [|[l|] st IH]; [done| |done]. simpl. fold map_stack. rewrite IH. apply list_merge_fmap. Qed.
Lemma merge_to_stack_fmap (st : list (option (list A))) (l : list A) :
  merge_list_to_stack R (map_stack st) (f <$> l) = map_stack (merge_list_to_stack R st l).
Proof. revert l. induction st as [|[l'|] st IH]; intros l; [done| |done]. simpl. f_equal. rewrite <- IH. f_equal. apply list_merge_fmap. Qed.
Lemma merge_sort_fmap l : merge_sort R (f <$> l) = f <$> merge_sort R l.
Proof.
  unfold merge_sort. change (@nil (option (list A))) with (map_stack (@nil (option (list A)))) at 1.
  generalize (@nil (option (list A))). induction l as [|x l IH]; intros st; simpl; [apply merge_stack_fmap|].
  change ([f x]) with (f <$> [x]). by rewrite merge_to_stack_fmap.
Qed.
End sort_map.

Definition renamed (f : string -> string) (p : PartitionConfig) : PartitionConfig := set_pcTable (f (pcTable p)) p.

Lemma mark_rename f seg sg n i m m' : Hash.mark seg sg n i m = Ok m' ->
  Hash.mark seg (set_sgTable f sg) n i (set_sgTable f <$> m) = Ok (set_sgTable f <$> m').
Proof.
  revert i m. induction n as [|n IH]; intros i m; simpl; [by intros [= ->]|].
  rewrite lookup_fmap. destruct (m !! i); [done|]. simpl. intros H. rewrite <- fmap_insert. by apply IH.
Qed.

Lemma build_part_rename f p m segs m' segs' : Hash.build_part (m, segs) p = Ok (m', segs') ->
  Hash.build_part (set_sgTable f <$> m, set_sgTable f <$> segs) (renamed f p) = Ok (set_sgTable f <$> m', set_sgTable f <$> segs').
Proof.
  unfold Hash.build_part. cbn [pcSegment renamed set_pcTable fst snd]. repeat case_match; try done.
  destruct (Hash.mark _ _ _ _ m) as [m1|e|] eqn:Hm; cbn [mbind res_bind]; intros [= <- <-].
  apply (mark_rename f) in Hm. unfold set_sgTable in Hm at 1. simpl in Hm. rewrite length_fmap.
  cbn [pcTable pcBackend renamed set_pcTable]. rewrite Hm. cbn [mbind res_bind]. by rewrite fmap_app.
Qed.

Lemma build_fold_rename f ps m segs m' segs' : res_fold Hash.build_part (m, segs) ps = Ok (m', segs') ->
  res_fold Hash.build_part (set_sgTable f <$> m, set_sgTable f <$> segs) (renamed f <$> ps) = Ok (set_sgTable f <$> m', set_sgTable f <$> segs').
Proof.
  revert m segs. induction ps as [|p ps IH]; intros m segs; simpl; [by intros [= -> ->]|].
  destruct (Hash.build_part (m, segs) p) as [[m1 segs1]|e|] eqn:Hp; cbn [mbind res_bind]; intros H; [|done..].
  rewrite (build_part_rename f _ _ _ _ _ Hp). cbn [mbind res_bind]. by apply IH.
Qed.

Lemma plain_rename f rg lv base ps : (forall p, lv (renamed f p) = lv p) ->
  plain_segments rg lv base (renamed f <$> ps) = set_sgTable f <$> plain_segments rg lv base ps.
Proof.
  intros Hlv. unfold plain_segments. apply list_eq. intros i. rewrite list_lookup_fmap, !list_lookup_imap, list_lookup_fmap.
  destruct (ps !! i) as [p|]; [|done]. simpl. unfold set_sgTable. by rewrite Hlv.
Qed.

Lemma build_rename `{J : JumpHash} conf f t c p : build_partition conf c = Ok p ->
  exists p', build_partition conf (rename_config f t c) = Ok p' /\
    p_GetSegments p' = set_sgTable (fun n => Replace1 n f t) <$> p_GetSegments p.
Proof.
  unfold build_partition. set (g := fun n => Replace1 n f t).
  change (tcShardType (rename_config f t c)) with (tcShardType c). change (tcSlots (rename_config f t c)) with (tcSlots c).
  set (c' := rename_config f t c). assert (tcPartitions c' = renamed g <$> tcPartitions c) as Hps by done. clearbody c'.
  repeat case_decide; [| | | |done].
  - unfold Hash.Build. cbn [mbind res_bind Hash.New Hash.partitions Hash.Segments Hash.slots]. rewrite Hps.
    destruct (res_fold Hash.build_part (∅, []) (tcPartitions c)) as [[m segs]|e|] eqn:Hb; cbn [mbind res_bind fst snd]; [|done..].
    apply (build_fold_rename g) in Hb. rewrite fmap_empty in Hb. cbn [fmap list_fmap] in Hb. rewrite Hb. cbn [mbind res_bind fst snd].
    rewrite map_size_fmap. case_match; [done|]. intros [= <-]. eexists. split; [reflexivity|]. simpl. unfold Hash.GetSegments. simpl.
    apply merge_sort_fmap. intros [] []. done.
  - unfold Global_.Build. cbn [mbind res_bind]. rewrite Hps, plain_rename by done. intros [= <-]. by eexists.
  - unfold Single.Build. cbn [mbind res_bind]. rewrite Hps, plain_rename by done. intros [= <-]. by eexists.
  - unfold List_.Build. cbn [mbind res_bind]. rewrite Hps, plain_rename by done. intros [= <-]. by eexists.
Qed.

(** The tables of the segments are those of the configuration. *)
Lemma build_tables `{J : JumpHash} conf c p sg : build_partition conf c = Ok p -> sg ∈ p_GetSegments p ->
  exists q, q ∈ tcPartitions c /\ sgTable sg = pcTable q.
Proof.
  assert (forall rg lv, sg ∈ plain_segments rg lv 0 (tcPartitions c) -> exists q, q ∈ tcPartitions c /\ sgTable sg = pcTable q) as Hplain.
  { intros rg lv (i & Hi)%list_elem_of_lookup. unfold plain_segments in Hi. rewrite list_lookup_imap in Hi.
    destruct (tcPartitions c !! i) as [q|] eqn:Hq; [|done]. injection Hi as <-. exists q. split; [by eapply list_elem_of_lookup_2|done]. }
  unfold build_partition. repeat case_decide; [| | | |done].
  - unfold Hash.Build. cbn [mbind res_bind Hash.New Hash.partitions Hash.Segments Hash.slots].
    destruct (res_fold Hash.build_part (∅, []) (tcPartitions c)) as [[m segs]|e|] eqn:Hb; cbn [mbind res_bind fst snd]; [|done..].
    case_match; [done|]. intros [= <-] Hin. simpl in Hin. unfold Hash.GetSegments, sort_Segments in Hin. simpl in Hin.
    rewrite merge_sort_Permutation in Hin. revert Hin.
    intros Hin. apply build_loop_inv, bi_conf in Hb. simpl in Hb.
    apply (list_elem_of_fmap_2 (fun sg => (sgTable sg, sgBackend sg))) in Hin. rewrite Hb in Hin.
    apply list_elem_of_fmap_1 in Hin as (q & [= -> _] & Hq). by exists q.
  - unfold Global_.Build. cbn [mbind res_bind]. intros [= <-]. apply Hplain.
  - unfold Single.Build. cbn [mbind res_bind]. intros [= <-]. apply Hplain.
  - unfold List_.Build. cbn [mbind res_bind]. intros [= <-]. apply Hplain.
Qed.

Lemma Lookup_all `{J : JumpHash} r db t tb p : db <> "" -> t <> "" -> table_at r db t = Some tb -> tPartition tb = Some p ->
  Lookup r db t None None = Ok (p_GetSegments p).
Proof.
  intros Hdb Ht Hat Hp. unfold Lookup, table_at in *. rewrite !decide_False by done.
  destruct (rSchemas r !! db) as [sch|]; [|done]. simpl in Hat. rewrite Hat. unfold partition_of. rewrite Hp. by destruct p.
Qed.

Lemma Lookup_names `{J : JumpHash} r db t s e l : Lookup r db t s e = Ok l -> db <> "" /\ t <> "".
Proof. unfold Lookup. by repeat case_decide. Qed.

(** The statements of the plan of a RENAME. *)
Lemma rename_query_Ok `{DP : DdlPrinter} r node db c loc p sg q :
  tnName (dTable node) <> "" -> db <> "" -> table_at r db (tnName (dTable node)) = Some (table_of c p loc) ->
  rename_query r node db sg = Ok q -> qtBackend q = sgBackend sg /\
  qtQuery q = String_DDL (set_dNewName (mkTableName (rename_to (tcShardKey c) (tnName (dNewName node)) (sgTable sg)) db)
                            (set_dTable (mkTableName (sgTable sg) db) node)).
Proof.
  intros Ht Hdb Hat. unfold rename_query, ShardKey, getTable, table_at in *. rewrite !decide_False by done.
  destruct (rSchemas r !! db) as [sch|]; [|done]. simpl in Hat. rewrite Hat. cbn [mbind res_bind of_router of_plan tShardKey table_of].
  unfold segment_tuple. destruct (sgRange sg); [|done]. by intros [= <-].
Qed.

Lemma handle_rename_Ok `{R : MapRange, J : JumpHash, DP : DdlPrinter} database node s s' : handle_rename database node s = (Ok tt, s') ->
  exists s1, ExecuteDDL database node s = (Ok tt, s1) /\ dsSent s' = dsSent s1 /\
    RenameTable database (tnName (dTable node)) (tnName (dNewName node)) (dsRouter s1) = (Ok tt, dsRouter s').
Proof.
  unfold handle_rename. intros ([] & s0 & H0 & H)%M_bind_inv_Ok.
  assert (s0 = s) as ->.
  { unfold in_router, checkDatabase in H0. destruct s as [r snt out t]. simpl in H0. repeat case_match; by simplify_eq. }
  apply M_bind_inv_Ok in H as (x & s0 & Hg & H). injection Hg as <- <-. case_match; [done|]. case_match; [done|].
  apply M_bind_inv_Ok in H as ([] & s1 & He & H). apply in_router_Ok in H as [H (Hs & _)]. by exists s1.
Qed.

(** C37: A RENAME that returns has sent, for every segment of the table, a
    statement to the segment's backend that renames its table to the one the
    router looks for under the new name; ranges and backends are unchanged. *)
Theorem rename_agrees `{R : MapRange, J : JumpHash, DP : DdlPrinter} database node s s' c :
  tnQualifier (dTable node) = "" -> dAction node = RenameStr -> tnName (dNewName node) <> "" -> coherent (dsRouter s) ->
  file_at (dsRouter s) database (tnName (dTable node)) = Some (Some c) -> partition_names c ->
  handle_rename database node s = (Ok tt, s') ->
  coherent (dsRouter s') /\ exists qs before after, dsSent s' = dsSent s ++ [SentPlan qs] /\
    Lookup (dsRouter s) database (tnName (dTable node)) None None = Ok before /\
    Lookup (dsRouter s') database (tnName (dNewName node)) None None = Ok after /\
    Forall3 (fun old new q => qtBackend q = sgBackend old /\ sgBackend new = sgBackend old /\ sgRange new = sgRange old /\
      qtQuery q = String_DDL (set_dNewName (mkTableName (sgTable new) database)
                                (set_dTable (mkTableName (sgTable old) database) node))) before after qs.
Proof.
  intros Hq Ha Hto Hco Hfile Hnames H. apply handle_rename_Ok in H as (s1 & He & Hsent & Hr).
  apply ExecuteDDL_spec in He as [Hr1 [[? _]|(qs & Hb & Hs1)]]; [done|]. rewrite Hr1 in Hr.
  split; [by eapply coherent_rename|].
  destruct (RenameTable_Ok _ _ _ _ _ Hco Hr) as (loc & c0 & p' & Hne & (Hn & _ & Hf0 & p & Hp & Hat) & _ & Hp' & _ & _ & _ & _ & _ & Hta & _).
  rewrite Hfile in Hf0. injection Hf0 as <-. destruct (build_rename _ (tnName (dTable node)) (tnName (dNewName node)) _ _ Hp) as (p'' & Hp'' & Hsegs).
  rewrite Hp' in Hp''. injection Hp'' as <-.
  unfold DDLPlan_Build in Hb. rewrite Ha in Hb. unfold renameImpl, ddl_database in Hb. rewrite Hq in Hb. cbn [decide] in Hb.
  rewrite decide_True in Hb by done. case_match; [done|]. apply route_bind in Hb as (before & Hl & Hb).
  destruct (Lookup_names _ _ _ _ _ _ Hl) as [Hdb Hfrom]. rewrite (Lookup_all _ _ _ _ _ Hdb Hfrom Hat eq_refl) in Hl.
  assert (before = p_GetSegments p) as -> by congruence.
  exists qs, (p_GetSegments p), (p_GetSegments p'). rewrite Hsent, Hs1. split_and!; [done|by eapply Lookup_all| |].
  - eapply (Lookup_all _ _ _ (table_of (rename_config _ _ c) (Some p') loc)); [done..| |done].
    rewrite Hta, decide_False by (intros [_ E]; by rewrite E in Hne). by rewrite decide_True.
  - rewrite Hsegs. apply res_map_Ok in Hb.
    assert (Forall (fun sg => named_after c (sgTable sg)) (p_GetSegments p)) as Hnm.
    { apply Forall_forall. intros sg Hsg. destruct (build_tables _ _ _ _ Hp Hsg) as (q & Hq' & ->).
      by apply (proj1 (Forall_forall _ _) Hnames). }
    revert Hb Hnm. clear Hsegs Hsent Hs1. generalize (p_GetSegments p) as segs. intros segs Hb Hnm. induction Hb as [|sg q segs' qs0 Hsg Hb IH]; [constructor|].
    apply Forall_cons in Hnm as [Hsgn Hnm]. constructor; [|by apply IH].
    eapply rename_query_Ok in Hsg as [-> ->]; [|done..]. rewrite <- Hn. rewrite rename_to_agrees by done. done.
Qed.

(** ** Statements on concrete states *)
Definition plain_ddl_printer : DdlPrinter :=
  {| String_DDL := fun d => tnName (dTable d) +:+ ">" +:+ tnName (dNewName d); String_Other := fun o => tnName (oTable o) |}.
Definition ex_spec : TableSpec := mkTableSpec [mkColumnDef "id" "bigint" true false false] [] "".
Definition ex_ddl (a : DDLAction) (from to : string) (drop : list TableName) (ife : bool) : DDL :=
  mkDDL a (mkTableName from "") (mkTableName to "") drop "" ife false (Some ex_spec) (PartOptHash "id" None) "" None.
Definition ex_state (out : list bool) (txn : bool) : DdlSt := mkDdlSt ex_router [] out txn.

Lemma create_table_undone_witness : exists s', handle_create_table (J := mod_jump) (DP := plain_ddl_printer) ["b1"; "b2"] "db"
    (ex_ddl CreateTableStr "n" "" [] false) (ex_state [false] false) = (Err HExec, s') /\
  view (dsRouter s') "db" "n" = None.
Proof.
  eexists. split; [vm_compute; reflexivity|].
  eapply (create_table_undone (J := mod_jump) (DP := plain_ddl_printer) ["b1"; "b2"] "db" (ex_ddl CreateTableStr "n" "" [] false)
    (ex_state [false] false)) with (db := "db") (t := "n"); [done|vm_compute; reflexivity|apply ex_coherent|vm_compute; reflexivity].
Defined.

Definition ex_create : DDL := ex_ddl CreateTableStr "n" "" [] false.
Lemma create_table_everywhere_witness : exists s' segs, handle_create_table (J := mod_jump) (DP := plain_ddl_printer) ["b1"; "b2"] "db"
    ex_create (ex_state [] false) = (Ok tt, s') /\
  Lookup (J := mod_jump) (dsRouter s') "db" "n" None None = Ok segs.
Proof.
  eexists. destruct (create_table_everywhere (J := mod_jump) (DP := plain_ddl_printer) ["b1"; "b2"] "db" ex_create (ex_state [] false)
    (snd (handle_create_table (J := mod_jump) (DP := plain_ddl_printer) ["b1"; "b2"] "db" ex_create (ex_state [] false))))
    as (_ & spec & qs & segs & _ & Hl & _);
    [done|done|apply ex_coherent|vm_compute; reflexivity|].
  exists segs. split; [vm_compute; reflexivity|]. exact Hl.
Defined.

Definition ex_rename : DDL := ex_ddl RenameStr "t" "u" [] false.
Lemma rename_agrees_witness : exists s' before after, handle_rename (J := mod_jump) (DP := plain_ddl_printer) "db" ex_rename (ex_state [] false) = (Ok tt, s') /\
  Lookup (J := mod_jump) ex_router "db" "t" None None = Ok before /\ Lookup (J := mod_jump) (dsRouter s') "db" "u" None None = Ok after /\
  length before = length after.
Proof.
  eexists. destruct (HashUniform ex_conf "t" "id" ["b1"; "b2"] None) as [c| |] eqn:Hc; [|by vm_compute in Hc..].
  pose proof (HashUniform_names _ _ _ _ _ _ Hc) as Hn.
  destruct (rename_agrees (J := mod_jump) (DP := plain_ddl_printer) "db" ex_rename (ex_state [] false)
    (snd (handle_rename (J := mod_jump) (DP := plain_ddl_printer) "db" ex_rename (ex_state [] false))) c)
    as (_ & qs & before & after & _ & H1 & H2 & H3);
    [done|done|done|apply ex_coherent|vm_compute in Hc; injection Hc as <-; vm_compute; reflexivity|exact Hn|vm_compute; reflexivity|].
  exists before, after. split_and!; [vm_compute; reflexivity|exact H1|exact H2|by eapply Forall3_length_lm].
Defined.

(** ** DROP TABLE *)

(** Inside a multi-statement transaction the execution is refused, but the
    router drops the table all the same: nothing was sent, the statement fails
    and the table can no longer be reached. *)
Theorem drop_in_transaction `{R : MapRange, J : JumpHash, DP : DdlPrinter} database node t s r' :
  dsInTxn s = true -> dIfExists node = false -> tnQualifier t = "" ->
  is_Some (rSchemas (dsRouter s) !! database) -> database <> "" -> DropTable database (tnName t) (dsRouter s) = (Ok tt, r') ->
  handle_drop_tables database node [t] s = (Err HInTxn, mkDdlSt r' (dsSent s) (dsOut s) true) /\ table_at r' database (tnName t) = None.
Proof.
  intros Htx Hie Hq [sch Hsch] Hdb Hd. split.
  - destruct s as [r snt out tx]. simpl in *. subst tx.
    unfold handle_drop_tables, ddl_database. rewrite decide_True by done.
    unfold in_router, checkDatabase, mbind, M_bind, mtry, mget. simpl. rewrite decide_False by done. rewrite Hsch. simpl.
    rewrite Hie. simpl. by rewrite Hd.
  - apply dropTable_Ok in Hd as (sch2 & tb2 & dir2 & o2 & io2 & Hs2 & Ht2 & Hd2 & Ho2 & ->).
    by rewrite table_at_without, decide_True.
Qed.

(** [drop table if exists missing, t] stops at the missing table: it returns
    without an error and [t] is still there. *)
Theorem drop_if_exists_stops `{R : MapRange, J : JumpHash, DP : DdlPrinter} database node t ts s :
  dIfExists node = true -> tnQualifier t = "" -> database <> "" -> is_Some (rSchemas (dsRouter s) !! database) ->
  checkTableExists database (tnName t) (dsRouter s) = false ->
  handle_drop_tables database node (t :: ts) s = (Ok tt, s).
Proof.
  intros Hie Hq Hdb [sch Hsch] Hc. destruct s as [r snt out tx]. simpl in *.
  unfold ddl_database. rewrite decide_True by done.
  unfold in_router, checkDatabase, mbind, M_bind, mtry, mget. simpl. rewrite decide_False by done. rewrite Hsch. simpl.
  by rewrite Hie, Hc.
Qed.

(** The access check of DROP TABLE does not depend on the databases its tables
    name: with [ddl.Table] unset it is made for the empty name and for the
    database of the session. *)
Theorem drop_access_unchecked database node :
  dAction node = DropTableStr -> tnQualifier (dTable node) = "" -> forall db, db ∈ checked_databases database node -> db = "" \/ db = database.
Proof.
  intros Ha Hq db. unfold checked_databases. rewrite Ha. rewrite elem_of_app, list_elem_of_singleton.
  intros [(t & -> & _)%list_elem_of_fmap_1| ->]; [by left|by right].
Qed.
