(* ===== verification/Session.v ===== *)
(** * Sessions and transactions of the proxy (src/proxy: sessions.go, session.go, execute.go, multistmt_txn.go, manager.go, set.go, kill.go)

    A session of a client may hold a transaction of several statements; every
    other statement runs in a transaction of its own that ends with it.  A
    transaction is a pointer into a heap of transactions, since the session, the
    statement and the killer of idle sessions share it.

    A command of a client runs to its end before the next one starts: the model
    interleaves commands of sessions, not their inner steps. *)
From S2P Require Import Prelude GoStd Config Xcontext Pool Scatter Txn.
Open Scope string_scope.
Open Scope list_scope.
Open Scope Z_scope.

(** ** Data *)

(** The statements as far as the proxy tells them apart. *)
Inductive StmtKind := KSelect | KUnion | KInsert | KDelete | KUpdate | KDDL | KChecksum | KOptimize | KCheck | KTransaction (action : string).
Global Instance StmtKind_eq_dec : EqDecision StmtKind.
Proof. solve_decision. Defined.

(** A statement with its first comment; spaces of the comment are removed. *)
Record Stmt := mkStmt { stKind : StmtKind; stText : string; stComment : option string }.

Definition BeginTxnStr : string := "begin".
Definition StartTxnStr : string := "start transaction".
Definition RollbackTxnStr : string := "rollback".
Definition CommitTxnStr : string := "commit".

(** [driver.Session]: the part the server side reads. *)
Record DrvSession := mkDrv { dvID : Z; dvUser : string; dvLastQuery : Z }.

(** [session]; [seTxn] points into the heap of transactions. *)
Record session := mkSession {
  seNode : option Stmt; seQuery : string; seDrv : DrvSession; seTimestamp : Z; seCapabilities : Z; seTxn : option nat
}.

(** [config.ProxyConfig], the fields that are read here. *)
Record ProxyConfig := mkProxyConfig {
  pcTwopcEnable : bool; pcLoadBalance : Z; pcMaxConnections : Z; pcMaxResultSize : Z; pcMaxJoinRows : Z;
  pcDDLTimeout : Z; pcQueryTimeout : Z; pcIdleTxnTimeout : Z
}.

(** The proxy: the package backend, the heap of transactions, the sessions. *)
Record Px := mkPx { pxW : World; pxTxns : list Txn; pxSess : gmap Z session; pxConf : ProxyConfig }.

Inductive xerr :=
| XB (e : berr) | XPlan (e : string) | XTwopcOff | XNestedTxn | XNoTxn | XInTxn | XStreamSelect | XKillDenied (id : Z) | XSetType.
Abbreviation XM := (M Px xerr).

Definition set_sess (m : gmap Z session) (s : Px) : Px := mkPx (pxW s) (pxTxns s) m (pxConf s).

(** ** Calls into the package backend *)

(** A method of the transaction behind a pointer. *)
Definition with_txn {A} (loc : nat) (m : TM A) : XM A := fun s =>
  match pxTxns s !! loc with
  | None => (Panic, s)
  | Some t =>
      let '(r, tw) := m (mkTW (pxW s) t) in
      (match r with Ok a => Ok a | Err e => Err (XB e) | Panic => Panic end,
       mkPx (twW tw) (<[loc := twT tw]> (pxTxns s)) (pxSess s) (pxConf s))
  end.

(** [defer fin]: [fin] runs on every return of [m], its own result is dropped. *)
Definition finally {A} (m : XM A) (fin : XM unit) : XM A := fun s =>
  let '(r, s1) := m s in
  let '(r2, s2) := fin s1 in
  (match r2 with Panic => Panic | _ => r end, s2).

Section proxy.
Context `{D : Driver, R : MapRange}.

(** [scatter.CreateTransaction]: a new cell of the heap. *)
Definition NewTransaction : XM nat := fun s =>
  match CreateTransaction (pxW s) with
  | (Ok t, w) => (Ok (length (pxTxns s)), mkPx w (pxTxns s ++ [t]) (pxSess s) (pxConf s))
  | (Err e, w) => (Err (XB e), mkPx w (pxTxns s) (pxSess s) (pxConf s))
  | (Panic, w) => (Panic, mkPx w (pxTxns s) (pxSess s) (pxConf s))
  end.

(** The setters of a transaction. *)
Definition set_txn (loc : nat) (f : Txn -> Txn) : XM unit := with_txn loc (modify_txn f).

(** ** sessions.go *)

Definition cap_streaming_fetch : Z := 1.
(** [setStreamingFetchVar] and [getStreamingFetchVar] on the 32-bit mask. *)
Definition setStreamingFetchVar (r : bool) (ss : session) : session :=
  mkSession (seNode ss) (seQuery ss) (seDrv ss) (seTimestamp ss)
    (if r then Z.lor (seCapabilities ss) cap_streaming_fetch
     else Z.land (seCapabilities ss) (wrap 32 (Z.lnot cap_streaming_fetch))) (seTxn ss).
Definition getStreamingFetchVar (ss : session) : bool :=
  negb (Z.land (seCapabilities ss) cap_streaming_fetch =? 0).

(** [newSession] and [Sessions.Add] *)
Definition newSession (now : Z) (d : DrvSession) : session := mkSession None "" d now 0 None.
Definition Sessions_Add (d : DrvSession) : XM unit :=
  mmodify (fun s => set_sess (<[dvID d := newSession (wNow (pxW s)) d]> (pxSess s)) s).

(** [session.close]: the error of [Abort] is only logged. *)
Definition session_close (ss : session) : XM unit :=
  match seTxn ss with
  | None => mret tt
  | Some loc => _ ← mtry (with_txn loc Abort_); mret tt
  end.

(** [Sessions.Remove] and [Sessions.Kill] *)
Definition Sessions_Kill (id : Z) : XM unit :=
  s ← mget;
  match pxSess s !! id with
  | None => mret tt
  | Some ss => _ ← mmodify (fun s => set_sess (delete id (pxSess s)) s); session_close ss
  end.
Definition Sessions_Remove (d : DrvSession) : XM unit := Sessions_Kill (dvID d).

(** [Sessions.Reaches] *)
Definition Reaches (quota : Z) (s : Px) : bool := quota <=? Z.of_nat (size (pxSess s)).

(** [getTxnSession]; the callers dereference the result, so a missing session panics. *)
Definition getTxnSession (id : Z) : XM session :=
  s ← mget; match pxSess s !! id with Some ss => mret ss | None => mpanic end.

Definition truncated (query : string) : string := String.substring 0 128 query.

(** The fields [TxnBinding] and its variants set. *)
Definition bind_fields (id : Z) (f : session -> session) : XM unit :=
  mmodify (fun s => set_sess (alter f id (pxSess s)) s).
Definition bound (node : option Stmt) (query : string) (now : Z) (txn : option nat) (ss : session) : session :=
  mkSession node query (seDrv ss) now (seCapabilities ss) txn.

(** [Sessions.TxnBinding] *)
Definition TxnBinding (id : Z) (txn : nat) (node : Stmt) (query : string) : XM unit :=
  s ← mget;
  match pxSess s !! id with
  | None => mret tt
  | Some _ =>
      _ ← set_txn txn (set_SessionID id);
      bind_fields id (bound (Some node) (truncated query) (wNow (pxW s)) (Some txn))
  end.

(** [Sessions.TxnUnBinding] *)
Definition TxnUnBinding (id : Z) : XM unit :=
  s ← mget; bind_fields id (bound None "" (wNow (pxW s)) None).

(** [Sessions.MultiStmtTxnBinding]; no transaction keeps the one of the session. *)
Definition MultiStmtTxnBinding (id : Z) (txn : option nat) (node : Stmt) (query : string) : XM unit :=
  s ← mget;
  match pxSess s !! id with
  | None => mret tt
  | Some _ =>
      _ ← (match txn with Some loc => set_txn loc (set_SessionID id) | None => mret tt end);
      bind_fields id (fun ss => bound (Some node) (truncated query) (wNow (pxW s))
                                  (match txn with Some loc => Some loc | None => seTxn ss end) ss)
  end.

(** [Sessions.MultiStmtTxnUnBinding] *)
Definition MultiStmtTxnUnBinding (id : Z) (isEnd : bool) : XM unit :=
  s ← mget; bind_fields id (fun ss => bound None "" (wNow (pxW s)) (if isEnd then None else seTxn ss) ss).

(** [SessionInfo], the fields the manager reads. *)
Record SessionInfo := mkSessionInfo { siID : Z; siTime : Z; siInfo : string }.
Definition session_info (now : Z) (ss : session) : SessionInfo :=
  mkSessionInfo (dvID (seDrv ss)) (wrap 32 (now - dvLastQuery (seDrv ss))) (match seNode ss with Some _ => seQuery ss | None => "" end).

(** [SnapshotTxn], sorted by id *)
Definition info_le (a b : SessionInfo) : Prop := siID a <= siID b.
Global Instance info_le_dec : RelDecision info_le.
Proof. intros a b. unfold info_le. apply _. Defined.
Definition SnapshotTxn (s : Px) : list SessionInfo :=
  merge_sort info_le ((fun kv => session_info (wNow (pxW s)) (snd kv))
    <$> filter (fun kv => is_Some (seTxn (snd kv))) (map_to_list (pxSess s))).

(** ** manager.go *)

(** The sessions [killIdleTxn] kills. *)
Definition is_idle (timeout : Z) (i : SessionInfo) : bool :=
  (timeout <? siTime i) && (bool_decide (siInfo i = BeginTxnStr) || bool_decide (siInfo i = "")).
Definition killIdleTxn : XM unit :=
  s ← mget;
  if pcIdleTxnTimeout (pxConf s) =? 0 then mret tt
  else miter (fun i => Sessions_Kill (siID i)) (filter (fun i => is_idle (pcIdleTxnTimeout (pxConf s)) i = true) (SnapshotTxn s)).

(** ** execute.go *)

(** [isExecOnRep] *)
Definition isExecOnRep (loadBalance : Z) (node : Stmt) : bool :=
  match stKind node with
  | KSelect =>
      match stComment node with
      | Some c =>
          if decide (c = "/*+loadbalance=0*/") then false
          else if decide (c = "/*+loadbalance=1*/") then true else negb (loadBalance =? 0)
      | None => negb (loadBalance =? 0)
      end
  | _ => false
  end.

(** [IsDML] (query.go) *)
Definition IsDML (node : Stmt) : bool :=
  match stKind node with KSelect | KUnion | KInsert | KDelete | KUpdate => true | _ => false end.

(** Every exit of an execution goes through the deferred calls: the session is
    unbound, then the transaction is finished. *)
Definition in_transaction {A} (session : Z) (node : Stmt) (query : string) (limits : Txn -> Txn) (body : nat -> XM A) : XM A :=
  txn ← NewTransaction;
  finally
    (_ ← set_txn txn limits;
     _ ← TxnBinding session txn node query;
     finally (body txn) (TxnUnBinding session))
    (with_txn txn Finish).

Definition query_limits (conf : ProxyConfig) (timeout : Z) (node : Stmt) (t : Txn) : Txn :=
  set_IsExecOnRep (isExecOnRep (pcLoadBalance conf) node)
    (set_MaxJoinRows (pcMaxJoinRows conf) (set_MaxResult (pcMaxResultSize conf) (set_Timeout timeout t))).

(** What a statement does to its transaction: the requests its executors send,
    each depending on the results before.  The planner and the executors
    ([BuildPlanTree] and [Tree.Execute]) turn a statement into such a program. *)
Inductive Prog :=
| Done (r : Result + berr)
| Request (req : RequestContext) (k : Result + berr -> Prog).
Fixpoint run_prog (p : Prog) : TM Result :=
  match p with
  | Done (inl r) => mret r
  | Done (inr e) => mfail e
  | Request req k => x ← mtry (txn_Execute req); run_prog (k x)
  end.

(** The plan of a statement in a database, with the error of planning; the plan
    of a streamed SELECT is its list of queries. *)
Class Planning := { plan_of : string -> Stmt -> Prog + string; stream_of : string -> Stmt -> list QueryTuple + string }.
Context `{PL : Planning}.

Definition build (database : string) (node : Stmt) : XM Prog :=
  match plan_of database node with inl p => mret p | inr e => mfail (XPlan e) end.

(** [executeWithTimeout] *)
Definition executeWithTimeout (session : Z) (database query : string) (node : Stmt) (timeout : Z) : XM Result :=
  s ← mget;
  in_transaction session node query (query_limits (pxConf s) timeout node)
    (fun txn => p ← build database node; with_txn txn (run_prog p)).

(** [ExecuteNormal] *)
Definition ExecuteNormal (session : Z) (database query : string) (node : Stmt) : XM Result :=
  s ← mget; executeWithTimeout session database query node (pcQueryTimeout (pxConf s)).

(** [ExecuteDDL] *)
Definition px_ExecuteDDL (session : Z) (database query : string) (node : Stmt) : XM Result :=
  ss ← getTxnSession session;
  s ← mget;
  if pcTwopcEnable (pxConf s) && bool_decide (is_Some (seTxn ss)) then mfail XInTxn
  else executeWithTimeout session database query node (pcDDLTimeout (pxConf s)).

(** [ExecuteSingleStmtTxnTwoPC]; the error of the rollback is only logged. *)
Definition ExecuteSingleStmtTxnTwoPC (session : Z) (database query : string) (node : Stmt) : XM Result :=
  s ← mget;
  in_transaction session node query (query_limits (pxConf s) (pcQueryTimeout (pxConf s)) node)
    (fun txn =>
       _ ← with_txn txn Begin;
       p ← build database node;
       x ← mtry (with_txn txn (run_prog p));
       match x with
       | inr e => _ ← mtry (with_txn txn RollbackPhaseOne); mfail e
       | inl qr => _ ← with_txn txn Commit; mret qr
       end).

(** [ExecuteMultiStmtsInTxn]; a session without a transaction gives the
    executors a nil pointer. *)
Definition ExecuteMultiStmtsInTxn (session : Z) (database query : string) (node : Stmt) : XM Result :=
  ss ← getTxnSession session;
  _ ← MultiStmtTxnBinding session None node query;
  p ← build database node;
  match seTxn ss with
  | None => mpanic
  | Some txn => qr ← with_txn txn (run_prog p); _ ← MultiStmtTxnUnBinding session false; mret qr
  end.

(** [ExecuteDML] after the privilege check *)
Definition ExecuteDML (session : Z) (database query : string) (node : Stmt) : XM Result :=
  s ← mget;
  if pcTwopcEnable (pxConf s) then
    ss ← getTxnSession session;
    if IsDML node then
      match seTxn ss with
      | None => ExecuteSingleStmtTxnTwoPC session database query node
      | Some _ => ExecuteMultiStmtsInTxn session database query node
      end
    else ExecuteNormal session database query node
  else ExecuteNormal session database query node.

(** [ExecuteStreamFetch]: the connections are taken in the order of the queries;
    [out] is what reading the cursors and sending the rows gave. *)
Definition ExecuteStreamFetch (session : Z) (database query : string) (node : Stmt) (out : option berr) : XM unit :=
  s ← mget;
  in_transaction session node query (set_IsExecOnRep (negb (pcLoadBalance (pxConf s) =? 0)))
    (fun txn =>
       if decide (stKind node = KSelect) then
         match stream_of database node with
         | inr e => mfail (XPlan e)
         | inl qs =>
             with_txn txn (_ ← miter (fun q => _ ← fetchOneConnection (qtBackend q); mret tt) qs;
                           match out with None => mret tt | Some e => mfail e end)
         end
       else mfail XStreamSelect).

(** [ExecuteSingle], [ExecuteScatter] and [ExecuteOnThisBackend] *)
Definition unbound {A} (m : TM A) : XM A :=
  txn ← NewTransaction; finally (with_txn txn m) (with_txn txn Finish).
Definition px_ExecuteSingle (query : string) : XM Result := unbound (ExecuteSingle query).
Definition px_ExecuteScatter (query : string) : XM Result := unbound (ExecuteScatter query).
Definition px_ExecuteOnThisBackend (backend query : string) : XM Result := unbound (ExecuteOnThisBackend backend query).

(** ** multistmt_txn.go *)

(** [ExecuteBegin] *)
Definition ExecuteBegin (session : Z) (query : string) (node : Stmt) : XM unit :=
  s ← mget;
  if negb (pcTwopcEnable (pxConf s)) then mfail XTwopcOff
  else
    ss ← getTxnSession session;
    match seTxn ss with
    | Some _ => mfail XNestedTxn
    | None =>
        txn ← NewTransaction;
        _ ← set_txn txn (fun t => set_IsExecOnRep false (set_IsMulti true (set_MaxJoinRows (pcMaxJoinRows (pxConf s))
              (set_MaxResult (pcMaxResultSize (pxConf s)) (set_Timeout (pcQueryTimeout (pxConf s)) t)))));
        _ ← MultiStmtTxnBinding session (Some txn) node query;
        x ← mtry (with_txn txn BeginScatter);
        match x with
        | inl _ => mret tt
        | inr e => _ ← mtry (with_txn txn Finish); _ ← MultiStmtTxnUnBinding session true; mfail e
        end
    end.

(** The common part of [ExecuteRollback] and [ExecuteCommit]: after an error the
    session keeps the transaction. *)
Definition end_txn (m : TM unit) (session : Z) (query : string) (node : Stmt) : XM unit :=
  s ← mget;
  if negb (pcTwopcEnable (pxConf s)) then mfail XTwopcOff
  else
    ss ← getTxnSession session;
    match seTxn ss with
    | None => mfail XNoTxn
    | Some txn =>
        _ ← MultiStmtTxnBinding session None node query;
        _ ← with_txn txn m;
        _ ← MultiStmtTxnUnBinding session true;
        _ ← mtry (with_txn txn Finish);
        mret tt
    end.
Definition ExecuteRollback : Z -> string -> Stmt -> XM unit := end_txn RollbackScatter.
Definition ExecuteCommit : Z -> string -> Stmt -> XM unit := end_txn CommitScatter.

(** [handleMultiStmtTxn] *)
Definition handleMultiStmtTxn (session : Z) (action : string) : XM unit :=
  let node := mkStmt (KTransaction action) action None in
  if decide (action = StartTxnStr \/ action = BeginTxnStr) then ExecuteBegin session action node
  else if decide (action = RollbackTxnStr) then ExecuteRollback session action node
  else if decide (action = CommitTxnStr) then ExecuteCommit session action node
  else mret tt.

(** ** set.go *)

(** The value of an assignment: a string, an integer, another literal, a
    boolean, or else. *)
Inductive SetVal := SvStr (s : string) | SvInt (s : string) | SvLiteral | SvBool (b : bool) | SvOther.

Definition set_streaming (session : Z) (b : bool) : XM unit := _ ← getTxnSession session; bind_fields session (setStreamingFetchVar b).
Definition streaming_value (session : Z) (v : SetVal) : XM unit :=
  match v with
  | SvStr s => if decide (ToLower s = "on") then set_streaming session true
               else if decide (ToLower s = "off") then set_streaming session false else mret tt
  | SvInt _ | SvLiteral => mfail XSetType
  | SvBool b => set_streaming session b
  | SvOther => mret tt
  end.
Definition autocommit_value (v : SetVal) : bool :=
  match v with
  | SvInt (String "0" _) => false
  | SvStr s => negb (bool_decide (ToLower s = "off"))
  | SvBool b => b
  | _ => true
  end.

(** [handleSet]; [autoTxn] is the setting that switching the automatic commit
    off begins a transaction. *)
Fixpoint handleSet (autoTxn : bool) (session : Z) (exprs : list (string * SetVal)) : XM unit :=
  match exprs with
  | [] => mret tt
  | (name, v) :: exprs =>
      let name := TrimPrefix (ToLower name) "@@session." in
      if decide (name = "radon_streaming_fetch") then _ ← streaming_value session v; handleSet autoTxn session exprs
      else if decide (name = "autocommit") then
        if negb (autocommit_value v) && autoTxn then handleMultiStmtTxn session BeginTxnStr else handleSet autoTxn session exprs
      else handleSet autoTxn session exprs
  end.

(** [handleKill] (kill.go): a user without the super privilege may kill only its
    own sessions; a session that does not exist is a nil dereference. *)
Definition handleKill (super : string -> bool) (user : string) (id : Z) : XM unit :=
  _ ← (if super user then mret tt
       else ss ← getTxnSession id; if decide (dvUser (seDrv ss) = user) then mret tt else mfail (XKillDenied id));
  Sessions_Kill id.
End proxy.
