(* ===== verification/SessionProps.v ===== *)
(** * Transactions are not lost

    Between the commands of clients the registered transactions are those that
    sessions hold, each held by one session; when the last session is gone no
    transaction is left. *)
From S2P Require Import Prelude GoStd Config Xcontext Pool PoolProps Scatter ScatterProps Txn TxnProps Session.
Open Scope string_scope.
Open Scope list_scope.
Open Scope Z_scope.

(** ** What the methods of a transaction leave alone *)
Definition live (st : txnState) : Prop := st <> txnStateFinshing /\ st <> txnStateAborting.

Record same_registry (w w' : World) : Prop := {
  sr_txnz : wTxnz w' = wTxnz w; sr_nums : wTxnNums w' = wTxnNums w; sr_id : wTxnid w' = wTxnid w
}.
Record keeps (s s' : TW) : Prop := {
  k_id : tId (twT s') = tId (twT s);
  k_world : same_registry (twW s) (twW s');
  k_live : live (tState (twT s)) -> live (tState (twT s'))
}.
Definition gentle {A} (m : TM A) : Prop := forall s, keeps s (snd (m s)).
Definition wgentle {A} (m : WM A) : Prop := forall w, same_registry w (snd (m w)).

Lemma same_registry_refl w : same_registry w w.
Proof. by split. Qed.
Lemma same_registry_trans a b c : same_registry a b -> same_registry b c -> same_registry a c.
Proof. intros [] []. split; congruence. Qed.
Lemma keeps_refl s : keeps s s.
Proof. split; [done|apply same_registry_refl|done]. Qed.
Lemma keeps_trans a b c : keeps a b -> keeps b c -> keeps a c.
Proof. intros [? H1 ?] [? H2 ?]. split; [congruence|by eapply same_registry_trans|auto]. Qed.

Lemma gentle_bind {A B} (m : TM A) (k : A -> TM B) : gentle m -> (forall a, gentle (k a)) -> gentle (x ← m; k x).
Proof.
  intros Hm Hk s. unfold mbind, M_bind. specialize (Hm s). destruct (m s) as [[a|e|] s1]; [|done..].
  eapply keeps_trans; [exact Hm|apply Hk].
Qed.
Lemma gentle_same {A} (m : TM A) : (forall s, snd (m s) = s) -> gentle m.
Proof. intros Hm s. rewrite Hm. apply keeps_refl. Qed.
Lemma gentle_mtry {A} (m : TM A) : gentle m -> gentle (mtry m).
Proof. intros Hm s. specialize (Hm s). unfold mtry. by destruct (m s) as [[]]. Qed.
Lemma gentle_pools {A} (m : TM A) : pools_only m -> gentle m.
Proof. intros Hm s. destruct (Hm s) as [Ht [l Hl]]. split; [by rewrite Ht|rewrite Hl; by split|by rewrite Ht]. Qed.
Lemma gentle_on_pool {A} loc rep (m : PM A) : gentle (on_pool loc rep m).
Proof. apply gentle_pools, pools_only_on_pool. Qed.
Lemma gentle_miter {A} (f : A -> TM unit) l : (forall a, gentle (f a)) -> gentle (miter f l).
Proof. intros Hf. induction l as [|x l IH]; simpl; [by apply gentle_same|by apply gentle_bind]. Qed.
Lemma gentle_eg {A} (ts : list (TM A)) : Forall gentle ts -> gentle (eg_run ts).
Proof.
  induction 1 as [|t ts Ht Hts IH]; simpl; [by apply gentle_same|].
  apply gentle_bind; [by apply gentle_mtry|]. intros x. apply gentle_bind; [by apply gentle_mtry|]. intros y.
  destruct x, y; by apply gentle_same.
Qed.
Lemma gentle_in_world {A} (m : WM A) : wgentle m -> gentle (in_world m).
Proof. intros Hm s. unfold in_world. specialize (Hm (twW s)). destruct (m (twW s)) as [r w]. by split. Qed.
Lemma wgentle_count name : wgentle (txn_count name).
Proof. by intros w. Qed.
Lemma gentle_modify f : (forall t, tId (f t) = tId t /\ (live (tState t) -> live (tState (f t)))) -> gentle (modify_txn f).
Proof. intros Hf s. simpl. destruct (Hf (twT s)). by split. Qed.
Lemma wgentle_bind {A B} (m : WM A) (k : A -> WM B) : wgentle m -> (forall a, wgentle (k a)) -> wgentle (x ← m; k x).
Proof.
  intros Hm Hk s. unfold mbind, M_bind. specialize (Hm s). destruct (m s) as [[a|e|] s1]; [|done..].
  eapply same_registry_trans; [exact Hm|apply Hk].
Qed.
Lemma wgentle_same {A} (m : WM A) : (forall w, same_registry w (snd (m w))) -> wgentle m.
Proof. done. Qed.

Create HintDb gentle.
(** A method is followed through its calls. *)
Ltac gentle_step :=
  first
    [ solve [auto 2 with gentle nocore]
    | apply gentle_bind; [|intros]
    | apply gentle_mtry
    | apply gentle_on_pool
    | apply gentle_miter; intros
    | apply gentle_in_world, wgentle_count
    | apply gentle_modify; intros; by split
    | apply gentle_modify; intros; split; [done|by case_match]
    | apply gentle_same; done
    | case_match ].
Ltac gentle_tac := repeat gentle_step.

Section methods.
Context `{D : Driver, R : MapRange}.

Lemma gentle_WriteXa xid st : gentle (in_world (WriteXaCommitErrLog xid st)).
Proof.
  apply gentle_in_world. intros w. unfold WriteXaCommitErrLog, mbind, M_bind, mget. cbn [fst snd].
  destruct (wXa w) as [xc|] eqn:Hxa; [|by split]. unfold addXaCommitErrLog. rewrite Hxa. cbn [xXaid].
  destruct (xcRetrys xc !! xid) eqn:Hx; [by split|].
  unfold flushXaCommitErrLog, or_panic, write_file, mbind, M_bind, mtry, mget, wnext_io. cbn.
  destruct (wIo w) as [|[] io]; by split.
Qed.
Lemma gentle_twopc b : gentle (twopcConnection b).
Proof. unfold twopcConnection. gentle_tac. Qed.
Hint Resolve gentle_WriteXa gentle_twopc : gentle.
Lemma gentle_reFetch b : gentle (reFetchTwopcConnection b).
Proof. unfold reFetchTwopcConnection. gentle_tac. Qed.
Lemma gentle_normal b : gentle (normalConnection b).
Proof. unfold normalConnection. gentle_tac. Qed.
Lemma gentle_replica b : gentle (replicaConnection b).
Proof. unfold replicaConnection. gentle_tac. Qed.
Hint Resolve gentle_reFetch gentle_normal gentle_replica : gentle.
Lemma gentle_fetchOne b : gentle (fetchOneConnection b).
Proof. unfold fetchOneConnection. gentle_tac. Qed.
Lemma gentle_retry n first b q x : gentle (xa_retry n first b q x).
Proof. revert first x. induction n as [|n IH]; intros first x; simpl; gentle_tac. Qed.
Hint Resolve gentle_fetchOne gentle_retry : gentle.
Lemma gentle_shard st q b : gentle (xa_oneShard st q b).
Proof. unfold xa_oneShard. destruct st; gentle_tac. Qed.
Lemma gentle_XA q st : gentle (executeXACommand q st).
Proof.
  unfold executeXACommand, executeXA. gentle_tac. apply gentle_eg, Forall_fmap, Forall_forall. intros b _. apply gentle_shard.
Qed.
Hint Resolve gentle_XA : gentle.
Lemma gentle_phase c st f q : gentle (xa_phase c st f q).
Proof. unfold xa_phase, incErrors. gentle_tac. Qed.
Lemma gentle_second c l st f q : gentle (xa_second c l st f q).
Proof. unfold xa_second, incErrors. gentle_tac. Qed.
Hint Resolve gentle_phase gentle_second : gentle.
Lemma gentle_xaStart : gentle xaStart.
Proof. unfold xaStart. gentle_tac. Qed.
Lemma gentle_xaEnd : gentle xaEnd.
Proof. unfold xaEnd. gentle_tac. Qed.
Lemma gentle_xaPrepare : gentle xaPrepare.
Proof. unfold xaPrepare. gentle_tac. Qed.
Lemma gentle_xaCommit : gentle xaCommit.
Proof. unfold xaCommit. gentle_tac. Qed.
Lemma gentle_xaRollback : gentle xaRollback.
Proof. unfold xaRollback. gentle_tac. Qed.
Hint Resolve gentle_xaStart gentle_xaEnd gentle_xaPrepare gentle_xaCommit gentle_xaRollback : gentle.
Lemma gentle_exec_querys h a b qs : gentle (exec_querys h a b qs).
Proof. induction qs as [|q qs IH]; simpl; gentle_tac. Qed.
Hint Resolve gentle_exec_querys : gentle.
Lemma gentle_Execute req : gentle (txn_Execute req).
Proof.
  unfold txn_Execute, incErrors, txn_execute. gentle_tac.
  apply gentle_eg, Forall_fmap, Forall_forall. intros [b qs] _. unfold oneShard. simpl. gentle_tac.
Qed.
Lemma gentle_prog p : gentle (run_prog p).
Proof. induction p as [[r|e]|req k IH]; simpl; [by apply gentle_same..|]. apply gentle_bind; [apply gentle_mtry, gentle_Execute|done]. Qed.
Lemma gentle_Begin : gentle Begin.
Proof. unfold Begin. gentle_tac. Qed.
Lemma gentle_Commit : gentle Commit.
Proof. unfold Commit, if_write. gentle_tac. Qed.
Lemma gentle_RollbackPhaseOne : gentle RollbackPhaseOne.
Proof. unfold RollbackPhaseOne, if_write. gentle_tac. Qed.
Lemma gentle_BeginScatter : gentle BeginScatter.
Proof. unfold BeginScatter. gentle_tac. Qed.
Lemma gentle_CommitScatter : gentle CommitScatter.
Proof. unfold CommitScatter. gentle_tac. Qed.
Lemma gentle_RollbackScatter : gentle RollbackScatter.
Proof. unfold RollbackScatter. gentle_tac. Qed.
End methods.
#[export] Hint Resolve gentle_Execute gentle_prog gentle_Begin gentle_Commit gentle_RollbackPhaseOne gentle_BeginScatter
  gentle_CommitScatter gentle_RollbackScatter gentle_fetchOne : gentle.

(** ** The end of a transaction in the registry *)
Definition noerr {S E A} (m : M S E A) : Prop := forall s e s', m s <> (Err e, s').

Lemma noerr_bind {S E A B} (m : M S E A) (k : A -> M S E B) : noerr m -> (forall a, noerr (k a)) -> noerr (x ← m; k x).
Proof.
  intros Hm Hk s e s'. unfold mbind, M_bind. destruct (m s) as [[a|e'|] s1] eqn:E1; [apply Hk| |done].
  by destruct (Hm _ _ _ E1).
Qed.
Lemma noerr_ret {S E A} (f : S -> A) (g : S -> S) : noerr (fun s => (Ok (E := E) (f s), g s)).
Proof. by intros s e s' [=]. Qed.
Lemma noerr_mtry {S E A} (m : M S E A) : noerr (mtry m).
Proof. intros s e s'. unfold mtry. by destruct (m s) as [[]]. Qed.
Lemma noerr_miter {S E A} (f : A -> M S E unit) l : (forall a, noerr (f a)) -> noerr (miter f l).
Proof. intros Hf. induction l as [|x l IH]; simpl; [apply noerr_ret|by apply noerr_bind]. Qed.
Lemma noerr_on_pool {A} loc rep (m : PM A) : noerr m -> noerr (on_pool loc rep m).
Proof.
  intros Hm s e s'. unfold on_pool. case_match; [|done]. destruct (m _) as [[a|e'|] p'] eqn:E1; try done. by destruct (Hm _ _ _ E1).
Qed.
Lemma noerr_Recycle c : noerr (Recycle c).
Proof.
  intros p e p'. unfold Recycle, Put, put, count, mbind, M_bind, conn_get, mget. destruct (pHeap p !! c) as [x|]; [|done]. simpl.
  repeat case_match; done.
Qed.
Lemma noerr_give errors h : noerr (give_back errors h).
Proof. unfold give_back. case_match; apply noerr_on_pool; [apply noerr_ret|apply noerr_Recycle]. Qed.
Lemma noerr_abort `{D : Driver} h : noerr (abort_conn h).
Proof. apply noerr_bind; [apply noerr_mtry|intros; apply noerr_ret]. Qed.

Definition ended (s s' : TW) : Prop :=
  tId (twT s') = tId (twT s) /\ wTxnz (twW s') = wTxnz (twW s) ∖ {[ tId (twT s) ]} /\
  wTxnNums (twW s') = swrap 64 (wTxnNums (twW s) - 1) /\ wTxnid (twW s') = wTxnid (twW s).

Lemma Finish_ends `{D : Driver, R : MapRange} s r s' : live (tState (twT s)) -> Finish s = (r, s') -> r <> Panic -> ended s s'.
Proof.
  intros [Hf Ha] H Hr. destruct r as [[]|e|]; [| |done].
  - apply Finish_body in H as (s2 & s4 & s5 & E2 & E4 & E5 & ->); [|done].
    apply give_frame in E2 as [Ht2 [l2 Hl2]]. apply give_frame in E4 as [Ht4 [l4 Hl4]]. apply give_frame in E5 as [Ht5 [l5 Hl5]].
    unfold ended. cbn. rewrite Ht5, Ht4, Hl5, Hl4. cbn. rewrite Ht2, Hl2. done.
  - exfalso. revert H. unfold Finish. apply noerr_bind; [apply noerr_ret|]. intros _.
    apply noerr_bind; [apply noerr_ret|]. intros s0. apply noerr_bind; [|intros; apply noerr_ret].
    case_decide; [apply noerr_ret|].
    repeat (apply noerr_bind; [first [apply noerr_ret|apply noerr_miter, noerr_give]|intros _]). apply noerr_ret.
Qed.

Lemma Abort_ends `{D : Driver, R : MapRange} s r s' : live (tState (twT s)) -> Abort_ s = (r, s') -> r <> Panic -> ended s s'.
Proof.
  intros [Hf Ha] H Hr. destruct r as [[]|e|]; [| |done].
  - apply Abort_body in H as (w5 & Hn & Hz & Hi & ->); [|done]. unfold ended. cbn. by rewrite Hn, Hz, Hi.
  - exfalso. revert H. unfold Abort_. apply noerr_bind; [apply noerr_ret|]. intros _.
    apply noerr_bind; [apply noerr_ret|]. intros s0. apply noerr_bind; [|intros; apply noerr_ret].
    case_decide; [apply noerr_ret|].
    repeat (apply noerr_bind; [first [apply noerr_ret|apply noerr_miter, noerr_abort]|intros _]). apply noerr_ret.
Qed.

(** ** The invariant between commands *)
Definition holds (s : Px) (sid : Z) (loc : nat) : Prop := exists ss, pxSess s !! sid = Some ss /\ seTxn ss = Some loc.

(** [inv o s]: [o] is a transaction that a running command has and no session holds. *)
Record inv (o : option nat) (s : Px) : Prop := {
  i_live : forall loc, (exists sid, holds s sid loc) \/ o = Some loc ->
    exists t, pxTxns s !! loc = Some t /\ live (tState t) /\ tId t ∈ wTxnz (pxW s);
  i_one : forall sid sid' loc, holds s sid loc -> holds s sid' loc -> sid = sid';
  i_own : forall sid loc, o = Some loc -> ~ holds s sid loc;
  i_all : forall id, id ∈ wTxnz (pxW s) -> exists loc t, pxTxns s !! loc = Some t /\ tId t = id /\
    ((exists sid, holds s sid loc) \/ o = Some loc);
  i_ids : forall loc t, pxTxns s !! loc = Some t -> tId t <= wTxnid (pxW s);
  i_inj : forall loc loc' t t', pxTxns s !! loc = Some t -> pxTxns s !! loc' = Some t' -> tId t = tId t' -> loc = loc';
  i_nums : wTxnNums (pxW s) = swrap 64 (Z.of_nat (size (wTxnz (pxW s))));
  i_key : forall sid ss, pxSess s !! sid = Some ss -> dvID (seDrv ss) = sid
}.

(** A change that keeps the sessions, and the transactions up to fields that do not matter. *)
Record tame (s s' : Px) : Prop := {
  c_sess : pxSess s' = pxSess s;
  c_conf : pxConf s' = pxConf s;
  c_reg : same_registry (pxW s) (pxW s');
  c_len : length (pxTxns s') = length (pxTxns s);
  c_txn : forall loc t', pxTxns s' !! loc = Some t' -> exists t, pxTxns s !! loc = Some t /\ tId t' = tId t /\
    (live (tState t) -> live (tState t'))
}.

Lemma tame_refl s : tame s s.
Proof. split; [done|done|apply same_registry_refl|done|]. intros loc t' H. by exists t'. Qed.
Lemma tame_trans a b c : tame a b -> tame b c -> tame a c.
Proof.
  intros [H1 H2 H3 H4 H5] [G1 G2 G3 G4 G5]. split; [congruence|congruence|by eapply same_registry_trans|congruence|].
  intros loc t'' (t' & Ht' & Hid' & Hl')%G5. apply H5 in Ht' as (t & Ht & Hid & Hl). exists t. split_and!; [done|congruence|auto].
Qed.

Lemma tame_inv o s s' : tame s s' -> inv o s -> inv o s'.
Proof.
  intros [Hs _ [Hz Hn Hi] Hlen Ht] [H1 H2 H3 H4 H5 H6 H7 H8].
  assert (forall sid loc, holds s' sid loc <-> holds s sid loc) as Hh by (intros; unfold holds; by rewrite Hs).
  assert (forall loc t, pxTxns s !! loc = Some t -> exists t', pxTxns s' !! loc = Some t' /\ tId t' = tId t /\ (live (tState t) -> live (tState t'))) as Ht2.
  { intros loc t Hl. destruct (lookup_lt_is_Some_2 (pxTxns s') loc) as [t' Ht'].
    { rewrite Hlen. by eapply lookup_lt_Some. }
    destruct (Ht _ _ Ht') as (t0 & Ht0 & ? & ?). exists t'. simplify_eq. done. }
  split.
  - intros loc Hl. destruct (H1 loc) as (t & Hl1 & Hl2 & Hl3).
    { destruct Hl as [[sid Hl]|Hl]; [left; exists sid; by apply Hh|by right]. }
    destruct (Ht2 _ _ Hl1) as (t' & ? & Hid & ?). exists t'. rewrite Hz, Hid. eauto.
  - intros sid sid' loc Ha Hb. apply (H2 sid sid' loc); by apply Hh.
  - intros sid loc Ho Ha. apply (H3 sid loc Ho). by apply Hh.
  - intros id Hid. rewrite Hz in Hid. destruct (H4 id Hid) as (loc & t & Hl & He & Hor). destruct (Ht2 _ _ Hl) as (t' & ? & Hid' & _).
    exists loc, t'. split_and!; [done|congruence|]. destruct Hor as [[sid Hor]|Hor]; [left; exists sid; by apply Hh|by right].
  - intros loc t' (t & Hl & Hid & _)%Ht. rewrite Hid, Hi. eauto.
  - intros loc loc' t1 t2 (t & Hl & Hid & _)%Ht (t' & Hl' & Hid' & _)%Ht Heq. apply (H6 loc loc' t t' Hl Hl'). congruence.
  - by rewrite Hn, Hz.
  - by rewrite Hs.
Qed.

(** [tamely m]: whatever its result, [m] only makes tame changes. *)
Definition tamely {A} (m : XM A) : Prop := forall s, tame s (snd (m s)).
Lemma tamely_bind {A B} (m : XM A) (k : A -> XM B) : tamely m -> (forall a, tamely (k a)) -> tamely (x ← m; k x).
Proof.
  intros Hm Hk s. unfold mbind, M_bind. specialize (Hm s). destruct (m s) as [[a|e|] s1]; [|done..].
  eapply tame_trans; [exact Hm|apply Hk].
Qed.
Lemma tamely_same {A} (m : XM A) : (forall s, snd (m s) = s) -> tamely m.
Proof. intros Hm s. rewrite Hm. apply tame_refl. Qed.
Lemma tamely_mtry {A} (m : XM A) : tamely m -> tamely (mtry m).
Proof. intros Hm s. specialize (Hm s). unfold mtry. by destruct (m s) as [[]]. Qed.
Lemma tamely_txn {A} loc (m : TM A) : gentle m -> tamely (with_txn loc m).
Proof.
  intros Hm s. unfold with_txn. destruct (pxTxns s !! loc) as [t|] eqn:Ht; [|apply tame_refl].
  specialize (Hm (mkTW (pxW s) t)). destruct (m _) as [r tw]. destruct Hm as [Hid Hw Hl]. simpl in *.
  split; [done|done|done|apply length_insert|]. intros loc' t'. simpl. rewrite list_lookup_insert_Some.
  intros [(<- & <- & _)|[_ Hl']]; [by exists t|by exists t'].
Qed.

(** A change of the sessions that keeps the set of transactions in use. *)
Lemma inv_sess o o' s m : inv o s ->
  (forall loc, (exists sid, holds (set_sess m s) sid loc) \/ o' = Some loc <-> (exists sid, holds s sid loc) \/ o = Some loc) ->
  (forall sid sid' loc, holds (set_sess m s) sid loc -> holds (set_sess m s) sid' loc -> sid = sid') ->
  (forall sid loc, o' = Some loc -> ~ holds (set_sess m s) sid loc) ->
  (forall sid ss, m !! sid = Some ss -> dvID (seDrv ss) = sid) -> inv o' (set_sess m s).
Proof.
  intros [H1 H2 H3 H4 H5 H6 H7 H8] Hh Hone Hown Hkey. split; try done.
  - intros loc Hl. simpl. apply H1. by apply Hh.
  - intros id Hid. destruct (H4 id Hid) as (loc & t & ? & ? & Hor). exists loc, t. split_and!; [done..|]. by apply Hh.
Qed.

Lemma holds_alter f sid s sid' loc : holds (set_sess (alter f sid (pxSess s)) s) sid' loc <->
  if decide (sid' = sid) then exists ss, pxSess s !! sid = Some ss /\ seTxn (f ss) = Some loc else holds s sid' loc.
Proof.
  unfold holds. simpl. case_decide as E.
  - subst. rewrite lookup_alter_eq. destruct (pxSess s !! sid) as [ss|]; simpl; naive_solver.
  - by rewrite lookup_alter_ne.
Qed.

Lemma alter_key f sid s o : inv o s -> (forall ss, seDrv (f ss) = seDrv ss) ->
  forall sid' ss, alter f sid (pxSess s) !! sid' = Some ss -> dvID (seDrv ss) = sid'.
Proof.
  intros Hi Hf sid' ss. rewrite lookup_alter_Some. intros [(<- & ss0 & H0 & ->)|[_ H0]]; [rewrite Hf|]; by apply (i_key _ _ Hi).
Qed.

(** Fields other than the transaction. *)
Lemma inv_fields f sid o s : inv o s -> (forall ss, seDrv (f ss) = seDrv ss /\ seTxn (f ss) = seTxn ss) ->
  inv o (set_sess (alter f sid (pxSess s)) s).
Proof.
  intros Hi Hf. assert (forall sid' loc, holds (set_sess (alter f sid (pxSess s)) s) sid' loc <-> holds s sid' loc) as Hh.
  { intros sid' loc. rewrite holds_alter. case_decide as E; [|done]. subst. unfold holds.
    split; intros (ss & H1 & H2); exists ss; destruct (Hf ss); split; congruence. }
  eapply inv_sess; [exact Hi|..].
  - intros loc. split; (intros [[sid' H]|H]; [left; exists sid'; by apply Hh|by right]).
  - intros a b loc Ha Hb. apply Hh in Ha, Hb. by eapply (i_one _ _ Hi).
  - intros a loc Ho Ha. apply Hh in Ha. by eapply (i_own _ _ Hi).
  - eapply alter_key; [exact Hi|]. intros. apply Hf.
Qed.

(** The session takes the transaction of the command. *)
Lemma inv_bind f sid ss loc s : inv (Some loc) s -> pxSess s !! sid = Some ss -> seTxn ss = None ->
  (forall ss, seDrv (f ss) = seDrv ss /\ seTxn (f ss) = Some loc) ->
  inv None (set_sess (alter f sid (pxSess s)) s) /\ holds (set_sess (alter f sid (pxSess s)) s) sid loc.
Proof.
  intros Hi Hs Hn Hf.
  assert (forall sid' l, holds (set_sess (alter f sid (pxSess s)) s) sid' l <-> (sid' = sid /\ l = loc) \/ holds s sid' l) as Hh.
  { intros sid' l. rewrite holds_alter. case_decide as E.
    - subst. split; [intros (ss0 & H1 & H2); left; destruct (Hf ss0); split; congruence|].
      intros [[_ ->]|(ss0 & H1 & H2)]; [exists ss; split; [done|apply Hf]|congruence].
    - naive_solver. }
  split; [|apply Hh; by left]. eapply inv_sess; [exact Hi|..].
  - intros l. split.
    + intros [[sid' [[_ ->]|H]%Hh]|H]; [by right|left; by exists sid'|done].
    + intros [[sid' H]|[= ->]]; left; [exists sid'|exists sid]; apply Hh; auto.
  - intros a b l [[-> ->]|Ha]%Hh [[-> El]|Hb]%Hh; [done| | |by eapply (i_one _ _ Hi)].
    + by destruct (i_own _ _ Hi b loc).
    + subst. by destruct (i_own _ _ Hi a loc).
  - done.
  - eapply alter_key; [exact Hi|]. intros. apply Hf.
Qed.

(** The session gives it up. *)
Lemma inv_unbind f sid loc s : inv None s -> holds s sid loc ->
  (forall ss, seDrv (f ss) = seDrv ss /\ seTxn (f ss) = None) -> inv (Some loc) (set_sess (alter f sid (pxSess s)) s).
Proof.
  intros Hi Hhold Hf.
  assert (forall sid' l, holds (set_sess (alter f sid (pxSess s)) s) sid' l <-> sid' <> sid /\ holds s sid' l) as Hh.
  { intros sid' l. rewrite holds_alter. case_decide as E; [|naive_solver]. subst. split; [|by intros []].
    intros (ss & H1 & H2). destruct (Hf ss). congruence. }
  eapply inv_sess; [exact Hi|..].
  - intros l. split.
    + intros [[sid' [_ H]%Hh]|[= <-]]; left; [by exists sid'|by exists sid].
    + intros [[sid' H]|[=]]. destruct (decide (sid' = sid)) as [->|Hne]; [right|left; exists sid'; by apply Hh].
      destruct Hhold as (ss1 & E1 & E2), H as (ss2 & E3 & E4). congruence.
  - intros a b l [_ Ha]%Hh [_ Hb]%Hh. by eapply (i_one _ _ Hi).
  - intros a l [= <-] [Hne Ha]%Hh. by apply Hne, (i_one _ _ Hi a sid loc).
  - eapply alter_key; [exact Hi|]. intros. apply Hf.
Qed.

Lemma swrap_add a b : swrap 64 (swrap 64 a + b) = swrap 64 (a + b).
Proof.
  assert (exists k, swrap 64 a = a + k * 2 ^ 64) as [k ->].
  { unfold swrap. pose proof (Z.div_mod a (2 ^ 64) ltac:(lia)) as Hd. case_match; [exists (- (a / 2 ^ 64))|exists (- (a / 2 ^ 64) - 1)]; lia. }
  unfold swrap. replace (a + k * 2 ^ 64 + b) with (a + b + k * 2 ^ 64) by lia. by rewrite Z.mod_add by lia.
Qed.

Section steps.
Context `{D : Driver, R : MapRange}.

(** ** Transactions come and go *)
Lemma new_transaction s r s' : NewTransaction s = (r, s') -> inv None s -> 0 <= wTxnid (pxW s) -> wTxnid (pxW s) + 1 < 2 ^ 64 ->
  match r with
  | Ok loc => inv (Some loc) s' /\ pxSess s' = pxSess s /\ pxConf s' = pxConf s /\ wTxnid (pxW s') = wTxnid (pxW s) + 1
  | _ => s' = s
  end.
Proof.
  intros H Hi H0 H1. unfold NewTransaction, CreateTransaction in H. erewrite M_bind_Ok in H by reflexivity.
  unfold CreateTxn in H. case_decide as Hb; [injection H as <- <-; by destruct s|].
  unfold mgr_GetID, NewTxn, txnz_Add, txn_count, mgr_Add, mbind, M_bind, mmodify, mret in H. cbn in H.
  unfold wrap in H. rewrite Z.mod_small in H by lia. injection H as <- <-. split_and!; [|done..].
  assert (forall sid loc, holds s sid loc -> (loc < length (pxTxns s))%nat) as Hlt.
  { intros sid loc Hh. destruct (i_live _ _ Hi loc) as (t & Ht & _); [left; by exists sid|by eapply lookup_lt_Some]. }
  assert (wTxnid (pxW s) + 1 ∉ wTxnz (pxW s)) as Hfresh.
  { intros (loc & t & Ht & He & _)%(i_all _ _ Hi). pose proof (i_ids _ _ Hi _ _ Ht). lia. }
  split; cbn.
  - intros loc [[sid Hh]|[= <-]].
    + pose proof (Hlt _ _ Hh). destruct (i_live _ _ Hi loc) as (t & Ht & ? & ?); [left; by exists sid|].
      exists t. rewrite lookup_app_l by done. split_and!; [done..|set_solver].
    + eexists. rewrite lookup_app_r, Nat.sub_diag by done. split; [done|]. split; [by split|]. cbn. set_solver.
  - apply (i_one _ _ Hi).
  - intros sid loc [= <-] Hh. specialize (Hlt sid _ Hh). lia.
  - intros id [->%elem_of_singleton|Hid]%elem_of_union.
    + eexists _, _. rewrite lookup_app_r, Nat.sub_diag by done. split_and!; [done..|by right].
    + destruct (i_all _ _ Hi id Hid) as (loc & t & Ht & He & [Hor|[=]]). exists loc, t.
      rewrite lookup_app_l by (by eapply lookup_lt_Some). split_and!; [done..|by left].
  - intros loc t [Ht|[_ Ht]]%lookup_app_Some; [pose proof (i_ids _ _ Hi _ _ Ht); lia|].
    apply list_lookup_singleton_Some in Ht as [_ <-]. cbn. lia.
  - intros loc loc' t t' [Ht|[Hl Ht]]%lookup_app_Some [Ht'|[Hl' Ht']]%lookup_app_Some Heq; [by eapply (i_inj _ _ Hi)|..].
    + apply list_lookup_singleton_Some in Ht' as [_ <-]. pose proof (i_ids _ _ Hi _ _ Ht). cbn in Heq. lia.
    + apply list_lookup_singleton_Some in Ht as [_ <-]. pose proof (i_ids _ _ Hi _ _ Ht'). cbn in Heq. lia.
    + apply list_lookup_singleton_Some in Ht as [? _], Ht' as [? _]. lia.
  - rewrite (i_nums _ _ Hi), swrap_add. f_equal. rewrite size_union, size_singleton by set_solver. lia.
  - apply (i_key _ _ Hi).
Qed.

Lemma end_transaction loc (m : TM unit) s r s' :
  (forall tw r' tw', live (tState (twT tw)) -> m tw = (r', tw') -> r' <> Panic -> ended tw tw') ->
  inv (Some loc) s -> with_txn loc m s = (r, s') -> r <> Panic -> inv None s' /\ pxSess s' = pxSess s /\ pxConf s' = pxConf s /\
    wTxnid (pxW s') = wTxnid (pxW s).
Proof.
  intros Hm Hi H Hr. destruct (i_live _ _ Hi loc) as (t & Ht & Hl & Hin); [by right|]. unfold with_txn in H. rewrite Ht in H.
  destruct (m (mkTW (pxW s) t)) as [r' tw'] eqn:Hmt. injection H as <- <-.
  apply Hm in Hmt as (Hid & Hz & Hn & Hd); [|done|by intros ->]. cbn in *. split_and!; [|done..].
  assert (forall loc' t', <[loc:=twT tw']> (pxTxns s) !! loc' = Some t' -> exists t0, pxTxns s !! loc' = Some t0 /\ tId t' = tId t0) as Hx.
  { intros loc' t'. rewrite list_lookup_insert_Some. intros [(<- & <- & _)|[_ ?]]; eauto. }
  split; cbn.
  - intros loc' [[sid Hh]|[=]]. destruct (i_live _ _ Hi loc') as (t' & Ht' & Hl' & Hin'); [left; by exists sid|].
    assert (loc <> loc') as Hne by (intros <-; by destruct (i_own _ _ Hi sid loc)).
    exists t'. rewrite list_lookup_insert_ne by done. split_and!; [done..|]. rewrite Hz.
    apply elem_of_difference. split; [done|]. rewrite elem_of_singleton. intros E. by apply Hne, (i_inj _ _ Hi loc loc' t t').
  - apply (i_one _ _ Hi).
  - done.
  - intros id Hid'. rewrite Hz in Hid'. apply elem_of_difference in Hid' as [Hid' Hne].
    destruct (i_all _ _ Hi id Hid') as (loc' & t' & Ht' & He & Hor). exists loc', t'.
    assert (loc <> loc') as Hnl by (intros <-; simplify_eq; set_solver).
    rewrite list_lookup_insert_ne by done. split_and!; [done..|]. destruct Hor as [?|[= ->]]; [by left|done].
  - intros loc' t' (t0 & Ht0 & ->)%Hx. rewrite Hd. by apply (i_ids _ _ Hi loc').
  - intros a b ta tb (t1 & Ha & ->)%Hx (t2 & Hb & ->)%Hx E. by eapply (i_inj _ _ Hi).
  - rewrite Hn, Hz, (i_nums _ _ Hi). replace (swrap 64 (Z.of_nat (size (wTxnz (pxW s)))) - 1) with (swrap 64 (Z.of_nat (size (wTxnz (pxW s)))) + -1) by lia.
    rewrite swrap_add. f_equal. rewrite size_difference by set_solver. rewrite size_singleton.
    pose proof (size_non_empty_iff (wTxnz (pxW s))) as [_ Hs]. assert (wTxnz (pxW s) ≢ ∅) as Hne by set_solver. specialize (Hs Hne). lia.
  - apply (i_key _ _ Hi).
Qed.

(** ** The parts of a command *)
Context `{PL : Planning}.

(** [safe m]: from the invariant, within the range of ids, a command that
    does not panic leads to the invariant again and creates at most one transaction. *)
Definition bounded (s s' : Px) : Prop := wTxnid (pxW s) <= wTxnid (pxW s') <= wTxnid (pxW s) + 1 /\ pxConf s' = pxConf s.
Definition roomy (s : Px) : Prop := 0 <= wTxnid (pxW s) /\ wTxnid (pxW s) + 1 < 2 ^ 64.
Definition ends_well {A} (o : option nat) (m : XM A) (s : Px) : Prop :=
  forall r s', m s = (r, s') -> r <> Panic -> inv o s' /\ bounded s s'.

Lemma tamely_ends {A} o (m : XM A) s : tamely m -> inv o s -> ends_well o m s.
Proof.
  intros Hm Hi r s' H _. specialize (Hm s). rewrite H in Hm. split; [by eapply tame_inv|].
  destruct Hm as [_ Hc [_ _ Hid] _ _]. split; [simpl in *; lia|done].
Qed.

Lemma finally_inv {A} (m : XM A) fin s r s' : finally m fin s = (r, s') -> r <> Panic ->
  exists r1 s1 r2, m s = (r1, s1) /\ fin s1 = (r2, s') /\ r2 <> Panic /\ r = r1.
Proof.
  unfold finally. destruct (m s) as [r1 s1] eqn:E1. destruct (fin s1) as [r2 s2] eqn:E2. intros H Hr.
  exists r1, s1, r2. destruct r2; injection H as <- <-; [done..|]. by destruct Hr.
Qed.

Lemma finish_ends loc s r s' : inv (Some loc) s -> with_txn loc Finish s = (r, s') -> r <> Panic ->
  inv None s' /\ pxSess s' = pxSess s /\ pxConf s' = pxConf s /\ wTxnid (pxW s') = wTxnid (pxW s).
Proof. intros Hi H Hr. eapply end_transaction; [|done..]. intros tw r' tw'. apply Finish_ends. Qed.

(** A transaction of its own: nothing of it is left. *)
Lemma unbound_ends {A} (m : TM A) s : gentle m -> inv None s -> roomy s -> ends_well None (unbound m) s.
Proof.
  intros Hm Hi [H0 H1] r s' H Hr. unfold unbound in H. unfold mbind, M_bind in H.
  destruct (NewTransaction s) as [[loc|e|] s1] eqn:Hn.
  2: { apply new_transaction in Hn; [|done..]. injection H as <- <-. subst s1. split; [done|]. split; [lia|done]. }
  2: { by injection H as <- <-. }
  apply new_transaction in Hn as (Hi1 & Hs1 & Hc1 & Hid1); [|done..].
  apply finally_inv in H as (r1 & s2 & r2 & E1 & E2 & Hr2 & ->); [|done].
  destruct (tamely_ends (Some loc) _ s1 (tamely_txn loc m Hm) Hi1 r1 s2 E1 Hr) as [Hi2 [Hb2 Hc2]].
  pose proof (tamely_txn loc m Hm s1) as Htame. rewrite E1 in Htame. destruct (c_reg _ _ Htame) as [_ _ Hid]. simpl in Hid.
  apply finish_ends in E2 as (Hi3 & _ & Hc3 & Hid3); [|done..]. split; [done|]. split; [lia|congruence].
Qed.

Lemma set_limits_tame txn f : (forall t, tId (f t) = tId t /\ tState (f t) = tState t) -> tamely (set_txn txn f).
Proof. intros Hf. apply tamely_txn, gentle_modify. intros t. destruct (Hf t) as [? ->]. done. Qed.

Definition still (s s' : Px) : Prop := wTxnid (pxW s') = wTxnid (pxW s) /\ pxConf s' = pxConf s.
Lemma tame_still s s' : tame s s' -> still s s'.
Proof. intros [_ Hc [_ _ Hi] _ _]. done. Qed.
Lemma still_trans a b c : still a b -> still b c -> still a c.
Proof. unfold still. intros [] []. split; congruence. Qed.

Lemma set_txn_Ok loc f o s r s1 : (forall t, tId (f t) = tId t /\ tState (f t) = tState t) -> inv o s ->
  set_txn loc f s = (r, s1) -> r <> Panic -> r = Ok tt /\ tame s s1.
Proof.
  intros Hf Hi H Hr. pose proof (set_limits_tame loc f Hf s) as Hc. rewrite H in Hc. split; [|done].
  unfold set_txn, with_txn in H. destruct (pxTxns s !! loc); cbn in H; injection H as <- <-; [done|by destruct Hr].
Qed.

(** The session is bound to the transaction of the command, when there is such a session. *)
Lemma binding sid loc node q s r s' : inv (Some loc) s -> (forall l, ~ holds s sid l) -> TxnBinding sid loc node q s = (r, s') -> r <> Panic ->
  r = Ok tt /\ still s s' /\ ((inv (Some loc) s' /\ pxSess s' !! sid = None) \/ (inv None s' /\ holds s' sid loc)).
Proof.
  intros Hi Hh H Hr. unfold TxnBinding in H. erewrite M_bind_Ok in H by reflexivity.
  destruct (pxSess s !! sid) as [ss|] eqn:Hs; [|injection H as <- <-; split; [done|]; split; [done|by left]].
  unfold mbind, M_bind in H. destruct (set_txn loc (set_SessionID sid) s) as [r1 s1] eqn:E1.
  assert (r1 <> Panic) as Hr1 by (intros ->; injection H as <- _; by destruct Hr).
  eapply set_txn_Ok in E1 as [-> Hc]; [|done|exact Hi|done]. injection H as <- <-. split; [done|].
  split; [destruct (tame_still _ _ Hc); by split|]. right.
  apply (inv_bind _ sid ss); [by eapply tame_inv|by rewrite (c_sess _ _ Hc)| |done].
  destruct (seTxn ss) as [l|] eqn:El; [|done]. exfalso. apply (Hh l). by exists ss.
Qed.

Lemma unbinding sid loc s : (inv (Some loc) s /\ pxSess s !! sid = None) \/ (inv None s /\ holds s sid loc) ->
  exists s', TxnUnBinding sid s = (Ok tt, s') /\ inv (Some loc) s' /\ still s s'.
Proof.
  intros H. eexists. split; [reflexivity|]. split; [|done]. destruct H as [[Hi Hn]|[Hi Hh]]; [|by eapply inv_unbind].
  rewrite alter_id by (intros ss Hss; congruence). by destruct s.
Qed.

Lemma in_transaction_ends {A} sid node q limits (body : nat -> XM A) s :
  (forall t, tId (limits t) = tId t /\ tState (limits t) = tState t) -> (forall loc, tamely (body loc)) ->
  inv None s -> roomy s -> (forall loc, ~ holds s sid loc) -> ends_well None (in_transaction sid node q limits body) s.
Proof.
  intros Hlim Hbody Hi [H0 H1] Hh r s' H Hr. unfold in_transaction in H.
  unfold mbind at 1, M_bind in H. destruct (NewTransaction s) as [[loc|e|] s1] eqn:Hn.
  2: { apply new_transaction in Hn; [|done..]. injection H as <- <-. subst s1. split; [done|]. split; [lia|done]. }
  2: { by injection H as <- <-. }
  apply new_transaction in Hn as (Hi1 & Hs1 & Hc1 & Hid1); [|done..].
  apply finally_inv in H as (r1 & s2 & r2 & E1 & E2 & Hr2 & ->); [|done].
  assert (inv (Some loc) s2 /\ still s1 s2) as [Hi2 [Hid2 Hc2]].
  { unfold mbind, M_bind in E1. destruct (set_txn loc limits s1) as [r3 s3] eqn:E3.
    assert (r3 <> Panic) as Hr3 by (intros ->; by injection E1 as <- <-).
    eapply set_txn_Ok in E3 as [-> Hc3]; [|done..].
    destruct (TxnBinding sid loc node q s3) as [r4 s4] eqn:E4.
    assert (r4 <> Panic) as Hr4 by (intros ->; by injection E1 as <- <-).
    eapply binding in E4 as (-> & Hst4 & Hor); [|by eapply tame_inv| |done].
    2: { intros l (ss & Hl1 & Hl2). apply (Hh l). exists ss. by rewrite <- Hs1, <- (c_sess _ _ Hc3). }
    unfold finally in E1. pose proof (Hbody loc s4) as Hc5. destruct (body loc s4) as [r5 s5] eqn:E5. simpl in Hc5.
    destruct (unbinding sid loc s5) as (s6 & E6 & Hi6 & Hst6).
    { destruct Hor as [[Hia Hib]|[Hia Hib]]; [left|right]; (split; [by eapply tame_inv|]); [by rewrite (c_sess _ _ Hc5)|].
      unfold holds. by rewrite (c_sess _ _ Hc5). }
    rewrite E6 in E1. injection E1 as <- <-. split; [done|].
    eapply still_trans; [by apply tame_still|]. eapply still_trans; [exact Hst4|].
    eapply still_trans; [by apply tame_still|exact Hst6]. }
  apply finish_ends in E2 as (Hi3 & _ & Hc3 & Hid3); [|done..]. split; [done|]. split; [lia|congruence].
Qed.

Lemma tamely_build db node : tamely (build db node).
Proof. unfold build. apply tamely_same. intros s. by case_match. Qed.

Ltac tame_tac :=
  repeat first
    [ apply tamely_bind; [|intros]
    | apply tamely_mtry
    | apply tamely_build
    | apply tamely_txn; solve [auto with gentle]
    | case_match
    | apply tamely_same; done ].

Definition unheld (s : Px) (sid : Z) : Prop := forall loc, ~ holds s sid loc.

Lemma get_ends {A} o (k : Px -> XM A) s : ends_well o (k s) s -> ends_well o (s ← mget; k s) s.
Proof. intros H r s'. by apply H. Qed.
Lemma getTxn_ends {A} o sid (k : session -> XM A) s : (forall ss, pxSess s !! sid = Some ss -> ends_well o (k ss) s) ->
  ends_well o (ss ← getTxnSession sid; k ss) s.
Proof.
  intros Hk r s' H Hr. unfold getTxnSession, mbind, M_bind in H. cbn in H.
  destruct (pxSess s !! sid) as [ss|] eqn:Hs; cbn in H; [by eapply Hk|]. by injection H as <- <-.
Qed.
Lemma fail_ends {A} o e s : inv o s -> ends_well o (mfail e : XM A) s.
Proof. intros Hi. by apply tamely_ends; [apply tamely_same|]. Qed.

Lemma withTimeout_ends sid db q node t s : inv None s -> roomy s -> unheld s sid -> ends_well None (executeWithTimeout sid db q node t) s.
Proof.
  intros Hi Hr Hu. apply get_ends, in_transaction_ends; [done| |done..]. intros loc. tame_tac.
Qed.
Lemma singleStmt_ends sid db q node s : inv None s -> roomy s -> unheld s sid -> ends_well None (ExecuteSingleStmtTxnTwoPC sid db q node) s.
Proof. intros Hi Hr Hu. apply get_ends, in_transaction_ends; [done| |done..]. intros loc. tame_tac. Qed.
Lemma stream_ends sid db q node out s : inv None s -> roomy s -> unheld s sid -> ends_well None (ExecuteStreamFetch sid db q node out) s.
Proof.
  intros Hi Hr Hu. apply get_ends, in_transaction_ends; [done| |done..]. intros loc.
  case_decide; [|by apply tamely_same]. case_match; [|by apply tamely_same]. apply tamely_txn, gentle_bind.
  - apply gentle_miter. intros x. apply gentle_bind; [apply gentle_fetchOne|by intros; apply gentle_same].
  - intros _. case_match; by apply gentle_same.
Qed.

(** Binding without a transaction and unbinding in the middle of one. *)
Lemma multi_binding sid node q s : inv None s -> exists s', MultiStmtTxnBinding sid None node q s = (Ok tt, s') /\ inv None s' /\ still s s' /\
  (forall sid' loc, holds s' sid' loc <-> holds s sid' loc).
Proof.
  intros Hi. unfold MultiStmtTxnBinding. erewrite M_bind_Ok by reflexivity. destruct (pxSess s !! sid) eqn:Hs; [|by exists s].
  eexists. split; [reflexivity|]. split; [by apply inv_fields|]. split; [done|]. intros sid' loc. rewrite holds_alter.
  case_decide as E; [|done]. subst. by unfold holds.
Qed.
Lemma multi_unbinding sid s : inv None s -> exists s', MultiStmtTxnUnBinding sid false s = (Ok tt, s') /\ inv None s' /\ still s s'.
Proof. intros Hi. eexists. split; [reflexivity|]. split; [by apply inv_fields|done]. Qed.

Lemma bind_ends {A B} o (m : XM A) (k : A -> XM B) s r s' : (x ← m; k x) s = (r, s') -> r <> Panic -> tamely m -> inv o s ->
  exists s1, inv o s1 /\ still s s1 /\ tame s s1 /\ ((exists a, m s = (Ok a, s1) /\ k a s1 = (r, s')) \/ s' = s1).
Proof.
  intros H Hr Hm Hi. specialize (Hm s). unfold mbind, M_bind in H. destruct (m s) as [[a|e|] s1] eqn:E; simpl in Hm.
  - exists s1. split; [by eapply tame_inv|]. split; [by apply tame_still|]. split; [done|]. left. by exists a.
  - injection H as <- <-. exists s1. split; [by eapply tame_inv|]. split; [by apply tame_still|]. split; [done|by right].
  - by injection H as <- <-.
Qed.

Lemma still_bounded s s' : still s s' -> bounded s s'.
Proof. intros [H1 H2]. split; [lia|done]. Qed.

Lemma multiStmts_ends sid db q node s : inv None s -> ends_well None (ExecuteMultiStmtsInTxn sid db q node) s.
Proof.
  intros Hi. apply getTxn_ends. intros ss Hss r s' H Hr.
  destruct (multi_binding sid node q s Hi) as (s1 & E1 & Hi1 & Hst1 & _). erewrite M_bind_Ok in H by exact E1.
  apply (bind_ends None) in H as (s2 & Hi2 & Hst2 & _ & [(p & _ & H)| ->]); [| |done|apply tamely_build|done].
  2: { split; [done|]. eapply still_bounded, still_trans; done. }
  destruct (seTxn ss) as [txn|]; [|by injection H as <- <-].
  apply (bind_ends None) in H as (s3 & Hi3 & Hst3 & _ & [(qr & _ & H)| ->]); [| |done|apply tamely_txn, gentle_prog|done].
  2: { split; [done|]. eapply still_bounded, still_trans; [done|]. by eapply still_trans. }
  destruct (multi_unbinding sid s3 Hi3) as (s4 & E4 & Hi4 & Hst4). erewrite M_bind_Ok in H by exact E4. injection H as <- <-.
  split; [done|]. eapply still_bounded, still_trans; [exact Hst1|]. eapply still_trans; [exact Hst2|]. by eapply still_trans.
Qed.

Lemma unheld_None s sid ss : pxSess s !! sid = Some ss -> seTxn ss = None -> unheld s sid.
Proof. intros H1 H2 loc (ss' & H3 & H4). congruence. Qed.

Lemma normal_ends sid db q node s : inv None s -> roomy s -> unheld s sid -> ends_well None (ExecuteNormal sid db q node) s.
Proof. intros. by apply get_ends, withTimeout_ends. Qed.

(** A statement may only replace the transaction of its session when it goes
    through the session's transaction or the session has none. *)
Lemma dml_ends sid db q node s : inv None s -> roomy s -> (pcTwopcEnable (pxConf s) = true /\ IsDML node = true) \/ unheld s sid ->
  ends_well None (ExecuteDML sid db q node) s.
Proof.
  intros Hi Hr Hg. apply get_ends. destruct (pcTwopcEnable (pxConf s)) eqn:H2.
  - apply getTxn_ends. intros ss Hss. destruct (IsDML node).
    + destruct (seTxn ss) eqn:Ht; [by apply multiStmts_ends|]. apply singleStmt_ends; [done..|by eapply unheld_None].
    + destruct Hg as [[_ [=]]|Hu]. by apply normal_ends.
  - destruct Hg as [[[=] _]|Hu]. by apply normal_ends.
Qed.
Lemma ddl_ends sid db q node s : inv None s -> roomy s -> pcTwopcEnable (pxConf s) = true \/ unheld s sid ->
  ends_well None (px_ExecuteDDL sid db q node) s.
Proof.
  intros Hi Hr Hg. apply getTxn_ends. intros ss Hss. apply get_ends. case_match eqn:Hb; [by apply fail_ends|].
  apply withTimeout_ends; [done..|]. destruct Hg as [H2|Hu]; [|done]. rewrite H2 in Hb. apply bool_decide_eq_false in Hb.
  apply (unheld_None _ _ _ Hss). destruct (seTxn ss); [by destruct Hb|done].
Qed.

(** A transaction ended while its session still points to it. *)
Lemma finish_held sid loc s r s1 f : inv None s -> holds s sid loc -> (forall ss, seDrv (f ss) = seDrv ss /\ seTxn (f ss) = None) ->
  with_txn loc Finish s = (r, s1) -> r <> Panic -> inv None (set_sess (alter f sid (pxSess s1)) s1) /\ still s s1.
Proof.
  intros Hi Hh Hf H Hr.
  assert (pxSess s1 = pxSess s /\ with_txn loc Finish (set_sess (alter f sid (pxSess s)) s) = (r, set_sess (alter f sid (pxSess s)) s1)) as [Hs1 Hu].
  { unfold with_txn in *. cbn [pxTxns pxW set_sess]. destruct (pxTxns s !! loc) as [t|]; [|injection H as <- <-; by split].
    destruct (Finish _) as [r' tw]. injection H as <- <-. by split. }
  rewrite Hs1. apply finish_ends in Hu as (Hi3 & _ & Hc & Hid); [|by eapply inv_unbind|done]. by split.
Qed.

(** The session takes the transaction of a BEGIN. *)
Lemma begin_binding sid ss loc node q s r s' : inv (Some loc) s -> pxSess s !! sid = Some ss -> seTxn ss = None ->
  MultiStmtTxnBinding sid (Some loc) node q s = (r, s') -> r <> Panic ->
  r = Ok tt /\ inv None s' /\ holds s' sid loc /\ still s s'.
Proof.
  intros Hi Hss Hn H Hr. unfold MultiStmtTxnBinding in H. erewrite M_bind_Ok in H by reflexivity. rewrite Hss in H.
  unfold mbind, M_bind in H. destruct (set_txn loc (set_SessionID sid) s) as [r5 s5] eqn:E5.
  assert (r5 <> Panic) as Hn5 by (intros ->; injection H as <- _; by destruct Hr).
  eapply set_txn_Ok in E5 as [-> Hc5]; [|done|exact Hi|done]. injection H as <- <-. split; [done|].
  destruct (inv_bind (fun ss0 => bound (Some node) (truncated q) (wNow (pxW s)) (Some loc) ss0) sid ss loc s5) as [Hia Hib];
    [by eapply tame_inv|by rewrite (c_sess _ _ Hc5)|done|done|].
  split_and!; [done|done|]. destruct (tame_still _ _ Hc5). by split.
Qed.

(** BEGIN: the session holds the new transaction, or nothing is left of it. *)
Lemma begin_ends sid q node s : inv None s -> roomy s -> ends_well None (ExecuteBegin sid q node) s.
Proof.
  intros Hi [H0 H1]. apply get_ends. case_match eqn:H2; [by apply fail_ends|]. apply getTxn_ends. intros ss Hss.
  destruct (seTxn ss) eqn:Htx; [by apply fail_ends|]. intros r s' H Hr.
  unfold mbind at 1, M_bind in H. destruct (NewTransaction s) as [[loc|e|] s1] eqn:Hn.
  2: { apply new_transaction in Hn; [|done..]. injection H as <- <-. subst s1. split; [done|]. split; [lia|done]. }
  2: { by injection H as <- <-. }
  apply new_transaction in Hn as (Hi1 & Hs1 & Hc1 & Hid1); [|done..].
  unfold mbind at 1, M_bind in H. destruct (set_txn loc _ s1) as [r3 s3] eqn:E3.
  assert (r3 <> Panic) as Hr3 by (intros ->; by injection H as <- <-). eapply set_txn_Ok in E3 as [-> Hc3]; [|done..].
  unfold mbind at 1, M_bind in H. destruct (MultiStmtTxnBinding sid (Some loc) node q s3) as [r4 s4] eqn:E4.
  eapply (begin_binding sid ss) in E4 as (-> & Hi4 & Hh4 & Hst4);
    [|by eapply tame_inv|by rewrite (c_sess _ _ Hc3), Hs1|done|intros ->; by injection H as <- <-].
  assert (still s1 s4) as [Hid4 Hc4] by (eapply still_trans; [by apply tame_still|done]).
  unfold mbind at 1, M_bind, mtry in H. pose proof (tamely_txn loc BeginScatter gentle_BeginScatter s4) as Hc5.
  destruct (with_txn loc BeginScatter s4) as [[[]|e|] s5] eqn:E5; simpl in Hc5; [| |by injection H as <- <-].
  - injection H as <- <-. split; [by eapply tame_inv|]. destruct (tame_still _ _ Hc5). split; [lia|congruence].
  - destruct (tame_still _ _ Hc5) as [Hid5 Hcf5]. cbn in H. unfold mbind, M_bind in H.
    destruct (with_txn loc Finish s5) as [r6 s6] eqn:E6. assert (r6 <> Panic) as Hr6 by (intros ->; by injection H as <- <-).
    eapply (finish_held sid loc s5 r6 s6 (fun ss => bound None "" (wNow (pxW s6)) None ss)) in E6 as [Hi6 [Hid6 Hcf6]];
      [|by eapply tame_inv|unfold holds; by rewrite (c_sess _ _ Hc5)|done|done].
    destruct r6; [| |done]; cbn in H; injection H as <- <-; (split; [exact Hi6|]); (split; [cbn; lia|cbn; congruence]).
Qed.

(** COMMIT and ROLLBACK: after an error the session keeps its transaction. *)
Lemma end_txn_ends m sid q node s : gentle m -> inv None s -> ends_well None (end_txn m sid q node) s.
Proof.
  intros Hm Hi. apply get_ends. case_match eqn:H2; [by apply fail_ends|]. apply getTxn_ends. intros ss Hss.
  destruct (seTxn ss) as [loc|] eqn:Htx; [|by apply fail_ends]. intros r s' H Hr.
  destruct (multi_binding sid node q s Hi) as (s1 & E1 & Hi1 & Hst1 & Hh1). erewrite M_bind_Ok in H by exact E1.
  apply (bind_ends None) in H as (s2 & Hi2 & Hst2 & Hc2 & [([] & _ & H)| ->]); [| |done|by apply tamely_txn|done].
  2: { split; [done|]. eapply still_bounded, still_trans; done. }
  erewrite M_bind_Ok in H by reflexivity. cbv beta in H.
  set (s3 := set_sess _ s2) in H. assert (inv (Some loc) s3) as Hi3.
  { apply inv_unbind; [done| |done]. unfold holds. rewrite (c_sess _ _ Hc2). apply Hh1. by exists ss. }
  unfold mbind, M_bind, mtry in H. destruct (with_txn loc Finish s3) as [r4 s4] eqn:E4.
  assert (r4 <> Panic) as Hr4 by (intros ->; by injection H as <- <-).
  apply finish_ends in E4 as (Hi4 & _ & Hc4 & Hid4); [|done..].
  assert (s' = s4) as -> by (destruct r4; by injection H as <- <-). split; [done|].
  destruct Hst1 as [Ha Hb], Hst2 as [Hd He]. apply still_bounded. split; [rewrite Hid4; cbn; congruence|rewrite Hc4; cbn; congruence].
Qed.
Lemma txn_ends sid action s : inv None s -> roomy s -> ends_well None (handleMultiStmtTxn sid action) s.
Proof.
  intros Hi Hr. unfold handleMultiStmtTxn. repeat case_decide.
  - by apply begin_ends.
  - by apply end_txn_ends; [apply gentle_RollbackScatter|].
  - by apply end_txn_ends; [apply gentle_CommitScatter|].
  - by apply tamely_ends; [apply tamely_same|].
Qed.

(** A session that goes takes its transaction with it. *)
Lemma inv_delete sid ss s : inv None s -> pxSess s !! sid = Some ss -> inv (seTxn ss) (set_sess (delete sid (pxSess s)) s).
Proof.
  intros Hi Hs.
  assert (forall sid' l, holds (set_sess (delete sid (pxSess s)) s) sid' l <-> sid' <> sid /\ holds s sid' l) as Hh.
  { intros sid' l. unfold holds. cbn. setoid_rewrite lookup_delete_Some. naive_solver. }
  eapply inv_sess; [exact Hi|..].
  - intros l. split.
    + intros [[sid' [_ H]%Hh]|H]; left; [by exists sid'|exists sid; by exists ss].
    + intros [[sid' H]|[=]]. destruct (decide (sid' = sid)) as [->|Hne]; [right|left; exists sid'; by apply Hh].
      destruct H as (ss' & E1 & E2). congruence.
  - intros a b l [_ Ha]%Hh [_ Hb]%Hh. by eapply (i_one _ _ Hi).
  - intros a l Ho [Hne Ha]%Hh. apply Hne. apply (i_one _ _ Hi a sid l Ha). by exists ss.
  - intros a ss' [_ Ha]%lookup_delete_Some. by apply (i_key _ _ Hi).
Qed.

Lemma kill_still sid s r s' : inv None s -> Sessions_Kill sid s = (r, s') -> r <> Panic -> inv None s' /\ still s s'.
Proof.
  intros Hi H Hr. unfold Sessions_Kill in H. erewrite M_bind_Ok in H by reflexivity.
  destruct (pxSess s !! sid) as [ss|] eqn:Hs; [|by injection H as <- <-].
  erewrite M_bind_Ok in H by reflexivity. pose proof (inv_delete _ _ _ Hi Hs) as Hd. unfold session_close in H.
  destruct (seTxn ss) as [loc|]; [|by injection H as <- <-].
  unfold mbind, M_bind, mtry in H. destruct (with_txn loc Abort_ _) as [r4 s4] eqn:E4.
  assert (r4 <> Panic) as Hr4 by (intros ->; by injection H as <- <-).
  apply end_transaction in E4 as (Hi4 & _ & Hc4 & Hid4); [|intros tw r' tw'; apply Abort_ends|done..].
  assert (s' = s4) as -> by (destruct r4; by injection H as <- <-). by split.
Qed.
Lemma kill_ends sid s : inv None s -> ends_well None (Sessions_Kill sid) s.
Proof. intros Hi r s' H Hr. apply kill_still in H as [? ?]; [|done..]. split; [done|by apply still_bounded]. Qed.

Lemma kills_ends {A} (f : A -> Z) l s r s' : inv None s -> miter (fun i => Sessions_Kill (f i)) l s = (r, s') -> r <> Panic -> inv None s' /\ still s s'.
Proof.
  revert s. induction l as [|x l IH]; intros s Hi H Hr; simpl in H; [by injection H as <- <-|].
  unfold mbind, M_bind in H. destruct (Sessions_Kill (f x) s) as [r1 s1] eqn:E1.
  assert (r1 <> Panic) as Hr1 by (intros ->; by injection H as <- <-). apply kill_still in E1 as [Hi1 Hst1]; [|done..].
  destruct r1; [|by injection H as <- <-|done]. destruct (IH s1 Hi1 H Hr) as [Hi2 Hst2]. split; [done|by eapply still_trans].
Qed.
Lemma idle_ends s : inv None s -> ends_well None killIdleTxn s.
Proof.
  intros Hi. apply get_ends. case_match eqn:H2; [by apply tamely_ends; [apply tamely_same|]|].
  intros r s' H Hr. apply kills_ends in H as [? ?]; [|done..]. split; [done|by apply still_bounded].
Qed.
Lemma streaming_ends sid v s r s' : inv None s -> streaming_value sid v s = (r, s') -> r <> Panic -> inv None s' /\ still s s'.
Proof.
  intros Hi Hv Hr. assert (forall b r s', set_streaming sid b s = (r, s') -> r <> Panic -> inv None s' /\ still s s') as Hset.
  { intros b r1 s1 H1 Hr1. unfold set_streaming, getTxnSession, mbind, M_bind, mget in H1. destruct (pxSess s !! sid); [|by injection H1 as <- <-].
    injection H1 as <- <-. split; [by apply inv_fields|done]. }
  destruct v; cbn [streaming_value] in Hv; repeat case_decide; (by eapply Hset) || (injection Hv as <- <-; done).
Qed.

Lemma set_ends autoTxn sid exprs s : inv None s -> roomy s -> ends_well None (handleSet autoTxn sid exprs) s.
Proof.
  revert s. induction exprs as [|[name v] exprs IH]; intros s Hi Hr; cbn [handleSet].
  - apply tamely_ends; [by apply tamely_same|done].
  - case_decide; [|case_decide; [destruct (negb (autocommit_value v) && autoTxn); [by apply txn_ends|by apply IH]|by apply IH]].
    intros r s' Hv Hn. unfold mbind, M_bind in Hv. destruct (streaming_value sid v s) as [[[]|e|] s1] eqn:E.
    + apply streaming_ends in E as [Hi1 [Hs Hc]]; [|done..]. assert (roomy s1) as Hr1 by (unfold roomy in *; by rewrite Hs).
      destruct (IH s1 Hi1 Hr1 _ _ Hv Hn) as [Hi2 [Hb Hc2]]. split; [done|]. split; [by rewrite <- Hs|congruence].
    + apply streaming_ends in E as [Hi1 Hs]; [|done..]. injection Hv as <- <-. split; [done|]. by apply still_bounded.
    + by injection Hv as <- <-.
Qed.

Lemma handleKill_ends super user id s : inv None s -> ends_well None (handleKill super user id) s.
Proof.
  intros Hi r s' H Hr. unfold handleKill in H.
  apply (bind_ends None) in H as (s1 & Hi1 & Hst1 & _ & [(a & _ & H)| ->]); [| |done| |done].
  - apply kill_still in H as [? ?]; [|done..]. split; [done|]. by eapply still_bounded, still_trans.
  - split; [done|by apply still_bounded].
  - case_match; [by apply tamely_same|]. apply tamely_bind; [apply tamely_same; intros s0; unfold getTxnSession, mbind, M_bind; cbn; by case_match|].
    intros ss. case_decide; by apply tamely_same.
Qed.
Lemma add_ends d s : inv None s -> pxSess s !! dvID d = None -> ends_well None (Sessions_Add d) s.
Proof.
  intros Hi Hn r s' H Hr. injection H as <- <-. split; [|by apply still_bounded].
  assert (forall sid l, holds (set_sess (<[dvID d:=newSession (wNow (pxW s)) d]> (pxSess s)) s) sid l <-> holds s sid l) as Hh.
  { intros sid l. unfold holds. cbn. setoid_rewrite lookup_insert_Some. split; [|naive_solver].
    intros (ss & [[<- <-]|[_ ?]] & E); [done|eauto]. }
  eapply inv_sess; [exact Hi|..].
  - intros l. split; (intros [[sid H]|H]; [left; exists sid; by apply Hh|by right]).
  - intros a b l Ha Hb. apply Hh in Ha, Hb. by eapply (i_one _ _ Hi).
  - done.
  - intros a ss [[<- <-]|[_ ?]]%lookup_insert_Some; [done|by apply (i_key _ _ Hi)].
Qed.

(** ** Commands *)
Inductive Command :=
| CConnect (d : DrvSession)
| CDisconnect (d : DrvSession)
| CKill (user : string) (id : Z)
| CTransaction (session : Z) (action : string)
| CDml (session : Z) (database query : string) (node : Stmt)
| CDdl (session : Z) (database query : string) (node : Stmt)
| CMaintain (session : Z) (database query : string) (node : Stmt)
| CStream (session : Z) (database query : string) (node : Stmt) (out : option berr)
| CBackends (query : string)
| CSingle (query : string)
| CSet (autoTxn : bool) (session : Z) (exprs : list (string * SetVal))
| CIdle.

Definition run_command (super : string -> bool) (c : Command) : XM unit :=
  match c with
  | CConnect d => Sessions_Add d
  | CDisconnect d => Sessions_Remove d
  | CKill user id => handleKill super user id
  | CTransaction sid action => handleMultiStmtTxn sid action
  | CDml sid db q node => _ ← ExecuteDML sid db q node; mret tt
  | CDdl sid db q node => _ ← px_ExecuteDDL sid db q node; mret tt
  | CMaintain sid db q node => _ ← ExecuteNormal sid db q node; mret tt
  | CStream sid db q node out => ExecuteStreamFetch sid db q node out
  | CBackends q => _ ← px_ExecuteScatter q; mret tt
  | CSingle q => _ ← px_ExecuteSingle q; mret tt
  | CSet autoTxn sid exprs => handleSet autoTxn sid exprs
  | CIdle => killIdleTxn
  end.

(** The driver gives a new connection an id that is not in use; a statement
    that takes a transaction of its own is not sent inside one of several
    statements; two-phase commit is on where such a transaction is. *)
Definition allowed (c : Command) (s : Px) : Prop :=
  match c with
  | CConnect d => pxSess s !! dvID d = None
  | CDml sid _ _ node => (pcTwopcEnable (pxConf s) = true /\ IsDML node = true) \/ unheld s sid
  | CDdl sid _ _ _ => pcTwopcEnable (pxConf s) = true \/ unheld s sid
  | CMaintain sid _ _ _ | CStream sid _ _ _ _ => unheld s sid
  | _ => True
  end.

Lemma drop_result {A} o (m : XM A) s : ends_well o m s -> ends_well o (_ ← m; mret tt) s.
Proof.
  intros Hm r s' H Hr. unfold mbind, M_bind in H. destruct (m s) as [[a|e|] s1] eqn:E; injection H as <- <-; by apply (Hm _ _ E).
Qed.

Lemma command_ends super c s : inv None s -> roomy s -> allowed c s -> ends_well None (run_command super c) s.
Proof.
  intros Hi Hr Ha. destruct c; cbn [run_command allowed] in *; try apply drop_result.
  - by apply add_ends.
  - by apply kill_ends.
  - by apply handleKill_ends.
  - by apply txn_ends.
  - by apply dml_ends.
  - by apply ddl_ends.
  - by apply normal_ends.
  - by apply stream_ends.
  - apply unbound_ends; [apply gentle_Execute|done..].
  - apply unbound_ends; [apply gentle_Execute|done..].
  - by apply set_ends.
  - by apply idle_ends.
Qed.

(** Commands of sessions in any order; none of them panics. *)
Inductive commands (super : string -> bool) : Px -> list Command -> Px -> Prop :=
| commands_nil s : commands super s [] s
| commands_cons s c r s1 cs s2 : allowed c s -> run_command super c s = (r, s1) -> r <> Panic ->
    commands super s1 cs s2 -> commands super s (c :: cs) s2.
End steps.

(** A proxy that has just started. *)
Definition fresh (s : Px) : Prop :=
  pxSess s = ∅ /\ pxTxns s = [] /\ wTxnz (pxW s) = ∅ /\ wTxnNums (pxW s) = 0 /\ 0 <= wTxnid (pxW s).

Lemma fresh_inv s : fresh s -> inv None s.
Proof.
  intros (Hs & Ht & Hz & Hn & _). assert (forall sid l, ~ holds s sid l) as Hh by (intros sid l (ss & E & _); by rewrite Hs, lookup_empty in E).
  split.
  - intros l [[sid H]|[=]]. by destruct (Hh sid l).
  - intros a b l H. by destruct (Hh a l).
  - done.
  - intros id. by rewrite Hz, elem_of_empty.
  - intros l t. by rewrite Ht.
  - intros l l' t. by rewrite Ht.
  - by rewrite Hn, Hz, size_empty.
  - intros sid ss. by rewrite Hs, lookup_empty.
Qed.

Lemma commands_inv `{D : Driver, R : MapRange, PL : Planning} super cs s s' :
  inv None s -> 0 <= wTxnid (pxW s) -> wTxnid (pxW s) + Z.of_nat (length cs) < 2 ^ 64 -> commands super s cs s' -> inv None s'.
Proof.
  intros Hi H0 H1 Hc. induction Hc as [s|s c r s1 cs s2 Ha Hr Hn Hc IH]; [done|].
  rewrite length_cons, Nat2Z.inj_succ in H1. assert (wTxnid (pxW s) + 1 < 2 ^ 64) as Hroom by lia.
  destruct (command_ends super c s Hi (conj H0 Hroom) Ha r s1 Hr Hn) as [Hi1 [Hb _]]. apply IH; [done|lia..].
Qed.

(** C18: Between the commands of clients, in any order of sessions, the
    registered transactions are exactly those that sessions hold: no two
    sessions hold the same, each of them is live, and the count is their
    number; when no session is left, no transaction is. The proxy has just
    started, the commands are as in [allowed]: a new connection has an id that
    is not in use, and a statement that takes a transaction of its own (a
    streamed SELECT, CHECKSUM, OPTIMIZE or CHECK TABLE, and DML or DDL while
    two-phase commit is off) is not sent inside a transaction the session
    holds, which would lose that transaction ([checksum_loses_transaction]).
    No command panics, and there are fewer than 2^64 of them. *)
Theorem transactions_held `{D : Driver, R : MapRange, PL : Planning} super cs s s' :
  fresh s -> wTxnid (pxW s) + Z.of_nat (length cs) < 2 ^ 64 -> commands super s cs s' ->
  (forall id, id ∈ wTxnz (pxW s') <-> exists sid loc t, holds s' sid loc /\ pxTxns s' !! loc = Some t /\ tId t = id /\ live (tState t)) /\
  (forall sid sid' loc, holds s' sid loc -> holds s' sid' loc -> sid = sid') /\
  wTxnNums (pxW s') = swrap 64 (Z.of_nat (size (wTxnz (pxW s')))) /\
  (pxSess s' = ∅ -> wTxnz (pxW s') = ∅ /\ wTxnNums (pxW s') = 0).
Proof.
  intros Hf Hb Hc. assert (inv None s') as Hi by (eapply commands_inv; [by apply fresh_inv|apply Hf|done..]).
  split_and!; [|apply (i_one _ _ Hi)|apply (i_nums _ _ Hi)|].
  - intros id. split.
    + intros (loc & t & Ht & He & [[sid Hh]|[=]])%(i_all _ _ Hi). exists sid, loc, t.
      destruct (i_live _ _ Hi loc) as (t' & Ht' & Hl & _); [left; by exists sid|]. by simplify_eq.
    + intros (sid & loc & t & Hh & Ht & <- & Hl). destruct (i_live _ _ Hi loc) as (t' & Ht' & _ & Hin); [left; by exists sid|]. by simplify_eq.
  - intros Hs. assert (wTxnz (pxW s') = ∅) as Hz.
    { apply set_eq. intros id. rewrite elem_of_empty. split; [|done].
      intros (loc & t & Ht & He & [[sid (ss & E & _)]|[=]])%(i_all _ _ Hi). by rewrite Hs, lookup_empty in E. }
    split; [done|]. by rewrite (i_nums _ _ Hi), Hz, size_empty.
Qed.

(** ** On concrete states *)
#[local] Existing Instance ex_driver.
Definition ex_planning : Planning := {|
  plan_of := fun _ node => inl (Request (mkRequestContext "" ReqNormal (match stKind node with KInsert => TxnWrite | _ => TxnRead end)
    [mkQueryTuple (stText node) "b1" ""; mkQueryTuple (stText node) "b2" ""]) Done);
  stream_of := fun _ node => inl [mkQueryTuple (stText node) "b1" ""] |}.
#[local] Existing Instance ex_planning.
Definition ex_pxconf : ProxyConfig := mkProxyConfig true 0 100 1000000 1000 0 0 60.
Definition ex_px : Px := mkPx (ex_scatter ∅) [] ∅ ex_pxconf.
Definition ex_client : DrvSession := mkDrv 7 "user" 0.
Definition ex_insert : Stmt := mkStmt KInsert "insert" None.
Definition ex_session_cmds : list Command :=
  [CConnect ex_client; CTransaction 7 BeginTxnStr; CDml 7 "db" "insert" ex_insert; CTransaction 7 CommitTxnStr;
   CDml 7 "db" "insert" ex_insert; CTransaction 7 BeginTxnStr; CDisconnect ex_client].
Definition after_commands (cs : list Command) (s : Px) : Px := foldl (fun s c => snd (run_command (fun _ => false) c s)) s cs.

Fixpoint check_commands (cs : list Command) (s : Px) : bool :=
  match cs with
  | [] => true
  | c :: cs => match run_command (fun _ => false) c s with (Panic, _) => false | (_, s1) => check_commands cs s1 end
  end.
Lemma commands_run cs s : check_commands cs s = true -> (forall n, allowed (nth n cs CIdle) (after_commands (take n cs) s)) ->
  commands (fun _ => false) s cs (after_commands cs s).
Proof.
  revert s. induction cs as [|c cs IH]; intros s Hc Ha; [constructor|]. cbn [check_commands] in Hc.
  destruct (run_command (fun _ => false) c s) as [r s1] eqn:E. econstructor; [apply (Ha 0%nat)|exact E|by intros ->|].
  unfold after_commands. cbn [foldl]. rewrite E. apply IH; [by destruct r|]. intros n. specialize (Ha (S n)).
  unfold after_commands in Ha. cbn [take foldl nth] in Ha. by rewrite E in Ha.
Qed.

Lemma transactions_held_witness : exists s', commands (fun _ => false) ex_px ex_session_cmds s' /\ wTxnz (pxW s') = ∅ /\ wTxnNums (pxW s') = 0.
Proof.
  assert (commands (fun _ => false) ex_px ex_session_cmds (after_commands ex_session_cmds ex_px)) as Hc.
  { apply commands_run; [vm_compute; reflexivity|]. intros n.
    do 7 (destruct n as [|n]; [first [exact I|vm_compute; reflexivity|left; vm_compute; by split]|]). by destruct n. }
  exists (after_commands ex_session_cmds ex_px). split; [exact Hc|].
  eapply (transactions_held (fun _ => false) ex_session_cmds ex_px); [|vm_compute; reflexivity|exact Hc|vm_compute; reflexivity].
  split_and!; vm_compute; done.
Defined.

(** A transaction of several statements is lost by a statement that takes one
    of its own: CHECKSUM TABLE inside BEGIN leaves the session without a
    transaction, the COMMIT is refused, and the first transaction stays
    registered with its connections although no session is left. *)
Definition ex_lost : Px :=
  after_commands [CConnect ex_client; CTransaction 7 BeginTxnStr; CDml 7 "db" "insert" ex_insert;
    CMaintain 7 "db" "checksum table t" (mkStmt KChecksum "checksum table t" None)] ex_px.
Theorem checksum_loses_transaction :
  fst (run_command (fun _ => false) (CTransaction 7 CommitTxnStr) ex_lost) = Err XNoTxn /\
  (let s' := after_commands [CDisconnect ex_client] ex_lost in pxSess s' = ∅ /\ wTxnNums (pxW s') = 1 /\
     exists t, pxTxns s' !! 0%nat = Some t /\ size (tTwopcConns t) = 2%nat /\ tId t ∈ wTxnz (pxW s')).
Proof. split; [by vm_compute|]. vm_compute. split; [done|]. split; [done|]. eexists. done. Qed.

(** The killer of idle transactions looks for the text [begin] or no text: a
    session that sent START TRANSACTION is never idle. *)
Definition set_clock (now : Z) (s : Px) : Px :=
  mkPx (let w := pxW s in mkWorld (wPoolz w) (wBackends w) (wFile w) (wVersion w) (wIo w) (wXa w) (wXaFile w) (wXaTimesOut w)
          (wTxnid w) (wTxnNums w) (wTxnz w) (wCounters w) (wScript w) now (wClock w)) (pxTxns s) (pxSess s) (pxConf s).
Theorem start_transaction_never_idle :
  let idle action := after_commands [CIdle] (set_clock 100000 (after_commands [CConnect ex_client; CTransaction 7 action] ex_px)) in
  pxSess (idle BeginTxnStr) = ∅ /\ size (pxSess (idle StartTxnStr)) = 1%nat.
Proof. by vm_compute. Qed.

(** KILL of a session that does not exist dereferences nil unless the user is privileged. *)
Theorem kill_missing_panics `{D : Driver, R : MapRange} super user id s :
  super user = false -> pxSess s !! id = None -> handleKill super user id s = (Panic, s).
Proof. intros Hs Hn. unfold handleKill, mbind, M_bind, getTxnSession. rewrite Hs. cbn. unfold mbind, M_bind. cbn. by rewrite Hn. Qed.

(** Switching the automatic commit off begins one transaction: after its COMMIT
    the session has none, and the next statement is committed by itself. *)
Theorem autocommit_off_once :
  let s1 := after_commands [CConnect ex_client; CSet true 7 [("autocommit", SvInt "0")]] ex_px in
  let s2 := after_commands [CTransaction 7 CommitTxnStr] s1 in
  (exists ss, pxSess s1 !! 7 = Some ss /\ seTxn ss = Some 0%nat) /\ (exists ss, pxSess s2 !! 7 = Some ss /\ seTxn ss = None) /\
  fst (ExecuteDML 7 "db" "insert" ex_insert s2) = fst (ExecuteSingleStmtTxnTwoPC 7 "db" "insert" ex_insert s2).
Proof. vm_compute. split_and!; [by eexists..|done]. Qed.

(** It also ends the list of assignments. *)
Theorem set_stops_at_autocommit :
  let streams exprs := getStreamingFetchVar <$> (pxSess (after_commands [CConnect ex_client; CSet true 7 exprs] ex_px) !! 7) in
  streams [("radon_streaming_fetch", SvStr "on"); ("autocommit", SvInt "0")] = Some true /\
  streams [("autocommit", SvInt "0"); ("radon_streaming_fetch", SvStr "on")] = Some false.
Proof. by vm_compute. Qed.
