(* ===== verification/Stream.v ===== *)
(** * Streamed results (src/backend/txn.go: [ExecuteStreamFetch])

    One goroutine per cursor reads rows and sends them over a channel of 65536
    rows; one goroutine receives them and hands them to the client in batches.
    A goroutine waits where its next action is not possible; [sstep] takes one
    action, and a run is any sequence of possible actions. *)
From S2P Require Import Prelude.
Open Scope string_scope.
Open Scope list_scope.
Open Scope Z_scope.

Abbreviation Row := (list string).

(** [sqltypes.Values.Len] *)
Definition row_len (r : Row) : Z := foldr (fun v n => Z.of_nat (String.length v) + n) 0 r.

(** How a cursor ends: [Next] is false at the end and also after an error of
    the connection, which only [LastError] tells; [RowValues] can fail. *)
Inductive cursor_end := EndOk | EndLost | EndBad.
Record Cursor := mkCursor { cuRows : list Row; cuEnd : cursor_end }.

(** A producer: before [Next], at the [select] with a row, or returned; after
    [stop] the rows it did not send are kept to speak about them. *)
Inductive Producer := PRun (rows : list Row) | PSend (row : Row) (rows : list Row) | PEnd | PStopped (rows : list Row).

(** The consumer, with the rows of [qr] and their bytes. *)
Inductive Consumer := CRun (rows : list (nat * Row)) (byteCount : Z) | CDone (rows : list (nat * Row)).

Inductive serr := SBad | SCallback.

(** The shared state.  A row carries the index of its cursor.  [sErr] is the
    first error of the group, [sCalls] the outcomes of the callbacks to come
    (they succeed once the list is exhausted). *)
Record SSt := mkSSt {
  sProd : list Producer; sFinished : nat; sClosed : bool; sStop : bool; sChan : list (nat * Row); sCons : Consumer;
  sCount : Z; sSent : list (list (nat * Row)); sErr : option serr; sCalls : list bool
}.

Definition rows_cap : Z := 65536.
Definition first_err (e : option serr) (x : serr) : option serr := match e with Some y => Some y | None => Some x end.
Definition next_call (s : SSt) : bool * list bool := match sCalls s with [] => (true, []) | b :: l => (b, l) end.
Definition batch_len (l : list (nat * Row)) : Z := foldr (fun r n => row_len (snd r) + n) 0 l.

(** The actions. *)
Inductive action := ANext (i : nat) | ASend (i : nat) | AStop (i : nat) | AEnd (i : nat) | ARecv | AClosed.

Section stream.
Variables (cursors : list Cursor) (streamBufferSize : Z).

Definition set_prod (i : nat) (p : Producer) (s : SSt) : SSt :=
  mkSSt (<[i := p]> (sProd s)) (sFinished s) (sClosed s) (sStop s) (sChan s) (sCons s) (sCount s) (sSent s) (sErr s) (sCalls s).

(** The end of a producer, under the mutex: the last one closes the channel. *)
Definition producer_end (i : nat) (s : SSt) : res serr SSt :=
  match cursors !! i with
  | None => Panic
  | Some c =>
      let finished := S (sFinished s) in
      let last := Nat.eqb finished (length cursors) in
      if last && sClosed s then Panic
      else Ok (mkSSt (<[i := PEnd]> (sProd s)) finished (sClosed s || last) (sStop s) (sChan s) (sCons s) (sCount s) (sSent s)
                 (match cuEnd c with EndBad => first_err (sErr s) SBad | _ => sErr s end) (sCalls s))
  end.

(** The consumer hands over its rows; on an error it returns. *)
Definition call_back (rows : list (nat * Row)) (count : Z) (chan : list (nat * Row)) (next : Consumer) (stop : bool) (s : SSt) : SSt :=
  let '(ok, calls) := next_call s in
  if ok : bool
  then mkSSt (sProd s) (sFinished s) (sClosed s) stop chan next count (sSent s ++ [rows]) (sErr s) calls
  else mkSSt (sProd s) (sFinished s) (sClosed s) true chan (CDone rows) count (sSent s) (first_err (sErr s) SCallback) calls.

(** One action; [None] where it is not possible, [Some Panic] for a send on
    a closed channel or a second close. *)
Definition sstep (a : action) (s : SSt) : option (res serr SSt) :=
  match a with
  | ANext i => match sProd s !! i with
               | Some (PRun (r :: rows)) => Some (Ok (set_prod i (PSend r rows) s))
               | _ => None
               end
  | AEnd i => match sProd s !! i with Some (PRun []) => Some (producer_end i s) | _ => None end
  | ASend i =>
      match sProd s !! i with
      | Some (PSend r rows) =>
          if sClosed s then Some Panic
          else if Z.of_nat (length (sChan s)) <? rows_cap then
            Some (Ok (mkSSt (<[i := PRun rows]> (sProd s)) (sFinished s) (sClosed s) (sStop s) (sChan s ++ [(i, r)]) (sCons s)
                        (sCount s) (sSent s) (sErr s) (sCalls s)))
          else None
      | _ => None
      end
  | AStop i =>
      match sProd s !! i with
      | Some (PSend r rows) => if sStop s then Some (Ok (set_prod i (PStopped (r :: rows)) s)) else None
      | _ => None
      end
  | ARecv =>
      match sCons s, sChan s with
      | CRun rows bytes, r :: chan =>
          let rows := rows ++ [r] in
          let bytes := bytes + row_len (snd r) in
          if streamBufferSize <=? bytes then Some (Ok (call_back rows (sCount s + 1) chan (CRun [] 0) (sStop s) s))
          else Some (Ok (mkSSt (sProd s) (sFinished s) (sClosed s) (sStop s) chan (CRun rows bytes) (sCount s + 1) (sSent s) (sErr s) (sCalls s)))
      | _, _ => None
      end
  | AClosed =>
      match sCons s, sChan s with
      | CRun rows _, [] =>
          if sClosed s then
            match rows with
            | [] => Some (Ok (mkSSt (sProd s) (sFinished s) (sClosed s) true [] (CDone []) (sCount s) (sSent s) (sErr s) (sCalls s)))
            | _ => Some (Ok (call_back rows (sCount s) [] (CDone []) true s))
            end
          else None
      | _, _ => None
      end
  end.

(** The state when the goroutines are started. *)
Definition sinit (calls : list bool) : SSt :=
  mkSSt ((fun c => PRun (cuRows c)) <$> cursors) 0 false false [] (CRun [] 0) 0 [] None calls.

(** A run. *)
Inductive sruns : SSt -> list action -> SSt -> Prop :=
| sruns_nil s : sruns s [] s
| sruns_cons s a s1 l s2 : sstep a s = Some (Ok s1) -> sruns s1 l s2 -> sruns s (a :: l) s2.

(** All goroutines have returned. *)
Definition p_done (p : Producer) : bool := match p with PEnd | PStopped _ => true | _ => false end.
Definition s_final (s : SSt) : bool := forallb p_done (sProd s) && match sCons s with CDone _ => true | _ => false end.

(** [eg.Wait] and the last callback: the number of rows, or the error. *)
Definition stream_result (s : SSt) : res serr Z :=
  match sErr s with
  | Some e => Err e
  | None => let '(ok, _) := next_call s in if ok : bool then Ok (sCount s) else Err SCallback
  end.
End stream.
