(* ===== verification/StreamProps.v ===== *)
(** * Streamed results arrive

    Under every interleaving of the goroutines: no send on a closed channel and
    no second close, nothing is lost, repeated or reordered within a cursor, the
    buffers stay within their bounds, and the goroutines do not wait for each
    other forever. *)
From S2P Require Import Prelude Stream.
Open Scope string_scope.
Open Scope list_scope.
Open Scope Z_scope.

Section props.
Variables (cursors : list Cursor) (size : Z).
Implicit Types (s : SSt) (p : Producer).

(** The rows a producer has not sent. *)
Definition pending p : list Row :=
  match p with PRun rows | PStopped rows => rows | PSend r rows => r :: rows | PEnd => [] end.
Definition ended p : bool := match p with PEnd => true | _ => false end.
Definition stopped p : bool := match p with PStopped _ => true | _ => false end.
Definition cons_rows (c : Consumer) : list (nat * Row) := match c with CRun l _ | CDone l => l end.
Definition cons_done (c : Consumer) : bool := match c with CDone _ => true | _ => false end.

(** The rows that left the producers, in the order of the channel. *)
Definition taken s : list (nat * Row) := mjoin (sSent s) ++ cons_rows (sCons s) ++ sChan s.
Definition of_cursor (i : nat) (l : list (nat * Row)) : list Row := snd <$> filter (fun r => fst r = i) l.

#[local] Arguments taken : simpl never.
#[local] Arguments of_cursor : simpl never.

(** The consumer's rows and the batches it handed over. *)
Definition batch_ok (b : list (nat * Row)) : Prop := b <> [] /\ batch_len (take (pred (length b)) b) < size.
Definition cons_ok (c : Consumer) : Prop :=
  match c with CRun l n => n = batch_len l /\ (0 < size -> n < size) | CDone _ => True end.

Record sinv (s : SSt) : Prop := {
  v_rows : forall i p, sProd s !! i = Some p -> exists c, cursors !! i = Some c /\ of_cursor i (taken s) ++ pending p = cuRows c;
  v_len : length (sProd s) = length cursors;
  v_fin : sFinished s = length (filter (fun p => ended p = true) (sProd s));
  v_closed : sClosed s = bool_decide (sFinished s = length cursors);
  v_stop : sStop s = cons_done (sCons s);
  v_stopped : forall i p, sProd s !! i = Some p -> stopped p = true -> sStop s = true;
  v_cap : Z.of_nat (length (sChan s)) <= rows_cap;
  v_done : cons_done (sCons s) = true -> sErr s = None -> cons_rows (sCons s) = [] /\ sChan s = [] /\ sClosed s = true;
  v_good : sErr s = None -> forall i c, sProd s !! i = Some PEnd -> cursors !! i = Some c -> cuEnd c <> EndBad;
  v_count : sCount s = Z.of_nat (length (mjoin (sSent s) ++ cons_rows (sCons s)));
  v_batch : (0 < size -> Forall batch_ok (sSent s)) /\ cons_ok (sCons s)
}.

Lemma of_cursor_app i l l' : of_cursor i (l ++ l') = of_cursor i l ++ of_cursor i l'.
Proof. unfold of_cursor. by rewrite filter_app, fmap_app. Qed.
Lemma of_cursor_one i j r : of_cursor i [(j, r)] = if decide (i = j) then [r] else [].
Proof. unfold of_cursor. rewrite filter_cons, filter_nil. simpl. repeat case_decide; simplify_eq; done. Qed.
Lemma batch_len_app a b : batch_len (a ++ b) = batch_len a + batch_len b.
Proof. unfold batch_len. induction a as [|x a IH]; simpl; [done|]. rewrite IH. lia. Qed.

Lemma row_len_nonneg r : 0 <= row_len r.
Proof. unfold row_len. induction r as [|v r IH]; simpl; lia. Qed.
Lemma batch_len_nonneg l : 0 <= batch_len l.
Proof. unfold batch_len. induction l as [|r l IH]; simpl; [lia|]. pose proof (row_len_nonneg (snd r)). lia. Qed.
Lemma batch_len_take n l : batch_len (take n l) <= batch_len l.
Proof. rewrite <- (take_drop n l) at 2. rewrite batch_len_app. pose proof (batch_len_nonneg (drop n l)). lia. Qed.

Lemma sinit_inv calls : cursors <> [] -> sinv (sinit cursors calls).
Proof.
  intros Hne. split; cbn; try done.
  - intros i p. rewrite list_lookup_fmap. intros (c & -> & Hc)%fmap_Some. exists c. by rewrite Hc.
  - apply length_fmap.
  - symmetry. clear. induction cursors as [|c cs IH]; [done|]. by rewrite fmap_cons, filter_cons.
  - symmetry. apply bool_decide_eq_false. by destruct cursors.
  - intros i p. rewrite list_lookup_fmap. by intros (c & _ & ->)%fmap_Some.
  - intros _ i c. rewrite list_lookup_fmap. by intros (c' & _ & [=])%fmap_Some.
Qed.

(** What happens at one producer when another field changes. *)
Lemma count_insert (l : list Producer) i p q : l !! i = Some p ->
  (length (filter (fun p => ended p = true) (<[i := q]> l)) + (if ended p then 1 else 0) =
   length (filter (fun p => ended p = true) l) + (if ended q then 1 else 0))%nat.
Proof.
  intros H. rewrite (list.insert_take_drop _ _ _ ltac:(by eapply lookup_lt_Some)).
  rewrite <- (take_drop_middle l i p H) at 3. rewrite !filter_app, !length_app, !filter_cons.
  destruct (ended p), (ended q); simpl; lia.
Qed.

Lemma lookup_change (l : list Producer) i q j p' : <[i := q]> l !! j = Some p' -> (j = i /\ p' = q) \/ (j <> i /\ l !! j = Some p').
Proof. rewrite list_lookup_insert_Some. naive_solver. Qed.

(** ** The actions keep the invariant *)
Lemma inv_next i r rows s : sinv s -> sProd s !! i = Some (PRun (r :: rows)) -> sinv (set_prod i (PSend r rows) s).
Proof.
  intros [H1 H2 H3 H4 H5 H6 H7 H8 H9 H10 H11] Hp. split; cbn; try done.
  - intros j p' [[-> ->]|[_ Hj]]%lookup_change; [exact (H1 i _ Hp)|by apply H1].
  - by rewrite length_insert.
  - pose proof (count_insert _ _ _ (PSend r rows) Hp) as Hc. simpl in Hc. lia.
  - intros j p' [[-> ->]|[_ Hj]]%lookup_change; [done|by apply (H6 j)].
  - intros He j c [[_ [=]]|[_ Hj]]%lookup_change. by apply (H9 He j).
Qed.

Lemma inv_stop i r rows s : sinv s -> sProd s !! i = Some (PSend r rows) -> sStop s = true -> sinv (set_prod i (PStopped (r :: rows)) s).
Proof.
  intros [H1 H2 H3 H4 H5 H6 H7 H8 H9 H10 H11] Hp Hs. split; cbn; try done.
  - intros j p' [[-> ->]|[_ Hj]]%lookup_change; [exact (H1 i _ Hp)|by apply H1].
  - by rewrite length_insert.
  - pose proof (count_insert _ _ _ (PStopped (r :: rows)) Hp) as Hc. simpl in Hc. lia.
  - intros He j c [[_ [=]]|[_ Hj]]%lookup_change. by apply (H9 He j).
Qed.

(** A producer that has not returned: the channel is open. *)
Lemma open_while_running i p s : sinv s -> sProd s !! i = Some p -> ended p = false -> sClosed s = false /\ (sFinished s < length cursors)%nat.
Proof.
  intros Hi Hp He. assert (sFinished s < length cursors)%nat as Hlt.
  { pose proof (count_insert _ _ _ PEnd Hp) as Hc. rewrite He in Hc. simpl in Hc. rewrite (v_fin _ Hi), <- (v_len _ Hi).
    assert (length (filter (fun p => ended p = true) (<[i:=PEnd]> (sProd s))) <= length (sProd s))%nat as Hle.
    { rewrite <- (length_insert (sProd s) i PEnd). apply length_filter. }
    lia. }
  split; [|done]. rewrite (v_closed _ Hi). apply bool_decide_eq_false. lia.
Qed.

Lemma inv_send i r rows s : sinv s -> sProd s !! i = Some (PSend r rows) -> Z.of_nat (length (sChan s)) < rows_cap ->
  sinv (mkSSt (<[i := PRun rows]> (sProd s)) (sFinished s) (sClosed s) (sStop s) (sChan s ++ [(i, r)]) (sCons s)
          (sCount s) (sSent s) (sErr s) (sCalls s)).
Proof.
  intros Hi Hp Hc. destruct (open_while_running _ _ _ Hi Hp eq_refl) as [Hopen _].
  destruct Hi as [H1 H2 H3 H4 H5 H6 H7 H8 H9 H10 H11]. split; cbn; try done.
  - intros j p' Hj. match goal with |- context [taken ?x] => replace (taken x) with (taken s ++ [(i, r)]) by (unfold taken; cbn; by rewrite <- !app_assoc) end.
    rewrite of_cursor_app, of_cursor_one. apply lookup_change in Hj as [[-> ->]|[Hne Hj]].
    + destruct (H1 i _ Hp) as (c & Hcu & Heq). exists c. split; [done|]. rewrite decide_True by done. by rewrite <- app_assoc.
    + destruct (H1 j _ Hj) as (c & Hcu & Heq). exists c. split; [done|]. rewrite decide_False by done. by rewrite app_nil_r.
  - by rewrite length_insert.
  - pose proof (count_insert _ _ _ (PRun rows) Hp) as Hn. simpl in Hn. lia.
  - intros j p' [[-> ->]|[_ Hj]]%lookup_change; [done|by apply (H6 j)].
  - rewrite length_app. simpl. lia.
  - intros Hd He. destruct (H8 Hd He) as (_ & _ & ?). congruence.
  - intros He j c [[_ [=]]|[_ Hj]]%lookup_change. by apply (H9 He j).
Qed.

Lemma inv_end i s : sinv s -> sProd s !! i = Some (PRun []) -> exists s', producer_end cursors i s = Ok s' /\ sinv s'.
Proof.
  intros Hi Hp. destruct (open_while_running _ _ _ Hi Hp eq_refl) as [Hopen Hlt].
  destruct Hi as [H1 H2 H3 H4 H5 H6 H7 H8 H9 H10 H11]. destruct (H1 i _ Hp) as (c & Hcu & Heq).
  unfold producer_end. rewrite Hcu, Hopen, andb_false_r. remember (Nat.eqb (S (sFinished s)) (length cursors)) as last eqn:El. eexists. split; [reflexivity|]. split; cbn; try done.
  - intros j p' [[-> ->]|[_ Hj]]%lookup_change; [by exists c|by apply (H1 j)].
  - by rewrite length_insert.
  - pose proof (count_insert _ _ _ PEnd Hp) as Hn. simpl in Hn. lia.
  - rewrite El. destruct (Nat.eqb_spec (S (sFinished s)) (length cursors)) as [E|E]; symmetry;
      [by apply bool_decide_eq_true|by apply bool_decide_eq_false].
  - intros j p' [[-> ->]|[_ Hj]]%lookup_change; [done|by apply (H6 j)].
  - intros Hd He. assert (sErr s = None) as He' by (destruct (cuEnd c), (sErr s); done). destruct (H8 Hd He') as (_ & _ & ?). congruence.
  - intros He j c' Hj Hc'. assert (sErr s = None /\ cuEnd c <> EndBad) as [He' Hb] by (destruct (cuEnd c), (sErr s); done).
    apply lookup_change in Hj as [[-> _]|[_ Hj]]; [congruence|by apply (H9 He' j)].
Qed.

(** The consumer moves rows from the channel to its batch and on. *)
Lemma cons_frame s chan cons count sent stop err calls : sinv s ->
  mjoin sent ++ cons_rows cons ++ chan = taken s -> stop = cons_done cons -> (sStop s = true -> stop = true) ->
  Z.of_nat (length chan) <= rows_cap ->
  (cons_done cons = true -> err = None -> cons_rows cons = [] /\ chan = [] /\ sClosed s = true) ->
  (err = None -> sErr s = None) -> count = Z.of_nat (length (mjoin sent ++ cons_rows cons)) ->
  (0 < size -> Forall batch_ok sent) -> cons_ok cons ->
  sinv (mkSSt (sProd s) (sFinished s) (sClosed s) stop chan cons count sent err calls).
Proof.
  intros [H1 H2 H3 H4 H5 H6 H7 H8 H9 H10 H11] Ht Hs Hs' Hcap Hd He Hc Hb Hok. split; cbn; try done.
  - intros j p' Hj. unfold taken at 1. cbn. rewrite Ht. by apply H1.
  - intros j p' Hj Hst. by apply Hs', (H6 j p').
  - intros Hn. by apply H9, He.
Qed.

Lemma inv_callback rows count chan next stop s : sinv s -> cons_done (sCons s) = false ->
  mjoin (sSent s) ++ rows ++ chan = taken s -> cons_rows next = [] -> stop = cons_done next ->
  Z.of_nat (length chan) <= rows_cap -> count = Z.of_nat (length (mjoin (sSent s) ++ rows)) ->
  (cons_done next = true -> chan = [] /\ sClosed s = true) -> (0 < size -> batch_ok rows) -> cons_ok next ->
  sinv (call_back rows count chan next stop s).
Proof.
  intros Hi Hd Ht Hr Hst Hcap Hc Hdn Hb Hok. pose proof (v_stop _ Hi) as Hs0. rewrite Hd in Hs0. unfold call_back.
  destruct (next_call s) as [[] calls].
  - apply cons_frame; [done|..].
    + rewrite join_app, Hr. simpl. rewrite app_nil_r, <- app_assoc. exact Ht.
    + done.
    + congruence.
    + done.
    + intros Hn _. destruct (Hdn Hn). done.
    + done.
    + rewrite join_app, Hr, app_nil_r. simpl. by rewrite app_nil_r.
    + intros Hsz. apply Forall_app. split; [by apply (v_batch _ Hi)|]. constructor; [auto|constructor].
    + done.
  - apply cons_frame; [done|done|done|done|done| |..].
    + intros _. by destruct (sErr s).
    + by destruct (sErr s).
    + done.
    + apply (v_batch _ Hi).
    + done.
Qed.

Lemma inv_recv rows bytes r chan s : sinv s -> sCons s = CRun rows bytes -> sChan s = r :: chan ->
  exists s', sstep cursors size ARecv s = Some (Ok s') /\ sinv s'.
Proof.
  intros Hi Hc Hch. simpl. rewrite Hc, Hch. pose proof (v_cap _ Hi) as Hcap. rewrite Hch in Hcap. simpl in Hcap.
  assert (mjoin (sSent s) ++ (rows ++ [r]) ++ chan = taken s) as Ht.
  { unfold taken. rewrite Hc, Hch. simpl. by rewrite <- (app_assoc rows). }
  assert (sCount s + 1 = Z.of_nat (length (mjoin (sSent s) ++ rows ++ [r]))) as Hcount.
  { rewrite (v_count _ Hi), Hc. simpl. rewrite !length_app. simpl. lia. }
  destruct (v_batch _ Hi) as [Hbs Hb]. rewrite Hc in Hb. destruct Hb as [Hb Hlt].
  assert (bytes + row_len (snd r) = batch_len (rows ++ [r])) as Hbytes by (rewrite batch_len_app, <- Hb; simpl; lia).
  destruct (Z.leb_spec size (bytes + row_len (snd r))).
  - eexists. split; [reflexivity|]. apply inv_callback; [done|by rewrite Hc|done|done| |lia|done|done| |].
    + by rewrite (v_stop _ Hi), Hc.
    + intros Hsz. split; [by destruct rows|]. rewrite length_app, Nat.add_1_r. simpl. rewrite take_app_length. rewrite <- Hb. auto.
    + done.
  - eexists. split; [reflexivity|]. apply cons_frame; [done|exact Ht| |done|lia|done|done|exact Hcount|done|done].
    by rewrite (v_stop _ Hi), Hc.
Qed.

Lemma inv_closed rows bytes s : sinv s -> sCons s = CRun rows bytes -> sChan s = [] -> sClosed s = true ->
  exists s', sstep cursors size AClosed s = Some (Ok s') /\ sinv s'.
Proof.
  intros Hi Hc Hch Hcl. simpl. rewrite Hc, Hch, Hcl. destruct (v_batch _ Hi) as [Hbs Hb]. rewrite Hc in Hb. destruct Hb as [Hb Hlt].
  destruct rows as [|r rows].
  - eexists. split; [reflexivity|]. rewrite <- Hcl. apply cons_frame; [done| |done|done|by compute|done|done| |done|done].
    + unfold taken. by rewrite Hc, Hch.
    + by rewrite (v_count _ Hi), Hc.
  - eexists. split; [reflexivity|]. apply inv_callback; [done|by rewrite Hc| |done|done|by compute| |done| |done].
    + unfold taken. by rewrite Hc, Hch.
    + by rewrite (v_count _ Hi), Hc.
    + intros Hsz. split; [done|]. specialize (Hlt Hsz). eapply Z.le_lt_trans; [apply batch_len_take|]. by rewrite <- Hb.
Qed.

(** ** Every run ends *)
Definition weight p : nat := match p with PRun rows => 3 * length rows + 1 | PSend _ rows => 3 * length rows + 3 | _ => 0 end.
Definition weights (l : list Producer) : nat := foldr (fun p n => weight p + n)%nat 0%nat l.
#[local] Arguments weights : simpl never.
Definition work s : nat := (weights (sProd s) + length (sChan s) + if cons_done (sCons s) then 0 else 1)%nat.

Lemma weights_insert l i p q : l !! i = Some p -> (weights (<[i := q]> l) + weight p = weights l + weight q)%nat.
Proof.
  revert i. induction l as [|x l IH]; intros [|i] H; simpl in *; simplify_eq; unfold weights in *; simpl; [lia|]. specialize (IH _ H). lia.
Qed.

Lemma weights_init (cs : list Cursor) : weights ((fun c => PRun (cuRows c)) <$> cs) = (3 * length (mjoin (cuRows <$> cs)) + length cs)%nat.
Proof.
  induction cs as [|c cs IH]; [done|]. rewrite !fmap_cons. unfold weights in *. cbn [foldr mjoin list_join]. rewrite length_app, IH.
  simpl. unfold mjoin. lia.
Qed.

Lemma work_callback rows count chan next stop s : (length chan <= length (sChan s))%nat -> cons_done (sCons s) = false ->
  (length chan < length (sChan s))%nat \/ cons_done next = true -> (work (call_back rows count chan next stop s) < work s)%nat.
Proof.
  intros Hl Hd Hor. unfold call_back, work. rewrite Hd. destruct (next_call s) as [[] calls]; cbn; [|lia].
  destruct (cons_done next); destruct Hor as [?|?]; try done; lia.
Qed.

Lemma step_inv a s r : sinv s -> sstep cursors size a s = Some r -> exists s', r = Ok s' /\ sinv s' /\ (work s' < work s)%nat.
Proof.
  intros Hi H. destruct a as [i|i|i|i| |]; simpl in H.
  - destruct (sProd s !! i) as [[[|x rows]| | |]|] eqn:Hp; try done. injection H as <-. eexists. split; [done|]. split; [by apply inv_next|].
    pose proof (weights_insert _ _ _ (PSend x rows) Hp) as Hw. unfold work. cbn in *. lia.
  - destruct (sProd s !! i) as [[|x rows| |]|] eqn:Hp; try done. rewrite (proj1 (open_while_running _ _ _ Hi Hp eq_refl)) in H.
    destruct (Z.ltb_spec (Z.of_nat (length (sChan s))) rows_cap); [|done]. injection H as <-.
    eexists. split; [reflexivity|]. pose proof (inv_send _ _ _ _ Hi Hp H0) as Hs. rewrite (proj1 (open_while_running _ _ _ Hi Hp eq_refl)) in Hs.
    split; [exact Hs|]. pose proof (weights_insert _ _ _ (PRun rows) Hp) as Hw. unfold work. cbn in *. rewrite length_app. simpl. lia.
  - destruct (sProd s !! i) as [[|x rows| |]|] eqn:Hp; try done. destruct (sStop s) eqn:Hst; [|done]. injection H as <-.
    eexists. split; [reflexivity|]. split; [by apply inv_stop|].
    pose proof (weights_insert _ _ _ (PStopped (x :: rows)) Hp) as Hw. unfold work. cbn in *. lia.
  - destruct (sProd s !! i) as [[[|x rows]| | |]|] eqn:Hp; try done. injection H as <-.
    destruct (inv_end _ _ Hi Hp) as (s' & He & Hi'). exists s'. split; [done|]. split; [done|].
    unfold producer_end in He. destruct (cursors !! i); [|done]. case_match; [done|]. injection He as <-.
    pose proof (weights_insert _ _ _ PEnd Hp) as Hw. unfold work. cbn in *. lia.
  - destruct (sCons s) as [rows bytes|] eqn:Hc; [|done]. destruct (sChan s) as [|x chan] eqn:Hch; [done|].
    destruct (inv_recv _ _ _ _ _ Hi Hc Hch) as (s' & He & Hi'). simpl in He. rewrite Hc, Hch in He. rewrite H in He. injection He as ->.
    exists s'. split; [done|]. split; [done|]. case_match; injection H as <-.
    + apply work_callback; rewrite ?Hc, ?Hch; simpl; [lia|done|left; lia].
    + unfold work. cbn. rewrite Hc, Hch. simpl. lia.
  - destruct (sCons s) as [rows bytes|] eqn:Hc; [|done]. destruct (sChan s) as [|x chan] eqn:Hch; [|done].
    destruct (sClosed s) eqn:Hcl; [|done].
    destruct (inv_closed _ _ _ Hi Hc Hch Hcl) as (s' & He & Hi'). simpl in He. rewrite Hc, Hch, Hcl in He. rewrite H in He. injection He as ->.
    exists s'. split; [done|]. split; [done|]. destruct rows; injection H as <-.
    + unfold work. cbn. rewrite Hc, Hch. simpl. lia.
    + apply work_callback; rewrite ?Hc, ?Hch; simpl; [lia|done|by right].
Qed.

Lemma runs_inv s l s' : sinv s -> sruns cursors size s l s' -> sinv s' /\ (length l + work s' <= work s)%nat.
Proof.
  intros Hi H. induction H as [s|s a s1 l s2 Ha Hr IH]; [simpl; split; [done|lia]|].
  apply step_inv in Ha as (s' & [= <-] & Hi1 & Hw); [|done]. destruct (IH Hi1) as [? ?]. split; [done|]. simpl. lia.
Qed.

(** ** No goroutine waits forever *)
Lemma producer_moves i p s : sinv s -> sProd s !! i = Some p -> p_done p = false ->
  sStop s = true \/ Z.of_nat (length (sChan s)) < rows_cap -> exists a r, sstep cursors size a s = Some r.
Proof.
  intros Hi Hp Hd Hor. destruct p as [[|x rows]|x rows| |]; try done.
  - exists (AEnd i). simpl. rewrite Hp. by eexists.
  - exists (ANext i). simpl. rewrite Hp. by eexists.
  - destruct Hor as [Hs|Hc].
    + exists (AStop i). simpl. rewrite Hp, Hs. by eexists.
    + exists (ASend i). simpl. rewrite Hp. case_match; [by eexists|]. destruct (Z.ltb_spec (Z.of_nat (length (sChan s))) rows_cap); [by eexists|lia].
Qed.

Lemma stuck_final s : sinv s -> (forall a, sstep cursors size a s = None) -> s_final s = true.
Proof.
  intros Hi Hn. assert (forall a r, sstep cursors size a s <> Some r) as Hno by (intros a r; by rewrite Hn).
  destruct (sCons s) as [rows bytes|rows] eqn:Hc.
  - exfalso. destruct (sChan s) as [|x chan] eqn:Hch.
    + destruct (sClosed s) eqn:Hcl.
      { destruct (inv_closed _ _ _ Hi Hc Hch Hcl) as (s' & He & _). by eapply Hno. }
      assert (exists i p, sProd s !! i = Some p /\ ended p = false) as (i & p & Hp & He).
      { destruct (decide (Forall (fun p => ended p = true) (sProd s))) as [Hall|Hex].
        - exfalso. rewrite (v_closed _ Hi) in Hcl. apply bool_decide_eq_false in Hcl. apply Hcl. rewrite (v_fin _ Hi), <- (v_len _ Hi).
          by rewrite list_filter_all.
        - apply not_Forall_Exists in Hex; [|apply _]. apply Exists_exists in Hex as (p & Hin & Hp).
          apply list_elem_of_lookup in Hin as [i Hi']. exists i, p. split; [done|]. simpl in Hp. by destruct (ended p). }
      assert (stopped p = false) as Hst.
      { destruct (stopped p) eqn:E; [|done]. pose proof (v_stopped _ Hi _ _ Hp E) as Hs. rewrite (v_stop _ Hi), Hc in Hs. done. }
      destruct (producer_moves _ _ _ Hi Hp) as (a & r & Ha); [by destruct p|right; rewrite Hch; done|]. by eapply Hno.
    + destruct (inv_recv _ _ _ _ _ Hi Hc Hch) as (s' & He & _). by eapply Hno.
  - unfold s_final. rewrite Hc, andb_true_r. apply forallb_forall. intros p Hin%list_elem_of_In. apply list_elem_of_lookup in Hin as [i Hp].
    destruct (p_done p) eqn:Hd; [done|]. exfalso. destruct (producer_moves _ _ _ Hi Hp Hd) as (a & r & Ha); [|by eapply Hno].
    left. by rewrite (v_stop _ Hi), Hc.
Qed.

(** ** The result *)
Lemma result_ok s n : sinv s -> s_final s = true -> stream_result s = Ok n ->
  n = Z.of_nat (length (mjoin (sSent s))) /\ forall i c, cursors !! i = Some c -> of_cursor i (mjoin (sSent s)) = cuRows c /\ cuEnd c <> EndBad.
Proof.
  intros Hi Hf Hr. unfold stream_result in Hr. destruct (sErr s) eqn:He; [done|]. destruct (next_call s) as [[] calls]; [|done].
  injection Hr as <-. unfold s_final in Hf. apply andb_true_iff in Hf as [_ Hd].
  assert (cons_done (sCons s) = true) as Hdone by (by destruct (sCons s)).
  destruct (v_done _ Hi Hdone He) as (Hq & Hch & Hcl). split; [by rewrite (v_count _ Hi), Hq, app_nil_r|].
  intros i c Hc. rewrite (v_closed _ Hi) in Hcl. apply bool_decide_eq_true in Hcl. rewrite (v_fin _ Hi), <- (v_len _ Hi) in Hcl.
  destruct (lookup_lt_is_Some_2 (sProd s) i) as [p Hp]; [rewrite (v_len _ Hi); by eapply lookup_lt_Some|].
  assert (p = PEnd) as ->.
  { destruct (ended p) eqn:E; [by destruct p|]. destruct (open_while_running _ _ _ Hi Hp E) as [_ Hlt]. rewrite (v_fin _ Hi), <- (v_len _ Hi) in Hlt. lia. }
  split; [|by apply (v_good _ Hi He i)]. destruct (v_rows _ Hi i _ Hp) as (c' & Hc' & Heq). simplify_eq.
  unfold taken in Heq. by rewrite Hq, Hch, !app_nil_r in Heq.
Qed.

(** Without bad rows and failing callbacks there is no error. *)
Lemma step_no_error a s s' : Forall (fun c => cuEnd c <> EndBad) cursors -> sCalls s = [] -> sErr s = None ->
  sstep cursors size a s = Some (Ok s') -> sCalls s' = [] /\ sErr s' = None.
Proof.
  intros Hb Hc He H. destruct a as [i|i|i|i| |]; simpl in H; unfold producer_end, call_back, next_call in H; rewrite ?Hc, ?He in H;
    repeat (case_match; try done); simplify_eq; cbn; try done; (split; [done|]).
  all: exfalso; eapply (proj1 (Forall_forall _ _) Hb); [by eapply list_elem_of_lookup_2|done].
Qed.

Lemma runs_no_error s l s' : Forall (fun c => cuEnd c <> EndBad) cursors -> sCalls s = [] -> sErr s = None ->
  sruns cursors size s l s' -> sCalls s' = [] /\ sErr s' = None.
Proof.
  intros Hb Hc He H. induction H as [s|s a s1 l s2 Ha Hr IH]; [done|].
  destruct (step_no_error _ _ _ Hb Hc He Ha). by apply IH.
Qed.

(** A list of actions taken one by one. *)
Fixpoint stake (l : list action) (s : SSt) : option SSt :=
  match l with
  | [] => Some s
  | a :: l => match sstep cursors size a s with Some (Ok s1) => stake l s1 | _ => None end
  end.

Lemma stake_runs l s s' : stake l s = Some s' -> sruns cursors size s l s'.
Proof.
  revert s. induction l as [|a l IH]; simpl; intros s H; [injection H as <-; constructor|].
  destruct (sstep cursors size a s) as [[s1|e|]|] eqn:Ha; try done. econstructor; [exact Ha|by apply IH].
Qed.
End props.

(** C19: Under every interleaving of the goroutines of a streamed SELECT no
    goroutine sends on a closed channel or closes it twice; they do not wait for
    each other forever: a state from which no goroutine can move is final.  A
    final state without an error has handed the client every row of every
    cursor once, the rows of one cursor in their order, and the row count; an
    error needs a row that cannot be read or a client that does not take its rows. *)
Theorem stream_delivers cursors size calls l s : cursors <> [] -> sruns cursors size (sinit cursors calls) l s ->
  (forall a, sstep cursors size a s <> Some Panic) /\
  ((forall a, sstep cursors size a s = None) -> s_final s = true /\
    (forall n, stream_result s = Ok n -> n = Z.of_nat (length (mjoin (sSent s))) /\
       forall i c, cursors !! i = Some c -> of_cursor i (mjoin (sSent s)) = cuRows c) /\
    (Forall (fun c => cuEnd c <> EndBad) cursors -> calls = [] -> exists n, stream_result s = Ok n)).
Proof.
  intros Hne Hr. destruct (runs_inv _ _ _ _ _ (sinit_inv cursors size calls Hne) Hr) as [Hi _]. split.
  - intros a Ha. by destruct (step_inv _ _ _ _ _ Hi Ha) as (s' & ? & _).
  - intros Hstuck. pose proof (stuck_final _ _ _ Hi Hstuck) as Hf. split_and!; [done|..].
    + intros n Hn. destruct (result_ok _ _ _ _ Hi Hf Hn) as [-> Hc]. split; [done|]. intros i c Hic. by apply Hc.
    + intros Hb ->. destruct (runs_no_error cursors size (sinit cursors []) l s Hb eq_refl eq_refl Hr) as [Hc He].
      exists (sCount s). unfold stream_result, next_call. by rewrite He, Hc.
Qed.

(** C20: A streamed SELECT needs bounded memory and time: the channel never
    holds more than 65536 rows, a batch without its last row is smaller than the
    buffer size, and a run takes at most three actions per row and one per goroutine. *)
Theorem stream_bounds cursors size calls l s : cursors <> [] -> sruns cursors size (sinit cursors calls) l s ->
  Z.of_nat (length (sChan s)) <= 65536 /\ (0 < size -> Forall (batch_ok size) (sSent s)) /\
  (length l <= 3 * length (mjoin (cuRows <$> cursors)) + length cursors + 1)%nat.
Proof.
  intros Hne Hr. destruct (runs_inv _ _ _ _ _ (sinit_inv cursors size calls Hne) Hr) as [Hi Hw].
  split_and!; [apply (v_cap _ _ _ Hi)|apply (v_batch _ _ _ Hi)|]. etrans; [|etrans; [exact Hw|]]; [lia|].
  unfold work. cbn [sinit sProd sChan sCons cons_done length]. rewrite weights_init. lia.
Qed.

(** ** Two shards *)
Definition two_cursors (e : cursor_end) : list Cursor := [mkCursor [["ab"]; ["cd"]] EndOk; mkCursor [["xyz"]] e].
Definition two_run : list action :=
  [ANext 0; ANext 1; ASend 1; ARecv; ASend 0; ARecv; ANext 0; AEnd 1; ASend 0; AEnd 0; ARecv; AClosed].
Definition two_final : SSt :=
  mkSSt [PEnd; PEnd] 2 true true [] (CDone []) 3 [[(1%nat, ["xyz"]); (0%nat, ["ab"])]; [(0%nat, ["cd"])]] None [].

Lemma two_runs e : e <> EndBad -> sruns (two_cursors e) 4 (sinit (two_cursors e) []) two_run two_final.
Proof. intros He. apply stake_runs. by destruct e. Qed.
Lemma two_stuck e a : sstep (two_cursors e) 4 a two_final = None.
Proof. destruct a as [i|i|i|i| |]; try done; by destruct i as [|[|i]]. Qed.

Lemma stream_delivers_witness : two_cursors EndOk <> [] /\ sruns (two_cursors EndOk) 4 (sinit (two_cursors EndOk) []) two_run two_final /\
  s_final two_final = true /\ of_cursor 0 (mjoin (sSent two_final)) = [["ab"]; ["cd"]].
Proof.
  pose proof (two_runs EndOk ltac:(done)) as Hr. split; [done|]. split; [exact Hr|].
  destruct (stream_delivers (two_cursors EndOk) 4 [] two_run two_final ltac:(done) Hr) as [_ H].
  destruct (H (two_stuck EndOk)) as (Hf & Hd & _). split; [exact Hf|]. exact (proj2 (Hd 3 eq_refl) 0%nat _ eq_refl).
Defined.

Lemma stream_bounds_witness : two_cursors EndOk <> [] /\ sruns (two_cursors EndOk) 4 (sinit (two_cursors EndOk) []) two_run two_final /\
  (length two_run <= 12)%nat.
Proof.
  pose proof (two_runs EndOk ltac:(done)) as Hr. split; [done|]. split; [exact Hr|].
  exact (proj2 (proj2 (stream_bounds (two_cursors EndOk) 4 [] two_run two_final ltac:(done) Hr))).
Defined.

(** The end of a cursor is taken for the end of its rows: with a connection
    that breaks after its first row, the client gets the rows that came before
    and a result that says it is complete. *)
Theorem stream_truncates : sruns (two_cursors EndLost) 4 (sinit (two_cursors EndLost) []) two_run two_final /\
  s_final two_final = true /\ stream_result two_final = Ok 3.
Proof. split_and!; [by apply two_runs|done|done]. Qed.
