(* ===== verification/Shift.v ===== *)
(** * The shift manager (src/plugins/shiftmanager: shiftmanager.go, handler.go)

    It keeps the shifts that run, by a key made of table and target, and the
    outcome of those that ended.  Its methods run under a mutex; [None] is a call
    that waits for it.  The shifts themselves belong to another package: a
    handler is a number, and the outcomes of [Start] and [WaitFinish] are inputs.

    A client of the manager starts a shift and then waits for it; [mstep] is one
    step of one of several clients. *)
From S2P Require Import Prelude.
Open Scope string_scope.
Open Scope list_scope.
Open Scope Z_scope.

Inductive ShiftStatus := ShiftStatusNone | ShiftStatusMigrating | ShiftStatusSuccess | ShiftStatusFail.
Inductive ShiftType := ShiftTypeNone | ShiftTypeReshard | ShiftTypeRebalance.

(** [ShiftInfo] *)
Record ShiftInfo := mkShiftInfo {
  shFrom : string; shFromUser : string; shFromPassword : string; shFromDatabase : string; shFromTable : string;
  shTo : string; shToUser : string; shToPassword : string; shToDatabase : string; shToTable : string;
  shRebalance : bool; shCleanup : bool; shChecksum : bool; shMysqlDump : string; shThreads : Z; shPosBehinds : Z;
  shWaitTimeBeforeChecksum : Z; shRadonURL : string
}.

(** The configuration of a shift: [shift.Config] adds the flavor of the target. *)
Inductive Flavor := ToRadonDBFlavor | ToMySQLFlavor.
Record ShiftConfig := mkShiftConfig { scInfo : ShiftInfo; scToFlavor : Flavor }.

Inductive sherr := ShRunning (key : string) | ShTypeNone | ShStart | ShLimit | ShNotFound (key : string) | ShWrongType | ShFailed.

(** [NewShiftInstance]: the configuration the handler is made from. *)
Definition NewShiftInstance (info : ShiftInfo) (typ : ShiftType) : res sherr ShiftConfig :=
  match typ with
  | ShiftTypeReshard => Ok (mkShiftConfig info ToRadonDBFlavor)
  | ShiftTypeRebalance => Ok (mkShiftConfig info ToMySQLFlavor)
  | ShiftTypeNone => Err ShWrongType
  end.

Definition maxShiftInstancesAlived : nat := 10.

(** [shiftInstancesAlived], [shiftInstancesFinished] *)
Record Alived := mkAlived { alShift : nat; alStatus : ShiftStatus; alProgress : string; alType : ShiftType }.
Record Finished := mkFinished { fiStatus : ShiftStatus; fiProgress : string; fiType : ShiftType }.

(** [ShiftManager], with the handlers that are started and have not returned
    and those that got the stop signal. *)
Record ShiftManager := mkShiftManager {
  smMu : bool; smAlived : gmap string Alived; smFinished : gmap string Finished; smWg : nat;
  smRunning : gset nat; smSignalled : gset nat
}.
Definition set_alived (m : gmap string Alived) (s : ShiftManager) : ShiftManager :=
  mkShiftManager (smMu s) m (smFinished s) (smWg s) (smRunning s) (smSignalled s).
Definition set_finished (m : gmap string Finished) (s : ShiftManager) : ShiftManager :=
  mkShiftManager (smMu s) (smAlived s) m (smWg s) (smRunning s) (smSignalled s).
Definition set_running (r : gset nat) (s : ShiftManager) : ShiftManager :=
  mkShiftManager (smMu s) (smAlived s) (smFinished s) (smWg s) r (smSignalled s).
Definition set_mu (b : bool) (s : ShiftManager) : ShiftManager :=
  mkShiftManager b (smAlived s) (smFinished s) (smWg s) (smRunning s) (smSignalled s).
Definition set_wg (n : nat) (s : ShiftManager) : ShiftManager :=
  mkShiftManager (smMu s) (smAlived s) (smFinished s) n (smRunning s) (smSignalled s).

Abbreviation SHM := (M ShiftManager sherr).

(** [Init] *)
Definition shift_Init : ShiftManager := mkShiftManager false ∅ ∅ 0 ∅ ∅.

(** [mu.Lock(); defer mu.Unlock()] around a body; it waits while the mutex is held. *)
Definition locked {A} (body : SHM A) (s : ShiftManager) : option (res sherr A * ShiftManager) :=
  if smMu s then None else Some (body s).

(** [addAnAlivedInstance] *)
Definition addAnAlivedInstance (key : string) (typ : ShiftType) (shift : nat) : SHM unit :=
  s ← mget;
  if decide (size (smAlived s) < maxShiftInstancesAlived)%nat
  then mmodify (set_alived (<[key := mkAlived shift ShiftStatusMigrating "" typ]> (smAlived s)))
  else mfail ShLimit.

(** [shift.Start()] *)
Definition shift_Start (shift : nat) (started : bool) : SHM unit :=
  if started then mmodify (fun s => set_running (smRunning s ∪ {[shift]}) s) else mfail ShStart.

(** [StartShiftInstance] *)
Definition StartShiftInstance (key : string) (shift : nat) (typ : ShiftType) (started : bool) : ShiftManager -> option (res sherr unit * ShiftManager) :=
  locked (
    s ← mget;
    match smAlived s !! key with
    | Some _ => mfail (ShRunning key)
    | None =>
        match typ with
        | ShiftTypeNone => mfail ShTypeNone
        | _ => _ ← shift_Start shift started; addAnAlivedInstance key typ shift
        end
    end).

(** [updateFinishedInstance] *)
Definition updateFinishedInstance (key : string) (status : ShiftStatus) (typ : ShiftType) : ShiftManager -> option (res sherr unit * ShiftManager) :=
  locked (mmodify (fun s =>
    set_alived (delete key (smAlived s)) (set_finished (<[key := mkFinished status "" typ]> (smFinished s)) s))).

(** [WaitInstanceFinishThread]: the instance its goroutine waits for. *)
Definition WaitInstanceFinishThread (key : string) : ShiftManager -> option (res sherr Alived * ShiftManager) :=
  locked (
    s ← mget;
    match smAlived s !! key with
    | None => mfail (ShNotFound key)
    | Some instance => _ ← mmodify (fun s => set_wg (S (smWg s)) s); mret instance
    end).

(** [WaitInstanceFinish] up to [WaitFinish]: the mutex is released only where
    the instance is found. *)
Definition WaitInstanceFinish (key : string) : ShiftManager -> option (res sherr Alived * ShiftManager) :=
  locked (
    s ← mget;
    match smAlived s !! key with
    | None => _ ← mmodify (set_mu true); mfail (ShNotFound key)
    | Some instance => mret instance
    end).

(** What follows [instance.shift.WaitFinish()], in both. *)
Definition after_wait (key : string) (instance : Alived) (ok : bool) : ShiftManager -> option (res sherr unit * ShiftManager) :=
  updateFinishedInstance key (if ok then ShiftStatusSuccess else ShiftStatusFail) (alType instance).

(** [GetStatus], [GetShiftType] *)
Definition GetStatus (key : string) (s : ShiftManager) : ShiftStatus :=
  match smAlived s !! key with
  | Some v => alStatus v
  | None => match smFinished s !! key with Some v => fiStatus v | None => ShiftStatusNone end
  end.
Definition GetShiftType (key : string) (s : ShiftManager) : ShiftType :=
  match smAlived s !! key with
  | Some v => alType v
  | None => match smFinished s !! key with Some v => fiType v | None => ShiftTypeNone end
  end.

(** [StopOneInstance], [StopAllInstance] *)
Definition signal (l : gset nat) (s : ShiftManager) : ShiftManager :=
  mkShiftManager (smMu s) (smAlived s) (smFinished s) (smWg s) (smRunning s) (smSignalled s ∪ l).
Definition StopOneInstance (key : string) : SHM unit :=
  s ← mget;
  match smAlived s !! key with Some v => mmodify (signal {[alShift v]}) | None => mfail (ShNotFound key) end.
Definition StopAllInstance : SHM unit :=
  mmodify (fun s => signal (list_to_set ((fun kv => alShift (snd kv)) <$> map_to_list (smAlived s))) s).

(** [Close] waits for the goroutines of [WaitInstanceFinishThread]. *)
Definition shift_Close (s : ShiftManager) : option ShiftManager :=
  let s := snd (StopAllInstance s) in
  if decide (smWg s = 0%nat) then Some s else None.

(** ** Clients *)

(** A client and the step it is at; its handler is its index.  [MShift] waits
    for the shift, [MUpdate] for the mutex, [MDone] has returned. *)
Record Mig := mkMig { mgKey : string; mgType : ShiftType; mgThread : bool }.
Inductive Phase := MStart | MWait | MShift (a : Alived) | MUpdate (a : Alived) (ok : bool) | MDone (r : res sherr unit).
Inductive mact := MaStart (i : nat) (started : bool) | MaWait (i : nat) | MaReturn (i : nat) (ok : bool) | MaUpdate (i : nat).
Record MSt := mkMSt { msMgr : ShiftManager; msPh : list Phase }.

Section clients.
Variable (migs : list Mig).

Definition set_ph (i : nat) (p : Phase) (m : ShiftManager) (s : MSt) : MSt := mkMSt m (<[i := p]> (msPh s)).

(** The phase after a call, by its result. *)
Definition on_result {A} (i : nat) (k : A -> Phase) (r : option (res sherr A * ShiftManager)) (s : MSt) : option MSt :=
  match r with
  | None => None
  | Some (Ok a, m) => Some (set_ph i (k a) m s)
  | Some (Err e, m) => Some (set_ph i (MDone (Err e)) m s)
  | Some (Panic, m) => Some (set_ph i (MDone Panic) m s)
  end.

Definition wg_done (thread : bool) (m : ShiftManager) : ShiftManager := if thread then set_wg (pred (smWg m)) m else m.

Definition mstep (a : mact) (s : MSt) : option MSt :=
  match a with
  | MaStart i started =>
      match migs !! i, msPh s !! i with
      | Some g, Some MStart => on_result i (fun _ => MWait) (StartShiftInstance (mgKey g) i (mgType g) started (msMgr s)) s
      | _, _ => None
      end
  | MaWait i =>
      match migs !! i, msPh s !! i with
      | Some g, Some MWait =>
          on_result i MShift ((if mgThread g then WaitInstanceFinishThread else WaitInstanceFinish) (mgKey g) (msMgr s)) s
      | _, _ => None
      end
  | MaReturn i ok =>
      match msPh s !! i with
      | Some (MShift a) => Some (set_ph i (MUpdate a ok) (set_running (smRunning (msMgr s) ∖ {[alShift a]}) (msMgr s)) s)
      | _ => None
      end
  | MaUpdate i =>
      match migs !! i, msPh s !! i with
      | Some g, Some (MUpdate a ok) =>
          match after_wait (mgKey g) a ok (msMgr s) with
          | Some (_, m) => Some (set_ph i (MDone (if ok then Ok tt else Err ShFailed)) (wg_done (mgThread g) m) s)
          | None => None
          end
      | _, _ => None
      end
  end.

Definition minit : MSt := mkMSt shift_Init (replicate (length migs) MStart).
Inductive mruns : MSt -> list mact -> MSt -> Prop :=
| mruns_nil s : mruns s [] s
| mruns_cons s a s1 l s2 : mstep a s = Some s1 -> mruns s1 l s2 -> mruns s (a :: l) s2.

(** Between the start of its shift and the entry of its outcome. *)
Definition active (p : Phase) : bool := match p with MWait | MShift _ | MUpdate _ _ => true | _ => false end.
Definition is_done (p : Phase) : bool := match p with MDone _ => true | _ => false end.
End clients.
