(* ===== verification/ShiftProps.v ===== *)
(** * Shifts run one at a time per key

    The invariant of the manager under every interleaving of its clients, and
    what goes wrong outside it. *)
From S2P Require Import Prelude Shift.
Open Scope string_scope.
Open Scope list_scope.
Open Scope Z_scope.

Section props.
Variable (migs : list Mig).
Implicit Types (s : MSt) (p : Phase) (g : Mig).

(** The entry of a client that is active, as its phase has it. *)
Definition entry (i : nat) (g : Mig) : Alived := mkAlived i ShiftStatusMigrating "" (mgType g).
Definition holds (i : nat) (g : Mig) (p : Phase) : Prop :=
  match p with MShift a | MUpdate a _ => a = entry i g | MDone Panic => False | _ => True end.

(** The goroutines the manager waits for on close. *)
Definition waits (gp : Mig * Phase) : bool :=
  mgThread (fst gp) && match snd gp with MShift _ | MUpdate _ _ => true | _ => false end.

(** The status a client leaves. *)
Definition outcome (p : Phase) : option ShiftStatus :=
  match p with MDone (Ok _) => Some ShiftStatusSuccess | MDone (Err ShFailed) => Some ShiftStatusFail | _ => None end.
Definition only (i : nat) (k : string) : Prop := forall j g, migs !! j = Some g -> mgKey g = k -> j = i.

Record minv (s : MSt) : Prop := {
  i_mu : smMu (msMgr s) = false;
  i_len : length (msPh s) = length migs;
  i_holds : forall i g p, migs !! i = Some g -> msPh s !! i = Some p -> holds i g p;
  i_act : forall i g p, migs !! i = Some g -> msPh s !! i = Some p -> active p = true -> smAlived (msMgr s) !! mgKey g = Some (entry i g);
  i_owner : forall k a, smAlived (msMgr s) !! k = Some a ->
    exists g p, migs !! alShift a = Some g /\ msPh s !! alShift a = Some p /\ active p = true /\ mgKey g = k;
  i_size : (size (smAlived (msMgr s)) <= maxShiftInstancesAlived)%nat;
  i_wg : smWg (msMgr s) = length (filter (fun gp => waits gp = true) (zip migs (msPh s)));
  i_out : forall i g p x, migs !! i = Some g -> msPh s !! i = Some p -> outcome p = Some x -> only i (mgKey g) ->
    smFinished (msMgr s) !! mgKey g = Some (mkFinished x "" (mgType g))
}.

Lemma phase_change (l : list Phase) i p j q : <[i := p]> l !! j = Some q -> (j = i /\ q = p) \/ (j <> i /\ l !! j = Some q).
Proof. rewrite list_lookup_insert_Some. naive_solver. Qed.

Lemma waits_insert (l : list Mig) ps i g p q : l !! i = Some g -> ps !! i = Some p ->
  (length (filter (fun gp => waits gp = true) (zip l (<[i := q]> ps))) + (if waits (g, p) then 1 else 0) =
   length (filter (fun gp => waits gp = true) (zip l ps)) + (if waits (g, q) then 1 else 0))%nat.
Proof.
  revert ps i. induction l as [|x l IH]; intros [|y ps] [|i] Hg Hp; simpl in *; simplify_eq.
  - rewrite !filter_cons. destruct (waits (g, p)), (waits (g, q)); simpl; lia.
  - specialize (IH _ _ Hg Hp). rewrite !filter_cons. destruct (waits (x, y)); simpl; lia.
Qed.

Lemma waits_not g p : (match p with MShift _ | MUpdate _ _ => true | _ => false end) = false -> waits (g, p) = false.
Proof. intros H. unfold waits. simpl. rewrite H. apply andb_false_r. Qed.

Lemma waits_update g a ok : waits (g, MUpdate a ok) = mgThread g.
Proof. apply andb_true_r. Qed.

Lemma minit_inv : minv (minit migs).
Proof.
  split; cbn; try done.
  - apply length_replicate.
  - intros i g p _ [-> _]%lookup_replicate. done.
  - intros i g p _ [-> _]%lookup_replicate. done.
  - rewrite map_size_empty. unfold maxShiftInstancesAlived. lia.
  - induction migs as [|g l IH]; [done|]. simpl. rewrite filter_cons, decide_False; [done|]. by rewrite waits_not.
  - intros i g p x _ [-> _]%lookup_replicate. done.
Qed.

(** A client that keeps its entry moves on. *)
Lemma inv_move i g p q wg run s : minv s -> migs !! i = Some g -> msPh s !! i = Some p ->
  holds i g q -> active q = true -> active p = true ->
  (wg + (if waits (g, p) then 1 else 0) = smWg (msMgr s) + (if waits (g, q) then 1 else 0))%nat ->
  minv (set_ph i q (set_wg wg (set_running run (msMgr s))) s).
Proof.
  intros [H1 H2 H3 H4 H5 H6 H7 H8] Hg Hp Hh Ha Hap Hw. split; cbn; try done.
  - by rewrite length_insert.
  - intros j g' p' Hg' [[-> ->]|[_ Hj]]%phase_change; [by simplify_eq|by apply (H3 j)].
  - intros j g' p' Hg' [[-> ->]|[_ Hj]]%phase_change; [intros _; by apply (H4 i g' p)|by apply (H4 j g')].
  - intros k a Hk. destruct (H5 k a Hk) as (g' & p' & Hg' & Hp' & Ha' & Hkey). exists g'.
    destruct (decide (alShift a = i)) as [<-|Hne].
    + exists q. rewrite list_lookup_insert_eq by (by eapply lookup_lt_Some). done.
    + exists p'. rewrite list_lookup_insert_ne by done. done.
  - pose proof (waits_insert _ _ _ _ _ q Hg Hp). lia.
  - intros j g' p' x Hg' [[-> ->]|[_ Hj]]%phase_change; [by destruct q|by apply (H8 j g')].
Qed.

(** A client that is refused. *)
Lemma inv_refused i g e run s : minv s -> migs !! i = Some g -> msPh s !! i = Some MStart -> e <> ShFailed ->
  minv (set_ph i (MDone (Err e)) (set_running run (msMgr s)) s).
Proof.
  intros [H1 H2 H3 H4 H5 H6 H7 H8] Hg Hp He. split; cbn; try done.
  - by rewrite length_insert.
  - intros j g' p' Hg' [[-> ->]|[_ Hj]]%phase_change; [done|by apply (H3 j)].
  - intros j g' p' Hg' [[-> ->]|[_ Hj]]%phase_change; [done|by apply (H4 j g')].
  - intros k a Hk. destruct (H5 k a Hk) as (g' & p' & Hg' & Hp' & Ha' & Hkey). exists g', p'.
    rewrite list_lookup_insert_ne; [done|]. intros E. rewrite <- E, Hp in Hp'. by simplify_eq.
  - pose proof (waits_insert _ _ _ _ _ (MDone (Err e)) Hg Hp) as Hw. rewrite !waits_not in Hw by done. lia.
  - intros j g' p' x Hg' [[-> ->]|[_ Hj]]%phase_change; [by destruct e|by apply (H8 j g')].
Qed.

Lemma inv_refused_same i g e s : minv s -> migs !! i = Some g -> msPh s !! i = Some MStart -> e <> ShFailed ->
  minv (set_ph i (MDone (Err e)) (msMgr s) s).
Proof.
  intros Hi Hg Hp He. replace (msMgr s) with (set_running (smRunning (msMgr s)) (msMgr s)) by (by destruct (msMgr s)).
  by apply (inv_refused i g).
Qed.

(** A client that is entered. *)
Lemma inv_entered i g run s : minv s -> migs !! i = Some g -> msPh s !! i = Some MStart -> smAlived (msMgr s) !! mgKey g = None ->
  (size (smAlived (msMgr s)) < maxShiftInstancesAlived)%nat ->
  minv (set_ph i MWait (set_alived (<[mgKey g := entry i g]> (smAlived (msMgr s))) (set_running run (msMgr s))) s).
Proof.
  intros [H1 H2 H3 H4 H5 H6 H7 H8] Hg Hp Hno Hsz. split; cbn; try done.
  - by rewrite length_insert.
  - intros j g' p' Hg' [[-> ->]|[_ Hj]]%phase_change; [done|by apply (H3 j)].
  - intros j g' p' Hg' [[-> ->]|[_ Hj]]%phase_change Ha; [simplify_eq; by rewrite lookup_insert_eq|].
    pose proof (H4 j g' p' Hg' Hj Ha) as Hk. rewrite lookup_insert_ne by congruence. done.
  - intros k a [[<- <-]|[Hne Hk]]%lookup_insert_Some.
    + exists g, MWait. simpl. rewrite list_lookup_insert_eq by (by eapply lookup_lt_Some). done.
    + destruct (H5 k a Hk) as (g' & p' & Hg' & Hp' & Ha' & Hkey). exists g', p'.
      rewrite list_lookup_insert_ne; [done|]. intros E. rewrite <- E, Hp in Hp'. by simplify_eq.
  - rewrite map_size_insert_None by done. lia.
  - pose proof (waits_insert _ _ _ _ _ MWait Hg Hp) as Hw. rewrite !waits_not in Hw by done. lia.
  - intros j g' p' x Hg' [[-> ->]|[_ Hj]]%phase_change; [done|by apply (H8 j g')].
Qed.

(** A client that leaves. *)
Lemma inv_leaves i g a ok s : minv s -> migs !! i = Some g -> msPh s !! i = Some (MUpdate a ok) ->
  exists m, after_wait (mgKey g) a ok (msMgr s) = Some (Ok tt, m) /\
    minv (set_ph i (MDone (if ok then Ok tt else Err ShFailed)) (wg_done (mgThread g) m) s).
Proof.
  intros [H1 H2 H3 H4 H5 H6 H7 H8] Hg Hp. unfold after_wait, updateFinishedInstance, locked. rewrite H1.
  eexists. split; [reflexivity|]. pose proof (H3 _ _ _ Hg Hp) as ->. set (q := MDone (if ok then Ok tt else Err ShFailed)).
  pose proof (H4 _ _ _ Hg Hp eq_refl) as Hmine. split; unfold wg_done; destruct (mgThread g) eqn:Ht; cbn; try done.
  1,2: by rewrite length_insert.
  1,2: intros j g' p' Hg' [[-> ->]|[_ Hj]]%phase_change; [by destruct ok|by apply (H3 j)].
  1,2: intros j g' p' Hg' [[-> ->]|[Hne Hj]]%phase_change Ha; [by destruct ok|];
    pose proof (H4 j g' p' Hg' Hj Ha) as Hk; rewrite lookup_delete_ne; [done|]; intros E; rewrite <- E, Hmine in Hk; by simplify_eq.
  1,2: intros k a [Hne Hk]%lookup_delete_Some; destruct (H5 k a Hk) as (g' & p' & Hg' & Hp' & Ha' & Hkey); exists g', p';
    rewrite list_lookup_insert_ne; [done|]; intros E; subst; rewrite Hg in Hg'; by simplify_eq.
  1,2: rewrite map_size_delete_Some by done; lia.
  1,2: pose proof (waits_insert _ _ _ _ _ q Hg Hp) as Hw; rewrite (waits_not g q ltac:(done)), waits_update, Ht in Hw; simpl in *; lia.
  1,2: intros j g' p' x Hg' Hj Hx Honly; destruct (decide (mgKey g' = mgKey g)) as [Ek|Ek];
    [pose proof (Honly i g Hg ltac:(done)) as <-; rewrite Ek, lookup_insert_eq;
     rewrite list_lookup_insert_eq in Hj by (by eapply lookup_lt_Some); injection Hj as <-; destruct ok; cbn in Hx |- *; congruence
    |rewrite lookup_insert_ne by done; apply phase_change in Hj as [[-> ->]|[_ Hj]]; [exfalso; apply Ek; congruence|by apply (H8 j g' p')]].
Qed.

Lemma mstep_inv a s s' : minv s -> mstep migs a s = Some s' -> minv s'.
Proof.
  intros Hi H. pose proof (i_mu _ Hi) as Hmu. destruct a as [i started|i|i ok|i]; simpl in H.
  - destruct (migs !! i) as [g|] eqn:Hg; [|done]. destruct (msPh s !! i) as [[]|] eqn:Hp; try done.
    unfold StartShiftInstance, locked in H. rewrite Hmu in H. unfold mbind, M_bind, mget in H. cbn in H.
    destruct (smAlived (msMgr s) !! mgKey g) eqn:Hk; [cbn in H; injection H as <-; by apply (inv_refused_same i g)|].
    assert (forall typ, mgType g = typ -> typ <> ShiftTypeNone -> on_result i (fun _ => MWait)
      (Some ((_ ← shift_Start i started; addAnAlivedInstance (mgKey g) typ i) (msMgr s))) s = Some s' -> minv s') as Hgo.
    { intros typ <- _ H1. unfold addAnAlivedInstance, mbind, M_bind, mget in H1. destruct started; cbn in H1; [|injection H1 as <-; by apply (inv_refused_same i g)].
      case_decide; cbn in H1; injection H1 as <-; [by apply inv_entered|by apply (inv_refused i g)]. }
    destruct (mgType g) eqn:Ht; [cbn in H; injection H as <-; by apply (inv_refused_same i g)|..]; (eapply Hgo; [reflexivity|done|exact H]).
  - destruct (migs !! i) as [g|] eqn:Hg; [|done]. destruct (msPh s !! i) as [[]|] eqn:Hp; try done.
    pose proof (i_act _ Hi _ _ _ Hg Hp eq_refl) as Hk.
    assert (forall b, mgThread g = b -> minv (set_ph i (MShift (entry i g)) (set_wg (if b then S (smWg (msMgr s)) else smWg (msMgr s)) (set_running (smRunning (msMgr s)) (msMgr s))) s)) as Hgo.
    { intros b Hb. apply (inv_move i g MWait); try done. rewrite waits_not by done. unfold waits. simpl. rewrite Hb. destruct b; simpl; lia. }
    destruct (mgThread g) eqn:Ht; unfold WaitInstanceFinishThread, WaitInstanceFinish, locked in H; rewrite Hmu in H; unfold mbind, M_bind, mget in H; cbn in H; rewrite Hk in H;
      cbn in H; injection H as <-; specialize (Hgo _ eq_refl); [exact Hgo|by destruct (msMgr s)].
  - destruct (msPh s !! i) as [[| |a| |]|] eqn:Hp; try done. injection H as <-.
    destruct (lookup_lt_is_Some_2 migs i) as [g Hg]; [rewrite <- (i_len _ Hi); by eapply lookup_lt_Some|].
    apply (inv_move i g (MShift a) (MUpdate a ok) (smWg (msMgr s)) _ s Hi Hg Hp); try done. exact (i_holds _ Hi _ _ _ Hg Hp).
  - destruct (migs !! i) as [g|] eqn:Hg; [|done]. destruct (msPh s !! i) as [[| | |a ok|]|] eqn:Hp; try done.
    destruct (inv_leaves _ _ _ _ _ Hi Hg Hp) as (m & Hm & Hi'). rewrite Hm in H. by injection H as <-.
Qed.

Lemma mruns_inv s l s' : minv s -> mruns migs s l s' -> minv s'.
Proof. intros Hi H. induction H as [|s a s1 l s2 Ha Hr IH]; [done|]. eauto using mstep_inv. Qed.

(** A client that has not returned can move. *)
Lemma client_moves i p s : minv s -> msPh s !! i = Some p -> is_done p = false -> exists a s', mstep migs a s = Some s'.
Proof.
  intros Hi Hp Hd. pose proof (i_mu _ Hi) as Hmu.
  destruct (lookup_lt_is_Some_2 migs i) as [g Hg]; [rewrite <- (i_len _ Hi); by eapply lookup_lt_Some|].
  assert (forall A (k : A -> Phase) (b : SHM A), exists s', on_result i k (locked b (msMgr s)) s = Some s') as Hres.
  { intros A k b. unfold locked. rewrite Hmu. unfold on_result. destruct (b (msMgr s)) as [[] m]; by eexists. }
  destruct p as [| |a|a ok|r]; try done.
  - exists (MaStart i true). simpl. rewrite Hg, Hp. apply Hres.
  - exists (MaWait i). simpl. rewrite Hg, Hp. destruct (mgThread g); apply Hres.
  - exists (MaReturn i true). simpl. rewrite Hp. by eexists.
  - exists (MaUpdate i). simpl. rewrite Hg, Hp. destruct (inv_leaves _ _ _ _ _ Hi Hg Hp) as (m & -> & _). by eexists.
Qed.

(** When all have returned nothing is left in the manager. *)
Lemma all_done_empty s : minv s -> Forall (fun p => is_done p = true) (msPh s) ->
  smAlived (msMgr s) = ∅ /\ smWg (msMgr s) = 0%nat.
Proof.
  intros Hi Hd. split.
  - apply map_eq. intros k. rewrite lookup_empty. destruct (smAlived (msMgr s) !! k) as [a|] eqn:Hk; [|done]. exfalso.
    destruct (i_owner _ Hi _ _ Hk) as (g & p & _ & Hp & Ha & _). pose proof (Forall_lookup_1 _ _ _ _ Hd Hp). by destruct p.
  - rewrite (i_wg _ Hi), list_filter_none; [done|]. apply Forall_forall. intros [g p] Hin%elem_of_zip_r Hw.
    pose proof (proj1 (Forall_forall _ _) Hd _ Hin) as H. simpl in H. unfold waits in Hw. simpl in Hw. destruct p; try done; by rewrite andb_false_r in Hw.
Qed.

(** Two active clients with one key are one client. *)
Lemma key_once s i j g g' p q : minv s -> migs !! i = Some g -> migs !! j = Some g' -> msPh s !! i = Some p -> msPh s !! j = Some q ->
  active p = true -> active q = true -> mgKey g = mgKey g' -> i = j.
Proof.
  intros Hi Hg Hg' Hp Hq Ha Ha' Hk. pose proof (i_act _ Hi _ _ _ Hg Hp Ha) as H1. pose proof (i_act _ Hi _ _ _ Hg' Hq Ha') as H2.
  rewrite Hk in H1. rewrite H1 in H2. by injection H2.
Qed.
End props.

(** C24: Under every interleaving of clients of the shift manager, each of
    which starts a shift and, when it was entered, waits for it (in its own
    goroutine or not), the mutex is free after each step, at most ten shifts are
    entered, the entries are exactly those of the clients whose shift is
    entered, each under its key with the handler and the type of that client,
    no two of them with one key; a shift is reported as migrating from its start
    to the entry of its outcome and, if no other client has its key, with its
    outcome after that; a client that has not returned can move, and when all
    have returned nothing is entered and [Close] returns.  A wait for a key that
    is not entered is not among these clients ([wait_missing_locks]). *)
Theorem shift_manager_safe (migs : list Mig) l s : mruns migs (minit migs) l s ->
  smMu (msMgr s) = false /\ (size (smAlived (msMgr s)) <= 10)%nat /\
  (forall k a, smAlived (msMgr s) !! k = Some a <->
     exists i g p, migs !! i = Some g /\ msPh s !! i = Some p /\ active p = true /\ mgKey g = k /\
       a = mkAlived i ShiftStatusMigrating "" (mgType g)) /\
  (forall i j g g' p q, migs !! i = Some g -> migs !! j = Some g' -> msPh s !! i = Some p -> msPh s !! j = Some q ->
     active p = true -> active q = true -> mgKey g = mgKey g' -> i = j) /\
  (forall i g p, migs !! i = Some g -> msPh s !! i = Some p ->
     (active p = true -> GetStatus (mgKey g) (msMgr s) = ShiftStatusMigrating /\ GetShiftType (mgKey g) (msMgr s) = mgType g) /\
     (forall x, outcome p = Some x -> only migs i (mgKey g) -> GetStatus (mgKey g) (msMgr s) = x)) /\
  ((forall a, mstep migs a s = None) -> Forall (fun p => is_done p = true) (msPh s) /\ smAlived (msMgr s) = ∅ /\ is_Some (shift_Close (msMgr s))).
Proof.
  intros Hr. pose proof (mruns_inv _ _ _ _ (minit_inv migs) Hr) as Hi. split_and!.
  - apply (i_mu _ _ Hi).
  - apply (i_size _ _ Hi).
  - intros k a. split.
    + intros Hk. destruct (i_owner _ _ Hi _ _ Hk) as (g & p & Hg & Hp & Ha & Hkey). exists (alShift a), g, p. split_and!; [done..|].
      pose proof (i_act _ _ Hi _ _ _ Hg Hp Ha) as He. rewrite Hkey, Hk in He. by injection He.
    + intros (i & g & p & Hg & Hp & Ha & <- & ->). by apply (i_act _ _ Hi _ _ _ Hg Hp Ha).
  - intros. by eapply key_once.
  - intros i g p Hg Hp. unfold GetStatus, GetShiftType. split.
    + intros Ha. by rewrite (i_act _ _ Hi _ _ _ Hg Hp Ha).
    + intros x Hx Ho. destruct (smAlived (msMgr s) !! mgKey g) as [a|] eqn:Hk.
      * destruct (i_owner _ _ Hi _ _ Hk) as (g' & p' & Hg' & Hp' & Ha & Hkey). pose proof (Ho _ _ Hg' Hkey) as E.
        rewrite E, Hp in Hp'. injection Hp' as <-. by destruct p.
      * by rewrite (i_out _ _ Hi _ _ _ _ Hg Hp Hx Ho).
  - intros Hstuck. assert (Forall (fun p => is_done p = true) (msPh s)) as Hd.
    { apply Forall_lookup. intros i p Hp. destruct (is_done p) eqn:E; [done|].
      destruct (client_moves _ _ _ _ Hi Hp E) as (a & s' & Ha). by rewrite Hstuck in Ha. }
    destruct (all_done_empty _ _ Hi Hd) as [He Hw]. split_and!; [done..|]. unfold shift_Close. cbn. rewrite Hw. by eexists.
Qed.

(** ** A shift that ends, one that is refused *)
Definition two_migs : list Mig := [mkMig "`db`.`a_0001`_b2" ShiftTypeRebalance false; mkMig "`db`.`a_0001`_b2" ShiftTypeRebalance true].
Definition two_acts : list mact := [MaStart 0 true; MaStart 1 true; MaWait 0; MaReturn 0 true; MaUpdate 0].

Fixpoint mtake (migs : list Mig) (l : list mact) (s : MSt) : option MSt :=
  match l with [] => Some s | a :: l => match mstep migs a s with Some s1 => mtake migs l s1 | None => None end end.
Lemma mtake_runs migs l s s' : mtake migs l s = Some s' -> mruns migs s l s'.
Proof.
  revert s. induction l as [|a l IH]; simpl; intros s H; [injection H as <-; constructor|].
  destruct (mstep migs a s) eqn:E; [|done]. econstructor; [exact E|by apply IH].
Qed.

Definition two_end : MSt := default (minit []) (mtake two_migs two_acts (minit two_migs)).
Lemma two_acts_run : mruns two_migs (minit two_migs) two_acts two_end.
Proof. apply mtake_runs. vm_compute. reflexivity. Qed.

Lemma shift_manager_safe_witness : mruns two_migs (minit two_migs) two_acts two_end /\ smMu (msMgr two_end) = false /\
  msPh two_end = [MDone (Ok tt); MDone (Err (ShRunning "`db`.`a_0001`_b2"))].
Proof.
  split; [exact two_acts_run|]. split; [|vm_compute; reflexivity]. exact (proj1 (shift_manager_safe two_migs two_acts two_end two_acts_run)).
Defined.

(** Waiting for a shift that is not entered keeps the mutex: no later call
    of the manager's methods that take it returns. *)
Theorem wait_missing_locks key s x s' : smAlived s !! key = None -> WaitInstanceFinish key s = Some (x, s') ->
  x = Err (ShNotFound key) /\ (forall k sh typ b, StartShiftInstance k sh typ b s' = None) /\ (forall k, WaitInstanceFinish k s' = None) /\
  (forall k st typ, updateFinishedInstance k st typ s' = None).
Proof.
  intros Hk H. unfold WaitInstanceFinish, locked in H. destruct (smMu s); [done|]. unfold mbind, M_bind, mget in H. cbn in H. rewrite Hk in H.
  cbn in H. injection H as <- <-. done.
Qed.

(** The limit is checked after the start: a shift over the limit is refused and runs. *)
Theorem refused_shift_runs key sh typ s : smMu s = false -> smAlived s !! key = None -> typ <> ShiftTypeNone -> size (smAlived s) = 10%nat ->
  exists s', StartShiftInstance key sh typ true s = Some (Err ShLimit, s') /\ sh ∈ smRunning s' /\
    smAlived s' = smAlived s /\ (smFinished s !! key = None -> GetStatus key s' = ShiftStatusNone).
Proof.
  intros Hmu Hk Ht Hs. unfold StartShiftInstance, locked. rewrite Hmu. unfold mbind, M_bind, mget. cbn. rewrite Hk.
  exists (set_running (smRunning s ∪ {[sh]}) s). split_and!; [|cbn; set_solver|done|].
  - destruct typ; [done|..]; unfold addAnAlivedInstance, mbind, M_bind, mget; cbn; rewrite decide_False; (done || (rewrite Hs; unfold maxShiftInstancesAlived; lia)).
  - intros Hf. unfold GetStatus. cbn. by rewrite Hk, Hf.
Qed.
