(* ===== verification/Autoinc.v ===== *)
(** * Automatic numbers (src/plugins/autoincrement/autoincrement.go, handler.go, src/proxy/insert.go)

    An INSERT that leaves out the automatic column of a sharded table gets it
    with numbers of a counter that all sessions share.  The counter is read and
    moved under a mutex and nothing else is shared, so calls from several
    sessions are a sequence of calls. *)
From S2P Require Import Prelude GoStd Config Xcontext Partition Router Sql PlanExpr PlanDml.
Open Scope string_scope.
Open Scope list_scope.
Open Scope Z_scope.

(** The counter, the answers to the DESC queries to come ([None] is an error;
    they are empty once the list is exhausted) and the queries sent. *)
Record InsSt := mkInsSt { isSeq : Z; isDesc : list (option (list string)); isSent : list (string * string) }.

Inductive ierr := IRouter (e : rerr) | IExec.
Abbreviation IM := (M InsSt ierr).

Definition of_r {A} (x : res rerr A) : res ierr A := match x with Ok a => Ok a | Err e => Err (IRouter e) | Panic => Panic end.

(** [Init] *)
Definition autoinc_Init (now : Z) : Z := wrap 64 now.

Definition set_columns (cols : list string) (rows : InsertRows) (n : Insert) : Insert :=
  mkInsert (inAction n) (inComments n) (inIgnore n) (inTable n) (inPartitions n) cols rows (inOnDup n).

(** The loop of [modifyForAutoinc] over the rows. *)
Fixpoint add_numbers (seq : Z) (rows : list (list Expr)) : list (list Expr) :=
  match rows with
  | [] => []
  | row :: rows => let seq := wrap 64 (seq + 1) in (row ++ [SQLValE (mkSQLVal IntVal (Itoa seq))]) :: add_numbers seq rows
  end.

(** [modifyForAutoinc]; a query in place of rows panics. *)
Definition modifyForAutoinc (ins : Insert) (autoinc : AutoIncrement) (seq : Z) : res ierr Insert :=
  let col := aiColumn autoinc in
  if existsb (EqualString col) (inColumns ins) then Ok ins
  else match inRows ins with
       | Values_ rows => Ok (set_columns (inColumns ins ++ [col]) (Values_ (add_numbers seq rows)) ins)
       | SelectRows => Panic
       end.

Section insert.
Context `{J : JumpHash}.
Variable (r : Router).

(** The database of the statement. *)
Definition ins_database (database : string) (ins : Insert) : string :=
  if decide (tnQualifier (inTable ins) = "") then database else tnQualifier (inTable ins).

(** [AutoIncrement.Process] *)
Definition Process (database : string) (ins : Insert) : IM Insert :=
  tblInfo ← mlift (of_r (TableConfigOf r (ins_database database ins) (tnName (inTable ins))));
  s ← mget;
  let seq := isSeq s in
  _ ← mmodify (fun s => match inRows ins with
                        | Values_ rows => mkInsSt (wrap 64 (seq + wrap 64 (Z.of_nat (length rows)))) (isDesc s) (isSent s)
                        | SelectRows => s
                        end);
  match tcAutoIncrement tblInfo with
  | Some autoinc => mlift (modifyForAutoinc ins autoinc seq)
  | None => mret ins
  end.

(** [ExecuteOnThisBackend] of a DESC: the names of the columns. *)
Definition exec_desc (backend query : string) : IM (list string) := fun s =>
  let sent := isSent s ++ [(backend, query)] in
  match isDesc s with
  | [] => (Ok [], mkInsSt (isSeq s) [] sent)
  | Some cols :: l => (Ok cols, mkInsSt (isSeq s) l sent)
  | None :: l => (Err IExec, mkInsSt (isSeq s) l sent)
  end.

(** The columns of an INSERT without a list of columns; [cfg.Partitions[0]]. *)
Definition fill_columns (database : string) (ins : Insert) : IM Insert :=
  if decide (inColumns ins = []) then
    cfg ← mlift (of_r (TableConfigOf r database (tnName (inTable ins))));
    match tcPartitions cfg with
    | [] => mpanic
    | p :: _ =>
        cols ← exec_desc (pcBackend p) ("desc " +:+ database +:+ "." +:+ pcTable p);
        mret (set_columns cols (inRows ins) ins)
    end
  else mret ins.

(** [handleInsert]: the database and the statement it hands to [ExecuteDML]. *)
Definition handleInsert (database : string) (ins : Insert) : IM (string * Insert) :=
  let database := ins_database database ins in
  methodType ← mlift (of_r (PartitionType r database (tnName (inTable ins))));
  if decide (methodType = MethodTypeHash \/ methodType = MethodTypeList)
  then ins ← fill_columns database ins; ins ← Process database ins; mret (database, ins)
  else mret (database, ins).

(** Several statements in turn, with their results. *)
Fixpoint inserts (calls : list (string * Insert)) (s : InsSt) : list (res ierr (string * Insert)) * InsSt :=
  match calls with
  | [] => ([], s)
  | (db, ins) :: calls =>
      let (x, s1) := handleInsert db ins s in
      let (xs, s2) := inserts calls s1 in (x :: xs, s2)
  end.
End insert.
