(* ===== verification/AutoincProps.v ===== *)
(** * Automatic numbers are unique *)
From S2P Require Import Prelude GoStd Config Xcontext Partition Compute Router Frm Sql PlanExpr PlanExprProps PlanDml Autoinc.
Open Scope string_scope.
Open Scope list_scope.
Open Scope Z_scope.

(** The rows with one number each. *)
Definition with_numbers (rows : list (list Expr)) (nums : list Z) : list (list Expr) :=
  zip_with (fun row n => row ++ [SQLValE (mkSQLVal IntVal (Itoa n))]) rows nums.

Lemma add_numbers_spec seq rows : 0 <= seq -> seq + Z.of_nat (length rows) < 2 ^ 64 ->
  add_numbers seq rows = with_numbers rows (seqZ (seq + 1) (Z.of_nat (length rows))).
Proof.
  revert seq. induction rows as [|row rows IH]; intros seq H0 H1; [done|]. cbn [length] in *.
  rewrite seqZ_cons by lia. cbn [add_numbers with_numbers zip_with]. unfold wrap. rewrite Z.mod_small by lia. f_equal.
  rewrite IH by lia. unfold with_numbers. f_equal. f_equal; lia.
Qed.

(** The column a statement needs numbers for, and the statement with them. *)
Definition needs_number (cfg : TableConfig) (ins : Insert) : option string :=
  match tcAutoIncrement cfg with
  | Some a => if existsb (EqualString (aiColumn a)) (inColumns ins) then None else Some (aiColumn a)
  | None => None
  end.
Definition numbered (cfg : TableConfig) (ins : Insert) (nums : list Z) (ins' : Insert) : Prop :=
  match needs_number cfg ins with
  | None => nums = [] /\ ins' = ins
  | Some col => exists rows, inRows ins = Values_ rows /\ length nums = length rows /\
      ins' = set_columns (inColumns ins ++ [col]) (Values_ (with_numbers rows nums)) ins
  end.

Definition row_count (ins : Insert) : Z := match inRows ins with Values_ rows => Z.of_nat (length rows) | SelectRows => 0 end.
Lemma row_count_nonneg ins : 0 <= row_count ins.
Proof. unfold row_count. destruct (inRows ins); lia. Qed.
Definition total (calls : list (string * Insert)) : Z := sumZ ((fun c => row_count (snd c)) <$> calls).

Section props.
Context `{J : JumpHash}.
Variable (r : Router).

(** Numbers in a range, and none twice. *)
Definition fresh (lo hi : Z) (nums : list Z) : Prop := NoDup nums /\ Forall (fun n => lo < n <= hi) nums.

Lemma Process_spec db ins s x s' : 0 <= isSeq s -> isSeq s + row_count ins < 2 ^ 64 -> Process r db ins s = (x, s') ->
  exists nums, fresh (isSeq s) (isSeq s') nums /\ isSeq s <= isSeq s' <= isSeq s + row_count ins /\
    match x with
    | Ok ins' => exists cfg, TableConfigOf r (ins_database db ins) (tnName (inTable ins)) = Ok cfg /\ numbered cfg ins nums ins'
    | _ => nums = []
    end.
Proof.
  intros H0 H1 H. pose proof (row_count_nonneg ins) as Hn. unfold Process, mbind, M_bind, mlift in H.
  assert (fresh (isSeq s) (isSeq s) []) as Hnil by (split; constructor).
  destruct (TableConfigOf r (ins_database db ins) (tnName (inTable ins))) as [cfg|e|] eqn:Hc; cbn in H;
    [|injection H as <- <-; exists []; split_and!; (done || lia)..].
  unfold row_count in *. destruct (inRows ins) as [rows|] eqn:Hr; cbn in H.
  - assert (wrap 64 (isSeq s + wrap 64 (Z.of_nat (length rows))) = isSeq s + Z.of_nat (length rows)) as Hw.
    { unfold wrap. rewrite (Z.mod_small (Z.of_nat _)) by lia. apply Z.mod_small. lia. }
    rewrite Hw in H. destruct (tcAutoIncrement cfg) as [a|] eqn:Ha; cbn in H.
    + unfold modifyForAutoinc in H. rewrite Hr in H. destruct (existsb (EqualString (aiColumn a)) (inColumns ins)) eqn:He; injection H as <- <-; cbn.
      * exists []. split_and!; [split; constructor|lia|lia|]. exists cfg. split; [done|]. unfold numbered, needs_number. by rewrite Ha, He.
      * exists (seqZ (isSeq s + 1) (Z.of_nat (length rows))). split_and!; [|lia|lia|].
        { split; [apply NoDup_seqZ|]. apply Forall_forall. intros n Hin%elem_of_seqZ. lia. }
        exists cfg. split; [done|]. unfold numbered, needs_number. rewrite Ha, He. exists rows. split_and!; [done| |].
        { by rewrite length_seqZ, Nat2Z.id. }
        by rewrite add_numbers_spec.
    + injection H as <- <-. cbn. exists []. split_and!; [split; constructor|lia|lia|]. exists cfg. split; [done|].
      unfold numbered, needs_number. by rewrite Ha.
  - destruct (tcAutoIncrement cfg) as [a|] eqn:Ha; cbn in H.
    + unfold modifyForAutoinc in H. rewrite Hr in H. destruct (existsb (EqualString (aiColumn a)) (inColumns ins)) eqn:He; injection H as <- <-; cbn;
        exists []; split_and!; (done || lia || idtac). exists cfg. split; [done|]. unfold numbered, needs_number. by rewrite Ha, He.
    + injection H as <- <-. exists []. split_and!; (done || lia || idtac). exists cfg. split; [done|]. unfold numbered, needs_number. by rewrite Ha.
Qed.

(** What becomes of one statement. *)
Definition handled (c : string * Insert) (nums : list Z) (x : res ierr (string * Insert)) : Prop :=
  match x with
  | Ok (db, ins') =>
      db = ins_database (fst c) (snd c) /\
      exists m, PartitionType r db (tnName (inTable (snd c))) = Ok m /\
      if decide (m = MethodTypeHash \/ m = MethodTypeList) then
        exists cfg cols, TableConfigOf r db (tnName (inTable (snd c))) = Ok cfg /\ (inColumns (snd c) <> [] -> cols = inColumns (snd c)) /\
          numbered cfg (set_columns cols (inRows (snd c)) (snd c)) nums ins'
      else nums = [] /\ ins' = snd c
  | _ => nums = []
  end.

Lemma set_columns_same ins : set_columns (inColumns ins) (inRows ins) ins = ins.
Proof. by destruct ins. Qed.

Lemma fill_columns_spec db ins s x s' : fill_columns r db ins s = (x, s') -> isSeq s' = isSeq s /\
  match x with Ok ins' => exists cols, ins' = set_columns cols (inRows ins) ins /\ (inColumns ins <> [] -> cols = inColumns ins) | _ => True end.
Proof.
  unfold fill_columns, mbind, M_bind, mlift. case_decide as Hc; cbn; intros H.
  - destruct (TableConfigOf r db (tnName (inTable ins))) as [cfg|e|]; cbn in H; [|injection H as <- <-; done..].
    destruct (tcPartitions cfg) as [|p ps]; [injection H as <- <-; done|]. unfold exec_desc in H.
    destruct (isDesc s) as [|[cols|] l]; injection H as <- <-; (split; [done|]); try done; by eexists.
  - injection H as <- <-. split; [done|]. exists (inColumns ins). by rewrite set_columns_same.
Qed.

Lemma ins_database_idem db ins cols : ins_database (ins_database db ins) (set_columns cols (inRows ins) ins) = ins_database db ins.
Proof. unfold ins_database. cbn. by repeat case_decide. Qed.

Lemma handleInsert_spec db ins s x s' : 0 <= isSeq s -> isSeq s + row_count ins < 2 ^ 64 -> handleInsert r db ins s = (x, s') ->
  exists nums, fresh (isSeq s) (isSeq s') nums /\ isSeq s <= isSeq s' <= isSeq s + row_count ins /\ handled (db, ins) nums x.
Proof.
  intros H0 H1 H. pose proof (row_count_nonneg ins) as Hn. unfold handleInsert, mbind, M_bind, mlift in H.
  assert (fresh (isSeq s) (isSeq s) []) as Hnil by (split; constructor).
  destruct (PartitionType r (ins_database db ins) (tnName (inTable ins))) as [m|e|] eqn:Hm; cbn in H;
    [|injection H as <- <-; exists []; split_and!; (done || lia)..].
  destruct (decide (m = MethodTypeHash \/ m = MethodTypeList)) as [Hd|Hd]; cbn in H.
  2:{ injection H as <- <-. exists []. split_and!; [done|lia|lia|]. split; [done|]. exists m. split; [done|]. by rewrite decide_False. }
  destruct (fill_columns r (ins_database db ins) ins s) as [y s1] eqn:Hf. apply fill_columns_spec in Hf as [Hseq Hy].
  destruct y as [ins1|e|]; [|injection H as <- <-; exists []; rewrite Hseq; split_and!; (done || lia)..].
  destruct Hy as (cols & -> & Hcols). destruct (Process r (ins_database db ins) (set_columns cols (inRows ins) ins) s1) as [z s2] eqn:Hp.
  apply Process_spec in Hp as (nums & Hfr & Hb & Hz); [|by rewrite Hseq|by rewrite Hseq].
  rewrite Hseq in Hfr, Hb. exists nums. destruct z as [ins'|e|]; injection H as <- <-; (split_and!; [done|lia|exact (proj2 Hb)|]); try done.
  destruct Hz as (cfg & Hcfg & Hnum). rewrite ins_database_idem in Hcfg. split; [done|]. exists m. split; [done|].
  rewrite decide_True by done. by exists cfg, cols.
Qed.

Lemma fresh_app lo mid hi a b : lo <= mid <= hi -> fresh lo mid a -> fresh mid hi b -> fresh lo hi (a ++ b).
Proof.
  intros Hm [Ha1 Ha2] [Hb1 Hb2]. split.
  - apply NoDup_app. split_and!; [done| |done]. intros n Hna Hnb.
    pose proof (proj1 (Forall_forall _ _) Ha2 _ Hna). pose proof (proj1 (Forall_forall _ _) Hb2 _ Hnb). simpl in *. lia.
  - apply Forall_app. split; eapply Forall_impl; [exact Ha2|simpl; lia|exact Hb2|simpl; lia].
Qed.

Lemma inserts_spec calls s xs s' : 0 <= isSeq s -> isSeq s + total calls < 2 ^ 64 -> inserts r calls s = (xs, s') ->
  exists numss, Forall3 handled calls numss xs /\ fresh (isSeq s) (isSeq s') (mjoin numss) /\ isSeq s <= isSeq s' <= isSeq s + total calls.
Proof.
  revert s xs s'. induction calls as [|[db ins] calls IH]; intros s xs s' H0 H1 H; cbn [inserts] in H.
  - injection H as <- <-. exists []. split_and!; [constructor|split; constructor|lia|]. unfold total. simpl. lia.
  - assert (0 <= total calls) as Ht.
    { unfold total. clear. induction calls as [|c l IH]; [done|]. cbn. pose proof (row_count_nonneg (snd c)). unfold sumZ in *. lia. }
    unfold total in H1. cbn in H1. change (foldr Z.add 0 ((fun c => row_count (snd c)) <$> calls)) with (total calls) in H1.
    destruct (handleInsert r db ins s) as [x s1] eqn:Hh. destruct (inserts r calls s1) as [ys s2] eqn:Hi. injection H as <- <-.
    pose proof (row_count_nonneg ins). apply handleInsert_spec in Hh as (nums & Hf & Hb & Hx); [|done|lia].
    apply IH in Hi as (numss & Hall & Hfr & Hb'); [|lia..]. exists (nums :: numss).
    split_and!; [by constructor|apply (fresh_app (isSeq s) (isSeq s1) (isSeq s2) nums (mjoin numss)); [lia|done..]|lia|]. unfold total in *. cbn. unfold sumZ in *. lia.
Qed.
End props.

(** C28: Whatever INSERT statements sessions send, in whatever order, until the
    counter of 64 bits has been used up: a statement on a sharded table that
    leaves out the automatic column gets the column and one number per row, and
    nothing else of it changes; no number is given twice and all are larger than
    the counter was at the start; other statements are left as they are. *)
Theorem autoinc_unique `{J : JumpHash} (r : Router) calls s xs s' :
  0 <= isSeq s -> isSeq s + total calls < 2 ^ 64 -> inserts r calls s = (xs, s') ->
  exists numss, Forall3 (handled r) calls numss xs /\ NoDup (mjoin numss) /\ Forall (fun n => isSeq s < n < 2 ^ 64) (mjoin numss).
Proof.
  intros H0 H1 H. destruct (inserts_spec r _ _ _ _ H0 H1 H) as (numss & Hall & [Hn Hf] & Hb). exists numss. split_and!; [done..|].
  eapply Forall_impl; [exact Hf|]. simpl. lia.
Qed.

(** ** A table with an automatic column *)
Definition ai_ops : list admin_op :=
  [OpCreateDatabase "db"; OpCreateHash "db" "t" "id" "hash" ["b1"; "b2"] None (Some (mkExtra (Some (mkAutoIncrement "seq"))))].
Definition ai_router : Router := snd (miter admin_run ai_ops (NewRouter (mkRouterConfig 16 4) true ∅ [])).
Definition ai_insert (cols : list string) (rows : InsertRows) : Insert := mkInsert "insert" [] "" (mkTableName "t" "") [] cols rows [].
Definition ai_start : InsSt := mkInsSt 100 [] [].
Definition ai_calls : list (string * Insert) :=
  [("db", ai_insert ["ID"] (Values_ [[SQLValE (mkSQLVal IntVal "7")]; [SQLValE (mkSQLVal IntVal "8")]]));
   ("db", ai_insert ["id"; "SEQ"] (Values_ [[SQLValE (mkSQLVal IntVal "9"); SQLValE (mkSQLVal IntVal "5")]]));
   ("db", ai_insert ["id"] (Values_ [[SQLValE (mkSQLVal IntVal "10")]]))].

#[local] Existing Instance mod_jump.

Lemma autoinc_unique_witness : 0 <= isSeq ai_start /\ isSeq ai_start + total ai_calls < 2 ^ 64 /\
  (exists numss, Forall3 (handled ai_router) ai_calls numss (fst (inserts ai_router ai_calls ai_start)) /\ NoDup (mjoin numss)) /\
  (fst (inserts ai_router ai_calls ai_start)) !! 2%nat =
    Some (Ok ("db", ai_insert ["id"; "seq"] (Values_ [[SQLValE (mkSQLVal IntVal "10"); SQLValE (mkSQLVal IntVal "104")]]))).
Proof.
  split; [vm_compute; discriminate|]. split; [vm_compute; reflexivity|]. split; [|vm_compute; reflexivity].
  destruct (autoinc_unique ai_router ai_calls ai_start (fst (inserts ai_router ai_calls ai_start)) (snd (inserts ai_router ai_calls ai_start)))
    as (numss & H1 & H2 & _); [vm_compute; discriminate|vm_compute; reflexivity|vm_compute; reflexivity|].
  exists numss. split; [exact H1|exact H2].
Defined.

(** INSERT ... SELECT that leaves out the automatic column panics. *)
Theorem insert_select_panics `{J' : JumpHash} r db ins s cfg a m :
  PartitionType r (ins_database db ins) (tnName (inTable ins)) = Ok m -> m = MethodTypeHash \/ m = MethodTypeList ->
  TableConfigOf r (ins_database db ins) (tnName (inTable ins)) = Ok cfg -> tcAutoIncrement cfg = Some a -> inColumns ins <> [] ->
  existsb (EqualString (aiColumn a)) (inColumns ins) = false -> inRows ins = SelectRows -> fst (handleInsert r db ins s) = Panic.
Proof.
  intros Hm Hd Hc Ha Hne Hex Hr. unfold handleInsert, fill_columns, Process, mbind, M_bind, mlift. rewrite Hm. cbn.
  rewrite decide_True by done. rewrite decide_False by done. cbn.
  assert (ins_database (ins_database db ins) ins = ins_database db ins) as -> by (unfold ins_database; by repeat case_decide).
  rewrite Hc. cbn. rewrite Ha. unfold modifyForAutoinc. cbn. by rewrite Hex, Hr.
Qed.
