(* ===== verification/Privilege.v ===== *)
(** * Privileges (src/plugins/privilege/privilege.go)

    The privileges of the users are read from the tables of a backend every few
    seconds; a statement is checked before it is planned. *)
From S2P Require Import Prelude Sql.
Open Scope string_scope.
Open Scope list_scope.
Open Scope Z_scope.

(** [privilege]; the zero value has none. *)
Record privilege := mkPrivilege {
  selectPriv : bool; insertPriv : bool; updatePriv : bool; deletePriv : bool; createPriv : bool; dropPriv : bool;
  grantPriv : bool; alterPriv : bool; indexPriv : bool; showDBPriv : bool; superPriv : bool
}.
Definition no_privilege : privilege := mkPrivilege false false false false false false false false false false false.

(** [dbPriv], [userPriv] *)
Record dbPriv := mkDbPriv { dpHost : string; dpUser : string; dpDb : string; dpPriv : privilege }.
Record userPriv := mkUserPriv { usHost : string; usUser : string; usPriv : privilege; usDbPrivs : gmap string dbPriv }.
Definition no_user : userPriv := mkUserPriv "" "" no_privilege ∅.
Definition no_db : dbPriv := mkDbPriv "" "" "" no_privilege.

(** The statements the check tells apart, with the table names [sqlparser.Walk]
    comes to outside of stars and column names, in its order. *)
Inductive PKind := PChecksum | PUnion | PSelect | PInsert | PUpdate | PDelete | PShow | PDDL | POther.
Record PStmt := mkPStmt { psKind : PKind; psTables : list TableName }.

(** [Privilege]: the privileges, the answers to the queries to come ([None] is
    an error; empty once the list is exhausted) and the queries sent. *)
Record PrivSt := mkPrivSt { pvUsers : gmap string userPriv; pvAns : list (option (list (list string))); pvSent : list string }.
Inductive pverr := PvExec | PvDenied (user db : string).
Abbreviation PM := (M PrivSt pverr).

Definition user_priv (user : string) (p : PrivSt) : userPriv := default no_user (pvUsers p !! user).
Definition db_priv (user db : string) (p : PrivSt) : dbPriv := default no_db (usDbPrivs (user_priv user p) !! db).

(** [CheckPrivilege]; a nil statement needs the super privilege. *)
Definition CheckPrivilege (db user : string) (node : option PStmt) (p : PrivSt) : bool :=
  let u := usPriv (user_priv user p) in
  let d := dpPriv (db_priv user db p) in
  match node with
  | None => superPriv u
  | Some node =>
      match psKind node with
      | PChecksum | PUnion | PSelect => superPriv u || selectPriv u || selectPriv d
      | PInsert => superPriv u || insertPriv u || insertPriv d
      | PUpdate => superPriv u || updatePriv u || updatePriv d
      | PDelete => superPriv u || deletePriv u || deletePriv d
      | PShow => superPriv u || showDBPriv u || showDBPriv d
      | PDDL =>
          superPriv u || (createPriv u && dropPriv u && alterPriv u && indexPriv u) || (createPriv d && dropPriv d && alterPriv d && indexPriv d)
      | POther => false
      end
  end.

(** The walk of [Check]: the database in [db] and whether all went well; a
    refused table ends the visit of that name only. *)
Fixpoint check_walk (user : string) (node : PStmt) (p : PrivSt) (tables : list TableName) (db : string) (ok : bool) : string * bool :=
  match tables with
  | [] => (db, ok)
  | t :: ts =>
      let db := if decide (tnQualifier t = "") then db else tnQualifier t in
      check_walk user node p ts db (ok && CheckPrivilege db user (Some node) p)
  end.

(** [Check] *)
Definition Check_ (database user : string) (node : option PStmt) (p : PrivSt) : res pverr unit :=
  let '(db, ok) := match node with Some n => check_walk user n p (psTables n) database true | None => (database, true) end in
  if ok && CheckPrivilege db user node p then Ok tt else Err (PvDenied user db).

(** [IsSuperPriv], [CheckUserPrivilegeIsSet], [GetUserPrivilegeDBS], [CheckDBinUserPrivilege] *)
Definition IsSuperPriv (user : string) (p : PrivSt) : bool := superPriv (usPriv (user_priv user p)).
Definition CheckUserPrivilegeIsSet (user : string) (p : PrivSt) : bool :=
  let u := usPriv (user_priv user p) in
  selectPriv u || insertPriv u || updatePriv u || deletePriv u || createPriv u || dropPriv u || grantPriv u || alterPriv u || indexPriv u
  || showDBPriv u || superPriv u.
Definition GetUserPrivilegeDBS (user : string) (p : PrivSt) : gset string := dom (usDbPrivs (user_priv user p)).
Definition CheckDBinUserPrivilege (user db : string) (p : PrivSt) : bool := bool_decide (is_Some (usDbPrivs (user_priv user p) !! db)).

(** [Privilege.execute] *)
Definition priv_execute (query : string) : PM (list (list string)) := fun p =>
  let sent := pvSent p ++ [query] in
  match pvAns p with
  | [] => (Ok [], mkPrivSt (pvUsers p) [] sent)
  | Some rows :: l => (Ok rows, mkPrivSt (pvUsers p) l sent)
  | None :: l => (Err PvExec, mkPrivSt (pvUsers p) l sent)
  end.

(** A column of a row; a row that is too short panics. *)
Definition col_at (r : list string) (i : nat) : res pverr string := match r !! i with Some v => Ok v | None => Panic end.
Definition yes_at (r : list string) (i : nat) : res pverr bool := v ← col_at r i; Ok (bool_decide (v = "Y")).

(** One row of [mysql.db] in [loadDBPrivileges]. *)
Definition db_row (r : list string) : res pverr dbPriv :=
  h ← col_at r 0; u ← col_at r 1;
  s ← yes_at r 2; i ← yes_at r 3; up ← yes_at r 4; d ← yes_at r 5; c ← yes_at r 6; dr ← yes_at r 7; g ← yes_at r 8;
  al ← yes_at r 9; ix ← yes_at r 10; db ← col_at r 11;
  Ok (mkDbPriv h u db (mkPrivilege s i up d c dr g al ix false false)).

Definition loadDBPrivileges (host user : string) : PM (gmap string dbPriv) :=
  rows ← priv_execute ("select Host, User, Select_priv, Insert_priv, Update_priv, Delete_priv, Create_priv, Drop_priv, Grant_priv, Alter_priv, Index_priv, db from mysql.db where Host='"
           +:+ host +:+ "' and User='" +:+ user +:+ "'");
  mlift (res_fold (fun m r => d ← db_row r; Ok (<[dpDb d := d]> m)) ∅ rows).

(** One row of [mysql.user] in [loadUserPrivileges]. *)
Definition user_row (r : list string) (dbprivs : gmap string dbPriv) : res pverr userPriv :=
  h ← col_at r 0; u ← col_at r 1;
  s ← yes_at r 2; i ← yes_at r 3; up ← yes_at r 4; d ← yes_at r 5; c ← yes_at r 6; dr ← yes_at r 7;
  al ← yes_at r 8; ix ← yes_at r 9; sh ← yes_at r 10; su ← yes_at r 11;
  Ok (mkUserPriv h u (mkPrivilege s i up d c dr false al ix sh su) dbprivs).

Fixpoint load_users (rows : list (list string)) (privis : gmap string userPriv) : PM (gmap string userPriv) :=
  match rows with
  | [] => mret privis
  | r :: rows =>
      host ← mlift (col_at r 0);
      user ← mlift (col_at r 1);
      dbprivs ← loadDBPrivileges host user;
      up ← mlift (user_row r dbprivs);
      load_users rows (<[usUser up := up]> privis)
  end.

Definition loadUserPrivileges : PM (gmap string userPriv) :=
  rows ← priv_execute "select Host, User, Select_priv, Insert_priv, Update_priv, Delete_priv, Create_priv, Drop_priv, Alter_priv, Index_priv, Show_db_priv, Super_priv from mysql.user";
  load_users rows ∅.

(** [UpdatePrivileges] *)
Definition UpdatePrivileges : PM unit :=
  userpriv ← loadUserPrivileges;
  mmodify (fun p => mkPrivSt userpriv (pvAns p) (pvSent p)).

(** ** What the check guarantees *)
#[local] Arguments CheckPrivilege : simpl never.

(** The database a table name stands for. *)
Definition own_db (database : string) (t : TableName) : string := if decide (tnQualifier t = "") then database else tnQualifier t.

(** Unqualified names first. *)
Definition qualified_last (tables : list TableName) : Prop :=
  exists us qs, tables = us ++ qs /\ Forall (fun t => tnQualifier t = "") us /\ Forall (fun t => tnQualifier t <> "") qs.

Lemma check_walk_unqualified user n p us qs db ok : Forall (fun t => tnQualifier t = "") us ->
  check_walk user n p (us ++ qs) db ok = check_walk user n p qs db (ok && forallb (fun _ => CheckPrivilege db user (Some n) p) us).
Proof.
  intros H. revert ok. induction H as [|t us Ht _ IH]; intros ok; simpl; [by rewrite andb_true_r|].
  rewrite decide_True by done. rewrite IH. by rewrite andb_assoc.
Qed.

Lemma check_walk_qualified user n p qs db ok : Forall (fun t => tnQualifier t <> "") qs ->
  check_walk user n p qs db ok = (default db (tnQualifier <$> last qs), ok && forallb (fun t => CheckPrivilege (tnQualifier t) user (Some n) p) qs).
Proof.
  intros H. revert db ok. induction H as [|t qs Ht Hqs IH]; intros db ok; simpl; [by rewrite andb_true_r|].
  rewrite decide_False by done. rewrite IH, <- andb_assoc. f_equal. rewrite last_cons. by destruct (last qs).
Qed.

(** The walk checks the database of every table. *)
Lemma Check_walk_spec database user node p : qualified_last (psTables node) ->
  Check_ database user (Some node) p = Ok tt <->
  Forall (fun t => CheckPrivilege (own_db database t) user (Some node) p = true) (psTables node) /\
  (psTables node = [] -> CheckPrivilege database user (Some node) p = true).
Proof.
  intros (us & qs & E & Hu & Hq). unfold Check_. rewrite E, check_walk_unqualified, check_walk_qualified by done. simpl. clear E.
  assert (Forall (fun t => CheckPrivilege (own_db database t) user (Some node) p = true) us <->
    forallb (fun _ => CheckPrivilege database user (Some node) p) us = true) as H1.
  { clear Hq. induction Hu as [|t us Ht Hu IH]; simpl; [done|].
    rewrite Forall_cons, andb_true_iff, IH. unfold own_db at 1. rewrite decide_True by done. reflexivity. }
  assert (Forall (fun t => CheckPrivilege (own_db database t) user (Some node) p = true) qs <->
    forallb (fun t => CheckPrivilege (tnQualifier t) user (Some node) p) qs = true) as H2.
  { clear H1. induction Hq as [|t qs Ht Hq IH]; simpl; [done|].
    rewrite Forall_cons, andb_true_iff, IH. unfold own_db at 1. rewrite decide_False by done. reflexivity. }
  rewrite Forall_app, H1, H2.
  match goal with |- (if ?b then _ else _) = _ <-> _ => transitivity (b = true); [by destruct b|] end.
  rewrite !andb_true_iff. destruct qs as [|t qs _] using rev_ind; simpl.
  - rewrite app_nil_r. destruct us as [|t us]; simpl; [naive_solver|]. rewrite andb_true_iff. naive_solver.
  - rewrite last_snoc. simpl. rewrite forallb_app. simpl. rewrite !andb_true_iff.
    assert (us ++ qs ++ [t] <> []) by (by destruct us, qs). naive_solver.
Qed.

(** *** Which rights let a statement run

    The rights of [mysql.user] and [mysql.db], and those each kind of statement
    needs; a statement of another kind is never let through. *)
Inductive Right := RSelect | RInsert | RUpdate | RDelete | RCreate | RDrop | RAlter | RIndex | RShowDB | RSuper.

Definition right_of (r : Right) (v : privilege) : bool :=
  match r with
  | RSelect => selectPriv v | RInsert => insertPriv v | RUpdate => updatePriv v | RDelete => deletePriv v
  | RCreate => createPriv v | RDrop => dropPriv v | RAlter => alterPriv v | RIndex => indexPriv v
  | RShowDB => showDBPriv v | RSuper => superPriv v
  end.

Definition needed (k : PKind) : option (list Right) :=
  match k with
  | PSelect | PUnion | PChecksum => Some [RSelect]
  | PInsert => Some [RInsert]
  | PUpdate => Some [RUpdate]
  | PDelete => Some [RDelete]
  | PShow => Some [RShowDB]
  | PDDL => Some [RCreate; RDrop; RAlter; RIndex]
  | POther => None
  end.

(** The user has the right everywhere; on a database. *)
Definition has_right (p : PrivSt) (user : string) (r : Right) : Prop :=
  exists u, pvUsers p !! user = Some u /\ right_of r (usPriv u) = true.
Definition has_right_on (p : PrivSt) (user db : string) (r : Right) : Prop :=
  exists u d, pvUsers p !! user = Some u /\ usDbPrivs u !! db = Some d /\ right_of r (dpPriv d) = true.

(** The user may run statements of a kind on a database: as a super user, with
    the rights needed everywhere, or with the rights needed on the database. *)
Definition may_run (p : PrivSt) (user db : string) (k : PKind) : Prop :=
  exists rs, needed k = Some rs /\
    (has_right p user RSuper \/ Forall (has_right p user) rs \/ Forall (has_right_on p user db) rs).

Lemma has_right_bit p user r : has_right p user r <-> right_of r (usPriv (user_priv user p)) = true.
Proof.
  unfold has_right, user_priv. destruct (pvUsers p !! user) as [u|]; simpl.
  - split; [by intros (? & [= <-] & ?)|by exists u].
  - split; [by intros (? & ? & _)|by destruct r].
Qed.
Lemma has_right_on_bit p user db r : has_right_on p user db r <-> right_of r (dpPriv (db_priv user db p)) = true.
Proof.
  unfold has_right_on, db_priv, user_priv. destruct (pvUsers p !! user) as [u|]; simpl.
  - destruct (usDbPrivs u !! db) as [d|] eqn:Hd; simpl.
    + split; [intros (? & ? & [= <-] & Hd' & ?); congruence|by exists u, d].
    + split; [intros (? & ? & [= <-] & Hd' & ?); congruence|by destruct r].
  - rewrite lookup_empty. split; [by intros (? & ? & ? & _)|by destruct r].
Qed.

(** [CheckPrivilege] decides it. *)
Lemma CheckPrivilege_needed db user node p :
  CheckPrivilege db user (Some node) p =
    match needed (psKind node) with
    | Some rs => superPriv (usPriv (user_priv user p)) || forallb (fun r => right_of r (usPriv (user_priv user p))) rs
                 || forallb (fun r => right_of r (dpPriv (db_priv user db p))) rs
    | None => false
    end.
Proof. unfold CheckPrivilege. destruct (psKind node); simpl; by rewrite ?andb_true_r, ?andb_assoc. Qed.

Lemma CheckPrivilege_spec db user node p : CheckPrivilege db user (Some node) p = true <-> may_run p user db (psKind node).
Proof.
  rewrite CheckPrivilege_needed. unfold may_run. destruct (needed (psKind node)) as [rs|]; [|split; [done|by intros (? & ? & _)]].
  rewrite !orb_true_iff, !forallb_forall. pose proof (has_right_bit p user RSuper) as Hs. simpl in Hs.
  assert (Forall (has_right p user) rs <-> forall r, In r rs -> right_of r (usPriv (user_priv user p)) = true) as Hu.
  { rewrite Forall_forall. setoid_rewrite has_right_bit. by setoid_rewrite list_elem_of_In. }
  assert (Forall (has_right_on p user db) rs <-> forall r, In r rs -> right_of r (dpPriv (db_priv user db p)) = true) as Hd.
  { rewrite Forall_forall. setoid_rewrite has_right_on_bit. by setoid_rewrite list_elem_of_In. }
  split.
  - intros H. exists rs. split; [done|]. tauto.
  - intros (rs' & [= <-] & H). tauto.
Qed.

(** C29: When no unqualified table name follows a qualified one, a statement is
    let through exactly if the user may run its kind of statement ([needed]) on
    the database of each table it names, and on the session's database if it
    names none: as a super user, with the rights needed granted everywhere, or
    with all of them granted on that database. *)
Theorem privilege_sound database user node p : qualified_last (psTables node) ->
  Check_ database user (Some node) p = Ok tt <->
  Forall (fun t => may_run p user (own_db database t) (psKind node)) (psTables node) /\
  (psTables node = [] -> may_run p user database (psKind node)).
Proof.
  intros Hq. rewrite Check_walk_spec, CheckPrivilege_spec, !Forall_forall by done.
  split; intros [H1 H2]; (split; [|done]); intros t Ht; by apply CheckPrivilege_spec, H1.
Qed.

(** ** A user of one database *)
Definition select_only : privilege := mkPrivilege true false false false false false false false false false false.
Definition one_db : PrivSt :=
  mkPrivSt {["u" := mkUserPriv "%" "u" no_privilege {["db2" := mkDbPriv "%" "u" "db2" select_only]}]} [] [].

Lemma privilege_sound_witness : qualified_last [mkTableName "t" "db2"] /\
  Check_ "db1" "u" (Some (mkPStmt PSelect [mkTableName "t" "db2"])) one_db = Ok tt /\
  Check_ "db1" "u" (Some (mkPStmt PSelect [mkTableName "v" ""; mkTableName "t" "db2"])) one_db <> Ok tt.
Proof.
  split; [exists [], [mkTableName "t" "db2"]; repeat constructor; done|]. split.
  - apply (privilege_sound "db1" "u" (mkPStmt PSelect [mkTableName "t" "db2"]) one_db);
      [exists [], [mkTableName "t" "db2"]; repeat constructor; done|]. split; [|done]. apply Forall_singleton.
    exists [RSelect]. split; [done|]. right. right. apply Forall_singleton. eexists _, _. by split_and!.
  - vm_compute. discriminate.
Defined.

(** The database of a qualified name stays in force for the names after it:
    a user who may read [db2] only reads a table of [db1]. *)
Theorem check_wrong_database database user p t u : tnQualifier t <> "" -> tnQualifier u = "" ->
  CheckPrivilege (tnQualifier t) user (Some (mkPStmt PSelect [t; u])) p = true ->
  Check_ database user (Some (mkPStmt PSelect [t; u])) p = Ok tt.
Proof.
  intros Ht Hu Hc. unfold Check_. simpl. rewrite (decide_False _ _ Ht), Hu, decide_True by done. by rewrite Hc.
Qed.
Example check_wrong_database_example :
  Check_ "db1" "u" (Some (mkPStmt PSelect [mkTableName "t" "db2"; mkTableName "secret" ""])) one_db = Ok tt /\
  CheckPrivilege "db1" "u" (Some (mkPStmt PSelect [])) one_db = false.
Proof. split; vm_compute; reflexivity. Qed.

(** Rows of [mysql.user] for one name and several hosts: the last one counts,
    for connections from every host. *)
Theorem last_host_wins rows privis p p' m r : load_users (rows ++ [r]) privis p = (Ok m, p') ->
  exists u up, col_at r 1 = Ok u /\ m !! u = Some up /\ usHost up = default "" (r !! 0%nat).
Proof.
  revert privis p. induction rows as [|r0 rows IH]; intros privis p H; simpl in H; unfold mbind, M_bind, mlift in H.
  - unfold col_at in *. destruct (r !! 0%nat) as [h|] eqn:H0; [|done]. destruct (r !! 1%nat) as [u|] eqn:H1; [|done]. cbn in H.
    destruct (loadDBPrivileges h u p) as [[d|e|] p1]; try done. destruct (user_row r d) as [up|e|] eqn:Hup; try done.
    injection H as <- <-. exists u, up. unfold user_row, col_at in Hup. rewrite H0, H1 in Hup. cbn in Hup.
    assert (usUser up = u /\ usHost up = h) as [Hu Hh].
    { unfold yes_at, col_at in Hup. repeat (match type of Hup with context [r !! ?i] => destruct (r !! i); [|done]; cbn in Hup end). by injection Hup as <-. }
    split; [done|]. rewrite Hu, lookup_insert_eq. done.
  - destruct (col_at r0 0) as [h|e|]; try done. destruct (col_at r0 1) as [u|e|]; try done. cbn in H.
    destruct (loadDBPrivileges h u p) as [[d|e|] p1]; try done. destruct (user_row r0 d) as [up|e|]; try done. by eapply IH.
Qed.

(** A failed update keeps the privileges. *)
Lemma update_keeps p x p' : UpdatePrivileges p = (x, p') -> x <> Ok tt -> pvUsers p' = pvUsers p.
Proof.
  assert (forall q x p p', priv_execute q p = (x, p') -> pvUsers p' = pvUsers p) as Hex.
  { intros q y p0 p1 H. unfold priv_execute in H. destruct (pvAns p0) as [|[|] l]; by injection H as <- <-. }
  assert (forall h u y p0 p1, loadDBPrivileges h u p0 = (y, p1) -> pvUsers p1 = pvUsers p0) as Hdb.
  { intros h u y p0 p1 H. unfold loadDBPrivileges, mbind, M_bind, mlift in H. destruct (priv_execute _ p0) as [[rows|e|] p2] eqn:E;
      injection H as <- <-; by eapply Hex. }
  assert (forall rows m y p0 p1, load_users rows m p0 = (y, p1) -> pvUsers p1 = pvUsers p0) as Hld.
  { induction rows as [|r rows IH]; intros m y p0 p1 H; simpl in H; unfold mbind, M_bind, mlift in H; [by injection H as <- <-|].
    destruct (col_at r 0); [|injection H as <- <-; done..]. destruct (col_at r 1); [|injection H as <- <-; done..].
    destruct (loadDBPrivileges _ _ p0) as [[d|e|] p2] eqn:E; apply Hdb in E; [|injection H as <- <-; done..].
    destruct (user_row r d); [|injection H as <- <-; done..]. apply IH in H. congruence. }
  intros H Hx. unfold UpdatePrivileges, loadUserPrivileges, mbind, M_bind in H. destruct (priv_execute _ p) as [[rows|e|] p1] eqn:E;
    [|injection H as <- <-; by eapply Hex..]. destruct (load_users rows ∅ p1) as [[m|e|] p2] eqn:E2; apply Hld in E2; apply Hex in E.
  - injection H as <- <-. done.
  - injection H as <- <-. congruence.
  - injection H as <- <-. congruence.
Qed.
