(* ===== verification/Auth.v ===== *)
(** * Connections: addresses, versions and passwords (src/proxy: auth.go, iptable.go, version.go)

    A connection is checked against the limit and the table of addresses, then
    its user against the password hash a backend holds.  SHA-1 and regular
    expressions are parameters. *)
From S2P Require Import Prelude GoStd.
Open Scope string_scope.
Open Scope list_scope.
Open Scope Z_scope.

(** ** Strings *)

(** [strings.LastIndexByte], [strings.IndexByte] *)
Fixpoint index_byte (c : ascii) (s : string) : option nat :=
  match s with
  | EmptyString => None
  | String x s => if Ascii.eqb x c then Some 0%nat else S <$> index_byte c s
  end.
Fixpoint last_index (c : ascii) (s : string) : option nat :=
  match s with
  | EmptyString => None
  | String x s => match last_index c s with Some i => Some (S i) | None => if Ascii.eqb x c then Some 0%nat else None end
  end.
Definition str_from (n : nat) (s : string) : string := String.substring n (String.length s - n) s.

(** [net.SplitHostPort]: the host, or [None] for its errors. *)
Definition SplitHostPort (hostport : string) : option string :=
  match last_index ":" hostport with
  | None => None
  | Some i =>
      match hostport with
      | String "[" _ =>
          match index_byte "]" hostport with
          | None => None
          | Some e =>
              if Nat.eqb (S e) i
              then if has_char "[" (str_from 1 hostport) || has_char "]" (str_from (S e) hostport) then None
                   else Some (String.substring 1 (e - 1) hostport)
              else None
          end
      | _ =>
          let host := String.substring 0 i hostport in
          if has_char ":" host || has_char "[" hostport || has_char "]" hostport then None else Some host
      end
  end.

(** [hex.DecodeString] *)
Fixpoint hex_decode (s : string) : option (list Z) :=
  match s with
  | EmptyString => Some []
  | String a (String b s) =>
      match hex_val a, hex_val b, hex_decode s with Some x, Some y, Some l => Some (16 * x + y :: l) | _, _, _ => None end
  | String _ EmptyString => None
  end.

(** ** Versions *)

(** [serverVersion] *)
Record serverVersion := mkVersion { vMajor : Z; vMinor : Z; vPatch : Z; vTag : string }.
Definition authenticationMySQLVersion : serverVersion := mkVersion 5 7 0 "".

Definition atLeast (v c : serverVersion) : bool :=
  (vMajor c <? vMajor v) || ((vMajor v =? vMajor c) && (vMinor c <? vMinor v))
  || ((vMajor v =? vMajor c) && (vMinor v =? vMinor c) && (vPatch c <=? vPatch v)).
Definition version_equal (v c : serverVersion) : bool :=
  (vMajor v =? vMajor c) && (vMinor v =? vMinor c) && (vPatch v =? vPatch c).
Definition toStr (v : serverVersion) : string :=
  Itoa (vMajor v) +:+ "." +:+ Itoa (vMinor v) +:+ "." +:+ Itoa (vPatch v) +:+ "-" +:+ vTag v.

(** The digits at the front of a string and what follows them. *)
Fixpoint span_digits (s : string) : string * string :=
  match s with
  | String c t => match digit_val c with Some _ => let (d, r) := span_digits t in (String c d, r) | None => ("", s) end
  | EmptyString => ("", "")
  end.

(** [versionRegex] anchored at a position, and its leftmost match. *)
Definition version_here (s : string) : option (string * string * string) :=
  let (d1, r1) := span_digits s in
  match d1, r1 with
  | String _ _, String "." r1 =>
      let (d2, r2) := span_digits r1 in
      match d2, r2 with
      | String _ _, String "." r2 => let (d3, _) := span_digits r2 in match d3 with String _ _ => Some (d1, d2, d3) | _ => None end
      | _, _ => None
      end
  | _, _ => None
  end.
Fixpoint version_match (s : string) : option (string * string * string) :=
  match version_here s with
  | Some m => Some m
  | None => match s with String _ t => version_match t | EmptyString => None end
  end.

(** [strconv.Atoi] of digits: the value with its error; a value out of range is
    the largest integer. *)
Definition atoi_digits (s : string) : Z * bool := match Atoi s with Some n => (n, true) | None => (2 ^ 63 - 1, false) end.

(** [strings.SplitN(version, "-", 2)]: what follows the first dash. *)
Definition version_tag (s : string) : string := match index_byte "-" s with Some i => str_from (S i) s | None => "" end.

(** [parseVersionString]: the version and whether there was no error. *)
Definition parseVersionString (version : string) (withTag : bool) : serverVersion * bool :=
  let tag := if withTag then version_tag version else "" in
  match version_match version with
  | None => (mkVersion 0 0 0 tag, false)
  | Some (a, b, c) =>
      let (x, okx) := atoi_digits a in
      if negb okx then (mkVersion x 0 0 tag, false)
      else let (y, oky) := atoi_digits b in
           if negb oky then (mkVersion x y 0 tag, false)
           else let (z, okz) := atoi_digits c in (mkVersion x y z tag, okz)
  end.

(** ** The table of addresses *)

(** [regexp.Compile] and [MatchString]. *)
Class RegExp := { re_compile : string -> option (string -> bool) }.

Inductive IPEntry := EntryIP | EntryRegexp (f : string -> bool).
Abbreviation IPTable := (gmap string IPEntry).

Definition special_chars : string := "\.+*?()|[]{}^$".
(** [isWildcardIP]: [regexp.QuoteMeta] changes the string. *)
Definition isWildcardIP (ip : string) : bool := ContainsAny ip special_chars.

Section iptable.
Context `{RE : RegExp}.

(** [addToIPTable]: the table and whether there was no error. *)
Definition addToIPTable (ipt : IPTable) (ip : string) : IPTable * bool :=
  if isWildcardIP ip then
    let ip := if decide (ip = "*") then "." +:+ ip else ip in
    match re_compile ip with
    | None => (ipt, false)
    | Some reg => (<[ip := EntryRegexp reg]> ipt, true)
    end
  else (<[ip := EntryIP]> ipt, true).

(** [NewIPTable]: addresses that do not compile are left out. *)
Definition NewIPTable (ips : list string) : IPTable := foldl (fun t ip => fst (addToIPTable t ip)) ∅ ips.

(** [IPTable.Remove] *)
Definition IPTable_Remove (ipt : IPTable) (ip : string) : IPTable :=
  delete (if decide (ip = "*") then "." +:+ ip else ip) ipt.

(** [IPTable.Refresh]: the first address that does not compile ends it. *)
Fixpoint refresh_loop (ipt : IPTable) (ips : list string) : IPTable * bool :=
  match ips with
  | [] => (ipt, true)
  | ip :: ips => let (ipt, ok) := addToIPTable ipt ip in if ok then refresh_loop ipt ips else (ipt, false)
  end.
Definition IPTable_Refresh (ips : list string) : IPTable * bool := refresh_loop ∅ ips.

(** [IPTable.Check] *)
Definition IPTable_Check (ipt : IPTable) (address : string) : bool :=
  if decide (size ipt = 0%nat) then true
  else match ipt !! address with
       | Some _ => true
       | None => existsb (fun kv => match snd kv with EntryRegexp f => f address | EntryIP => false end) (map_to_list ipt)
       end.
End iptable.

(** ** Sessions *)
Inductive aerr := TooManyConnections (max : Z) | DeniedHost (host : string) | DeniedUser (user : string).

Definition localHostLogin (host : string) : bool := bool_decide (host = "127.0.0.1").
Definition localUserLogin (addr user : string) : bool :=
  match SplitHostPort addr with Some host => bool_decide (host = "127.0.0.1") && bool_decide (user = "root") | None => false end.

(** [SessionCheck]; [reaches] is the answer of [sessions.Reaches]. *)
Definition SessionCheck (max : Z) (reaches : bool) (ipt : IPTable) (addr : string) : res aerr unit :=
  if reaches then Err (TooManyConnections max)
  else match SplitHostPort addr with
       | None => Err (DeniedHost addr)
       | Some host => if localHostLogin host then Ok tt else if IPTable_Check ipt host then Ok tt else Err (DeniedHost host)
       end.

(** SHA-1 on bytes. *)
Class SHA1 := { sha1 : list Z -> list Z }.
Class SHA1Ok (H : SHA1) := { sha1_length : forall l, length (sha1 l) = 20%nat }.

(** The query of [AuthCheck]. *)
Definition auth_query (version user : string) : string :=
  (if atLeast (fst (parseVersionString version false)) authenticationMySQLVersion
   then "select authentication_string from mysql.user where user='"
   else "select password as authentication_string from mysql.user where user='") +:+ user +:+ "'".

Section auth.
Context `{H : SHA1}.

(** [gotStage1[i] = resp[i] ^ want[i]] for every byte of the response. *)
Definition xor_stage (resp want : list Z) : res aerr (list Z) :=
  if decide (length resp <= 20)%nat then Ok (zip_with Z.lxor resp want ++ replicate (20 - length resp) 0) else Panic.

(** [AuthCheck]; [answer] is the result of the query, [None] for an error. *)
Definition AuthCheck (addr user version : string) (salt resp : list Z) (answer : string -> option (list (list string))) : res aerr unit :=
  if localUserLogin addr user then Ok tt
  else
    let denied := Err (DeniedUser user) in
    match answer (auth_query version user) with
    | None | Some [] => denied
    | Some (row :: _) =>
        match row with
        | [] => Panic
        | v :: _ =>
            match hex_decode (TrimPrefix v "*") with
            | None => denied
            | Some wantStage2 =>
                let want := sha1 (salt ++ wantStage2) in
                gotStage1 ← xor_stage resp want;
                let gotStage2 := sha1 gotStage1 in
                let got := sha1 (salt ++ gotStage2) in
                if bool_decide (want = got) then Ok tt else denied
            end
        end
    end.
End auth.
