(* ===== verification/AuthProps.v ===== *)
(** * Who gets in *)
From S2P Require Import Prelude GoStd Auth.
Open Scope string_scope.
Open Scope list_scope.
Open Scope Z_scope.

(** ** The form a password is stored and sent in *)

(** [HEX] of MySQL: two capital digits per byte. *)
Definition hex_digit (n : Z) : ascii := ascii_of_nat (Z.to_nat (if n <? 10 then 48 + n else 55 + n)).
Fixpoint HEX (l : list Z) : string :=
  match l with [] => "" | b :: l => String (hex_digit (b / 16)) (String (hex_digit (b mod 16)) (HEX l)) end.

Lemma hex_digit_val n : 0 <= n < 16 -> hex_val (hex_digit n) = Some n.
Proof.
  intros Hn. assert (n ∈ seqZ 0 16) as Hin by (apply elem_of_seqZ; lia). revert Hin. change (seqZ 0 16) with [0;1;2;3;4;5;6;7;8;9;10;11;12;13;14;15].
  clear. intros H. repeat (apply elem_of_cons in H as [->|H]; [vm_compute; reflexivity|]). by apply not_elem_of_nil in H.
Qed.

Definition is_byte (b : Z) : Prop := 0 <= b < 256.

Lemma hex_roundtrip l : Forall is_byte l -> hex_decode (HEX l) = Some l.
Proof.
  induction 1 as [|b l Hb _ IH]; [done|]. unfold is_byte in Hb. cbn [HEX hex_decode].
  rewrite !hex_digit_val, IH; [|split; [apply Z.mod_pos_bound; lia|apply Z.mod_pos_bound; lia]|split; [apply Z.div_pos; lia|apply Z.div_lt_upper_bound; lia]].
  f_equal. f_equal. symmetry. apply Z.div_mod. lia.
Qed.

Lemma TrimPrefix_star s : TrimPrefix ("*" +:+ s) "*" = s.
Proof. unfold TrimPrefix. simpl. done. Qed.

Lemma zip_lxor_cancel a b : length a = length b -> zip_with Z.lxor (zip_with Z.lxor a b) b = a.
Proof.
  revert b. induction a as [|x a IH]; intros [|y b] Hl; simpl in *; try done. injection Hl as Hl.
  by rewrite Z.lxor_assoc, Z.lxor_nilpotent, Z.lxor_0_r, IH.
Qed.

Section auth.
Context `{H : SHA1, !SHA1Ok H}.

(** What [mysql.user] holds and what a client sends for a password. *)
Definition stored (password : list Z) : string := "*" +:+ HEX (sha1 (sha1 password)).
Definition scramble (stage1 stage2 salt : list Z) : list Z := zip_with Z.lxor stage1 (sha1 (salt ++ stage2)).

Lemma xor_scramble stage1 stage2 salt : length stage1 = 20%nat ->
  xor_stage (scramble stage1 stage2 salt) (sha1 (salt ++ stage2)) = Ok stage1.
Proof.
  intros Hl. unfold xor_stage, scramble. pose proof (sha1_length (salt ++ stage2)) as Hw.
  rewrite length_zip_with, Hl, Hw, Nat.min_id, decide_True, Nat.sub_diag by lia.
  rewrite zip_lxor_cancel by congruence. by rewrite app_nil_r.
Qed.

(** The check of the response to a hash that decodes. *)
Lemma AuthCheck_decoded addr user version salt resp answer v row rows stage2 :
  localUserLogin addr user = false -> answer (auth_query version user) = Some ((v :: row) :: rows) -> hex_decode (TrimPrefix v "*") = Some stage2 ->
  AuthCheck addr user version salt resp answer =
    (gotStage1 ← xor_stage resp (sha1 (salt ++ stage2));
     if bool_decide (sha1 (salt ++ stage2) = sha1 (salt ++ sha1 gotStage1)) then Ok tt else Err (DeniedUser user)).
Proof. intros Hl Ha Hd. unfold AuthCheck. by rewrite Hl, Ha, Hd. Qed.
End auth.

(** Two different inputs with the same SHA-1. *)
Definition collide `{H : SHA1} (x y : list Z) : Prop := x <> y /\ sha1 x = sha1 y.

(** The response is the scramble of [stage1], or the beginning of it when the
    rest of [stage1] is zero (the code pads a short response). *)
Definition answers_with `{H : SHA1} (resp stage1 stage2 salt : list Z) : Prop :=
  length stage1 = 20%nat /\ resp = take (length resp) (scramble stage1 stage2 salt) /\
  drop (length resp) stage1 = replicate (20 - length resp) 0.

Lemma xor_answers `{H : SHA1, !SHA1Ok H} resp stage1 stage2 salt : (length resp <= 20)%nat ->
  xor_stage resp (sha1 (salt ++ stage2)) = Ok stage1 <-> answers_with resp stage1 stage2 salt.
Proof.
  intros Hr. unfold xor_stage, answers_with, scramble. rewrite decide_True by done.
  pose proof (sha1_length (salt ++ stage2)) as Hw. set (W := sha1 (salt ++ stage2)) in *. clearbody W.
  rewrite zip_with_take, <- (zip_with_take_r _ resp W). set (n := length resp) in *.
  assert (length (take n W) = n) as HnW by (rewrite length_take; lia). split.
  - intros [= <-]. assert (length (zip_with Z.lxor resp (take n W)) = n) as Hz by (rewrite length_zip_with, HnW; subst n; lia).
    split_and!.
    + rewrite length_app, Hz, length_replicate. lia.
    + rewrite take_app_length' by done. by rewrite zip_lxor_cancel.
    + by rewrite drop_app_length'.
  - intros (H1 & Hresp & Hd). rewrite Hresp. rewrite zip_lxor_cancel by (rewrite !length_take; lia).
    rewrite <- Hd. by rewrite take_drop.
Qed.

(** C30: A remote client is let in exactly with the password, up to collisions
    of SHA-1.  Against a stored hash that decodes, a response of at most 20
    bytes (a longer one panics, [long_response_panics]) is accepted if and only
    if it is made from a stage-one hash whose SHA-1 is the stored one, or whose
    SHA-1 collides with the stored one after the salt (the code compares the
    salted hashes); in particular the response made from the password whose
    double SHA-1 is stored is accepted. *)
Theorem auth_exact `{H : SHA1, !SHA1Ok H} addr user version salt resp answer v row rows stage2 :
  localUserLogin addr user = false -> answer (auth_query version user) = Some ((v :: row) :: rows) ->
  hex_decode (TrimPrefix v "*") = Some stage2 -> (length resp <= 20)%nat ->
  (AuthCheck addr user version salt resp answer = Ok tt <->
     exists stage1, answers_with resp stage1 stage2 salt /\
       (sha1 stage1 = stage2 \/ collide (salt ++ sha1 stage1) (salt ++ stage2))) /\
  (forall password, Forall is_byte (sha1 (sha1 password)) -> v = stored password ->
     AuthCheck addr user version salt (scramble (sha1 password) (sha1 (sha1 password)) salt) answer = Ok tt).
Proof.
  intros Hl Ha Hd Hr. split.
  - rewrite (AuthCheck_decoded _ _ _ _ _ _ _ _ _ _ Hl Ha Hd). split.
    + destruct (xor_stage resp _) as [stage1| |] eqn:Hx; simpl; try done. apply xor_answers in Hx; [|done].
      case_bool_decide as E; [|done]. intros _. exists stage1. split; [done|].
      destruct (decide (sha1 stage1 = stage2)) as [|Hne]; [by left|right]. split; [|done]. by intros ?%app_inv_head.
    + intros (stage1 & Hx%xor_answers & Hs); [|done]. rewrite Hx. simpl. rewrite bool_decide_eq_true_2; [done|].
      destruct Hs as [->|[_ Hc]]; done.
  - intros password Hb ->. unfold stored in Hd. rewrite TrimPrefix_star, hex_roundtrip in Hd by done. injection Hd as <-.
    rewrite (AuthCheck_decoded _ _ _ _ _ _ _ _ _ (sha1 (sha1 password)) Hl Ha); [|unfold stored; by rewrite TrimPrefix_star, hex_roundtrip].
    rewrite xor_scramble by apply sha1_length. simpl. by rewrite bool_decide_eq_true_2.
Qed.

(** A response longer than 20 bytes panics. *)
Theorem long_response_panics `{H : SHA1} addr user version salt resp answer v row rows stage2 :
  localUserLogin addr user = false -> answer (auth_query version user) = Some ((v :: row) :: rows) ->
  hex_decode (TrimPrefix v "*") = Some stage2 -> (20 < length resp)%nat -> AuthCheck addr user version salt resp answer = Panic.
Proof. intros Hl Ha Hd Hr. rewrite (AuthCheck_decoded _ _ _ _ _ _ _ _ _ _ Hl Ha Hd). unfold xor_stage. rewrite decide_False by lia. done. Qed.

(** A user without a password (nothing stored, an empty response) is denied
    unless the salt collides. *)
Theorem empty_password_denied `{H : SHA1} addr user version salt answer row rows :
  localUserLogin addr user = false -> answer (auth_query version user) = Some (("" :: row) :: rows) ->
  sha1 salt <> sha1 (salt ++ sha1 (replicate 20 0)) -> AuthCheck addr user version salt [] answer = Err (DeniedUser user).
Proof.
  intros Hl Ha Hne. rewrite (AuthCheck_decoded _ _ _ _ _ _ _ _ _ [] Hl Ha) by done. rewrite app_nil_r. unfold xor_stage. simpl.
  by rewrite bool_decide_eq_false_2.
Qed.

(** ** A hash for examples: the last twenty bytes, turned around. *)
Definition toy_sha1 (l : list Z) : list Z := take 20 (reverse l ++ replicate 20 0).
#[local] Instance toy : SHA1 := {| sha1 := toy_sha1 |}.
#[local] Instance toy_ok : SHA1Ok toy.
Proof. split. intros l. simpl. unfold toy_sha1. rewrite length_take, length_app, length_replicate. lia. Qed.

Definition toy_password : list Z := [1; 2; 3].
Definition toy_salt : list Z := [7; 8].
Definition toy_answer (q : string) : option (list (list string)) :=
  if decide (q = "select authentication_string from mysql.user where user='u'") then Some [[stored toy_password]] else None.
Definition toy_resp : list Z := scramble (sha1 toy_password) (sha1 (sha1 toy_password)) toy_salt.

Lemma auth_exact_witness : localUserLogin "10.0.0.5:3306" "u" = false /\
  toy_answer (auth_query "8.0.11" "u") = Some [[stored toy_password]] /\
  AuthCheck "10.0.0.5:3306" "u" "8.0.11" toy_salt toy_resp toy_answer = Ok tt.
Proof.
  split; [vm_compute; reflexivity|]. split; [vm_compute; reflexivity|].
  destruct (auth_exact "10.0.0.5:3306" "u" "8.0.11" toy_salt toy_resp toy_answer (stored toy_password) [] [] (sha1 (sha1 toy_password)))
    as [[_ Hgo] _]; [vm_compute; reflexivity|vm_compute; reflexivity|vm_compute; reflexivity|apply Nat.leb_le; vm_compute; reflexivity|].
  apply Hgo. exists (sha1 toy_password). split; [|by left]. split; [vm_compute; reflexivity|]. split; vm_compute; reflexivity.
Defined.

(** ** Addresses *)

(** What is used of regular expressions: a pattern of digits and dots compiles,
    and is found inside every string that contains it. *)
Definition literal_ip (ip : string) : Prop := str_Forall (fun c => is_digit c \/ c = "."%char) ip.
Class RegExpOk (RE : RegExp) := { re_literal : forall ip, literal_ip ip ->
  exists f, re_compile ip = Some f /\ forall a b, f (a +:+ ip +:+ b) = true }.

(** An address that is allowed lets in every address that contains it. *)
Theorem iptable_too_wide `{RE : RegExp, !RegExpOk RE} ip a b : literal_ip ip -> isWildcardIP ip = true ->
  IPTable_Check (NewIPTable [ip]) (a +:+ ip +:+ b) = true.
Proof.
  intros Hl Hw. destruct (re_literal ip Hl) as (f & Hf & Hm). unfold NewIPTable. simpl. unfold addToIPTable. rewrite Hw.
  assert (ip <> "*") as Hne by (intros ->; destruct Hl as [[[? Hd]|Hd] _]; by vm_compute in Hd).
  rewrite decide_False by done. rewrite Hf. cbn [fst]. unfold IPTable_Check. rewrite insert_empty, map_size_singleton. simpl.
  destruct ({[ip := EntryRegexp f]} !! (a +:+ ip +:+ b)); [done|]. rewrite map_to_list_singleton. simpl. by rewrite Hm.
Qed.

(** A matcher for literal patterns: somewhere in the string. *)
Fixpoint dot_prefix (p s : string) : bool :=
  match p, s with
  | EmptyString, _ => true
  | String c p, String d s => (Ascii.eqb c "." || Ascii.eqb c d) && dot_prefix p s
  | _, _ => false
  end.
Fixpoint dot_search (p s : string) : bool :=
  dot_prefix p s || match s with String _ s => dot_search p s | EmptyString => false end.
#[export] Instance literal_regexp : RegExp := {| re_compile p := Some (dot_search p) |}.
#[export] Instance literal_regexp_ok : RegExpOk literal_regexp.
Proof.
  split. intros ip _. exists (dot_search ip). split; [done|]. intros a b.
  assert (dot_prefix ip (ip +:+ b) = true) as Hp.
  { induction ip as [|c ip IH]; simpl; [done|]. rewrite Ascii.eqb_refl, orb_true_r. exact IH. }
  induction a as [|c a IH]; simpl.
  - destruct (ip +:+ b) eqn:E; simpl in *; by rewrite Hp.
  - rewrite IH. apply orb_true_r.
Qed.

Example iptable_example : IPTable_Check (NewIPTable ["10.0.0.1"]) "210.0.0.17" = true.
Proof. vm_compute. reflexivity. Qed.
