(* ===== verification/Syncer.v ===== *)
(** * Synchronizing the metadata of several proxies (src/syncer: syncer.go, meta.go, peer.go, src/config/version.go)

    Every proxy keeps its metadata in a directory with a version.  A thread
    asks the other proxies for their versions and, if one is newer, replaces the
    whole directory by that proxy's and loads it again.

    A directory is a map from names to contents.  JSON is a parameter, and so is
    what the backends and the router do when they load a directory ([Reload]):
    the state they build is modelled with them. *)
From S2P Require Import Prelude.
Open Scope string_scope.
Open Scope list_scope.
Open Scope Z_scope.

Abbreviation Files := (gmap string string).

Definition versionJSONFile : string := "version.json".
Definition peersJSONFile : string := "peers.json".

(** [json.Unmarshal] of a version, and of a list of peers with [json.Marshal]. *)
Class MetaJson := { read_version : string -> option Z; read_peers : string -> option (list string); write_peers : list string -> string }.
(** [scatter.LoadConfig]: the directory after it, and whether it went well; [router.LoadConfig]. *)
Class Reload := { reload_scatter : Files -> Files * bool; reload_router : Files -> bool }.

(** [Peer]; [Syncer] with its directory, the outcomes of the writes to come and
    the directories put aside. *)
Record Peer := mkPeer { peSelf : string; pePeers : list string }.
Record Syncer := mkSyncer { syPeer : Peer; syDir : Files; syIo : list io_result; syBackup : list Files }.
Inductive serr2 := SyRead | SyWrite | SyJson | SyEmptyPeer.
Abbreviation YM := (M Syncer serr2).

Definition set_dir (d : Files) (s : Syncer) : Syncer := mkSyncer (syPeer s) d (syIo s) (syBackup s).
Definition set_peers (l : list string) (s : Syncer) : Syncer := mkSyncer (mkPeer (peSelf (syPeer s)) l) (syDir s) (syIo s) (syBackup s).

(** [readFile] *)
Definition readFile (file : string) : YM string :=
  s ← mget; match syDir s !! file with Some d => mret d | None => mfail SyRead end.

(** [writeFile]; a torn write leaves an empty file. *)
Definition writeFile (file data : string) : YM unit := fun s =>
  let (x, io) := match syIo s with [] => (IoOk, []) | x :: l => (x, l) end in
  let s := mkSyncer (syPeer s) (syDir s) io (syBackup s) in
  match x with
  | IoOk => (Ok tt, set_dir (<[file := data]> (syDir s)) s)
  | IoFail => (Err SyWrite, s)
  | IoTorn => (Err SyWrite, set_dir (<[file := ""]> (syDir s)) s)
  end.

(** [if err := m(); err != nil { log.Panicf(...) }] *)
Definition sync_or_panic {A} (m : YM A) : YM A := x ← mtry m; match x with inl a => mret a | inr _ => mpanic end.

Section syncer.
Context `{R : MapRange, MJ : MetaJson, RL : Reload}.

(** [config.ReadVersion] *)
Definition ReadVersion (d : Files) : Z :=
  match d !! versionJSONFile with Some data => default 0 (read_version data) | None => 0 end.

(** ** Peers *)
Definition peer_readJSON : YM (list string) :=
  buf ← readFile peersJSONFile; match read_peers buf with Some l => mret l | None => mfail SyJson end.
Definition peer_writeJSON (peers : list string) : YM unit := writeFile peersJSONFile (write_peers peers).

(** [Peer.LoadConfig] *)
Definition Peer_LoadConfig : YM unit :=
  s ← mget;
  match syDir s !! peersJSONFile with
  | None => mmodify (fun s => set_peers (pePeers (syPeer s) ++ [peSelf (syPeer s)]) s)
  | Some _ => peers ← peer_readJSON; _ ← mmodify (set_peers peers); peer_writeJSON peers
  end.

(** [Peer.Clone] *)
Definition Peer_Clone (s : Syncer) : list string := pePeers (syPeer s).

(** [Peer.Add] *)
Definition Peer_Add (peer : string) : YM unit :=
  if decide (peer = "") then mfail SyEmptyPeer
  else s ← mget;
       if decide (peer ∈ pePeers (syPeer s)) then mret tt
       else let peers := pePeers (syPeer s) ++ [peer] in _ ← mmodify (set_peers peers); peer_writeJSON peers.

(** The list without the first occurrence. *)
Fixpoint remove_first (x : string) (l : list string) : list string :=
  match l with [] => [] | y :: l => if decide (y = x) then l else y :: remove_first x l end.

(** [Peer.Remove] *)
Definition Peer_Remove (peer : string) : YM unit :=
  s ← mget;
  if decide (peer ∈ pePeers (syPeer s))
  then let peers := remove_first peer (pePeers (syPeer s)) in _ ← mmodify (set_peers peers); peer_writeJSON peers
  else mret tt.

(** ** Metadata *)

(** [MetaVersion], [MetaJSON] *)
Definition MetaVersion (s : Syncer) : Z := ReadVersion (syDir s).
Definition MetaJSON (s : Syncer) : Files := syDir s.

(** The answer of a peer: no answer, one that is not valid JSON, or a value. *)
Inductive reply (A : Type) := RFail | RBad | ROk (a : A).

(** One peer of the loop of [check] and of [MetaVersionCheck]; [None] returns. *)
Definition scan_peer (self peer : string) (r : reply Z) (m : Z * string) : option (Z * string) :=
  if decide (peer = self) then Some m
  else match r with
       | RFail _ => Some m
       | RBad _ => None
       | ROk _ v => Some (if fst m <? v then (v, peer) else m)
       end.
Fixpoint scan (self : string) (vget : string -> reply Z) (peers : list string) (m : Z * string) : option (Z * string) :=
  match peers with
  | [] => Some m
  | p :: ps => match scan_peer self p (vget p) m with Some m => scan self vget ps m | None => None end
  end.

(** [MetaVersionCheck] *)
Definition MetaVersionCheck (vget : string -> reply Z) (s : Syncer) : bool * list string :=
  match scan (peSelf (syPeer s)) vget (Peer_Clone s) (0, "") with
  | None => (false, pePeers (syPeer s))
  | Some (maxVer, _) => (negb (MetaVersion s <? maxVer), pePeers (syPeer s))
  end.

(** [MetaRebuild]: the directory is put aside and the files are written, in the
    order of the map. *)
Definition MetaRebuild (meta : Files) : YM unit :=
  _ ← mmodify (fun s => mkSyncer (syPeer s) ∅ (syIo s) (syDir s :: syBackup s));
  miter (fun kv => sync_or_panic (writeFile (fst kv) (snd kv))) (map_range meta).

(** [MetaReload] *)
Definition MetaReload : YM unit :=
  s ← mget;
  let (d, ok) := reload_scatter (syDir s) in
  _ ← mmodify (set_dir d);
  if (ok : bool) then
    if reload_router d then sync_or_panic Peer_LoadConfig else mpanic
  else mpanic.

(** [check] *)
Definition fetch (r : reply Files) : YM unit :=
  match r with ROk _ meta => _ ← MetaRebuild meta; MetaReload | _ => mret tt end.
Definition check (vget : string -> reply Z) (metaget : string -> reply Files) : YM unit :=
  s ← mget;
  match scan (peSelf (syPeer s)) vget (Peer_Clone s) (0, "") with
  | None => mret tt
  | Some (maxVer, maxPeer) => if MetaVersion s <? maxVer then fetch (metaget maxPeer) else mret tt
  end.

(** [Init], up to the start of the thread. *)
Definition syncer_Init : YM unit := Peer_LoadConfig.
End syncer.
Arguments RFail {A}.
Arguments RBad {A}.
Arguments ROk {A} a.

(** ** Several proxies

    The threads run interleaved with each other and with changes of the
    metadata: a thread is idle, has peers left to ask, or has decided to fetch. *)
Inductive SyPhase := YIdle | YScan (rest : list string) (maxVer : Z) (maxPeer : string) | YFetch (maxPeer : string).
Record SyNode := mkSyNode { snSyncer : Syncer; snPhase : SyPhase }.
Abbreviation Cluster := (gmap string SyNode).

Inductive out := OFail | OBad | OReply.
Inductive yact := YStart (a : string) | YPeer (a : string) (o : out) | YDecide (a : string) | YGet (a : string) (o : out) | YChange (a : string) (d : Files).

Section cluster.
Context `{R : MapRange, MJ : MetaJson, RL : Reload}.

(** What a node of the cluster answers. *)
Definition answer {A} (f : Syncer -> A) (c : Cluster) (p : string) (o : out) : reply A :=
  match o, c !! p with OFail, _ | _, None => RFail | OBad, _ => RBad | OReply, Some n => ROk (f (snSyncer n)) end.

(** One action; [Some Panic] is a thread that panics. *)
Definition ystep (a : yact) (c : Cluster) : option (res serr2 Cluster) :=
  match a with
  | YStart a =>
      match c !! a with
      | Some (mkSyNode s YIdle) => Some (Ok (<[a := mkSyNode s (YScan (Peer_Clone s) 0 "")]> c))
      | _ => None
      end
  | YPeer a o =>
      match c !! a with
      | Some (mkSyNode s (YScan (p :: rest) v m)) =>
          match scan_peer (peSelf (syPeer s)) p (answer MetaVersion c p o) (v, m) with
          | Some (v, m) => Some (Ok (<[a := mkSyNode s (YScan rest v m)]> c))
          | None => Some (Ok (<[a := mkSyNode s YIdle]> c))
          end
      | _ => None
      end
  | YDecide a =>
      match c !! a with
      | Some (mkSyNode s (YScan [] v m)) => Some (Ok (<[a := mkSyNode s (if MetaVersion s <? v then YFetch m else YIdle)]> c))
      | _ => None
      end
  | YGet a o =>
      match c !! a with
      | Some (mkSyNode s (YFetch m)) =>
          match fetch (answer MetaJSON c m o) s with
          | (Ok _, s) => Some (Ok (<[a := mkSyNode s YIdle]> c))
          | (Err e, s) => Some (Err e)
          | (Panic, s) => Some Panic
          end
      | _ => None
      end
  | YChange a d =>
      match c !! a with
      | Some n => if MetaVersion (snSyncer n) <? ReadVersion d then Some (Ok (<[a := mkSyNode (set_dir d (snSyncer n)) (snPhase n)]> c)) else None
      | None => None
      end
  end.

Inductive yruns : Cluster -> list yact -> Cluster -> Prop :=
| yruns_nil c : yruns c [] c
| yruns_cons c a c1 l c2 : ystep a c = Some (Ok c1) -> yruns c1 l c2 -> yruns c (a :: l) c2.
End cluster.
