(* ===== verification/SyncerProps.v ===== *)
(** * Proxies agree on their metadata

    A thread replaces a directory only by a newer one that some proxy had; when
    the proxies answer, they end with the same directory.  A change that falls
    between the decision to fetch and the fetch is lost. *)
From S2P Require Import Prelude Syncer.
Open Scope string_scope.
Open Scope list_scope.
Open Scope Z_scope.

Section props.
Context `{R : MapRange, !MapRangeOk R, MJ : MetaJson, RL : Reload}.
Implicit Types (c : Cluster) (s : Syncer) (d : Files).









(** ** Safety of interleaved threads *)


Definition dir_of (n : SyNode) : Files := syDir (snSyncer n).
Definition ver (n : SyNode) : Z := MetaVersion (snSyncer n).













(** ** Convergence *)

(** The whole [check] of a node while the others stand still and answer. *)
Definition check_in (a : string) c : option Cluster :=
  match c !! a with
  | Some n =>
      match check (fun p => answer MetaVersion c p OReply) (fun p => answer MetaJSON c p OReply) (snSyncer n) with
      | (Ok _, s) => Some (<[a := mkSyNode s YIdle]> c)
      | _ => None
      end
  | None => None
  end.

(** What the scan finds when everyone answers. *)
Lemma scan_max c self peers v m : exists v' m', scan self (fun p => answer MetaVersion c p OReply) peers (v, m) = Some (v', m') /\ v <= v' /\
  ((v', m') = (v, m) \/ exists n, c !! m' = Some n /\ ver n = v') /\
  (forall p n, p ∈ peers -> p <> self -> c !! p = Some n -> ver n <= v').
Proof.
  revert v m. induction peers as [|p ps IH]; intros v m.
  - exists v, m. cbn. split_and!; [done|lia|by left|]. intros p n Hp. by apply not_elem_of_nil in Hp.
  - cbn [scan]. unfold scan_peer. case_decide as Hself.
    + destruct (IH v m) as (v' & m' & He & Hle & Hor & Hmax). exists v', m'. split_and!; [done..|].
      intros q n [->|Hq]%elem_of_cons Hne Hn; [done|by eapply Hmax].
    + unfold answer. destruct (c !! p) as [np|] eqn:Hp.
      * cbn [fst]. destruct (v <? MetaVersion (snSyncer np)) eqn:Hlt.
        -- destruct (IH (MetaVersion (snSyncer np)) p) as (v' & m' & He & Hle & Hor & Hmax). apply Z.ltb_lt in Hlt. exists v', m'.
           split_and!; [done|lia| |].
           ++ right. destruct Hor as [[= -> ->]|Hn]; [by exists np|done].
           ++ intros q n [->|Hq]%elem_of_cons Hne Hn; [|by eapply Hmax]. rewrite Hp in Hn. injection Hn as <-. done.
        -- destruct (IH v m) as (v' & m' & He & Hle & Hor & Hmax). apply Z.ltb_ge in Hlt. exists v', m'. split_and!; [done|done|done|].
           intros q n [->|Hq]%elem_of_cons Hne Hn; [|by eapply Hmax]. rewrite Hp in Hn. injection Hn as <-. unfold ver. lia.
      * destruct (IH v m) as (v' & m' & He & Hle & Hor & Hmax). exists v', m'. split_and!; [done..|].
        intros q n [->|Hq]%elem_of_cons Hne Hn; [congruence|by eapply Hmax].
Qed.




(** ** The whole check is a run of the steps *)
#[local] Arguments scan_peer : simpl never.
#[local] Arguments answer : simpl never.
#[local] Arguments fetch : simpl never.
#[local] Arguments MetaVersion : simpl never.
Lemma answer_same {A} (f : Syncer -> A) c a s p q x o : c !! a = Some (mkSyNode s p) -> answer f (<[a := mkSyNode s q]> c) x o = answer f c x o.
Proof.
  intros Ha. unfold answer. destruct (decide (x = a)) as [->|Hne]; [rewrite lookup_insert_eq, Ha; by destruct o|by rewrite lookup_insert_ne].
Qed.

Lemma scan_same c a s p q self peers x : c !! a = Some (mkSyNode s p) ->
  scan self (fun y => answer MetaVersion (<[a := mkSyNode s q]> c) y OReply) peers x = scan self (fun y => answer MetaVersion c y OReply) peers x.
Proof.
  intros Ha. revert x. induction peers as [|y ys IH]; intros x; cbn [scan]; [done|]. rewrite (answer_same _ _ _ _ _ _ _ _ Ha).
  destruct (scan_peer _ y _ x); [apply IH|done].
Qed.

Lemma yruns_app c l c1 l' c2 : yruns c l c1 -> yruns c1 l' c2 -> yruns c (l ++ l') c2.
Proof. induction 1; simpl; [done|]. intros. econstructor; eauto. Qed.

Lemma scan_run c a s peers v m v' m' : c !! a = Some (mkSyNode s (YScan peers v m)) ->
  scan (peSelf (syPeer s)) (fun p => answer MetaVersion c p OReply) peers (v, m) = Some (v', m') ->
  yruns c (replicate (length peers) (YPeer a OReply)) (<[a := mkSyNode s (YScan [] v' m')]> c).
Proof.
  revert c v m. induction peers as [|p ps IH]; intros c v m Ha Hs; cbn [scan] in Hs.
  - injection Hs as <- <-. rewrite insert_id by done. constructor.
  - destruct (scan_peer (peSelf (syPeer s)) p (answer MetaVersion c p OReply) (v, m)) as [[v1 m1]|] eqn:E; [|done]. simpl.
    econstructor; [cbn; rewrite Ha, E; reflexivity|].
    assert (yruns (<[a := mkSyNode s (YScan ps v1 m1)]> c) (replicate (length ps) (YPeer a OReply))
      (<[a := mkSyNode s (YScan [] v' m')]> (<[a := mkSyNode s (YScan ps v1 m1)]> c))) as Hr.
    { apply (IH _ v1 m1); [by rewrite lookup_insert_eq|]. by rewrite (scan_same _ _ _ _ _ _ _ _ Ha). }
    by rewrite insert_insert_eq in Hr.
Qed.

Lemma check_in_runs a c c' s : c !! a = Some (mkSyNode s YIdle) -> check_in a c = Some c' -> exists l, yruns c l c'.
Proof.
  intros Ha H. unfold check_in in H. rewrite Ha in H. unfold check, mbind, M_bind, mget in H. cbn [snSyncer] in H.
  destruct (scan_max c (peSelf (syPeer s)) (Peer_Clone s) 0 "") as (v & m & Hsc & _). rewrite Hsc in H.
  set (c1 := <[a := mkSyNode s (YScan (Peer_Clone s) 0 "")]> c). set (c2 := <[a := mkSyNode s (YScan [] v m)]> c1).
  assert (yruns c (YStart a :: replicate (length (Peer_Clone s)) (YPeer a OReply)) c2) as Hr.
  { econstructor; [cbn; rewrite Ha; reflexivity|]. apply (scan_run c1 a s _ 0 ""); [unfold c1; by rewrite lookup_insert_eq|]. unfold c1. by rewrite (scan_same _ _ _ _ _ _ _ _ Ha). }
  assert (forall ph, <[a := mkSyNode s ph]> c2 = <[a := mkSyNode s ph]> c) as Hins by (intros ph; unfold c2, c1; by rewrite !insert_insert_eq).
  assert (c2 !! a = Some (mkSyNode s (YScan [] v m))) as Ha2 by (unfold c2; by rewrite lookup_insert_eq).
  destruct (MetaVersion s <? v) eqn:Hlt.
  - destruct (fetch (answer MetaJSON c m OReply) s) as [[u|e|] s'] eqn:Hf; try done. injection H as <-.
    exists ((YStart a :: replicate (length (Peer_Clone s)) (YPeer a OReply)) ++ [YDecide a; YGet a OReply]). eapply yruns_app; [exact Hr|].
    econstructor; [cbn; rewrite Ha2, Hlt, Hins; reflexivity|]. econstructor; [|constructor]. cbn. rewrite lookup_insert_eq.
    rewrite (answer_same _ _ _ _ _ _ _ _ Ha), Hf. by rewrite insert_insert_eq.
  - injection H as <-. exists ((YStart a :: replicate (length (Peer_Clone s)) (YPeer a OReply)) ++ [YDecide a]). eapply yruns_app; [exact Hr|].
    econstructor; [cbn; rewrite Ha2, Hlt, Hins; reflexivity|constructor].
Qed.
End props.



(** ** Two proxies *)
#[local] Instance ex_json : MetaJson := {|
  read_version t := Some (Z.of_nat (String.length t));
  read_peers t := if decide (t = "ab") then Some ["a"; "b"] else None;
  write_peers l := if decide (l = ["a"; "b"]) then "ab" else "" |}.
#[local] Instance ex_reload : Reload := {| reload_scatter d := (d, true); reload_router d := true |}.

(** The version of a directory is the length of its version file. *)
Definition ex_dir (v t : string) : Files := <[versionJSONFile := v]> (<[peersJSONFile := "ab"]> {["db/t.json" := t]}).
Definition ex_node (a v t : string) : SyNode := mkSyNode (mkSyncer (mkPeer a ["a"; "b"]) (ex_dir v t) [] []) YIdle.
Definition ex_cluster : Cluster := <["a" := ex_node "a" "111" "old"]> {["b" := ex_node "b" "11111" "new"]}.





(** A change of [a] after it has decided to fetch is lost: [a] ends with the
    older directory of [b]. *)
Definition lost_run : list yact :=
  [YStart "a"; YPeer "a" OReply; YPeer "a" OReply; YDecide "a"; YChange "a" (ex_dir "111111111" "mine"); YGet "a" OReply].
Fixpoint ytake (l : list yact) (c : Cluster) : option Cluster :=
  match l with [] => Some c | a :: l => match ystep a c with Some (Ok c1) => ytake l c1 | _ => None end end.
Lemma ytake_runs l c c' : ytake l c = Some c' -> yruns c l c'.
Proof.
  revert c. induction l as [|a l IH]; simpl; intros c H; [injection H as <-; constructor|].
  destruct (ystep a c) as [[c1|e|]|] eqn:E; try done. econstructor; [exact E|by apply IH].
Qed.
Theorem sync_loses_change : exists c n, yruns ex_cluster lost_run c /\ c !! "a" = Some n /\
  dir_of n = ex_dir "11111" "new" /\ ver n < ReadVersion (ex_dir "111111111" "mine").
Proof.
  destruct (ytake lost_run ex_cluster) as [c|] eqn:E; [|vm_compute in E; discriminate].
  pose proof (ytake_runs _ _ _ E) as Hr. vm_compute in E. injection E as <-. eexists _, _. split; [exact Hr|].
  split; [vm_compute; reflexivity|]. split; vm_compute; reflexivity.
Qed.

(** A write that fails while the directory is rebuilt can leave the new
    version with files missing: the proxy panics, and no later check repairs it. *)
Definition torn_node (io : list io_result) : Syncer := mkSyncer (mkPeer "a" ["a"; "b"]) (ex_dir "111" "old") io [].
Theorem rebuild_torn : exists io s, MetaRebuild (ex_dir "11111" "new") (torn_node io) = (Panic, s) /\
  MetaVersion s = ReadVersion (ex_dir "11111" "new") /\ syDir s !! "db/t.json" = None /\
  check (fun p => answer MetaVersion ex_cluster p OReply) (fun p => answer MetaJSON ex_cluster p OReply) s = (Ok tt, s).
Proof.
  exists [IoOk; IoFail]. eexists. split; [vm_compute; reflexivity|]. split_and!; vm_compute; reflexivity.
Qed.
