(* ===== verification/Admin.v ===== *)
(** * Administration: cleaning up, distributed transactions, resharding (src/proxy: admin_cleanup.go, admin_xa.go, admin_reshard.go, admin_shift.go)

    These commands look at the backends and send statements.  What a query
    answers is an input; what is sent is recorded. *)
From S2P Require Import Prelude GoStd Config Pool Xcontext Partition Compute Router Frm Scatter Shift.
Open Scope string_scope.
Open Scope list_scope.
Open Scope Z_scope.

(** Where a statement goes: to a backend, to all, to any one. *)
Inductive Target := ToBackend (b : string) | ToAll | ToOne.
Abbreviation Rows := (list (list string)).

(** What the servers answer, by the statements sent before; [None] is an error. *)
Class Servers := { ask : list (Target * string) -> Target -> string -> option Rows }.

(** The router, the backends and what was sent. *)
Record AdSt := mkAdSt { adRouter : Router; adWorld : World; adSent : list (Target * string) }.

Inductive aderr :=
| AdRouter (e : rerr) | AdBackend (e : berr) | AdExec | AdParse | AdReadOnly | AdEmpty | AdNoBackend | AdShift (e : sherr)
| AdNotSingle (t : string) | AdNoDatabase (db : string) | AdTableExists (t : string) | AdParams | AdSystem
| AdNoDB | AdDenied (user : string) | AdUnsupported | AdTime.
Abbreviation AM := (M AdSt aderr).

(** [spanner.ExecuteOnThisBackend], [ExecuteScatter], [ExecuteSingle] *)
Definition adm_exec `{SV : Servers} (t : Target) (query : string) : AM Rows := fun s =>
  let s' := mkAdSt (adRouter s) (adWorld s) (adSent s ++ [(t, query)]) in
  match ask (adSent s) t query with Some rows => (Ok rows, s') | None => (Err AdExec, s') end.

Definition of_rt {A} (x : res rerr A) : res aderr A := match x with Ok a => Ok a | Err e => Err (AdRouter e) | Panic => Panic end.
Definition of_bk {A} (x : res berr A) : res aderr A := match x with Ok a => Ok a | Err e => Err (AdBackend e) | Panic => Panic end.
Definition in_rt {A} (m : RM A) : AM A := fun s => let (x, r) := m (adRouter s) in (of_rt x, mkAdSt r (adWorld s) (adSent s)).
Definition in_bk {A} (m : WM A) : AM A := fun s => let (x, w) := m (adWorld s) in (of_bk x, mkAdSt (adRouter s) w (adSent s)).

(** [r[i].Raw()]; a row that is too short panics. *)
Definition cell (r : list string) (i : nat) : AM string := match r !! i with Some v => mret v | None => mpanic end.

(** ** Cleanup *)

(** The key of a shift: the table and the backend it goes to. *)
Definition shift_key (database table backend : string) : string := "`" +:+ database +:+ "`.`" +:+ table +:+ "`_" +:+ backend.
Definition drop_database (database : string) : string := "drop database if exists `" +:+ database +:+ "`".
Definition drop_table (database tb : string) : string := "drop table if exists `" +:+ database +:+ "`.`" +:+ tb +:+ "`".
Definition select_like (database suffix : string) : string :=
  "select table_name from information_schema.tables where table_schema = '" +:+ database +:+ "' and table_name like '%" +:+ suffix +:+ "'".

(** [if isExist, _ := ...; !isExist]: an error counts as missing. *)
Definition is_known (x : bool + aderr) : bool := match x with inl b => b | inr _ => false end.

Section admin.
Context `{R : MapRange, SV : Servers}.
Variable (status : string -> ShiftStatus).

(** The loop over the tables of one suffix; [keep] spares a table the router
    does not know. *)
Fixpoint drop_stale (database backend : string) (keep : string -> bool) (rows : Rows) : AM unit :=
  match rows with
  | [] => mret tt
  | r :: rows =>
      tb ← cell r 0;
      x ← mtry (in_rt (CheckTable database tb));
      _ ← (if is_known x || keep tb then mret [] else adm_exec (ToBackend backend) (drop_table database tb));
      drop_stale database backend keep rows
  end.

(** The check whether the table is migrating. *)
Definition migrating (database backend tb : string) : bool :=
  match status (shift_key database (TrimSuffix tb "_migrate") backend) with ShiftStatusMigrating => true | _ => false end.

(** [cleanupHandler] *)
Definition cleanupHandler (database backend : string) : AM unit :=
  if acl_IsSystemDB database then mret tt
  else
    x ← mtry (in_rt (checkDatabase database));
    match x with
    | inr _ => _ ← adm_exec (ToBackend backend) (drop_database database); mret tt
    | inl _ =>
        rows ← adm_exec (ToBackend backend) (select_like database "_cleanup");
        _ ← drop_stale database backend (fun _ => false) rows;
        rows ← adm_exec (ToBackend backend) (select_like database "_migrate");
        drop_stale database backend (migrating database backend) rows
    end.

(** [Cleanup] *)
Definition Cleanup : AM unit :=
  s ← mget;
  miter (fun backend =>
           rows ← adm_exec (ToBackend backend) "show databases";
           miter (fun r => db ← cell r 0; cleanupHandler db backend) rows) (AllBackends (adWorld s)).
End admin.

(** ** XA *)
Section xa.
Context `{SV : Servers}.
Definition intervalToNow : Z := 10000.

(** [strconv.ParseInt(s, 10, 64)] with its error ignored: zero for a string that
    is no number, the nearest integer for one out of range. *)
Definition ParseInt_value (s : string) : Z :=
  match Atoi s with
  | Some n => n
  | None =>
      match s with
      | String "-" t => match nonempty_digits t with Some _ => - 2 ^ 63 | None => 0 end
      | String "+" t => match nonempty_digits t with Some _ => 2 ^ 63 - 1 | None => 0 end
      | _ => match nonempty_digits s with Some _ => 2 ^ 63 - 1 | None => 0 end
      end
  end.

(** [strings.SplitN(data, "-", 3)[1]]: the part between the first two dashes. *)
Definition xa_timestamp (data : string) : option string := Split "-" data !! 1%nat.

(** [AdminXA.Recover] *)
Definition xa_Recover : AM Rows := adm_exec ToOne "XA RECOVER".

(** The loop of [AdminXA.Commit] and [AdminXA.Rollback]: the first transaction
    that seems old enough. *)
Fixpoint xa_finish_rows (verb now : string) (rows : Rows) : AM Rows :=
  match rows with
  | [] => mret []
  | row :: rows =>
      data ← cell row 3;
      match xa_timestamp data with
      | None => mpanic
      | Some ts =>
          if intervalToNow <? swrap 64 (ParseInt_value now - ParseInt_value ts)
          then adm_exec ToAll (verb +:+ " '" +:+ data +:+ "'")
          else xa_finish_rows verb now rows
      end
  end.
Definition xa_Commit (now : string) : AM Rows := rows ← xa_Recover; xa_finish_rows "XA COMMIT" now rows.
Definition xa_Rollback (now : string) : AM Rows := rows ← xa_Recover; xa_finish_rows "XA ROLLBACK" now rows.

End xa.

(** ** Resharding *)

(** [IsSingleTable] *)
Definition IsSingleTable (r : Router) (db t : string) : res aderr bool :=
  cfg ← of_rt (TableConfigOf r db t); Ok (bool_decide (tcShardType cfg = "SINGLE")).

(** [CheckReshardDBTable] *)
Definition CheckReshardDBTable (db singleTable dstDB dstTable : string) : AM unit :=
  s ← mget;
  isSingle ← mlift (IsSingleTable (adRouter s) db singleTable);
  if (isSingle : bool) then
    x ← mtry (in_rt (checkDatabase dstDB));
    match x with
    | inr _ => mfail (AdNoDatabase dstDB)
    | inl _ => e ← in_rt (CheckTable dstDB dstTable); if (e : bool) then mfail (AdTableExists dstTable) else mret tt
    end
  else mfail (AdNotSingle singleTable).

(** [Reshard]: the progress and status of the shift it started. *)
Record ReshardSt := mkReshardSt { rsBar : bool; rsStatus : option aderr }.

(** [ReShardTable]: after the checks the shift runs; [shift] is its outcome and
    the state is the one after the shift has ended. *)
Definition ReShardTable (db singleTable dstDB dstTable : string) (shift : option aderr) : AM ReshardSt :=
  _ ← CheckReshardDBTable db singleTable dstDB dstTable;
  mret (mkReshardSt true shift).

(** [getShiftInfo]; a backend that is not there is a nil pointer. *)
Definition getShiftInfo `{R : MapRange} (db srcTable dstDB dstTable user endpoint peerAddress : string) (s : AdSt) : res aderr ShiftInfo :=
  cfg ← of_rt (TableConfigOf (adRouter s) db srcTable);
  match tcPartitions cfg with
  | [] => Panic
  | p :: _ =>
      match last (filter (fun c => bcName c = pcBackend p) (BackendConfigsClone (adWorld s))) with
      | None => Panic
      | Some src =>
          Ok (mkShiftInfo (bcAddress src) (bcUser src) (bcPassword src) db srcTable
                endpoint user (bcPassword src) dstDB dstTable
                false false true "mysqldump" 16 2048 10 ("http://" +:+ peerAddress))
      end
  end.
