(* ===== verification/AdminProps.v ===== *)
(** * What cleaning up may drop *)
From S2P Require Import Prelude GoStd Config Pool Xcontext Partition Compute Router Frm RouterProps Scatter ScatterProps Shift ShiftProps Admin.
Open Scope string_scope.
Open Scope list_scope.
Open Scope Z_scope.

#[export] Instance Target_eq_dec : EqDecision Target.
Proof. solve_decision. Defined.

Section props.
Context `{R : MapRange, SV : Servers}.
Variable (status : string -> ShiftStatus).

(** The tables listed for a suffix by some answer. *)
Definition listed (b database suffix tb : string) : Prop :=
  exists h rows r, ask h (ToBackend b) (select_like database suffix) = Some rows /\ r ∈ rows /\ r !! 0%nat = Some tb.

(** A table the router does not have; no table has the empty name. *)
Definition unknown (r : Router) (db tb : string) : Prop := table_at r db tb = None \/ tb = "".

(** What may be sent. *)
Inductive fair (r : Router) : Target * string -> Prop :=
| fair_show b : fair r (ToBackend b, "show databases")
| fair_like b db suffix : fair r (ToBackend b, select_like db suffix)
| fair_database b db : acl_IsSystemDB db = false -> rSchemas r !! db = None \/ db = "" -> fair r (ToBackend b, drop_database db)
| fair_cleanup b db tb : acl_IsSystemDB db = false -> unknown r db tb -> listed b db "_cleanup" tb -> fair r (ToBackend b, drop_table db tb)
| fair_migrate b db tb : acl_IsSystemDB db = false -> unknown r db tb -> listed b db "_migrate" tb -> migrating status db b tb = false ->
    fair r (ToBackend b, drop_table db tb).

(** From a state, a command keeps router and backends and sends only what [fair] allows. *)
Definition fair_at {A} (s : AdSt) (m : AM A) : Prop := forall x s', m s = (x, s') ->
  adRouter s' = adRouter s /\ adWorld s' = adWorld s /\ exists l, adSent s' = adSent s ++ l /\ Forall (fair (adRouter s)) l.

Lemma fair_same {A} s (m : AM A) x : m s = (x, s) -> fair_at s m.
Proof. intros H x' s' H'. rewrite H in H'. injection H' as <- <-. split_and!; try done. exists []. by rewrite app_nil_r. Qed.

Lemma fair_bind {A B} s (m : AM A) (k : A -> AM B) : fair_at s m -> (forall a s1, m s = (Ok a, s1) -> adRouter s1 = adRouter s -> fair_at s1 (k a)) ->
  fair_at s (m ≫= k).
Proof.
  intros Hm Hk x s' H. unfold mbind, M_bind in H. destruct (m s) as [[a|e|] s1] eqn:E; pose proof (Hm _ _ E) as (Hr & Hw & l & Hl & Hf).
  - apply (Hk a s1 eq_refl Hr) in H as (Hr2 & Hw2 & l2 & Hl2 & Hf2). split_and!; [congruence..|]. exists (l ++ l2).
    rewrite Hl2, Hl, app_assoc. split; [done|]. apply Forall_app. rewrite Hr in Hf2. done.
  - injection H as <- <-. split_and!; [done..|]. by exists l.
  - injection H as <- <-. split_and!; [done..|]. by exists l.
Qed.

Lemma fair_cell s r i : fair_at s (cell r i).
Proof. unfold cell. destruct (r !! i); by eapply fair_same. Qed.

Lemma cell_value s s1 r i v : cell r i s = (Ok v, s1) -> r !! i = Some v.
Proof. unfold cell. destruct (r !! i); intros H; [by injection H as -> _|done]. Qed.

Lemma fair_exec s t q : fair (adRouter s) (t, q) -> fair_at s (adm_exec t q).
Proof.
  intros Hf x s' H. unfold adm_exec in H. destruct (ask (adSent s) t q); injection H as <- <-; (split_and!; [done..|]);
    exists [(t, q)]; (split; [done|]); by constructor.
Qed.

Lemma fair_miter {A} (f : A -> AM unit) l s : (forall a s', a ∈ l -> fair_at s' (f a)) -> fair_at s (miter f l).
Proof.
  revert s. induction l as [|a l IH]; intros s Hf; simpl; [by eapply fair_same|]. apply fair_bind; [apply Hf; set_solver|].
  intros _ s1 _ _. apply IH. intros b s' Hb. apply Hf. set_solver.
Qed.

Lemma CheckTable_read db tb (s s1 : AdSt) x : db <> "" -> mtry (in_rt (CheckTable db tb)) s = (x, s1) ->
  s1 = s /\ forall y, x = Ok y -> is_known y = false -> unknown (adRouter s) db tb.
Proof.
  unfold mtry, in_rt, CheckTable, checkDatabase, mbind, M_bind, unknown, table_at. intros Hdb H. rewrite decide_False in H by done.
  destruct (rSchemas (adRouter s) !! db) as [sch|] eqn:Hs.
  - destruct (decide (tb = "")) as [Htb|Htb]; cbn in H; rewrite ?Hs in H; cbn in H; injection H as <- <-; (split; [by destruct s|]);
      intros y [= <-] Hk; [by right|]. left. cbn. simpl in Hk. apply bool_decide_eq_false in Hk. by apply eq_None_not_Some.
  - injection H as <- <-. split; [by destruct s|]. intros y _ _. by left.
Qed.

(** One loop over tables. *)
Lemma drop_stale_fair db b keep rows s : db <> "" ->
  (forall r tb s, r ∈ rows -> r !! 0%nat = Some tb -> unknown (adRouter s) db tb -> keep tb = false -> fair (adRouter s) (ToBackend b, drop_table db tb)) ->
  fair_at s (drop_stale db b keep rows).
Proof.
  intros Hdb. revert s. induction rows as [|r rows IH]; intros s Hok; simpl; [by eapply fair_same|].
  apply fair_bind; [apply fair_cell|]. intros tb s1 Hcell _. apply cell_value in Hcell as Hr.
  destruct (mtry (in_rt (CheckTable db tb)) s1) as [y s2] eqn:Hc. pose proof Hc as Hc'. apply CheckTable_read in Hc' as [-> Hk]; [|done].
  apply fair_bind; [by eapply fair_same|]. intros x s3 Hx _. rewrite Hc in Hx. injection Hx as -> <-.
  apply fair_bind.
  - destruct (is_known x || keep tb) eqn:E; [by eapply fair_same|]. apply orb_false_iff in E as [E1 E2]. apply fair_exec.
    apply (Hok r tb s1); [set_solver|done|by eapply Hk|done].
  - intros _ s4 _ _. apply IH. intros r' tb' s' Hin. apply Hok. set_solver.
Qed.

Lemma adm_exec_answer s t q rows s1 : adm_exec t q s = (Ok rows, s1) -> exists h, ask h t q = Some rows.
Proof. unfold adm_exec. intros H. exists (adSent s). destruct (ask (adSent s) t q); by simplify_eq. Qed.

Lemma cleanupHandler_fair db b s : fair_at s (cleanupHandler status db b).
Proof.
  unfold cleanupHandler. destruct (acl_IsSystemDB db) eqn:Hsys; [by eapply fair_same|].
  assert (exists x, mtry (in_rt (checkDatabase db)) s = (Ok x, s) /\
    match x with inr _ => rSchemas (adRouter s) !! db = None \/ db = "" | inl _ => db <> "" end) as (x & Hx & Hdb).
  { unfold mtry, in_rt, checkDatabase. case_decide; [|destruct (rSchemas (adRouter s) !! db) eqn:E];
      eexists; (split; [cbn; by destruct s|]); cbn; auto. }
  apply fair_bind; [by eapply fair_same|]. intros x' s1 Hx' _. rewrite Hx in Hx'. injection Hx' as <- <-. destruct x as [u|e].
  - apply fair_bind; [apply fair_exec; constructor|]. intros rows s2 Hr2 _. apply adm_exec_answer in Hr2 as [h2 Hr2].
    apply fair_bind; [|intros _ s3 _ _; apply fair_bind; [apply fair_exec; constructor|]; intros rows' s4 Hr4 _; apply adm_exec_answer in Hr4 as [h4 Hr4]].
    + apply drop_stale_fair; [done|]. intros r tb s' Hin Htb Hun _. apply fair_cleanup; [done|done|]. by exists h2, rows, r.
    + apply drop_stale_fair; [done|]. intros r tb s' Hin Htb Hun Hm. apply fair_migrate; [done|done| |done]. by exists h4, rows', r.
  - apply fair_bind; [apply fair_exec; by constructor|]. intros rows s2 _ _. by eapply fair_same.
Qed.

Lemma Cleanup_fair s : fair_at s (Cleanup status).
Proof.
  unfold Cleanup. apply fair_bind; [by eapply fair_same|]. intros s0 s1 [= <- <-] _. apply fair_miter. intros b s2 _.
  apply fair_bind; [apply fair_exec; constructor|]. intros rows s3 _ _. apply fair_miter. intros r s4 _.
  apply fair_bind; [apply fair_cell|]. intros db s5 _ _. apply cleanupHandler_fair.
Qed.
End props.

(** C25: Whatever the servers answer, in any state of the shift manager its
    clients can bring about, cleaning up changes neither router nor backends, and
    a statement it sends is a query, or drops a database the router does not
    know, or a table the router does not know that was listed as left over from
    a cleanup, or from a migration no client is running to this backend. *)
Theorem cleanup_safe `{R : MapRange, SV : Servers} migs acts m s x s' : mruns migs (minit migs) acts m ->
  Cleanup (fun k => GetStatus k (msMgr m)) s = (x, s') ->
  adRouter s' = adRouter s /\ adWorld s' = adWorld s /\
  exists l, adSent s' = adSent s ++ l /\ Forall (fair (fun k => GetStatus k (msMgr m)) (adRouter s)) l /\
  forall b db tb, migrating (fun k => GetStatus k (msMgr m)) db b tb = false ->
    forall i g p, migs !! i = Some g -> msPh m !! i = Some p -> mgKey g = shift_key db (TrimSuffix tb "_migrate") b -> active p = false.
Proof.
  intros Hm Hc. destruct (Cleanup_fair _ _ _ _ Hc) as (Hr & Hw & l & Hl & Hf). split_and!; [done..|]. exists l. split_and!; [done..|].
  intros b db tb Hmig i g p Hg Hp Hkey. destruct (active p) eqn:Ha; [|done]. exfalso.
  pose proof (mruns_inv _ _ _ _ (minit_inv migs) Hm) as Hi. unfold migrating, GetStatus in Hmig. rewrite <- Hkey in Hmig.
  by rewrite (i_act _ _ Hi _ _ _ Hg Hp Ha) in Hmig.
Qed.

(** ** A migration that runs and one that is over *)
#[local] Instance stale_answer : Servers := {|
  ask h t q :=
    if decide (q = "show databases") then Some [["mysql"]; ["db"]; ["gone"]]
    else if decide (q = select_like "db" "_migrate") then Some [["t_0001_migrate"]; ["t_0002_migrate"]] else Some [] |}.
Definition one_mig : list Mig := [mkMig (shift_key "db" "t_0001" "b1") ShiftTypeRebalance false].
Definition one_started : MSt := default (minit []) (mtake one_mig [MaStart 0 true] (minit one_mig)).
Definition ad_start : AdSt := mkAdSt ex_router (ex_scatter ∅) [].
Lemma cleanup_safe_witness : mruns one_mig (minit one_mig) [MaStart 0 true] one_started /\
  exists l, adSent (snd (Cleanup (fun k => GetStatus k (msMgr one_started)) ad_start)) = l /\
    (((ToBackend "b1", drop_table "db" "t_0002_migrate") : Target * string) ∈ l) /\
    (((ToBackend "b1", drop_table "db" "t_0001_migrate") : Target * string) ∉ l) /\
    Forall (fair (fun k => GetStatus k (msMgr one_started)) ex_router) l.
Proof.
  assert (mruns one_mig (minit one_mig) [MaStart 0 true] one_started) as Hr by (apply mtake_runs; vm_compute; reflexivity).
  split; [exact Hr|].
  destruct (cleanup_safe one_mig [MaStart 0 true] one_started ad_start (fst (Cleanup (fun k => GetStatus k (msMgr one_started)) ad_start))
    (snd (Cleanup (fun k => GetStatus k (msMgr one_started)) ad_start)) Hr) as (_ & _ & l & Hl & Hf & _); [vm_compute; reflexivity|].
  exists l. split; [exact Hl|]. assert (l = adSent (snd (Cleanup (fun k => GetStatus k (msMgr one_started)) ad_start))) as El by (rewrite Hl; reflexivity).
  split; [rewrite El; apply (bool_decide_unpack _); vm_compute; exact I|]. split; [rewrite El; apply (bool_decide_unpack _); vm_compute; exact I|exact Hf].
Defined.

(** ** The age of a transaction *)

(** The ages are differences of decimal time stamps: a transaction prepared a
    second before midnight is taken for more than an hour old a second later. *)
Definition young_xid : string := "RXID-20200101235959-7".
#[local] Instance recover_answer : Servers := {|
  ask h t q := if decide (q = "XA RECOVER") then Some [["1"; "21"; "0"; young_xid]] else Some [] |}.
Theorem xa_hour_is_wrong (s : AdSt) :
  adSent (snd (xa_Commit "20200102000000" s)) = adSent s ++ [(ToOne, "XA RECOVER"); (ToAll, "XA COMMIT 'RXID-20200101235959-7'")].
Proof.
  transitivity ((adSent s ++ [(ToOne, "XA RECOVER")]) ++ [(ToAll, "XA COMMIT 'RXID-20200101235959-7'")]); [vm_compute; reflexivity|].
  by rewrite <- app_assoc.
Qed.

(** A transaction id without a dash panics. *)
Theorem xa_foreign_panics verb now row rows s : (forall d, row !! 3%nat = Some d -> xa_timestamp d = None) -> fst (xa_finish_rows verb now (row :: rows) s) = Panic.
Proof.
  intros H. simpl. unfold cell, mbind, M_bind. destruct (row !! 3%nat) as [d|]; [|done]. cbn. by rewrite (H d eq_refl).
Qed.
