(* ===== verification/Rebalance.v ===== *)
(** * Rebalancing (src/proxy/admin_rebalance.go, src/ctl/v1/shard.go)

    The advice takes the backends with the most and the least data and a hash
    partition of the first whose move evens them out; the migration hands a
    shift to the shift manager.  Sizes are whole megabytes, which the queries
    round to and a float64 holds exactly. *)
From S2P Require Import Prelude GoStd Config Pool Xcontext Partition Compute Router Frm Scatter Shift Admin.
Open Scope string_scope.
Open Scope list_scope.
Open Scope Z_scope.

(** [SubTableToTable]: the name without its suffix [_dddd]. *)
Definition SubTableToTable (from : string) : option string :=
  let n := (String.length from - 5)%nat in
  match String.substring n 5 from with
  | String "_" d =>
      if decide ((5 <= String.length from)%nat /\ String.length d = 4%nat /\ is_Some (nonempty_digits d)) then Some (String.substring 0 n from) else None
  | _ => None
  end.

(** [BackendSize] *)
Record BackendSize := mkBackendSize { bzName : string; bzAddress : string; bzSize : Z; bzUser : string; bzPasswd : string }.
Definition no_size : BackendSize := mkBackendSize "" "" 0 "" "".

(** [strconv.ParseFloat] of a whole number. *)
Definition ParseSize (s : string) : option Z := Atoi s.

Definition size_query : string :=
  "select round((sum(data_length) + sum(index_length)) / 1024/ 1024, 0)  as SizeInMB from information_schema.tables".
Definition tables_query : string :=
  "SELECT table_schema, table_name, ROUND((SUM(data_length+index_length)) / 1024/ 1024, 0) AS sizeMB FROM information_schema.TABLES GROUP BY table_name HAVING SUM(data_length + index_length)>10485760 ORDER BY (data_length + index_length) DESC".

(** The comparison with the largest and the smallest so far. *)
Definition update_sizes (backend : string) (datasize : Z) (mm : BackendSize * BackendSize) : BackendSize * BackendSize :=
  let (max, min) := mm in
  let max := if bzSize max <? datasize then mkBackendSize backend (bzAddress max) datasize (bzUser max) (bzPasswd max) else max in
  let min := if bzSize min =? 0 then mkBackendSize backend (bzAddress min) datasize (bzUser min) (bzPasswd min) else min in
  let min := if datasize <? bzSize min then mkBackendSize backend (bzAddress min) datasize (bzUser min) (bzPasswd min) else min in
  (max, min).

(** The address and the credentials of the two backends. *)
Definition fill_access (mm : BackendSize * BackendSize) (c : BackendConfig) : BackendSize * BackendSize :=
  let (max, min) := mm in
  if decide (bcName c = bzName max) then (mkBackendSize (bzName max) (bcAddress c) (bzSize max) (bcUser c) (bcPassword c), min)
  else if decide (bcName c = bzName min) then (max, mkBackendSize (bzName min) (bcAddress c) (bzSize min) (bcUser c) (bcPassword c))
  else (max, min).

(** The advice: the two backends, and the table with its database and size
    where one was found. *)
Record Advice := mkAdvice { avMax : BackendSize; avMin : BackendSize; avDatabase : string; avTable : string; avSize : Z }.

Section rebalance.
Context `{R : MapRange, J : JumpHash, SV : Servers}.

(** The first loop of [ShardBalanceAdvice]. *)
Fixpoint backend_sizes (backends : list string) (mm : BackendSize * BackendSize) : AM (BackendSize * BackendSize) :=
  match backends with
  | [] => mret mm
  | b :: bs =>
      rows ← adm_exec (ToBackend b) size_query;
      match rows with
      | [] => backend_sizes bs mm
      | r :: _ =>
          valStr ← cell r 0;
          match ParseSize valStr with
          | None => mfail AdParse
          | Some datasize => backend_sizes bs (update_sizes b datasize mm)
          end
      end
  end.

(** Whether a table is a partition of a hash table; an error counts as no. *)
Definition is_hash_part (r : Router) (db tbl : string) : res aderr bool :=
  match SubTableToTable tbl with
  | Some t => match PartitionType r db t with Ok m => Ok (IsPartitionHash m) | Err _ => Ok false | Panic => Panic end
  | None => Ok false
  end.

(** The second loop: the first table that is small enough. *)
Fixpoint best_table (max min : BackendSize) (rows : Rows) : AM Advice :=
  match rows with
  | [] => mret (mkAdvice max min "" "" 0)
  | row :: rows =>
      db ← cell row 0;
      tbl ← cell row 1;
      valStr ← cell row 2;
      match ParseSize valStr with
      | None => mfail AdParse
      | Some tblSize =>
          if bzSize min + tblSize <? bzSize max - tblSize then
            s ← mget;
            hash ← mlift (is_hash_part (adRouter s) db tbl);
            if (hash : bool) then mret (mkAdvice max min db tbl tblSize) else best_table max min rows
          else best_table max min rows
      end
  end.

(** [ShardBalanceAdvice] *)
Definition ShardBalanceAdvice : AM Advice :=
  s ← mget;
  mm ← backend_sizes (Backends (adWorld s)) (no_size, no_size);
  let (max, min) := mm : BackendSize * BackendSize in
  if bzSize max - bzSize min <? 100 then mret (mkAdvice max min "" "" 0)
  else
    let '(max, min) := foldl fill_access (max, min) (BackendConfigsClone (adWorld s)) in
    rows ← adm_exec (ToBackend (bzName max)) tables_query;
    best_table max min rows.

(** The backends of two addresses. *)
Definition find_backends (w : World) (from to : string) : string * string :=
  foldl (fun (ft : string * string) c => if decide (bcAddress c = from) then (bcName c, snd ft) else if decide (bcAddress c = to) then (fst ft, bcName c) else ft)
    ("", "") (BackendConfigsClone w).

(** The checks of [RebalanceMigrate] and [shardMigrateHandler], the configuration
    of the shift and its key. *)
Definition migrate_request (readOnly : bool) (p : ShiftInfo) (s : AdSt) : res aderr (ShiftConfig * string) :=
  if readOnly then Err AdReadOnly
  else if existsb (fun v => bool_decide (v = "")) [shFromUser p; shFromDatabase p; shFromTable p; shToUser p; shToDatabase p; shToTable p] then Err AdEmpty
  else
    let (fromBackend, toBackend) := find_backends (adWorld s) (shFrom p) (shTo p) in
    if decide (fromBackend = "" \/ toBackend = "") then Err AdNoBackend
    else match NewShiftInstance p ShiftTypeRebalance with
         | Ok c => Ok (c, shift_key (shToDatabase p) (shToTable p) toBackend)
         | Err e => Err (AdShift e)
         | Panic => Panic
         end.

(** [RebalanceMigrate], up to the calls of the shift manager. *)
Definition rebalance_info (a : Advice) (peerAddress : string) : ShiftInfo :=
  mkShiftInfo (bzAddress (avMax a)) (bzUser (avMax a)) (bzPasswd (avMax a)) (avDatabase a) (avTable a)
    (bzAddress (avMin a)) (bzUser (avMin a)) (bzPasswd (avMin a)) (avDatabase a) (avTable a)
    false true true "mysqldump" 16 2048 10 ("http://" +:+ peerAddress).
Definition Rebalance (readOnly : bool) (peerAddress : string) : AM (ShiftConfig * string) :=
  a ← ShardBalanceAdvice;
  s ← mget;
  mlift (migrate_request readOnly (rebalance_info a peerAddress) s).

(** The calls of the shift manager that follow; [shift] is the new handler,
    [started] and [ok] the outcomes of its [Start] and [WaitFinish]. *)
Definition migrate_run (key : string) (shift : nat) (started ok : bool) (m : ShiftManager) : option (res sherr unit * ShiftManager) :=
  match StartShiftInstance key shift ShiftTypeRebalance started m with
  | Some (Ok _, m) =>
      match WaitInstanceFinish key m with
      | Some (Ok instance, m) =>
          match after_wait key instance ok (set_running (smRunning m ∖ {[alShift instance]}) m) with
          | Some (_, m) => Some (if ok then Ok tt else Err ShFailed, m)
          | None => None
          end
      | Some (Err e, m) => Some (Err e, m)
      | Some (Panic, m) => Some (Panic, m)
      | None => None
      end
  | x => x
  end.

(** [shardBalanceAdviceHandler]: [None] where there is no table to move. *)
Definition shardBalanceAdvice : AM (option Advice) :=
  a ← ShardBalanceAdvice; mret (if decide (avDatabase a = "" \/ avTable a = "") then None else Some a).

(** [shardMigrateHandler], up to the calls of the shift manager; [decode] is
    the JSON payload, which sets some of the parameters over the defaults. *)
Definition migrate_defaults (peerAddress : string) : ShiftInfo :=
  mkShiftInfo "" "" "" "" "" "" "" "" "" "" false false true "mysqldump" 16 2048 10 ("http://" +:+ peerAddress).
Definition shardMigrate (decode : ShiftInfo -> option ShiftInfo) (readOnly : bool) (peerAddress : string) : AM (ShiftConfig * string) :=
  match decode (migrate_defaults peerAddress) with
  | None => mfail AdParse
  | Some p => s ← mget; mlift (migrate_request readOnly p s)
  end.

(** [shardRuleShiftHandler] *)
Definition sysDBs : list string := ["information_schema"; "mysql"; "performance_schema"; "sys"].
Definition shardRuleShift (database table fromAddress toAddress : string) : AM unit :=
  if decide (database = "" \/ table = "") then mfail AdEmpty
  else if decide (ToLower database ∈ sysDBs) then mfail AdSystem
  else
    s ← mget;
    let (fromBackend, toBackend) := find_backends (adWorld s) fromAddress toAddress in
    if decide (fromBackend = "" \/ toBackend = "") then mfail AdNoBackend
    else in_rt (PartitionRuleShift fromBackend toBackend database table).

(** [shardReLoadHandler] *)
Definition shardReLoad : AM unit := in_rt ReLoad.

(** [globalsHandler] *)
Definition globals (r : Router) : list (string * list string) :=
  filter (fun kv => snd kv <> [])
    ((fun kv : string * Schema => (sDB (snd kv),
        omap (fun tv : string * Table => match rHeap r !! tConf (snd tv) with
                                         | Some c => if decide (tcShardType c = "GLOBAL") then Some (tName (snd tv)) else None
                                         | None => None
                                         end) (map_range (sTables (snd kv))))) <$> map_range (rSchemas r)).
End rebalance.
