(* ===== verification/RebalanceProps.v ===== *)
(** * The advice evens out the backends *)
From S2P Require Import Prelude GoStd Config Pool Xcontext Partition Compute Router Frm RouterProps Scatter ScatterProps Shift Admin Rebalance.
Open Scope string_scope.
Open Scope list_scope.
Open Scope Z_scope.

Section props.
Context `{R : MapRange, J : JumpHash, SV : Servers}.

(** A size some answer of a backend had. *)
Definition size_read (b : string) (z : Z) : Prop :=
  exists h rows r v, ask h (ToBackend b) size_query = Some (r :: rows) /\ r !! 0%nat = Some v /\ ParseSize v = Some z.
Definition sizes_of (l : list (string * Z)) (mm : BackendSize * BackendSize) : BackendSize * BackendSize :=
  foldl (fun mm bz => update_sizes (fst bz) (snd bz) mm) mm l.

(** Every backend gives a row. *)
Definition sized : Prop := forall h b rows, ask h (ToBackend b) size_query = Some rows -> rows <> [].

Lemma cell_read s s1 r i v : cell r i s = (Ok v, s1) -> r !! i = Some v /\ s1 = s.
Proof. unfold cell. destruct (r !! i); intros H; [by injection H as -> ->|done]. Qed.

Lemma backend_sizes_spec bs mm s mm' s' : sized -> backend_sizes bs mm s = (Ok mm', s') ->
  exists l, fst <$> l = bs /\ Forall (fun bz => size_read (fst bz) (snd bz)) l /\ mm' = sizes_of l mm /\ adRouter s' = adRouter s.
Proof.
  intros Hsz. revert mm s. induction bs as [|b bs IH]; intros mm s H; cbn [backend_sizes] in H.
  - injection H as <- <-. by exists [].
  - apply M_bind_inv_Ok in H as (rows & s1 & He & H). unfold adm_exec in He.
    destruct (ask (adSent s) (ToBackend b) size_query) as [rs|] eqn:Ha; [|done]. injection He as <- <-.
    destruct rs as [|r rs]; [by destruct (Hsz _ _ _ Ha)|]. apply M_bind_inv_Ok in H as (v & s2 & Hc & H). apply cell_read in Hc as [Hv ->].
    destruct (ParseSize v) as [z|] eqn:Hp; [|done]. apply IH in H as (l & Hl & Hf & -> & Hr). exists ((b, z) :: l).
    split_and!; [by rewrite fmap_cons, Hl| |done|done]. constructor; [|done]. by exists (adSent s), rs, r, v.
Qed.

(** The extremes of positive sizes. *)
Definition extremes (l : list (string * Z)) (mm : BackendSize * BackendSize) : Prop :=
  (bzName (fst mm), bzSize (fst mm)) ∈ l /\ (bzName (snd mm), bzSize (snd mm)) ∈ l /\
  Forall (fun bz => bzSize (snd mm) <= snd bz <= bzSize (fst mm)) l.

Lemma update_extremes l b z mx mn : extremes l (mx, mn) -> 0 < bzSize mn -> extremes (l ++ [(b, z)]) (update_sizes b z (mx, mn)).
Proof.
  intros (Hmax & Hmin & Hall) Hmn. simpl in *. pose proof (proj1 (Forall_forall _ _) Hall _ Hmin) as Hle. simpl in Hle.
  unfold update_sizes. destruct (Z.eqb_spec (bzSize mn) 0); [lia|]. unfold extremes. rewrite Forall_app, Forall_cons.
  assert (forall lo hi, lo <= bzSize mn -> bzSize mx <= hi -> Forall (fun bz : string * Z => lo <= snd bz <= hi) l) as Hw.
  { intros lo hi H1 H2. eapply Forall_impl; [exact Hall|]. simpl. lia. }
  destruct (Z.ltb_spec (bzSize mx) z), (Z.ltb_spec z (bzSize mn)); simpl; (split_and!; [set_solver|set_solver|apply Hw; lia|lia|lia|constructor]).
Qed.

Lemma sizes_extremes l : Forall (fun bz : string * Z => 0 < snd bz) l -> l <> [] -> extremes l (sizes_of l (no_size, no_size)).
Proof.
  intros Hpos. induction l as [|[b z] l IH] using rev_ind; [done|]. intros _. apply Forall_app in Hpos as [Hpos Hz].
  apply Forall_cons in Hz as [Hz _]. simpl in Hz. unfold sizes_of. rewrite foldl_app. fold (sizes_of l (no_size, no_size)). cbn [foldl fst snd].
  destruct (decide (l = [])) as [->|Hne].
  - cbn. destruct (Z.ltb_spec 0 z); [|lia]. cbn. rewrite Z.ltb_irrefl. unfold extremes. cbn. split_and!; [set_solver..|]. constructor; [simpl; lia|constructor].
  - specialize (IH Hpos Hne). destruct (sizes_of l (no_size, no_size)) as [mx mn]. apply update_extremes; [done|].
    exact (proj1 (Forall_forall _ _) Hpos _ (proj1 (proj2 IH))).
Qed.

(** The credentials do not touch names and sizes. *)
Lemma fill_access_same cs mm : let mm' := foldl fill_access mm cs in
  bzName (fst mm') = bzName (fst mm) /\ bzSize (fst mm') = bzSize (fst mm) /\ bzName (snd mm') = bzName (snd mm) /\ bzSize (snd mm') = bzSize (snd mm).
Proof.
  revert mm. induction cs as [|c cs IH]; intros [mx mn]; [done|]. simpl. specialize (IH (fill_access (mx, mn) c)). simpl in IH.
  destruct IH as (-> & -> & -> & ->). unfold fill_access. by repeat case_decide.
Qed.

Lemma best_table_spec max min rows s a s' : best_table max min rows s = (Ok a, s') ->
  avMax a = max /\ avMin a = min /\
  ((avDatabase a = "" /\ avTable a = "") \/
   (bzSize min + avSize a < bzSize max - avSize a /\ is_hash_part (adRouter s) (avDatabase a) (avTable a) = Ok true)).
Proof.
  induction rows as [|row rows IH]; intros H; cbn [best_table] in H; [injection H as <- <-; split_and!; auto|].
  apply M_bind_inv_Ok in H as (db & s1 & Hc & H). apply cell_read in Hc as [_ ->].
  apply M_bind_inv_Ok in H as (tbl & s2 & Hc & H). apply cell_read in Hc as [_ ->].
  apply M_bind_inv_Ok in H as (v & s3 & Hc & H). apply cell_read in Hc as [_ ->].
  destruct (ParseSize v) as [z|]; [|done]. destruct (Z.ltb_spec (bzSize min + z) (bzSize max - z)); [|by apply IH].
  apply M_bind_inv_Ok in H as (s4 & s5 & Hg & H). injection Hg as <- <-.
  apply M_bind_inv_Ok in H as (h & s6 & Hg & H). unfold mlift in Hg. injection Hg as Hh <-.
  destruct h; [injection H as <- <-; split_and!; [done..|right; done]|by apply IH].
Qed.
End props.

(** C32: An advice that names a table has looked at the size of every backend,
    each of which answered with a row. When no backend has the size zero it
    moves data from a backend with the most data to one with the least (an
    empty one may be passed over, [empty_backend_skipped]). Always the two are
    at least 100 apart in the megabytes of the query, the threshold in the
    code; the table is a partition of a hash table, and when its size is
    positive the source stays the larger one and the difference shrinks. *)
Theorem advice_evens `{R : MapRange, J : JumpHash, SV : Servers} s a s' : sized -> ShardBalanceAdvice s = (Ok a, s') -> avTable a <> "" ->
  exists sizes, fst <$> sizes = Backends (adWorld s) /\ Forall (fun bz => size_read (fst bz) (snd bz)) sizes /\
  (Forall (fun bz => 0 < snd bz) sizes ->
     (bzName (avMax a), bzSize (avMax a)) ∈ sizes /\ (bzName (avMin a), bzSize (avMin a)) ∈ sizes /\
     Forall (fun bz => bzSize (avMin a) <= snd bz <= bzSize (avMax a)) sizes) /\
  100 <= bzSize (avMax a) - bzSize (avMin a) /\ is_hash_part (adRouter s) (avDatabase a) (avTable a) = Ok true /\
  (0 < avSize a -> 0 < (bzSize (avMax a) - avSize a) - (bzSize (avMin a) + avSize a) < bzSize (avMax a) - bzSize (avMin a)).
Proof.
  intros Hsz H Ht. unfold ShardBalanceAdvice in H. apply M_bind_inv_Ok in H as (s0 & s1 & Hg & H). injection Hg as <- <-.
  apply M_bind_inv_Ok in H as ([mx mn] & s2 & Hb & H). apply backend_sizes_spec in Hb as (l & Hl & Hf & Hmm & Hr); [|done].
  destruct (Z.ltb_spec (bzSize mx - bzSize mn) 100) as [Hlt|Hge]; [injection H as <- <-; done|].
  pose proof (fill_access_same (BackendConfigsClone (adWorld s)) (mx, mn)) as Hfill. destruct (foldl fill_access (mx, mn) (BackendConfigsClone (adWorld s))) as [mx' mn'].
  simpl in Hfill. destruct Hfill as (Hn1 & Hs1 & Hn2 & Hs2).
  apply M_bind_inv_Ok in H as (rows & s3 & He & H). unfold adm_exec in He. destruct (ask _ _ _); [|done]. injection He as <- <-.
  apply best_table_spec in H as (-> & -> & [[_ Hno]|[Hlt Hh]]); [done|]. cbn in Hh. rewrite Hr in Hh. exists l. split_and!; [done..| |lia|done|lia].
  intros Hpos. destruct l as [|x l]; [unfold sizes_of in Hmm; simpl in Hmm; injection Hmm as -> ->; cbn in Hge; lia|].
  pose proof (sizes_extremes _ Hpos ltac:(done)) as He. rewrite <- Hmm in He. unfold extremes in He. simpl in He. by rewrite Hn1, Hs1, Hn2, Hs2.
Qed.

(** A backend of size zero counts as none seen yet: it is passed over as
    target for a fuller one. *)
Theorem empty_backend_skipped :
  bzName (snd (sizes_of [("new", 0); ("b2", 150); ("b3", 900)] (no_size, no_size))) = "b2".
Proof. vm_compute. reflexivity. Qed.

(** A migration that gets its place runs and leaves its outcome and nothing
    else behind. *)
Lemma migrate_run_done key shift ok m : smMu m = false -> smAlived m !! key = None -> (size (smAlived m) < maxShiftInstancesAlived)%nat ->
  exists m', migrate_run key shift true ok m = Some (if ok then Ok tt else Err ShFailed, m') /\
    smMu m' = false /\ smAlived m' = smAlived m /\ smRunning m' = smRunning m ∖ {[shift]} /\
    GetStatus key m' = if ok then ShiftStatusSuccess else ShiftStatusFail.
Proof.
  intros Hmu Hk Hs. unfold migrate_run, StartShiftInstance, locked. rewrite Hmu. unfold mbind, M_bind, mget. rewrite Hk. cbn -[decide].
  unfold addAnAlivedInstance, mbind, M_bind, mget. cbn [smAlived set_running]. rewrite decide_True by exact Hs. cbn. unfold WaitInstanceFinish, locked. cbn. rewrite Hmu. unfold mbind, M_bind, mget. cbn. rewrite lookup_insert_eq.
  cbn. unfold after_wait, updateFinishedInstance, locked. cbn. rewrite Hmu. cbn. eexists. split; [done|]. cbn. split_and!; [done| |set_solver|].
  - by rewrite delete_insert_id.
  - unfold GetStatus. cbn. rewrite delete_insert_id by done. by rewrite Hk, lookup_insert_eq.
Qed.

(** ** Two backends *)
#[local] Existing Instance mod_jump.
#[local] Instance sized_answer : Servers := {|
  ask h t q :=
    if decide (q = size_query) then Some [[match t with ToBackend b => if decide (b = "b1") then "900" else "100" | _ => "1" end]]
    else if decide (q = tables_query) then Some [["db"; "u"; "10"]; ["db"; "t_0000"; "500"]; ["db"; "t_0001"; "200"]] else Some [] |}.
Definition rb_start : AdSt := mkAdSt ex_router (ex_scatter ∅) [].
Definition rb_advice : Advice :=
  mkAdvice (mkBackendSize "b1" "a:1" 900 "u" "p") (mkBackendSize "b2" "a:2" 100 "u" "p") "db" "t_0001" 200.

Lemma advice_evens_witness : sized /\ ShardBalanceAdvice rb_start = (Ok rb_advice, snd (ShardBalanceAdvice rb_start)) /\
  (exists sizes, fst <$> sizes = ["b1"; "b2"] /\ Forall (fun bz => size_read (fst bz) (snd bz)) sizes).
Proof.
  assert (sized) as Hsz.
  { intros h b rows. cbn [ask sized_answer]. rewrite decide_True by reflexivity. intros E. injection E as <-. discriminate. }
  assert (ShardBalanceAdvice rb_start = (Ok rb_advice, snd (ShardBalanceAdvice rb_start))) as Hrun by (vm_compute; reflexivity).
  split; [exact Hsz|]. split; [exact Hrun|].
  destruct (advice_evens rb_start rb_advice (snd (ShardBalanceAdvice rb_start)) Hsz Hrun) as (sizes & H1 & H2 & _); [discriminate|].
  exists sizes. split; [rewrite H1; vm_compute; reflexivity|exact H2].
Defined.
