(* ===== verification/Attach.v ===== *)
(** * Attaching and detaching a backend (src/proxy/admin_attach.go)

    A MySQL server with tables of its own is attached: its tables become single
    tables of the router, its databases are created on all backends.  Each table
    is first created in a scratch database to see that the backends take it. *)
From S2P Require Import Prelude GoStd Config Pool Xcontext Partition Compute Router Frm Scatter Admin.
Open Scope string_scope.
Open Scope list_scope.
Open Scope Z_scope.

Definition AttachDatabaseCheckTable : string := "attach_database_check_table_valid".
Definition AttachParamsCount : nat := 3.

(** [attachParams] *)
Record attachParams := mkAttachParams { apName : string; apAddress : string; apUser : string; apPassword : string; apMaxConnections : Z }.

(** The local variables the deferred function reads: the databases and the
    tables made so far. *)
Record AtSt := mkAtSt { atS : AdSt; atDBs : gmap string unit; atTabs : gmap string (list string) }.
Abbreviation TTM := (M AtSt aderr).
Definition at_ {A} (m : AM A) : TTM A := fun s => let (x, a) := m (atS s) in (x, mkAtSt a (atDBs s) (atTabs s)).

Section attach.
Context `{R : MapRange, J : JumpHash, SV : Servers}.

(** [dropAttachCheckDatabase], [createAttachCheckDatabase]; their errors are ignored. *)
Definition dropAttachCheckDatabase : AM unit :=
  _ ← mtry (adm_exec ToAll ("drop database if exists `" +:+ AttachDatabaseCheckTable +:+ "`")); mret tt.
Definition createAttachCheckDatabase : AM unit :=
  _ ← mtry (adm_exec ToAll ("create database if not exists `" +:+ AttachDatabaseCheckTable +:+ "`")); mret tt.

(** [checkTableValid] *)
Definition checkTableValid (name db table : string) : AM unit :=
  rows ← adm_exec (ToBackend name) ("show create table `" +:+ db +:+ "`.`" +:+ table +:+ "`");
  match rows with
  | [] => mret tt
  | r :: _ =>
      createTableSQL ← cell r 1;
      let sql := Replace1 createTableSQL ("CREATE TABLE `" +:+ table +:+ "`")
                   ("CREATE TABLE `" +:+ AttachDatabaseCheckTable +:+ "`.`" +:+ table +:+ "`") in
      _ ← adm_exec ToAll sql; mret tt
  end.

(** The tables of one database of the attached backend. *)
Fixpoint attach_tables (name db : string) (rows : Rows) (tables : list string) : TTM unit :=
  match rows with
  | [] => mret tt
  | r :: rows =>
      table ← at_ (cell r 0);
      _ ← at_ (checkTableValid name db table);
      _ ← at_ (in_rt (CreateNonPartTable db table TableTypeSingle [name] None));
      let tables := tables ++ [table] in
      _ ← mmodify (fun s => mkAtSt (atS s) (atDBs s) (<[db := tables]> (atTabs s)));
      attach_tables name db rows tables
  end.

(** One database; [known] are the databases the router had at the start. *)
Definition attach_database (name : string) (known : gmap string (list string)) (r : list string) : TTM unit :=
  db ← at_ (cell r 0);
  if acl_IsSystemDB db then mret tt
  else
    _ ← (match known !! db with
         | Some _ => mret tt
         | None =>
             _ ← at_ (adm_exec ToAll ("create database IF NOT EXISTS " +:+ db));
             _ ← at_ (in_rt (CreateDatabase db));
             mmodify (fun s => mkAtSt (atS s) (<[db := tt]> (atDBs s)) (atTabs s))
         end);
    rows ← at_ (adm_exec (ToBackend name) ("show tables from " +:+ db));
    _ ← at_ createAttachCheckDatabase;
    _ ← attach_tables name db rows [];
    at_ dropAttachCheckDatabase.

(** The body of [addAttachHandler] after [scatter.Add]. *)
Definition attach_body (name : string) : TTM unit :=
  rows ← at_ (adm_exec (ToBackend name) "show databases");
  s ← mget;
  let tblList := Tables (adRouter (atS s)) in
  miter (attach_database name tblList) rows.

(** The deferred function after an error. *)
Definition attach_undo (conf : BackendConfig) : TTM unit :=
  _ ← at_ (mtry (in_bk (scatter_Remove conf)));
  s ← mget;
  _ ← miter (fun kv : string * list string =>
               match atDBs s !! fst kv with
               | Some _ => mret tt
               | None => miter (fun t => _ ← at_ (mtry (in_rt (DropTable (fst kv) t))); mret tt) (snd kv)
               end) (map_range (atTabs s));
  miter (fun kv : string * unit => _ ← at_ (mtry (in_rt (DropDatabase (fst kv)))); mret tt) (map_range (atDBs s)).

Definition attach_conf (p : attachParams) : BackendConfig :=
  mkBackendConfig (apName p) (apAddress p) "" (apUser p) (apPassword p) "" "utf8" (apMaxConnections p) AttachBackend.

(** The deferred function otherwise. *)
Definition attach_finish : AM unit := _ ← in_bk scatter_FlushConfig; dropAttachCheckDatabase.

(** [addAttachHandler]; the deferred function also runs when the body panics,
    with no error set. *)
Definition addAttachHandler (p : attachParams) : AM unit := fun a =>
  let conf := attach_conf p in
  match in_bk (scatter_Add conf) a with
  | (Ok _, a1) =>
      match attach_body (apName p) (mkAtSt a1 ∅ ∅) with
      | (Ok _, s) => attach_finish (atS s)
      | (Err e, s) =>
          match attach_undo conf s with
          | (Panic, s) => (Panic, atS s)
          | (_, s) => (Err e, atS s)
          end
      | (Panic, s) => (Panic, snd (attach_finish (atS s)))
      end
  | x => x
  end.

(** [Attach]: the parameters are the address, the user and the password. *)
Definition Attach (row : list string) : AM unit :=
  if decide (length row = AttachParamsCount) then
    match row with
    | addr :: user :: pass :: _ => addAttachHandler (mkAttachParams addr addr user pass 1024)
    | _ => mpanic
    end
  else mfail AdParams.

(** One table of [detachHandler]: whether it was on the backend. *)
Definition detach_table (attachName db table : string) : AM bool :=
  s ← mget;
  match Lookup (adRouter s) db table None None with
  | Err _ => mret false
  | Panic => mpanic
  | Ok [] => mpanic
  | Ok (sg :: _) => if decide (sgBackend sg = attachName) then _ ← in_rt (DropTable db table); mret true else mret false
  end.
Fixpoint detach_tables (attachName db : string) (tables : list string) (count : nat) : AM nat :=
  match tables with
  | [] => mret count
  | t :: ts => b ← detach_table attachName db t; detach_tables attachName db ts (if (b : bool) then S count else count)
  end.

Definition detach_database (attachName : string) (tblList : gmap string (list string)) (r : list string) : AM unit :=
  db ← cell r 0;
  if acl_IsSystemDB db then mret tt
  else match tblList !! db with
       | None => mret tt
       | Some tables =>
           n ← detach_tables attachName db tables 0;
           if decide (n = length tables) then _ ← adm_exec ToAll ("drop database if exists `" +:+ db +:+ "`"); mret tt else mret tt
       end.

(** [detachHandler] *)
Definition detachHandler (attachName : string) : AM unit :=
  rows ← adm_exec (ToBackend attachName) "show databases";
  s ← mget;
  _ ← miter (detach_database attachName (Tables (adRouter s))) rows;
  s ← mget;
  _ ← miter (fun kv : string * list string => match snd kv with [] => in_rt (DropDatabase (fst kv)) | _ => mret tt end) (map_range (Tables (adRouter s)));
  _ ← in_bk (scatter_Remove (mkBackendConfig attachName "" "" "" "" "" "" 0 NormalBackend));
  in_bk scatter_FlushConfig.

(** [ListAttach] *)
Definition ListAttach (w : World) : list (list string) :=
  (fun c => [bcName c; bcAddress c; bcUser c]) <$> filter (fun c => bcRole c = AttachBackend) (BackendConfigsClone w).
End attach.
