(* ===== verification/AttachProps.v ===== *)
(** * Attaching leaves alone what is there *)
From S2P Require Import Prelude GoStd Config Pool Xcontext Partition Compute Router Frm RouterProps Scatter ScatterProps Shift ShiftProps Admin AdminProps Attach.
Open Scope string_scope.
Open Scope list_scope.
Open Scope Z_scope.

Section props.
Context `{R : MapRange, !MapRangeOk R, J : JumpHash, SV : Servers}.
(** The schemas before. *)
Variable (m0 : gmap string Schema).

(** They are still there with their tables. *)
Definition keeps (r : Router) : Prop :=
  forall db sch, m0 !! db = Some sch -> exists sch', rSchemas r !! db = Some sch' /\ sTables sch ⊆ sTables sch'.
Definition new_table (db t : string) : Prop := forall sch, m0 !! db = Some sch -> sTables sch !! t = None.

Lemma keeps_schemas r r' : rSchemas r' = rSchemas r -> keeps r -> keeps r'.
Proof. intros E H db sch Hs. rewrite E. by apply H. Qed.
Lemma keeps_frame {A} (m : RM A) : mem_frame m -> preserves keeps m.
Proof. intros Hm r H. eapply keeps_schemas; [apply (Hm r)|done]. Qed.

(** A schema of [db] whose tables grow, or lose a new one. *)
Lemma keeps_update r db sch sch' : keeps r -> rSchemas r !! db = Some sch ->
  (forall s0, m0 !! db = Some s0 -> sTables s0 ⊆ sTables sch -> sTables s0 ⊆ sTables sch') ->
  keeps (set_schemas (<[db := sch']> (rSchemas r)) r).
Proof.
  intros H Hs Hsub db' s0 H0. destruct (H _ _ H0) as (s1 & H1 & Hin). cbn. destruct (decide (db' = db)) as [->|Hne].
  - exists sch'. rewrite lookup_insert_eq. split; [done|]. apply Hsub; [done|]. rewrite Hs in H1. by injection H1 as ->.
  - exists s1. by rewrite lookup_insert_ne.
Qed.

Lemma keeps_removeTable db t : new_table db t -> preserves keeps (removeTable db t).
Proof.
  intros Hn r H. unfold removeTable. destruct (rSchemas r !! db) as [sch|] eqn:Hs; [|done]. destruct (sTables sch !! t); [|done]. cbn [snd].
  eapply keeps_update; [done|done|]. intros s0 H0 Hsub. cbn. apply map_subseteq_spec. intros k v Hk. rewrite lookup_delete_ne.
  - by eapply lookup_weaken.
  - intros <-. rewrite (Hn _ H0) in Hk. done.
Qed.

Lemma alter_as_insert {A} (f : A -> A) k (m : gmap string A) x : m !! k = Some x -> alter f k m = <[k := f x]> m.
Proof.
  intros H. apply map_eq. intros i. destruct (decide (i = k)) as [->|Hne].
  - by rewrite lookup_alter_eq, lookup_insert_eq, H.
  - by rewrite lookup_alter_ne, lookup_insert_ne.
Qed.

Lemma keeps_put r db sch n t : keeps r -> rSchemas r !! db = Some sch -> new_table db n -> tName t = n ->
  keeps (snd (put_table db t r)) /\ rSchemas (snd (put_table db t r)) !! db = Some (mkSchema (sDB sch) (<[n := t]> (sTables sch))).
Proof.
  intros H Hs Hn Hname. unfold put_table. cbn [mmodify snd]. rewrite (alter_as_insert _ _ _ _ Hs). rewrite Hname. split.
  - eapply keeps_update; [done|done|]. intros s0 H0 Hsub. cbn. apply insert_subseteq_r; [|done]. by apply Hn.
  - cbn. by rewrite lookup_insert_eq.
Qed.

Lemma keeps_addTable db loc r x r' : keeps r -> addTable db (Some loc) r = (x, r') ->
  keeps r' /\ (x = Ok tt -> exists c, rHeap r !! loc = Some c /\ new_table db (tcName c)).
Proof.
  intros H Ha. unfold addTable, mbind, M_bind, checkDatabase in Ha. destruct (decide (db = "")) as [Hdb|Hdb]; [by injection Ha as <- <-|].
  destruct (rSchemas r !! db) as [sch|] eqn:Hs; [|by injection Ha as <- <-]. unfold deref in Ha.
  destruct (rHeap r !! loc) as [c|] eqn:Hc; [|by injection Ha as <- <-]. cbn [mget] in Ha. rewrite Hs in Ha.
  destruct (sTables sch !! tcName c) as [t|] eqn:Ht; [by injection Ha as <- <-|].
  assert (new_table db (tcName c)) as Hn.
  { intros s0 H0. destruct (H _ _ H0) as (s1 & H1 & Hsub). rewrite Hs in H1. injection H1 as <-. by eapply lookup_weaken_None. }
  destruct (keeps_put r db sch (tcName c) (mkTable (tcName c) (tcShardKey c) None loc) H Hs Hn eq_refl) as [H1 Hs1].
  unfold put_table in Ha at 1. cbn [mmodify] in Ha. unfold mlift in Ha.
  destruct (build_partition (rConf r) c) as [p|e|]; [|injection Ha as <- <-; (split; [exact H1|done])..].
  destruct (keeps_put _ db _ (tcName c) (mkTable (tcName c) (tcShardKey c) (Some p) loc) H1 Hs1 Hn eq_refl) as [H2 _].
  injection Ha as <- <-. split; [exact H2|]. intros _. by exists c.
Qed.

Lemma keeps_create db table loc c r x r' : keeps r -> rHeap r !! loc = Some c -> tcName c = table ->
  createTable db table loc r = (x, r') -> keeps r' /\ (x = Ok tt -> new_table db table).
Proof.
  intros H Hc Hname Hr. unfold createTable in Hr. case_match; [by injection Hr as <- <-|]. case_match; [by injection Hr as <- <-|].
  unfold mbind at 1, M_bind at 1 in Hr. destruct (addTable db (Some loc) r) as [[[]|e|] r1] eqn:Ha; apply keeps_addTable in Ha as [Hk1 Hn]; try done;
    [|by injection Hr as <- <-..]. destruct (Hn eq_refl) as (c' & Hc' & Hnew). rewrite Hc in Hc'. injection Hc' as <-. rewrite Hname in Hnew.
  assert (preserves keeps (c ← deref loc; x ← mtry (writeTableFrmData db table (Some c));
    match x with inl _ => UpdateVersion_or_panic | inr e => _ ← mtry (removeTable db table); mfail e end)) as Hp.
  { apply preserves_bind; [intros q Hq; unfold deref; by destruct (rHeap q !! loc)|]. intros c'.
    apply preserves_bind; [apply preserves_mtry, keeps_frame, frame_write|]. intros [u|e].
    - apply keeps_frame, frame_UpdateVersion_or_panic.
    - apply preserves_bind; [by apply preserves_mtry, keeps_removeTable|]. by intros a q Hq. }
  specialize (Hp r1 Hk1). rewrite Hr in Hp. split; [exact Hp|done].
Qed.

Lemma keeps_single db table name r x r' : keeps r -> CreateNonPartTable db table TableTypeSingle [name] None r = (x, r') ->
  keeps r' /\ (x = Ok tt -> new_table db table).
Proof.
  intros H Hr. unfold CreateNonPartTable in Hr. rewrite decide_False, decide_True in Hr by done. unfold create_from, mbind, M_bind, mlift in Hr.
  destruct (SingleUniform table [name]) as [c|e|] eqn:Hu; [|by injection Hr as <- <-..]. unfold alloc in Hr. cbn in Hr.
  eapply keeps_create; [|..|exact Hr].
  - by eapply keeps_schemas.
  - cbn. by rewrite lookup_app_r, Nat.sub_diag.
  - by apply uniform_name_single in Hu.
Qed.

Lemma keeps_CreateDatabase db r x r' : keeps r -> CreateDatabase db r = (x, r') -> keeps r' /\ (x = Ok tt -> m0 !! db = None).
Proof.
  intros H Hr. unfold CreateDatabase in Hr. case_match; [by injection Hr as <- <-|]. case_match; [by injection Hr as <- <-|].
  unfold mbind at 1, M_bind at 1, addDatabase in Hr. destruct (decide (db = "")); [by injection Hr as <- <-|].
  destruct (rSchemas r !! db) eqn:Hs; [by injection Hr as <- <-|].
  assert (m0 !! db = None) as Hn by (destruct (m0 !! db) eqn:E; [|done]; destruct (H _ _ E) as (? & ? & _); congruence).
  assert (preserves keeps (x ← mtry (writeDatabaseFrmData db); match x with inl _ => UpdateVersion_or_panic | inr e => _ ← mtry (dropDatabase db); mfail e end)) as Hp.
  { apply preserves_bind; [apply preserves_mtry, keeps_frame, frame_writeDatabase|]. intros [u|e]; [apply keeps_frame, frame_UpdateVersion_or_panic|].
    apply preserves_bind; [apply preserves_mtry|by intros a q Hq]. intros q Hq. unfold dropDatabase. destruct (rSchemas q !! db); [|done].
    intros db' s0 Hs0. cbn. rewrite lookup_delete_ne by congruence. by apply Hq. }
  match type of Hr with _ ?q = _ => assert (keeps q) as Hq end.
  { intros db' s0 Hs0. cbn. rewrite lookup_insert_ne by congruence. by apply H. }
  specialize (Hp _ Hq). rewrite Hr in Hp. split; [exact Hp|done].
Qed.

Lemma keeps_DropTable db t : new_table db t -> preserves keeps (DropTable db t).
Proof.
  intros Hn. apply preserves_bind; [by apply keeps_removeTable|]. intros _. apply preserves_bind; [apply keeps_frame, frame_remove|].
  intros _. apply keeps_frame, frame_UpdateVersion_or_panic.
Qed.

Lemma keeps_DropDatabase db : m0 !! db = None -> preserves keeps (DropDatabase db).
Proof.
  intros Hn. apply preserves_bind; [|intros _; apply preserves_bind; [apply keeps_frame, frame_io_step; done|intros _; apply keeps_frame, frame_UpdateVersion_or_panic]].
  intros q Hq. unfold dropDatabase. destruct (rSchemas q !! db); [|done]. intros db' s0 H0. cbn. rewrite lookup_delete_ne by congruence. by apply Hq.
Qed.

(** ** The handler *)
Record ainv (w0 : World) (s : AtSt) : Prop := {
  a_world : adWorld (atS s) = w0;
  a_keeps : keeps (adRouter (atS s));
  a_dbs : forall db, is_Some (atDBs s !! db) -> m0 !! db = None;
  a_tabs : forall db l t, atTabs s !! db = Some l -> t ∈ l -> new_table db t
}.

(** What changes neither router nor backends. *)
Definition still {A} (m : AM A) : Prop := forall a, adRouter (snd (m a)) = adRouter a /\ adWorld (snd (m a)) = adWorld a.
Lemma still_exec t q : still (adm_exec t q).
Proof. intros a. unfold adm_exec. by destruct (ask _ t q). Qed.
Lemma still_cell r i : still (cell r i).
Proof. intros a. unfold cell. by destruct (r !! i). Qed.
Lemma still_ret {A} (x : A) : still (mret x).
Proof. done. Qed.
Lemma still_bind {A B} (m : AM A) (k : A -> AM B) : still m -> (forall x, still (k x)) -> still (m ≫= k).
Proof.
  intros Hm Hk a. unfold mbind, M_bind. specialize (Hm a). destruct (m a) as [[x|e|] a1]; [|done..]. destruct (Hk x a1) as [-> ->]. done.
Qed.
Lemma still_try {A} (m : AM A) : still m -> still (mtry m).
Proof. intros Hm a. specialize (Hm a). unfold mtry. by destruct (m a) as [[x|e|] a1]. Qed.
Lemma still_check name db t : still (checkTableValid name db t).
Proof.
  apply still_bind; [apply still_exec|]. intros [|r rows]; [apply still_ret|]. apply still_bind; [apply still_cell|]. intros sql.
  apply still_bind; [apply still_exec|]. intros _. apply still_ret.
Qed.
Lemma still_create : still createAttachCheckDatabase.
Proof. apply still_bind; [apply still_try, still_exec|]. intros _. apply still_ret. Qed.
Lemma still_drop : still dropAttachCheckDatabase.
Proof. apply still_bind; [apply still_try, still_exec|]. intros _. apply still_ret. Qed.

Lemma at_still {A} w0 (m : AM A) : still m -> preserves (ainv w0) (at_ m).
Proof.
  intros Hm s [Hw H1 H2 H3]. specialize (Hm (atS s)). unfold at_. destruct (m (atS s)) as [x a]. simpl in *. destruct Hm as [Hr Ha].
  split; [by rewrite <- Hw|simpl; by rewrite Hr|done|done].
Qed.

Lemma attach_tables_inv w0 name db rows tables : Forall (new_table db) tables -> preserves (ainv w0) (attach_tables name db rows tables).
Proof.
  revert tables. induction rows as [|r rows IH]; intros tables Ht; cbn [attach_tables]; [by intros s Hs|].
  apply preserves_bind; [apply at_still, still_cell|]. intros table. apply preserves_bind; [apply at_still, still_check|]. intros _ s Hs.
  unfold mbind at 1, M_bind at 1, at_ at 1, in_rt. destruct (CreateNonPartTable db table TableTypeSingle [name] None (adRouter (atS s))) as [x r'] eqn:Hc.
  apply keeps_single in Hc as [Hk Hn]; [|apply Hs]. destruct Hs as [Hw H1 H2 H3].
  destruct x as [[]|e|]; cbn; try (split; [exact Hw|exact Hk|done|done]). specialize (Hn eq_refl). apply IH; [apply Forall_app; split; [done|by repeat constructor]|].
  split; [exact Hw|exact Hk|done|]. cbn. intros db' l t [[<- <-]|[Hne Hl]]%lookup_insert_Some Hin; [|by eapply H3].
  apply elem_of_app in Hin as [Hin|Hin]; [exact (proj1 (Forall_forall _ _) Ht _ Hin)|]. apply list_elem_of_singleton in Hin. by subst.
Qed.

Lemma attach_database_inv w0 name known r : preserves (ainv w0) (attach_database name known r).
Proof.
  apply preserves_bind; [apply at_still, still_cell|]. intros db. destruct (acl_IsSystemDB db); [by intros s Hs|].
  apply preserves_bind.
  - destruct (known !! db); [by intros s Hs|]. apply preserves_bind; [apply at_still, still_exec|]. intros _ s Hs.
    unfold mbind, M_bind, at_, in_rt. destruct (CreateDatabase db (adRouter (atS s))) as [x r'] eqn:Hc.
    apply keeps_CreateDatabase in Hc as [Hk Hn]; [|apply Hs]. destruct Hs as [Hw H1 H2 H3].
    destruct x as [[]|e|]; cbn; (split; [exact Hw|exact Hk| |done]); [|done..]. intros db'. cbn. intros [u [[<- _]|[Hne Hu]]%lookup_insert_Some]; [by apply Hn|].
    apply H2. by eexists.
  - intros _. apply preserves_bind; [apply at_still, still_exec|]. intros rows. apply preserves_bind; [apply at_still, still_create|]. intros _.
    apply preserves_bind; [by apply attach_tables_inv|]. intros _. apply at_still, still_drop.
Qed.

Lemma attach_body_inv w0 name : preserves (ainv w0) (attach_body name).
Proof.
  apply preserves_bind; [apply at_still, still_exec|]. intros rows. apply preserves_bind; [by intros s Hs|]. intros s0.
  apply preserves_miter. intros r. apply attach_database_inv.
Qed.

Lemma at_router w0 (m : RM unit) : preserves keeps m -> preserves (ainv w0) (_ ← at_ (mtry (in_rt m)); mret tt).
Proof.
  intros Hm s [Hw H1 H2 H3]. specialize (Hm _ H1). unfold mbind, M_bind, at_, mtry, in_rt. destruct (m (adRouter (atS s))) as [[u|e|] r]; by split.
Qed.

Lemma preserves_each {S E A} (P : S -> Prop) (f : A -> M S E unit) xs : (forall x, x ∈ xs -> preserves P (f x)) -> preserves P (miter f xs).
Proof.
  induction xs as [|x xs IH]; intros Hf; simpl; [by intros s Hs|]. apply preserves_bind; [apply Hf; set_solver|]. intros _. apply IH. set_solver.
Qed.

(** Undoing removes the backend and keeps what was there. *)
Definition undo_tables (dbs : gmap string unit) (tabs : gmap string (list string)) : TTM unit :=
  miter (fun kv : string * list string =>
           match dbs !! fst kv with
           | Some _ => mret tt
           | None => miter (fun t => _ ← at_ (mtry (in_rt (DropTable (fst kv) t))); mret tt) (snd kv)
           end) (map_range tabs).
Definition undo_dbs (dbs : gmap string unit) : TTM unit :=
  miter (fun kv : string * unit => _ ← at_ (mtry (in_rt (DropDatabase (fst kv)))); mret tt) (map_range dbs).

Lemma undo_inv w0 dbs tabs : (forall db, is_Some (dbs !! db) -> m0 !! db = None) -> (forall db l t, tabs !! db = Some l -> t ∈ l -> new_table db t) ->
  preserves (ainv w0) (_ ← undo_tables dbs tabs; undo_dbs dbs).
Proof.
  intros Hd Ht. apply preserves_bind.
  - apply preserves_each. intros [db l] Hin%map_range_elem. simpl. destruct (dbs !! db); [by intros s Hs|].
    apply preserves_each. intros t Htl. apply at_router, keeps_DropTable. by eapply Ht.
  - intros _. apply preserves_each. intros [db u] Hin%map_range_elem. apply at_router, keeps_DropDatabase. apply Hd. by eexists.
Qed.

Lemma attach_undo_inv w0 w1 conf s : ainv w0 s -> (forall s1, adWorld s1 = w0 -> adWorld (snd (in_bk (scatter_Remove conf) s1)) = w1) ->
  ainv w1 (snd (attach_undo conf s)).
Proof.
  intros [Hw H1 H2 H3] Hrem. unfold attach_undo. unfold mbind at 1, M_bind at 1, at_ at 1, mtry at 1.
  specialize (Hrem (atS s) Hw). assert (adRouter (snd (in_bk (scatter_Remove conf) (atS s))) = adRouter (atS s)) as Hr.
  { unfold in_bk. by destruct (scatter_Remove conf (adWorld (atS s))). }
  assert (fst (in_bk (scatter_Remove conf) (atS s)) <> Panic) as Hnp.
  { unfold in_bk, scatter_Remove, scatter_remove. by destruct (wBackends _ !! bcName conf). }
  destruct (in_bk (scatter_Remove conf) (atS s)) as [x a1]. simpl in *.
  assert (ainv w1 (mkAtSt a1 (atDBs s) (atTabs s))) as Hi by (split; [exact Hrem|simpl; by rewrite Hr|done|done]).
  destruct x as [u|e|]; [| |done]; exact (undo_inv w1 (atDBs s) (atTabs s) H2 H3 _ Hi).
Qed.
End props.

Lemma flush_ok `{R : MapRange} w x w' : scatter_FlushConfig w = (x, w') -> (x = Ok tt \/ x = Panic) /\ wBackends w' = wBackends w.
Proof.
  unfold scatter_FlushConfig, or_panic, write_file, wnext_io, mbind, M_bind, mtry, mget, mmodify, mret, M_ret, mfail, mpanic. simpl. intros H.
  repeat (case_match; simplify_eq/=; auto).
Qed.

Lemma add_remove `{R : MapRange} conf w w1 : scatter_Add conf w = (Ok tt, w1) ->
  wBackends w1 = <[bcName conf := length (wPoolz w)]> (wBackends w) /\ wBackends (snd (scatter_Remove conf w1)) = wBackends w.
Proof.
  unfold scatter_Add, scatter_add. destruct (wBackends w !! bcName conf) eqn:Hb; [done|]. destruct (existsb _ _); [done|]. intros [= <-]. cbn.
  split; [done|]. unfold scatter_Remove, scatter_remove. cbn. rewrite lookup_insert_eq. cbn. by rewrite delete_insert_id.
Qed.

Lemma add_fresh `{R : MapRange} conf w w1 : scatter_Add conf w = (Ok tt, w1) -> wBackends w !! bcName conf = None.
Proof. unfold scatter_Add, scatter_add. by destruct (wBackends w !! bcName conf). Qed.

Lemma finish_keeps `{R : MapRange, SV : Servers} a x a' : attach_finish a = (x, a') ->
  adRouter a' = adRouter a /\ wBackends (adWorld a') = wBackends (adWorld a) /\ (x = Ok tt \/ x = Panic).
Proof.
  unfold attach_finish, in_bk, mbind, M_bind. destruct (scatter_FlushConfig (adWorld a)) as [y w1] eqn:Hf.
  apply flush_ok in Hf as [[-> | ->] Hb]; cbn [of_bk]; [|intros [= <- <-]; cbn; auto]. intros H.
  unfold dropAttachCheckDatabase, mbind, M_bind in *.
  unfold adm_exec, mtry in *. destruct (ask _ _ _); cbn in *; injection H as <- <-; cbn; auto.
Qed.

(** C26: Attaching a backend leaves alone what is there: whatever the servers
    and the disk answer, every database and every table the router had is still
    there, unchanged.  After an error the backends are what they were, after
    success there is the new one more; when the call panics (a failing disk
    while the backends are saved) the new backend is there or not, and no other
    has changed. *)
Theorem attach_keeps `{R : MapRange, !MapRangeOk R, SV : Servers} p a x a' :
  addAttachHandler p a = (x, a') ->
  (forall db sch, rSchemas (adRouter a) !! db = Some sch ->
     exists sch', rSchemas (adRouter a') !! db = Some sch' /\ sTables sch ⊆ sTables sch') /\
  match x with
  | Ok _ => exists loc, wBackends (adWorld a) !! apName p = None /\ wBackends (adWorld a') = <[apName p := loc]> (wBackends (adWorld a))
  | Err _ => wBackends (adWorld a') = wBackends (adWorld a)
  | Panic => wBackends (adWorld a') = wBackends (adWorld a) \/
      exists loc, wBackends (adWorld a) !! apName p = None /\ wBackends (adWorld a') = <[apName p := loc]> (wBackends (adWorld a))
  end.
Proof.
  intros H. unfold addAttachHandler in H. assert (keeps (rSchemas (adRouter a)) (adRouter a)) as H0 by (intros db sch Hs; by exists sch).
  destruct (in_bk (scatter_Add (attach_conf p)) a) as [y a1] eqn:Hadd. unfold in_bk in Hadd.
  destruct (scatter_Add (attach_conf p) (adWorld a)) as [y1 w1] eqn:Hs. injection Hadd as <- <-.
  assert (y1 <> Ok tt -> y1 <> Panic /\ wBackends w1 = wBackends (adWorld a)) as Hrefused.
  { clear H. unfold scatter_Add, scatter_add in Hs. destruct (wBackends (adWorld a) !! _); [by injection Hs as <- <-|].
    destruct (existsb _ _); by injection Hs as <- <-. }
  destruct y1 as [[]|e|]; cbn [of_bk] in H; [|injection H as <- <-; split; [exact H0|apply Hrefused; done]|by destruct Hrefused].
  destruct (add_remove _ _ _ Hs) as [Hb1 Hb2].
  assert (ainv (rSchemas (adRouter a)) w1 (mkAtSt (mkAdSt (adRouter a) w1 (adSent a)) ∅ ∅)) as Hi.
  { split; [done|done| |]; cbn; [intros db [? ?]; by rewrite lookup_empty in *|intros db l t Hl; by rewrite lookup_empty in Hl]. }
  assert (exists loc, wBackends (adWorld a) !! apName p = None /\ wBackends w1 = <[apName p := loc]> (wBackends (adWorld a))) as Hnew.
  { exists (length (wPoolz (adWorld a))). split; [by apply (add_fresh (attach_conf p) _ _ Hs)|exact Hb1]. }
  apply (attach_body_inv _ w1 (apName p)) in Hi. destruct (attach_body (apName p) _) as [[[]|e|] s] eqn:Hbody; simpl in Hi.
  - destruct Hi as [Hw Hk _ _]. apply finish_keeps in H as (Hr & Hb & Hx). split; [rewrite Hr; exact Hk|].
    rewrite Hb, Hw. destruct Hx as [-> | ->]; [exact Hnew|by right].
  - pose proof (attach_undo_inv _ w1 (snd (scatter_Remove (attach_conf p) w1)) (attach_conf p) s Hi) as Hu.
    destruct (attach_undo (attach_conf p) s) as [z s2]. destruct Hu as [Hw Hk _ _].
    { intros s1 Hs1. unfold in_bk. rewrite Hs1. by destruct (scatter_Remove (attach_conf p) w1). }
    simpl in Hw, Hk. destruct z; injection H as <- <-; (split; [exact Hk|]); rewrite Hw, Hb2; auto.
  - destruct Hi as [Hw Hk _ _]. destruct (attach_finish (atS s)) as [z a2] eqn:Hf. apply finish_keeps in Hf as (Hr & Hb & _).
    injection H as <- <-. cbn [snd]. split; [rewrite Hr; exact Hk|]. rewrite Hb, Hw. by right.
Qed.

(** ** An attach that fails half way *)
#[local] Instance half_answer : Servers := {|
  ask h t q :=
    if decide (q = "show databases") then Some [["sys"]; ["db"]; ["new"]]
    else if decide (q = "show tables from db") then Some [["x"]]
    else if decide (q = "show create table `db`.`x`") then Some [["x"; "CREATE TABLE `x` (a int)"]]
    else if decide (q = "show tables from new") then None else Some [] |}.
Definition half_params : attachParams := mkAttachParams "10.0.0.9:3306" "10.0.0.9:3306" "root" "" 1024.
Lemma attach_keeps_witness : exists a', addAttachHandler half_params ad_start = (Err AdExec, a') /\
  is_Some (table_at (adRouter ad_start) "db" "t") /\ table_at (adRouter a') "db" "t" = table_at (adRouter ad_start) "db" "t" /\
  wBackends (adWorld a') = wBackends (adWorld ad_start).
Proof.
  assert (addAttachHandler half_params ad_start = (Err AdExec, snd (addAttachHandler half_params ad_start))) as H by (vm_compute; reflexivity).
  exists (snd (addAttachHandler half_params ad_start)). split; [exact H|].
  destruct (attach_keeps half_params ad_start _ _ H) as [Hk Hb].
  split; [eexists; vm_compute; reflexivity|]. split; [vm_compute; reflexivity|exact Hb].
Defined.

(** A failed attach sends no statement that drops the scratch database: the
    tables it made there make the next attach of the backend fail. *)
Definition refused_params : attachParams := half_params.
#[local] Instance refused_answer : Servers := {|
  ask h t q :=
    if decide (q = "show databases") then Some [["db"]]
    else if decide (q = "show tables from db") then Some [["x"]; ["y"]]
    else if decide (q = "show create table `db`.`x`") then Some [["x"; "CREATE TABLE `x` (a int)"]]
    else if decide (q = "show create table `db`.`y`") then None
    else if decide (q = "CREATE TABLE `attach_database_check_table_valid`.`x` (a int)" /\
                    (t, q) ∈ h /\ (ToAll, "drop database if exists `attach_database_check_table_valid`") ∉ h) then None
    else Some [] |}.
Definition refused_once : AdSt := snd (addAttachHandler refused_params ad_start).
Theorem attach_leaves_check_database :
  fst (addAttachHandler refused_params ad_start) = Err AdExec /\
  last (adSent (snd (addAttachHandler refused_params refused_once))) =
    Some (ToAll, "CREATE TABLE `attach_database_check_table_valid`.`x` (a int)") /\
  fst (addAttachHandler refused_params refused_once) = Err AdExec.
Proof. vm_compute. done. Qed.

(** Detaching a backend drops every database of the router that has no table,
    whoever made it. *)
#[local] Instance nothing_answer : Servers := {| ask h t q := Some [] |}.
Definition with_empty : AdSt := mkAdSt (snd (CreateDatabase "empty" ex_router)) (ex_scatter ∅) [].
Theorem detach_drops_other_databases `{J : JumpHash} :
  is_Some (rSchemas (adRouter with_empty) !! "empty") /\ fst (detachHandler "b1" with_empty) = Ok tt /\
  rSchemas (adRouter (snd (detachHandler "b1" with_empty))) !! "empty" = None.
Proof. split; [eexists; vm_compute; reflexivity|]. split; vm_compute; reflexivity. Qed.
