(* ===== verification/Query.v ===== *)
(** * The dispatch of queries (src/proxy: query.go, audit.go, connector.go; src/audit/audit.go)

    A query passes the check of the disk, is parsed, passes the read-only check
    and goes to the handler of its kind; the audit log gets an event for it.
    The handlers and the parser are interfaces here: what a handler does to the
    proxy is a function of its own state.  The throttle only delays. *)
From S2P Require Import Prelude GoStd.
Open Scope string_scope.
Open Scope list_scope.
Open Scope Z_scope.

(** ** Statements *)

(** The first table expression of a SELECT: a table, a subquery, or else. *)
Inductive FromExpr := FromTable (qualifier name : string) | FromSubquery | FromOther.
Inductive Node :=
| NUse | NDDL | NShow (typ : string) | NInsert (action : string) | NDelete | NUpdate
| NSelect (comments : list string) (from : list FromExpr) | NUnion | NKill | NExplain | NHelp | NTransaction
| NRadon (action : string) | NSet | NChecksum | NOptimize | NCheck | NDo | NOther.

Inductive ShowHandler :=
| SDatabases | SStatus | SVersions | SEngines | STables | SCreateTable | SColumns | SIndex | SProcesslist | SQueryz | STxnz
| SCreateDatabase | STableStatus | SJDBC | SCollation | SCharset.
Inductive Handler :=
| HUseDB | HDDL | HShow (h : ShowHandler) | HInsert | HDelete | HUpdate | HSelectStream | HSelect | HSelectSystem | HSingle
| HKill | HExplain | HHelp | HMultiStmtTxn | HRadon | HSet | HChecksum | HOptimize | HCheck | HDo.

(** The inner switch on the type of a SHOW. *)
Definition show_handler (typ : string) : option ShowHandler :=
  if decide (typ = "databases") then Some SDatabases
  else if decide (typ = "status") then Some SStatus
  else if decide (typ = "versions") then Some SVersions
  else if decide (typ = "engines") then Some SEngines
  else if decide (typ = "tables") then Some STables
  else if decide (typ = "create table") then Some SCreateTable
  else if decide (typ = "columns") then Some SColumns
  else if decide (typ = "index") then Some SIndex
  else if decide (typ = "processlist") then Some SProcesslist
  else if decide (typ = "queryz") then Some SQueryz
  else if decide (typ = "txnz") then Some STxnz
  else if decide (typ = "create database") then Some SCreateDatabase
  else if decide (typ = "table status") then Some STableStatus
  else if decide (typ = "warnings" \/ typ = "variables") then Some SJDBC
  else if decide (typ = "collation") then Some SCollation
  else if decide (typ = "charset") then Some SCharset
  else None.

(** [IsDMLWrite], [IsDDL], [IsAdminCmd] *)
Definition IsDMLWrite (node : Node) : bool := match node with NInsert _ | NDelete | NUpdate => true | _ => false end.
Definition IsDDL (node : Node) : bool := match node with NDDL => true | _ => false end.
Definition IsAdminCmd (node : Node) : bool :=
  match node with
  | NRadon action => bool_decide (action ∈ ["attach"; "detach"; "reshard"; "cleanup"; "xa commit"; "xa rollback"; "rebalance"])
  | _ => false
  end.

(** [isConnectorFilter] *)
Definition isConnectorFilter (query : string) : bool := HasPrefix query "/*" || HasPrefix query "SET NAMES".

(** ** State *)

(** A result as far as it is looked at. *)
Record QRes := mkQRes { qrRows : list (list string); qrAffected : Z; qrWarnings : Z }.

(** [audit.event] without its times. *)
Record Event := mkEvent { evUser : string; evHost : string; evThread : Z; evType : string; evArgument : string; evStatus : Z; evRows : Z }.

Inductive qerr := QNoSpace | QSyntax | QReadOnly | QUnsupported (query : string) | QHandler (e : string).

(** The user, address and id of the client, and whether it streams. *)
Record Client := mkClient { clUser : string; clAddr : string; clID : Z; clStreaming : bool }.

(** The flags of the spanner, the mode of the audit, the state of the handlers;
    then what happened: the handlers that were called and with what text, the
    events, the statistics (slow, command, failed) and the results handed over. *)
Record QSt (St : Type) := mkQSt {
  qReadOnly : bool; qHighWater : bool; qLower : bool; qMode : string; qInner : St;
  qCalls : list (Handler * option Node * string); qEvents : list Event; qStats : list (bool * string * bool); qOut : list QRes
}.
Arguments mkQSt {St}. Arguments qReadOnly {St}. Arguments qHighWater {St}. Arguments qLower {St}. Arguments qMode {St}. Arguments qInner {St}.
Arguments qCalls {St}. Arguments qEvents {St}. Arguments qStats {St}. Arguments qOut {St}.

(** The handlers, and the parser with what the proxy uses of it. *)
Class Handlers (St : Type) := { handle : Handler -> option Node -> string -> St -> res string QRes * St }.
Class Parser (B : Type) := {
  Parse : string -> option Node; GenerateQuery : Node -> B -> option string; LowerCaseTableNames : Node -> Node; String_Node : Node -> string
}.

Section query.
Context {St B : Type} `{HD : Handlers St, PS : Parser B}.
Variables (client : Client) (IsSystemDB : string -> bool).
Abbreviation QM := (M (QSt St) qerr).

(** A call of a handler. *)
Definition call (h : Handler) (node : option Node) (query : string) : QM QRes := fun s =>
  let (r, inner) := handle h node query (qInner s) in
  (match r with Ok x => Ok x | Err e => Err (QHandler e) | Panic => Panic end,
   mkQSt (qReadOnly s) (qHighWater s) (qLower s) (qMode s) inner (qCalls s ++ [(h, node, query)]) (qEvents s) (qStats s) (qOut s)).

(** [LogReadEvent], [LogWriteEvent]: the mode of the audit filters. *)
Definition log_event (mode : string) (e : Event) : QM unit :=
  mmodify (fun s =>
    if decide (qMode s = "A" \/ qMode s = mode)
    then mkQSt (qReadOnly s) (qHighWater s) (qLower s) (qMode s) (qInner s) (qCalls s) (qEvents s ++ [e]) (qStats s) (qOut s) else s).

(** [auditLog] *)
Definition auditLog (write : bool) (typ query : string) (qr : option QRes) (status : Z) : QM unit :=
  log_event (if write then "W" else "R")
    (mkEvent (clUser client) (clAddr client) (clID client) typ query status (match qr with Some q => qrAffected q | None => 0 end)).

(** [returnQuery] *)
Definition returnQuery (qr : QRes) : QM unit :=
  mmodify (fun s => mkQSt (qReadOnly s) (qHighWater s) (qLower s) (qMode s) (qInner s) (qCalls s) (qEvents s) (qStats s) (qOut s ++ [qr])).

(** The common shape of the cases: call, audit, return. *)
Definition audited (h : Handler) (write : bool) (typ : string) (node : Node) (query : string) : QM unit :=
  x ← mtry (call h (Some node) query);
  match x with
  | inl qr => _ ← auditLog write typ query (Some qr) 0; returnQuery qr
  | inr e => _ ← auditLog write typ query None 1; mfail e
  end.

(** [sqldb.ER_UNKNOWN_ERROR] *)
Definition ER_UNKNOWN_ERROR : Z := 1105.
Definition unsupported (typ query : string) : QM unit :=
  _ ← auditLog false typ query None ER_UNKNOWN_ERROR; mfail (QUnsupported query).

(** Whether a SELECT is streamed; [strings.Replace(comment, " ", "", -1)]. *)
Fixpoint remove_spaces (s : string) : string :=
  match s with String c t => if Ascii.eqb c " " then remove_spaces t else String c (remove_spaces t) | EmptyString => "" end.
Definition is_streaming (comments : list string) : bool :=
  clStreaming client || match comments with c :: _ => bool_decide (remove_spaces c = "/*+streaming*/") | [] => false end.

(** The handler of a SELECT that is not streamed, by its first table. *)
Definition select_handler (from : FromExpr) : Handler :=
  match from with
  | FromTable qualifier name => if decide (name = "dual") then HSingle else if IsSystemDB qualifier then HSelectSystem else HSelect
  | FromSubquery | FromOther => HSelect
  end.

Definition dispatch_select (comments : list string) (from : list FromExpr) (node : Node) (query : string) : QM unit :=
  if is_streaming comments then _ ← call HSelectStream (Some node) query; mret tt
  else match from with
       | [] => mpanic
       | f :: _ => audited (select_handler f) false "SELECT" node query
       end.

(** The cases of the switch that follow the SELECT. *)
Definition dispatch_other (node : Node) (query : string) : QM unit :=
  match node with
  | NUnion => audited HSelect true "UPDATE" node query
  | NKill => audited HKill false "KILL" node query
  | NExplain => audited HExplain false "EXPLAIN" node query
  | NHelp => audited HHelp false "HELP" node query
  | NTransaction => audited HMultiStmtTxn false "TRANSACTION" node query
  | NRadon _ => audited HRadon false "RADON" node query
  | NSet => audited HSet false "SET" node query
  | NChecksum => audited HChecksum false "CHECKSUM" node query
  | NOptimize => audited HOptimize false "OPTIMIZE" node query
  | NCheck => audited HCheck false "CHECK" node query
  | NDo => audited HDo false "DO" node query
  | _ => unsupported "UNSUPPORT" query
  end.

(** The switch of [ComQuery] *)
Definition dispatch (node : Node) (query : string) : QM unit :=
  match node with
  | NUse => audited HUseDB false "USEDB" node query
  | NDDL => audited HDDL true "DDL" node query
  | NShow typ => match show_handler typ with Some h => audited (HShow h) false "SHOW" node query | None => unsupported "SHOW" query end
  | NInsert action =>
      x ← mtry (call HInsert (Some node) query);
      let qr := match x with inl q => Some q | inr _ => None end in
      let status := match x with inl _ => 0 | inr _ => 1 end in
      _ ← (if decide (action = "insert") then auditLog true "INSERT" query qr status
           else if decide (action = "replace") then auditLog true "REPLACE" query qr status else mret tt);
      match x with inl q => returnQuery q | inr e => mfail e end
  | NDelete => audited HDelete true "DELETE" node query
  | NUpdate => audited HUpdate true "UPDATE" node query
  | NSelect comments from => dispatch_select comments from node query
  | _ => dispatch_other node query
  end.

(** [queryStat]: the counters that go up. *)
Definition stat_command (node : Node) : string :=
  match node with
  | NUse => "Use" | NDDL => "DDL" | NShow _ => "Show" | NInsert _ => "Insert" | NDelete => "Delete" | NUpdate => "Update"
  | NSelect _ _ => "Select" | NUnion => "Union" | NKill => "Kill" | NExplain => "Explain" | NTransaction => "Transaction" | NSet => "Set"
  | _ => "Unsupport"
  end.
Definition queryStat (node : Node) (slow failed : bool) (s : QSt St) : QSt St :=
  let c := stat_command node in
  mkQSt (qReadOnly s) (qHighWater s) (qLower s) (qMode s) (qInner s) (qCalls s) (qEvents s)
    (qStats s ++ (if slow then [(true, c, failed)] else []) ++ [(false, c, failed)]) (qOut s).

(** [defer queryStat(...)]: a panic leaves the error unset. *)
Definition with_stat (node : Node) (slow : bool) (m : QM unit) : QM unit := fun s =>
  let (r, s') := m s in (r, queryStat node slow (match r with Err _ => true | _ => false end) s').

(** The statement and its text: trimmed, parsed, with bind variables put in and
    parsed again, with names in lower case. *)
Definition parse (query : string) : QM Node := match Parse query with Some n => mret n | None => mfail QSyntax end.
Definition prepare (query : string) (binds : option B) : QM (Node * string) :=
  let query := TrimSuffix (TrimSpace query) ";" in
  node ← parse query;
  nq ← (match binds with
        | None => mret (node, query)
        | Some b =>
            match GenerateQuery node b with
            | None => mfail QSyntax
            | Some query => node ← parse query; mret (node, query)
            end
        end);
  s ← mget;
  let '(node, query) := (nq : Node * string) in
  mret (if qLower s then (LowerCaseTableNames node, String_Node (LowerCaseTableNames node)) else (node, query)).

Definition set_warnings (qr : QRes) : QRes := mkQRes (qrRows qr) (qrAffected qr) 1.

(** [ComQuery]; [slow] is whether the query took longer than the limit. *)
Definition ComQuery (query : string) (binds : option B) (slow : bool) : QM unit :=
  s ← mget;
  if qHighWater s then mfail QNoSpace
  else if isConnectorFilter query then qr ← call (HShow SJDBC) None query; returnQuery (set_warnings qr)
  else
    nq ← prepare query binds;
    let '(node, query) := nq in
    if qReadOnly s && (IsDMLWrite node || IsDDL node || IsAdminCmd node) then mfail QReadOnly
    else with_stat node slow (dispatch node query).
End query.
