(* ===== verification/QueryProps.v ===== *)
(** * What passes the dispatch of queries *)
From S2P Require Import Prelude GoStd Query.
Open Scope string_scope.
Open Scope list_scope.
Open Scope Z_scope.

(** The actions and tables the parser gives. *)
Definition radon_reads : list string := ["attachlist"; "xa recover"].
Definition radon_changes : list string := ["attach"; "detach"; "reshard"; "cleanup"; "rebalance"; "xa commit"; "xa rollback"].
Definition node_ok (n : Node) : Prop :=
  match n with
  | NInsert a => a = "insert" \/ a = "replace"
  | NRadon a => a ∈ radon_reads ++ radon_changes
  | NSelect _ from => from <> []
  | _ => True
  end.
Class ParserOk {B} (P : Parser B) := {
  parse_ok : forall q n, Parse q = Some n -> node_ok n;
  lower_ok : forall n, node_ok n -> node_ok (LowerCaseTableNames n)
}.

(** A call that changes data, schemas or backends. *)
Definition changes (c : Handler * option Node * string) : Prop :=
  match c with
  | (HDDL, _, _) | (HInsert, _, _) | (HDelete, _, _) | (HUpdate, _, _) => True
  | (HRadon, Some (NRadon a), _) => a ∉ radon_reads
  | _ => False
  end.

Section props.
Context {St B : Type} `{HD : Handlers St, PS : Parser B, !ParserOk PS}.
Variables (client : Client) (IsSystemDB : string -> bool).
Abbreviation QS := (QSt St).

(** What a run adds: the calls, the events and the results. *)
Record adds (s s' : QS) (calls : list (Handler * option Node * string)) (events : list Event) (outs : list QRes) : Prop := {
  ad_calls : qCalls s' = qCalls s ++ calls;
  ad_events : qEvents s' = qEvents s ++ events;
  ad_outs : qOut s' = qOut s ++ outs;
  ad_readonly : qReadOnly s' = qReadOnly s;
  ad_mode : qMode s' = qMode s
}.

(** One call with its event and its result. *)
Definition one_call (mode : string) (r : res qerr unit) (c : Handler * option Node * string) (events : list Event) (outs : list QRes) : Prop :=
  (length events <= 1)%nat /\
  (mode = "A" -> r <> Panic -> fst (fst c) <> HSelectStream ->
     exists e, events = [e] /\ evUser e = clUser client /\ evArgument e = snd c /\ (evStatus e = 0 <-> r = Ok tt)) /\
  match r with Ok _ => fst (fst c) = HSelectStream /\ outs = [] \/ exists qr, outs = [qr] | _ => outs = [] end.

Definition reached (r : res qerr unit) (node : Node) (q : string) (s s' : QS) : Prop :=
  exists calls events outs, adds s s' calls events outs /\
  (calls = [] /\ (length events <= 1)%nat /\ r <> Ok tt /\ outs = [] \/
   exists h, calls = [(h, Some node, q)] /\ one_call (qMode s) r (h, Some node, q) events outs /\
     (changes (h, Some node, q) -> IsDMLWrite node || IsDDL node || IsAdminCmd node = true)).

Ltac add_lists :=
  let side := (split; [split; cbn; rewrite ?app_nil_r; reflexivity|]) in
  first [eexists [_], [_], [_]; side | eexists [_], [_], []; side | eexists [_], [], [_]; side | eexists [_], [], []; side
        | eexists [], [_], []; side | eexists [], [], []; side].

Lemma audited_reached h w typ node q s r s' : h <> HSelectStream ->
  (changes (h, Some node, q) -> IsDMLWrite node || IsDDL node || IsAdminCmd node = true) ->
  audited client h w typ node q s = (r, s') -> reached r node q s s'.
Proof.
  intros Hh Hc. unfold audited, mbind, M_bind, mtry, call. destruct (handle h (Some node) q (qInner s)) as [[x|e|] inner].
  all: cbn; unfold auditLog, log_event, returnQuery, mmodify; cbn; repeat case_decide; intros [= <- <-].
  all: add_lists; right; eexists; (split; [done|]); (split; [|done]); (split; [cbn; lia|]); cbn; (split; [|by eauto]); try tauto.
  all: intros; eexists; split_and!; cbn; done.
Qed.

Lemma unsupported_reached typ node q s r s' : unsupported client typ q s = (r, s') -> reached r node q s s'.
Proof.
  unfold unsupported, auditLog, log_event, mbind, M_bind, mmodify. cbn. case_decide; intros [= <- <-]; add_lists; left; split_and!; cbn; by try lia.
Qed.

Lemma insert_reached a q s r s' : node_ok (NInsert a) -> dispatch client IsSystemDB (NInsert a) q s = (r, s') -> reached r (NInsert a) q s s'.
Proof.
  intros Ha. unfold dispatch, mbind, M_bind, mtry, call. destruct (handle HInsert (Some (NInsert a)) q (qInner s)) as [[x|e|] inner].
  all: cbn; unfold auditLog, log_event, returnQuery, mmodify; cbn; destruct Ha as [-> | ->]; cbn; repeat case_decide; try done; cbn; intros [= <- <-].
  all: add_lists; right; eexists; (split; [done|]); (split; [|done]); (split; [cbn; lia|]); cbn; (split; [|by eauto]); try tauto.
  all: intros; eexists; split_and!; cbn; done.
Qed.

Lemma select_reached cs from q s r s' : node_ok (NSelect cs from) ->
  dispatch_select client IsSystemDB cs from (NSelect cs from) q s = (r, s') -> reached r (NSelect cs from) q s s'.
Proof.
  intros Hf. unfold dispatch_select. destruct (is_streaming client cs).
  - unfold mbind, M_bind, call. destruct (handle HSelectStream _ q (qInner s)) as [[x|e|] inner]; cbn; intros [= <- <-].
    all: add_lists; right; eexists; (split; [done|]); (split; [|done]); (split; [cbn; lia|]); cbn; (split; [done|]); auto.
  - destruct from as [|f from]; [done|]. assert (forall h, h = HSingle \/ h = HSelectSystem \/ h = HSelect -> h <> HSelectStream /\ ~ changes (h, Some (NSelect cs (f :: from)), q)) as Hh
      by (intros h [-> |[-> | ->]]; cbn; auto).
    destruct (Hh (select_handler IsSystemDB f)) as [H1 H2]; [unfold select_handler; destruct f; repeat case_match; auto|].
    intros H. by eapply audited_reached; [exact H1|intros Hc; by destruct H2|exact H].
Qed.

Lemma dispatch_reached node q s r s' : node_ok node -> dispatch client IsSystemDB node q s = (r, s') -> reached r node q s s'.
Proof.
  intros Hn H. destruct node; try (by refine (audited_reached _ _ _ _ _ _ _ _ _ _ H); [done|cbn; done]); try (by eapply unsupported_reached).
  - unfold dispatch in H. destruct (show_handler typ); [by refine (audited_reached _ _ _ _ _ _ _ _ _ _ H)|by eapply unsupported_reached].
  - by eapply insert_reached.
  - by eapply select_reached.
  - refine (audited_reached _ _ _ _ _ _ _ _ _ _ H); [done|]. cbn. intros Ha. apply bool_decide_eq_true. revert Hn Ha. cbn. unfold radon_reads. set_solver.
Qed.

Lemma prepare_same query binds (s : QS) r s' : prepare query binds s = (r, s') -> s' = s /\ forall n q, r = Ok (n, q) -> node_ok n.
Proof.
  unfold prepare, parse, mbind, M_bind. destruct (Parse _) as [n|] eqn:Hp; cbn; [|by intros [= <- <-]]. apply parse_ok in Hp.
  assert (forall n q, node_ok n -> forall n' q', (if qLower s then (LowerCaseTableNames n, String_Node (LowerCaseTableNames n)) else (n, q)) = (n', q') -> node_ok n') as Hl.
  { intros n1 q1 H1 n2 q2. destruct (qLower s); intros [= <- _]; [by apply lower_ok|done]. }
  destruct binds as [b|]; cbn; [|intros [= <- <-]; split; [done|]; intros n1 q1 [= E]; by eapply Hl].
  destruct (GenerateQuery n b) as [q1|]; cbn; [|by intros [= <- <-]]. destruct (Parse q1) as [n1|] eqn:Hp1; cbn; [|by intros [= <- <-]].
  apply parse_ok in Hp1. intros [= <- <-]. split; [done|]. intros n2 q2 [= E]. by eapply (Hl n1).
Qed.
End props.

(** C21: What passes the dispatch. A query that is not taken for one of a
    connector calls at most one handler; none when the disk is full, and none
    that changes data, schemas or backends when the proxy is read-only. It
    leaves at most one event, and in audit mode A (all events; the default
    mode N writes none) a handler that returns and is not the one of streamed
    SELECTs leaves exactly one, with the user, the text and a zero status
    exactly on success. The client gets one result exactly on success, but
    none from a streamed SELECT, whose rows the stream hands over itself; a
    streamed SELECT leaves no event ([stream_unaudited]). *)
Theorem query_gate {St B : Type} `{HD : Handlers St, PS : Parser B, !ParserOk PS} client sys query binds slow (s : QSt St) r s' :
  isConnectorFilter query = false -> ComQuery client sys query binds slow s = (r, s') ->
  exists calls events outs, adds s s' calls events outs /\
  (qHighWater s = true -> s' = s) /\ (qReadOnly s = true -> Forall (fun c => ~ changes c) calls) /\
  (calls = [] /\ (length events <= 1)%nat /\ r <> Ok tt /\ outs = [] \/ exists c, calls = [c] /\ one_call client (qMode s) r c events outs).
Proof.
  intros Hcon H. unfold ComQuery, mbind, M_bind in H. cbn [mget] in H. assert (adds s s [] [] []) as Hsame by (split; by rewrite ?app_nil_r).
  assert (forall e, (r, s') = (Err e, s) -> exists calls events outs, adds s s' calls events outs /\
    (qHighWater s = true -> s' = s) /\ (qReadOnly s = true -> Forall (fun c => ~ changes c) calls) /\
    (calls = [] /\ (length events <= 1)%nat /\ r <> Ok tt /\ outs = [] \/ exists c, calls = [c] /\ one_call client (qMode s) r c events outs)) as Hfail.
  { intros e [= -> ->]. exists [], [], []. split_and!; [done|done|by constructor|]. left. split_and!; [done|cbn; lia|done|done]. }
  destruct (qHighWater s) eqn:Hw; [by eapply Hfail|]. rewrite Hcon in H.
  destruct (prepare query binds s) as [[[n q]|e|] s1] eqn:Hp; apply prepare_same in Hp as [-> Hok]; [|by eapply Hfail|].
  2:{ injection H as <- <-. exists [], [], []. split_and!; [done|done|by constructor|]. left. split_and!; [done|cbn; lia|done|done]. }
  destruct (qReadOnly s && _) eqn:Hro; [by eapply Hfail|]. unfold with_stat in H. destruct (dispatch client sys n q s) as [r1 s1] eqn:Hd.
  injection H as <- <-. apply dispatch_reached in Hd as (calls & events & outs & [H1 H2 H3 H4 H5] & Hcase); [|by eapply Hok].
  exists calls, events, outs. split_and!; [by split|done| |].
  - intros Hr. rewrite Hr in Hro. destruct Hcase as [(-> & _)|(h & -> & _ & Hch)]; [by constructor|]. constructor; [|done]. intros Hc.
    apply Hch in Hc. simpl in Hro. by rewrite Hro in Hc.
  - destruct Hcase as [Hl|(h & -> & Hone & _)]; [by left|right]. by eexists.
Qed.

(** ** Around the gate *)

(** A text that begins like a comment goes to a backend as it is, before the
    read-only check, without a check of privileges and without an event. *)
Theorem comment_bypasses_gate {St B : Type} `{HD : Handlers St, PS : Parser B} client sys query binds slow (s : QSt St) r s' :
  qHighWater s = false -> HasPrefix query "/*" = true -> ComQuery client sys query binds slow s = (r, s') ->
  qCalls s' = qCalls s ++ [(HShow SJDBC, None, query)] /\ qEvents s' = qEvents s /\ qStats s' = qStats s.
Proof.
  intros Hw Hp. unfold ComQuery, mbind, M_bind. cbn [mget]. rewrite Hw. unfold isConnectorFilter. rewrite Hp. simpl.
  unfold call. destruct (handle (HShow SJDBC) None query (qInner s)) as [[x|e|] inner]; cbn; intros [= _ <-]; done.
Qed.

(** A streamed SELECT leaves no event, whatever the mode of the audit. *)
Theorem stream_unaudited {St : Type} `{HD : Handlers St} client sys cs from node query (s : QSt St) r s' : is_streaming client cs = true ->
  dispatch_select client sys cs from node query s = (r, s') -> qEvents s' = qEvents s.
Proof.
  intros Hs. unfold dispatch_select. rewrite Hs. unfold mbind, M_bind, call.
  destruct (handle HSelectStream (Some node) query (qInner s)) as [[x|e|] inner]; cbn; by intros [= _ <-].
Qed.

(** ** A concrete proxy *)
#[local] Instance ex_parser : Parser unit := {|
  Parse q := if decide (q = "delete from t") then Some NDelete
             else if decide (q = "select 1 from a union select 1 from b") then Some NUnion
             else if decide (q = "radon attachlist") then Some (NRadon "attachlist") else None;
  GenerateQuery n b := None; LowerCaseTableNames n := n; String_Node n := "" |}.
#[local] Instance ex_parser_ok : ParserOk ex_parser.
Proof.
  split; [|done]. intros q n H. cbn in H. repeat case_decide; simplify_eq; cbn; [done|done|]. unfold radon_reads. set_solver.
Qed.
#[local] Instance ex_handlers : Handlers unit := {| handle h n q u := (Ok (mkQRes [] 3 0), u) |}.
Definition ex_qclient : Client := mkClient "u" "10.0.0.1:3306" 7 false.
Definition ex_query_state (ro : bool) (mode : string) : QSt unit := mkQSt ro false false mode tt [] [] [] [].
Definition no_system (db : string) : bool := false.

Lemma query_gate_witness : isConnectorFilter " delete from t;" = false /\
  (exists s', ComQuery ex_qclient no_system " delete from t;" (None : option unit) false (ex_query_state true "A") = (Err QReadOnly, s') /\ qCalls s' = []) /\
  exists s', ComQuery ex_qclient no_system "radon attachlist" (None : option unit) false (ex_query_state true "A") = (Ok tt, s') /\
    exists calls events outs, adds (ex_query_state true "A") s' calls events outs /\ Forall (fun c => ~ changes c) calls.
Proof.
  split; [reflexivity|]. split; [eexists; split; [vm_compute; reflexivity|reflexivity]|].
  destruct (ComQuery ex_qclient no_system "radon attachlist" (None : option unit) false (ex_query_state true "A")) as [r s'] eqn:H.
  exists s'. split; [revert H; vm_compute; congruence|].
  destruct (query_gate ex_qclient no_system "radon attachlist" None false (ex_query_state true "A") r s') as (calls & events & outs & Ha & _ & Hro & _);
    [reflexivity|exact H|]. exists calls, events, outs. split; [exact Ha|apply Hro; reflexivity].
Defined.

(** When only writes are audited, a UNION that reads is entered as an update. *)
Theorem union_audited_as_write :
  qEvents (snd (ComQuery ex_qclient no_system "select 1 from a union select 1 from b" (None : option unit) false (ex_query_state false "W"))) =
    [mkEvent "u" "10.0.0.1:3306" 7 "UPDATE" "select 1 from a union select 1 from b" 0 3].
Proof. vm_compute. reflexivity. Qed.
