(* ===== verification/Show.v ===== *)
(** * SHOW statements (src/proxy/show.go)

    The statements that combine what the backends answer with the router's
    tables.  The listings of the proxy's own state (status, processlist, queryz,
    txnz, versions) are reports and left out. *)
From S2P Require Import Prelude GoStd Config Pool Xcontext Partition Compute Router Frm Scatter Shift Admin Rebalance Privilege.
Open Scope string_scope.
Open Scope list_scope.
Open Scope Z_scope.

(** ** Times *)

(** [time.Parse(time.RFC3339, ...)] of a UTC time, as seconds since 1970. *)
Definition leap (y : Z) : bool := (y mod 4 =? 0) && (negb (y mod 100 =? 0) || (y mod 400 =? 0)).
Definition month_days (y m : Z) : Z :=
  if m =? 2 then (if leap y then 29 else 28) else if existsb (Z.eqb m) [4; 6; 9; 11] then 30 else 31.
(** The days from 1970-01-01 to a date of the proleptic Gregorian calendar. *)
Definition days_from_civil (y m d : Z) : Z :=
  let y' := if m <=? 2 then y - 1 else y in
  let era := y' / 400 in
  let yoe := y' mod 400 in
  let doy := (153 * (m + (if m <=? 2 then 9 else -3)) + 2) / 5 + d - 1 in
  era * 146097 + (yoe * 365 + yoe / 4 - yoe / 100 + doy) - 719468.

(** [n] digits at the front. *)
Fixpoint take_digits (n : nat) (s : string) (acc : Z) : option (Z * string) :=
  match n with
  | O => Some (acc, s)
  | S n => match s with String c t => match digit_val c with Some d => take_digits n t (10 * acc + d) | None => None end | EmptyString => None end
  end.
Definition take_char (c : ascii) (s : string) : option string :=
  match s with String x t => if Ascii.eqb x c then Some t else None | EmptyString => None end.
(** A fraction of a second, which the seconds leave out. *)
Fixpoint skip_digits (s : string) : string :=
  match s with String c t => match digit_val c with Some _ => skip_digits t | None => s end | EmptyString => "" end.
Definition skip_fraction (s : string) : string :=
  match s with
  | String "." (String c t) => match digit_val c with Some _ => skip_digits t | None => s end
  | _ => s
  end.
Definition parse_RFC3339 (s : string) : option Z :=
  '(y, s) ← take_digits 4 s 0; s ← take_char "-" s;
  '(mo, s) ← take_digits 2 s 0; s ← take_char "-" s;
  '(d, s) ← take_digits 2 s 0; s ← take_char "T" s;
  '(h, s) ← take_digits 2 s 0; s ← take_char ":" s;
  '(mi, s) ← take_digits 2 s 0; s ← take_char ":" s;
  '(se, s) ← take_digits 2 s 0;
  if decide (skip_fraction s = "Z" /\ 1 <= mo <= 12 /\ 1 <= d <= month_days y mo /\ h < 24 /\ mi < 60 /\ se < 60)
  then Some (days_from_civil y mo d * 86400 + h * 3600 + mi * 60 + se) else None.
(** [strings.Replace(s, " ", "T", 1) + "Z"] *)
Definition to_RFC3339 (s : string) : string := Replace1 s " " "T" +:+ "Z".

(** ** SHOW TABLE STATUS *)

(** A value with its type. *)
Inductive Cell := CNull | CText (s : string) | CInt (n : Z) | CUint (n : Z) | CTime (s : string).
Definition raw (c : Cell) : string := match c with CNull => "" | CText s | CTime s => s | CInt n | CUint n => Itoa n end.

(** [v[i]], [v[i].ToNative().(uint64)] *)
Definition at_cell (r : list Cell) (i : nat) : res aderr Cell := match r !! i with Some c => Ok c | None => Panic end.
Definition native (r : list Cell) (i : nat) : res aderr Z := c ← at_cell r i; match c with CUint n => Ok n | _ => Panic end.

(** The name without its partition suffix. *)
Definition base_name (name : string) : string := default name (SubTableToTable name).

(** Two cells are added, or the larger one is kept. *)
Definition add_cell (i : nat) (row old : list Cell) : res aderr (list Cell) :=
  a ← native old i; b ← native row i; Ok (<[i := CUint (wrap 64 (a + b))]> old).
Definition max_cell (i : nat) (row old : list Cell) : res aderr (list Cell) :=
  a ← native old i; b ← native row i; if a <? b then Ok (<[i := CUint b]> old) else Ok old.

(** The time of the last update. *)
Definition unix (s : string) : res aderr Z := match parse_RFC3339 s with Some t => Ok t | None => Err AdTime end.
Definition later_cell (row old : list Cell) : res aderr (list Cell) :=
  c ← at_cell row 12;
  match c with
  | CTime cur =>
      curSecond ← unix (to_RFC3339 cur);
      o ← at_cell old 12;
      oldSecond ← unix (to_RFC3339 (if decide (raw o = "") then "1970-01-01 00:00:00" else raw o));
      if oldSecond <? curSecond then Ok (<[12%nat := c]> old) else Ok old
  | _ => Ok old
  end.

Definition merge_status (row old : list Cell) : res aderr (list Cell) :=
  o ← add_cell 4 row old; o ← max_cell 5 row o; o ← add_cell 6 row o; o ← add_cell 8 row o; later_cell row o.

(** The rows so far, by table and in order, and the tables without suffix. *)
Record StatusSt := mkStatusSt { stRows : list (string * list Cell); stGlobal : gset string }.
Definition status_lookup (n : string) (rows : list (string * list Cell)) : option (nat * list Cell) :=
  match list_find (fun kv => fst kv = n) rows with Some (i, (_, r)) => Some (i, r) | None => None end.

(** One row of the loop. *)
Definition status_row (st : StatusSt) (row : list Cell) : res aderr StatusSt :=
  c ← at_cell row 0;
  let name := raw c in
  let newName := base_name name in
  let global := match SubTableToTable name with Some _ => stGlobal st | None => {[newName]} ∪ stGlobal st end in
  match status_lookup newName (stRows st) with
  | None => Ok (mkStatusSt (stRows st ++ [(newName, <[0%nat := CText newName]> row)]) global)
  | Some (i, old) =>
      if decide (newName ∈ global) then Ok (mkStatusSt (stRows st) global)
      else o ← merge_status row old; Ok (mkStatusSt (<[i := (newName, o)]> (stRows st)) global)
  end.
Definition status_rows (rows : list (list Cell)) : res aderr (list (list Cell)) :=
  st ← res_fold status_row (mkStatusSt [] ∅) rows; Ok (snd <$> stRows st).

(** ** The statements *)
Section show.
Context `{R : MapRange, J : JumpHash, SV : Servers}.

(** The database of the statement or of the session. *)
Definition show_database (schema database : string) : AM string :=
  let database := if decide (database = "") then schema else database in
  if decide (database = "") then mfail AdNoDB
  else _ ← mlift (of_rt (DatabaseACL database)); mret database.

(** [handleShowTableStatus]; [answer] gives the typed rows of the query. *)
Definition handleShowTableStatus (schema database : string) (answer : string -> option (list (list Cell))) : AM (list (list Cell)) :=
  database ← show_database schema database;
  let rewritten := "SHOW TABLE STATUS from " +:+ database in
  _ ← mmodify (fun s => mkAdSt (adRouter s) (adWorld s) (adSent s ++ [(ToAll, rewritten)]));
  match answer rewritten with
  | None => mfail AdExec
  | Some rows => mlift (status_rows rows)
  end.

(** [handleShowDatabases] *)
Fixpoint own_databases (p : PrivSt) (user : string) (rows : Rows) : AM Rows :=
  match rows with
  | [] => mret []
  | r :: rows =>
      db ← cell r 0;
      rs ← own_databases p user rows;
      mret (if CheckDBinUserPrivilege user db p then r :: rs else rs)
  end.
Definition handleShowDatabases (p : PrivSt) (user query : string) : AM Rows :=
  rows ← adm_exec ToOne query;
  if IsSuperPriv user p then mret rows
  else if CheckUserPrivilegeIsSet user p then mret rows
  else own_databases p user rows.

(** [handleShowTables] *)
Definition handleShowTables (schema database : string) : AM Rows :=
  database ← show_database schema database;
  _ ← adm_exec ToAll ("SHOW TABLES FROM " +:+ database);
  s ← mget;
  mret (match Tables (adRouter s) !! database with Some tables => (fun t => [t]) <$> tables | None => [] end).

(** The first segment of a table. *)
Definition first_segment (database table : string) : AM Segment :=
  s ← mget;
  parts ← mlift (of_rt (Lookup (adRouter s) database table None None));
  match parts with sg :: _ => mret sg | [] => mpanic end.

(** [handleShowCreateTable]; the table's name is put back into the answer. *)
Definition handleShowCreateTable (schema qualifier table : string) : AM Rows :=
  database ← show_database schema qualifier;
  s ← mget;
  tableConfig ← mlift (of_rt (TableConfigOf (adRouter s) database table));
  shardKey ← mlift (of_rt (ShardKey (adRouter s) database table));
  sg ← first_segment database table;
  let partTable := if decide (shardKey = "") then table else sgTable sg in
  rows ← adm_exec (ToBackend (sgBackend sg)) ("SHOW CREATE TABLE " +:+ database +:+ "." +:+ partTable);
  match rows with
  | [] => mpanic
  | r :: rest =>
      if decide (shardKey = "") then
        c2 ← cell r 1;
        mret (<[1%nat := c2 +:+ String "010" ("/*!" +:+ tcShardType tableConfig +:+ "*/")]> r :: rest)
      else
        c1 ← cell r 0; c2 ← cell r 1;
        mret (<[1%nat := Replace1 c2 partTable table +:+ String "010" ("/*!50100 PARTITION BY " +:+ tcShardType tableConfig +:+ "(" +:+ shardKey +:+ ") */")]>
                (<[0%nat := Replace1 c1 partTable table]> r) :: rest)
  end.

(** [handleShowColumns] and [handleShowIndex]; [print] is the text of the
    statement for a table of a database. *)
Definition handleShowColumns (print : string -> string -> string) (schema qualifier table : string) : AM Rows :=
  database ← show_database schema qualifier;
  sg ← first_segment database table;
  adm_exec (ToBackend (sgBackend sg)) (print database (sgTable sg)).
Fixpoint rename_rows (table : string) (rows : Rows) : AM Rows :=
  match rows with
  | [] => mret []
  | r :: rows => _ ← cell r 0; rs ← rename_rows table rows; mret (<[0%nat := table]> r :: rs)
  end.
Definition handleShowIndex (print : string -> string -> string) (schema qualifier table : string) : AM Rows :=
  rows ← handleShowColumns print schema qualifier table;
  rename_rows table rows.
End show.
