(* ===== verification/ShowProps.v ===== *)
(** * SHOW TABLE STATUS adds up *)
From S2P Require Import Prelude GoStd Config Pool Xcontext Partition Compute Router Frm Scatter Shift Admin AdminProps Rebalance Privilege Show.
Open Scope string_scope.
Open Scope list_scope.
Open Scope Z_scope.

#[local] Arguments parse_RFC3339 : simpl never.
#[local] Arguments to_RFC3339 : simpl never.
#[local] Arguments unix : simpl never.

(** ** What the rows say *)
Definition name_of (r : list Cell) : string := match r !! 0%nat with Some c => raw c | None => "" end.
Definition value (i : nat) (r : list Cell) : Z := match r !! i with Some (CUint n) => n | _ => 0 end.
Definition time_of (r : list Cell) : Z :=
  match r !! 12%nat with Some (CTime s) => default 0 (parse_RFC3339 (to_RFC3339 s)) | _ => 0 end.
Definition sharded (n : string) : Prop := is_Some (SubTableToTable n).

(** A row of SHOW TABLE STATUS for a table. *)
Definition uint_at (i : nat) (r : list Cell) : Prop := exists n, r !! i = Some (CUint n) /\ 0 <= n < 2 ^ 64.
Definition time_at (r : list Cell) : Prop :=
  r !! 12%nat = Some CNull \/ exists s t, r !! 12%nat = Some (CTime s) /\ s <> "" /\ parse_RFC3339 (to_RFC3339 s) = Some t /\ 0 <= t.
Definition typed (r : list Cell) : Prop :=
  is_Some (r !! 0%nat) /\ uint_at 4 r /\ uint_at 5 r /\ uint_at 6 r /\ uint_at 8 r /\ time_at r.

Definition parts (n : string) (rows : list (list Cell)) : list (list Cell) := filter (fun r => base_name (name_of r) = n) rows.
Definition sum (l : list Z) : Z := foldr Z.add 0 l.
Definition largest (l : list Z) : Z := foldr Z.max 0 l.

(** The row of a table sums up its partitions. *)
Record summary (o : list Cell) (ps : list (list Cell)) : Prop := {
  su_rows : value 4 o = wrap 64 (sum (value 4 <$> ps));
  su_avg : value 5 o = largest (value 5 <$> ps);
  su_data : value 6 o = wrap 64 (sum (value 6 <$> ps));
  su_index : value 8 o = wrap 64 (sum (value 8 <$> ps));
  su_time : time_of o = largest (time_of <$> ps)
}.

(** The different names in the order of their first occurrence. *)
Definition add_name (acc : list string) (n : string) : list string := if decide (n ∈ acc) then acc else acc ++ [n].
Definition firsts (l : list string) : list string := foldl add_name [] l.

Lemma sum_snoc l x : sum (l ++ [x]) = sum l + x.
Proof. induction l as [|y l IH]; simpl; [lia|]. unfold sum in *. simpl. rewrite IH. lia. Qed.
Lemma largest_snoc l x : 0 <= x -> largest (l ++ [x]) = Z.max (largest l) x.
Proof. intros Hx. induction l as [|y l IH]; unfold largest in *; simpl; [lia|]. rewrite IH. lia. Qed.
Lemma firsts_snoc l n : firsts (l ++ [n]) = add_name (firsts l) n.
Proof. unfold firsts. by rewrite foldl_app. Qed.
Lemma parts_snoc n rows r : parts n (rows ++ [r]) = if decide (base_name (name_of r) = n) then parts n rows ++ [r] else parts n rows.
Proof.
  unfold parts. rewrite filter_app. destruct (decide (base_name (name_of r) = n)) as [E|E].
  - by rewrite filter_cons_True, filter_nil.
  - by rewrite filter_cons_False, filter_nil, app_nil_r.
Qed.

(** ** Merging two rows *)
Lemma uint_native i r : uint_at i r -> native r i = Ok (value i r) /\ 0 <= value i r < 2 ^ 64.
Proof. intros (n & H & Hn). unfold native, at_cell, value. rewrite H. done. Qed.
Lemma uint_set i j n r : uint_at i r -> 0 <= n < 2 ^ 64 -> uint_at i (<[j := CUint n]> r).
Proof.
  intros (m & H & Hm) Hn. destruct (decide (j = i)) as [->|Hne].
  - exists n. split; [|done]. apply list_lookup_insert_eq. by eapply lookup_lt_Some.
  - exists m. by rewrite list_lookup_insert_ne.
Qed.
Lemma value_set i j c r : is_Some (r !! j) -> value i (<[j := c]> r) = if decide (i = j) then (match c with CUint n => n | _ => 0 end) else value i r.
Proof.
  intros [x Hx]. unfold value. destruct (decide (i = j)) as [->|Hne].
  - by rewrite list_lookup_insert_eq by (by eapply lookup_lt_Some).
  - by rewrite list_lookup_insert_ne.
Qed.
Lemma time_set j c r : j <> 12%nat -> time_of (<[j := c]> r) = time_of r /\ (time_at r -> time_at (<[j := c]> r)).
Proof. intros Hj. unfold time_of, time_at. by rewrite list_lookup_insert_ne. Qed.
Lemma typed_set j n r : (j = 4 \/ j = 5 \/ j = 6 \/ j = 8)%nat -> typed r -> 0 <= n < 2 ^ 64 -> typed (<[j := CUint n]> r).
Proof.
  intros Hj ([c Hc] & H4 & H5 & H6 & H8 & Ht) Hn. split_and!; [|by apply uint_set..|apply time_set; [lia|done]].
  rewrite list_lookup_insert_ne by lia. by eexists.
Qed.
Lemma typed_some i r : typed r -> (i = 4 \/ i = 5 \/ i = 6 \/ i = 8)%nat -> uint_at i r.
Proof. intros (_ & H4 & H5 & H6 & H8 & _) [->|[->|[->| ->]]]; done. Qed.
Lemma wrap_range z : 0 <= wrap 64 z < 2 ^ 64.
Proof. unfold wrap. apply Z.mod_pos_bound. lia. Qed.

(** A row made by merging. *)
Record merged (row old o : list Cell) (i : nat) (v : Z) : Prop := {
  me_typed : typed o; me_value : value i o = v; me_other : forall k, k <> i -> value k o = value k old;
  me_time : time_of o = time_of old; me_name : name_of o = name_of old
}.
Lemma set_merged i row old v : (i = 4 \/ i = 5 \/ i = 6 \/ i = 8)%nat -> typed old -> 0 <= v < 2 ^ 64 -> merged row old (<[i := CUint v]> old) i v.
Proof.
  intros Hi Ht Hv. assert (is_Some (old !! i)) as Hs by (destruct (typed_some i old Ht Hi) as (n & H & _); by eexists).
  split; [by apply typed_set|rewrite value_set by done; by rewrite decide_True|intros k Hk; rewrite value_set by done; by rewrite decide_False| |].
  - apply time_set. lia.
  - unfold name_of. rewrite list_lookup_insert_ne by lia. done.
Qed.
Lemma add_cell_merged i row old : (i = 4 \/ i = 5 \/ i = 6 \/ i = 8)%nat -> typed row -> typed old ->
  exists o, add_cell i row old = Ok o /\ merged row old o i (wrap 64 (value i old + value i row)).
Proof.
  intros Hi Hr Ho. unfold add_cell. destruct (uint_native i old (typed_some _ _ Ho Hi)) as [-> _]. destruct (uint_native i row (typed_some _ _ Hr Hi)) as [-> _].
  cbn. eexists. split; [done|]. apply set_merged; [done|done|apply wrap_range].
Qed.
Lemma max_cell_merged i row old : (i = 4 \/ i = 5 \/ i = 6 \/ i = 8)%nat -> typed row -> typed old ->
  exists o, max_cell i row old = Ok o /\ merged row old o i (Z.max (value i old) (value i row)).
Proof.
  intros Hi Hr Ho. unfold max_cell. destruct (uint_native i old (typed_some _ _ Ho Hi)) as [-> H1]. destruct (uint_native i row (typed_some _ _ Hr Hi)) as [-> H2].
  cbn. destruct (Z.ltb_spec (value i old) (value i row)); (eexists; split; [done|]).
  - rewrite Z.max_r by lia. by apply set_merged.
  - rewrite Z.max_l by lia. by split.
Qed.
Lemma later_merged row old : typed row -> typed old ->
  exists o, later_cell row old = Ok o /\ typed o /\ (forall k, value k o = value k old) /\ time_of o = Z.max (time_of old) (time_of row) /\ name_of o = name_of old.
Proof.
  intros (_ & _ & _ & _ & _ & Hr) Ho. pose proof Ho as (Hn & H4 & H5 & H6 & H8 & Ht). unfold later_cell, at_cell.
  assert (0 <= time_of old) as Hpos by (destruct Ht as [E|(s & t & E & _ & Hp & Ht)]; unfold time_of; rewrite E; [done|]; by rewrite Hp).
  destruct Hr as [E|(s & t & E & Hs & Hp & Hpos')]; rewrite E; cbn.
  { exists old. split_and!; try done. replace (time_of row) with 0 by (unfold time_of; by rewrite E). lia. }
  assert (unix (to_RFC3339 s) = Ok t) as -> by (unfold unix; by rewrite Hp). cbn. assert (time_of row = t) as Hrt by (unfold time_of; by rewrite E, Hp).
  assert (exists c, old !! 12%nat = Some c /\ unix (to_RFC3339 (if decide (raw c = "") then "1970-01-01 00:00:00" else raw c)) = Ok (time_of old)) as (c & Hc & Hu).
  { destruct Ht as [E2|(s2 & t2 & E2 & Hs2 & Hp2 & _)]; (eexists; split; [exact E2|]); unfold time_of; rewrite E2; [reflexivity|].
    cbn. rewrite decide_False by done. unfold unix. by rewrite Hp2. }
  rewrite Hc. cbn. rewrite Hu. cbn. destruct (Z.ltb_spec (time_of old) t); [|exists old; split_and!; try done; lia].
  assert ((12 < length old)%nat) as Hl by (by eapply lookup_lt_Some). eexists. split; [done|]. split_and!.
  - split_and!; try (destruct H4 as (n & ? & ?), H5 as (n5 & ? & ?), H6 as (n6 & ? & ?), H8 as (n8 & ? & ?); eexists; rewrite list_lookup_insert_ne by lia; done).
    + rewrite list_lookup_insert_ne by lia. done.
    + right. exists s, t. rewrite list_lookup_insert_eq by done. done.
  - intros k. rewrite value_set by (by eexists). destruct (decide (k = 12%nat)) as [->|]; [|done]. unfold value. rewrite Hc.
    destruct Ht as [E2|(s2 & t2 & E2 & _)]; rewrite E2 in Hc; by injection Hc as <-.
  - unfold time_of at 1. rewrite list_lookup_insert_eq by done. rewrite Hp. cbn. lia.
  - unfold name_of. by rewrite list_lookup_insert_ne by lia.
Qed.

Lemma merge_status_spec row old : typed row -> typed old -> exists o, merge_status row old = Ok o /\ typed o /\ name_of o = name_of old /\
  value 4 o = wrap 64 (value 4 old + value 4 row) /\ value 5 o = Z.max (value 5 old) (value 5 row) /\
  value 6 o = wrap 64 (value 6 old + value 6 row) /\ value 8 o = wrap 64 (value 8 old + value 8 row) /\
  time_of o = Z.max (time_of old) (time_of row).
Proof.
  intros Hr Ho. unfold merge_status.
  destruct (add_cell_merged 4 row old) as (o1 & -> & [T1 V1 R1 M1 N1]); [lia|done..|]. cbn [mbind res_bind].
  destruct (max_cell_merged 5 row o1) as (o2 & -> & [T2 V2 R2 M2 N2]); [lia|done..|]. cbn [mbind res_bind].
  destruct (add_cell_merged 6 row o2) as (o3 & -> & [T3 V3 R3 M3 N3]); [lia|done..|]. cbn [mbind res_bind].
  destruct (add_cell_merged 8 row o3) as (o4 & -> & [T4 V4 R4 M4 N4]); [lia|done..|]. cbn [mbind res_bind].
  destruct (later_merged row o4) as (o5 & -> & T5 & V5 & M5 & N5); [done..|]. exists o5. split_and!; [done|done|congruence|..].
  - rewrite V5, R4, R3, R2 by lia. done.
  - rewrite V5, R4, R3 by lia. rewrite V2, R1 by lia. done.
  - rewrite V5, R4 by lia. rewrite V3, R2, R1 by lia. done.
  - rewrite V5, V4, R3, R2, R1 by lia. done.
  - rewrite M5, M4, M3, M2, M1. done.
Qed.

Lemma wrap_add_left a b : wrap 64 (wrap 64 a + b) = wrap 64 (a + b).
Proof. unfold wrap. by rewrite Z.add_mod_idemp_l. Qed.

Lemma value_range i r : typed r -> (i = 4 \/ i = 5 \/ i = 6 \/ i = 8)%nat -> 0 <= value i r < 2 ^ 64.
Proof. intros Hr Hi. by destruct (uint_native i r (typed_some _ _ Hr Hi)). Qed.
Lemma time_nonneg r : typed r -> 0 <= time_of r.
Proof. intros (_ & _ & _ & _ & _ & [E|(s & t & E & _ & Hp & Ht)]); unfold time_of; rewrite E; [done|]. by rewrite Hp. Qed.

Lemma summary_one r r' : typed r -> (forall k, k <> 0%nat -> r' !! k = r !! k) -> summary r' [r].
Proof.
  intros Hr He. assert (forall k, k <> 0%nat -> value k r' = value k r) as Hv by (intros k Hk; unfold value; by rewrite He).
  pose proof (value_range 4 r Hr) as H4. pose proof (value_range 5 r Hr) as H5. pose proof (value_range 6 r Hr) as H6. pose proof (value_range 8 r Hr) as H8.
  pose proof (time_nonneg r Hr). split; rewrite ?Hv by lia; unfold sum, largest, wrap; cbn [fmap list_fmap foldr]; rewrite ?Z.add_0_r, ?Z.mod_small by lia; try done; [lia|].
  unfold time_of in *. rewrite He by lia. lia.
Qed.
Lemma summary_more old ps row o : typed row -> summary old ps ->
  value 4 o = wrap 64 (value 4 old + value 4 row) /\ value 5 o = Z.max (value 5 old) (value 5 row) /\
  value 6 o = wrap 64 (value 6 old + value 6 row) /\ value 8 o = wrap 64 (value 8 old + value 8 row) /\
  time_of o = Z.max (time_of old) (time_of row) -> summary o (ps ++ [row]).
Proof.
  intros Hr [S4 S5 S6 S8 S12] (V4 & V5 & V6 & V8 & V12). pose proof (value_range 5 row Hr) as H5. pose proof (time_nonneg row Hr).
  split; rewrite fmap_app; cbn [fmap list_fmap]; rewrite ?sum_snoc, ?largest_snoc by lia.
  - by rewrite V4, S4, wrap_add_left.
  - by rewrite V5, S5.
  - by rewrite V6, S6, wrap_add_left.
  - by rewrite V8, S8, wrap_add_left.
  - by rewrite V12, S12.
Qed.

(** ** The loop *)
Record status_inv (rows : list (list Cell)) (st : StatusSt) : Prop := {
  si_names : fst <$> stRows st = firsts ((fun r => base_name (name_of r)) <$> rows);
  si_nodup : NoDup (fst <$> stRows st);
  si_global : forall n, n ∈ stGlobal st <-> exists r, r ∈ rows /\ name_of r = n /\ ~ sharded n;
  si_row : forall i n o, stRows st !! i = Some (n, o) -> typed o /\ name_of o = n /\
    (n ∉ stGlobal st -> summary o (parts n rows)) /\
    (Forall (fun r => name_of r = n) (parts n rows) -> ~ sharded n -> exists r rest, parts n rows = r :: rest /\ o = <[0%nat := CText n]> r)
}.

Lemma status_lookup_None n rows : status_lookup n rows = None -> n ∉ fst <$> rows.
Proof.
  unfold status_lookup. destruct (list_find _ rows) as [[i [m r]]|] eqn:E; [done|]. intros _ Hin. apply list_elem_of_fmap in Hin as ([m r] & -> & Hin).
  apply list_find_None in E. rewrite Forall_forall in E. by apply (E _ Hin).
Qed.
Lemma status_lookup_Some n rows i r : status_lookup n rows = Some (i, r) -> rows !! i = Some (n, r).
Proof.
  unfold status_lookup. destruct (list_find _ rows) as [[j [m q]]|] eqn:E; [|done]. intros [= <- <-]. apply list_find_Some in E as (E & Hm & _). cbn in Hm. by subst.
Qed.
Lemma firsts_elem l n : n ∈ firsts l <-> n ∈ l.
Proof.
  induction l as [|m l IH] using rev_ind; [done|]. rewrite firsts_snoc. unfold add_name. case_decide; set_solver.
Qed.
Lemma status_start : status_inv [] (mkStatusSt [] ∅).
Proof. split; [done|by constructor|intros n; set_solver|]. intros i n o H. done. Qed.

Definition new_global (st : StatusSt) (row : list Cell) : gset string :=
  match SubTableToTable (name_of row) with Some _ => stGlobal st | None => {[base_name (name_of row)]} ∪ stGlobal st end.

Lemma new_global_spec rows st row : status_inv rows st ->
  forall n, n ∈ new_global st row <-> exists r, r ∈ rows ++ [row] /\ name_of r = n /\ ~ sharded n.
Proof.
  intros Hi n. unfold new_global. pose proof (si_global _ _ Hi n) as Hg. unfold base_name, sharded in *.
  destruct (SubTableToTable (name_of row)) as [b|] eqn:E; cbn.
  - rewrite Hg. split; [intros (r & Hr & H); exists r; set_solver|]. intros (r & [Hr| ->%list_elem_of_singleton]%elem_of_app & <- & Hn); [by exists r|].
    rewrite E in Hn. by destruct Hn.
  - rewrite elem_of_union, elem_of_singleton, Hg. split.
    + intros [-> |(r & Hr & H)]; [exists row; rewrite E; set_solver|exists r; set_solver].
    + intros (r & [Hr| ->%list_elem_of_singleton]%elem_of_app & <- & Hn); [right; by exists r|by left].
Qed.

(** A row of another table. *)
Lemma si_other rows st row i n o : status_inv rows st -> stRows st !! i = Some (n, o) -> n <> base_name (name_of row) ->
  typed o /\ name_of o = n /\ (n ∉ new_global st row -> summary o (parts n (rows ++ [row]))) /\
  (Forall (fun r => name_of r = n) (parts n (rows ++ [row])) -> ~ sharded n -> exists r rest, parts n (rows ++ [row]) = r :: rest /\ o = <[0%nat := CText n]> r).
Proof.
  intros Hi Hl Hne. destruct (si_row _ _ Hi i n o Hl) as (Ht & Hn & Hs & Hg). rewrite parts_snoc, decide_False by done. split_and!; [done..| |done].
  intros Hin. apply Hs. unfold new_global in Hin. destruct (SubTableToTable (name_of row)); set_solver.
Qed.

Lemma status_step rows st row : status_inv rows st -> typed row -> exists st', status_row st row = Ok st' /\ status_inv (rows ++ [row]) st'.
Proof.
  intros Hi Hr. pose proof Hr as ([c Hc] & _). unfold status_row, at_cell. rewrite Hc. cbn [mbind res_bind].
  assert (raw c = name_of row) as -> by (unfold name_of; by rewrite Hc). fold (new_global st row). set (n := base_name (name_of row)) in *.
  pose proof (new_global_spec _ _ row Hi) as Hgl. pose proof (si_names _ _ Hi) as Hnames. pose proof (si_nodup _ _ Hi) as Hnd.
  assert (firsts ((fun r => base_name (name_of r)) <$> rows ++ [row]) = add_name (fst <$> stRows st) n) as Hf by (rewrite fmap_app; cbn [fmap list_fmap]; by rewrite firsts_snoc, Hnames).
  destruct (status_lookup n (stRows st)) as [[i old]|] eqn:El.
  - apply status_lookup_Some in El. destruct (si_row _ _ Hi i n old El) as (Ht & Hn & Hs & Hg). assert (n ∈ fst <$> stRows st) as Hin.
    { apply list_elem_of_fmap. exists (n, old). split; [done|]. by eapply list_elem_of_lookup_2. }
    assert (add_name (fst <$> stRows st) n = fst <$> stRows st) as Ha by (unfold add_name; by rewrite decide_True).
    assert (forall j m o, stRows st !! j = Some (m, o) -> m = n -> j = i) as Huniq.
    { intros j m o Hj ->. eapply (NoDup_lookup (fst <$> stRows st)); [done|by rewrite list_lookup_fmap, Hj|by rewrite list_lookup_fmap, El]. }
    destruct (decide (n ∈ new_global st row)) as [Hng|Hng].
    + eexists. split; [done|]. split; cbn; [by rewrite Hf, Ha|done|done|]. intros j m o Hj. destruct (decide (m = n)) as [->|Hne]; [|by eapply si_other].
      assert (j = i) as -> by (by eapply Huniq). simplify_eq. rewrite parts_snoc, decide_True by done. split_and!; [done..|].
      intros Hall Hsh. apply Forall_app in Hall as [Hall _]. destruct (Hg Hall Hsh) as (r & rest & -> & ->). by exists r, (rest ++ [row]).
    + destruct (merge_status_spec row old Hr Ht) as (o & -> & To & No & Hvals). cbn. eexists. split; [done|].
      assert (fst <$> <[i := (n, o)]> (stRows st) = fst <$> stRows st) as Hfst.
      { rewrite list_fmap_insert. apply list_insert_id. by rewrite list_lookup_fmap, El. }
      split; cbn; [by rewrite Hfst, Hf, Ha|by rewrite Hfst|done|]. intros j m o' Hj.
      destruct (decide (j = i)) as [->|Hji]; [rewrite list_lookup_insert_eq in Hj by (by eapply lookup_lt_Some); simplify_eq
        |rewrite list_lookup_insert_ne in Hj by done; eapply si_other; [done|done|intros ->; by eapply Hji, Huniq]].
      rewrite parts_snoc, decide_True by done. split_and!; [done|congruence| |].
      * intros _. eapply summary_more; [done| |exact Hvals]. apply Hs. intros Hin'. apply Hng. unfold new_global. destruct (SubTableToTable (name_of row)); set_solver.
      * intros Hall Hsh. apply Forall_app in Hall as [_ Hall]. apply Forall_cons in Hall as [Hrow _]. destruct Hng. apply Hgl. exists row. set_solver.
  - apply status_lookup_None in El. eexists. split; [done|]. set (o := <[0%nat := CText n]> row).
    assert (parts n rows = []) as Hp.
    { destruct (parts n rows) as [|r l] eqn:Hpe; [done|]. exfalso. assert (r ∈ parts n rows) as [Hb Hin]%list_elem_of_filter by (rewrite Hpe; set_solver). apply El. rewrite Hnames, firsts_elem. apply list_elem_of_fmap. by exists r. }
    split; cbn; [by rewrite fmap_app, Hf; unfold add_name; rewrite decide_False| |done|].
    + rewrite fmap_app. apply NoDup_app. split_and!; [done|set_solver|apply NoDup_singleton].
    + intros j m o' [Hj|[Hj Hj2]]%lookup_app_Some.
      * eapply si_other; [done|done|]. intros ->. apply El. apply list_elem_of_fmap. eexists (_, _). split; [|by eapply list_elem_of_lookup_2]. done.
      * apply list_lookup_singleton_Some in Hj2 as [_ [= <- <-]]. rewrite parts_snoc, decide_True, Hp by done. cbn.
        assert (forall k, k <> 0%nat -> o !! k = row !! k) as Hk by (intros k Hk; unfold o; by rewrite list_lookup_insert_ne).
        assert (o !! 0%nat = Some (CText n)) as Ho by (unfold o; apply list_lookup_insert_eq; by eapply lookup_lt_Some). split_and!.
        -- destruct Hr as (_ & H4 & H5 & H6 & H8 & H12). unfold typed, uint_at, time_at in *. rewrite Ho. rewrite !Hk by lia. split_and!; eauto.
        -- unfold name_of. by rewrite Ho.
        -- intros _. by apply summary_one.
        -- intros _ _. by exists row, [].
Qed.

Lemma status_all rows : Forall typed rows -> exists st, res_fold status_row (mkStatusSt [] ∅) rows = Ok st /\ status_inv rows st.
Proof.
  induction rows as [|row rows IH] using rev_ind; intros Ht; [eexists; split; [done|]; apply status_start|].
  apply Forall_app in Ht as [Ht Hr]. apply Forall_cons in Hr as [Hr _]. destruct (IH Ht) as (st & Hst & Hi).
  destruct (status_step _ _ _ Hi Hr) as (st' & Hrow & Hi'). exists st'. rewrite res_fold_app, Hst. cbn. by rewrite Hrow.
Qed.

(** C31: SHOW TABLE STATUS gives one row per base name, in the order in which
    the backends list them first, when the rows of the backends have the
    columns of the statement (counts that fit 64 bits, a time or NULL). The
    base name of a table is its name without an ending of an underscore and
    four digits. When no table has the base name itself, its row has the sums,
    modulo 2^64, of the rows, data and index lengths of the tables with that
    base name, the largest average length and the latest time; these are the
    partitions of a sharded table, but also other tables named like partitions
    ([suffixed_tables_merged]). When all of them have the base name itself,
    which is how a table without partitions is listed, the row is the first
    one listed. *)
Theorem table_status_adds_up (rows : list (list Cell)) : Forall typed rows ->
  exists out, status_rows rows = Ok out /\ name_of <$> out = firsts ((fun r => base_name (name_of r)) <$> rows) /\
  forall o, o ∈ out ->
    ((forall r, r ∈ rows -> name_of r <> name_of o) -> summary o (parts (name_of o) rows)) /\
    (Forall (fun r => name_of r = name_of o) (parts (name_of o) rows) -> ~ sharded (name_of o) ->
       exists r rest, parts (name_of o) rows = r :: rest /\ o = <[0%nat := CText (name_of o)]> r).
Proof.
  intros Ht. destruct (status_all rows Ht) as (st & Hst & Hi). exists (snd <$> stRows st). unfold status_rows. rewrite Hst. split; [done|]. split.
  - rewrite <- (si_names _ _ Hi), <- list_fmap_compose. apply list_fmap_ext. intros i [n o] Hl. cbn. by destruct (si_row _ _ Hi _ _ _ Hl) as (_ & -> & _).
  - intros o ([n o'] & -> & Hin)%list_elem_of_fmap. apply list_elem_of_lookup in Hin as [i Hl]. destruct (si_row _ _ Hi _ _ _ Hl) as (_ & <- & Hs & Hg). cbn in *.
    split; [|done]. intros Hno. apply Hs. intros (r & Hr & Hn & _)%(si_global _ _ Hi). by apply (Hno r).
Qed.

(** ** Two backends *)
Definition status_ex (name : string) (rows avg data index : Z) (time : string) : list Cell :=
  [CText name; CText "InnoDB"; CUint 10; CText "Dynamic"; CUint rows; CUint avg; CUint data; CUint 0; CUint index; CUint 0; CNull;
   CTime "2019-04-24 17:36:10"; if decide (time = "") then CNull else CTime time].
Definition status_ex_rows : list (list Cell) :=
  [status_ex "t_0000" 5 20 100 10 "2019-05-04 12:47:45"; status_ex "g" 1 1 16 0 ""; status_ex "t_0001" 7 15 200 30 "2020-01-01 00:00:00";
   status_ex "g" 1 1 16 0 ""].
Lemma status_ex_typed name rows avg data index time t : 0 <= rows < 2 ^ 64 -> 0 <= avg < 2 ^ 64 -> 0 <= data < 2 ^ 64 -> 0 <= index < 2 ^ 64 ->
  time = "" \/ parse_RFC3339 (to_RFC3339 time) = Some t /\ 0 <= t -> typed (status_ex name rows avg data index time).
Proof.
  intros H1 H2 H3 H4 Ht. unfold typed, uint_at, time_at, status_ex. cbn [lookup list_lookup]. split_and!; [by eexists|by eexists..|].
  case_decide; [by left|right]. destruct Ht as [->|[Hp Ht]]; [done|]. by exists time, t.
Qed.
Lemma table_status_adds_up_witness : Forall typed status_ex_rows /\
  exists out, status_rows status_ex_rows = Ok out /\ name_of <$> out = ["t"; "g"] /\ forall o, o ∈ out -> name_of o = "t" -> summary o (parts "t" status_ex_rows).
Proof.
  assert (Forall typed status_ex_rows) as Ht.
  { unfold status_ex_rows. apply Forall_cons_2; [eapply status_ex_typed; [lia..|right; split; [vm_compute; reflexivity|lia]]|].
    apply Forall_cons_2; [by apply (status_ex_typed _ _ _ _ _ _ 0); [..|left]|].
    apply Forall_cons_2; [eapply status_ex_typed; [lia..|right; split; [vm_compute; reflexivity|lia]]|].
    apply Forall_cons_2; [by apply (status_ex_typed _ _ _ _ _ _ 0); [..|left]|]. apply Forall_nil_2. }
  split; [exact Ht|]. destruct (table_status_adds_up status_ex_rows Ht) as (out & Hout & Hnames & Hall). exists out. split; [exact Hout|].
  split; [rewrite Hnames; vm_compute; reflexivity|]. intros o Ho Hn. destruct (Hall o Ho) as [Hs _]. rewrite Hn in Hs. apply Hs.
  intros r Hr. unfold status_ex_rows in Hr. repeat (apply elem_of_cons in Hr as [->|Hr]; [vm_compute; discriminate|]). by apply elem_of_nil in Hr.
Defined.

(** Tables without partitions whose names end like partitions are taken for
    the partitions of one table. *)
Theorem suffixed_tables_merged : exists o, status_rows [status_ex "log_2019" 5 1 1 1 ""; status_ex "log_2020" 7 1 1 1 ""] = Ok [o] /\
  name_of o = "log" /\ value 4 o = 12.
Proof. eexists. vm_compute. done. Qed.

(** ** The other statements *)
Section others.
Context `{R : MapRange, J : JumpHash, SV : Servers}.

(** A user without privileges of its own sees its databases only. *)
Lemma own_databases_filter p user rows s x s' : own_databases p user rows s = (Ok x, s') ->
  x = filter (fun r => (match r !! 0%nat with Some db => CheckDBinUserPrivilege user db p | None => false end) = true) rows.
Proof.
  revert x s s'. induction rows as [|r rows IH]; intros x s s' H; cbn [own_databases] in H; [by injection H as <- _|].
  apply M_bind_inv_Ok in H as (db & s1 & Hc & H). apply cell_value in Hc. apply M_bind_inv_Ok in H as (rs & s2 & Hr & H). apply IH in Hr as ->.
  injection H as <- _. destruct (CheckDBinUserPrivilege user db p) eqn:E.
  - rewrite filter_cons_True by (by rewrite Hc). done.
  - rewrite filter_cons_False; [done|]. by rewrite Hc, E.
Qed.

(** SHOW TABLES lists the tables of the router, not those of the backends. *)
Lemma show_tables_router schema database s x s' : handleShowTables schema database s = (Ok x, s') ->
  let db := if decide (database = "") then schema else database in
  acl_Allow db = true /\ db <> "" /\ x = match Tables (adRouter s) !! db with Some ts => (fun t => [t]) <$> ts | None => [] end.
Proof.
  intros H db. unfold handleShowTables in H. apply M_bind_inv_Ok in H as (d & s1 & Hd & H). unfold show_database in Hd. fold db in Hd.
  destruct (decide (db = "")) as [|Hne]; [done|]. unfold DatabaseACL, mlift, mbind, M_bind in Hd. destruct (acl_Allow db); [|done]. cbn in Hd. injection Hd as <- <-.
  split_and!; [done..|]. apply M_bind_inv_Ok in H as (rows & s2 & He & H). unfold adm_exec in He. destruct (ask _ _ _); [|done]. injection He as <- <-.
  by injection H as <- _.
Qed.
End others.
