(* ===== verification/Commands.v ===== *)
(** * Other commands (src/proxy: usedb.go, initdb.go, checksumtable.go, table_maintenance.go, radon.go)

    Choosing a database, the maintenance statements that collect the answers of
    all partitions, and the administrative statements. *)
From S2P Require Import Prelude GoStd Config Pool Xcontext Partition Compute Router Frm Scatter Sql Shift Admin Rebalance Attach Privilege Show Join.
Open Scope string_scope.
Open Scope list_scope.
Open Scope Z_scope.

(** ** Databases *)
Section databases.
Context `{SV : Servers}.

(** [handleUseDB]: the new database of the session. *)
Definition handleUseDB (db query : string) : AM string :=
  _ ← mlift (of_rt (DatabaseACL db));
  _ ← adm_exec ToOne query;
  mret db.

(** [ComInitDB] *)
Definition ComInitDB (p : PrivSt) (lower : bool) (user database : string) : AM string :=
  _ ← mlift (of_rt (DatabaseACL database));
  let database := if lower then ToLower database else database in
  if negb (CheckUserPrivilegeIsSet user p) && negb (IsSuperPriv user p) && negb (CheckDBinUserPrivilege user database p)
  then mfail (AdDenied user)
  else _ ← adm_exec ToOne ("use " +:+ database); mret database.
End databases.

(** ** Maintenance *)
Section maintenance.
(** [ExecuteNormal] of the statement for one table, and the text of an error. *)
Context {St E : Type}.
Variables (exec_one : TableName -> M St E (list (list Cell))) (err_text : E -> string).

(** The name [db.table] of a row. *)
Definition full_name (database : string) (tbl : TableName) : string :=
  (if decide (tnQualifier tbl = "") then database else tnQualifier tbl) +:+ "." +:+ tnName tbl.

(** [crc += uint32(row[1].ToNative().(int64))] *)
Definition add_crc (crc : Z) (row : list Cell) : res E Z :=
  match row !! 1%nat with Some (CInt n) => Ok (wrap 32 (crc + wrap 32 n)) | _ => Panic end.

(** One table: its name and checksum; [None] is the text NULL. *)
Definition checksum_one (quick : bool) (database : string) (tbl : TableName) : M St E (string * option Z) :=
  let table := full_name database tbl in
  if quick then mret (table, None)
  else
    x ← mtry (exec_one tbl);
    match x with
    | inr e => if Contains (err_text e) "doesn't exist" then mret (table, None) else mfail e
    | inl rows => crc ← mlift (res_fold add_crc 0 rows); mret (table, Some crc)
    end.

(** [handleChecksumTable] *)
Fixpoint handleChecksumTable (quick : bool) (database : string) (tables : list TableName) : M St E (list (string * option Z)) :=
  match tables with
  | [] => mret []
  | t :: ts => r ← checksum_one quick database t; rs ← handleChecksumTable quick database ts; mret (r :: rs)
  end.

(** The rows of all tables; [AppendResult]. *)
Fixpoint collect (tables : list TableName) : M St E (list (list Cell)) :=
  match tables with
  | [] => mret []
  | t :: ts => rows ← exec_one t; rs ← collect ts; mret (rows ++ rs)
  end.

(** [sort.Slice] by the first column, a comparison of bytes. *)
Variable (sort_rows : list (list Cell) -> res E (list (list Cell))).

Definition cell_lt (a b : Cell) : bool := String.ltb (raw a) (raw b).
Definition swap_cells (i : nat) (a b : list Cell) : list Cell * list Cell :=
  match a !! i, b !! i with Some x, Some y => (<[i := y]> a, <[i := x]> b) | _, _ => (a, b) end.

(** [for i := 0; i < len(rows); i += 2]: the row with the larger third column first. *)
Fixpoint status_first (rows : list (list Cell)) : res E (list (list Cell)) :=
  match rows with
  | [] => Ok []
  | [_] => Panic
  | a :: b :: rest =>
      match a !! 2%nat, b !! 2%nat with
      | Some x, Some y =>
          ab ← (if cell_lt x y
                then match a !! 3%nat, b !! 3%nat with
                     | Some _, Some _ => let (a, b) := swap_cells 2 a b in Ok (swap_cells 3 a b)
                     | _, _ => Panic
                     end
                else Ok (a, b));
          rest ← status_first rest;
          Ok (fst ab :: snd ab :: rest)
      | _, _ => Panic
      end
  end.

(** [handleOptimizeTable], [handleCheckTable] *)
Definition handleOptimizeTable (tables : list TableName) : M St E (list (list Cell)) :=
  rows ← collect tables; rows ← mlift (sort_rows rows); mlift (status_first rows).
Definition handleCheckTable (tables : list TableName) : M St E (list (list Cell)) :=
  rows ← collect tables; mlift (sort_rows rows).
End maintenance.

(** ** RADON *)
Definition DetachParamsCount : nat := 1.

(** [sqlparser.Radon]: the action, its parameters and the tables of a reshard. *)
Record RadonStmt := mkRadonStmt { raAction : string; raRow : option (list string); raTable : TableName; raNewName : TableName }.

Section radon.
Context `{R : MapRange, J : JumpHash, SV : Servers}.
Variable (status : string -> ShiftStatus).

Definition no_rows (m : AM unit) : AM Rows := _ ← m; mret [].
Definition own_database (schema : string) (t : TableName) : string := if decide (tnQualifier t = "") then schema else tnQualifier t.

(** [handleRadon]; [now] is the time, [shift] the outcome of a reshard, and
    [migrate] runs the migration a rebalance decides on. *)
Definition handleRadon (schema now peerAddress : string) (readOnly : bool) (shift : option aderr)
    (migrate : ShiftConfig * string -> AM unit) (n : RadonStmt) : AM Rows :=
  match raRow n with
  | Some row =>
      if decide (length row <> DetachParamsCount /\ length row <> AttachParamsCount) then mfail AdParams else mret tt
  | None => mret tt
  end ≫= fun _ =>
  let attachName := match raRow n with Some [v] => v | _ => "" end in
  let a := raAction n in
  if decide (a = "attach") then no_rows (Attach (default [] (raRow n)))
  else if decide (a = "detach") then no_rows (detachHandler attachName)
  else if decide (a = "attachlist") then s ← mget; mret (ListAttach (adWorld s))
  else if decide (a = "reshard") then
    no_rows (_ ← ReShardTable (own_database schema (raTable n)) (tnName (raTable n)) (own_database schema (raNewName n)) (tnName (raNewName n)) shift; mret tt)
  else if decide (a = "cleanup") then no_rows (Cleanup status)
  else if decide (a = "rebalance") then no_rows (c ← Rebalance readOnly peerAddress; migrate c)
  else if decide (a = "xa recover") then xa_Recover
  else if decide (a = "xa commit") then xa_Commit now
  else if decide (a = "xa rollback") then xa_Rollback now
  else mfail AdUnsupported.
End radon.
