(* ===== verification/CommandsProps.v ===== *)
(** * Checksums, maintenance and administrative statements *)
From S2P Require Import Prelude GoStd Config Pool Xcontext Partition Compute Router Frm Scatter Sql Shift Admin Rebalance Attach AttachProps Privilege Show Commands Query QueryProps.
Open Scope string_scope.
Open Scope list_scope.
Open Scope Z_scope.

(** ** Checksums *)
Definition crc_of (row : list Cell) : option Z := match row !! 1%nat with Some (CInt n) => Some n | _ => None end.
Definition crc_sum (rows : list (list Cell)) : Z := foldr (fun row acc => default 0 (crc_of row) + acc) 0 rows.

Lemma crc_fold {E} rows crc : Forall (fun r => is_Some (crc_of r)) rows -> 0 <= crc < 2 ^ 32 ->
  res_fold (E := E) add_crc crc rows = Ok (wrap 32 (crc + crc_sum rows)).
Proof.
  revert crc. induction rows as [|r rows IH]; intros crc Hall Hc; simpl.
  - unfold wrap. by rewrite Z.add_0_r, Z.mod_small.
  - apply Forall_cons in Hall as [[n Hn] Hall]. assert (add_crc (E := E) crc r = Ok (wrap 32 (crc + wrap 32 n))) as ->
      by (unfold add_crc; unfold crc_of in Hn; by destruct (r !! 1%nat) as [[]|]; simplify_eq).
    rewrite Hn. cbn [mbind res_bind]. rewrite IH; [|done|unfold wrap; apply Z.mod_pos_bound; lia]. f_equal. unfold wrap. cbn [default from_option].
    rewrite Z.add_mod_idemp_l by lia. replace (crc + n mod 2 ^ 32 + crc_sum rows) with (crc + crc_sum rows + n mod 2 ^ 32) by lia. rewrite Z.add_mod_idemp_r by lia. f_equal. unfold id. lia.
Qed.

(** The checksum of a table is the sum of those of its partitions modulo 2^32,
    in whatever order the backends answer. *)
Lemma checksum_exact {St E} (exec : TableName -> M St E (list (list Cell))) text database tbl s rows s' :
  exec tbl s = (Ok rows, s') -> Forall (fun r => is_Some (crc_of r)) rows ->
  checksum_one exec text false database tbl s = (Ok (full_name database tbl, Some (wrap 32 (crc_sum rows))), s').
Proof.
  intros He Hall. unfold checksum_one, mbind, M_bind, mtry. rewrite He. cbn. unfold mlift. by rewrite (crc_fold rows 0 Hall ltac:(lia)).
Qed.
Lemma crc_sum_perm rows rows' : rows ≡ₚ rows' -> crc_sum rows = crc_sum rows'.
Proof. intros H. unfold crc_sum. induction H; simpl; lia. Qed.

(** A partition whose checksum is NULL panics. *)
Theorem checksum_null_panics {St E} (exec : TableName -> M St E (list (list Cell))) text database tbl s pre row post s' :
  exec tbl s = (Ok (pre ++ row :: post), s') -> Forall (fun r => is_Some (crc_of r)) pre -> row !! 1%nat = Some CNull ->
  fst (checksum_one exec text false database tbl s) = Panic.
Proof.
  intros He Hall Hr. unfold checksum_one, mbind, M_bind, mtry. rewrite He. cbn. unfold mlift. rewrite res_fold_app, (crc_fold pre 0 Hall ltac:(lia)).
  cbn. unfold add_crc. by rewrite Hr.
Qed.

(** ** Maintenance *)
(** OPTIMIZE takes the rows two by two: an odd number of rows panics. *)
Lemma status_first_odd {E} (rows : list (list Cell)) : Nat.odd (length rows) = true -> forall out, status_first (E := E) rows <> Ok out.
Proof.
  remember (length rows) as n eqn:Hn. revert rows Hn. induction n as [n IH] using lt_wf_ind. intros [|a [|b rows]] Hn Hodd out; simpl in *; subst; try done.
  destruct (a !! 2%nat); [|done]. destruct (b !! 2%nat); [|done]. intros H.
  assert (forall ab, (rest ← status_first (E := E) rows; Ok (fst ab :: snd ab :: rest)) <> Ok out) as Hno.
  { intros ab H'. destruct (status_first rows) as [rest| |] eqn:Es; [|done..]. exact (IH (length rows) ltac:(lia) rows eq_refl Hodd rest Es). }
  destruct (cell_lt _ _); [|by apply (Hno (a, b))]. destruct (a !! 3%nat); [|done]. destruct (b !! 3%nat); [|done].
  destruct (swap_cells 2 a b) as [a1 b1]. by apply (Hno (swap_cells 3 a1 b1)).
Qed.
Lemma status_first_no_error {E} (rows : list (list Cell)) e : status_first (E := E) rows <> Err e.
Proof.
  remember (length rows) as n eqn:Hn. revert rows Hn. induction n as [n IH] using lt_wf_ind. intros [|a [|b rows]] Hn; simpl in *; subst; try done.
  destruct (a !! 2%nat); [|done]. destruct (b !! 2%nat); [|done]. intros H.
  assert (forall ab, (rest ← status_first (E := E) rows; Ok (fst ab :: snd ab :: rest)) <> Err e) as Hno.
  { intros ab H'. destruct (status_first rows) as [rest|e'|] eqn:Es; [done| |done]. injection H' as ->. exact (IH (length rows) ltac:(lia) rows eq_refl Es). }
  destruct (cell_lt _ _); [|by apply (Hno (a, b))]. destruct (a !! 3%nat); [|done]. destruct (b !! 3%nat); [|done].
  destruct (swap_cells 2 a b) as [a1 b1]. by apply (Hno (swap_cells 3 a1 b1)).
Qed.
Theorem optimize_odd_panics {St E} (exec : TableName -> M St E (list (list Cell))) sort tables s rows s1 sorted :
  collect exec tables s = (Ok rows, s1) -> sort rows = Ok sorted -> sorted ≡ₚ rows -> Nat.odd (length rows) = true ->
  fst (handleOptimizeTable exec sort tables s) = Panic.
Proof.
  intros Hc Hs Hp Hodd. unfold handleOptimizeTable, mbind, M_bind. rewrite Hc. unfold mlift. rewrite Hs. cbn.
  rewrite <- (Permutation_length Hp) in Hodd. destruct (status_first sorted) as [out|e|] eqn:E1; [|by apply status_first_no_error in E1|done].
  by eapply status_first_odd in E1.
Qed.

(** ** Databases *)
(** USE skips the check that COM_INIT_DB makes. *)
Theorem use_skips_privileges `{SV : Servers} p user db query rows s : acl_Allow db = true -> ask (adSent s) ToOne query = Some rows ->
  CheckUserPrivilegeIsSet user p = false -> IsSuperPriv user p = false -> CheckDBinUserPrivilege user db p = false ->
  fst (handleUseDB db query s) = Ok db /\ fst (ComInitDB p false user db s) = Err (AdDenied user).
Proof.
  intros Ha Hq H1 H2 H3. unfold handleUseDB, ComInitDB, DatabaseACL, mlift, mbind, M_bind. rewrite Ha. cbn. rewrite H1, H2, H3. unfold adm_exec. by rewrite Hq.
Qed.

(** ** Administration under read-only *)
(** The statements the read-only check lets pass change neither router nor
    backends. *)
Lemma radon_reads_still `{R : MapRange, J : JumpHash, SV : Servers} status schema now peer ro shift migrate n :
  raAction n ∈ radon_reads -> still (handleRadon status schema now peer ro shift migrate n).
Proof.
  intros Hn. apply still_bind; [destruct (raRow n); [case_decide; intros a; done|apply still_ret]|]. intros _. unfold radon_reads in Hn.
  apply elem_of_cons in Hn as [->|Hn]; [|apply list_elem_of_singleton in Hn as ->]; cbn -[ListAttach]; [intros a; done|]. apply still_exec.
Qed.
