(* ===== verification/Rfile.v ===== *)
(** * Rotating log files and the audit log (src/xbase/rfile.go, src/audit/audit.go)

    Events are written to a file until it is larger than the limit, then to a
    new one.  A file is named after the time it was opened, in milliseconds; the
    model names it by that time.  Other files of the directory are not looked
    at. *)
From S2P Require Import Prelude GoStd.
Open Scope string_scope.
Open Scope list_scope.
Open Scope Z_scope.

(** The outcome of a call: fine, or an error after some bytes. *)
Inductive wio := WOk | WFail (n : nat).

(** [rotateFile.file]: nil, open at an offset, or closed. *)
Inductive Handle := FNil | FOpen (ts : Z) (off : nat) | FClosed.

(** [rotateFile] with the directory, the number of files opened so far and the
    outcomes of the calls to come. *)
Record Rf := mkRf { rfSize : Z; rfMax : Z; rfFile : Handle; rfName : option Z; rfDir : gmap Z string; rfOpened : nat; rfIo : list wio }.
Inductive rferr := RfIO | RfInvalid | RfClosed | RfName.
Abbreviation RfM := (M Rf rferr).

Definition set_handle (h : Handle) (s : Rf) : Rf := mkRf (rfSize s) (rfMax s) h (rfName s) (rfDir s) (rfOpened s) (rfIo s).
Definition rf_io : RfM wio := fun s =>
  match rfIo s with [] => (Ok WOk, s) | x :: l => (Ok x, mkRf (rfSize s) (rfMax s) (rfFile s) (rfName s) (rfDir s) (rfOpened s) l) end.
Definition rf_call : RfM unit := x ← rf_io; match x with WOk => mret tt | WFail _ => mfail RfIO end.

(** Bytes of a file from an offset on are replaced. *)
Definition write_at (content : string) (off : nat) (b : string) : string :=
  String.substring 0 off content +:+ b +:+ String.substring (off + String.length b) (String.length content - (off + String.length b)) content.

Section rfile.
(** The time of each opening. *)
Variable (now : nat -> Z).

(** [NewRotateFile] *)
Definition NewRotateFile (maxSize : Z) (dir : gmap Z string) (io : list wio) : Rf := mkRf 0 maxSize FNil None dir 0 io.

(** [openNew]: an existing file is opened at its start and keeps its contents. *)
Definition openNew : RfM unit :=
  s ← mget;
  let ts := now (rfOpened s) in
  _ ← mmodify (fun s => mkRf (rfSize s) (rfMax s) (rfFile s) (Some ts) (rfDir s) (S (rfOpened s)) (rfIo s));
  _ ← rf_call;
  mmodify (fun s => mkRf 0 (rfMax s) (FOpen ts 0) (rfName s) (<[ts := default "" (rfDir s !! ts)]> (rfDir s)) (rfOpened s) (rfIo s)).

(** [f.file.Sync()], [f.file.Close()] *)
Definition file_Sync : RfM unit :=
  s ← mget; match rfFile s with FNil => mfail RfInvalid | FClosed => mfail RfClosed | FOpen _ _ => rf_call end.
Definition file_Close : RfM unit :=
  s ← mget;
  match rfFile s with
  | FNil => mfail RfInvalid
  | FClosed => mfail RfClosed
  | FOpen _ _ => _ ← mmodify (set_handle FClosed); rf_call
  end.

(** [rotate] *)
Definition rotate : RfM unit := _ ← file_Sync; _ ← file_Close; openNew.

(** [f.file.Write(b)] *)
Definition put_bytes (ts : Z) (off : nat) (b : string) (s : Rf) : Rf :=
  mkRf (rfSize s) (rfMax s) (FOpen ts (off + String.length b)) (rfName s)
    (<[ts := write_at (default "" (rfDir s !! ts)) off b]> (rfDir s)) (rfOpened s) (rfIo s).
Definition file_Write (b : string) : RfM nat :=
  s ← mget;
  match rfFile s with
  | FNil => mfail RfInvalid
  | FClosed => mfail RfClosed
  | FOpen ts off =>
      x ← rf_io;
      match x with
      | WOk => _ ← mmodify (put_bytes ts off b); mret (String.length b)
      | WFail n => _ ← mmodify (put_bytes ts off (String.substring 0 n b)); mfail RfIO
      end
  end.

(** [Write] *)
Definition rf_Write (b : string) : RfM nat :=
  s ← mget;
  _ ← (match rfFile s with FNil => _ ← mtry openNew; mret tt | _ => mret tt end);
  n ← file_Write b;
  _ ← mmodify (fun s => mkRf (rfSize s + Z.of_nat n) (rfMax s) (rfFile s) (rfName s) (rfDir s) (rfOpened s) (rfIo s));
  s ← mget;
  if rfMax s <? rfSize s then _ ← rotate; mret n else mret n.

(** [Sync], [Close] *)
Definition rf_Sync : RfM unit := file_Sync.
Definition rf_Close : RfM unit :=
  s ← mget; match rfFile s with FNil => mret tt | _ => _ ← mtry file_Close; mmodify (set_handle FNil) end.

(** ** Listing *)

(** [logInfos], sorted by time; no two files have the same time. *)
Definition logInfos (s : Rf) : list Z := merge_sort Z.le (elements (dom (rfDir s))).

(** [GetOldLogInfos] *)
Definition GetOldLogInfos (s : Rf) : list Z := take (length (logInfos s) - 1) (logInfos s).

(** [sort.Search(n, f)]: the loop with at most [n] steps. *)
Fixpoint search_loop (f : nat -> bool) (fuel i j : nat) : nat :=
  match fuel with
  | O => i
  | S fuel =>
      if (i <? j)%nat then
        let h := Nat.div (i + j) 2 in
        if f h then search_loop f fuel i h else search_loop f fuel (S h) j
      else i
  end.
Definition sort_Search (n : nat) (f : nat -> bool) : nat := search_loop f n 0 n.

(** [GetCurrLogInfo] *)
Definition GetCurrLogInfo (ts : Z) (s : Rf) : option Z :=
  let infos := reverse (logInfos s) in
  let i := sort_Search (length infos) (fun i => match infos !! i with Some t => t <=? ts | None => false end) in
  match infos !! i with
  | Some t => Some t
  | None => match last infos with Some t => if ts <? t then Some t else None | None => None end
  end.

(** [GetNextLogInfo]; the argument is empty, the name of a log file, or else. *)
Inductive LogName := LogEmpty | LogTs (ts : Z) | LogBad.
Definition GetNextLogInfo (n : LogName) (s : Rf) : res rferr (option Z) :=
  let infos := logInfos s in
  match n with
  | LogEmpty => Ok (head infos)
  | LogBad => Err RfName
  | LogTs ts => Ok (infos !! sort_Search (length infos) (fun i => match infos !! i with Some t => ts <? t | None => false end))
  end.

(** ** The audit *)

(** [writeEvent]: an error of the write is only logged. *)
Definition writeEvent (json : string) : RfM unit := _ ← mtry (rf_Write (json +:+ String "010" "")); mret tt.
(** [eventConsumer]: the events of the queue in order. *)
Definition eventConsumer (events : list string) : RfM unit := miter writeEvent events.

(** [doPurge] at a time, in milliseconds. *)
Definition is_expired (hours time ts : Z) : bool := hours <? Z.quot (time - ts) 3600000.
Definition doPurge (hours time : Z) (s : Rf) : Rf :=
  if hours =? 0 then s
  else foldl (fun s ts => if is_expired hours time ts then mkRf (rfSize s) (rfMax s) (rfFile s) (rfName s) (delete ts (rfDir s)) (rfOpened s) (rfIo s) else s)
         s (GetOldLogInfos s).
End rfile.
