(* ===== verification/RfileProps.v ===== *)
(** * The rotating log keeps what is written *)
From S2P Require Import Prelude GoStd Rfile.
Open Scope string_scope.
Open Scope list_scope.
Open Scope Z_scope.

(** ** Binary search *)

(** Once true, always true. *)
Definition monotone (n : nat) (f : nat -> bool) : Prop := forall i j, (i <= j < n)%nat -> f i = true -> f j = true.

Lemma search_loop_spec f n fuel i j : monotone n f -> (j - i <= fuel)%nat -> (i <= j <= n)%nat ->
  (forall k, (k < i)%nat -> f k = false) -> (forall k, (j <= k < n)%nat -> f k = true) ->
  let r := search_loop f fuel i j in (r <= n)%nat /\ (forall k, (k < r)%nat -> f k = false) /\ (forall k, (r <= k < n)%nat -> f k = true).
Proof.
  intros Hm. revert i j. induction fuel as [|fuel IH]; intros i j Hf Hij Hlo Hhi; cbn [search_loop].
  - split_and!; [lia|done|]. intros k Hk. apply Hhi. lia.
  - destruct (Nat.ltb_spec i j) as [Hlt|Hge]; [|split_and!; [lia|done|intros k Hk; apply Hhi; lia]].
    pose proof (Nat.Div0.div_le_mono (2 * i) (i + j) 2 ltac:(lia)) as H1. rewrite Nat.mul_comm, Nat.div_mul in H1 by lia.
    pose proof (Nat.Div0.div_lt_upper_bound (i + j) 2 j ltac:(lia)) as H2.
    destruct (f (Nat.div (i + j) 2)) eqn:E; apply IH; try lia; try done.
    + intros k Hk. apply (Hm (Nat.div (i + j) 2)); [lia|done].
    + intros k Hk. destruct (f k) eqn:Ek; [|done]. rewrite (Hm k (Nat.div (i + j) 2)) in E; [done|lia|done].
Qed.

(** [sort.Search] finds the first index where a monotone predicate holds. *)
Lemma sort_Search_first n f : monotone n f ->
  (sort_Search n f <= n)%nat /\ (forall k, (k < sort_Search n f)%nat -> f k = false) /\ (forall k, (sort_Search n f <= k < n)%nat -> f k = true).
Proof. intros Hm. apply search_loop_spec; [done|lia|lia|lia|lia]. Qed.

(** ** The files in order *)
Lemma logInfos_perm s : logInfos s ≡ₚ elements (dom (rfDir s)).
Proof. apply merge_sort_Permutation. Qed.
Lemma logInfos_sorted s : StronglySorted Z.le (logInfos s).
Proof. apply (StronglySorted_merge_sort Z.le). Qed.
Lemma logInfos_elem s ts : ts ∈ logInfos s <-> is_Some (rfDir s !! ts).
Proof. rewrite logInfos_perm, elem_of_elements. apply elem_of_dom. Qed.
Lemma sorted_lookup (R : relation Z) l i j a b : StronglySorted R l -> l !! i = Some a -> l !! j = Some b -> (i < j)%nat -> R a b.
Proof.
  intros H. revert i j. induction H as [|x l Hs IH Hall]; intros i j Hi Hj Hij; [done|]. destruct j as [|j]; [lia|]. destruct i as [|i]; simpl in *.
  - injection Hi as ->. rewrite Forall_forall in Hall. apply Hall. by eapply list_elem_of_lookup_2.
  - eapply IH; [done|done|lia].
Qed.
Lemma logInfos_lt s i j a b : logInfos s !! i = Some a -> logInfos s !! j = Some b -> (i < j)%nat -> a < b.
Proof.
  intros Hi Hj Hij. assert (a <= b) as Hle by (eapply (sorted_lookup Z.le); [apply logInfos_sorted|done..]).
  assert (NoDup (logInfos s)) as Hnd by (rewrite logInfos_perm; apply NoDup_elements).
  destruct (decide (a = b)) as [->|]; [|lia]. pose proof (NoDup_lookup _ _ _ _ Hnd Hi Hj). lia.
Qed.

(** [GetNextLogInfo] gives the next file, so that walking from the empty name
    visits every file once and in order. *)
Lemma GetNextLogInfo_next s ts : exists r, GetNextLogInfo (LogTs ts) s = Ok r /\
  match r with
  | Some t => is_Some (rfDir s !! t) /\ ts < t /\ forall t', is_Some (rfDir s !! t') -> ts < t' -> t <= t'
  | None => forall t', is_Some (rfDir s !! t') -> t' <= ts
  end.
Proof.
  unfold GetNextLogInfo. set (f := fun i => match logInfos s !! i with Some t => ts <? t | None => false end). eexists. split; [done|].
  assert (monotone (length (logInfos s)) f) as Hm.
  { intros i j Hij. unfold f. destruct (logInfos s !! i) as [a|] eqn:Ei; [|done]. intros Ha%Z.ltb_lt.
    destruct (lookup_lt_is_Some_2 (logInfos s) j) as [b Eb]; [lia|]. rewrite Eb. apply Z.ltb_lt.
    destruct (decide (i = j)) as [->|]; [rewrite Ei in Eb; by injection Eb as <-|]. pose proof (logInfos_lt s i j a b Ei Eb). lia. }
  destruct (sort_Search_first _ f Hm) as (Hr & Hlo & Hhi). set (r := sort_Search (length (logInfos s)) f) in *.
  assert (forall t', is_Some (rfDir s !! t') -> ts < t' -> exists j, logInfos s !! j = Some t' /\ (r <= j)%nat) as Hafter.
  { intros t' [j Hj]%logInfos_elem%list_elem_of_lookup Hlt. exists j. split; [done|]. destruct (decide (j < r)%nat) as [Hjr|]; [|lia].
    specialize (Hlo j Hjr). unfold f in Hlo. rewrite Hj in Hlo. apply Z.ltb_ge in Hlo. lia. }
  destruct (logInfos s !! r) as [t|] eqn:Et.
  - split; [apply logInfos_elem; by eapply list_elem_of_lookup_2|]. specialize (Hhi r (conj (le_n r) (lookup_lt_Some _ _ _ Et))). unfold f in Hhi.
    rewrite Et in Hhi. apply Z.ltb_lt in Hhi. split; [done|]. intros t' Ht' Hlt. destruct (Hafter t' Ht' Hlt) as (j & Hj & Hrj).
    destruct (decide (r = j)) as [->|]; [rewrite Et in Hj; injection Hj as <-; lia|]. pose proof (logInfos_lt s r j t t' Et Hj). lia.
  - intros t' Ht'. destruct (decide (ts < t')) as [Hlt|]; [|lia]. destruct (Hafter t' Ht' Hlt) as (j & Hj & Hrj).
    apply lookup_ge_None in Et. apply lookup_lt_Some in Hj. lia.
Qed.

(** ** Writing *)
Definition joined (l : list string) : string := foldr String.append "" l.
Definition contents (s : Rf) : list string := (fun ts => default "" (rfDir s !! ts)) <$> logInfos s.

Lemma joined_app l k : joined (l ++ k) = joined l +:+ joined k.
Proof. induction l as [|x l IH]; [done|]. unfold joined in *. simpl. rewrite IH. by rewrite str_app_assoc. Qed.
Lemma substring_all s : String.substring 0 (String.length s) s = s.
Proof. induction s as [|c s IH]; [done|]. simpl. by rewrite IH. Qed.
Lemma substring_none m s : String.substring m 0 s = "".
Proof. revert m. induction s as [|c s IH]; intros [|m]; simpl; try done. Qed.
Lemma write_at_end c b : write_at c (String.length c) b = c +:+ b.
Proof.
  unfold write_at. rewrite substring_all. replace (String.length c - (String.length c + String.length b))%nat with 0%nat by lia.
  by rewrite substring_none, str_app_nil_r.
Qed.

Section writes.
Variables (now : nat -> Z) (biggest : Z) (old : list (Z * string)).
Hypothesis (now_up : forall k, now k < now (S k)).

(** After the files that were there, the finished files, oldest first, and the
    open one. *)
Record ready (fs : list (Z * string)) (ts : Z) (cur : string) (s : Rf) : Prop := {
  r_dir : rfDir s = <[ts := cur]> (list_to_map (old ++ fs));
  r_sorted : StronglySorted Z.lt ((fst <$> old ++ fs) ++ [ts]);
  r_file : rfFile s = FOpen ts (String.length cur);
  r_size : rfSize s = Z.of_nat (String.length cur);
  r_next : ts < now (rfOpened s);
  r_io : rfIo s = [];
  r_fits : Z.of_nat (String.length cur) <= rfMax s;
  r_full : Forall (fun f => rfMax s < Z.of_nat (String.length (snd f)) <= rfMax s + biggest) fs
}.

Lemma sorted_lt_le (l : list Z) : StronglySorted Z.lt l -> StronglySorted Z.le l /\ NoDup l.
Proof.
  induction 1 as [|x l Hs [IH1 IH2] Hall]; [by split; constructor|]. split; constructor; try done.
  - eapply Forall_impl; [exact Hall|]. simpl. lia.
  - intros Hin. rewrite Forall_forall in Hall. specialize (Hall _ Hin). lia.
Qed.

(** What is in the directory. *)
Lemma files_listed fs s : rfDir s = list_to_map fs -> StronglySorted Z.lt (fst <$> fs) -> logInfos s = fst <$> fs /\ contents s = snd <$> fs.
Proof.
  intros Hd Hs. apply sorted_lt_le in Hs as [Hs Hn]. assert (logInfos s = fst <$> fs) as E.
  { apply (StronglySorted_unique Z.le); [apply logInfos_sorted|done|]. rewrite logInfos_perm, Hd, dom_list_to_map_L.
    apply NoDup_Permutation; [apply NoDup_elements|done|]. intros x. by rewrite elem_of_elements, elem_of_list_to_set. }
  split; [done|]. unfold contents. rewrite E, Hd, <- list_fmap_compose. apply list_fmap_ext. intros i [k v] Hl. simpl.
  rewrite (elem_of_list_to_map_1 fs k v); [done|done|by eapply list_elem_of_lookup_2].
Qed.

Lemma ready_listed fs ts cur s : ready fs ts cur s -> rfDir s = list_to_map ((old ++ fs) ++ [(ts, cur)]) /\ StronglySorted Z.lt (fst <$> (old ++ fs) ++ [(ts, cur)]).
Proof.
  intros H. rewrite (fmap_app _ (old ++ fs)). split; [|apply (r_sorted _ _ _ _ H)]. rewrite (r_dir _ _ _ _ H). symmetry. apply list_to_map_snoc.
  pose proof (r_sorted _ _ _ _ H) as Hs. apply sorted_lt_le in Hs as [_ Hn]. apply NoDup_app in Hn as (_ & Hn & _). intros Hin. apply (Hn _ Hin). set_solver.
Qed.

Lemma sorted_snoc (l : list Z) ts t : StronglySorted Z.lt (l ++ [ts]) -> ts < t -> StronglySorted Z.lt ((l ++ [ts]) ++ [t]).
Proof.
  induction l as [|x l IH]; simpl; intros Hs Ht; [repeat constructor; done|]. apply StronglySorted_inv in Hs as [Hs Hall]. constructor; [by apply IH|].
  apply Forall_app. split; [done|]. constructor; [|done]. apply Forall_app in Hall as [_ Hall]. apply Forall_cons in Hall as [Hx _]. lia.
Qed.

(** Opening the next file. *)
Lemma openNew_fresh s : rfIo s = [] -> rfDir s !! now (rfOpened s) = None ->
  openNew now s = (Ok tt, mkRf 0 (rfMax s) (FOpen (now (rfOpened s)) 0) (Some (now (rfOpened s))) (<[now (rfOpened s) := ""]> (rfDir s)) (S (rfOpened s)) []).
Proof. intros Hi Hd. destruct s as [a b c d e f g]. cbn in *. subst g. unfold openNew, mbind, M_bind, mget, mmodify, rf_call, rf_io. cbn. unfold mbind, M_bind. cbn. by rewrite Hd. Qed.

Lemma write_ready fs ts cur s b : ready fs ts cur s -> Z.of_nat (String.length b) <= biggest -> exists fs' ts' cur' s',
  rf_Write now b s = (Ok (String.length b), s') /\ ready fs' ts' cur' s' /\ rfMax s' = rfMax s /\
  joined (snd <$> fs') +:+ cur' = (joined (snd <$> fs) +:+ cur) +:+ b.
Proof.
  intros H Hb. destruct (ready_listed _ _ _ _ H) as [Hl Hs]. destruct H as [Hd Hso Hf Hsz Hn Hio Hfit Hfull].
  unfold rf_Write, mbind, M_bind, mget. rewrite Hf. cbn. unfold file_Write, mbind, M_bind, mget. rewrite Hf. unfold rf_io. rewrite Hio. cbn.
  rewrite Hd, lookup_insert_eq. cbn. rewrite write_at_end, insert_insert_eq, Hsz, <- Nat2Z.inj_add, <- string_length_app.
  destruct (Z.ltb_spec (rfMax s) (Z.of_nat (String.length (cur +:+ b)))) as [Hlt|Hge].
  - unfold rotate, file_Sync, file_Close, mbind, M_bind, mget. cbn. unfold rf_call, rf_io, mbind, M_bind. cbn. rewrite Hio. cbn. rewrite openNew_fresh.
    + cbn. exists (fs ++ [(ts, cur +:+ b)]), (now (rfOpened s)), "". eexists. split; [done|]. split.
      * split; cbn; try done; [|rewrite app_assoc, (fmap_app _ (old ++ fs)); apply (sorted_snoc _ _ _ Hso Hn)|lia|].
        -- f_equal. rewrite app_assoc, list_to_map_snoc; [done|]. apply sorted_lt_le in Hso as [_ Hnd]. apply NoDup_app in Hnd as (_ & Hnd & _).
           intros Hin. apply (Hnd _ Hin). set_solver.
        -- apply Forall_app. split; [done|]. constructor; [|done]. simpl. rewrite string_length_app in *. lia.
      * split; [done|]. rewrite fmap_app, joined_app. cbn. by rewrite !str_app_nil_r, str_app_assoc.
    + done.
    + cbn. destruct (decide (now (rfOpened s) = ts)) as [Heq|Hne]; [lia|]. rewrite lookup_insert_ne by done. apply not_elem_of_list_to_map_1. intros Hin.
      apply list_elem_of_lookup in Hin as [i Hi]. assert (now (rfOpened s) < ts) as Hlt2; [|lia].
      eapply (sorted_lookup Z.lt _ i (length (fst <$> old ++ fs)) _ _ Hso); [by rewrite lookup_app_l by (by eapply lookup_lt_Some)|by rewrite lookup_app_r, Nat.sub_diag|by eapply lookup_lt_Some].
  - exists fs, ts, (cur +:+ b). eexists. split; [done|]. split; [|split; [done|by rewrite str_app_assoc]]. split; cbn; try done.
Qed.

(** All lines of the queue. *)
Definition line (json : string) : string := json +:+ String "010" "".
Lemma consume_ready events fs ts cur s : ready fs ts cur s -> Forall (fun e => Z.of_nat (String.length (line e)) <= biggest) events -> exists fs' ts' cur' s',
  eventConsumer now events s = (Ok tt, s') /\ ready fs' ts' cur' s' /\ rfMax s' = rfMax s /\
  joined (snd <$> fs') +:+ cur' = (joined (snd <$> fs) +:+ cur) +:+ joined (line <$> events).
Proof.
  revert fs ts cur s. induction events as [|e events IH]; intros fs ts cur s H Hall.
  { exists fs, ts, cur, s. split_and!; try done. cbn. by rewrite str_app_nil_r. }
  apply Forall_cons in Hall as [He Hall]. destruct (write_ready _ _ _ _ _ H He) as (fs1 & ts1 & cur1 & s1 & Hw & H1 & Hm & Hj).
  destruct (IH _ _ _ _ H1 Hall) as (fs2 & ts2 & cur2 & s2 & Hw2 & H2 & Hm2 & Hj2). exists fs2, ts2, cur2, s2. split_and!; [|done|congruence|].
  - unfold eventConsumer in *. cbn [miter]. unfold mbind at 1, M_bind at 1, writeEvent at 1, mbind, M_bind, mtry. unfold line in Hw. rewrite Hw. exact Hw2.
  - rewrite Hj2, Hj. cbn. by rewrite str_app_assoc.
Qed.

(** The first write opens a file. *)
Lemma first_write_opens b s s1 : rfFile s = FNil -> openNew now s = (Ok tt, s1) -> rf_Write now b s = rf_Write now b s1.
Proof.
  intros Hf Ho. assert (exists ts, rfFile s1 = FOpen ts 0) as [ts Hf1].
  { unfold openNew, mbind, M_bind, mget, mmodify in Ho. cbn in Ho. unfold rf_call, mbind, M_bind in Ho.
    destruct (rf_io _) as [[[]| |] s2]; cbn in Ho; try done. injection Ho as <-. by eexists. }
  unfold rf_Write at 1, mbind, M_bind at 1, mget at 1. rewrite Hf. unfold mtry. cbn. unfold M_bind. rewrite Ho. cbn.
  unfold rf_Write, mbind, M_bind, mget. by rewrite Hf1.
Qed.
End writes.

(** The first event of a new log. *)
Lemma new_log_ready now biggest old limit s1 : (forall k, now k < now (S k)) -> 0 <= limit -> StronglySorted Z.lt (fst <$> old) -> Forall (fun f => fst f < now 0%nat) old ->
  openNew now (NewRotateFile limit (list_to_map old) []) = (Ok tt, s1) -> ready now biggest old [] (now 0%nat) "" s1 /\ rfMax s1 = limit.
Proof.
  intros Hup Hlim Hs Hold. assert (list_to_map (M := gmap Z string) old !! now 0%nat = None) as Hn.
  { apply not_elem_of_list_to_map_1. intros (f & Hf & Hin)%list_elem_of_fmap. rewrite Forall_forall in Hold. specialize (Hold _ Hin). lia. }
  rewrite openNew_fresh by done. intros [= <-]. split; [|done]. split; cbn; try done; rewrite ?app_nil_r; try done.
  clear Hn. induction old as [|f old IH]; simpl in *; [repeat constructor|]. apply StronglySorted_inv in Hs as [Hs Hall]. apply Forall_cons in Hold as [Hf Hold].
  constructor; [by apply IH|]. apply Forall_app. split; [done|by constructor].
Qed.

(** C39: Whatever the sizes of the events, the audit log loses nothing: with calls
    that succeed and a clock that gives every file its own name, the files that
    were there keep their contents and the new files, oldest first, read the
    lines of the queue in order; every finished file is larger than the limit,
    by at most one line, and the open one is not. *)
Theorem audit_log_refines now old limit biggest e events :
  (forall k, now k < now (S k)) -> 0 <= limit -> StronglySorted Z.lt (fst <$> old) -> Forall (fun f => fst f < now 0%nat) old ->
  Forall (fun x => Z.of_nat (String.length (line x)) <= biggest) (e :: events) ->
  exists done cur s', eventConsumer now (e :: events) (NewRotateFile limit (list_to_map old) []) = (Ok tt, s') /\
    contents s' = (snd <$> old) ++ done ++ [cur] /\ joined (done ++ [cur]) = joined (line <$> e :: events) /\
    Forall (fun c => limit < Z.of_nat (String.length c) <= limit + biggest) done /\ Z.of_nat (String.length cur) <= limit.
Proof.
  intros Hup Hlim Hs Hold Hall. set (s0 := NewRotateFile limit (list_to_map old) []).
  destruct (openNew now s0) as [r s1] eqn:Ho. assert (r = Ok tt) as ->.
  { revert Ho. unfold openNew, mbind, M_bind, mget, mmodify, rf_call, rf_io. cbn. unfold mbind, M_bind. cbn. by intros [= <-]. }
  destruct (new_log_ready now biggest old limit s1 Hup Hlim Hs Hold Ho) as [H1 Hm].
  destruct (consume_ready now biggest old Hup (e :: events) _ _ _ _ H1 Hall) as (fs & ts & cur & s' & Hc & H' & Hm' & Hj).
  exists (snd <$> fs), cur, s'. assert (eventConsumer now (e :: events) s0 = eventConsumer now (e :: events) s1) as ->.
  { unfold eventConsumer. cbn [miter]. unfold mbind at 1, M_bind at 1, writeEvent at 1. unfold mbind at 2, M_bind at 2, writeEvent at 2.
    unfold mbind, M_bind, mtry. by rewrite (first_write_opens now _ s0 s1 eq_refl Ho). }
  split; [exact Hc|]. destruct (ready_listed now biggest old Hup _ _ _ _ H') as [Hl Hso]. destruct (files_listed _ _ Hl Hso) as [_ Hco]. rewrite Hm in Hm'.
  split_and!.
  - rewrite Hco, !fmap_app. cbn. by rewrite <- app_assoc.
  - rewrite joined_app. cbn [joined foldr]. rewrite str_app_nil_r, Hj. done.
  - apply Forall_fmap. rewrite <- Hm'. eapply r_full, H'.
  - rewrite <- Hm'. eapply r_fits, H'.
Qed.

(** The log that was there, a file that grows past the limit, and the open one. *)
Lemma audit_log_refines_witness : exists done cur s',
  eventConsumer (fun k => 10 + Z.of_nat k) ["ab"; "c"; "d"] (NewRotateFile 4 (list_to_map [(7, "old")]) []) = (Ok tt, s') /\
    contents s' = ["old"] ++ done ++ [cur] /\ joined (done ++ [cur]) = joined (line <$> ["ab"; "c"; "d"]) /\
    Forall (fun c => 4 < Z.of_nat (String.length c) <= 4 + 3) done /\ Z.of_nat (String.length cur) <= 4.
Proof.
  apply (audit_log_refines (fun k => 10 + Z.of_nat k) [(7, "old")] 4 3 "ab" ["c"; "d"]); [lia|lia|by repeat constructor|by repeat constructor|].
  repeat (constructor; [vm_compute; discriminate|]). constructor.
Defined.

(** ** Purging *)

Lemma purge_fold hours time l s :
  let s' := foldl (fun s ts => if is_expired hours time ts then mkRf (rfSize s) (rfMax s) (rfFile s) (rfName s) (delete ts (rfDir s)) (rfOpened s) (rfIo s) else s) s l in
  forall ts, rfDir s' !! ts = if decide (ts ∈ l /\ is_expired hours time ts = true) then None else rfDir s !! ts.
Proof.
  revert s. induction l as [|x l IH]; intros s s' ts; subst s'; cbn [foldl].
  { case_decide as Hd; [|done]. by destruct Hd as [[]%not_elem_of_nil _]. }
  rewrite IH. clear IH. assert (ts ∈ x :: l <-> ts = x \/ ts ∈ l) as Hin by apply elem_of_cons.
  destruct (decide (ts = x)) as [<-|Hne]; [|destruct (is_expired hours time x) eqn:Ex; cbn [rfDir]; [rewrite lookup_delete_ne by congruence|]; case_decide; case_decide; tauto].
  destruct (is_expired hours time ts) eqn:Ex; cbn [rfDir]; case_decide; case_decide; rewrite ?lookup_delete_eq; intuition congruence.
Qed.

(** The old files are all but the newest. *)
Lemma GetOldLogInfos_elem s ts : ts ∈ GetOldLogInfos s <-> is_Some (rfDir s !! ts) /\ exists t, is_Some (rfDir s !! t) /\ ts < t.
Proof.
  unfold GetOldLogInfos. rewrite list_elem_of_lookup. split.
  - intros [i Hi]. apply lookup_take_Some in Hi as [Hi Hlt]. split; [apply logInfos_elem; by eapply list_elem_of_lookup_2|].
    destruct (lookup_lt_is_Some_2 (logInfos s) (S i)) as [t Ht]; [lia|]. exists t. split; [apply logInfos_elem; by eapply list_elem_of_lookup_2|].
    eapply logInfos_lt; [done|done|lia].
  - intros [Hin (t & Ht & Hlt)]. apply logInfos_elem, list_elem_of_lookup in Hin as [i Hi]. apply logInfos_elem, list_elem_of_lookup in Ht as [j Hj].
    exists i. apply lookup_take_Some. split; [done|]. pose proof (lookup_lt_Some _ _ _ Hi). pose proof (lookup_lt_Some _ _ _ Hj).
    destruct (decide (i < j)%nat); [lia|]. destruct (decide (i = j)) as [->|]; [rewrite Hi in Hj; injection Hj as ->; lia|].
    pose proof (logInfos_lt s j i t ts Hj Hi). lia.
Qed.

(** A purge removes the expired files but the newest, and nothing else. *)
Lemma doPurge_exact hours time s ts : hours <> 0 -> is_Some (rfDir s !! ts) ->
  (rfDir (doPurge hours time s) !! ts = None <-> is_expired hours time ts = true /\ exists t, is_Some (rfDir s !! t) /\ ts < t) /\
  (forall c, rfDir (doPurge hours time s) !! ts = Some c -> rfDir s !! ts = Some c).
Proof.
  intros Hh Hs. unfold doPurge. destruct (Z.eqb_spec hours 0); [done|]. rewrite purge_fold.
  pose proof (GetOldLogInfos_elem s ts) as Ho. destruct Hs as [c Hc]. case_decide as Hn; [naive_solver|].
  rewrite Hc. split; [|done]. split; [done|]. intros [He Ht]. destruct Hn. split; [|done]. apply Ho. naive_solver.
Qed.

(** ** Findings *)

(** Two files opened within one millisecond are one file: it is opened without
    truncating or appending, and the second overwrites the first. *)
Lemma same_millisecond_overwrites : exists s',
  eventConsumer (fun _ => 10) ["first"; "second"] (NewRotateFile 3 ∅ []) = (Ok tt, s') /\ contents s' = [line "second"].
Proof.
  exists (snd (eventConsumer (fun _ => 10) ["first"; "second"] (NewRotateFile 3 ∅ []))). split; vm_compute; reflexivity.
Qed.

Lemma closed_log_stops now events s : rfFile s = FClosed -> eventConsumer now events s = (Ok tt, s).
Proof.
  intros Hf. unfold eventConsumer. induction events as [|e events IH]; [done|]. cbn [miter]. unfold mbind at 1, M_bind at 1.
  assert (writeEvent now e s = (Ok tt, s)) as ->; [|exact IH].
  unfold writeEvent, mbind, M_bind, mtry. unfold rf_Write, mbind, M_bind, mget. rewrite Hf. cbn. unfold file_Write, mbind, M_bind, mget. by rewrite Hf.
Qed.

(** When the next file cannot be opened the handle stays closed and not nil, so
    no later event reaches a file although every later call would succeed. *)
Lemma failed_rotate_stops_log events : exists s,
  eventConsumer Z.of_nat ["first"] (NewRotateFile 3 ∅ [WOk; WOk; WOk; WOk; WFail 0]) = (Ok tt, s) /\
  contents s = [line "first"] /\ eventConsumer Z.of_nat events s = (Ok tt, s).
Proof.
  exists (snd (eventConsumer Z.of_nat ["first"] (NewRotateFile 3 ∅ [WOk; WOk; WOk; WOk; WFail 0]))).
  split_and!; [vm_compute; reflexivity..|]. apply closed_log_stops. vm_compute. reflexivity.
Qed.
