(* ===== verification/SelectExact.v ===== *)
(** * A SELECT over a sharded table, from the statement to the rows

    The planner, the router and the engine together: the plan that
    [SelectPlan_Build] makes for a SELECT with a WHERE clause on one sharded
    table, executed by [select_Execute], returns the rows the statement would
    return if the table was not split.  The servers are assumed to answer a
    statement by the rows of the table it names that its conditions are true
    of, and rows to lie where the router puts their shard key. *)
From S2P Require Import Prelude GoStd Config Xcontext Partition Compute Router Frm RouterProps Sql PlanExpr PlanExprProps Join JoinProps Operators OperatorsProps Engine PlanSelect PlanSelectProps PlanTree PlanPush PlanBuild PlanQuery.
Open Scope string_scope.
Open Scope list_scope.
Open Scope Z_scope.

(** ** Rows split by a key *)
Lemma NoDup_fmap_eq {A B} (f : A -> B) l a b : NoDup (f <$> l) -> a ∈ l -> b ∈ l -> f a = f b -> a = b.
Proof.
  intros Hn [i Hi]%list_elem_of_lookup [j Hj]%list_elem_of_lookup E.
  assert (i = j) as ->; [|congruence]. eapply NoDup_lookup; [exact Hn|by rewrite list_lookup_fmap, Hi|by rewrite list_lookup_fmap, Hj, E].
Qed.

Lemma filter_iff_in {A} (P Q : A -> Prop) `{!forall x, Decision (P x), !forall x, Decision (Q x)} (l : list A) :
  (forall x, x ∈ l -> P x <-> Q x) -> filter P l = filter Q l.
Proof.
  induction l as [|x l IH]; intros Hl; [done|]. rewrite !filter_cons, IH by (intros y Hy; apply Hl; by right).
  assert (P x <-> Q x) by (apply Hl; by left). repeat case_decide; tauto.
Qed.

Section split.
Context {A K : Type} `{!EqDecision K} (key : A -> option K) (P : A -> Prop) `{!forall x, Decision (P x)}.

Definition having_key (k : K) (l : list A) : list A := filter (fun x => key x = Some k) l.

Lemma filter_split (k : K) l :
  filter P l ≡ₚ filter P (having_key k l) ++ filter P (filter (fun x => key x <> Some k) l).
Proof.
  unfold having_key. induction l as [|x l IH]; [done|]. destruct (decide (key x = Some k)) as [E|E].
  - rewrite (filter_cons_True (fun x => key x = Some k)), (filter_cons_False (fun x => key x <> Some k)) by (done || tauto).
    rewrite !filter_cons. case_decide; simpl; by rewrite IH.
  - rewrite (filter_cons_False (fun x => key x = Some k)), (filter_cons_True (fun x => key x <> Some k)) by done.
    rewrite !filter_cons. case_decide; [|by rewrite IH]. rewrite IH. apply Permutation_middle.
Qed.

(** When every row that counts has one of the keys, the parts are the whole. *)
Lemma split_by ks : NoDup ks -> forall l, (forall x, x ∈ l -> P x -> exists k, k ∈ ks /\ key x = Some k) ->
  mjoin ((fun k => filter P (having_key k l)) <$> ks) ≡ₚ filter P l.
Proof.
  induction 1 as [|k ks Hk Hnd IH]; intros l Hl.
  - simpl. destruct (filter P l) as [|x f] eqn:E; [done|]. assert (x ∈ filter P l) as Hx by (rewrite E; by left).
    apply list_elem_of_filter in Hx as [HP Hx]. destruct (Hl x Hx HP) as (? & []%not_elem_of_nil & _).
  - rewrite (filter_split k l). simpl. f_equiv. rewrite <- IH.
    + apply Permutation_refl'. f_equal. apply list_fmap_ext. intros i k' Hi. f_equal. unfold having_key. rewrite list_filter_filter.
      apply list_filter_iff. intros x. split; [|tauto]. intros Hx. split; [done|]. intros [= E]%(eq_trans (eq_sym Hx)). subst.
      apply Hk. by eapply list_elem_of_lookup_2.
    + intros x [Hne Hx]%list_elem_of_filter HP. destruct (Hl x Hx HP) as (k' & [->|Hk']%elem_of_cons & E); [done|eauto].
Qed.
End split.

(** ** The plan of one table *)
Section plan.
Context `{IR : InMapRange, J : JumpHash, R : MapRange, !MapRangeOk R, RI : Rand, EP : ExprPrinter}.

(** On a merge node the conditions are pushed as in PlanSelect.v. *)
Lemma fold_pushFilter r ws : forall m t', res_fold (j_pushFilter r) (PM m) ws = Ok t' ->
  exists s, res_fold (pushFilter r) (mnS m) ws = Ok s /\ t' = PM (set_mnS s m).
Proof.
  induction ws as [|w ws IH]; intros m t' H; simpl in H.
  - injection H as <-. exists (mnS m). split; [done|]. by destruct m.
  - unfold m_pushFilter in H. destruct (pushFilter r (mnS m) w) as [s| |] eqn:Hw; simpl in H; try done.
    destruct (IH _ _ H) as (s' & Hs & ->). exists s'. simpl. rewrite Hw. by split.
Qed.

Lemma fold_push_equal r js : forall m t', res_fold (push_equal r) (PM m) js = Ok t' ->
  t' = PM (set_mnS (foldl (fun s j => addWhere (eiExpr j) s) (mnS m) js) m).
Proof.
  induction js as [|j js IH]; intros m t' H; simpl in H; [injection H as <-; by destruct m|]. by apply IH in H.
Qed.

Lemma t_pushFilters_merge r m e t' : t_pushFilters r (PM m) e = Ok t' ->
  exists s, pushFilters r (mnS m) e = Ok s /\ t' = PM (set_mnS s m).
Proof.
  unfold t_pushFilters, pushFilters, pushEqualCmprs. cbn [getReferTables].
  destruct (parseWhereOrJoinExprs e (msTables (mnS m))) as [[js ws]| |]; simpl; try done. intros H.
  destruct (res_fold (j_pushFilter r) (PM m) ws) as [t1| |] eqn:Hf; simpl in H; try done.
  apply fold_pushFilter in Hf as (s & Hs & ->). apply fold_push_equal in H as ->. rewrite Hs. simpl. eexists. by split.
Qed.

(** Pushing conditions changes the conditions and the indexes of a node only. *)
Definition same_node (s s' : MergeSt) : Prop :=
  msTables s' = msTables s /\ msNonGlobalCnt s' = msNonGlobalCnt s /\ msBackend s' = msBackend s /\ msRouteLen s' = msRouteLen s.

Lemma pushFilter_keeps r s w s' : pushFilter r s w = Ok s' -> same_node s s' /\ msWhere s' = msWhere s ++ [eiExpr w].
Proof.
  unfold pushFilter. intros H.
  assert (forall tb vals a b, res_fold (fetchIndex r tb) a vals = Ok b -> same_node a b /\ msWhere b = msWhere a) as Hf.
  { intros tb vals. induction vals as [|v vals IH]; intros a b Hab; simpl in Hab; [by injection Hab as <-|].
    destruct (fetchIndex r tb a v) as [a'| |] eqn:Hv; simpl in Hab; try done. unfold fetchIndex in Hv.
    destruct (GetIndex _ _ _ v); simpl in Hv; try done. injection Hv as <-. by apply IH in Hab. }
  repeat (case_match; try done); try (injection H as <-; done). apply Hf in H as [? ?]. by split.
Qed.

Lemma pushFilters_keeps r s e s' : pushFilters r s e = Ok s' -> same_node s s' /\
  exists js ws, parseWhereOrJoinExprs e (msTables s) = Ok (js, ws) /\ msWhere s' = (msWhere s ++ (eiExpr <$> ws)) ++ (eiExpr <$> js).
Proof.
  unfold pushFilters. destruct (parseWhereOrJoinExprs e (msTables s)) as [[js ws]| |]; simpl; try done. intros H.
  destruct (res_fold (pushFilter r) s ws) as [s1| |] eqn:Hf; simpl in H; try done. injection H as <-.
  assert (same_node s s1 /\ msWhere s1 = msWhere s ++ (eiExpr <$> ws)) as [H1 H2].
  { revert s Hf. induction ws as [|w ws IH]; intros s Hf; simpl in Hf; [injection Hf as <-; by rewrite app_nil_r|].
    destruct (pushFilter r s w) as [s2| |] eqn:Hw; simpl in Hf; try done. apply pushFilter_keeps in Hw as [(A1 & A2 & A3 & A4) Aw].
    apply IH in Hf as [(B1 & B2 & B3 & B4) Bw]. split; [split_and!; congruence|]. rewrite Bw, Aw, <- app_assoc. done. }
  assert (forall a, same_node a (foldl (fun s j => addWhere (eiExpr j) s) a js) /\
    msWhere (foldl (fun s j => addWhere (eiExpr j) s) a js) = msWhere a ++ (eiExpr <$> js)) as Hj.
  { clear. induction js as [|j js IH]; intros a; simpl; [by rewrite app_nil_r|].
    destruct (IH (addWhere (eiExpr j) a)) as [(B1 & B2 & B3 & B4) Bw]. split; [done|]. rewrite Bw. simpl. by rewrite <- app_assoc. }
  destruct (Hj s1) as [(B1 & B2 & B3 & B4) Bw]. destruct H1 as (A1 & A2 & A3 & A4). split; [split_and!; congruence|].
  exists js, ws. split; [done|]. by rewrite Bw, H2.
Qed.

(** The route: segments of the table, each once. *)
Lemma calcRoute_segments `{!JumpHashOk J} r s s' k ti tb p : msTables s = {[k := ti]} -> msNonGlobalCnt s = 1 -> msBackend s = "" -> msRouteLen s = 0%nat ->
  tiShardType ti <> "GLOBAL" -> getTable r (tiDatabase ti) (tiTableName ti) = Ok tb -> tPartition tb = Some p -> wf_partition p ->
  calcRoute r s = Ok s' -> exists segs, GetSegments r (tiDatabase ti) (tiTableName ti) (msIndexes s) = Ok segs /\
    NoDup (seg_id <$> segs) /\ segs ⊆ p_GetSegments p /\ msTables s' = {[k := set_segments segs ti]} /\ msWhere s' = msWhere s /\
    msRouteLen s' = length segs /\ (msBackend s' = "" \/ exists sg, segs = [sg] /\ msBackend s' = sgBackend sg).
Proof.
  intros Ht Hn Hb Hl Hg Htb Hp Hwf H. unfold calcRoute in H. rewrite Hn, Ht, map_range_singleton in H. simpl in H. rewrite decide_False in H by done.
  destruct (GetSegments r (tiDatabase ti) (tiTableName ti) (msIndexes s)) as [segs| |] eqn:Hs; simpl in H; try done. injection H as <-.
  exists segs. split; [done|]. assert (NoDup (seg_id <$> segs) /\ segs ⊆ p_GetSegments p) as [H1 H2].
  { rewrite (getTable_GetSegments _ _ _ _ _ _ Htb Hp) in Hs. destruct (msIndexes s) as [|i is_].
    - injection Hs as <-. split; [exact (p_ids_unique p Hwf)|done].
    - apply collect_spec in Hs as (H1 & H2 & _); [by split|done|set_solver|constructor]. }
  simpl. rewrite Ht, insert_singleton_eq, Hl. split_and!; try done. rewrite Hb. destruct segs as [|sg [|]]; [by left| |by left]. right. by exists sg.
Qed.

(** One query for every segment. *)
Lemma build_querys_all print s k ti : msTables s = {[k := ti]} -> tiShardKey ti <> "" -> forall n i range qs,
  (i + n = length (tiSegments ti))%nat -> build_querys print s range i n = Ok qs ->
  Forall2 (fun sg q => qtQuery q = print {[k := sgTable sg]} /\ qtBackend q = if decide (msBackend s = "") then sgBackend sg else msBackend s)
    (drop i (tiSegments ti)) qs.
Proof.
  intros Ht Hk. induction n as [|n IH]; intros i range qs Hi H; cbn [build_querys] in H.
  - injection H as <-. rewrite drop_ge by lia. constructor.
  - rewrite Ht, map_range_singleton in H. cbn [res_fold query_table] in H. rewrite decide_False in H by done.
    destruct (tiSegments ti !! i) as [sg|] eqn:Hs; [|done]. destruct (sgRange sg) as [rg|]; [|done]. cbn [mbind res_bind] in H.
    destruct (build_querys print s _ (S i) n) as [rest| |] eqn:Hr; simpl in H; try done. injection H as <-.
    rewrite (drop_S _ _ _ Hs). constructor; [|apply (IH (S i) _ _ ltac:(lia) Hr)]. simpl. by rewrite insert_empty.
Qed.

(** A statement on one table with nothing but a select list and conditions. *)
Definition plain (exprs : list SelectExpr) (k : string) (m : MNode) : Prop :=
  mnFrom m = [FTable k] /\ spExprs (mnSel m) = exprs /\ spGroupBy (mnSel m) = [] /\ spDistinct (mnSel m) = "" /\
  spHaving (mnSel m) = [] /\ spOrderBy (mnSel m) = [] /\ spLimit (mnSel m) = None.
Definition plain_select (exprs : list SelectExpr) (t as_ : string) (e : Expr) : Select :=
  mkSelect "" exprs [TRTable (mkTableName t "") as_] (Some e) [] None [] None.

Lemma processSelect_plain r db exprs t as_ e tree k ti s : processSelect r db (plain_select exprs t as_ e) = Ok tree ->
  scanAliasedTableExpr r db (mkTableName t "") as_ = Ok s -> msTables s = {[k := ti]} ->
  exists s1 s2 m, pushFilters r s e = Ok s1 /\ calcRoute r s1 = Ok s2 /\ tree = PM m /\ mnS m = s2 /\
    (spChildren (mnSel m) = [] -> plain exprs k m).
Proof.
  unfold processSelect. cbn [seFrom plain_select scanTableExprs join_all scanTableExpr seWhere]. intros H Hs Ht. rewrite Hs in H. simpl in H.
  rewrite Ht, map_to_list_singleton in H. unfold plan_where in H.
  destruct (t_pushFilters r _ e) as [t1| |] eqn:Hf; simpl in H; try done. apply t_pushFilters_merge in Hf as (s1 & Hf & ->).
  cbn [mnS] in Hf. simpl in H. destruct (calcRoute r s1) as [s2| |] eqn:Hc; simpl in H; try done. exists s1, s2.
  destruct (Nat.eqb (msRouteLen s2) 1).
  - destruct (res_fold _ _ _) as [[]| |]; simpl in H; try done. injection H as <-. eexists. split_and!; done.
  - destruct (parseSelectExprs _ _ _) as [[fields agg]| |]; simpl in H; try done.
    destruct (m_pushSelectExprs _ fields [] _ agg) as [t1| |] eqn:Hp; simpl in H; try done. injection H as <-.
    unfold m_pushSelectExprs in Hp. cbn [seGroupBy plain_select] in Hp.
    destruct agg; [injection Hp as <-; eexists; split_and!; done| |];
      destruct (AggregatePlan_Build _ _ _ _) as [[[plan ex] tuples]| |]; simpl in Hp; try done; injection Hp as <-; eexists; by split_and!.
Qed.
End plan.

Section build.
Context {V : Type} `{SP : StmtPrinter V, R : MapRange, EP : ExprPrinter}.

(** A plan that is one merge node. *)
Lemma some_select_id m : spExprs (mnSel m) <> [] -> some_select m = m.
Proof. unfold some_select. by destruct (spExprs (mnSel m)). Qed.
Lemma build_one m root : build_node (NTree (PM m)) = Ok root ->
  exists n, root = MergeN n /\ merge_node (mnS m) ReqNormal (USel (some_select m)) (spChildren (mnSel m)) = Ok n.
Proof.
  intros H. cbn [build_node build_tree fst snd] in H. unfold build_leaf in H. cbn [node_at mod_at] in H.
  assert (mnS (some_select m) = mnS m /\ spChildren (mnSel (some_select m)) = spChildren (mnSel m)) as [Hm Hch]
    by (unfold some_select; by destruct (spExprs (mnSel m))).
  assert (forall cs u t', res_fold (procure_col [] (msTables (mnS m))) (PM u) cs = Ok t' -> t' = PM u) as Hp.
  { induction cs as [|c cs IH]; intros u t' Hc; cbn [res_fold] in Hc; [by injection Hc as <-|].
    destruct (procure_col _ _ (PM u) c) as [t1| |] eqn:E; simpl in Hc; try done. unfold procure_col in E.
    destruct (foreign _ c); [case_decide; [cbn in E|]; done|]. injection E as <-. by apply IH in Hc. }
  rewrite Hm in H. destruct (if Nat.eqb _ _ then _ else _) as [t'| |] eqn:Hc; simpl in H; try done.
  assert (t' = PM (some_select m)) as -> by (destruct (Nat.eqb _ _); [by injection Hc as <-|by apply Hp in Hc]).
  cbn [exec_tree printed] in H. rewrite decide_True in H by done. rewrite Hm, Hch in H.
  destruct (merge_node _ _ _ _) as [n| |]; simpl in H; try done. injection H as <-. by exists n.
Qed.
End build.

(** ** Where rows lie and what servers answer *)

(** A row of the table: the literal its shard key was written with and the
    values of its columns. *)
Record Row (U : Type) := mkRow { rKey : SQLVal; rEnv : ColName -> U }.
Arguments mkRow {U} _ _.
Arguments rKey {U} _.
Arguments rEnv {U} _ _.

Definition place (sg : Segment) : string * string := (sgBackend sg, sgTable sg).

Section storage.
Context {U V T : Type} `{SS : SqlSem U, J : JumpHash, SP : StmtPrinter V, TX : TxnExec V T}.

(** The backend and the table a row was written to. *)
Definition home (p : Partition) (x : Row U) : option (string * string) :=
  match p_Lookup p (Some (rKey x)) (Some (rKey x)) with Ok [sg] => Some (place sg) | _ => None end.

(** The rows of a table of a backend. *)
Definition stored (p : Partition) (rows : list (Row U)) (at_ : string * string) : list (Row U) := having_key (home p) at_ rows.

(** All conditions are true. *)
Definition holds (es : list Expr) (x : Row U) : Prop := and3s (cond (rEnv x) <$> es) = Some true.
#[export] Instance holds_dec es x : Decision (holds es x) := decide_rel eq _ _.

(** The servers: the statement [m] of the plan is answered by the select list of
    the rows of the named table that all its conditions are true of, in any
    order. *)
Definition sql_servers (p : Partition) (rows : list (Row U)) (k : string) (out : Row U -> list V)
    (serve : string -> string -> list (list V)) (m : MNode) : Prop :=
  forall backend name, serve backend (stmt_text (var_of (msTables (mnS m))) (USel m) {[k := name]}) ≡ₚ
    out <$> filter (holds (msWhere (mnS m))) (stored p rows (backend, name)).

(** The transaction collects the answers of all queries. *)
Definition collects (serve : string -> string -> list (list V)) : Prop :=
  forall qs, exists r, txn_exec (mkRequestContext "" ReqNormal TxnRead qs) = Ok r /\
    jRows (resRows r) ≡ₚ mjoin ((fun q => serve (qtBackend q) (qtQuery q)) <$> qs).
End storage.

(** ** The theorem *)

(** What is assumed of a row: it lies in one segment, its shard key column is
    the literal it was written with, and a literal of the clause that is equal
    to it has its index. *)
Record row_ok {U} `{SS : SqlSem U, J : JumpHash} (r : Router) (db t k key : string) (p : Partition) (e : Expr) (x : Row U) : Prop := {
  ro_env : env_ok (rEnv x);
  ro_home : exists sg, p_Lookup p (Some (rKey x)) (Some (rKey x)) = Ok [sg];
  ro_key : forall c, nameMatch (ColNameE c) k key = true -> rEnv x c = sem_lit (rKey x);
  ro_lit : forall w, w ∈ literals e -> sem_eq (sem_lit (rKey x)) (sem_lit w) = Some true -> GetIndex r db t w = GetIndex r db t (rKey x)
}.

Section exact.
Context {U V T : Type} `{SS : SqlSem U, !SqlSemOk U} `{IR : InMapRange, !InMapRangeOk IR} `{J : JumpHash, !JumpHashOk J} `{R : MapRange, !MapRangeOk R}.
Context `{RI : Rand, EP : ExprPrinter, SP : StmtPrinter V, VV : Values V, AR : Arith V T, GS : GoSort V, SC : Schedule V, TX : TxnExec V T}.
Variables (r : Router) (db t as_ : string) (tb : Table) (p : Partition) (conf : TableConfig) (e : Expr) (rows : list (Row U)).
Hypothesis Htb : getTable r db t = Ok tb.
Hypothesis Hp : tPartition tb = Some p.
Hypothesis Hwf : wf_partition p.
Hypothesis Hconf : TableConfigOf r db t = Ok conf.
Hypothesis Hty : tcShardType conf = "HASH" \/ tcShardType conf = "LIST".
Hypothesis Hsk : tcShardKey conf <> "".
Hypothesis Hesc : no_escape e.
Abbreviation k := (if decide (as_ = "") then t else as_).
Hypothesis Hrows : Forall (row_ok r db t k (tcShardKey conf) p e) rows.

Definition the_table : tableInfo := mkTableInfo db t k (tcShardKey conf) (tcShardType conf) conf [].

Lemma scan_plain s : scanAliasedTableExpr r db (mkTableName t "") as_ = Ok s -> s = mkMergeSt {[k := the_table]} 1 "" [] 0 [].
Proof.
  unfold scanAliasedTableExpr. simpl. rewrite Hconf. simpl. destruct Hty as [E|E]; rewrite E; simpl; intros [= <-]; unfold the_table; rewrite E;
    by repeat case_decide.
Qed.

(** The segments of the route hold every row the clause is true of, and the
    conditions pushed mean the clause. *)
Lemma routes s1 s2 : pushFilters r (mkMergeSt {[k := the_table]} 1 "" [] 0 []) e = Ok s1 -> calcRoute r s1 = Ok s2 ->
  (forall x, x ∈ rows -> holds (msWhere s2) x <-> cond (rEnv x) e = Some true) /\
  exists segs, msTables s2 = {[k := set_segments segs the_table]} /\ msRouteLen s2 = length segs /\
    NoDup (seg_id <$> segs) /\ segs ⊆ p_GetSegments p /\ (msBackend s2 = "" \/ exists sg, segs = [sg] /\ msBackend s2 = sgBackend sg) /\
    forall x, x ∈ rows -> cond (rEnv x) e = Some true -> exists sg, sg ∈ segs /\ home p x = Some (place sg).
Proof.
  intros Hf Hc. pose proof (pushFilters_keeps _ _ _ _ Hf) as ((H1 & H2 & H3 & H4) & js & ws & Hparse & Hw). simpl in *.
  assert (tiShardType the_table <> "GLOBAL") as Hg by (simpl; by destruct Hty as [-> | ->]).
  destruct (calcRoute_segments r s1 s2 k the_table tb p) as (segs & Hs & Hnd & Hsub & Ht2 & Hw2 & Hlen & Hb); [done..|]. split.
  - intros x Hx. rewrite Forall_forall in Hrows. destruct (Hrows x Hx) as [Henv _ _ _]. unfold holds. rewrite Hw2, Hw, <- (parse_sem _ Henv _ _ _ _ Hparse).
    rewrite <- fmap_app. by rewrite (Permutation_app_comm ws js).
  - exists segs. split_and!; try done. intros x Hx Htrue. rewrite Forall_forall in Hrows. destruct (Hrows x Hx) as [Henv [sg Hsg] Hkey Hlit].
    assert (routed r db t (rKey x) k the_table s1) as Hr.
    { eapply (pushFilters_routed (rEnv x)); [done| |done|done|done|done| |exact Hf]; [done|]. repeat split. by left. }
    destruct (calcRoute_routed r db t tb p (rKey x) sg k the_table Htb Hp Hwf Hsg ltac:(done) s1 s2 Hg Hr Hc) as (segs' & Hin & Ht' & _).
    rewrite Ht2 in Ht'. apply (f_equal (.!! k)) in Ht'. rewrite !lookup_singleton_eq in Ht'. injection Ht' as <-.
    exists sg. split; [done|]. unfold home. by rewrite Hsg.
Qed.

(** The rows of the queries. *)
Lemma answers_all out serve segs qs s2 m : sql_servers p rows k out serve m -> mnS m = s2 ->
  NoDup (place <$> p_GetSegments p) -> NoDup (seg_id <$> segs) -> segs ⊆ p_GetSegments p -> msTables s2 = {[k := set_segments segs the_table]} ->
  (msBackend s2 = "" \/ exists sg, segs = [sg] /\ msBackend s2 = sgBackend sg) ->
  (forall x, x ∈ rows -> holds (msWhere s2) x <-> cond (rEnv x) e = Some true) ->
  (forall x, x ∈ rows -> cond (rEnv x) e = Some true -> exists sg, sg ∈ segs /\ home p x = Some (place sg)) ->
  Forall2 (fun sg q => qtQuery q = stmt_text (var_of (msTables s2)) (USel m) {[k := sgTable sg]} /\
    qtBackend q = if decide (msBackend s2 = "") then sgBackend sg else msBackend s2) segs qs ->
  mjoin ((fun q => serve (qtBackend q) (qtQuery q)) <$> qs) ≡ₚ out <$> filter (fun x => cond (rEnv x) e = Some true) rows.
Proof.
  intros Hserve <- Hnp Hnd Hsub Ht Hb Hw Hin Hq. set (s2 := mnS m) in *.
  assert (NoDup (place <$> segs)) as Hnd'.
  { apply NoDup_fmap_2_strong; [|by eapply NoDup_fmap_1]. intros a b Ha Hb' E. eapply (NoDup_fmap_eq place (p_GetSegments p)); auto. }
  assert (Forall2 (fun sg q => qtQuery q = stmt_text (var_of (msTables s2)) (USel m) {[k := sgTable sg]} /\ qtBackend q = sgBackend sg) segs qs) as Hq'.
  { destruct Hb as [Hb|(sg & -> & Hb)].
    - eapply Forall2_impl; [exact Hq|]. intros sg q [-> ->]. split; [done|]. by rewrite decide_True.
    - inversion Hq as [|? q ? ? [H1 H2] Hr]; subst. inversion Hr; subst. constructor; [|constructor]. split; [done|]. rewrite H2, Hb. by destruct (decide (sgBackend sg = "")). }
  trans (out <$> mjoin ((fun at_ => filter (fun x => cond (rEnv x) e = Some true) (stored p rows at_)) <$> (place <$> segs))).
  - clear Hq Hb Hin Hnd Hsub Hnd' Ht Hnp. induction Hq' as [|sg q segs qs [H1 H2] _ IH]; [done|]. cbn [fmap list_fmap mjoin list_join]. rewrite fmap_app, IH.
    f_equiv; [|done]. rewrite H1, H2. subst s2. rewrite (Hserve _ _). f_equiv. apply Permutation_refl', filter_iff_in.
    intros x [_ Hx]%list_elem_of_filter. by apply Hw.
  - f_equiv. apply split_by; [done|]. intros x Hx HP. destruct (Hin x Hx HP) as (sg & Hsg & E).
    exists (place sg). split; [by apply list_elem_of_fmap_2|done].
Qed.
End exact.

(** C5: A SELECT over a sharded table returns the rows of the whole table.  The
    table is sharded by hash or by list; every row lies in the table of the
    segment the router gives for its shard key; the literals of the WHERE clause
    that equal the key of a row are routed like it ([ro_lit]: they are written
    with the type of the key, 7 and not '7', see [quoted_key_missed]); ESCAPE
    occurs with LIKE only, as the grammar has it; the plan has no operators
    above the shards (no ORDER BY, LIMIT, GROUP BY or aggregate); the servers
    answer a plain statement by the rows its conditions are true of and the
    transaction collects the answers.  Then the plan of [select exprs from t
    where e], executed, returns, in some order, the select list of exactly the
    rows [e] is true of, each as often as it is in the table: no shard is
    missed, none is asked twice and the conditions sent mean the clause. *)
Theorem sharded_select_exact {U V T} `{SS : SqlSem U, !SqlSemOk U} `{IR : InMapRange, !InMapRangeOk IR} `{J : JumpHash, !JumpHashOk J}
    `{R : MapRange, !MapRangeOk R} `{RI : Rand, EP : ExprPrinter, SP : StmtPrinter V, VV : Values V, AR : Arith V T, GS : GoSort V, SC : Schedule V, TX : TxnExec V T}
    r db t as_ tb p conf e (rows : list (Row U)) exprs out serve n :
  let k := if decide (as_ = "") then t else as_ in
  getTable r db t = Ok tb -> tPartition tb = Some p -> wf_partition p -> NoDup (place <$> p_GetSegments p) ->
  TableConfigOf r db t = Ok conf -> tcShardType conf = "HASH" \/ tcShardType conf = "LIST" -> tcShardKey conf <> "" ->
  no_escape e -> Forall (row_ok r db t k (tcShardKey conf) p e) rows -> exprs <> [] ->
  (forall m, processSelect r db (plain_select exprs t as_ e) = Ok (PM m) -> plain exprs k m -> sql_servers p rows k out serve m) -> collects serve ->
  SelectPlan_Build r db (plain_select exprs t as_ e) = Ok (MergeN n) -> mnChildren n = [] ->
  exists res, select_Execute (MergeN n) = Ok res /\
    jRows (resRows res) ≡ₚ out <$> filter (fun x => cond (rEnv x) e = Some true) rows.
Proof.
  intros k Htb Hp Hwf Hnp Hconf Hty Hsk Hesc Hrows Hex Hserve Hcol Hb Hch. unfold SelectPlan_Build, BuildNode in Hb.
  destruct (select_subquery _); [done|]. cbn [processNode] in Hb. destruct (processSelect r db _) as [tree| |] eqn:Hs; simpl in Hb; try done.
  destruct (scanAliasedTableExpr r db (mkTableName t "") as_) as [s| |] eqn:Hscan.
  2-3: unfold processSelect in Hs; cbn [seFrom plain_select scanTableExprs join_all scanTableExpr] in Hs; by rewrite Hscan in Hs.
  assert (s = mkMergeSt {[k := the_table db t as_ conf]} 1 "" [] 0 []) as -> by (eapply scan_plain; eauto).
  destruct (processSelect_plain _ _ _ _ _ _ _ _ _ _ Hs Hscan eq_refl) as (s1 & s2 & m & Hf & Hc & -> & Hm & Hplain).
  destruct (routes r db t as_ tb p conf e rows Htb Hp Hwf Hty Hesc Hrows s1 s2 Hf Hc) as (Hw & segs & Ht & Hlen & Hnd & Hsub & Hback & Hin).
  destruct (Hcol (mnQuerys n)) as (res & Hres & Hperm). destruct (build_one m (MergeN n) Hb) as (n' & [= <-] & Hn).
  unfold merge_node in Hn. rewrite Hm in Hn. destruct (buildQuery _ s2) as [qs| |] eqn:Hq; simpl in Hn; try done.
  destruct (res_map _ _) as [names| |]; simpl in Hn; try done. injection Hn as <-. cbn [mnChildren mnQuerys] in *.
  specialize (Hplain Hch). rewrite some_select_id in Hq by (by destruct Hplain as (_ & -> & _)).
  exists res. split.
  - unfold select_Execute. cbn [BuildEngine pe_Execute]. unfold merge_Execute. cbn [mnReqMode mnQuerys mnChildren]. rewrite Hres. simpl. by rewrite Hch.
  - rewrite Hperm. eapply (answers_all db t as_ p conf e rows out serve segs qs s2 m); try done; [by apply Hserve|].
    unfold buildQuery in Hq. rewrite Hlen in Hq. exact (build_querys_all _ _ _ _ Ht Hsk (length segs) 0%nat _ _ eq_refl Hq).
Qed.

(** ** An example

    [select id from t as a where (12 = id or ID = 7) and 1 = 1] over four rows;
    the text of a statement is the name of its table. *)
#[local] Existing Instance mod_jump.
#[local] Existing Instance zval.
#[local] Existing Instance isort.
#[local] Existing Instance in_order.
#[local] Instance ex_printer : StmtPrinter (option Z) := {
  stmt_text _ _ names := default "" (names !! "a");
  stmt_bind _ _ names _ := names !! "a";
  stmt_fields _ _ _ := None
}.

Definition ex_two : Expr := AndExpr (ParenExpr (OrExpr (eq_ (int_ "12") (col "id")) (eq_ (col "ID") (int_ "7")))) (eq_ (int_ "1") (int_ "1")).
Definition ex_row (n : Z) : Row dval := let v := mkSQLVal IntVal (Itoa n) in mkRow v (row_env v).
Definition ex_rows_of (l : list Z) : list (Row dval) := ex_row <$> l.
Definition ex_out (x : Row dval) : list (option Z) := [Atoi (svVal (rKey x))].
Definition ex_serve (backend query : string) : list (list (option Z)) :=
  ex_out <$> filter (fun x => cond (rEnv x) ex_two = Some true) (stored (PHash ex_hash) (ex_rows_of [7; 9; 12; 7]) (backend, query)).
#[local] Instance ex_collect : TxnExec (option Z) unit := {
  txn_exec req := Ok (mkResult [] (mkJRes (mjoin ((fun q => ex_serve (qtBackend q) (qtQuery q)) <$> rqQuerys req)) 0));
  MaxJoinRows := 100
}.
Definition ex_tab : Table := match getTable ex_router "db" "t" with Ok tb => tb | _ => mkTable "" "" None 0 end.
Definition ex_exprs : list SelectExpr := [AliasedExpr (col "id") ""].

Lemma ex_rows_ok : Forall (row_ok ex_router "db" "t" "a" "id" (PHash ex_hash) ex_two) (ex_rows_of [7; 9; 12; 7]).
Proof.
  apply Forall_fmap. repeat (constructor; [|]); try constructor; try apply row_env_ok; try (intros c; apply row_env_key);
    try (eexists; vm_compute; reflexivity); intros w Hw; vm_compute in Hw;
    repeat (apply elem_of_cons in Hw as [->|Hw]; [vm_compute; first [done|reflexivity]|]); destruct (not_elem_of_nil _ Hw).
Qed.

Lemma sharded_select_exact_witness :
  exists n res, SelectPlan_Build ex_router "db" (plain_select ex_exprs "t" "a" ex_two) = Ok (MergeN n) /\ (1 < length (mnQuerys n))%nat /\
    select_Execute (MergeN n) = Ok res /\ jRows (resRows res) ≡ₚ [[Some 7]; [Some 12]; [Some 7]].
Proof.
  destruct (SelectPlan_Build ex_router "db" (plain_select ex_exprs "t" "a" ex_two)) as [[n| |]| |] eqn:E; try (vm_compute in E; discriminate E).
  exists n. assert (mnChildren n = [] /\ length (mnQuerys n) = 2%nat) as [Hc Hl] by (vm_compute in E; injection E as <-; by split).
  edestruct (sharded_select_exact (JumpHashOk0 := mod_jump_ok) ex_router "db" "t" "a" ex_tab (PHash ex_hash) uniform_example ex_two
    (ex_rows_of [7; 9; 12; 7]) ex_exprs ex_out ex_serve n) as (res & H1 & H2);
    [vm_compute; reflexivity|vm_compute; reflexivity|exact ex_hash_wf| |vm_compute; reflexivity|left; vm_compute; reflexivity|vm_compute; discriminate|
     |exact ex_rows_ok|done| |intros qs; eexists; by split|exact E|exact Hc|].
  - apply (bool_decide_unpack _). vm_compute. exact I.
  - intros op l r x Hw. vm_compute in Hw. repeat (apply elem_of_cons in Hw as [?|Hw]; [done|]). destruct (not_elem_of_nil _ Hw).
  - intros m Hm _ backend name. vm_compute in Hm. injection Hm as <-. apply Permutation_refl'. unfold ex_serve. f_equal.
    replace (stmt_text _ _ _) with name by (symmetry; cbn [stmt_text ex_printer]; by rewrite lookup_singleton_eq).
    apply filter_iff_in. intros x [_ Hx]%list_elem_of_filter. unfold ex_rows_of in Hx. cbn [fmap list_fmap] in Hx.
    repeat (apply elem_of_cons in Hx as [->|Hx]; [vm_compute; split; done|]). destruct (not_elem_of_nil _ Hx).
  - exists res. split_and!; [done|lia|done|]. rewrite H2. vm_compute. done.
Defined.
