(* ===== verification/Stats.v ===== *)
(** * Statistics (src/xbase/stats/)

    Rings, histograms, timings, counters and rates.  Timings and counters are
    shared by all goroutines: a name is looked up under the read lock, created
    under the write lock when it is missing, and its numbers are changed by
    atomic operations; the calls are threads that take these steps one by one.
    Publishing the variables by HTTP is left out. *)
From S2P Require Import Prelude GoStd.
Open Scope string_scope.
Open Scope list_scope.
Open Scope Z_scope.

Definition i64 (z : Z) : Z := swrap 64 z.

(** ** Rings (ring.go) *)

(** [RingInt64]; [rgCap] is [cap(ri.values)]. *)
Record RingInt64 := mkRing { rgPosition : nat; rgValues : list Z; rgCap : nat }.
Definition NewRingInt64 (capacity : nat) : RingInt64 := mkRing 0 [] capacity.

(** [Add] *)
Definition ring_Add (val : Z) (r : RingInt64) : res False RingInt64 :=
  if Nat.eqb (length (rgValues r)) (rgCap r) then
    match rgValues r !! rgPosition r with
    | None => Panic
    | Some _ => Ok (mkRing (Nat.modulo (S (rgPosition r)) (rgCap r)) (<[rgPosition r := val]> (rgValues r)) (rgCap r))
    end
  else Ok (mkRing (rgPosition r) (rgValues r ++ [val]) (rgCap r)).

(** [Values] *)
Definition ring_Values (r : RingInt64) : res False (list Z) :=
  res_map (fun i => match rgValues r !! Nat.modulo (rgPosition r + i) (rgCap r) with None => Panic | Some v => Ok v end)
    (seq 0 (length (rgValues r))).

(** ** Histograms (histogram.go) *)

(** [Histogram], without its labels and its hook. *)
Record Histogram := mkHist { hCutoffs : list Z; hBuckets : list Z; hTotal : Z }.

(** [NewGenericHistogram] *)
Definition NewGenericHistogram (cutoffs : list Z) (labels : list string) : res False Histogram :=
  if Nat.eqb (S (length cutoffs)) (length labels) then Ok (mkHist cutoffs (replicate (length labels) 0) 0) else Panic.
(** [NewHistogram]: the labels are the cutoffs and inf. *)
Definition cutoff_labels (cutoffs : list Z) : list string := (Itoa <$> cutoffs) ++ ["inf"].
Definition NewHistogram (cutoffs : list Z) : res False Histogram := NewGenericHistogram cutoffs (cutoff_labels cutoffs).

(** The bucket the loop of [Add] stops at. *)
Fixpoint bucket_of (cutoffs : list Z) (value : Z) : nat :=
  match cutoffs with [] => O | c :: cs => if value <=? c then O else S (bucket_of cs value) end.
(** [h.buckets[i].Add(1)], [h.total.Add(value)] *)
Definition bucket_Add (value : Z) (h : Histogram) : Histogram :=
  mkHist (hCutoffs h) (alter (fun n => i64 (n + 1)) (bucket_of (hCutoffs h) value) (hBuckets h)) (hTotal h).
Definition total_Add (value : Z) (h : Histogram) : Histogram := mkHist (hCutoffs h) (hBuckets h) (i64 (hTotal h + value)).
(** [Add] *)
Definition hist_Add (value : Z) (h : Histogram) : Histogram := total_Add value (bucket_Add value h).

(** [Count] *)
Definition hist_Count (h : Histogram) : Z := foldl (fun count n => i64 (count + n)) 0 (hBuckets h).
(** The counts of [MarshalJSON], one for each label. *)
Fixpoint running (totalCount : Z) (buckets : list Z) : list Z :=
  match buckets with [] => [] | n :: bs => let t := i64 (totalCount + n) in t :: running t bs end.
Definition hist_json (h : Histogram) : list Z := running 0 (hBuckets h).

(** ** Shared tables of numbers *)
Section shared.
Context {Obj G A : Type} (new : Obj) (act : A -> Obj * G -> Obj * G).

(** The map from names to pointers, what they point to, the numbers that are
    not in the map. *)
Record Shared := mkShared { shNames : gmap string nat; shObjs : list Obj; shGlobal : G }.

(** A call: before its lookup, after it found nothing, with its pointer. *)
Inductive Call := CStart (name : string) (todo : list A) | CMissed (name : string) (todo : list A) | CHave (p : nat) (todo : list A).

(** The read lock. *)
Definition look (name : string) (s : Shared) : option nat := shNames s !! name.
(** The write lock: the name is looked up again before it is created. *)
Definition look_or_create (name : string) (s : Shared) : nat * Shared :=
  match shNames s !! name with
  | Some p => (p, s)
  | None => let p := length (shObjs s) in (p, mkShared (<[name := p]> (shNames s)) (shObjs s ++ [new]) (shGlobal s))
  end.
(** One atomic operation. *)
Definition do_act (a : A) (p : nat) (s : Shared) : Shared :=
  match shObjs s !! p with
  | None => s
  | Some o => let og := act a (o, shGlobal s) in mkShared (shNames s) (<[p := fst og]> (shObjs s)) (snd og)
  end.

(** One step of a call; a call that is done has none. *)
Definition call_step (c : Call) (s : Shared) : option (Call * Shared) :=
  match c with
  | CStart name todo => Some (match look name s with Some p => CHave p todo | None => CMissed name todo end, s)
  | CMissed name todo => let ps := look_or_create name s in Some (CHave (fst ps) todo, snd ps)
  | CHave p (a :: todo) => Some (CHave p todo, do_act a p s)
  | CHave _ [] => None
  end.

(** All calls, and a step of one of them. *)
Definition calls_step (i : nat) (cs : list Call * Shared) : option (list Call * Shared) :=
  match fst cs !! i with
  | None => None
  | Some c => match call_step c (snd cs) with None => None | Some (c', s') => Some (<[i := c']> (fst cs), s') end
  end.
Inductive cruns : list Call * Shared -> list nat -> list Call * Shared -> Prop :=
| cruns_nil x : cruns x [] x
| cruns_cons x i y l z : calls_step i x = Some y -> cruns y l z -> cruns x (i :: l) z.
Definition call_done (c : Call) : bool := match c with CHave _ [] => true | _ => false end.
End shared.
Arguments Shared : clear implicits.
Arguments Call : clear implicits.

(** ** Timings (timings.go) *)
Definition bucketCutoffs : list Z :=
  [500000; 1000000; 5000000; 10000000; 50000000; 100000000; 500000000; 1000000000; 5000000000; 10000000000].
Definition bucketLabels : list string := cutoff_labels bucketCutoffs.
Definition timing_hist : Histogram := match NewGenericHistogram bucketCutoffs bucketLabels with Ok h => h | _ => mkHist [] [] 0 end.

(** The atomic operations of [Add]; the global numbers are [totalCount] and
    [totalTime]. *)
Inductive TimingOp := TBucket (ns : Z) | TTotal (ns : Z) | TCount | TTime (ns : Z).
Definition timing_act (a : TimingOp) (s : Histogram * (Z * Z)) : Histogram * (Z * Z) :=
  let '(h, (n, t)) := s in
  match a with
  | TBucket ns => (bucket_Add ns h, (n, t))
  | TTotal ns => (total_Add ns h, (n, t))
  | TCount => (h, (i64 (n + 1), t))
  | TTime ns => (h, (n, i64 (t + ns)))
  end.
Abbreviation Timings := (Shared Histogram (Z * Z)).

(** [NewTimings] *)
Definition NewTimings (categories : list string) : Timings :=
  foldl (fun s cat => mkShared (<[cat := length (shObjs s)]> (shNames s)) (shObjs s ++ [timing_hist]) (shGlobal s)) (mkShared ∅ [] (0, 0)) categories.
(** [Add], as a call. *)
Definition Timings_Add (name : string) (elapsed : Z) : Call TimingOp := CStart name [TBucket elapsed; TTotal elapsed; TCount; TTime elapsed].
(** [Record], at a time. *)
Definition Timings_Record (name : string) (startTime now : Z) : Call TimingOp := Timings_Add name (now - startTime).
Definition timings_step : nat -> list (Call TimingOp) * Timings -> option (list (Call TimingOp) * Timings) := calls_step timing_hist timing_act.
Abbreviation timings_runs := (cruns timing_hist timing_act).

(** [Count], [Time], [Counts] *)
Definition Timings_Count (t : Timings) : Z := fst (shGlobal t).
Definition Timings_Time (t : Timings) : Z := snd (shGlobal t).
Definition count_at (t : Timings) (p : nat) : Z := match shObjs t !! p with Some h => hist_Count h | None => 0 end.
Definition Timings_Counts (t : Timings) : gmap string Z := <["All" := Timings_Count t]> (count_at t <$> shNames t).

(** [MultiTimings.Add] *)
Definition MultiTimings_Add (labels names : list string) (elapsed : Z) : res False (Call TimingOp) :=
  if Nat.eqb (length names) (length labels) then Ok (Timings_Add (String.concat "." names) elapsed) else Panic.

(** ** Counters (counters.go) *)
Inductive CounterOp := CAdd (value : Z) | CSet (value : Z).
Definition counter_act (a : CounterOp) (s : Z * unit) : Z * unit :=
  match a with CAdd v => (i64 (fst s + v), tt) | CSet v => (v, tt) end.
Abbreviation Counters := (Shared Z unit).

(** [NewCounters] *)
Definition NewCounters (tags : list string) : Counters :=
  foldl (fun s tag => mkShared (<[tag := length (shObjs s)]> (shNames s)) (shObjs s ++ [0]) (shGlobal s)) (mkShared ∅ [] tt) tags.
(** [Add], [Set] as calls, [Reset], [Counts]. *)
Definition Counters_Add (name : string) (value : Z) : Call CounterOp := CStart name [CAdd value].
Definition Counters_Set (name : string) (value : Z) : Call CounterOp := CStart name [CSet value].
Definition Counters_Reset (c : Counters) : Counters := mkShared ∅ (shObjs c) tt.
Definition Counters_Counts (c : Counters) : gmap string Z := (fun p => default 0 (shObjs c !! p)) <$> shNames c.
Abbreviation counters_runs := (cruns 0 counter_act).

(** [MultiCounters.Add], [MultiCounters.Set] *)
Definition MultiCounters_Add (labels names : list string) (value : Z) : res False (Call CounterOp) :=
  if Nat.eqb (length names) (length labels) then Ok (Counters_Add (String.concat "." names) value) else Panic.
Definition MultiCounters_Set (labels names : list string) (value : Z) : res False (Call CounterOp) :=
  if Nat.eqb (length names) (length labels) then Ok (Counters_Set (String.concat "." names) value) else Panic.

(** The counters in the order of their names, as [String] prints them. *)
Definition name_le (a b : string * Z) : Prop := String.leb (fst a) (fst b) = true.
#[export] Instance name_le_dec : RelDecision name_le := fun a b => decide_rel eq _ _.
Definition Counters_String (c : Counters) : list (string * Z) := merge_sort name_le (map_to_list (Counters_Counts c)).

(** ** Rates (rates.go) *)
Section rates.
Context `{R : MapRange}.
(** Floating point: conversion of an int64, seconds of a duration, division,
    rounding to one decimal. *)
Context {F : Type} (of_int : Z -> F) (seconds : Z -> F) (fdiv : F -> F -> F) (round1 : F -> F).

(** [Rates] *)
Record Rates := mkRates {
  rtTimeStamps : RingInt64; rtCounts : gmap string RingInt64; rtSamples : nat;
  rtPrevious : Z; rtLast : Z; rtTotalRate : F
}.

(** [NewRates] at a time; an interval below a second other than -1 s panics. *)
Definition second : Z := 1000000000.
Definition NewRates (samples : nat) (interval now : Z) : res False Rates :=
  if (interval <? second) && negb (interval =? - second) then Panic
  else Ok (mkRates (NewRingInt64 (samples + 1)) ∅ (samples + 1) 0 now (of_int 0)).

(** One category of [snapshot]. *)
Definition sample (acc : Z * gmap string RingInt64) (samples : nat) (kv : string * Z) : res False (Z * gmap string RingInt64) :=
  let '(total, counts) := acc in
  let '(k, v) := kv in
  let total := if decide (k = "All") then total else i64 (total + v) in
  ring ← (match counts !! k with
          | Some values => ring_Add v values
          | None => ring ← ring_Add 0 (NewRingInt64 samples); ring_Add v ring
          end);
  Ok (total, <[k := ring]> counts).

(** [snapshot] at a time, with the counts of the tracker. *)
Definition snapshot (now : Z) (tracked : gmap string Z) (rt : Rates) : res False Rates :=
  times ← ring_Add now (rtTimeStamps rt);
  tc ← res_fold (fun acc kv => sample acc (rtSamples rt) kv) (0, rtCounts rt) (map_range tracked);
  let '(totalCount, counts) := tc in
  let rate := fdiv (of_int (i64 (totalCount - rtPrevious rt))) (seconds (now - rtLast rt)) in
  Ok (mkRates times counts (rtSamples rt) totalCount now (round1 rate)).

(** The loop of [Get] over the time stamps [i .. 1], prepending the rates. *)
Fixpoint rates_loop (times values : list Z) (i : nat) (valueIndex : Z) (acc : list F) : res False (list F) :=
  match i with
  | O => Ok acc
  | S j =>
      if valueIndex <=? 0 then rates_loop times values j valueIndex (of_int 0 :: acc)
      else
        match times !! S j, times !! j, values !! Z.to_nat valueIndex, values !! Z.to_nat (valueIndex - 1) with
        | Some t1, Some t0, Some v1, Some v0 =>
            let elapsed := of_int (Z.quot (i64 (t1 - t0)) 1000000000) in
            rates_loop times values j (valueIndex - 1) (fdiv (of_int (i64 (v1 - v0))) elapsed :: acc)
        | _, _, _, _ => Panic
        end
  end.

(** [Get] for one category. *)
Definition get_rate (rt : Rates) (times : list Z) (ring : RingInt64) : res False (list F) :=
  values ← ring_Values ring;
  rates_loop times values (length times - 1) (Z.of_nat (length values) - 1) [].
(** [Get] *)
Definition rates_Get (rt : Rates) : res False (list (string * list F)) :=
  times ← ring_Values (rtTimeStamps rt);
  if (length times <=? 1)%nat then Ok []
  else res_map (fun kr => l ← get_rate rt times (snd kr); Ok (fst kr, l)) (map_range (rtCounts rt)).
End rates.
