(* ===== verification/StatsProps.v ===== *)
(** * The statistics count what happened

    A ring holds the last values, a histogram the number of values up to each
    cutoff, and no call of several goroutines on shared timings or counters is
    lost. *)
From S2P Require Import Prelude GoStd Stats.
Open Scope string_scope.
Open Scope list_scope.
Open Scope Z_scope.

(** ** Machine integers *)
Definition cong (a b : Z) : Prop := a mod 2 ^ 64 = b mod 2 ^ 64.
#[export] Instance cong_equiv : Equivalence cong.
Proof. unfold cong. split; [intros x; done|intros x y; done|intros x y z; congruence]. Qed.
#[export] Instance cong_add : Proper (cong ==> cong ==> cong) Z.add.
Proof. unfold cong. intros a b H c d H'. rewrite (Z.add_mod a c), (Z.add_mod b d) by lia. by rewrite H, H'. Qed.
Lemma i64_cong z : cong (i64 z) z.
Proof.
  unfold cong, i64, swrap. change (2 ^ (64 - 1)) with 9223372036854775808. change (2 ^ 64) with 18446744073709551616.
  repeat case_match; rewrite ?Zminus_mod_idemp_l, ?Zplus_mod_idemp_l; Z.div_mod_to_equations; lia.
Qed.
Lemma cong_i64 a b : cong a b -> i64 a = i64 b.
Proof. unfold cong, i64, swrap. by intros ->. Qed.
Lemma i64_id z : in_int64 z -> i64 z = z.
Proof. intros Hz. apply swrap_id; [lia|]. exact Hz. Qed.

(** ** Rings *)

(** The ring of a window of values. *)
Record ring_of (cap : nat) (w : list Z) (r : RingInt64) : Prop := {
  ro_cap : rgCap r = cap;
  ro_pos : (rgPosition r < cap)%nat;
  ro_len : (length (rgValues r) <= cap)%nat;
  ro_start : (length (rgValues r) < cap)%nat -> rgPosition r = 0%nat;
  ro_window : w = drop (rgPosition r) (rgValues r) ++ take (rgPosition r) (rgValues r)
}.
Definition slide (cap : nat) (w : list Z) (v : Z) : list Z := if (length w <? cap)%nat then w ++ [v] else tail w ++ [v].

Lemma ring_new cap : (0 < cap)%nat -> ring_of cap [] (NewRingInt64 cap).
Proof. intros H. split; simpl; lia || done. Qed.

Lemma ring_length cap w r : ring_of cap w r -> length w = length (rgValues r).
Proof. intros H. rewrite (ro_window _ _ _ H), length_app, length_drop, length_take. lia. Qed.

Lemma ring_add cap w r v : ring_of cap w r -> exists r', ring_Add v r = Ok r' /\ ring_of cap (slide cap w v) r'.
Proof.
  intros H. pose proof (ring_length _ _ _ H) as Hlen. destruct H as [Hc Hp Hl Hs Hw]. unfold ring_Add, slide. rewrite Hlen, Hc.
  destruct (Nat.eqb_spec (length (rgValues r)) cap) as [E|E].
  - destruct (lookup_lt_is_Some_2 (rgValues r) (rgPosition r)) as [x Hx]; [lia|]. rewrite Hx.
    destruct (Nat.ltb_spec (length (rgValues r)) cap); [lia|]. eexists. split; [done|].
    assert (tail w = drop (S (rgPosition r)) (rgValues r) ++ take (rgPosition r) (rgValues r)) as Ht
      by (rewrite Hw, (drop_S _ _ _ Hx); done).
    split; cbn [rgCap rgPosition rgValues]; rewrite ?length_insert; try done; try lia; [apply Nat.mod_upper_bound; lia|].
    rewrite Ht, <- app_assoc. destruct (decide (S (rgPosition r) = cap)) as [Ep|Ep].
    + rewrite Ep, Nat.Div0.mod_same. change (drop 0 ?l) with l. change (take 0 ?l) with (@nil Z). rewrite app_nil_r, (drop_ge (rgValues r) cap) by lia.
      rewrite insert_take_drop by lia. by rewrite (drop_ge (rgValues r) (S (rgPosition r))) by lia.
    + rewrite Nat.mod_small, drop_insert_lt by lia. f_equal. rewrite (take_S_r _ _ v) by (apply list_lookup_insert_eq; lia). by rewrite take_insert_ge by lia.
  - destruct (Nat.ltb_spec (length (rgValues r)) cap); [|lia]. eexists. split; [done|]. rewrite (Hs ltac:(lia)) in *.
    split; cbn [rgCap rgPosition rgValues]; rewrite ?length_app; simpl; try done; try lia. by rewrite Hw, !app_nil_r.
Qed.

Lemma ring_values cap w r : ring_of cap w r -> ring_Values r = Ok w.
Proof.
  intros H. pose proof (ring_length _ _ _ H) as Hlen. destruct H as [Hc Hp Hl Hs Hw]. unfold ring_Values. apply res_map_Ok, Forall2_same_length_lookup_2.
  { by rewrite length_seq. }
  intros i x y Hx Hy. apply lookup_seq in Hx as [-> Hi]. rewrite Nat.add_0_l, Hc. rewrite Hw in Hy.
  destruct (decide (length (rgValues r) < cap)%nat) as [E|E].
  - rewrite (Hs E) in *. rewrite app_nil_r in Hy. change (drop 0 ?l) with l in Hy. by rewrite Nat.add_0_l, Nat.mod_small, Hy by lia.
  - destruct (decide (i < length (rgValues r) - rgPosition r)%nat) as [Ei|Ei].
    + rewrite lookup_app_l, lookup_drop in Hy by (rewrite length_drop; lia). by rewrite Nat.mod_small, Hy by lia.
    + rewrite lookup_app_r in Hy by (rewrite length_drop; lia). rewrite length_drop in Hy. apply lookup_take_Some in Hy as [Hy _].
      replace (rgPosition r + i)%nat with ((i - (length (rgValues r) - rgPosition r)) + 1 * cap)%nat by lia.
      by rewrite Nat.Div0.mod_add, Nat.mod_small, Hy by lia.
Qed.

Lemma slide_window cap l v : slide cap (drop (length l - cap) l) v = drop (length (l ++ [v]) - cap) (l ++ [v]) \/ cap = 0%nat.
Proof.
  destruct (decide (cap = 0%nat)); [by right|left]. unfold slide. rewrite length_drop, length_app. simpl.
  destruct (Nat.ltb_spec (length l - (length l - cap)) cap).
  - rewrite (drop_app_le l) by lia. do 2 f_equal. lia.
  - rewrite drop_app_le by lia. f_equal. replace (length l + 1 - cap)%nat with (S (length l - cap)) by lia.
    destruct (drop (length l - cap) l) as [|x d] eqn:E; simpl.
    + apply (f_equal length) in E. rewrite length_drop in E. simpl in E. lia.
    + by rewrite <- (drop_drop l (length l - cap) 1) || (rewrite <- Nat.add_1_r, <- drop_drop, E; done).
Qed.

(** After any values a ring holds the last of them, in order. *)
Lemma ring_window cap l : (0 < cap)%nat -> exists r, res_fold (fun r v => ring_Add v r) (NewRingInt64 cap) l = Ok r /\
  ring_of cap (drop (length l - cap) l) r.
Proof.
  intros Hc. induction l as [|v l IH] using rev_ind; [eexists; split; [done|by apply ring_new]|]. destruct IH as (r & Hr & Ho).
  rewrite res_fold_app, Hr. cbn [mbind res_bind res_fold]. destruct (ring_add _ _ _ v Ho) as (r' & -> & Ho'). exists r'. split; [done|].
  destruct (slide_window cap l v) as [<-|]; [done|lia].
Qed.

(** ** Histograms *)
(** How many values fall into a bucket, and into one up to it. *)
Definition number (cs : list Z) (i : nat) (l : list Z) : Z := Z.of_nat (length (filter (fun v => bucket_of cs v = i) l)).
Definition number_upto (cs : list Z) (i : nat) (l : list Z) : Z := Z.of_nat (length (filter (fun v => (bucket_of cs v <= i)%nat) l)).

Lemma number_snoc cs i l v : number cs i (l ++ [v]) = number cs i l + (if decide (bucket_of cs v = i) then 1 else 0).
Proof. unfold number. rewrite filter_app, length_app, filter_cons, filter_nil. case_decide; simpl; lia. Qed.

Lemma sum_numbers cs i l : sumZ ((fun j => number cs j l) <$> seq 0 (S i)) = number_upto cs i l.
Proof.
  unfold number, number_upto. induction i as [|i IH].
  - simpl. rewrite Z.add_0_r. do 2 f_equal. apply list_filter_iff. intros x. lia.
  - rewrite seq_S, fmap_app, sumZ_app, IH. simpl. rewrite Z.add_0_r, <- Nat2Z.inj_add. f_equal. clear IH.
    induction l as [|v l IH]; [done|]. rewrite !filter_cons. repeat case_decide; simpl; lia.
Qed.

(** The histogram of some values. *)
Record hist_of (cs l : list Z) (h : Histogram) : Prop := {
  ho_cut : hCutoffs h = cs;
  ho_buckets : hBuckets h = (fun i => i64 (number cs i l)) <$> seq 0 (S (length cs));
  ho_total : hTotal h = i64 (sumZ l)
}.

Lemma bucket_of_le cs v : (bucket_of cs v <= length cs)%nat.
Proof. induction cs as [|c cs IH]; simpl; [done|]. case_match; lia. Qed.

Lemma hist_new cs labels h : NewGenericHistogram cs labels = Ok h -> hist_of cs [] h.
Proof.
  unfold NewGenericHistogram. destruct (Nat.eqb_spec (S (length cs)) (length labels)) as [E|]; [|done]. intros [= <-]. split; [done| |done]. simpl hBuckets.
  rewrite <- E. generalize (S (length cs)) 0%nat. intros n. induction n as [|n IH]; intros k; [done|]. simpl. by rewrite <- IH.
Qed.

Lemma bucket_add_of cs l h v : hCutoffs h = cs -> hBuckets h = (fun i => i64 (number cs i l)) <$> seq 0 (S (length cs)) ->
  hBuckets (bucket_Add v h) = (fun i => i64 (number cs i (l ++ [v]))) <$> seq 0 (S (length cs)).
Proof.
  intros Hc Hb. simpl hBuckets. rewrite Hc, Hb. apply list_eq. intros i. pose proof (bucket_of_le cs v). destruct (decide (bucket_of cs v = i)) as [<-|Hne].
  - rewrite list_lookup_alter_eq, !list_lookup_fmap, !(lookup_seq_lt 0 _ (bucket_of cs v)) by lia. simpl. rewrite number_snoc, decide_True by done.
    f_equal. apply cong_i64. by rewrite i64_cong.
  - rewrite list_lookup_alter_ne, !list_lookup_fmap by done. destruct (seq 0 _ !! i) as [j|] eqn:E; [|done]. simpl.
    apply lookup_seq in E as [-> _]. rewrite number_snoc, decide_False by done. by rewrite Z.add_0_r.
Qed.

Lemma hist_add cs l h v : hist_of cs l h -> hist_of cs (l ++ [v]) (hist_Add v h).
Proof.
  intros [Hc Hb Ht]. split; [done| |].
  - exact (bucket_add_of cs l h v Hc Hb).
  - simpl. rewrite Ht, sumZ_app. simpl. rewrite Z.add_0_r. apply cong_i64. by rewrite i64_cong.
Qed.

Lemma foldl_i64 l : forall a, foldl (fun count n => i64 (count + n)) a l = match l with [] => a | _ => i64 (a + sumZ l) end.
Proof.
  induction l as [|n l IH] using rev_ind; intros a; [done|]. rewrite foldl_app, IH. simpl. rewrite sumZ_app. simpl.
  destruct l as [|m l]; simpl; [f_equal; lia|]. apply cong_i64. rewrite i64_cong. unfold cong. f_equal. lia.
Qed.
Lemma running_lookup bs : forall t i n, running t bs !! i = Some n -> n = i64 (t + sumZ (take (S i) bs)).
Proof.
  induction bs as [|b bs IH]; intros t i n H; [done|]. destruct i as [|i]; simpl in H.
  - injection H as <-. simpl. f_equal. lia.
  - apply IH in H as ->. rewrite firstn_cons. cbn [sumZ foldr]. apply cong_i64. fold (sumZ (take (S i) bs)). rewrite i64_cong. unfold cong. f_equal. lia.
Qed.
Lemma running_length bs t : length (running t bs) = length bs.
Proof. revert t. induction bs as [|b bs IH]; intros t; simpl; [done|]. by rewrite IH. Qed.
Lemma sumZ_i64 {A} (f : A -> Z) l : cong (sumZ ((fun x => i64 (f x)) <$> l)) (sumZ (f <$> l)).
Proof. induction l as [|x l IH]; simpl; [done|]. by rewrite i64_cong, IH. Qed.

Lemma hist_upto cs l h i n : hist_of cs l h -> hist_json h !! i = Some n -> n = i64 (number_upto cs i l).
Proof.
  intros [_ Hb _] H. unfold hist_json in H. assert (i < S (length cs))%nat as Hi.
  { apply lookup_lt_Some in H. by rewrite running_length, Hb, length_fmap, length_seq in H. }
  apply running_lookup in H as ->. rewrite Hb, <- fmap_take, take_seq, Nat.min_l by lia. apply cong_i64. by rewrite Z.add_0_l, sumZ_i64, sum_numbers.
Qed.
Lemma number_all cs l : number_upto cs (length cs) l = Z.of_nat (length l).
Proof. unfold number_upto. f_equal. induction l as [|v l IH]; [done|]. rewrite filter_cons_True by apply bucket_of_le. simpl. by rewrite IH. Qed.

Lemma hist_count cs l h : hist_of cs l h -> hist_Count h = i64 (Z.of_nat (length l)).
Proof.
  intros [_ Hb _]. unfold hist_Count. rewrite foldl_i64, Hb. transitivity (i64 (0 + sumZ ((fun i => i64 (number cs i l)) <$> seq 0 (S (length cs))))); [done|].
  apply cong_i64. by rewrite Z.add_0_l, sumZ_i64, sum_numbers, number_all.
Qed.

Lemma bucket_le cs : StronglySorted Z.le cs -> forall i c v, cs !! i = Some c -> (bucket_of cs v <= i)%nat <-> v <= c.
Proof.
  induction 1 as [|c0 cs Hs IH Hall]; intros i c v Hi; [done|]. simpl. destruct i as [|i]; simpl in Hi.
  - injection Hi as <-. destruct (Z.leb_spec v c0); lia.
  - rewrite Forall_forall in Hall. assert (c0 <= c) by (apply Hall; by eapply list_elem_of_lookup_2). destruct (Z.leb_spec v c0); [lia|].
    rewrite <- (IH i c v Hi). lia.
Qed.

(** A histogram with sorted cutoffs publishes, for each cutoff, the number of
    values up to it, the number of all values and their sum. *)
Lemma histogram_exact cs h0 l : NewHistogram cs = Ok h0 -> StronglySorted Z.le cs ->
  let h := foldl (fun h v => hist_Add v h) h0 l in
  (forall i c, cs !! i = Some c -> hist_json h !! i = Some (i64 (Z.of_nat (length (filter (fun v => v <= c) l))))) /\
  hist_Count h = i64 (Z.of_nat (length l)) /\ hTotal h = i64 (sumZ l).
Proof.
  intros H0 Hs. assert (hist_of cs l (foldl (fun h v => hist_Add v h) h0 l)) as H.
  { induction l as [|v l IH] using rev_ind; [by eapply hist_new|]. rewrite foldl_app. simpl. by apply hist_add. }
  intros h. fold h in H. split_and!; [|by eapply hist_count|by destruct H]. intros i c Hi.
  destruct (hist_json h !! i) as [n|] eqn:E.
  - apply (hist_upto cs l) in E as ->; [|done]. do 2 f_equal. unfold number_upto. do 2 f_equal. apply list_filter_iff. intros v. by apply bucket_le.
  - apply lookup_ge_None in E. apply lookup_lt_Some in Hi.
    unfold hist_json in E. destruct H as [_ Hb _]. rewrite running_length, Hb, length_fmap, length_seq in E. lia.
Qed.

(** ** Shared tables *)
Section shared.
Context {Obj G A : Type} (new : Obj) (act : A -> Obj * G -> Obj * G).
(** A number of an object and one of the global part that every operation adds
    to. *)
Context (good : Obj -> Prop) (adds : A -> Prop) (mu : Obj -> Z) (w : A -> Z) (gam : G -> Z) (wg : A -> Z).
Hypothesis good_new : good new.
Hypothesis good_act : forall a o g, adds a -> good o -> good (fst (act a (o, g))).
Hypothesis mu_act : forall a o g, adds a -> good o -> cong (mu (fst (act a (o, g)))) (mu o + w a).
Hypothesis gam_act : forall a o g, cong (gam (snd (act a (o, g)))) (gam g + wg a).
Implicit Types (s : Shared Obj G) (c : Call A) (cs : list (Call A)).

Definition todo c : list A := match c with CStart _ l | CMissed _ l | CHave _ l => l end.
Definition aims s (n : string) c : Prop := match c with CStart m _ | CMissed m _ => m = n | CHave p _ => shNames s !! n = Some p end.
#[export] Instance aims_dec s n c : Decision (aims s n c).
Proof. destruct c; simpl; apply _. Defined.

(** What a call will still add to a name, and what the name has. *)
Definition due s n c : Z := if decide (aims s n c) then sumZ (w <$> todo c) else 0.
Definition obj_at s n : Obj := match shNames s !! n with Some p => default new (shObjs s !! p) | None => new end.
Definition value s n : Z := mu (obj_at s n).
Definition due_global c : Z := sumZ (wg <$> todo c).

(** Different names have different objects, and calls hold objects of names. *)
Record table_ok s cs : Prop := {
  to_inj : forall n m p, shNames s !! n = Some p -> shNames s !! m = Some p -> n = m;
  to_objs : forall n p, shNames s !! n = Some p -> is_Some (shObjs s !! p);
  to_good : forall p o, shObjs s !! p = Some o -> good o;
  to_adds : forall c a, c ∈ cs -> a ∈ todo c -> adds a;
  to_calls : forall p l, CHave p l ∈ cs -> exists n, shNames s !! n = Some p
}.

Lemma sumZ_fmap_cons {B} (f : B -> Z) x l : sumZ (f <$> x :: l) = f x + sumZ (f <$> l).
Proof. done. Qed.
Lemma sum_insert {B} (f g : B -> Z) l i x y : l !! i = Some x -> (forall z, z ∈ l -> g z = f z) ->
  sumZ (g <$> <[i := y]> l) = sumZ (f <$> l) - f x + g y.
Proof.
  revert i. induction l as [|b l IH]; intros i Hi Hg; [done|]. destruct i as [|i].
  - change (<[0%nat := y]> (b :: l)) with (y :: l). rewrite !sumZ_fmap_cons. injection Hi as ->. assert (g <$> l = f <$> l) as -> by (apply list_fmap_ext; intros j z Hz; apply Hg; right; by eapply list_elem_of_lookup_2). lia.
  - change (<[S i := y]> (b :: l)) with (b :: <[i := y]> l). rewrite !sumZ_fmap_cons, (IH i Hi) by (intros z Hz; apply Hg; by right).
    rewrite (Hg b) by left. lia.
Qed.

(** A step keeps what a name has and will get. *)
Record kept s cs s' cs' : Prop := {
  kp_ok : table_ok s' cs';
  kp_name : forall n, cong (value s' n + sumZ (due s' n <$> cs')) (value s n + sumZ (due s n <$> cs));
  kp_global : cong (gam (shGlobal s') + sumZ (due_global <$> cs')) (gam (shGlobal s) + sumZ (due_global <$> cs))
}.

Lemma adds_insert cs i c c' : (forall c a, c ∈ cs -> a ∈ todo c -> adds a) -> cs !! i = Some c -> todo c' ⊆ todo c ->
  forall d a, d ∈ <[i := c']> cs -> a ∈ todo d -> adds a.
Proof.
  intros Hs Hi Hsub d a Hd Ha. apply list_elem_of_lookup in Hd as [j Hj]. apply list_lookup_insert_Some in Hj as [(_ & <- & _)|(_ & Hj)].
  - eapply Hs; [by eapply list_elem_of_lookup_2|by apply Hsub].
  - eapply Hs; [by eapply list_elem_of_lookup_2|done].
Qed.

(** A call that takes its pointer. *)
Lemma step_pointer s cs i c n p : table_ok s cs -> cs !! i = Some c -> shNames s !! n = Some p -> (forall m, aims s m c <-> m = n) ->
  kept s cs s (<[i := CHave p (todo c)]> cs).
Proof.
  intros Hok Hi Hn Ha. assert (forall m, due s m (CHave p (todo c)) = due s m c) as Hd.
  { intros m. unfold due. simpl. destruct (decide (aims s m c)) as [E|E].
    - apply Ha in E as ->. by rewrite decide_True.
    - rewrite decide_False; [done|]. intros Hm. apply E, Ha. by eapply (to_inj _ _ Hok). }
  split.
  - split; [apply Hok|apply Hok|apply Hok|by eapply (adds_insert cs i c); [apply Hok| |]|]. intros q l Hq. apply list_elem_of_lookup in Hq as [j Hj].
    apply list_lookup_insert_Some in Hj as [(_ & [= <- <-] & _)|(_ & Hj)]; [by exists n|]. eapply (to_calls _ _ Hok), list_elem_of_lookup_2, Hj.
  - intros m. rewrite (sum_insert (due s m) (due s m) cs i c) by done. rewrite Hd. unfold cong. f_equal. lia.
  - rewrite (sum_insert due_global due_global cs i c) by done. unfold cong. f_equal. unfold due_global. simpl. lia.
Qed.

(** A call that creates its name. *)
Lemma step_create s cs i n l : table_ok s cs -> cs !! i = Some (CMissed n l) -> shNames s !! n = None ->
  let p := length (shObjs s) in let s' := mkShared (<[n := p]> (shNames s)) (shObjs s ++ [new]) (shGlobal s) in
  kept s cs s' (<[i := CHave p l]> cs).
Proof.
  intros Hok Hi Hn p s'. assert (forall m q, shNames s !! m = Some q -> q <> p) as Hp.
  { intros m q Hm ->. destruct (to_objs _ _ Hok _ _ Hm) as [o Ho]. apply lookup_lt_Some in Ho. lia. }
  assert (forall m c, c ∈ cs -> due s' m c = due s m c) as Hd.
  { intros m c Hc. unfold due. destruct c as [k t|k t|q t]; [done|done|]. simpl. destruct (to_calls _ _ Hok q t Hc) as [k Hk].
    destruct (decide (m = n)) as [->|Hne]; [|by rewrite lookup_insert_ne].
    rewrite lookup_insert_eq, Hn. rewrite !decide_False; [done|done|]. intros [= <-]. by eapply Hp. }
  split.
  - split; simpl.
    + intros a b q Ha Hb. destruct (decide (a = n)) as [->|], (decide (b = n)) as [->|]; rewrite ?lookup_insert_eq, ?lookup_insert_ne in * by done; simplify_eq;
        [done|by destruct (Hp _ _ Hb)|by destruct (Hp _ _ Ha)|by eapply (to_inj _ _ Hok)].
    + intros a q Ha. destruct (decide (a = n)) as [->|]; rewrite ?lookup_insert_eq, ?lookup_insert_ne in Ha by done.
      * injection Ha as <-. exists new. by apply list_lookup_middle.
      * destruct (to_objs _ _ Hok _ _ Ha) as [o Ho]. exists o. by apply lookup_app_l_Some.
    + intros q o [Ho|(_ & Ho)]%lookup_app_Some; [by eapply (to_good _ _ Hok)|]. apply list_lookup_singleton_Some in Ho as [_ <-]. done.
    + by eapply (adds_insert cs i (CMissed n l)); [apply Hok| |].
    + intros q t Hq. apply list_elem_of_lookup in Hq as [j Hj]. apply list_lookup_insert_Some in Hj as [(_ & [= <- <-] & _)|(_ & Hj)].
      * exists n. by rewrite lookup_insert_eq.
      * destruct (to_calls _ _ Hok q t) as [k Hk]; [by eapply list_elem_of_lookup_2|]. exists k. rewrite lookup_insert_ne; [done|]. intros <-. congruence.
  - intros m. rewrite (sum_insert (due s m) (due s' m) cs i (CMissed n l)) by (done || by apply Hd).
    assert (value s' m = value s m) as ->.
    { unfold value, obj_at. simpl. destruct (decide (m = n)) as [->|].
      - rewrite lookup_insert_eq, Hn, list_lookup_middle by done. done.
      - rewrite lookup_insert_ne by done. destruct (shNames s !! m) as [q|] eqn:E; [|done]. destruct (to_objs _ _ Hok _ _ E) as [o Ho].
        by rewrite Ho, (lookup_app_l_Some _ _ _ _ Ho). }
    assert (due s' m (CHave p l) = due s m (CMissed n l)) as ->; [|unfold cong; f_equal; lia]. unfold due. simpl.
    destruct (decide (n = m)) as [->|]; [by rewrite lookup_insert_eq, decide_True|]. rewrite lookup_insert_ne by done.
    rewrite decide_False; [done|]. intros E. by apply Hp in E.
  - simpl. rewrite (sum_insert due_global due_global cs i (CMissed n l)) by done. unfold cong. f_equal. unfold due_global. simpl. lia.
Qed.

(** An atomic operation. *)
Lemma step_act s cs i p a l : table_ok s cs -> cs !! i = Some (CHave p (a :: l)) -> kept s cs (do_act act a p s) (<[i := CHave p l]> cs).
Proof.
  intros Hok Hi. destruct (to_calls _ _ Hok p (a :: l)) as [n Hn]; [by eapply list_elem_of_lookup_2|].
  destruct (to_objs _ _ Hok _ _ Hn) as [o Ho]. unfold do_act. rewrite Ho. cbn zeta. split.
  - split; cbn [shNames shObjs]; [apply Hok| | | |].
    + intros m q Hm. apply (to_objs _ _ Hok) in Hm. destruct (decide (p = q)) as [->|]; [|by rewrite list_lookup_insert_ne].
      rewrite list_lookup_insert_eq by (by eapply lookup_lt_Some). by eexists.
    + intros q o' [(<- & <- & _)|(_ & Hq)]%list_lookup_insert_Some; [apply good_act; [eapply (to_adds _ _ Hok); [by eapply list_elem_of_lookup_2|by left]|]|]; by eapply (to_good _ _ Hok).
    + eapply (adds_insert cs i (CHave p (a :: l))); [apply Hok|done|]. intros b Hb. by right.
    + intros q t Hq. apply list_elem_of_lookup in Hq as [j Hj]. apply list_lookup_insert_Some in Hj as [(_ & [= <- <-] & _)|(_ & Hj)]; [by exists n|].
      eapply (to_calls _ _ Hok), list_elem_of_lookup_2, Hj.
  - intros m. erewrite (sum_insert (due s m) _ cs i (CHave p (a :: l))); [|done|done]. unfold value, obj_at, due. cbn [aims todo shNames shObjs shGlobal]. rewrite sumZ_fmap_cons.
    destruct (decide (shNames s !! m = Some p)) as [E|E].
    + rewrite E, Ho, list_lookup_insert_eq by (by eapply lookup_lt_Some). cbn [default]. rewrite (mu_act a o (shGlobal s)) by (by eapply (to_good _ _ Hok) || (eapply (to_adds _ _ Hok); [by eapply list_elem_of_lookup_2|by left])). unfold cong. f_equal. simpl. lia.
    + destruct (shNames s !! m) as [q|] eqn:Em; [|unfold cong; f_equal; lia]. rewrite list_lookup_insert_ne by congruence. unfold cong. f_equal. lia.
  - simpl. rewrite (sum_insert due_global due_global cs i (CHave p (a :: l))) by done. rewrite (gam_act a o (shGlobal s)). unfold cong. f_equal. unfold due_global. cbn [todo]. rewrite sumZ_fmap_cons. lia.
Qed.

Lemma calls_step_kept i s cs s' cs' : table_ok s cs -> calls_step new act i (cs, s) = Some (cs', s') -> kept s cs s' cs'.
Proof.
  intros Hok H. unfold calls_step in H. simpl in H. destruct (cs !! i) as [c|] eqn:Hi; [|done].
  destruct c as [n l|n l|p [|a l]]; simpl in H; [..|done|].
  - unfold look in H. destruct (shNames s !! n) as [p|] eqn:Hn; injection H as <- <-.
    + apply (step_pointer s cs i (CStart n l) n p); [done..|]. simpl. naive_solver.
    + assert (forall m, due s m (CMissed n l) = due s m (CStart n l)) as Hd by done. split.
      * split; [apply Hok|apply Hok|apply Hok|by eapply (adds_insert cs i (CStart n l)); [apply Hok| |]|]. intros q t Hq. apply list_elem_of_lookup in Hq as [j Hj].
        apply list_lookup_insert_Some in Hj as [(_ & [=] & _)|(_ & Hj)]. eapply (to_calls _ _ Hok), list_elem_of_lookup_2, Hj.
      * intros m. rewrite (sum_insert (due s m) (due s m) cs i (CStart n l)) by done. rewrite Hd. unfold cong. f_equal. lia.
      * rewrite (sum_insert due_global due_global cs i (CStart n l)) by done. unfold cong. f_equal. unfold due_global. simpl. lia.
  - unfold look_or_create in H. destruct (shNames s !! n) as [p|] eqn:Hn; injection H as <- <-; simpl.
    + apply (step_pointer s cs i (CMissed n l) n p); [done..|]. simpl. naive_solver.
    + by apply step_create.
  - injection H as <- <-. by apply step_act.
Qed.

Lemma cruns_kept x l y : cruns new act x l y -> table_ok (snd x) (fst x) -> kept (snd x) (fst x) (snd y) (fst y).
Proof.
  induction 1 as [x|[cs s] i [cs1 s1] l z Hs Hr IH]; intros Hok; simpl in *; [split; done|].
  apply calls_step_kept in Hs as [H1 H2 H3]; [|done]. destruct (IH H1) as [K1 K2 K3]. split; [done| |].
  - intros n. by rewrite K2, H2.
  - by rewrite K3, H3.
Qed.

(** When all calls are done every name has what it had and what was added. *)
Lemma cruns_value x l y n : cruns new act x l y -> table_ok (snd x) (fst x) -> forallb call_done (fst y) = true ->
  cong (value (snd y) n) (value (snd x) n + sumZ (due (snd x) n <$> fst x)) /\
  cong (gam (shGlobal (snd y))) (gam (shGlobal (snd x)) + sumZ (due_global <$> fst x)).
Proof.
  intros Hr Hok Hd. destruct (cruns_kept _ _ _ Hr Hok) as [_ Kn Kg]. rewrite <- Kn, <- Kg.
  assert (forall f, (forall p, f (CHave p []) = 0) -> sumZ (f <$> fst y) = 0) as Hz.
  { intros f Hf. clear - Hd Hf. induction (fst y) as [|c cs IH]; [done|]. simpl in Hd. apply andb_true_iff in Hd as [Hc Hd].
    rewrite sumZ_fmap_cons, (IH Hd). destruct c as [| |p []]; try done. rewrite Hf. done. }
  rewrite !Hz; [|done|intros p; unfold due; by case_decide]. by rewrite !Z.add_0_r.
Qed.
End shared.

(** Every schedule ends, and only when all calls are done. *)
Section ends.
Context {Obj G A : Type} (new : Obj) (act : A -> Obj * G -> Obj * G).
Definition call_size (c : Call A) : nat := match c with CStart _ l => 2 + length l | CMissed _ l => 1 + length l | CHave _ l => length l end.

Lemma calls_step_size i x y : calls_step new act i x = Some y -> (S (sum_list (call_size <$> fst y)) <= sum_list (call_size <$> fst x))%nat.
Proof.
  destruct x as [cs s]. unfold calls_step. simpl. destruct (cs !! i) as [c|] eqn:Hi; [|done]. intros H.
  assert (forall c', (S (call_size c') <= call_size c)%nat -> (S (sum_list (call_size <$> <[i := c']> cs)) <= sum_list (call_size <$> cs))%nat) as Hs.
  { intros c' Hc. clear - Hi Hc. revert i Hi. induction cs as [|d cs IH]; intros [|i] Hi; try done.
    - injection Hi as ->. change (<[0%nat := c']> (c :: cs)) with (c' :: cs). rewrite !fmap_cons. simpl. lia.
    - change (<[S i := c']> (d :: cs)) with (d :: <[i := c']> cs). rewrite !fmap_cons. simpl. specialize (IH i Hi). lia. }
  destruct c as [n l|n l|p [|a l]]; simpl in H; try done; injection H as <-; apply Hs; [|simpl; lia..].
  destruct (look n s); simpl; lia.
Qed.

Lemma cruns_bounded x l y : cruns new act x l y -> (length l + sum_list (call_size <$> fst y) <= sum_list (call_size <$> fst x))%nat.
Proof. induction 1 as [|x i y l z Hs _ IH]; simpl; [done|]. apply calls_step_size in Hs. lia. Qed.

Lemma calls_progress cs s : forallb call_done cs = false -> exists i y, calls_step new act i (cs, s) = Some y.
Proof.
  intros H. assert (exists i c, cs !! i = Some c /\ call_done c = false) as (i & c & Hi & Hc).
  { induction cs as [|d cs IH]; [done|]. simpl in H. destruct (call_done d) eqn:Hd; simpl in H; [|by exists 0%nat, d].
    destruct (IH H) as (i & c & Hi & Hc). by exists (S i), c. }
  exists i. unfold calls_step. simpl. rewrite Hi. destruct c as [n l|n l|p [|a l]]; try done; by eexists.
Qed.
End ends.

(** ** Timings *)
Definition sound_hist (h : Histogram) : Prop :=
  hCutoffs h = bucketCutoffs /\ length (hBuckets h) = 11%nat /\ Forall (fun n => i64 n = n) (hBuckets h) /\ i64 (hTotal h) = hTotal h.
Lemma i64_idem z : i64 (i64 z) = i64 z.
Proof. apply cong_i64, i64_cong. Qed.
Lemma sound_new : sound_hist timing_hist.
Proof. split_and!; try reflexivity. repeat constructor. Qed.
Lemma sound_act a h g : True -> sound_hist h -> sound_hist (fst (timing_act a (h, g))).
Proof.
  destruct g as [n t]. intros _ (H1 & H2 & H3 & H4). destruct a; simpl; split_and!; simpl; try done.
  - by rewrite length_alter.
  - apply Forall_alter; [done|]. intros x _ _. apply i64_idem.
  - apply i64_idem.
Qed.

(** One bucket, and the total. *)
Definition bucket_at (i : nat) (h : Histogram) : Z := default 0 (hBuckets h !! i).
Definition bucket_w (i : nat) (a : TimingOp) : Z := match a with TBucket ns => if decide (bucket_of bucketCutoffs ns = i) then 1 else 0 | _ => 0 end.
Definition total_w (a : TimingOp) : Z := match a with TTotal ns => ns | _ => 0 end.
Definition count_w (a : TimingOp) : Z := match a with TCount => 1 | _ => 0 end.
Definition time_w (a : TimingOp) : Z := match a with TTime ns => ns | _ => 0 end.

Lemma bucket_act i a h g : True -> sound_hist h -> cong (bucket_at i (fst (timing_act a (h, g)))) (bucket_at i h + bucket_w i a).
Proof.
  destruct g as [n t]. intros _ (H1 & H2 & _ & _). destruct a as [ns|ns| |ns]; cbn [timing_act fst bucket_w]; rewrite ?Z.add_0_r; try done.
  unfold bucket_at, bucket_Add. cbn [hBuckets]. rewrite H1. destruct (decide (bucket_of bucketCutoffs ns = i)) as [<-|Hne].
  - assert (bucket_of bucketCutoffs ns < 11)%nat as Hlt by (pose proof (bucket_of_le bucketCutoffs ns); simpl length in *; lia).
    rewrite list_lookup_alter_eq. destruct (lookup_lt_is_Some_2 (hBuckets h) (bucket_of bucketCutoffs ns)) as [x ->]; [lia|]. simpl. apply i64_cong.
  - rewrite list_lookup_alter_ne by done. by rewrite Z.add_0_r.
Qed.
Lemma total_act a h g : True -> sound_hist h -> cong (hTotal (fst (timing_act a (h, g)))) (hTotal h + total_w a).
Proof. destruct g as [n t]. intros _ _. destruct a; simpl; rewrite ?Z.add_0_r; try done. apply i64_cong. Qed.
Lemma count_act a h g : cong (fst (snd (timing_act a (h, g)))) (fst g + count_w a).
Proof. destruct g as [n t]. destruct a; simpl; rewrite ?Z.add_0_r; try done. apply i64_cong. Qed.
Lemma time_act a h g : cong (snd (snd (timing_act a (h, g)))) (snd g + time_w a).
Proof. destruct g as [n t]. destruct a; simpl; rewrite ?Z.add_0_r; try done. apply i64_cong. Qed.

(** A new table: different names, fresh objects. *)
Section fresh.
Context {Obj G : Type} (new : Obj).
Record fresh (t : Shared Obj G) : Prop := {
  fr_inj : forall n m p, shNames t !! n = Some p -> shNames t !! m = Some p -> n = m;
  fr_objs : forall n p, shNames t !! n = Some p -> (p < length (shObjs t))%nat;
  fr_new : Forall (eq new) (shObjs t)
}.
Definition add_name (t : Shared Obj G) (n : string) : Shared Obj G :=
  mkShared (<[n := length (shObjs t)]> (shNames t)) (shObjs t ++ [new]) (shGlobal t).

Lemma fresh_fold names t : fresh t -> fresh (foldl add_name t names) /\ shGlobal (foldl add_name t names) = shGlobal t.
Proof.
  revert t. induction names as [|n names IH]; intros t Hf; [done|]. simpl. destruct (IH (add_name t n)) as [H1 H2]; [|by split]. clear IH. destruct Hf as [Hi Ho Hn]. split; simpl.
  - intros a b q Ha Hb. destruct (decide (a = n)) as [->|], (decide (b = n)) as [->|]; rewrite ?lookup_insert_eq, ?lookup_insert_ne in * by done; simplify_eq; try done.
    + apply Ho in Hb. lia.
    + apply Ho in Ha. lia.
    + by eapply Hi.
  - intros a q Ha. rewrite length_app. simpl. destruct (decide (a = n)) as [->|]; rewrite ?lookup_insert_eq, ?lookup_insert_ne in Ha by done; simplify_eq; [lia|].
    apply Ho in Ha. lia.
  - apply Forall_app. split; [done|by constructor].
Qed.

Lemma fresh_ok {A} (good : Obj -> Prop) (adds : A -> Prop) (t : Shared Obj G) (cs : list (Call A)) : fresh t -> good new ->
  (forall c, c ∈ cs -> match c with CStart _ l => Forall adds l | _ => False end) -> table_ok good adds t cs.
Proof.
  intros [Hi Ho Hn] Hg Hc. split; [done| | | |].
  - intros n p Hp. apply lookup_lt_is_Some_2. eauto.
  - intros p o Hp. rewrite Forall_forall in Hn. by rewrite <- (Hn o) by (by eapply list_elem_of_lookup_2).
  - intros c a Hin Ha. specialize (Hc c Hin). destruct c as [n l| |]; [|done|done]. rewrite Forall_forall in Hc. by apply Hc.
  - intros p l Hp. destruct (Hc _ Hp).
Qed.
Lemma fresh_at t n : fresh t -> obj_at new t n = new.
Proof.
  intros [_ Ho Hn]. unfold obj_at. destruct (shNames t !! n) as [p|] eqn:E; [|done]. destruct (lookup_lt_is_Some_2 _ _ (Ho _ _ E)) as [o Hp]. rewrite Hp. simpl.
  rewrite Forall_forall in Hn. symmetry. apply Hn. by eapply list_elem_of_lookup_2.
Qed.
End fresh.

Lemma obj_good {Obj G A} (new : Obj) (good : Obj -> Prop) (adds : A -> Prop) (t : Shared Obj G) (cs : list (Call A)) n : table_ok good adds t cs -> good new -> good (obj_at new t n).
Proof.
  intros Hok Hg. unfold obj_at. destruct (shNames t !! n) as [p|]; [|done]. destruct (shObjs t !! p) as [o|] eqn:E; [|done]. by eapply (to_good _ _ _ _ Hok).
Qed.

Lemma cruns_global {Obj G A} (new : Obj) (act : A -> Obj * G -> Obj * G) (P : G -> Prop) x l y : cruns new act x l y ->
  (forall a o g, P g -> P (snd (act a (o, g)))) -> P (shGlobal (snd x)) -> P (shGlobal (snd y)).
Proof.
  induction 1 as [|[cs s] i y l z Hs _ IH]; intros Ha Hp; [done|]. apply IH; [done|]. revert Hs. unfold calls_step. simpl. destruct (cs !! i) as [c|]; [|done].
  destruct c as [n t|n t|p [|a t]]; simpl; intros H; try done; injection H as <-; simpl; try done.
  - unfold look_or_create. by destruct (shNames s !! n).
  - unfold do_act. destruct (shObjs s !! p); [|done]. by apply Ha.
Qed.

(** The times of the calls of a name. *)
Definition times_of (n : string) (calls : list (string * Z)) : list Z := snd <$> filter (fun c => fst c = n) calls.
Definition add_calls (calls : list (string * Z)) : list (Call TimingOp) := (fun c => Timings_Add (fst c) (snd c)) <$> calls.

(** A weight over the calls of a name. *)
Lemma due_calls (w : TimingOp -> Z) (f : Z -> Z) (t : Timings) n calls : (forall ns, sumZ (w <$> [TBucket ns; TTotal ns; TCount; TTime ns]) = f ns) ->
  sumZ (due w t n <$> add_calls calls) = sumZ (f <$> times_of n calls).
Proof.
  intros Hw. unfold times_of, add_calls. induction calls as [|[m ns] calls IH]; [done|]. rewrite fmap_cons, sumZ_fmap_cons, IH, filter_cons. unfold due at 1.
  cbn [fst snd Timings_Add aims todo]. rewrite Hw. destruct (decide (m = n)); [done|lia].
Qed.
Lemma due_all_calls (w : TimingOp -> Z) (f : Z -> Z) calls : (forall ns, sumZ (w <$> [TBucket ns; TTotal ns; TCount; TTime ns]) = f ns) ->
  sumZ (due_global w <$> add_calls calls) = sumZ (f <$> (snd <$> calls)).
Proof.
  intros Hw. induction calls as [|[m ns] calls IH]; [done|].
  change (sumZ (w <$> [TBucket ns; TTotal ns; TCount; TTime ns]) + sumZ (due_global w <$> add_calls calls) = f ns + sumZ (f <$> (snd <$> calls))). by rewrite Hw, IH.
Qed.
Lemma sumZ_number cs i l : sumZ ((fun ns => if decide (bucket_of cs ns = i) then 1 else 0) <$> l) = number cs i l.
Proof. unfold number. induction l as [|v l IH]; [done|]. rewrite sumZ_fmap_cons, IH, filter_cons. case_decide; simpl; lia. Qed.
Lemma sumZ_ones {B} (l : list B) : sumZ ((fun _ => 1) <$> l) = Z.of_nat (length l).
Proof. induction l as [|v l IH]; [done|]. rewrite sumZ_fmap_cons, IH. simpl. lia. Qed.

(** C33: Under every interleaving of concurrent calls of [Timings.Add], each of which
    looks its name up, creates it if it is missing and counts in four atomic
    operations: no schedule is longer than the calls allow, one that stopped
    early can go on, and when all calls are done the histogram of every name is
    the histogram of the times of its calls, and the totals are those of all
    calls.  A name that two goroutines create at once is created once. *)
Theorem timings_exact categories calls l cs' t' : timings_runs (add_calls calls, NewTimings categories) l (cs', t') ->
  (length l <= 6 * length calls)%nat /\
  (forallb call_done cs' = false -> exists i y, timings_step i (cs', t') = Some y) /\
  (forallb call_done cs' = true ->
    (forall n, hist_of bucketCutoffs (times_of n calls) (obj_at timing_hist t' n)) /\
    Timings_Count t' = i64 (Z.of_nat (length calls)) /\ Timings_Time t' = i64 (sumZ (snd <$> calls))).
Proof.
  intros Hr. destruct (fresh_fold timing_hist categories (mkShared ∅ [] (0, 0))) as [Hf Hg]; [by split; simpl|].
  change (foldl (add_name timing_hist) (mkShared ∅ [] (0, 0)) categories) with (NewTimings categories) in *.
  assert (table_ok sound_hist (fun _ => True) (NewTimings categories) (add_calls calls)) as Hok.
  { apply (fresh_ok timing_hist); [done|apply sound_new|]. intros c (x & -> & _)%list_elem_of_fmap. repeat constructor. }
  split; [|split; [intros Hd; by apply calls_progress|]].
  - apply cruns_bounded in Hr. simpl in Hr. assert (sum_list (call_size <$> add_calls calls) = 6 * length calls)%nat as E; [|lia].
    clear. induction calls as [|c calls IH]; [done|]. unfold add_calls in *. rewrite !fmap_cons. cbn [sum_list]. rewrite IH. simpl. lia.
  - intros Hd. split.
    + intros n. destruct (cruns_kept timing_hist timing_act sound_hist (fun _ => True) hTotal total_w fst count_w sound_new sound_act total_act count_act _ _ _ Hr Hok) as [Hok' _ _].
      pose proof (obj_good timing_hist sound_hist (fun _ => True) t' cs' n Hok' sound_new) as (H1 & H2 & H3 & H4).
      pose proof (fun i => proj1 (cruns_value timing_hist timing_act sound_hist (fun _ => True) (bucket_at i) (bucket_w i) fst count_w sound_new sound_act (bucket_act i) count_act _ _ _ n Hr Hok Hd)) as Hb.
      pose proof (proj1 (cruns_value timing_hist timing_act sound_hist (fun _ => True) hTotal total_w fst count_w sound_new sound_act total_act count_act _ _ _ n Hr Hok Hd)) as Ht.
      cbn [fst snd] in Hb, Ht. unfold value in Hb, Ht. rewrite (fresh_at timing_hist _ n Hf) in Ht. split; [done| |].
      * apply list_eq. intros i. rewrite list_lookup_fmap. specialize (Hb i). rewrite (fresh_at timing_hist _ n Hf) in Hb.
        rewrite (due_calls _ (fun ns => if decide (bucket_of bucketCutoffs ns = i) then 1 else 0)), sumZ_number in Hb by (intros ns; simpl; lia).
        destruct (decide (i < 11)%nat) as [Hi|Hi].
        -- rewrite (lookup_seq_lt 0 _ i) by (simpl length; lia). destruct (lookup_lt_is_Some_2 (hBuckets (obj_at timing_hist t' n)) i) as [x Hx]; [lia|].
           unfold bucket_at in Hb. rewrite Hx in Hb. cbn [default] in Hb. rewrite Hx. simpl. f_equal. rewrite Forall_forall in H3.
           rewrite <- (H3 x) by (by eapply list_elem_of_lookup_2). apply cong_i64. unfold id in Hb. rewrite Hb.
           replace (default 0 (hBuckets timing_hist !! i)) with 0 by (symmetry; do 11 (destruct i as [|i]; [reflexivity|]); lia). done.
        -- rewrite (lookup_ge_None_2 (hBuckets _) i), (lookup_ge_None_2 (seq _ _) i) by (rewrite ?length_seq; simpl length; lia). done.
      * rewrite (due_calls _ id), list_fmap_id in Ht by (intros ns; simpl; lia). rewrite <- H4. by apply cong_i64.
    + pose proof (proj2 (cruns_value timing_hist timing_act sound_hist (fun _ => True) hTotal total_w fst count_w sound_new sound_act total_act count_act _ _ _ "" Hr Hok Hd)) as Hc.
      pose proof (proj2 (cruns_value timing_hist timing_act sound_hist (fun _ => True) hTotal total_w snd time_w sound_new sound_act total_act time_act _ _ _ "" Hr Hok Hd)) as Ht.
      cbn [fst snd] in Hc, Ht. rewrite Hg in Hc, Ht. rewrite (due_all_calls _ (fun _ => 1)), sumZ_ones, length_fmap in Hc by (intros ns; simpl; lia).
      rewrite (due_all_calls _ id), list_fmap_id in Ht by (intros ns; simpl; lia). cbn [fst snd] in Hc, Ht. rewrite Z.add_0_l in Hc, Ht.
      destruct (cruns_global timing_hist timing_act (fun g => i64 (fst g) = fst g /\ i64 (snd g) = snd g) _ _ _ Hr) as [G1 G2];
        [intros [] h [] [? ?]; simpl in *; split; by rewrite ?i64_idem|cbn [snd]; rewrite Hg; done|].
      cbn [snd] in G1, G2. unfold Timings_Count, Timings_Time. rewrite <- G1, <- G2. by split; apply cong_i64.
Qed.

(** Running a schedule. *)
Fixpoint take_steps {X} (step : nat -> X -> option X) (l : list nat) (x : X) : option X :=
  match l with [] => Some x | i :: l => match step i x with None => None | Some y => take_steps step l y end end.
Lemma take_steps_runs {Obj G A} (new : Obj) (act : A -> Obj * G -> Obj * G) l x y : take_steps (calls_step new act) l x = Some y -> cruns new act x l y.
Proof.
  revert x. induction l as [|i l IH]; intros x H; simpl in H; [injection H as <-; constructor|].
  destruct (calls_step new act i x) as [z|] eqn:E; [|done]. econstructor; [exact E|by apply IH].
Qed.

(** Two goroutines miss the same name; the second finds what the first created. *)
Definition ex_calls : list (string * Z) := [("Select", 700000); ("Select", 3000000000)].
Definition ex_schedule : list nat := [0; 1; 0; 1; 1; 0; 0; 1; 1; 0; 0; 1]%nat.
Lemma timings_exact_witness : exists cs' t', timings_runs (add_calls ex_calls, NewTimings []) ex_schedule (cs', t') /\
  forallb call_done cs' = true /\ hist_json (obj_at timing_hist t' "Select") = [0; 1; 1; 1; 1; 1; 1; 1; 2; 2; 2] /\
  hist_of bucketCutoffs [700000; 3000000000] (obj_at timing_hist t' "Select") /\ Timings_Count t' = 2.
Proof.
  destruct (take_steps (calls_step timing_hist timing_act) ex_schedule (add_calls ex_calls, NewTimings [])) as [[cs' t']|] eqn:E; [|vm_compute in E; discriminate E].
  exists cs', t'. pose proof (take_steps_runs _ _ _ _ _ E) as Hr. split; [exact Hr|].
  assert (forallb call_done cs' = true /\ hist_json (obj_at timing_hist t' "Select") = [0; 1; 1; 1; 1; 1; 1; 1; 2; 2; 2]) as [Hd Hj]
    by (vm_compute in E; injection E as <- <-; split; vm_compute; reflexivity).
  split; [exact Hd|]. split; [exact Hj|]. destruct (timings_exact [] ex_calls ex_schedule cs' t' Hr) as (_ & _ & H).
  destruct (H Hd) as (H1 & H2 & _). split; [exact (H1 "Select")|exact H2].
Defined.

(** ** Counters *)
Definition counter_calls (calls : list (string * Z)) : list (Call CounterOp) := (fun c => Counters_Add (fst c) (snd c)) <$> calls.
Definition counter_w (a : CounterOp) : Z := match a with CAdd v => v | CSet _ => 0 end.

Lemma due_counter (t : Counters) n calls : sumZ (due counter_w t n <$> counter_calls calls) = sumZ (times_of n calls).
Proof.
  unfold times_of. induction calls as [|[m v] calls IH]; [done|]. rewrite filter_cons. cbn [fst].
  change (due counter_w t n (Counters_Add m v) + sumZ (due counter_w t n <$> counter_calls calls) = sumZ (snd <$> (if decide (m = n) then (m, v) :: filter (fun c => fst c = n) calls else filter (fun c => fst c = n) calls))).
  rewrite IH. unfold due. cbn [Counters_Add aims todo]. destruct (decide (m = n)); simpl; [rewrite Z.add_0_r; done|lia].
Qed.

(** Concurrent additions to counters add up. *)
Lemma counters_exact tags calls l cs' c' : counters_runs (counter_calls calls, NewCounters tags) l (cs', c') -> forallb call_done cs' = true ->
  forall n, default 0 (Counters_Counts c' !! n) = i64 (sumZ (times_of n calls)).
Proof.
  intros Hr Hd n. destruct (fresh_fold (G := unit) 0 tags (mkShared ∅ [] tt)) as [Hf _]; [by split; simpl|].
  change (foldl (add_name 0) (mkShared ∅ [] tt) tags) with (NewCounters tags) in *. set (adds a := exists v, a = CAdd v).
  assert (table_ok (fun z => i64 z = z) adds (NewCounters tags) (counter_calls calls)) as Hok.
  { apply (fresh_ok 0); [done|done|]. intros c (x & -> & _)%list_elem_of_fmap. constructor; [by eexists|done]. }
  assert (forall a o g, adds a -> i64 o = o -> i64 (fst (counter_act a (o, g))) = fst (counter_act a (o, g))) as Hg by (intros a o [] [v ->] _; apply i64_idem).
  assert (forall a o g, adds a -> i64 o = o -> cong (fst (counter_act a (o, g))) (id o + counter_w a)) as Hm by (intros a o [] [v ->] _; apply i64_cong).
  assert (forall a o (g : unit), cong ((fun _ => 0) (snd (counter_act a (o, g)))) ((fun _ : unit => 0) g + (fun _ => 0) a)) as H0 by done.
  destruct (cruns_kept 0 counter_act (fun z => i64 z = z) adds id counter_w (fun _ => 0) (fun _ => 0) eq_refl Hg Hm H0 _ _ _ Hr Hok) as [Hok' _ _].
  pose proof (obj_good 0 (fun z => i64 z = z) adds c' cs' n Hok' eq_refl) as Hn.
  destruct (cruns_value 0 counter_act (fun z => i64 z = z) adds id counter_w (fun _ => 0) (fun _ => 0) eq_refl Hg Hm H0 _ _ _ n Hr Hok Hd) as [Hv _].
  cbn [fst snd] in Hv. unfold value in Hv. rewrite (fresh_at 0 _ n Hf), due_counter in Hv.
  assert (default 0 (Counters_Counts c' !! n) = obj_at 0 c' n) as ->.
  { unfold Counters_Counts, obj_at. rewrite lookup_fmap. by destruct (shNames c' !! n). }
  rewrite <- Hn. by apply cong_i64.
Qed.

(** ** Rates *)
Section rates.
Context `{R : MapRange, !MapRangeOk R} {F : Type} (of_int : Z -> F) (seconds : Z -> F) (fdiv : F -> F -> F) (round1 : F -> F).

(** The rate between two samples, and between neighbours of a list. *)
Definition rate_of (a b : Z * Z) : F := fdiv (of_int (i64 (snd b - snd a))) (of_int (Z.quot (i64 (fst b - fst a)) 1000000000)).
Fixpoint rates_between (l : list (Z * Z)) : list F :=
  match l with a :: (b :: _) as l' => rate_of a b :: rates_between l' | _ => [] end.
Lemma rates_between_snoc l a b : rates_between (l ++ [a; b]) = rates_between (l ++ [a]) ++ [rate_of a b].
Proof.
  induction l as [|x l IH]; [done|]. destruct l as [|y l]; [done|]. change (rate_of x y :: rates_between ((y :: l) ++ [a; b]) = (rate_of x y :: rates_between ((y :: l) ++ [a])) ++ [rate_of a b]).
  by rewrite IH.
Qed.

(** The loop, when the samples end with one count for every time stamp. *)
Lemma rates_loop_spec pre l i acc : (i < length l)%nat ->
  rates_loop of_int fdiv (fst <$> l) (pre ++ (snd <$> l)) i (Z.of_nat (length pre + i)) acc = Ok (rates_between (take (S i) l) ++ acc).
Proof.
  intros Hi. revert acc Hi. induction i as [|i IH]; intros acc Hi.
  - destruct l as [|a l]; [simpl in Hi; lia|]. done.
  - cbn [rates_loop]. destruct (Z.leb_spec (Z.of_nat (length pre + S i)) 0); [lia|].
    destruct (lookup_lt_is_Some_2 l (S i)) as [b Hb]; [lia|]. destruct (lookup_lt_is_Some_2 l i) as [a Ha]; [lia|].
    rewrite !list_lookup_fmap, Hb, Ha. cbn [fmap option_fmap option_map].
    replace (Z.to_nat (Z.of_nat (length pre + S i))) with (length pre + S i)%nat by lia.
    replace (Z.to_nat (Z.of_nat (length pre + S i) - 1)) with (length pre + i)%nat by lia.
    rewrite !lookup_app_r by lia. replace (length pre + S i - length pre)%nat with (S i) by lia. replace (length pre + i - length pre)%nat with i by lia.
    rewrite !list_lookup_fmap, Hb, Ha. cbn [fmap option_fmap option_map].
    replace (Z.of_nat (length pre + S i) - 1) with (Z.of_nat (length pre + i)) by lia. rewrite IH by lia.
    rewrite (take_S_r l (S i) b Hb), (take_S_r l i a Ha), <- app_assoc. cbn [app]. rewrite rates_between_snoc, <- app_assoc. done.
Qed.

(** All rings are rings. *)
Definition rings_ok (cap : nat) (m : gmap string RingInt64) : Prop := forall k r, m !! k = Some r -> exists w, ring_of cap w r.

Lemma sample_ok cap total m k v : (0 < cap)%nat -> rings_ok cap m -> exists total' r, sample (total, m) cap (k, v) = Ok (total', <[k := r]> m) /\
  ring_of cap (slide cap (match m !! k with Some r0 => drop (rgPosition r0) (rgValues r0) ++ take (rgPosition r0) (rgValues r0) | None => slide cap [] 0 end) v) r.
Proof.
  intros Hc Hm. unfold sample. destruct (m !! k) as [r0|] eqn:E.
  - destruct (Hm _ _ E) as [w Hw]. rewrite <- (ro_window _ _ _ Hw). destruct (ring_add _ _ _ v Hw) as (r & -> & Hr). simpl. eauto.
  - destruct (ring_add _ _ _ 0 (ring_new cap Hc)) as (r1 & -> & H1). simpl. destruct (ring_add _ _ _ v H1) as (r & -> & Hr). simpl. eauto.
Qed.

Lemma rings_insert cap m k r w : rings_ok cap m -> ring_of cap w r -> rings_ok cap (<[k := r]> m).
Proof. intros Hm Hr j r' Hj. destruct (decide (j = k)) as [->|]; rewrite ?lookup_insert_eq, ?lookup_insert_ne in Hj by done; simplify_eq; eauto. Qed.

(** The window of a category, before it is known and after. *)
Definition window_of (cap : nat) (m : gmap string RingInt64) (k : string) (w : list Z) : Prop :=
  match m !! k with Some r => ring_of cap w r | None => w = slide cap [] 0 end.

Lemma sample_fold cap kvs : (0 < cap)%nat -> NoDup (fst <$> kvs) -> forall total m, rings_ok cap m -> exists total' m',
  res_fold (fun acc kv => sample acc cap kv) (total, m) kvs = Ok (total', m') /\ rings_ok cap m' /\
  forall k w, window_of cap m k w -> match list_to_map (M := gmap string Z) kvs !! k with
    | Some v => exists r, m' !! k = Some r /\ ring_of cap (slide cap w v) r
    | None => m' !! k = m !! k
    end.
Proof.
  intros Hc. induction kvs as [|[k v] kvs IH]; intros Hnd total m Hm; cbn [res_fold].
  { exists total, m. split_and!; [done|done|]. intros k w _. done. }
  apply NoDup_cons in Hnd as [Hk Hnd]. destruct (sample_ok cap total m k v Hc Hm) as (t1 & r & -> & Hr). cbn [mbind res_bind].
  assert (rings_ok cap (<[k := r]> m)) as Hm1 by (by eapply rings_insert). destruct (IH Hnd t1 _ Hm1) as (t2 & m2 & -> & Hm2 & Hw). exists t2, m2. split_and!; [done|done|].
  intros j w Hj. rewrite list_to_map_cons. destruct (decide (j = k)) as [->|Hne].
  - rewrite lookup_insert_eq. specialize (Hw k (slide cap w v)). unfold window_of in Hw, Hj. rewrite lookup_insert_eq, not_elem_of_list_to_map_1 in Hw by done.
    assert (ring_of cap (slide cap w v) r) as Hr'. { destruct (m !! k) as [r0|]; [|by subst w]. by rewrite <- (ro_window _ _ _ Hj) in Hr. }
    exists r. split; [by apply Hw|done].
  - rewrite lookup_insert_ne by done. specialize (Hw j w). unfold window_of in Hw, Hj. rewrite lookup_insert_ne in Hw by done. by apply Hw.
Qed.

(** A history of samples in each of which the category has a count. *)
Definition sampled (k : string) (h : list (Z * gmap string Z)) (l : list (Z * Z)) : Prop := Forall2 (fun s p => fst s = fst p /\ snd s !! k = Some (snd p)) h l.
Definition snapshots (h : list (Z * gmap string Z)) (rt : Rates) : res False Rates :=
  res_fold (fun rt s => snapshot of_int seconds fdiv round1 (fst s) (snd s) rt) rt h.
Definition last_of {B} (cap : nat) (l : list B) : list B := drop (length l - cap) l.

Lemma last_snoc cap l (v : Z) : (0 < cap)%nat -> slide cap (last_of cap l) v = last_of cap (l ++ [v]).
Proof. intros Hc. destruct (slide_window cap l v) as [H|]; [exact H|lia]. Qed.

Lemma snapshots_ok samples interval now rt0 k h l : NewRates of_int samples interval now = Ok rt0 -> sampled k h l ->
  exists rt, snapshots h rt0 = Ok rt /\ rtSamples rt = (samples + 1)%nat /\ rings_ok (samples + 1) (rtCounts rt) /\
    ring_of (samples + 1) (last_of (samples + 1) (fst <$> l)) (rtTimeStamps rt) /\
    window_of (samples + 1) (rtCounts rt) k (last_of (samples + 1) (0 :: (snd <$> l))) /\ (l <> [] -> is_Some (rtCounts rt !! k)).
Proof.
  intros Hn Hs. unfold NewRates in Hn. destruct (_ && _); [done|]. injection Hn as <-. set (cap := (samples + 1)%nat). assert (0 < cap)%nat as Hc by (unfold cap; lia).
  revert l Hs. induction h as [|s h IH] using rev_ind; intros l Hs.
  { inversion Hs; subst. eexists. split; [done|]. split_and!; simpl; try done; [by apply ring_new|]. unfold window_of. rewrite lookup_empty.
    unfold last_of, slide. simpl. destruct (Nat.ltb_spec 0 cap); [|lia]. by replace (1 - cap)%nat with 0%nat by lia. }
  apply Forall2_app_inv_l in Hs as (l1 & l2 & H1 & H2 & ->). inversion H2 as [|? [t v] ? ? [Ht Hv] H3]; subst. inversion H3; subst. simpl in Ht, Hv.
  destruct (IH l1 H1) as (rt & Hrt & Hsm & Hrings & Htimes & Hw & _). unfold snapshots in *. rewrite res_fold_app, Hrt. cbn [mbind res_bind res_fold].
  unfold snapshot. destruct (ring_add _ _ _ (fst s) Htimes) as (ts & -> & Hts). cbn [mbind res_bind]. rewrite Hsm.
  destruct (sample_fold cap (map_range (snd s)) Hc) with (total := 0) (m := rtCounts rt) as (tot & m' & E & Hm' & Hk).
  { rewrite map_range_perm. apply NoDup_fst_map_to_list. }
  { done. }
  fold cap. rewrite E. cbn [mbind res_bind]. eexists. split; [done|]. cbn [rtSamples rtCounts rtTimeStamps]. specialize (Hk k _ Hw).
  assert (list_to_map (M := gmap string Z) (map_range (snd s)) = snd s) as El.
  { rewrite <- (list_to_map_to_list (snd s)) at 2. apply list_to_map_proper; [|by rewrite map_range_perm]. rewrite map_range_perm. apply NoDup_fst_map_to_list. }
  rewrite El, Hv in Hk. destruct Hk as (r & Hr & Hwin). split_and!; [done|done| | |by intros _; exists r].
  - rewrite fmap_app. cbn [fmap list_fmap fst]. rewrite <- last_snoc by done. by rewrite <- Ht.
  - unfold window_of. rewrite Hr, fmap_app, app_comm_cons. cbn [fmap list_fmap snd]. by rewrite <- last_snoc.
Qed.

(** What [Get] reports for a category with a count in every sample: the rates
    between the samples that are kept, the newest last. *)
Lemma rates_exact samples interval now rt0 k h l : NewRates of_int samples interval now = Ok rt0 -> sampled k h l -> l <> [] ->
  exists rt ring times, snapshots h rt0 = Ok rt /\ rtCounts rt !! k = Some ring /\ ring_Values (rtTimeStamps rt) = Ok times /\
    get_rate of_int fdiv rt times ring = Ok (rates_between (last_of (samples + 1) l)).
Proof.
  intros Hn Hs Hl. destruct (snapshots_ok samples interval now rt0 k h l Hn Hs) as (rt & Hrt & _ & _ & Ht & Hw & Hk).
  destruct (Hk Hl) as [ring Hr]. unfold window_of in Hw. rewrite Hr in Hw. exists rt, ring, (fst <$> last_of (samples + 1) l). split_and!; [done|done| |].
  { rewrite (ring_values _ _ _ Ht). unfold last_of. by rewrite length_fmap, fmap_drop. }
  unfold get_rate. rewrite (ring_values _ _ _ Hw). cbn [mbind res_bind]. rewrite length_fmap.
  assert (exists pre, last_of (samples + 1) (0 :: (snd <$> l)) = pre ++ (snd <$> last_of (samples + 1) l)) as [pre ->].
  { unfold last_of. simpl length. rewrite length_fmap. destruct (decide (samples + 1 <= length l)%nat) as [E|E].
    - exists []. replace (S (length l) - (samples + 1))%nat with (S (length l - (samples + 1))) by lia. simpl. by rewrite fmap_drop.
    - exists [0]. replace (S (length l) - (samples + 1))%nat with 0%nat by lia. by replace (length l - (samples + 1))%nat with 0%nat by lia. }
  assert (0 < length (last_of (samples + 1) l))%nat as Hpos. { unfold last_of. rewrite length_drop. destruct l; [done|]. simpl. lia. }
  rewrite length_app, length_fmap.
  replace (Z.of_nat (length pre + length (last_of (samples + 1) l)) - 1) with (Z.of_nat (length pre + (length (last_of (samples + 1) l) - 1))) by lia.
  rewrite rates_loop_spec by lia. rewrite take_ge by lia. by rewrite app_nil_r.
Qed.
End rates.
