(* ===== verification/Settings.v ===== *)
(** * Configuration and settings (src/config/config.go, src/proxy/proxy.go, src/ctl/v1/radon.go)

    The configuration of the proxy as it is read from and written to its JSON
    file, with the defaults of missing fields and sections, and the settings
    that are changed while the proxy runs.  A file is modelled by the JSON value
    it holds ([None] when it is missing, torn or not JSON), so the quoting of
    strings and the indentation are left out; a nil slice and an empty one are
    the same list. *)
From S2P Require Import Prelude GoStd Config Auth.
Open Scope string_scope.
Open Scope list_scope.
Open Scope Z_scope.

(** ** encoding/json *)
(** A number that is not written as an integer is a [JReal]. *)
#[warnings="-register-all"]
Inductive json := JNull | JBool (b : bool) | JNum (z : Z) | JReal (literal : string) | JStr (s : string) | JArr (l : list json) | JObj (l : list (string * json)).
Inductive cferr := CfType | CfSyntax | CfFile.
Abbreviation CR := (res cferr).

(** The values of a field: names are compared without case. *)
Definition field_values (name : string) (o : list (string * json)) : list json := snd <$> filter (fun kv => EqualFold (fst kv) name = true) o.
(** A field is assigned once for every occurrence; the first error is kept. *)
Definition get {A} (dec : A -> json -> CR A) (name : string) (dflt : A) (o : list (string * json)) : CR A :=
  res_fold dec dflt (field_values name o).

(** The types of fields; null leaves a number, a string or a boolean as it is. *)
Definition dec_range (lo hi cur : Z) (v : json) : CR Z :=
  match v with JNull => Ok cur | JNum z => if (lo <=? z) && (z <? hi) then Ok z else Err CfType | _ => Err CfType end.
Definition dec_int : Z -> json -> CR Z := dec_range (- 2 ^ 63) (2 ^ 63).
Definition dec_uint32 : Z -> json -> CR Z := dec_range 0 (2 ^ 32).
Definition dec_str (cur : string) (v : json) : CR string := match v with JNull => Ok cur | JStr s => Ok s | _ => Err CfType end.
Definition dec_bool (cur : bool) (v : json) : CR bool := match v with JNull => Ok cur | JBool b => Ok b | _ => Err CfType end.
Definition dec_strs (cur : list string) (v : json) : CR (list string) :=
  match v with JNull => Ok [] | JArr l => res_map (dec_str "") l | _ => Err CfType end.
(** A pointer: null is nil; a type with [UnmarshalJSON] does the rest. *)
Definition dec_ptr {A} (unmarshal : list (string * json) -> CR A) (cur : option A) (v : json) : CR (option A) :=
  match v with JNull => Ok None | JObj o => x ← unmarshal o; Ok (Some x) | _ => Err CfType end.
Definition enc_strs (l : list string) : json := match l with [] => JNull | _ => JArr (JStr <$> l) end.

(** ** Sections (config.go) *)

(** [ProxyConfig] *)
Record ProxyConf := mkProxyConf {
  pfIPS : list string; pfMetaDir : string; pfEndpoint : string; pfTwopcEnable : bool; pfLoadBalance : Z; pfLowerCaseTableNames : Z;
  pfMaxConnections : Z; pfMaxResultSize : Z; pfMaxJoinRows : Z; pfDDLTimeout : Z; pfQueryTimeout : Z; pfPeerAddress : string;
  pfLongQueryTime : Z; pfStreamBufferSize : Z; pfIdleTxnTimeout : Z; pfAutocommitFalseIsTxn : bool
}.
(** [DefaultProxyConfig] *)
Definition DefaultProxyConfig : ProxyConf :=
  mkProxyConf [] "./radon-meta" "127.0.0.1:3308" false 0 0 1024 (1024 * 1024 * 1024) 32768 (10 * 3600 * 1000) (5 * 60 * 1000)
    "127.0.0.1:8080" 5 (1024 * 1024 * 32) 60 false.
(** [ProxyConfig.UnmarshalJSON] *)
Definition proxy_unmarshal (o : list (string * json)) : CR ProxyConf :=
  let d := DefaultProxyConfig in
  ips ← get dec_strs "allowip" (pfIPS d) o;
  meta ← get dec_str "meta-dir" (pfMetaDir d) o;
  endpoint ← get dec_str "endpoint" (pfEndpoint d) o;
  twopc ← get dec_bool "twopc-enable" (pfTwopcEnable d) o;
  balance ← get dec_int "load-balance" (pfLoadBalance d) o;
  lower ← get dec_int "lower-case-table-names" (pfLowerCaseTableNames d) o;
  conns ← get dec_int "max-connections" (pfMaxConnections d) o;
  size ← get dec_int "max-result-size" (pfMaxResultSize d) o;
  rows ← get dec_int "max-join-rows" (pfMaxJoinRows d) o;
  ddl ← get dec_int "ddl-timeout" (pfDDLTimeout d) o;
  query ← get dec_int "query-timeout" (pfQueryTimeout d) o;
  peer ← get dec_str "peer-address" (pfPeerAddress d) o;
  long ← get dec_int "long-query-time" (pfLongQueryTime d) o;
  stream ← get dec_int "stream-buffer-size" (pfStreamBufferSize d) o;
  idle ← get dec_uint32 "kill-idle-transaction" (pfIdleTxnTimeout d) o;
  auto ← get dec_bool "autocommit-false-is-txn" (pfAutocommitFalseIsTxn d) o;
  Ok (mkProxyConf ips meta endpoint twopc balance lower conns size rows ddl query peer long stream idle auto).
(** Its fields, written; an empty peer address is left out. *)
Definition proxy_marshal (c : ProxyConf) : json := JObj (
  [("allowip", enc_strs (pfIPS c)); ("meta-dir", JStr (pfMetaDir c)); ("endpoint", JStr (pfEndpoint c)); ("twopc-enable", JBool (pfTwopcEnable c));
   ("load-balance", JNum (pfLoadBalance c)); ("lower-case-table-names", JNum (pfLowerCaseTableNames c)); ("max-connections", JNum (pfMaxConnections c));
   ("max-result-size", JNum (pfMaxResultSize c)); ("max-join-rows", JNum (pfMaxJoinRows c)); ("ddl-timeout", JNum (pfDDLTimeout c));
   ("query-timeout", JNum (pfQueryTimeout c))]
  ++ (if decide (pfPeerAddress c = "") then [] else [("peer-address", JStr (pfPeerAddress c))])
  ++ [("long-query-time", JNum (pfLongQueryTime c)); ("stream-buffer-size", JNum (pfStreamBufferSize c));
      ("kill-idle-transaction", JNum (pfIdleTxnTimeout c)); ("autocommit-false-is-txn", JBool (pfAutocommitFalseIsTxn c))]).

(** [AuditConfig] *)
Record AuditConf := mkAuditConf { afMode : string; afLogDir : string; afMaxSize : Z; afExpireHours : Z }.
Definition DefaultAuditConfig : AuditConf := mkAuditConf "N" "/tmp/auditlog" (1024 * 1024 * 256) 1.
Definition audit_unmarshal (o : list (string * json)) : CR AuditConf :=
  let d := DefaultAuditConfig in
  mode ← get dec_str "mode" (afMode d) o;
  dir ← get dec_str "audit-dir" (afLogDir d) o;
  size ← get dec_int "max-size" (afMaxSize d) o;
  hours ← get dec_int "expire-hours" (afExpireHours d) o;
  Ok (mkAuditConf mode dir size hours).
Definition audit_marshal (c : AuditConf) : json :=
  JObj [("mode", JStr (afMode c)); ("audit-dir", JStr (afLogDir c)); ("max-size", JNum (afMaxSize c)); ("expire-hours", JNum (afExpireHours c))].

(** [RouterConfig], [LogConfig], [MonitorConfig], [ScatterConfig] *)
Definition router_unmarshal (o : list (string * json)) : CR RouterConfig :=
  let d := DefaultRouterConfig in
  slots ← get dec_int "slots-readonly" (rcSlots d) o;
  blocks ← get dec_int "blocks-readonly" (rcBlocks d) o;
  Ok (mkRouterConfig slots blocks).
Definition router_marshal (c : RouterConfig) : json := JObj [("slots-readonly", JNum (rcSlots c)); ("blocks-readonly", JNum (rcBlocks c))].
Record LogConf := mkLogConf { lfLevel : string }.
Definition DefaultLogConfig : LogConf := mkLogConf "ERROR".
Definition log_unmarshal (o : list (string * json)) : CR LogConf := level ← get dec_str "level" (lfLevel DefaultLogConfig) o; Ok (mkLogConf level).
Definition log_marshal (c : LogConf) : json := JObj [("level", JStr (lfLevel c))].
Record MonitorConf := mkMonitorConf { mfAddress : string }.
Definition DefaultMonitorConfig : MonitorConf := mkMonitorConf "0.0.0.0:13380".
Definition monitor_unmarshal (o : list (string * json)) : CR MonitorConf :=
  address ← get dec_str "monitor-address" (mfAddress DefaultMonitorConfig) o; Ok (mkMonitorConf address).
Definition monitor_marshal (c : MonitorConf) : json := JObj [("monitor-address", JStr (mfAddress c))].
Definition scatter_unmarshal (o : list (string * json)) : CR ScatterConfig :=
  let d := DefaultScatterConfig in
  interval ← get dec_int "xa-check-interval" (scXaCheckInterval d) o;
  dir ← get dec_str "xa-check-dir" (scXaCheckDir d) o;
  retrys ← get dec_int "xa-check-retrys" (scXaCheckRetrys d) o;
  Ok (mkScatterConfig interval dir retrys).
Definition scatter_marshal (c : ScatterConfig) : json :=
  JObj [("xa-check-interval", JNum (scXaCheckInterval c)); ("xa-check-dir", JStr (scXaCheckDir c)); ("xa-check-retrys", JNum (scXaCheckRetrys c))].

(** ** The configuration *)

(** [Config], its pointers nil or not *)
Record RawConf := mkRawConf {
  rwProxy : option ProxyConf; rwAudit : option AuditConf; rwRouter : option RouterConfig;
  rwLog : option LogConf; rwMonitor : option MonitorConf; rwScatter : option ScatterConfig
}.
(** [Config] once checked *)
Record Conf := mkConf {
  cfProxy : ProxyConf; cfAudit : AuditConf; cfRouter : RouterConfig; cfLog : LogConf; cfMonitor : MonitorConf; cfScatter : ScatterConfig
}.
(** [checkConfig] *)
Definition checkConfig (c : RawConf) : Conf :=
  mkConf (default DefaultProxyConfig (rwProxy c)) (default DefaultAuditConfig (rwAudit c)) (default DefaultRouterConfig (rwRouter c))
    (default DefaultLogConfig (rwLog c)) (default DefaultMonitorConfig (rwMonitor c)) (default DefaultScatterConfig (rwScatter c)).
(** [json.Unmarshal] into a [Config]; null leaves it empty. *)
Definition config_unmarshal (v : json) : CR RawConf :=
  match v with
  | JNull => Ok (mkRawConf None None None None None None)
  | JObj o =>
      proxy ← get (dec_ptr proxy_unmarshal) "proxy" None o;
      audit ← get (dec_ptr audit_unmarshal) "audit" None o;
      router ← get (dec_ptr router_unmarshal) "router" None o;
      log ← get (dec_ptr log_unmarshal) "log" None o;
      monitor ← get (dec_ptr monitor_unmarshal) "monitor" None o;
      scatter ← get (dec_ptr scatter_unmarshal) "scatter" None o;
      Ok (mkRawConf proxy audit router log monitor scatter)
  | _ => Err CfType
  end.
Definition config_marshal (c : Conf) : json :=
  JObj [("proxy", proxy_marshal (cfProxy c)); ("audit", audit_marshal (cfAudit c)); ("router", router_marshal (cfRouter c));
        ("log", log_marshal (cfLog c)); ("monitor", monitor_marshal (cfMonitor c)); ("scatter", scatter_marshal (cfScatter c))].

(** [LoadConfig] *)
Definition config_LoadConfig (file : option json) : CR Conf :=
  v ← (match file with Some v => Ok v | None => Err CfFile end); c ← config_unmarshal v; Ok (checkConfig c).

(** [WriteConfig] with [xbase.WriteFile]: the file afterwards and the error *)
Definition WriteConfig (o : io_result) (file : option json) (c : Conf) : option json * option cferr :=
  match o with IoOk => (Some (config_marshal c), None) | IoFail => (file, Some CfFile) | IoTorn => (None, Some CfFile) end.

(** ** The proxy (proxy.go) *)

(** The part of [Proxy] that settings change; the table of addresses shares the configuration. *)
Record Server := mkServer { svConf : Conf; svFile : option json; svIPTable : IPTable; svReadOnly : bool; svLimit : Z }.

Definition with_conf (f : Conf -> Conf) (s : Server) : Server := mkServer (f (svConf s)) (svFile s) (svIPTable s) (svReadOnly s) (svLimit s).
Definition on_proxy (f : ProxyConf -> ProxyConf) (c : Conf) : Conf :=
  mkConf (f (cfProxy c)) (cfAudit c) (cfRouter c) (cfLog c) (cfMonitor c) (cfScatter c).
Definition on_audit (f : AuditConf -> AuditConf) (c : Conf) : Conf :=
  mkConf (cfProxy c) (f (cfAudit c)) (cfRouter c) (cfLog c) (cfMonitor c) (cfScatter c).
Definition on_router (f : RouterConfig -> RouterConfig) (c : Conf) : Conf :=
  mkConf (cfProxy c) (cfAudit c) (f (cfRouter c)) (cfLog c) (cfMonitor c) (cfScatter c).
Definition SetMaxConnections (n : Z) : Server -> Server := with_conf (on_proxy (fun p =>
  mkProxyConf (pfIPS p) (pfMetaDir p) (pfEndpoint p) (pfTwopcEnable p) (pfLoadBalance p) (pfLowerCaseTableNames p) n (pfMaxResultSize p)
    (pfMaxJoinRows p) (pfDDLTimeout p) (pfQueryTimeout p) (pfPeerAddress p) (pfLongQueryTime p) (pfStreamBufferSize p) (pfIdleTxnTimeout p) (pfAutocommitFalseIsTxn p))).
Definition SetMaxResultSize (n : Z) : Server -> Server := with_conf (on_proxy (fun p =>
  mkProxyConf (pfIPS p) (pfMetaDir p) (pfEndpoint p) (pfTwopcEnable p) (pfLoadBalance p) (pfLowerCaseTableNames p) (pfMaxConnections p) n
    (pfMaxJoinRows p) (pfDDLTimeout p) (pfQueryTimeout p) (pfPeerAddress p) (pfLongQueryTime p) (pfStreamBufferSize p) (pfIdleTxnTimeout p) (pfAutocommitFalseIsTxn p))).
Definition SetMaxJoinRows (n : Z) : Server -> Server := with_conf (on_proxy (fun p =>
  mkProxyConf (pfIPS p) (pfMetaDir p) (pfEndpoint p) (pfTwopcEnable p) (pfLoadBalance p) (pfLowerCaseTableNames p) (pfMaxConnections p) (pfMaxResultSize p)
    n (pfDDLTimeout p) (pfQueryTimeout p) (pfPeerAddress p) (pfLongQueryTime p) (pfStreamBufferSize p) (pfIdleTxnTimeout p) (pfAutocommitFalseIsTxn p))).
Definition SetDDLTimeout (n : Z) : Server -> Server := with_conf (on_proxy (fun p =>
  mkProxyConf (pfIPS p) (pfMetaDir p) (pfEndpoint p) (pfTwopcEnable p) (pfLoadBalance p) (pfLowerCaseTableNames p) (pfMaxConnections p) (pfMaxResultSize p)
    (pfMaxJoinRows p) n (pfQueryTimeout p) (pfPeerAddress p) (pfLongQueryTime p) (pfStreamBufferSize p) (pfIdleTxnTimeout p) (pfAutocommitFalseIsTxn p))).
Definition SetQueryTimeout (n : Z) : Server -> Server := with_conf (on_proxy (fun p =>
  mkProxyConf (pfIPS p) (pfMetaDir p) (pfEndpoint p) (pfTwopcEnable p) (pfLoadBalance p) (pfLowerCaseTableNames p) (pfMaxConnections p) (pfMaxResultSize p)
    (pfMaxJoinRows p) (pfDDLTimeout p) n (pfPeerAddress p) (pfLongQueryTime p) (pfStreamBufferSize p) (pfIdleTxnTimeout p) (pfAutocommitFalseIsTxn p))).
Definition SetLongQueryTime (n : Z) : Server -> Server := with_conf (on_proxy (fun p =>
  mkProxyConf (pfIPS p) (pfMetaDir p) (pfEndpoint p) (pfTwopcEnable p) (pfLoadBalance p) (pfLowerCaseTableNames p) (pfMaxConnections p) (pfMaxResultSize p)
    (pfMaxJoinRows p) (pfDDLTimeout p) (pfQueryTimeout p) (pfPeerAddress p) n (pfStreamBufferSize p) (pfIdleTxnTimeout p) (pfAutocommitFalseIsTxn p))).
Definition SetTwoPC (b : bool) : Server -> Server := with_conf (on_proxy (fun p =>
  mkProxyConf (pfIPS p) (pfMetaDir p) (pfEndpoint p) b (pfLoadBalance p) (pfLowerCaseTableNames p) (pfMaxConnections p) (pfMaxResultSize p)
    (pfMaxJoinRows p) (pfDDLTimeout p) (pfQueryTimeout p) (pfPeerAddress p) (pfLongQueryTime p) (pfStreamBufferSize p) (pfIdleTxnTimeout p) (pfAutocommitFalseIsTxn p))).
Definition SetAutocommitFalseIsTxn (b : bool) : Server -> Server := with_conf (on_proxy (fun p =>
  mkProxyConf (pfIPS p) (pfMetaDir p) (pfEndpoint p) (pfTwopcEnable p) (pfLoadBalance p) (pfLowerCaseTableNames p) (pfMaxConnections p) (pfMaxResultSize p)
    (pfMaxJoinRows p) (pfDDLTimeout p) (pfQueryTimeout p) (pfPeerAddress p) (pfLongQueryTime p) (pfStreamBufferSize p) (pfIdleTxnTimeout p) b)).
Definition SetAllowIP (ips : list string) : Server -> Server := with_conf (on_proxy (fun p =>
  mkProxyConf ips (pfMetaDir p) (pfEndpoint p) (pfTwopcEnable p) (pfLoadBalance p) (pfLowerCaseTableNames p) (pfMaxConnections p) (pfMaxResultSize p)
    (pfMaxJoinRows p) (pfDDLTimeout p) (pfQueryTimeout p) (pfPeerAddress p) (pfLongQueryTime p) (pfStreamBufferSize p) (pfIdleTxnTimeout p) (pfAutocommitFalseIsTxn p))).
Definition SetLoadBalance (n : Z) : Server -> Server := with_conf (on_proxy (fun p =>
  mkProxyConf (pfIPS p) (pfMetaDir p) (pfEndpoint p) (pfTwopcEnable p) n (pfLowerCaseTableNames p) (pfMaxConnections p) (pfMaxResultSize p)
    (pfMaxJoinRows p) (pfDDLTimeout p) (pfQueryTimeout p) (pfPeerAddress p) (pfLongQueryTime p) (pfStreamBufferSize p) (pfIdleTxnTimeout p) (pfAutocommitFalseIsTxn p))).
Definition SetStreamBufferSize (n : Z) : Server -> Server := with_conf (on_proxy (fun p =>
  mkProxyConf (pfIPS p) (pfMetaDir p) (pfEndpoint p) (pfTwopcEnable p) (pfLoadBalance p) (pfLowerCaseTableNames p) (pfMaxConnections p) (pfMaxResultSize p)
    (pfMaxJoinRows p) (pfDDLTimeout p) (pfQueryTimeout p) (pfPeerAddress p) (pfLongQueryTime p) n (pfIdleTxnTimeout p) (pfAutocommitFalseIsTxn p))).
Definition SetLowerCaseTableNames (n : Z) : Server -> Server := with_conf (on_proxy (fun p =>
  mkProxyConf (pfIPS p) (pfMetaDir p) (pfEndpoint p) (pfTwopcEnable p) (pfLoadBalance p) n (pfMaxConnections p) (pfMaxResultSize p)
    (pfMaxJoinRows p) (pfDDLTimeout p) (pfQueryTimeout p) (pfPeerAddress p) (pfLongQueryTime p) (pfStreamBufferSize p) (pfIdleTxnTimeout p) (pfAutocommitFalseIsTxn p))).
Definition SetAuditMode (mode : string) : Server -> Server := with_conf (on_audit (fun a => mkAuditConf mode (afLogDir a) (afMaxSize a) (afExpireHours a))).
Definition SetBlocks (n : Z) : Server -> Server := with_conf (on_router (fun r => mkRouterConfig (rcSlots r) n)).
(** [spanner.SetReadOnly], [spanner.ReadOnly] *)
Definition SetReadOnly (b : bool) (s : Server) : Server := mkServer (svConf s) (svFile s) (svIPTable s) b (svLimit s).
(** [Throttle.Set]: the limit is kept at 32 bits. *)
Definition SetThrottle (n : Z) (s : Server) : Server := mkServer (svConf s) (svFile s) (svIPTable s) (svReadOnly s) (swrap 32 n).
(** [Throttle.Acquire]: whether a query waits for the rate limiter *)
Definition throttled (s : Server) : bool := 0 <? svLimit s.
Definition PeerAddress (s : Server) : string := pfPeerAddress (cfProxy (svConf s)).
(** [Proxy.FlushConfig] *)
Definition FlushConfig (o : io_result) (s : Server) : Server * option cferr :=
  let (file, err) := WriteConfig o (svFile s) (svConf s) in (mkServer (svConf s) file (svIPTable s) (svReadOnly s) (svLimit s), err).

(** ** The handlers (ctl/v1/radon.go) *)
Abbreviation http500 := 500.
Abbreviation http200 := 200.

(** [DecodeJsonPayload] into a struct: [None] is a body that is empty or not JSON. *)
Definition DecodeJsonPayload {A} (dec : list (string * json) -> CR A) (body : option json) : CR A :=
  match body with
  | None => Err CfSyntax
  | Some JNull => dec []
  | Some (JObj o) => dec o
  | Some _ => Err CfType
  end.
(** A pointer to a scalar *)
Definition dec_opt {A} (dec : A -> json -> CR A) (zero : A) (cur : option A) (v : json) : CR (option A) :=
  match v with JNull => Ok None | _ => x ← dec (default zero cur) v; Ok (Some x) end.

Record radonParams := mkRadonParams {
  rpMaxConnections : option Z; rpMaxResultSize : option Z; rpMaxJoinRows : option Z; rpDDLTimeout : option Z; rpQueryTimeout : option Z;
  rpTwoPCEnable : option bool; rpLoadBalance : option Z; rpAllowIP : list string; rpAuditMode : option string; rpStreamBufferSize : option Z;
  rpBlocks : option Z; rpLowerCaseTableNames : option Z
}.
Definition radon_params (o : list (string * json)) : CR radonParams :=
  let int := dec_opt dec_int 0 in
  conns ← get int "max-connections" None o;
  size ← get int "max-result-size" None o;
  rows ← get int "max-join-rows" None o;
  ddl ← get int "ddl-timeout" None o;
  query ← get int "query-timeout" None o;
  twopc ← get (dec_opt dec_bool false) "twopc-enable" None o;
  balance ← get int "load-balance" None o;
  ips ← get dec_strs "allowip" [] o;
  audit ← get (dec_opt dec_str "") "audit-mode" None o;
  stream ← get int "stream-buffer-size" None o;
  blocks ← get int "blocks-readonly" None o;
  lower ← get int "lower-case-table-names" None o;
  Ok (mkRadonParams conns size rows ddl query twopc balance ips audit stream blocks lower).

(** [if p.X != nil { proxy.SetX( *p.X ) }] *)
Definition set_if {A} (set : A -> Server -> Server) (x : option A) (s : Server) : Server := from_option (fun x => set x s) s x.

Section handlers.
Context `{RE : RegExp}.

(** [proxy.IPTable().Refresh()], its error dropped *)
Definition refresh (s : Server) : Server :=
  mkServer (svConf s) (svFile s) (fst (IPTable_Refresh (pfIPS (cfProxy (svConf s))))) (svReadOnly s) (svLimit s).

(** The settings of a request, in the order of the handler *)
Definition apply_params (p : radonParams) (s : Server) : Server :=
  let s := set_if SetMaxConnections (rpMaxConnections p) s in
  let s := set_if SetMaxResultSize (rpMaxResultSize p) s in
  let s := set_if SetMaxJoinRows (rpMaxJoinRows p) s in
  let s := set_if SetDDLTimeout (rpDDLTimeout p) s in
  let s := set_if SetQueryTimeout (rpQueryTimeout p) s in
  let s := set_if SetTwoPC (rpTwoPCEnable p) s in
  let s := set_if SetLoadBalance (rpLoadBalance p) s in
  let s := SetAllowIP (rpAllowIP p) s in
  let s := set_if SetAuditMode (rpAuditMode p) s in
  let s := set_if SetStreamBufferSize (rpStreamBufferSize p) s in
  let s := set_if SetBlocks (rpBlocks p) s in
  set_if SetLowerCaseTableNames (rpLowerCaseTableNames p) s.

(** [radonConfigHandler]: the proxy afterwards and the status *)
Definition radonConfigHandler (o : io_result) (body : option json) (s : Server) : Server * Z :=
  match DecodeJsonPayload radon_params body with
  | Ok p =>
      let s := refresh (apply_params p s) in
      let (s, err) := FlushConfig o s in
      (s, match err with Some _ => http500 | None => http200 end)
  | _ => (s, http500)
  end.

(** [readonlyHandler], [twopcHandler], [throttleHandler] *)
Definition readonlyHandler (body : option json) (s : Server) : Server * Z :=
  match DecodeJsonPayload (get dec_bool "readonly" false) body with Ok b => (SetReadOnly b s, http200) | _ => (s, http500) end.
Definition twopcHandler (body : option json) (s : Server) : Server * Z :=
  match DecodeJsonPayload (get dec_bool "twopc" false) body with Ok b => (SetTwoPC b s, http200) | _ => (s, http500) end.
Definition throttleHandler (body : option json) (s : Server) : Server * Z :=
  match DecodeJsonPayload (get dec_int "limits" 0) body with Ok n => (SetThrottle n s, http200) | _ => (s, http500) end.
(** [statusHandler], [RestAPIAddressHandler] *)
Definition statusHandler (s : Server) : json := JObj [("readonly", JBool (svReadOnly s))].
Definition RestAPIAddressHandler (s : Server) : json := JObj [("address", JStr (PeerAddress s))].

(** [NewProxy] with the configuration that was loaded *)
Definition NewProxy (c : Conf) (file : option json) : Server := mkServer c file (NewIPTable (pfIPS (cfProxy c))) false 0.
End handlers.
