(* ===== verification/SettingsProps.v ===== *)
(** * Properties of the configuration and the settings *)
From S2P Require Import Prelude GoStd Config Auth Settings.
Open Scope string_scope.
Open Scope list_scope.
Open Scope Z_scope.

(** ** Reading what was written *)

Definition int_ok (z : Z) : Prop := - 2 ^ 63 <= z < 2 ^ 63.
(** The numbers of a configuration are of the width of their fields. *)
Definition proxy_ok (p : ProxyConf) : Prop :=
  Forall int_ok [pfLoadBalance p; pfLowerCaseTableNames p; pfMaxConnections p; pfMaxResultSize p; pfMaxJoinRows p; pfDDLTimeout p;
                 pfQueryTimeout p; pfLongQueryTime p; pfStreamBufferSize p]
  /\ 0 <= pfIdleTxnTimeout p < 2 ^ 32.
Lemma get_single {A} (dec : A -> json -> CR A) name d o v : field_values name o = [v] -> get dec name d o = dec d v.
Proof. intros H. unfold get. rewrite H. simpl. by destruct (dec d v). Qed.
Lemma get_missing {A} (dec : A -> json -> CR A) name d o : field_values name o = [] -> get dec name d o = Ok d.
Proof. intros H. unfold get. by rewrite H. Qed.
Lemma dec_int_ok cur z : int_ok z -> dec_int cur (JNum z) = Ok z.
Proof. intros [H1 H2]. unfold dec_int, dec_range. by rewrite (proj2 (Z.leb_le _ _) H1), (proj2 (Z.ltb_lt _ _) H2). Qed.
Lemma dec_uint32_ok cur z : 0 <= z < 2 ^ 32 -> dec_uint32 cur (JNum z) = Ok z.
Proof. intros [H1 H2]. unfold dec_uint32, dec_range. by rewrite (proj2 (Z.leb_le _ _) H1), (proj2 (Z.ltb_lt _ _) H2). Qed.
Lemma dec_strs_enc cur l : dec_strs cur (enc_strs l) = Ok l.
Proof.
  assert (res_map (dec_str "") (JStr <$> l) = Ok l) as H. { apply res_map_Ok, Forall2_fmap_l, Forall_Forall2_diag. by apply Forall_true. }
  destruct l; [done|]. exact H.
Qed.

(** One field of a record *)
Lemma get_bind {A B} (dec : A -> json -> CR A) name d o v x (k : A -> CR B) r :
  field_values name o = [v] -> dec d v = Ok x -> k x = r -> (get dec name d o ≫= k) = r.
Proof. intros Hv Hx Hk. by rewrite (get_single _ _ _ _ _ Hv), Hx. Qed.
Lemma dec_ptr_obj {A} (unmarshal : list (string * json) -> CR A) cur o x : unmarshal o = Ok x -> dec_ptr unmarshal cur (JObj o) = Ok (Some x).
Proof. intros H. simpl. by rewrite H. Qed.
Ltac read_fields := repeat (eapply get_bind; [reflexivity | first [done | apply dec_strs_enc | by apply dec_int_ok | by apply dec_uint32_ok] | ]).
Ltac split_ok H := decompose [and] H; repeat match goal with F : Forall _ (_ :: _) |- _ => apply Forall_cons in F as [? F] end.

Lemma proxy_roundtrip cur p : proxy_ok p -> pfPeerAddress p <> "" -> dec_ptr proxy_unmarshal cur (proxy_marshal p) = Ok (Some p).
Proof.
  intros H Hpeer. unfold proxy_ok in H. split_ok H. unfold proxy_marshal. rewrite decide_False by done.
  apply dec_ptr_obj. unfold proxy_unmarshal. cbv zeta. read_fields. by destruct p.
Qed.
Lemma audit_roundtrip cur a : int_ok (afMaxSize a) -> int_ok (afExpireHours a) -> dec_ptr audit_unmarshal cur (audit_marshal a) = Ok (Some a).
Proof. intros. apply dec_ptr_obj. unfold audit_unmarshal. cbv zeta. read_fields. by destruct a. Qed.
Lemma router_roundtrip cur r : int_ok (rcSlots r) -> int_ok (rcBlocks r) -> dec_ptr router_unmarshal cur (router_marshal r) = Ok (Some r).
Proof. intros. apply dec_ptr_obj. unfold router_unmarshal. cbv zeta. read_fields. by destruct r. Qed.
Lemma log_roundtrip cur l : dec_ptr log_unmarshal cur (log_marshal l) = Ok (Some l).
Proof. apply dec_ptr_obj. unfold log_unmarshal. read_fields. by destruct l. Qed.
Lemma monitor_roundtrip cur m : dec_ptr monitor_unmarshal cur (monitor_marshal m) = Ok (Some m).
Proof. apply dec_ptr_obj. unfold monitor_unmarshal. read_fields. by destruct m. Qed.
Lemma scatter_roundtrip cur s : int_ok (scXaCheckInterval s) -> int_ok (scXaCheckRetrys s) -> dec_ptr scatter_unmarshal cur (scatter_marshal s) = Ok (Some s).
Proof. intros. apply dec_ptr_obj. unfold scatter_unmarshal. cbv zeta. read_fields. by destruct s. Qed.

(** The other sections are read back whatever the proxy's section is. *)
Definition others_ok (c : Conf) : Prop :=
  Forall int_ok [afMaxSize (cfAudit c); afExpireHours (cfAudit c); rcSlots (cfRouter c); rcBlocks (cfRouter c);
                 scXaCheckInterval (cfScatter c); scXaCheckRetrys (cfScatter c)].
Definition conf_ok (c : Conf) : Prop := proxy_ok (cfProxy c) /\ others_ok c.
Lemma config_read c p : others_ok c -> dec_ptr proxy_unmarshal None (proxy_marshal (cfProxy c)) = Ok (Some p) ->
  config_LoadConfig (Some (config_marshal c)) = Ok (mkConf p (cfAudit c) (cfRouter c) (cfLog c) (cfMonitor c) (cfScatter c)).
Proof.
  intros H Hp. unfold others_ok in H. split_ok H. unfold config_LoadConfig. cbn [mbind res_bind]. cut (config_unmarshal (config_marshal c) =
    Ok (mkRawConf (Some p) (Some (cfAudit c)) (Some (cfRouter c)) (Some (cfLog c)) (Some (cfMonitor c)) (Some (cfScatter c)))).
  { by intros ->. }
  eapply get_bind; [reflexivity | exact Hp | ].
  eapply get_bind; [reflexivity | by apply audit_roundtrip | ].
  eapply get_bind; [reflexivity | by apply router_roundtrip | ].
  eapply get_bind; [reflexivity | by apply log_roundtrip | ].
  eapply get_bind; [reflexivity | by apply monitor_roundtrip | ].
  by eapply get_bind; [reflexivity | by apply scatter_roundtrip | ].
Qed.
Lemma config_roundtrip c : conf_ok c -> pfPeerAddress (cfProxy c) <> "" -> config_LoadConfig (Some (config_marshal c)) = Ok c.
Proof. intros [Hp H] Hpeer. rewrite (config_read c (cfProxy c)); [by destruct c | done | by apply proxy_roundtrip]. Qed.

(** A section or a field that is missing has its default. *)
Lemma config_defaults : config_LoadConfig (Some (JObj [])) = Ok (mkConf DefaultProxyConfig DefaultAuditConfig DefaultRouterConfig DefaultLogConfig DefaultMonitorConfig DefaultScatterConfig)
  /\ proxy_unmarshal [] = Ok DefaultProxyConfig /\ conf_ok (checkConfig (mkRawConf None None None None None None)).
Proof.
  split; [reflexivity|]. split; [reflexivity|]. unfold conf_ok, others_ok, proxy_ok, int_ok. cbn. repeat split; try done; repeat constructor; lia.
Qed.

(** An empty address is not written, and read as the default. *)
Definition with_peer (a : string) (p : ProxyConf) : ProxyConf :=
  mkProxyConf (pfIPS p) (pfMetaDir p) (pfEndpoint p) (pfTwopcEnable p) (pfLoadBalance p) (pfLowerCaseTableNames p) (pfMaxConnections p)
    (pfMaxResultSize p) (pfMaxJoinRows p) (pfDDLTimeout p) (pfQueryTimeout p) a (pfLongQueryTime p) (pfStreamBufferSize p) (pfIdleTxnTimeout p)
    (pfAutocommitFalseIsTxn p).
Lemma empty_peer_address_lost c : conf_ok c -> pfPeerAddress (cfProxy c) = "" ->
  config_LoadConfig (Some (config_marshal c)) = Ok (on_proxy (with_peer "127.0.0.1:8080") c).
Proof.
  intros [H Ho] Hpeer. rewrite (config_read c (with_peer "127.0.0.1:8080" (cfProxy c))); [done | done |].
  unfold proxy_ok in H. split_ok H. unfold proxy_marshal. rewrite decide_True by done.
  apply dec_ptr_obj. unfold proxy_unmarshal. cbv zeta.
  do 11 (eapply get_bind; [reflexivity | first [done | apply dec_strs_enc | by apply dec_int_ok | by apply dec_uint32_ok] | ]).
  rewrite (get_missing dec_str "peer-address") by reflexivity. cbn [mbind res_bind]. read_fields. done.
Qed.

(** What a configuration is after it was written and loaded again: itself, but
    an empty address for the peers is the default one. *)
Definition reloaded (c : Conf) : Conf :=
  if decide (pfPeerAddress (cfProxy c) = "") then on_proxy (with_peer "127.0.0.1:8080") c else c.
Lemma config_reload c : conf_ok c -> config_LoadConfig (Some (config_marshal c)) = Ok (reloaded c).
Proof. intros H. unfold reloaded. case_decide; [by apply empty_peer_address_lost|by apply config_roundtrip]. Qed.

(** ** Requests *)

(** The configuration after a request: what it names is set, what it does not name is kept, and the allow list is always the request's. *)
Definition requested (p : radonParams) (c : Conf) : Conf :=
  let q := cfProxy c in
  mkConf
    (mkProxyConf (rpAllowIP p) (pfMetaDir q) (pfEndpoint q) (default (pfTwopcEnable q) (rpTwoPCEnable p)) (default (pfLoadBalance q) (rpLoadBalance p))
       (default (pfLowerCaseTableNames q) (rpLowerCaseTableNames p)) (default (pfMaxConnections q) (rpMaxConnections p))
       (default (pfMaxResultSize q) (rpMaxResultSize p)) (default (pfMaxJoinRows q) (rpMaxJoinRows p)) (default (pfDDLTimeout q) (rpDDLTimeout p))
       (default (pfQueryTimeout q) (rpQueryTimeout p)) (pfPeerAddress q) (pfLongQueryTime q) (default (pfStreamBufferSize q) (rpStreamBufferSize p))
       (pfIdleTxnTimeout q) (pfAutocommitFalseIsTxn q))
    (mkAuditConf (default (afMode (cfAudit c)) (rpAuditMode p)) (afLogDir (cfAudit c)) (afMaxSize (cfAudit c)) (afExpireHours (cfAudit c)))
    (mkRouterConfig (rcSlots (cfRouter c)) (default (rcBlocks (cfRouter c)) (rpBlocks p)))
    (cfLog c) (cfMonitor c) (cfScatter c).

(** A setting that is not named is set to what it is. *)
Lemma set_if_default {A} (set : A -> Server -> Server) (cur : Server -> A) x s : set (cur s) s = s -> set_if set x s = set (default (cur s) x) s.
Proof. intros H. by destruct x. Qed.
Lemma apply_params_requested p s : apply_params p s = with_conf (requested p) s.
Proof.
  destruct s as [[[p1 p2 p3 p4 p5 p6 p7 p8 p9 p10 p11 p12 p13 p14 p15 p16] [a1 a2 a3 a4] [r1 r2] l m sc] f i ro li]. unfold apply_params. cbv zeta.
  rewrite (set_if_default SetMaxConnections (fun s => pfMaxConnections (cfProxy (svConf s)))) by reflexivity.
  rewrite (set_if_default SetMaxResultSize (fun s => pfMaxResultSize (cfProxy (svConf s)))) by reflexivity.
  rewrite (set_if_default SetMaxJoinRows (fun s => pfMaxJoinRows (cfProxy (svConf s)))) by reflexivity.
  rewrite (set_if_default SetDDLTimeout (fun s => pfDDLTimeout (cfProxy (svConf s)))) by reflexivity.
  rewrite (set_if_default SetQueryTimeout (fun s => pfQueryTimeout (cfProxy (svConf s)))) by reflexivity.
  rewrite (set_if_default SetTwoPC (fun s => pfTwopcEnable (cfProxy (svConf s)))) by reflexivity.
  rewrite (set_if_default SetLoadBalance (fun s => pfLoadBalance (cfProxy (svConf s)))) by reflexivity.
  rewrite (set_if_default SetAuditMode (fun s => afMode (cfAudit (svConf s)))) by reflexivity.
  rewrite (set_if_default SetStreamBufferSize (fun s => pfStreamBufferSize (cfProxy (svConf s)))) by reflexivity.
  rewrite (set_if_default SetBlocks (fun s => rcBlocks (cfRouter (svConf s)))) by reflexivity.
  rewrite (set_if_default SetLowerCaseTableNames (fun s => pfLowerCaseTableNames (cfProxy (svConf s)))) by reflexivity.
  reflexivity.
Qed.

(** *** Numbers that were decoded fit. *)
Lemma get_opt_int name o x : get (dec_opt dec_int 0) name None o = Ok x -> from_option int_ok True x.
Proof.
  intros H. refine (res_fold_inv (E := cferr) _ (fun _ y => from_option int_ok True y) None _ x _ _ H); [done|].
  intros _ v y y' _. destruct v; simpl; try done; [by intros [= <-]|].
  unfold dec_int, dec_range. destruct (_ <=? _) eqn:H1; [|done]. destruct (_ <? _) eqn:H2; [|done].
  simpl. intros [= <-]. simpl. unfold int_ok. lia.
Qed.
Definition params_ok (p : radonParams) : Prop :=
  Forall (from_option int_ok True) [rpMaxConnections p; rpMaxResultSize p; rpMaxJoinRows p; rpDDLTimeout p; rpQueryTimeout p; rpLoadBalance p;
                                    rpStreamBufferSize p; rpBlocks p; rpLowerCaseTableNames p].
Lemma radon_params_ok o p : radon_params o = Ok p -> params_ok p.
Proof.
  unfold radon_params. cbv zeta. intros H.
  repeat match type of H with
         | (get _ ?n _ _ ≫= _) = _ => let E := fresh "E" in destruct (get _ n _ _) eqn:E; cbn [mbind res_bind] in H; [|done|done]
         end.
  injection H as <-. unfold params_ok. cbn. repeat constructor; by eapply get_opt_int.
Qed.
Lemma decoded_ok body p : DecodeJsonPayload radon_params body = Ok p -> params_ok p.
Proof. destruct body as [[]|]; try done; cbn [DecodeJsonPayload]; apply radon_params_ok. Qed.

Lemma default_int_ok cur x : int_ok cur -> from_option int_ok True x -> int_ok (default cur x).
Proof. by destruct x. Qed.
Lemma requested_ok p c : params_ok p -> conf_ok c -> conf_ok (requested p c).
Proof.
  intros Hp [Hc Ho]. unfold params_ok, others_ok, proxy_ok in *. split_ok Hp. split_ok Hc. split_ok Ho.
  split; [split; [|done]|]; cbn;
    repeat (apply Forall_cons; split; [first [done | by apply default_int_ok]|]); by apply Forall_nil.
Qed.

Section requests.
Context `{RE : RegExp}.

Inductive request := RqConfig (o : io_result) (body : option json) | RqReadonly (body : option json) | RqTwopc (body : option json) | RqThrottle (body : option json).
Definition serve (r : request) : Server -> Server * Z :=
  match r with
  | RqConfig o body => radonConfigHandler o body
  | RqReadonly body => readonlyHandler body
  | RqTwopc body => twopcHandler body
  | RqThrottle body => throttleHandler body
  end.
Definition serve_all (rs : list request) (s : Server) : Server := foldl (fun s r => fst (serve r s)) s rs.

Lemma serve_ok r s : conf_ok (svConf s) -> conf_ok (svConf (fst (serve r s))).
Proof.
  intros H. destruct r as [o body|body|body|body]; simpl.
  - unfold radonConfigHandler. destruct (DecodeJsonPayload _ _) as [p| |] eqn:Hd; [|done|done].
    assert (conf_ok (requested p (svConf s))) by (eapply requested_ok; [by eapply decoded_ok | done]).
    rewrite apply_params_requested. unfold FlushConfig. by destruct o.
  - unfold readonlyHandler. by destruct (DecodeJsonPayload _ _).
  - unfold twopcHandler. by destruct (DecodeJsonPayload _ _).
  - unfold throttleHandler. by destruct (DecodeJsonPayload _ _).
Qed.
Lemma serve_all_ok rs s : conf_ok (svConf s) -> conf_ok (svConf (serve_all rs s)).
Proof. revert s. induction rs as [|r rs IH]; intros s H; [done|]. by apply IH, serve_ok. Qed.

(** C27: Settings survive a restart. Whatever requests a proxy has served
    since it loaded a configuration whose numbers fit their types, a request
    to the configuration handler that is answered 200 leaves the proxy with
    the values it names, every other setting but the allow list kept, the
    table of addresses rebuilt from the list of the request, and a file from
    which the running configuration is loaded again, field by field, except
    that an empty address for the peers becomes 127.0.0.1:8080 ([reloaded]). A
    body that cannot be decoded changes nothing; a write that cannot start
    leaves the file and a torn write a file that cannot be loaded, both
    answered 500. *)
Theorem settings_durable c file rs o body s s' status :
  conf_ok c -> s = serve_all rs (NewProxy c file) -> radonConfigHandler o body s = (s', status) ->
  match DecodeJsonPayload radon_params body with
  | Ok p =>
      svConf s' = requested p (svConf s) /\ svIPTable s' = fst (IPTable_Refresh (rpAllowIP p))
      /\ svReadOnly s' = svReadOnly s /\ svLimit s' = svLimit s
      /\ match o with
         | IoOk => status = http200 /\ config_LoadConfig (svFile s') = Ok (reloaded (svConf s'))
         | IoFail => status = http500 /\ svFile s' = svFile s
         | IoTorn => status = http500 /\ config_LoadConfig (svFile s') = Err CfFile
         end
  | _ => s' = s /\ status = http500
  end.
Proof.
  intros Hc -> H. pose proof (serve_all_ok rs (NewProxy c file) Hc) as Hs. revert H Hs. generalize (serve_all rs (NewProxy c file)). intros s H Hs.
  unfold radonConfigHandler in H. destruct (DecodeJsonPayload _ _) as [p|e|] eqn:Hd; [|by injection H as <- <-|by injection H as <- <-].
  assert (conf_ok (requested p (svConf s))) as Hr by (eapply requested_ok; [by eapply decoded_ok | done]).
  rewrite apply_params_requested in H. destruct o; injection H as <- <-; repeat split; try done. by apply config_reload.
Qed.

(** A request that does not name the allow list empties it: every address may connect. *)
Lemma allow_list_cleared o fields s p : radon_params fields = Ok p -> field_values "allowip" fields = [] ->
  let s' := fst (radonConfigHandler o (Some (JObj fields)) s) in
  pfIPS (cfProxy (svConf s')) = [] /\ forall address, IPTable_Check (svIPTable s') address = true.
Proof.
  intros Hp Hf. assert (rpAllowIP p = []) as Hnil.
  { unfold radon_params in Hp. cbv zeta in Hp.
    repeat match type of Hp with
           | (get dec_strs ?n _ _ ≫= _) = _ => rewrite (get_missing dec_strs n) in Hp by done; cbn [mbind res_bind] in Hp
           | (get _ ?n _ _ ≫= _) = _ => destruct (get _ n _ _); cbn [mbind res_bind] in Hp; [|done|done]
           end.
    by injection Hp as <-. }
  unfold radonConfigHandler. cbn [DecodeJsonPayload]. rewrite Hp, apply_params_requested.
  unfold FlushConfig, refresh. cbn. rewrite Hnil. by destruct o.
Qed.
End requests.

(** The change of a request to the two-phase setting is not written. *)
Lemma twopc_not_written `{RE : RegExp} body s : svFile (fst (twopcHandler body s)) = svFile s.
Proof. unfold twopcHandler. by destruct (DecodeJsonPayload _ _). Qed.

(** A limit that does not fit in 32 bits turns the throttle off. *)
Lemma throttle_wraps `{RE : RegExp} s : throttled (fst (throttleHandler (Some (JObj [("limits", JNum (2 ^ 32))])) s)) = false.
Proof. done. Qed.

(** ** Examples *)
Definition no_regexp : RegExp := {| re_compile := fun _ => None |}.
Lemma settings_durable_witness :
  let s := @serve_all no_regexp [RqTwopc (Some (JObj [("twopc", JBool true)]))]
             (@NewProxy no_regexp (checkConfig (mkRawConf None None None None None None)) None) in
  exists s', @radonConfigHandler no_regexp IoOk (Some (JObj [("Max-Connections", JNum 7); ("allowip", JArr [JStr "10"])])) s = (s', 200)
    /\ pfMaxConnections (cfProxy (svConf s')) = 7 /\ pfTwopcEnable (cfProxy (svConf s')) = true /\ config_LoadConfig (svFile s') = Ok (svConf s').
Proof.
  intros s. eexists. split; [reflexivity|].
  destruct (@settings_durable no_regexp (checkConfig (mkRawConf None None None None None None)) None [RqTwopc (Some (JObj [("twopc", JBool true)]))]
    IoOk (Some (JObj [("Max-Connections", JNum 7); ("allowip", JArr [JStr "10"])])) s _ 200 (proj2 (proj2 config_defaults)) eq_refl eq_refl) as (H1 & _ & _ & _ & _ & H2).
  split; [by rewrite H1|]. split; [by rewrite H1|]. exact H2.
Defined.
