(* ===== verification/Listing.v ===== *)
(** * Listings of what runs (src/backend: queryz.go, txnz.go; src/proxy: sessions.go, show.go; src/ctl/v1)

    The queries that run on backends, the live transactions and the sessions,
    with the SHOW statements and the handlers that list them.  A query that is
    executed for its whole result ([ExecuteWithLimits]) is entered before it is
    sent and removed at the end, from the goroutine that executes it; a query
    that is streamed ([ExecuteStreamFetch]) is not entered. *)
From S2P Require Import Prelude GoStd Config Pool Xcontext Partition Compute Router Frm Scatter Txn Session Shift Admin Privilege Auth Settings.
Open Scope string_scope.
Open Scope list_scope.
Open Scope Z_scope.

(** [sort.Sort] by a number: some order of the elements with equal keys *)
Class SortKey := { sort_key : forall A : Type, (A -> Z) -> list A -> list A }.
Arguments sort_key {_ A} _ _.
Class SortKeyOk (S : SortKey) := {
  sort_key_perm : forall A (key : A -> Z) l, sort_key key l ≡ₚ l;
  sort_key_sorted : forall A (key : A -> Z) l, StronglySorted (fun a b => key a <= key b) (sort_key key l)
}.

(** [xbase.TruncateQuery] *)
Definition TruncateQuery {E} (query : string) (max : Z) : res E string :=
  if (max =? 0) || (Z.of_nat (String.length query) <=? max) then Ok query
  else if max <? 0 then Panic else Ok (String.substring 0 (Z.to_nat max) query +:+ " [TRUNCATED]").

(** ** Queries (queryz.go) *)

(** [QueryDetail]; times are in nanoseconds. *)
Record QueryDetail := mkQueryDetail { qdID : Z; qdConn : Z; qdAddress : string; qdQuery : string; qdStart : Z }.
Record Queryz := mkQueryz { qzID : Z; qzDetails : gmap Z QueryDetail }.
Definition NewQueryDetail {E} (conn : Z) (address query : string) (now : Z) : res E QueryDetail :=
  q ← TruncateQuery query 256; Ok (mkQueryDetail 0 conn address q now).
Definition NewQueryz : Queryz := mkQueryz 0 ∅.
(** [Queryz.Add]: the id is entered into the detail, which is shared. *)
Definition queryz_Add (qd : QueryDetail) (qz : Queryz) : Queryz * QueryDetail :=
  let id := wrap 64 (qzID qz + 1) in
  let qd := mkQueryDetail id (qdConn qd) (qdAddress qd) (qdQuery qd) (qdStart qd) in
  (mkQueryz id (<[id := qd]> (qzDetails qz)), qd).
Definition queryz_Remove (qd : QueryDetail) (qz : Queryz) : Queryz := mkQueryz (qzID qz) (delete (qdID qd) (qzDetails qz)).

Record QueryDetailzRow := mkQueryRow { qrStart : Z; qrDuration : Z; qrConnID : Z; qrQuery : string; qrAddress : string; qrColor : string }.
Definition ms : Z := 1000000.
Definition color_of (duration : Z) : string := if duration <? 10 * ms then "low" else if duration <? 100 * ms then "medium" else "high".
Definition query_row (now : Z) (qd : QueryDetail) : QueryDetailzRow :=
  let d := now - qdStart qd in mkQueryRow (qdStart qd) d (qdConn qd) (qdQuery qd) (qdAddress qd) (color_of d).

(** ** Connections that execute

    [ExecuteWithLimits] ([QWait], [QRun], [QDone]) enters its query, sends it
    and removes it when it returns; [ExecuteStreamFetch] ([QSWait], [QSRun],
    [QSDone]) sends its query, whose rows are read until the cursor is closed,
    without entering it. *)
Inductive QExec := QWait (qd : QueryDetail) | QRun (qd : QueryDetail) | QDone
  | QSWait (qd : QueryDetail) | QSRun (qd : QueryDetail) | QSDone.
Definition exec_step (e : QExec) (qz : Queryz) : Queryz * QExec :=
  match e with
  | QWait qd => let (qz, qd) := queryz_Add qd qz in (qz, QRun qd)
  | QRun qd => (queryz_Remove qd qz, QDone)
  | QDone => (qz, QDone)
  | QSWait qd => (qz, QSRun qd)
  | QSRun _ => (qz, QSDone)
  | QSDone => (qz, QSDone)
  end.
(** Goroutine [i] moves. *)
Definition execs_step (i : nat) (s : Queryz * list QExec) : Queryz * list QExec :=
  match snd s !! i with
  | Some e => let (qz, e) := exec_step e (fst s) in (qz, <[i := e]> (snd s))
  | None => s
  end.
Definition execs_run (sched : list nat) (s : Queryz * list QExec) : Queryz * list QExec := foldl (fun s i => execs_step i s) s sched.

(** ** Transactions (txnz.go) *)
Definition txn_state_name (s : txnState) : string :=
  match s with
  | txnStateLive => "txnStateLive" | txnStateBeginning => "txnStateBeginning" | txnStateExecutingTwoPC => "txnStateExecutingTwoPC"
  | txnStateExecutingNormal => "txnStateExecutingNormal" | txnStateRollbacking => "txnStateRollbacking"
  | txnStateCommitting => "txnStateCommitting" | txnStateFinshing => "txnStateFinshing" | txnStateAborting => "txnStateAborting"
  | txnStateRecovering => "txnStateRecovering"
  end.
Definition xa_state_name (s : txnXAState) : string :=
  match s with
  | txnXAStateNone => "txnXAStateNone" | txnXAStateStart => "txnXAStateStart" | txnXAStateStartFinished => "txnXAStateStartFinished"
  | txnXAStateEnd => "txnXAStateEnd" | txnXAStateEndFinished => "txnXAStateEndFinished" | txnXAStatePrepare => "txnXAStatePrepare"
  | txnXAStatePrepareFinished => "txnXAStatePrepareFinished" | txnXAStateCommit => "txnXAStateCommit"
  | txnXAStateCommitFinished => "txnXAStateCommitFinished" | txnXAStateRollback => "txnXAStateRollback"
  | txnXAStateRollbackFinished => "txnXAStateRollbackFinished" | txnXAStateRecover => "txnXAStateRecover"
  | txnXAStateRecoverFinished => "txnXAStateRecoverFinished"
  end.
Record TxnDetailzRow := mkTxnRow { trStart : Z; trDuration : Z; trTxnID : Z; trXAID : string; trState : string; trXaState : string; trColor : string }.
(** [TxnDetail]: the transaction and when it began *)
Definition txn_row (now : Z) (td : Txn * Z) : TxnDetailzRow :=
  let d := now - snd td in
  mkTxnRow (snd td) d (tId (fst td)) (tXid (fst td)) (txn_state_name (tState (fst td))) (xa_state_name (tXaState (fst td))) (color_of d).

(** ** Sessions (sessions.go) *)
(** What the driver's session says of itself besides [DrvSession]. *)
Class DrvInfo := { drv_addr : DrvSession -> string; drv_schema : DrvSession -> string }.
Record SessInfo := mkSessInfo {
  ssID : Z; ssUser : string; ssHost : string; ssDB : string; ssCommand : string; ssTime : Z; ssState : string; ssInfo : string
}.

Section listing.
Context `{SK : SortKey, DI : DrvInfo}.

(** [GetQueryzRows], [GetTxnzRows] *)
Definition GetQueryzRows (now : Z) (qz : Queryz) : list QueryDetailzRow :=
  sort_key qrStart (query_row now <$> (snd <$> map_to_list (qzDetails qz))).
Definition GetTxnzRows (now : Z) (tz : gmap Z (Txn * Z)) : list TxnDetailzRow :=
  sort_key trStart (txn_row now <$> (snd <$> map_to_list tz)).

(** The entry of one session *)
Definition sess_info (now : Z) (ss : session) : SessInfo :=
  let d := seDrv ss in
  mkSessInfo (dvID d) (dvUser d) (drv_addr d) (drv_schema d) (match seNode ss with Some _ => "Query" | None => "Sleep" end)
    (wrap 32 (now - dvLastQuery d)) (match seTxn ss with Some _ => "In transaction" | None => "" end)
    (match seNode ss with Some _ => seQuery ss | None => "" end).
(** [Snapshot], [SnapshotUser] *)
Definition Snapshot (now : Z) (m : gmap Z session) : list SessInfo := sort_key ssID (sess_info now <$> (snd <$> map_to_list m)).
Definition SnapshotUser (user : string) (now : Z) (m : gmap Z session) : list SessInfo :=
  sort_key ssID (sess_info now <$> filter (fun ss => dvUser (seDrv ss) = user) (snd <$> map_to_list m)).

(** ** SHOW (show.go) *)
Inductive lerr := LsDenied.

(** [handleShowProcesslist] *)
Definition process_row (i : SessInfo) : list string :=
  [Itoa (ssID i); ssUser i; ssHost i; ssDB i; ssCommand i; Itoa (ssTime i); ssState i; ssInfo i; "0"; "0"].
Definition handleShowProcesslist (p : PrivSt) (user : string) (now : Z) (m : gmap Z session) : res lerr (list (list string)) :=
  Ok (process_row <$> (if IsSuperPriv user p then Snapshot now m else SnapshotUser user now m)).

(** [handleShowQueryz], [handleShowTxnz]; [stamp] and [span] print a time and a duration. *)
Variable (stamp span : Z -> string).
Definition handleShowQueryz (p : PrivSt) (user : string) (now : Z) (qz : Queryz) : res lerr (list (list string)) :=
  if negb (IsSuperPriv user p) then Err LsDenied
  else Ok ((fun r => [Itoa (qrConnID r); qrAddress r; stamp (qrStart r); span (qrDuration r); qrQuery r]) <$> GetQueryzRows now qz).
Definition handleShowTxnz (p : PrivSt) (user : string) (now : Z) (tz : gmap Z (Txn * Z)) : res lerr (list (list string)) :=
  if negb (IsSuperPriv user p) then Err LsDenied
  else Ok ((fun r => [Itoa (trTxnID r); stamp (trStart r); span (trDuration r); trXaState r; trState r]) <$> GetTxnzRows now tz).

(** ** Handlers (ctl/v1: queryz.go, txnz.go, processlist.go) *)
Definition limit_of (param : option Z) : Z := default 100 param.
Definition queryzHandler (param : option Z) (now : Z) (qz : Queryz) : list QueryDetailzRow :=
  take (Z.to_nat (limit_of param)) (GetQueryzRows now qz).
Definition txnzHandler (param : option Z) (now : Z) (tz : gmap Z (Txn * Z)) : list TxnDetailzRow :=
  take (Z.to_nat (limit_of param)) (GetTxnzRows now tz).
Definition processlistHandler (now : Z) (m : gmap Z session) : list SessInfo := Snapshot now m.
End listing.

(** ** SHOW STATUS (show.go) *)

(** [Counters.String] (xbase/stats/counters.go), by name *)
Definition counters_text (m : gmap string Z) : string :=
  "{" +:+ String.concat ", " ((fun n => "'" +:+ n +:+ "': " +:+ Itoa (default 0 (m !! n))) <$> sort_Strings (fst <$> map_to_list m)) +:+ "}".
(** [Pool.JSON], [Poolz.JSON] *)
Definition pool_JSON (p : Pool) : string :=
  "{'name': '" +:+ bcName (pConf p) +:+ "@" +:+ pAddress p +:+ "', 'capacity': " +:+ Itoa (bcMaxConnections (pConf p)) +:+ ", 'counters': "
  +:+ counters_text (pCounters p) +:+ "}".
(** A normal pool that is nil panics. *)
Definition poolz_JSON {E} (z : Poolz) : res E string :=
  match zNormal z with
  | None => Panic
  | Some n => Ok (pool_JSON n +:+ match zReplica z with Some r => ", " +:+ pool_JSON r | None => "" end)
  end.

(** The settings it shows *)
Definition conf_show (s : Server) : json :=
  let p := cfProxy (svConf s) in
  JObj [("max-connections", JNum (pfMaxConnections p)); ("max-result-size", JNum (pfMaxResultSize p)); ("max-join-rows", JNum (pfMaxJoinRows p));
        ("ddl-timeout", JNum (pfDDLTimeout p)); ("query-timeout", JNum (pfQueryTimeout p)); ("twopc-enable", JBool (pfTwopcEnable p));
        ("allow-ip", enc_strs (pfIPS p)); ("audit-log-mode", JStr (afMode (cfAudit (svConf s)))); ("readonly", JBool (svReadOnly s));
        ("throttle", JNum (svLimit s))].

Section status.
Context `{R : MapRange, SV : Servers}.
(** The text of JSON and of the rates *)
Variable (text : json -> string) (rates : string).

Definition status_query : string :=
  "select count(0), round((sum(data_length) + sum(index_length)) / 1024/ 1024, 0)  from information_schema.TABLES  where table_schema not in ('sys', 'information_schema', 'mysql', 'performance_schema')".
(** [backShowFunc] *)
Definition back_show (backend : string) (rows : Rows) : AM string :=
  ts ← (match rows with
        | [] => mret ("0", "0MB")
        | r :: _ => n ← cell r 0; d ← cell r 1; mret (n, if decide (d = "") then "0MB" else d +:+ "MB")
        end);
  mret ("{'name': '" +:+ backend +:+ "', 'tables': '" +:+ fst ts +:+ "', 'datasize':'" +:+ snd ts +:+ "'}").
(** The loop over the backends: one that fails is left out. *)
Fixpoint back_shows (backends : list string) : AM (list string) :=
  match backends with
  | [] => mret []
  | b :: bs =>
      x ← mtry (adm_exec (ToBackend b) status_query);
      l ← (match x with inl rows => t ← back_show b rows; mret [t] | inr _ => mret [] end);
      ls ← back_shows bs;
      mret (l ++ ls)
  end.
(** [handleShowStatus] *)
Definition handleShowStatus (p : PrivSt) (user : string) (sv : Server) : AM Rows :=
  if negb (IsSuperPriv user p) then mfail (AdDenied user)
  else
    s ← mget;
    pools ← mlift (res_map (fun kv => match wPoolz (adWorld s) !! snd kv with Some z => poolz_JSON z | None => Panic end) (map_range (PoolzClone (adWorld s))));
    backs ← back_shows (AllBackends (adWorld s));
    mret [["radon_rate"; rates]; ["radon_config"; text (conf_show sv)]; ["radon_transaction"; counters_text (wCounters (adWorld s))];
          ["radon_backendpool"; text (JObj [("Pools", enc_strs (sort_Strings pools))])];
          ["radon_backend"; text (JObj [("Backends", enc_strs (sort_Strings backs))])]].
End status.
