(* ===== verification/ListingProps.v ===== *)
(** * Properties of the listings *)
From S2P Require Import Prelude GoStd Config Pool Xcontext Partition Compute Router Frm Scatter Txn Session Shift Admin Privilege Auth Settings Listing.
Open Scope string_scope.
Open Scope list_scope.
Open Scope Z_scope.

(** ** Queries *)
Definition in_progress (es : list QExec) : list QueryDetail := omap (fun e => match e with QRun qd => Some qd | _ => None end) es.
Definition begun (es : list QExec) : nat := length (omap (fun e => match e with QRun _ | QDone => Some tt | _ => None end) es).
Definition details (qz : Queryz) : list QueryDetail := snd <$> map_to_list (qzDetails qz).

(** The table holds the running queries under their ids, which are the counter's. *)
Definition qz_inv (s : Queryz * list QExec) : Prop :=
  details (fst s) ≡ₚ in_progress (snd s)
  /\ qzID (fst s) = Z.of_nat (begun (snd s))
  /\ map_Forall (fun id qd => qdID qd = id /\ 1 <= id <= qzID (fst s)) (qzDetails (fst s)).

Lemma begun_length es : (begun es <= length es)%nat.
Proof. unfold begun. induction es as [|[] es IH]; cbn; lia. Qed.
Lemma begun_app l1 l2 : begun (l1 ++ l2) = (begun l1 + begun l2)%nat.
Proof. unfold begun. by rewrite omap_app, length_app. Qed.
Lemma begun_cons e l : begun (e :: l) = (match e with QRun _ | QDone => 1 | _ => 0 end + begun l)%nat.
Proof. by destruct e. Qed.

Lemma lookup_split {A} (l : list A) i x : l !! i = Some x -> exists l1 l2, l = l1 ++ x :: l2 /\ forall y, <[i := y]> l = l1 ++ y :: l2.
Proof.
  intros H. exists (take i l), (drop (S i) l). pose proof (lookup_lt_Some _ _ _ H). split; [by rewrite take_drop_middle|].
  intros y. by apply insert_take_drop.
Qed.

Lemma add_inv qz l1 qd l2 : Z.of_nat (length (l1 ++ QWait qd :: l2)) < 2 ^ 64 -> qz_inv (qz, l1 ++ QWait qd :: l2) ->
  let (qz', qd') := queryz_Add qd qz in qz_inv (qz', l1 ++ QRun qd' :: l2).
Proof.
  intros Hlen (Hd & Hid & Hk). cbn [fst snd] in *.
  assert (wrap 64 (qzID qz + 1) = qzID qz + 1) as Hw.
  { unfold wrap. apply Z.mod_small. rewrite Hid, begun_app, begun_cons. rewrite length_app in Hlen. cbn in Hlen.
    pose proof (begun_length l1). pose proof (begun_length l2). lia. }
  unfold queryz_Add. cbv zeta. rewrite Hw.
  assert (qzDetails qz !! (qzID qz + 1) = None) as Hnone.
  { destruct (qzDetails qz !! (qzID qz + 1)) as [q|] eqn:Hq; [|done]. apply Hk in Hq as [_ Hq]. lia. }
  split; [|split]; cbn [fst snd qzID qzDetails queryz_Remove].
  - unfold details. cbn. rewrite map_to_list_insert by done. cbn. unfold details in Hd. rewrite Hd. unfold in_progress. rewrite !omap_app. cbn. by apply Permutation_middle.
  - rewrite Hid, !begun_app, !begun_cons. lia.
  - apply map_Forall_insert; [done|]. split; [cbn; lia|]. eapply map_Forall_impl; [exact Hk|]. cbn. intros id q [H1 H2]. split; [done|lia].
Qed.
Lemma remove_inv qz l1 qd l2 : qz_inv (qz, l1 ++ QRun qd :: l2) -> qz_inv (queryz_Remove qd qz, l1 ++ QDone :: l2).
Proof.
  intros (Hd & Hid & Hk). cbn [fst snd] in *.
  assert (qzDetails qz !! qdID qd = Some qd) as Hq.
  { assert (qd ∈ details qz) as Hin. { rewrite Hd. unfold in_progress. rewrite omap_app. cbn. apply elem_of_app. right. left. }
    unfold details in Hin. apply list_elem_of_fmap in Hin as ([id q] & -> & Hin). apply elem_of_map_to_list in Hin. cbn.
    by rewrite (proj1 (Hk _ _ Hin)). }
  split; [|split]; cbn [fst snd qzID qzDetails queryz_Remove].
  - unfold details in *. cbn. rewrite <- (map_to_list_delete _ _ _ Hq) in Hd. cbn in Hd. unfold in_progress in *. rewrite omap_app in *. cbn in *.
    by apply Permutation_cons_app_inv in Hd.
  - by rewrite Hid, !begun_app, !begun_cons.
  - by apply map_Forall_delete.
Qed.
Lemma execs_step_inv i s : Z.of_nat (length (snd s)) < 2 ^ 64 -> qz_inv s -> qz_inv (execs_step i s) /\ length (snd (execs_step i s)) = length (snd s).
Proof.
  destruct s as [qz es]. cbn. intros Hlen Hinv. unfold execs_step. cbn. destruct (es !! i) as [e|] eqn:He; [|done].
  apply lookup_split in He as (l1 & l2 & -> & Hins).
  assert (forall e', in_progress [e] = [] -> in_progress [e'] = [] -> begun [e'] = begun [e] ->
    qz_inv (qz, l1 ++ e' :: l2) /\ length (l1 ++ e' :: l2) = length (l1 ++ e :: l2)) as Hsame.
  { intros e' H1 H2 H3. split; [|by rewrite !length_app]. destruct Hinv as (Hd & Hid & Hk). split; [|split]; cbn [fst snd] in *; [| |done].
    - rewrite Hd. unfold in_progress in *. rewrite !omap_app. change (e :: l2) with ([e] ++ l2). change (e' :: l2) with ([e'] ++ l2).
      by rewrite !omap_app, H1, H2.
    - rewrite Hid, !begun_app. change (e :: l2) with ([e] ++ l2). change (e' :: l2) with ([e'] ++ l2). rewrite !begun_app. lia. }
  destruct e as [qd|qd| |qd|qd|]; cbn -[queryz_Add].
  - pose proof (add_inv _ _ _ _ Hlen Hinv) as H. destruct (queryz_Add qd qz) as [qz' qd']. rewrite Hins. split; [done|]. cbn [snd]. by rewrite !length_app.
  - rewrite Hins. split; [by apply remove_inv|]. cbn [snd]. by rewrite !length_app.
  - rewrite Hins. done.
  - rewrite Hins. by apply Hsame.
  - rewrite Hins. by apply Hsame.
  - rewrite Hins. done.
Qed.
Lemma execs_run_inv sched s : Z.of_nat (length (snd s)) < 2 ^ 64 -> qz_inv s -> qz_inv (execs_run sched s).
Proof.
  revert s. induction sched as [|i sched IH]; intros s Hlen Hinv; [done|]. cbn.
  destruct (execs_step_inv i s Hlen Hinv) as [H1 H2]. apply IH; [lia|done].
Qed.
(** Before and after its query. *)
Definition waiting (e : QExec) : Prop := match e with QWait _ | QSWait _ => True | _ => False end.
Definition ended (e : QExec) : Prop := match e with QDone | QSDone => True | _ => False end.
Lemma in_progress_waiting es : Forall waiting es -> in_progress es = [].
Proof. induction 1 as [|[] es He _ IH]; try done. Qed.
Lemma in_progress_ended es : Forall ended es -> in_progress es = [].
Proof. induction 1 as [|[] es He _ IH]; try done. Qed.
Lemma begun_waiting es : Forall waiting es -> begun es = 0%nat.
Proof. induction 1 as [|[] es He _ IH]; try done. Qed.

(** What runs at a place is the query that waited there, with an id if it is
    executed for its whole result. *)
Definition same_query (a b : QueryDetail) : Prop :=
  qdConn a = qdConn b /\ qdAddress a = qdAddress b /\ qdQuery a = qdQuery b /\ qdStart a = qdStart b.
Definition goes_on (e0 e : QExec) : Prop :=
  match e0 with
  | QWait qd => match e with QWait q | QRun q => same_query q qd | QDone => True | _ => False end
  | QSWait qd => match e with QSWait q | QSRun q => same_query q qd | QSDone => True | _ => False end
  | _ => True
  end.
Lemma execs_run_from es0 sched s : Forall2 goes_on es0 (snd s) -> Forall2 goes_on es0 (snd (execs_run sched s)).
Proof.
  revert s. induction sched as [|i sched IH]; intros [qz es] H; [done|]. cbn [execs_run foldl]. apply IH. unfold execs_step. cbn.
  destruct (es !! i) as [e|] eqn:He; [|done]. destruct (Forall2_lookup_r _ _ _ _ _ H He) as (e0 & He0 & Hq).
  rewrite <- (list_insert_id es0 i e0 He0). destruct e; cbn; apply Forall2_insert; try done; by destruct e0.
Qed.
Lemma goes_on_start es : Forall waiting es -> Forall2 goes_on es es.
Proof. intros H. apply Forall_Forall2_diag. eapply Forall_impl; [exact H|]. by intros []. Qed.

Lemma substring_length n s : (String.length (String.substring 0 n s) <= n)%nat.
Proof. revert s. induction n as [|n IH]; intros [|c s]; cbn; try lia. specialize (IH s). lia. Qed.
(** A query is shown up to 256 bytes, and a mark. *)
Lemma NewQueryDetail_total {E} conn address query now : exists qd, NewQueryDetail (E := E) conn address query now = Ok qd
  /\ qdID qd = 0 /\ (String.length (qdQuery qd) <= 268)%nat.
Proof.
  unfold NewQueryDetail, TruncateQuery. change (256 =? 0) with false. cbn [orb]. destruct (_ <=? _) eqn:Hl.
  - eexists. split; [reflexivity|]. cbn. split; [done|]. lia.
  - change (256 <? 0) with false. eexists. split; [reflexivity|]. split; [done|]. cbn [qdQuery]. rewrite string_length_app.
    pose proof (substring_length (Z.to_nat 256) query). cbn [String.length]. lia.
Qed.

Section props.
Context `{SK : SortKey, SKO : !SortKeyOk SK, DI : DrvInfo}.

(** C34: The list of running queries is exact for queries that are executed for
    their whole result.  However the goroutines interleave (those of
    [ExecuteWithLimits] enter their query, send it and remove it, those of
    [ExecuteStreamFetch] send and read theirs without entering it), as long as
    there are fewer than 2^64 of them the rows are, one for one, the queries
    that [ExecuteWithLimits] is executing at that moment, with the connection,
    address, text and start of each, in the order of their starts; when all
    have ended there is none.  Streamed queries are not among them
    ([streamed_not_listed]). *)
Theorem queryz_exact now es0 sched qz es :
  Z.of_nat (length es0) < 2 ^ 64 -> Forall waiting es0 -> execs_run sched (NewQueryz, es0) = (qz, es) ->
  GetQueryzRows now qz ≡ₚ query_row now <$> in_progress es
  /\ StronglySorted (fun a b => qrStart a <= qrStart b) (GetQueryzRows now qz)
  /\ Forall2 goes_on es0 es
  /\ (Forall ended es -> GetQueryzRows now qz = []).
Proof.
  intros Hlen Hw Hrun. assert (qz_inv (qz, es)) as (Hd & _ & _).
  { rewrite <- Hrun. apply execs_run_inv; cbn [snd]; [done|].
    split; [|split]; cbn [fst snd]; [by rewrite in_progress_waiting|by rewrite begun_waiting|]. apply map_Forall_empty. }
  cbn in Hd. assert (GetQueryzRows now qz ≡ₚ query_row now <$> in_progress es) as Hp.
  { unfold GetQueryzRows. rewrite sort_key_perm. by apply fmap_Permutation. }
  split; [done|]. split; [apply sort_key_sorted|]. split.
  - pose proof (execs_run_from es0 sched (NewQueryz, es0) (goes_on_start es0 Hw)) as H. by rewrite Hrun in H.
  - intros Hdone. rewrite (in_progress_ended _ Hdone) in Hp. by apply Permutation_nil_r in Hp.
Qed.

Lemma filter_every {A} (l : list A) : filter (fun _ => true || false = true) l = l.
Proof. induction l as [|x l IH]; [done|]. rewrite filter_cons_True by done. by rewrite IH. Qed.
(** The sessions a user may see *)
Definition visible (p : PrivSt) (user : string) (ss : session) : bool := IsSuperPriv user p || bool_decide (dvUser (seDrv ss) = user).
Lemma listed_all now (m : gmap Z session) : Snapshot now m ≡ₚ sess_info now <$> (snd <$> map_to_list m).
Proof. unfold Snapshot. apply sort_key_perm. Qed.

(** A user sees its own sessions, and only a user with the super
    privilege the others.  SHOW PROCESSLIST always answers, with one row for
    every session the user may see and no other, in the order of the ids;
    SHOW QUERYZ and SHOW TXNZ, which show the statements and transactions of
    every user, are refused without the privilege. *)
Theorem listings_private p user now (m : gmap Z session) (qz : Queryz) (tz : gmap Z (Txn * Z)) stamp span :
  (exists infos, handleShowProcesslist p user now m = Ok (process_row <$> infos)
     /\ infos ≡ₚ sess_info now <$> filter (fun ss => visible p user ss = true) (snd <$> map_to_list m)
     /\ StronglySorted (fun a b => ssID a <= ssID b) infos)
  /\ (IsSuperPriv user p = false -> handleShowQueryz stamp span p user now qz = Err LsDenied /\ handleShowTxnz stamp span p user now tz = Err LsDenied).
Proof.
  split.
  - unfold handleShowProcesslist, visible. destruct (IsSuperPriv user p); eexists (_ : list SessInfo); (split; [reflexivity|]); (split; [|apply sort_key_sorted]).
    + rewrite listed_all. f_equiv. by rewrite filter_every.
    + unfold SnapshotUser. rewrite sort_key_perm. f_equiv. apply reflexive_eq, list_filter_iff. intros ss. cbn. by rewrite bool_decide_eq_true.
  - intros H. unfold handleShowQueryz, handleShowTxnz. by rewrite H.
Qed.
End props.

(** ** Examples *)
Definition by_key {A} (key : A -> Z) (a b : A) : Prop := key a <= key b.
#[export] Instance by_key_dec {A} (key : A -> Z) : RelDecision (by_key key) := fun a b => decide_rel Z.le _ _.
#[export] Instance by_key_total {A} (key : A -> Z) : Total (by_key key).
Proof. intros a b. unfold by_key. lia. Qed.
#[export] Instance by_key_trans {A} (key : A -> Z) : Transitive (by_key key).
Proof. intros a b c. unfold by_key. lia. Qed.
#[export] Instance merge_key : SortKey := {| sort_key A key l := merge_sort (by_key key) l |}.
#[export] Instance merge_key_ok : SortKeyOk merge_key.
Proof. split; intros A key l; [apply merge_sort_Permutation|]. apply (StronglySorted_merge_sort (by_key key)). Qed.
Definition no_info : DrvInfo := {| drv_addr _ := "h"; drv_schema _ := "d" |}.
Definition detail_example (conn start : Z) : QueryDetail := mkQueryDetail 0 conn "b1" "select 1" start.

Lemma queryz_exact_witness :
  let es0 := [QWait (detail_example 7 30); QWait (detail_example 8 20); QWait (detail_example 9 10); QSWait (detail_example 5 15)] in
  exists qz es, execs_run [0; 1; 3; 0; 2]%nat (NewQueryz, es0) = (qz, es)
    /\ (qrConnID <$> GetQueryzRows 50 qz) = [9; 8] /\ GetQueryzRows 50 qz ≡ₚ query_row 50 <$> in_progress es.
Proof.
  intros es0. do 2 eexists. split; [reflexivity|]. split; [vm_compute; reflexivity|].
  exact (proj1 (queryz_exact 50 es0 [0; 1; 3; 0; 2]%nat _ _ ltac:(done) ltac:(repeat constructor) eq_refl)).
Defined.

(** A streamed query runs and is not listed. *)
Theorem streamed_not_listed qd now : exists qz,
  execs_run [0]%nat (NewQueryz, [QSWait qd]) = (qz, [QSRun qd]) /\ GetQueryzRows now qz = [].
Proof. eexists. split; reflexivity. Qed.
Definition sess_example (id : Z) (user : string) : session := mkSession None "" (mkDrv id user 0) 0 0 None.
Lemma listings_private_witness :
  let p := mkPrivSt ∅ [] [] in let m : gmap Z session := list_to_map [(1, sess_example 1 "a"); (2, sess_example 2 "b")] in
  IsSuperPriv "a" p = false
  /\ (exists infos, @handleShowProcesslist merge_key no_info p "a" 5 m = Ok (process_row <$> infos) /\ infos = [mkSessInfo 1 "a" "h" "d" "Sleep" 5 "" ""])
  /\ @handleShowQueryz merge_key Itoa Itoa p "a" 5 NewQueryz = Err LsDenied.
Proof.
  intros p m. split; [reflexivity|].
  destruct (@listings_private merge_key merge_key_ok no_info p "a" 5 m NewQueryz ∅ Itoa Itoa) as [_ Hq].
  split; [by exists [mkSessInfo 1 "a" "h" "d" "Sleep" 5 "" ""]|]. exact (proj1 (Hq eq_refl)).
Defined.

(** The pool of a backend without an address is nil, and SHOW STATUS panics on it. *)
Lemma no_address_status_panics {E} conf s1 s2 now : bcAddress conf = "" -> poolz_JSON (E := E) (NewPoolz conf s1 s2 now) = Panic.
Proof. intros H. unfold poolz_JSON, NewPoolz, NewPool. cbn. by rewrite decide_True. Qed.
(** A user without the privilege is refused before anything is sent. *)
Lemma show_status_denied `{R : MapRange, SV : Servers} text rates p user sv s :
  IsSuperPriv user p = false -> handleShowStatus text rates p user sv s = (Err (AdDenied user), s).
Proof. intros H. unfold handleShowStatus. by rewrite H. Qed.
