(* ===== verification/Ctl.v ===== *)
(** * Handlers of the administration interface (src/ctl/v1: backend.go, user.go, peer.go, meta.go, ping.go, backendz.go, configz.go)

    A handler decodes the body of a request, calls the proxy and answers with a
    status.  Statements go to the backends through the interface [Servers];
    what was sent is recorded. *)
From S2P Require Import Prelude GoStd Config Pool Xcontext Partition Compute Router Frm Scatter Shift Admin Auth Settings Syncer.
Open Scope string_scope.
Open Scope list_scope.
Open Scope Z_scope.

Abbreviation http204 := 204.
Abbreviation http503 := 503.

(** [if err := m(); err != nil { rest.Error(w, err.Error(), status); return }] *)
Definition answer_or (status : Z) {S E A} (m : M S E A) : M S E Z :=
  x ← mtry m; mret (match x with inl _ => http200 | inr _ => status end).

Section ctl.
Context `{R : MapRange, SV : Servers}.

(** ** Backends (backend.go) *)

(** [backendParams], as the configuration the handler makes of it *)
Definition backend_params (o : list (string * json)) : CR BackendConfig :=
  name ← get dec_str "name" "" o;
  address ← get dec_str "address" "" o;
  replica ← get dec_str "replica-address" "" o;
  user ← get dec_str "user" "" o;
  password ← get dec_str "password" "" o;
  conns ← get dec_int "max-connections" 0 o;
  Ok (mkBackendConfig name address replica user password "" "utf8" conns NormalBackend).

(** [initBackend] *)
Definition create_db (db : string) : string := "create database " +:+ db.
Definition initBackend (backend : string) : AM unit :=
  s ← mget;
  miter (fun kv => _ ← adm_exec (ToBackend backend) (create_db (fst kv)); mret tt) (map_range (Tables (adRouter s))).

(** [addBackendHandler] *)
Definition addBackendHandler (body : option json) : AM Z :=
  match DecodeJsonPayload backend_params body with
  | Ok conf => answer_or http500 (_ ← in_bk (scatter_Add conf); _ ← in_bk scatter_FlushConfig; initBackend (bcName conf))
  | _ => mret http500
  end.
(** [removeBackendHandler] *)
Definition removeBackendHandler (name : string) : AM Z :=
  answer_or http500 (_ ← in_bk (scatter_Remove (mkBackendConfig name "" "" "" "" "" "" 0 NormalBackend)); in_bk scatter_FlushConfig).
(** [backendzHandler] *)
Definition backendzHandler : AM (list BackendConfig) := s ← mget; mret (BackendConfigsClone (adWorld s)).

(** ** Users (user.go) *)
Record userParams := mkUserParams { upDatabases : string; upUser : string; upPassword : string; upPrivilege : string }.
Definition user_params (o : list (string * json)) : CR userParams :=
  databases ← get dec_str "databases" "" o;
  user ← get dec_str "user" "" o;
  password ← get dec_str "password" "" o;
  privilege ← get dec_str "privilege" "" o;
  Ok (mkUserParams databases user password privilege).
Definition grant_query (priv db user password : string) : string :=
  "GRANT " +:+ priv +:+ " ON " +:+ db +:+ ".* TO '" +:+ user +:+ "'@'%' IDENTIFIED BY '" +:+ password +:+ "'".
(** The databases of the request *)
Definition user_databases (databases : string) : list string :=
  Split "," (TrimSuffix (if decide (databases = "") then "*" else databases) ",").
(** [createUserHandler] *)
Definition createUserHandler (body : option json) : AM Z :=
  match DecodeJsonPayload user_params body with
  | Ok p =>
      if decide (upUser p = "" \/ upPassword p = "") then mret http204
      else
        let priv := if decide (upPrivilege p = "") then "ALL" else upPrivilege p in
        answer_or http503 (miter (fun db => _ ← adm_exec ToAll (grant_query priv db (upUser p) (upPassword p)); mret tt) (user_databases (upDatabases p)))
  | _ => mret http500
  end.
(** [alterUserHandler], [dropUserHandler] *)
Definition alterUserHandler (body : option json) : AM Z :=
  match DecodeJsonPayload user_params body with
  | Ok p => answer_or http503 (adm_exec ToAll ("ALTER USER '" +:+ upUser p +:+ "'@'%' IDENTIFIED BY '" +:+ upPassword p +:+ "'"))
  | _ => mret http500
  end.
Definition dropUserHandler (body : option json) : AM Z :=
  match DecodeJsonPayload user_params body with
  | Ok p => answer_or http503 (adm_exec ToAll ("DROP USER '" +:+ upUser p +:+ "'@'%'"))
  | _ => mret http500
  end.
(** The users of the answer *)
Fixpoint user_rows (rows : Rows) : AM Rows :=
  match rows with
  | [] => mret []
  | r :: rows => u ← cell r 0; h ← cell r 1; p ← cell r 2; rs ← user_rows rows; mret ([u; h; p] :: rs)
  end.
(** [userzHandler]; [pick] is [rand.Intn], which panics on zero. *)
Definition userzHandler (pick : nat -> nat) : AM (Z * Rows) :=
  s ← mget;
  match Backends (adWorld s) with
  | [] => mpanic
  | bs =>
      match bs !! pick (length bs) with
      | None => mpanic
      | Some b =>
          x ← mtry (adm_exec (ToBackend b) "SELECT User,Host,Super_priv FROM mysql.user");
          match x with
          | inr _ => mret (http503, [])
          | inl rows =>
              users ← user_rows rows;
              mret (http200, users)
          end
      end
  end.
(** [pingHandler] *)
Definition pingHandler : AM Z := answer_or http503 (adm_exec ToAll "select 1").
End ctl.

(** ** Peers and metadata (peer.go, meta.go) *)
Section peers.
Context `{MJ : MetaJson}.
Definition addPeerHandler (body : option json) : YM Z :=
  match DecodeJsonPayload (get dec_str "address" "") body with Ok a => answer_or http500 (Peer_Add a) | _ => mret http500 end.
Definition removePeerHandler (body : option json) : YM Z :=
  match DecodeJsonPayload (get dec_str "address" "") body with Ok a => answer_or http500 (Peer_Remove a) | _ => mret http500 end.
Definition peerzHandler (s : Syncer) : list string := Peer_Clone s.
Definition versionzHandler (s : Syncer) : Z := MetaVersion s.
Definition versionCheckHandler (vget : string -> reply Z) (s : Syncer) : bool * list string := MetaVersionCheck vget s.
End peers.

(** ** What the handlers do *)

Lemma answer_or_run {S E A} status (m : M S E A) s x s' : m s = (x, s') ->
  answer_or status m s = (match x with Ok _ => Ok http200 | Err _ => Ok status | Panic => Panic end, s').
Proof. intros H. unfold answer_or, mbind, M_bind, mtry. rewrite H. by destruct x. Qed.

(** One statement for every element, until one fails *)
Section send.
Context `{SV : Servers}.
Variable (t : Target).
Fixpoint sent_until (h : list (Target * string)) (qs : list string) : list (Target * string) * bool :=
  match qs with
  | [] => (h, true)
  | q :: qs => match ask h t q with Some _ => sent_until (h ++ [(t, q)]) qs | None => (h ++ [(t, q)], false) end
  end.
Lemma miter_send {A} (q : A -> string) xs s :
  miter (fun x => _ ← adm_exec t (q x); mret tt) xs s
  = (if snd (sent_until (adSent s) (q <$> xs)) then Ok tt else Err AdExec, mkAdSt (adRouter s) (adWorld s) (fst (sent_until (adSent s) (q <$> xs)))).
Proof.
  revert s. induction xs as [|x xs IH]; intros s; [by destruct s|]. cbn [miter fmap list_fmap sent_until].
  pose proof (eq_refl (adm_exec t (q x) s)) as Hx. unfold adm_exec in Hx at 2. destruct (ask (adSent s) t (q x)) as [rows|].
  - erewrite M_bind_Ok by (erewrite M_bind_Ok by exact Hx; reflexivity). by rewrite IH.
  - erewrite M_bind_Err by (erewrite M_bind_Err by exact Hx; reflexivity). done.
Qed.
Lemma sent_until_prefix h qs : exists qs', qs' `prefix_of` qs /\ fst (sent_until h qs) = h ++ ((fun q => (t, q)) <$> qs')
  /\ (snd (sent_until h qs) = true -> qs' = qs).
Proof.
  revert h. induction qs as [|q qs IH]; intros h; cbn.
  - exists []. split; [done|]. by rewrite app_nil_r.
  - destruct (ask h t q).
    + destruct (IH (h ++ [(t, q)])) as (qs' & H1 & H2 & H3). exists (q :: qs'). split; [by apply prefix_cons|]. split.
      * by rewrite H2, <- app_assoc.
      * intros H. by rewrite (H3 H).
    + exists [q]. split; [by apply prefix_cons, prefix_nil|]. done.
Qed.
End send.

(** A user is granted the databases of the request in order, up to the first
    one that fails: status 200 means that every one was granted. *)
Lemma create_user_grants `{SV : Servers} o p s : user_params o = Ok p -> upUser p <> "" -> upPassword p <> "" ->
  let priv := if decide (upPrivilege p = "") then "ALL" else upPrivilege p in
  let qs := (fun db => grant_query priv db (upUser p) (upPassword p)) <$> user_databases (upDatabases p) in
  createUserHandler (Some (JObj o)) s
  = (Ok (if snd (sent_until ToAll (adSent s) qs) then http200 else http503), mkAdSt (adRouter s) (adWorld s) (fst (sent_until ToAll (adSent s) qs))).
Proof.
  intros Hp Hu Hw priv qs. unfold createUserHandler. cbn [DecodeJsonPayload]. rewrite Hp, decide_False by naive_solver.
  cbv zeta. fold priv. rewrite (answer_or_run _ _ _ _ _ (miter_send _ _ _ _)). fold qs. by destruct (snd (sent_until ToAll (adSent s) qs)).
Qed.

(** A backend is added, written to the file and then prepared: when a database
    cannot be created the answer is 500 and the backend stays. *)
Lemma add_backend_not_undone `{R : MapRange, SV : Servers} o conf s w1 w2 :
  backend_params o = Ok conf -> scatter_Add conf (adWorld s) = (Ok tt, w1) -> scatter_FlushConfig w1 = (Ok tt, w2) ->
  let qs := (fun kv => create_db (fst kv)) <$> map_range (Tables (adRouter s)) in
  let sent := sent_until (ToBackend (bcName conf)) (adSent s) qs in
  addBackendHandler (Some (JObj o)) s = (Ok (if snd sent then http200 else http500), mkAdSt (adRouter s) w2 (fst sent)).
Proof.
  intros Hp Ha Hf qs sent. unfold addBackendHandler. cbn [DecodeJsonPayload]. rewrite Hp.
  assert (forall A (m : WM A) x w w' h, m w = (Ok x, w') -> in_bk m (mkAdSt (adRouter s) w h) = (Ok x, mkAdSt (adRouter s) w' h)) as Hin.
  { intros A m x w w' h Hm. unfold in_bk. cbn. by rewrite Hm. }
  destruct s as [r w h]. cbn in *. erewrite answer_or_run; [|erewrite M_bind_Ok by (by apply Hin); erewrite M_bind_Ok by (by apply Hin);
    unfold initBackend; erewrite M_bind_Ok by reflexivity; apply miter_send].
  cbn. fold qs. fold sent. by destruct (snd sent).
Qed.
(** Without a backend the choice of one panics. *)
Lemma userz_no_backends `{R : MapRange, SV : Servers} pick s : Backends (adWorld s) = [] -> fst (userzHandler pick s) = Panic.
Proof. intros H. unfold userzHandler, mbind, M_bind, mget. cbn. by rewrite H. Qed.
