(* ===== verification/Explain.v ===== *)
(** * EXPLAIN and the dispatch of plans (src/optimizer/simple_optimizer.go, src/planner: planner.go and the JSON of the plans, src/proxy/explain.go)

    The optimizer makes the plan of a statement; EXPLAIN shows it instead of
    executing it.  What is shown is the record that is printed as JSON.  *)
From S2P Require Import Prelude GoStd Config Xcontext Partition Compute Router Sql PlanExpr PlanDml PlanDdl Join Operators Engine PlanSelect PlanTree PlanPush PlanBuild PlanQuery.
Open Scope string_scope.
Open Scope list_scope.
Open Scope Z_scope.

(** ** The plans of a statement (simple_optimizer.go) *)

(** The statements the optimizer tells apart. *)
Inductive Statement :=
| SDDL (n : DDL) | SInsert (n : Insert) | SDelete (n : Delete) | SUpdate (n : Update) | SSelect (n : Select)
| SUnion (typ : string) (l r : SelectStmt) (os : list Order) (limit : option Limit) | SOther (n : OtherStmt) | SElse.
Inductive operr := OpPlan (e : perr) | OpDdl (e : derr) | OpUnsupported | OpSyntax | OpDenied | OpAutoinc.
Definition op_plan {A} (x : res perr A) : res operr A := match x with Ok a => Ok a | Err e => Err (OpPlan e) | Panic => Panic end.
Definition op_ddl {A} (x : res derr A) : res operr A := match x with Ok a => Ok a | Err e => Err (OpDdl e) | Panic => Panic end.

Section optimizer.
Context {V T : Type} `{VV : Values V, J : JumpHash, IR : InMapRange, R : MapRange, RI : Rand, EP : ExprPrinter, SP : StmtPrinter V, PR : SqlPrinter, DP : DdlPrinter}.

(** [BuildPlanTree]: one plan, built; its mode is the default. *)
Definition BuildPlanTree (r : Router) (database query : string) (node : Statement) : res operr (list (Plan (V := V))) :=
  let plan qs := mkQueryPlan ReqNormal query qs in
  match node with
  | SDDL n => qs ← op_ddl (DDLPlan_Build r database n); Ok [PlanDDL (plan qs)]
  | SInsert n => qs ← op_plan (InsertPlan_Build database n r); Ok [PlanInsert (plan qs)]
  | SDelete n => x ← op_plan (DeletePlan_Build database n r); Ok [PlanDelete (plan (fst x))]
  | SUpdate n => qs ← op_plan (UpdatePlan_Build database n r); Ok [PlanUpdate (plan qs)]
  | SSelect n => root ← op_plan (SelectPlan_Build r database n); Ok [PlanSelect root]
  | SUnion typ lt rt os limit => root ← op_plan (UnionPlan_Build r database typ lt rt os limit); Ok [PlanUnion root]
  | SOther n => qs ← op_ddl (OthersPlan_Build r database n); Ok [PlanOthers (plan qs)]
  | SElse => Err OpUnsupported
  end.

(** ** What EXPLAIN shows (select_plan.go, union_plan.go, insert_plan.go, update_plan.go, delete_plan.go) *)

(** The record [explain]; [exJoin] has the type and the strategy. *)
Record Explain := mkExplain {
  exRawQuery : string; exProject : string; exPartitions : list QueryTuple; exJoin : option (string * string); exUnionType : option string;
  exAggregate : list string; exGatherMerge : list string; exHashGroupBy : list string; exLimit : option (Z * Z)
}.

(** [GetProject] *)
Definition GetProject (fields : list selectTuple) : string :=
  String.concat ", " ((fun t => if decide (stAlias t = "") then stField t else stAlias t) <$> fields).

(** [GetQuery] of the nodes *)
Fixpoint GetQuery (n : PlanNode V) : list QueryTuple :=
  match n with
  | MergeN m => mnQuerys m
  | JoinN _ _ l r | UnionN _ _ l r => GetQuery l ++ GetQuery r
  end.
Definition Children (n : PlanNode V) : list ChildPlan :=
  match n with MergeN m => mnChildren m | JoinN _ cs _ _ | UnionN _ cs _ _ => cs end.

(** The join at the root *)
Definition join_shown (n : PlanNode V) : option (string * string) :=
  match n with
  | JoinN j _ _ _ =>
      let strategy := match jnStrategy j with Cartesian => "Cartesian Join" | SortMerge => "Sort Merge Join" | NestLoop => "Nested Loop Join" end in
      let typ := if jnIsLeftJoin j then "LEFT JOIN" else match jnStrategy j with Cartesian => "CROSS JOIN" | _ => "INNER JOIN" end in
      Some (typ, strategy)
  | _ => None
  end.
Definition aggregate_shown (cs : list ChildPlan) : list string :=
  c ← cs; match c with ChildAggregate p => agField <$> apNormal p | _ => [] end.
Definition group_shown (cs : list ChildPlan) : list string :=
  c ← cs; match c with ChildAggregate p => agField <$> apGroup p | _ => [] end.
Definition order_shown (qualified : bool) (cs : list ChildPlan) : list string :=
  c ← cs; match c with
          | ChildOrderby p =>
              (fun o => if qualified && negb (bool_decide (obTable o = "")) then obTable o +:+ "." +:+ obField o else obField o) <$> opOrderBys p
          | _ => []
          end.
(** The last limit counts. *)
Definition limit_shown (cs : list ChildPlan) : option (Z * Z) :=
  foldl (fun l c => match c with ChildLimit p => Some (lpOffset p, lpLimit p) | _ => l end) None cs.

(** [SelectPlan.JSON], [UnionPlan.JSON]; [fields] are those of the root. *)
Definition select_JSON (query : string) (fields : list selectTuple) (root : PlanNode V) : Explain :=
  let cs := Children root in
  mkExplain query (GetProject fields) (GetQuery root) (join_shown root) None (aggregate_shown cs) (order_shown true cs) (group_shown cs) (limit_shown cs).
Definition union_JSON (query : string) (fields : list selectTuple) (root : PlanNode V) : Explain :=
  let cs := Children root in
  mkExplain query (GetProject fields) (GetQuery root) None (match root with UnionN typ _ _ _ => Some typ | _ => None end) [] (order_shown false cs) []
    (limit_shown cs).
(** [InsertPlan.JSON], [UpdatePlan.JSON], [DeletePlan.JSON] *)
Definition query_JSON (p : QueryPlan) : Explain := mkExplain (qpRawQuery p) "" (qpQuerys p) None None [] [] [] None.
Definition plan_JSON (query : string) (fields : list selectTuple) (p : Plan (V := V)) : option Explain :=
  match p with
  | PlanInsert p | PlanDelete p | PlanUpdate p => Some (query_JSON p)
  | PlanSelect root => Some (select_JSON query fields root)
  | PlanUnion root => Some (union_JSON query fields root)
  | PlanDDL _ | PlanOthers _ | PlanOfType _ => None
  end.

(** ** handleExplain (explain.go) *)

(** The fields of the root, as the builder left them. *)
Definition root_fields (r : Router) (database : string) (node : Statement) : list selectTuple :=
  let of_node n := match (x ← processNode r database n; n_getFields x) with Ok fs => fs | _ => [] end in
  match node with
  | SSelect n => of_node (StSelect n)
  | SUnion typ lt rt os limit => of_node (StUnion typ lt rt os limit)
  | _ => []
  end.
(** [allowed] is the answer of the privilege check, [process] the plugin of the automatic numbers. *)
Definition handleExplain (r : Router) (database query : string) (allowed : bool) (process : Insert -> option Insert) (node : Statement) : res operr (option Explain) :=
  if negb allowed then Err OpDenied
  else
    node ← (match node with
            | SInsert n => match process n with Some n => Ok (SInsert n) | None => Err OpAutoinc end
            | SSelect _ | SUnion _ _ _ _ _ | SDelete _ | SUpdate _ => Ok node
            | _ => Err OpSyntax
            end);
    plans ← BuildPlanTree r database query node;
    Ok (match plans with p :: _ => plan_JSON query (root_fields r database node) p | [] => None end).
End optimizer.
