(* ===== verification/ExplainProps.v ===== *)
(** * Properties of EXPLAIN

    EXPLAIN is truthful: the executor asks nothing that is not listed. *)
From Stdlib Require Import FunctionalExtensionality.
From S2P Require Import Prelude GoStd Config Xcontext Partition Compute Router Sql PlanExpr PlanDml PlanDdl Join JoinProps Operators OperatorsProps Engine EngineProps PlanSelect PlanTree PlanPush PlanBuild PlanQuery Explain.
Open Scope string_scope.
Open Scope list_scope.
Open Scope Z_scope.

(** ** EXPLAIN is truthful *)

Section truthful.
Context {V T : Type} `{VV : Values V, AR : Arith V T, GS : GoSort V, SC : Schedule V}.

(** Every leaf is sent split, not whole to some backend. *)
Fixpoint normal_leaves (n : PlanNode V) : bool :=
  match n with
  | MergeN m => match mnReqMode m with ReqNormal => true | _ => false end
  | JoinN _ _ l r | UnionN _ _ l r => normal_leaves l && normal_leaves r
  end.
(** No join binds values of its left side into the queries of its right side. *)
Fixpoint no_nest_loop (n : PlanNode V) : bool :=
  match n with
  | MergeN _ => true
  | JoinN j _ l r => match jnStrategy j with NestLoop => false | _ => no_nest_loop l && no_nest_loop r end
  | UnionN _ _ l r => no_nest_loop l && no_nest_loop r
  end.

(** Two transactions that answer alike every request whose queries are, up to [key], a part of [l]. *)
Definition agree {A} (key : QueryTuple -> A) (l : list QueryTuple) (tx1 tx2 : TxnExec V T) : Prop :=
  @MaxJoinRows V T tx1 = @MaxJoinRows V T tx2 /\
  forall q mode qs, sublist (key <$> qs) (key <$> l) -> @txn_exec V T tx1 (mkRequestContext q ReqNormal mode qs) = @txn_exec V T tx2 (mkRequestContext q ReqNormal mode qs).
Lemma agree_part {A} (key : QueryTuple -> A) l1 l tx1 tx2 : sublist l1 l -> agree key l tx1 tx2 -> agree key l1 tx1 tx2.
Proof. intros Hs [Hm H]. split; [done|]. intros q mode qs Hq. apply H. etrans; [done|]. by apply fmap_sublist. Qed.
Lemma agree_app {A} (key : QueryTuple -> A) l1 l2 tx1 tx2 : agree key (l1 ++ l2) tx1 tx2 -> agree key l1 tx1 tx2 /\ agree key l2 tx1 tx2.
Proof. intros H. split; (eapply agree_part; [|exact H]); [by apply sublist_inserts_r|by apply sublist_inserts_l]. Qed.

(** The place of a query *)
Definition query_place (q : QueryTuple) : string * string := (qtBackend q, qtRange q).
Lemma bind_querys_places (bindVars : gmap string V) ps qs qs' : bind_querys bindVars ps qs = Ok qs' -> query_place <$> qs' = query_place <$> qs.
Proof.
  revert qs qs'. induction ps as [|p ps IH]; intros qs qs' H; simpl in H; [by injection H as <-|].
  destruct (p bindVars) as [s|]; [|done]. destruct qs as [|q qs]; [done|]. destruct (bind_querys bindVars ps qs) as [rest| |] eqn:Hr; simpl in H; try done.
  injection H as <-. cbn. by rewrite (IH _ _ Hr).
Qed.

(** The engines are the same. *)
Lemma engines_agree tx1 tx2 n : normal_leaves n = true -> agree query_place (GetQuery n) tx1 tx2 -> BuildEngine (TX := tx1) n = BuildEngine (TX := tx2) n.
Proof.
  induction n as [m|j cs l IHl r IHr|typ cs l IHl r IHr]; cbn [normal_leaves GetQuery BuildEngine]; intros Hn H.
  - destruct (mnReqMode m) eqn:Hm; [|done|done]. destruct H as [_ H]. f_equal.
    + unfold merge_Execute. rewrite Hm. by rewrite H.
    + apply functional_extensionality. intros vars. apply functional_extensionality. intros w. unfold merge_execBindVars.
      destruct (bind_querys _ _ _) as [qs| |] eqn:Hq; [|done|done]. cbn [mbind res_bind].
      rewrite H; [done|]. by rewrite (bind_querys_places _ _ _ _ Hq).
    + apply functional_extensionality. intros vars. unfold merge_getFields. destruct (last (mnQuerys m)) as [q|] eqn:Hl; [|done].
      destruct (mnFieldQuery m vars) as [s|]; [|done]. apply H. cbn. apply last_Some in Hl as [l' ->]. rewrite fmap_app. by apply sublist_inserts_l.
  - apply andb_true_iff in Hn as [Hl Hr]. apply agree_app in H as [H1 H2]. rewrite (IHl Hl H1), (IHr Hr H2). by rewrite (proj1 H1).
  - apply andb_true_iff in Hn as [Hl Hr]. apply agree_app in H as [H1 H2]. by rewrite (IHl Hl H1), (IHr Hr H2).
Qed.
(** Without nested loops the texts are the listed ones too. *)
Lemma executions_agree tx1 tx2 n : normal_leaves n = true -> no_nest_loop n = true -> agree id (GetQuery n) tx1 tx2 ->
  pe_Execute (BuildEngine (TX := tx1) n) = pe_Execute (BuildEngine (TX := tx2) n).
Proof.
  induction n as [m|j cs l IHl r IHr|typ cs l IHl r IHr]; cbn [normal_leaves no_nest_loop GetQuery BuildEngine pe_Execute]; intros Hn Hs H.
  - destruct (mnReqMode m) eqn:Hm; [|done|done]. destruct H as [_ H]. unfold merge_Execute. rewrite Hm. by rewrite H.
  - apply andb_true_iff in Hn as [Hl Hr]. apply agree_app in H as [H1 H2]. unfold join_Execute.
    destruct (jnStrategy j); try done; apply andb_true_iff in Hs as [Hsl Hsr]; rewrite (IHl Hl Hsl H1), (IHr Hr Hsr H2); by rewrite (proj1 H1).
  - apply andb_true_iff in Hn as [Hl Hr]. apply andb_true_iff in Hs as [Hsl Hsr]. apply agree_app in H as [H1 H2].
    unfold union_Execute. by rewrite (IHl Hl Hsl H1), (IHr Hr Hsr H2).
Qed.

(** The places and, without nested loops, the queries that are asked are listed *)
Definition split_plan (p : Plan (V := V)) : bool :=
  match p with
  | PlanSelect n | PlanUnion n => normal_leaves n
  | PlanInsert p | PlanDelete p | PlanUpdate p => match qpReqMode p with ReqNormal => true | _ => false end
  | _ => false
  end.
Definition fixed_queries (p : Plan (V := V)) : bool := match p with PlanSelect n | PlanUnion n => no_nest_loop n | _ => true end.
End truthful.

(** C15: EXPLAIN is truthful.  Take the plan of a SELECT, UNION, INSERT, UPDATE
    or DELETE that is sent to shards, and two sets of backends that answer alike
    every request made of the partitions EXPLAIN lists: the plan executes alike
    on both, whatever else differs, so that the executor asks no backend and no
    partition that is not listed.  Without a nested-loop join alike means the
    very texts that are listed; with one, values of the left side are bound into
    the texts but backends and ranges are those of the list. *)
Theorem explain_truthful {V T} `{VV : Values V, AR : Arith V T, GS : GoSort V, SC : Schedule V} query fields (p : Plan (V := V)) ex (tx1 tx2 : TxnExec V T) :
  split_plan p = true -> plan_JSON query fields p = Some ex ->
  (agree query_place (exPartitions ex) tx1 tx2 -> executor_Execute (TX := tx1) p = executor_Execute (TX := tx2) p)
  /\ (fixed_queries p = true -> agree id (exPartitions ex) tx1 tx2 -> executor_Execute (TX := tx1) p = executor_Execute (TX := tx2) p).
Proof.
  intros Hn Hj.
  destruct p as [p|p|p|p|n|n|p|t]; try done; injection Hj as <-; cbn in Hn.
  1-3: destruct (qpReqMode p) eqn:Hm; try done; unfold executor_Execute, insert_Execute, delete_Execute, update_Execute, query_Execute; rewrite Hm;
    split; [intros [_ H]|intros _ [_ H]]; by apply H.
  all: split; [intros H; unfold executor_Execute, select_Execute, unions_Execute; by rewrite (engines_agree tx1 tx2 n Hn H)|].
  all: intros Hf H; by apply executions_agree.
Qed.

(** ** An example: a union of two shards, and backends that differ elsewhere *)
#[local] Existing Instance zval.
#[local] Existing Instance isort.
#[local] Existing Instance in_order.
Definition ex_leaf (q : QueryTuple) : PlanNode (option Z) := MergeN (mkMergeNode ReqNormal [q] [] (fun _ => None) "" []).
Definition ex_union : PlanNode (option Z) := UnionN "union all" [] (ex_leaf (mkQueryTuple "q1" "b1" "[0-64)")) (ex_leaf (mkQueryTuple "q2" "b2" "")).
Definition ex_tx (other : Z) : TxnExec (option Z) unit := {|
  txn_exec req := Ok (zres ((fun q => [Some (if decide (qtBackend q = "b1") then 1 else if decide (qtBackend q = "b2") then 2 else other)]) <$> rqQuerys req));
  MaxJoinRows := 100
|}.
Lemma agree_example l x y : Forall (fun q => qtBackend q = "b1" \/ qtBackend q = "b2") l -> agree query_place l (ex_tx x) (ex_tx y).
Proof.
  intros Hl. split; [done|]. intros q mode qs Hs. cbn. do 2 f_equal. apply list_fmap_ext. intros i q0 Hq. cbn.
  assert (query_place q0 ∈ query_place <$> l) as Hin.
  { eapply elem_of_sublist; [|exact Hs]. apply list_elem_of_fmap_2. by eapply list_elem_of_lookup_2. }
  apply list_elem_of_fmap in Hin as (q1 & Heq & Hin). rewrite Forall_forall in Hl. specialize (Hl _ Hin). injection Heq as Hb _. rewrite Hb.
  destruct Hl as [-> | ->]; reflexivity.
Qed.
Lemma explain_truthful_witness :
  exists ex, plan_JSON "u" [] (PlanUnion ex_union) = Some ex /\ (qtBackend <$> exPartitions ex) = ["b1"; "b2"]
    /\ executor_Execute (TX := ex_tx 7) (PlanUnion ex_union) = executor_Execute (TX := ex_tx 8) (PlanUnion ex_union).
Proof.
  eexists. split; [reflexivity|]. split; [reflexivity|].
  apply (proj1 (explain_truthful "u" [] (PlanUnion ex_union) _ (ex_tx 7) (ex_tx 8) eq_refl eq_refl)).
  apply agree_example. constructor; [by left|]. constructor; [by right|]. constructor.
Defined.
