(* ===== verification/SysSelect.v ===== *)
(** * SELECT from the system databases (src/proxy: selectsystem.go, do.go, help.go)

    The columns of a sharded table are those of its partitions: a SELECT from
    information_schema.COLUMNS that names a table and a schema is sent to the
    backend of the first partition, with the name of the partition in place of
    the table's.  Every other one goes to some backend as it is. *)
From S2P Require Import Prelude GoStd Config Pool Xcontext Partition Compute Router Frm Scatter Sql Shift Admin Privilege Show.
Open Scope string_scope.
Open Scope list_scope.
Open Scope Z_scope.

(** The comparisons of a condition, in the order of [Walk] *)
Fixpoint walk_cmps (e : Expr) : list (string * Expr * Expr) :=
  match e with
  | AndExpr l r | OrExpr l r => walk_cmps l ++ walk_cmps r
  | ParenExpr e => walk_cmps e
  | ComparisonExpr op l r esc => (op, l, r) :: walk_cmps l ++ walk_cmps r ++ match esc with Some x => walk_cmps x | None => [] end
  | SQLValE _ | NullVal | ColNameE _ => []
  | ValTuple es | Subquery es | Node _ es => List.concat (List.map walk_cmps es)
  | FuncExpr _ _ args => List.concat (List.map (fun a => match a with AliasedExpr e _ => walk_cmps e | _ => [] end) args)
  end.
(** [col = ...] *)
Definition names_col (col : string) (op : string) (l : Expr) : bool :=
  bool_decide (op = EqualStr) && match l with ColNameE c => EqualFold (cnName c) col | _ => false end.
(** The first walk: the last comparison with the column counts, also when it is with something else than a literal. *)
Definition sys_value (col : string) (e : Expr) : option SQLVal :=
  foldl (fun v c => if names_col col (fst (fst c)) (snd (fst c)) then match snd c with SQLValE v => Some v | _ => None end else v) None (walk_cmps e).
(** The second walk: below a comparison that is changed it does not go on. *)
Fixpoint sys_replace (part : string) (e : Expr) : Expr :=
  match e with
  | AndExpr l r => AndExpr (sys_replace part l) (sys_replace part r)
  | OrExpr l r => OrExpr (sys_replace part l) (sys_replace part r)
  | ParenExpr e => ParenExpr (sys_replace part e)
  | ComparisonExpr op l r esc =>
      if names_col "TABLE_NAME" op l then ComparisonExpr op l (SQLValE (mkSQLVal StrVal part)) esc
      else ComparisonExpr op (sys_replace part l) (sys_replace part r) (match esc with Some x => Some (sys_replace part x) | None => None end)
  | SQLValE v => SQLValE v
  | NullVal => NullVal
  | ColNameE c => ColNameE c
  | ValTuple es => ValTuple (List.map (sys_replace part) es)
  | Subquery es => Subquery (List.map (sys_replace part) es)
  | FuncExpr n d args => FuncExpr n d (List.map (fun a => match a with AliasedExpr e s => AliasedExpr (sys_replace part e) s | a => a end) args)
  | Node k es => Node k (List.map (sys_replace part) es)
  end.

Section system.
Context `{R : MapRange, J : JumpHash, SV : Servers}.

(** [handleSelectInformationschema]; [print] is the text of the statement with another condition. *)
Definition handleSelectInformationschema (print : Expr -> string) (query tbl : string) (where_ : option Expr) : AM Rows :=
  match where_ with
  | Some e =>
      if EqualFold tbl "COLUMNS" then
        match sys_value "TABLE_NAME" e, sys_value "TABLE_SCHEMA" e with
        | Some name, Some schema =>
            sg ← first_segment (svVal schema) (svVal name);
            adm_exec (ToBackend (sgBackend sg)) (print (sys_replace (sgTable sg) e))
        | _, _ => adm_exec ToOne query
        end
      else adm_exec ToOne query
  | None => adm_exec ToOne query
  end.
(** [handleSelectSystem] *)
Definition handleSelectSystem (print : Expr -> string) (query database table : string) (where_ : option Expr) : AM Rows :=
  if decide (ToUpper database = "INFORMATION_SCHEMA") then handleSelectInformationschema print query table where_ else adm_exec ToOne query.
(** [handleDo], [handleHelp] *)
Definition handleDo (query : string) : AM Rows := adm_exec ToOne query.
Definition handleHelp (query : string) : AM Rows := adm_exec ToOne query.
End system.

(** ** What is sent *)

Definition name_is (part : string) (c : string * Expr * Expr) : Prop :=
  names_col "TABLE_NAME" (fst (fst c)) (snd (fst c)) = true -> snd c = SQLValE (mkSQLVal StrVal part).
(** A condition without escapes *)
Fixpoint no_escapes (e : Expr) : bool :=
  match e with
  | AndExpr l r | OrExpr l r => no_escapes l && no_escapes r
  | ParenExpr e => no_escapes e
  | ComparisonExpr _ l r esc => match esc with Some _ => false | None => no_escapes l && no_escapes r end
  | SQLValE _ | NullVal | ColNameE _ => true
  | ValTuple es | Subquery es | Node _ es => forallb no_escapes es
  | FuncExpr _ _ args => forallb (fun a => match a with AliasedExpr e _ => no_escapes e | _ => true end) args
  end.

Lemma Forall_concat_map {A B} (P : B -> Prop) (f : A -> list B) l : Forall (fun x => Forall P (f x)) l -> Forall P (List.concat (List.map f l)).
Proof. induction 1; cbn; [constructor|]. by apply Forall_app. Qed.
Lemma forallb_Forall2 {A} (p : A -> bool) (Q : A -> Prop) l : Forall (fun x => p x = true -> Q x) l -> forallb p l = true -> Forall Q l.
Proof. induction 1 as [|x l Hx _ IH]; cbn; [constructor|]. intros [H1 H2]%andb_true_iff. constructor; auto. Qed.

Lemma names_col_replace col op part l : names_col col op (sys_replace part l) = names_col col op l.
Proof. destruct l; try done. cbn [sys_replace]. by destruct (names_col "TABLE_NAME" Operator l1). Qed.
(** After the change every comparison with TABLE_NAME is with the partition. *)
Lemma sys_replace_names part e : no_escapes e = true -> Forall (name_is part) (walk_cmps (sys_replace part e)).
Proof.
  induction e as [l r IHl IHr|l r IHl IHr|e IH|op l r esc IHl IHr _|v| |c|es IH|es IH|n d args IH|k es IH] using Expr_ind'; cbn; intros He; try constructor; auto.
  - apply andb_true_iff in He as [??]. apply Forall_app; auto.
  - apply andb_true_iff in He as [??]. apply Forall_app; auto.
  - destruct esc; [done|]. apply andb_true_iff in He as [Hl Hr]. destruct (names_col "TABLE_NAME" op l) eqn:Hn; cbn.
    + unfold names_col in Hn. destruct l; try (by rewrite andb_false_r in Hn). cbn. constructor; [done|constructor].
    + constructor; [|rewrite app_nil_r; apply Forall_app; auto]. intros H. cbn [fst snd] in H.
      by rewrite names_col_replace, Hn in H.
  - rewrite List.map_map. apply Forall_concat_map. eapply forallb_Forall2; done.
  - rewrite List.map_map. apply Forall_concat_map. eapply forallb_Forall2; done.
  - rewrite List.map_map. apply Forall_concat_map. induction args as [|a args IHa]; [constructor|].
    cbn in He. apply andb_true_iff in He as [H1 H2]. destruct a as [t|x s|]; cbn in IH.
    + constructor; [constructor|auto].
    + apply Forall_cons in IH as [Hx IH]. constructor; [auto|auto].
    + constructor; [constructor|auto].
  - rewrite List.map_map. apply Forall_concat_map. eapply forallb_Forall2; done.
Qed.

(** Two tables of one condition: both names become the partition of the last. *)
Definition tn_eq (name : string) : Expr := ComparisonExpr EqualStr (ColNameE (mkColName "table_name" (mkTableName "" ""))) (SQLValE (mkSQLVal StrVal name)) None.
Lemma sys_select_two_tables a b part : sys_value "TABLE_NAME" (OrExpr (tn_eq a) (tn_eq b)) = Some (mkSQLVal StrVal b)
  /\ sys_replace part (OrExpr (tn_eq a) (tn_eq b)) = OrExpr (tn_eq part) (tn_eq part).
Proof. done. Qed.
